(* ===== verification/_CoqProject ===== *)
-Q . S2P
Prelude.v
SizeMap.v
SizeClasses.v
Sampler.v
MallocHook.v
LinkedList.v
Bytes.v
Span.v
PackedCache.v
PageMap.v
SystemAlloc.v
SysEnv.v
MetaData.v
BumpOS.v
PageHeap.v
SpanStore.v
PageHeapInv.v
PageHeapOps.v
PageHeapAlloc.v
PageHeapGrow.v
PageHeapNew.v
PageHeapSpec.v
PageHeapCheck.v
PageHeapScenario.v
CentralFreeList.v
CentralInv.v
CentralTables.v
CentralOps.v
CentralPopulate.v
CentralRemove.v
CentralRelease.v
CentralInsert.v
StaticVars.v
CentralSpec.v
CentralScenario.v
ThreadCache.v
CachePtr.v
FrontEnd.v
MallocExt.v
Unsampled.v
CacheInv.v
CacheLimits.v
CacheOps.v
CacheAlloc.v
CacheFree.v
CacheThreads.v
FrontBlocks.v
FrontInv.v
FrontInit.v
FrontOps.v
MallocExtSpec.v
FrontSpec.v
FrontScenario.v
SkipList.v
LowLevelAlloc.v
LowLevelInv.v
LowLevelOps.v
LowLevelSpec.v
LowLevelArenas.v
EmergencyMalloc.v
EmergencySpec.v
LowLevelScenario.v
