(* ===== verification/Prelude.v ===== *)
(** * A verification of gperftools: tcmalloc

    The development models the allocator of gperftools ([src/]) by functions on an
    explicit state and proves what they promise, from the operating system up to
    [malloc] and [free].  The build is the default one for a 64-bit system: pages of
    8 KiB, 48 address bits, sampling compiled in, no debug assertions.

    ** The program and its model

    A request goes through four layers, each modelled in a file of its own:

    - [tcmalloc.cc] ([FrontEnd.v], [CachePtr.v], [FrontInit.v]): [malloc], [free],
      [realloc], [calloc], the aligned and the C++ functions, with their fast paths, the
      hooks ([MallocHook.v]: [malloc_hook.cc]), the new handler and sampling
      ([Sampler.v]: [sampler.cc]).  A thread finds its cache through
      [thread_cache_ptr.cc].  [MallocExt.v] has the malloc extension: statistics,
      properties, ownership, release of memory.
    - [thread_cache.cc] ([ThreadCache.v]): the free lists of one thread and the budget
      all caches share.
    - [central_freelist.cc] ([CentralFreeList.v], [StaticVars.v]): one list of spans and
      one transfer cache per size class; the classes are the tables of [common.cc]
      ([SizeMap.v], [SizeClasses.v]).
    - [page_heap.cc] ([PageHeap.v]): runs of pages, with the span lists and sets of
      [span.cc] ([Span.v]), the radix trees of [pagemap.h] ([PageMap.v]) and the size
      class cache of [packed-cache-inl.h] ([PackedCache.v]).  Below it are
      [system-alloc.cc] ([SystemAlloc.v]) and the metadata allocators of [common.cc] and
      [page_heap_allocator.h] ([MetaData.v]).

    Beside them is the low-level allocator of [base/low_level_alloc.cc], which other parts
    use when they cannot call [malloc]: [SkipList.v] has the skip list of its free blocks
    and [LowLevelAlloc.v] the arenas, all of it in words of memory.  Emergency malloc
    ([emergency_malloc.cc], [EmergencyMalloc.v]) is an arena over 16 MiB of its own.

    The state of a layer is a [Record] with the fields of the class and the state of the
    layer below; an operation is a computation [M S A] of a state monad whose result is a
    value, [Crash] (a failed check, a null dereference, a lookup that must not fail),
    [OutOfMemory] (the process ends for lack of metadata memory) or [NoFuel].  Memory
    that the code reads and writes through free objects is a map of 64-bit words
    ([LinkedList.v]; [Bytes.v] for [memset] and [memcpy]).  Integers are [Z] with the
    wrap-around of their width written out.

    What is not source code is a parameter: the system calls ([Class OS] with [OSLaws] in
    [SystemAlloc.v]), the logarithm of the mathematical library, the hash function of the
    standard library, the backtrace and the new handler.  Components meet at interfaces
    that are classes with laws: the page heap needs [Env] and [EnvLaws] ([SysEnv.v]),
    which [MetaData.v] provides, and [PageMap] with [PageMapLaws], which the radix trees
    provide; the thread caches need [CacheEnv]; arenas need a [PagesAllocator] with
    [PagesLaws] ([LowLevelSpec.v]), which the default one ([LowLevelScenario.v]) and that
    of emergency malloc ([EmergencySpec.v]) provide.  [BumpOS.v] is a small operating system
    that satisfies [OSLaws] and runs; the [*Scenario.v] files evaluate the whole stack on
    it and apply the theorems there.

    ** The theorems

    - [FrontSpec.v]: what [malloc], [free], [realloc], [calloc] and the aligned functions
      do to the blocks of the application, errors included, and safety of every
      sequence of calls from the start of the process: blocks never overlap and keep what
      was written.  Sampling is off there (the default).  [FrontBlocks.v], [FrontInv.v] and
      [FrontOps.v] carry the invariant.
    - [MallocExtSpec.v]: the statistics balance, the traversal of the heap is complete,
      memory is released as asked for.
    - [CacheInv.v] to [CacheThreads.v]: the invariant of the thread caches.
    - [CentralInv.v] to [CentralSpec.v]: objects are conserved and never handed out twice.
    - [SpanStore.v], [PageHeapInv.v] to [PageHeapSpec.v]: the page heap refines a map from
      descriptors to disjoint page ranges; [PageHeapCheck.v]: its own checks succeed and
      its statistics are exact.
    - [LowLevelInv.v] to [LowLevelArenas.v]: an arena's free list and headers describe
      disjoint blocks, allocation is first fit, and blocks keep what was stored in them;
      [EmergencySpec.v]: the same for emergency malloc, its start, the recognition of its
      pointers and [EmergencyRealloc].
    - [PageMap.v], [PackedCache.v], [Span.v], [LinkedList.v], [SizeClasses.v],
      [SystemAlloc.v], [MetaData.v], [MallocHook.v], [Sampler.v]: the components alone.

    ** Fuel

    Loops that are not structural take fuel, and running out of it is an error no theorem
    allows: specifications are stated with [wp], which is false of [Crash] and [NoFuel].
    The fuel is computed from the state (the length of a list, the number of pages of a
    range) and shown to be enough, except for the new handler, whose rounds are bounded
    by a hypothesis on the handler.  The generator of the skip list gets 2^30 + 1 rounds,
    more than its period allows without a set bit, and a search of a skip list one round
    per word of memory.

    ** What is not modelled

    Operations run one after the other: the interleaving of threads inside an operation,
    spin locks and memory orderings are not modelled.  The output of statistics and
    logging, the debug allocator, the profilers, stack unwinding, the readers of process
    maps and ELF images, symbol interposition and the Windows port are not modelled.
    [DeleteArena], and arenas inside the default one, are modelled without theorems; the
    front end runs with emergency malloc off. *)
From Stdlib Require Export ZArith Lia.
From stdpp Require Export base numbers option gmap.
From stdpp Require Export list.

#[export] Set Default Goal Selector "!".

(** ** Machine integers *)

Declare Scope mach_scope.
Delimit Scope mach_scope with mach.
Open Scope Z_scope.

(** Unsigned wrap-around at [w] bits. *)
Definition wrap (w z : Z) : Z := z mod 2 ^ w.

(** [size_t], [uintptr_t] and [uint64_t] of the LP64 build: modulo 2^64 (the
    power is written out so that evaluation does not recompute it). *)
Definition u64 (z : Z) : Z := z mod 18446744073709551616.
Definition u32 (z : Z) : Z := z mod 4294967296.
Definition u16 (z : Z) : Z := z mod 65536.
Definition u8 (z : Z) : Z := z mod 256.

(** Conversion to a signed [w]-bit integer (two's complement). *)
Definition swrap (w z : Z) : Z :=
  let m := z mod 2 ^ w in if m <? 2 ^ (w - 1) then m else m - 2 ^ w.
Definition i32 (z : Z) : Z := swrap 32 z.
Definition i64 (z : Z) : Z := swrap 64 z.

Notation "a +64 b" := (u64 (a + b)) (at level 50, left associativity) : mach_scope.
Notation "a -64 b" := (u64 (a - b)) (at level 50, left associativity) : mach_scope.

Lemma u64_small z : 0 <= z < 2 ^ 64 -> u64 z = z.
Proof. apply Z.mod_small. Qed.

Lemma u64_range z : 0 <= u64 z < 2 ^ 64.
Proof. apply Z.mod_pos_bound. lia. Qed.

Lemma u32_small z : 0 <= z < 2 ^ 32 -> u32 z = z.
Proof. apply Z.mod_small. Qed.

Lemma u16_small z : 0 <= z < 2 ^ 16 -> u16 z = z.
Proof. apply Z.mod_small. Qed.

Lemma u8_small z : 0 <= z < 2 ^ 8 -> u8 z = z.
Proof. apply Z.mod_small. Qed.

Lemma u64_add_l a b : u64 (u64 a + b) = u64 (a + b).
Proof. apply Zplus_mod_idemp_l. Qed.

Lemma u64_sub_l a b : u64 (u64 a - b) = u64 (a - b).
Proof. apply Zminus_mod_idemp_l. Qed.

Lemma u64_idemp a : u64 (u64 a) = u64 a.
Proof. apply Zmod_mod. Qed.

Lemma swrap_small w z : 0 < w -> - 2 ^ (w - 1) <= z < 2 ^ (w - 1) -> swrap w z = z.
Proof.
  intros Hw Hz. assert (2 ^ w = 2 * 2 ^ (w - 1)) as Hp.
  { rewrite <- Z.pow_succ_r by lia. f_equal. lia. }
  unfold swrap. rewrite Hp in *. destruct (Z.le_gt_cases 0 z).
  - rewrite Z.mod_small by lia. destruct (Z.ltb_spec z (2 ^ (w - 1))); lia.
  - rewrite <- (Z_mod_plus_full z 1), Z.mod_small by lia.
    destruct (Z.ltb_spec (z + 1 * (2 * 2 ^ (w - 1))) (2 ^ (w - 1))); lia.
Qed.

Lemma i32_small z : - 2 ^ 31 <= z < 2 ^ 31 -> i32 z = z.
Proof. intros. by apply swrap_small. Qed.

Lemma i64_small z : - 2 ^ 63 <= z < 2 ^ 63 -> i64 z = z.
Proof. intros. by apply swrap_small. Qed.

(** Clearing the low [k] bits of a 64-bit number. *)
Lemma land_high_mask x k : 0 <= x < 2 ^ 64 -> 0 <= k <= 64 ->
  Z.land x (u64 (Z.lnot (u64 (2 ^ k - 1)))) = x / 2 ^ k * 2 ^ k.
Proof.
  intros Hx Hk. assert (2 ^ k <= 2 ^ 64) by (apply Z.pow_le_mono_r; lia).
  assert (0 < 2 ^ k) by (apply Z.pow_pos_nonneg; lia).
  rewrite (u64_small (2 ^ k - 1)) by lia.
  replace (2 ^ k - 1) with (Z.ones k) by (rewrite Z.ones_equiv; lia).
  unfold u64. change 18446744073709551616 with (2 ^ 64). rewrite <- Z.land_ones by lia.
  rewrite (Z.land_comm _ (Z.ones 64)), Z.land_assoc, Z.land_ones, Z.mod_small by lia.
  rewrite <- Z.ldiff_land, Z.ldiff_ones_r by lia.
  by rewrite Z.shiftl_mul_pow2, Z.shiftr_div_pow2 by lia.
Qed.

(** Bits above the width of a value are zero. *)
Lemma testbit_high k w n : 0 <= k < 2 ^ w -> 0 <= w <= n -> Z.testbit k n = false.
Proof.
  intros Hk Hn. rewrite Z.testbit_false by lia. rewrite Z.div_small; [done|].
  split; [lia|]. apply Z.lt_le_trans with (2 ^ w); [lia|]. apply Z.pow_le_mono_r; lia.
Qed.

(** ** Results of a computation

    [Crash] is a failed [CHECK_CONDITION], a [Log(kCrash, ...)] or the use of a
    null or dangling pointer; [OutOfMemory] is the deliberate [Log(kCrash, ...)]
    when no memory is left for the allocator's own data; [NoFuel] marks a loop
    whose fuel ran out, so that a theorem about termination is a theorem that
    [NoFuel] is not the result. *)

Inductive result (A : Type) : Type :=
| Ok (a : A)
| Crash
| OutOfMemory
| NoFuel.
Arguments Ok {A} a.
Arguments Crash {A}.
Arguments OutOfMemory {A}.
Arguments NoFuel {A}.

#[export] Instance result_ret : MRet result := fun A a => Ok a.
#[export] Instance result_bind : MBind result := fun A B f m =>
  match m with
  | Ok a => f a
  | Crash => Crash
  | OutOfMemory => OutOfMemory
  | NoFuel => NoFuel
  end.

(** [CHECK_CONDITION(b)]. *)
Definition check (b : bool) : result unit := if b then Ok tt else Crash.

Lemma bind_Ok {A B} (f : A -> result B) (m : result A) b :
  m ≫= f = Ok b <-> exists a, m = Ok a /\ f a = Ok b.
Proof. destruct m; naive_solver. Qed.

Lemma check_Ok b x : check b = Ok x <-> b = true.
Proof. destruct b, x; naive_solver. Qed.

(** ** Computations on a state *)

Definition M (S A : Type) : Type := S -> result (A * S).

#[export] Instance M_ret {S} : MRet (M S) := fun A a s => Ok (a, s).
#[export] Instance M_bind {S} : MBind (M S) := fun A B f m s =>
  '(a, s) ← m s;
  f a s.

Definition get_state {S} : M S S := fun s => Ok (s, s).
Definition put_state {S} (s : S) : M S unit := fun _ => Ok (tt, s).
Definition modify {S} (f : S -> S) : M S unit := fun s => Ok (tt, f s).
Definition crash {S A} : M S A := fun _ => Crash.
Definition no_fuel {S A} : M S A := fun _ => NoFuel.
Definition out_of_memory {S A} : M S A := fun _ => OutOfMemory.

(** Nothing to do. *)
Definition skip {S} : M S unit := mret tt.

(** [wp m Q s]: run from [s], the computation [m] neither crashes nor diverges,
    and if it returns then the value and the new state satisfy [Q].  Giving up
    because the allocator's own data cannot be allocated is permitted: the
    program does that on purpose. *)
Definition wp {S A} (m : M S A) (Q : A -> S -> Prop) (s : S) : Prop :=
  match m s with
  | Ok (a, s') => Q a s'
  | OutOfMemory => True
  | Crash | NoFuel => False
  end.

Lemma bind_run {S A B} (m : M S A) (f : A -> M S B) s a s' :
  m s = Ok (a, s') -> (m ≫= f) s = f a s'.
Proof. intros H. unfold mbind, M_bind, mbind, result_bind. by rewrite H. Qed.

Lemma wp_ret {S A} (a : A) Q (s : S) : Q a s -> wp (mret a) Q s.
Proof. done. Qed.

Lemma wp_bind {S A B} (m : M S A) (f : A -> M S B) Q s :
  wp m (fun a => wp (f a) Q) s -> wp (m ≫= f) Q s.
Proof. unfold wp, mbind, M_bind, mbind, result_bind. by destruct (m s) as [[a s']| | |]. Qed.

Lemma wp_bind_inv {S A B} (m : M S A) (f : A -> M S B) Q s :
  wp (m ≫= f) Q s -> wp m (fun a => wp (f a) Q) s.
Proof. unfold wp, mbind, M_bind, mbind, result_bind. by destruct (m s) as [[a s']| | |]. Qed.

Lemma wp_mono {S A} (m : M S A) (Q Q' : A -> S -> Prop) s :
  wp m Q s -> (forall a s', Q a s' -> Q' a s') -> wp m Q' s.
Proof. unfold wp. destruct (m s) as [[a s']| | |]; auto. Qed.

Lemma wp_get {S} Q (s : S) : Q s s -> wp get_state Q s.
Proof. done. Qed.

Lemma wp_modify {S} f Q (s : S) : Q tt (f s) -> wp (modify f) Q s.
Proof. done. Qed.

Lemma wp_conj {S A} (m : M S A) (Q Q' : A -> S -> Prop) s :
  wp m Q s -> wp m Q' s -> wp m (fun a s' => Q a s' /\ Q' a s') s.
Proof. unfold wp. destruct (m s) as [[a s']| | |]; auto. Qed.

(** A run that returned satisfies the postcondition. *)
Lemma wp_Ok {S A} (m : M S A) Q s a s' : wp m Q s -> m s = Ok (a, s') -> Q a s'.
Proof. unfold wp. intros H E. by rewrite E in H. Qed.

Lemma wp_returns {S A} (m : M S A) (Q : A -> S -> Prop) s a s' : m s = Ok (a, s') -> Q a s' -> wp m Q s.
Proof. intros H HQ. unfold wp. by rewrite H. Qed.

(** Computations that never give up for lack of memory of their own. *)
Definition no_oom {S A} (m : M S A) : Prop := forall s, m s <> OutOfMemory.

Lemma no_oom_ret {S A} (a : A) : no_oom (S := S) (mret a).
Proof. done. Qed.

Lemma no_oom_get {S} : no_oom (S := S) get_state.
Proof. done. Qed.

Lemma no_oom_modify {S} f : no_oom (S := S) (modify f).
Proof. done. Qed.

Lemma no_oom_crash {S A} : no_oom (S := S) (A := A) crash.
Proof. done. Qed.

Lemma no_oom_no_fuel {S A} : no_oom (S := S) (A := A) no_fuel.
Proof. done. Qed.

Lemma no_oom_bind {S A B} (m : M S A) (f : A -> M S B) :
  no_oom m -> (forall a, no_oom (f a)) -> no_oom (m ≫= f).
Proof.
  intros Hm Hf s. unfold mbind, M_bind, mbind, result_bind. specialize (Hm s).
  destruct (m s) as [[a s']| | |]; try done. apply Hf.
Qed.

Create HintDb no_oom.
#[export] Hint Resolve no_oom_ret no_oom_get no_oom_modify no_oom_crash no_oom_no_fuel : no_oom.

Ltac solve_no_oom :=
  repeat first
    [ solve [eauto with no_oom]
    | apply no_oom_bind; [|intros ?]
    | progress cbv zeta
    | match goal with |- no_oom (if ?b then _ else _) => destruct b end
    | match goal with |- no_oom (match ?x with _ => _ end) => destruct x end ].

Lemma wp_total {S A} (m : M S A) Q s :
  no_oom m -> wp m Q s -> exists a s', m s = Ok (a, s') /\ Q a s'.
Proof. unfold wp. intros Hm. specialize (Hm s). destruct (m s) as [[a s']| | |]; naive_solver. Qed.

(** ** Arrays of the program: zero-initialised, indexed by integers. *)

Definition arr_get (m : gmap Z Z) (i : Z) : Z := default 0 (m !! i).

Lemma arr_get_insert_eq m i v : arr_get (<[i:=v]> m) i = v.
Proof. unfold arr_get. by rewrite lookup_insert_eq. Qed.

Lemma arr_get_insert_ne m i j v : i ≠ j -> arr_get (<[i:=v]> m) j = arr_get m j.
Proof. intros. unfold arr_get. by rewrite lookup_insert_ne. Qed.

(** ** Lists *)

Lemma last_cons_default {A} (x : A) (l : list A) d :
  List.last (x :: l) d = List.last l x.
Proof.
  revert x d. induction l as [|y l IH]; intros; [done|].
  change (List.last (x :: y :: l) d) with (List.last (y :: l) d). by rewrite !IH.
Qed.

(** ** Sums over finite maps *)

Section msum.
Context {A : Type}.
Implicit Types (f g : Z -> A -> Z) (m : gmap Z A).

Definition msum (f : Z -> A -> Z) (m : gmap Z A) : Z :=
  map_fold (fun k x acc => f k x + acc) 0 m.

Lemma msum_empty f : msum f ∅ = 0.
Proof. done. Qed.

Lemma msum_insert f m k x : m !! k = None -> msum f (<[k := x]> m) = f k x + msum f m.
Proof. intros. unfold msum. rewrite map_fold_insert_L; [done| |done]. intros; lia. Qed.

Lemma msum_delete f m k x : m !! k = Some x -> msum f m = f k x + msum f (delete k m).
Proof.
  intros Hk. rewrite <- (insert_delete_id m k x) at 1 by done.
  rewrite msum_insert by apply lookup_delete_eq. done.
Qed.

Lemma msum_update f m k x y :
  m !! k = Some x -> msum f (<[k := y]> m) = msum f m - f k x + f k y.
Proof.
  intros Hk. rewrite (msum_delete f m k x) by done. rewrite <- insert_delete_eq.
  rewrite msum_insert by apply lookup_delete_eq. lia.
Qed.

Lemma msum_ext f g m :
  (forall k x, m !! k = Some x -> f k x = g k x) -> msum f m = msum g m.
Proof.
  induction m as [|k x m Hk IH] using map_ind; intros Hfg; [done|].
  rewrite !msum_insert by done. f_equal; [apply Hfg; by rewrite lookup_insert_eq|].
  apply IH. intros j y Hj. apply Hfg. rewrite lookup_insert_ne; [done|]. by intros ->; rewrite Hk in Hj.
Qed.

Lemma msum_le f g m :
  (forall k x, m !! k = Some x -> f k x <= g k x) -> msum f m <= msum g m.
Proof.
  induction m as [|k x m Hk IH] using map_ind; intros Hfg; [done|].
  rewrite !msum_insert by done. apply Z.add_le_mono; [apply Hfg; by rewrite lookup_insert_eq|].
  apply IH. intros j y Hj. apply Hfg. rewrite lookup_insert_ne; [done|]. by intros ->; rewrite Hk in Hj.
Qed.

Lemma msum_nonneg f m : (forall k x, m !! k = Some x -> 0 <= f k x) -> 0 <= msum f m.
Proof.
  intros Hf. assert (msum (fun _ _ => 0) m = 0) as <-; [|by apply msum_le].
  clear Hf. induction m as [|k x m Hk IH] using map_ind; [done|]. by rewrite msum_insert.
Qed.

Lemma msum_elem f m k x :
  m !! k = Some x -> (forall j y, m !! j = Some y -> 0 <= f j y) -> f k x <= msum f m.
Proof.
  intros Hk Hf. rewrite (msum_delete f m k x) by done.
  assert (0 <= msum f (delete k m)); [|lia]. apply msum_nonneg.
  intros j y Hj. apply lookup_delete_Some in Hj as [_ Hj]. by apply Hf.
Qed.

Lemma msum_add f g m : msum (fun k x => f k x + g k x) m = msum f m + msum g m.
Proof.
  induction m as [|k x m Hk IH] using map_ind; [done|]. rewrite !msum_insert by done. lia.
Qed.

Lemma msum_pos f m :
  (forall k x, m !! k = Some x -> 0 <= f k x) -> 0 < msum f m ->
  exists k x, m !! k = Some x /\ 0 < f k x.
Proof.
  induction m as [|k x m Hk IH] using map_ind; intros Hf Hp; [done|].
  rewrite msum_insert in Hp by done.
  destruct (Z.lt_ge_cases 0 (f k x)) as [|Hle].
  - exists k, x. by rewrite lookup_insert_eq.
  - assert (forall j y, m !! j = Some y -> <[k := x]> m !! j = Some y) as Hm.
    { intros j y Hj. rewrite lookup_insert_ne; [done|]. by intros ->; rewrite Hk in Hj. }
    destruct IH as (j & y & Hj & Hy); [intros j y Hj; by apply Hf, Hm| |].
    + specialize (Hf k x). rewrite lookup_insert_eq in Hf. specialize (Hf eq_refl). lia.
    + exists j, y. auto.
Qed.
Lemma msum_zero f m : (forall k x, m !! k = Some x -> f k x = 0) -> msum f m = 0.
Proof.
  intros Hf. rewrite (msum_ext f (fun _ _ => 0)) by done. clear Hf.
  induction m as [|k x m Hk IH] using map_ind; [done|]. by rewrite msum_insert.
Qed.
End msum.

(** ** Automation *)

(** Turn the boolean tests of the code into propositions. *)
Ltac propify :=
  repeat match goal with
  | H : (_ && _) = true |- _ => apply andb_prop in H as [? ?]
  | H : (_ =? _) = true |- _ => apply Z.eqb_eq in H
  | H : (_ =? _) = false |- _ => apply Z.eqb_neq in H
  | H : (_ <=? _) = true |- _ => apply Z.leb_le in H
  | H : (_ <=? _) = false |- _ => apply Z.leb_gt in H
  | H : (_ <? _) = true |- _ => apply Z.ltb_lt in H
  | H : (_ <? _) = false |- _ => apply Z.ltb_ge in H
  | H : negb _ = true |- _ => apply negb_true_iff in H
  | H : negb _ = false |- _ => apply negb_false_iff in H
  end.

(** Split on the innermost test of a hypothesis or of the goal. *)
Ltac case_if :=
  match goal with
  | |- context [if ?b then _ else _] => destruct b eqn:?
  | H : context [if ?b then _ else _] |- _ => destruct b eqn:?
  end.

(** Step through a computation in the result monad that succeeded. *)
Ltac inv_res :=
  repeat match goal with
  | H : _ ≫= _ = Ok _ |- _ =>
      let x := fresh "x" in let E := fresh "E" in
      apply bind_Ok in H as (x & E & H)
  | H : check _ = Ok _ |- _ => apply check_Ok in H
  | H : Ok _ = Ok _ |- _ => injection H as H
  | H : mret _ = Ok _ |- _ => injection H as H
  | H : Crash = Ok _ |- _ => discriminate H
  | H : OutOfMemory = Ok _ |- _ => discriminate H
  | H : NoFuel = Ok _ |- _ => discriminate H
  end.

(** Step through the primitive commands of a [wp] goal. *)
Ltac wp_pure :=
  repeat (lazymatch goal with
    | |- wp (mret _) _ _ => apply wp_ret
    | |- wp skip _ _ => apply wp_ret
    | |- wp (_ ≫= _) _ _ => apply wp_bind
    | |- wp get_state _ _ => apply wp_get
    | |- wp (modify _) _ _ => apply wp_modify
    end; cbv beta);
  simpl.
