(* ===== verification/SizeMap.v ===== *)
(** Size classes: [src/common.h] and the first half of [src/common.cc].

    The configuration constants of the default LP64 build, the page rounding,
    [class SizeMap] with the construction of its tables in [Init], and the
    look-ups [SizeClass], [GetSizeClass], [ByteSizeForClass]. *)
From S2P Require Import Prelude.
From Stdlib Require Import SpecFloat.

(** ** Configuration (common.h, default build: 64-bit, 8 KiB logical pages) *)

Definition kMinAlign : Z := 16.
Definition kPageShift : Z := 13.
Definition kClassSizesMax : Z := 128.
Definition kPageSize : Z := Z.shiftl 1 kPageShift.
Definition kMaxSize : Z := 256 * 1024.
Definition kAlignment : Z := 8.
Definition kMaxPages : Z := Z.shiftl 1 (20 - kPageShift).
Definition kMaxValidPages : Z := Z.shiftr (2 ^ 64 - 1) kPageShift.
Definition kAddressBits : Z := 48.
Definition kDefaultTransferNumObjecs : Z := 32.
Definition kMaxSmallSize : Z := 1024.
Definition kClassArraySize : Z := Z.shiftr (kMaxSize + 127 + Z.shiftl 120 7) 7 + 1.

(** [pages(bytes)]: the number of pages that hold [bytes] bytes. *)
Definition pages (bytes : Z) : Z :=
  Z.shiftr bytes kPageShift +
  (if Z.land bytes (kPageSize - 1) >? 0 then 1 else 0).

(** ** Alignment of a size *)

(** The loop of [LgFloor]: [i] counts down from 4 to 0. *)
Fixpoint LgFloor_loop (i : nat) (n log : Z) : Z :=
  let shift := Z.shiftl 1 (Z.of_nat i) in
  let x := Z.shiftr n shift in
  let '(n, log) := if negb (x =? 0) then (x, log + shift) else (n, log) in
  match i with
  | O => log
  | S i' => LgFloor_loop i' n log
  end.

Definition LgFloor (n : Z) : Z := LgFloor_loop 4 n 0.

Definition AlignmentForSize (size : Z) : result Z :=
  let alignment := kAlignment in
  let alignment :=
    if size >? kMaxSize then kPageSize
    else if size >=? 128 then Z.shiftl 1 (LgFloor size) / 8
    else if size >=? kMinAlign then kMinAlign
    else alignment in
  let alignment := if alignment >? kPageSize then kPageSize else alignment in
  check ((size <? kMinAlign) || (alignment >=? kMinAlign)) ;;
  check (Z.land alignment (alignment - 1) =? 0) ;;
  mret alignment.

(** ** Batch sizes

    [64.0 * 1024.0 / size] is an IEEE 754 double division; [SpecFloat] is the
    Standard Library's executable definition of it (53 bits of precision,
    exponents below 1024). *)

Definition double_of_Z (z : Z) : spec_float := binary_normalize 53 1024 z 0 false.

(** [static_cast<int>] of a double in range: truncation towards zero. *)
Definition int_of_double (f : spec_float) : Z :=
  match f with
  | S754_finite s m e =>
      let v := if 0 <=? e then Z.shiftl (Zpos m) e else Z.shiftr (Zpos m) (- e) in
      if s then - v else v
  | _ => 0
  end.

Definition NumMoveSize (FLAGS_tcmalloc_transfer_num_objects size : Z) : Z :=
  if size =? 0 then 0 else
  let num :=
    int_of_double
      (SFdiv 53 1024 (SFmul 53 1024 (double_of_Z 64) (double_of_Z 1024))
                     (double_of_Z size)) in
  let num := if num <? 2 then 2 else num in
  if num >? FLAGS_tcmalloc_transfer_num_objects
  then FLAGS_tcmalloc_transfer_num_objects else num.

(** [InitTCMallocTransferNumObjects]: [envval] is [strtol] of the environment
    variable [TCMALLOC_TRANSFER_NUM_OBJ] when it is set. *)
Definition InitTCMallocTransferNumObjects (flag : Z) (envval : option Z) : Z :=
  if flag =? 0 then
    match envval with
    | None => kDefaultTransferNumObjecs
    | Some v => i32 v
    end
  else flag.

(** ** Indices into [class_array_] *)

Definition SmallSizeClass (s : Z) : Z := Z.shiftr (u32 (u32 s + 7)) 3.
Definition LargeSizeClass (s : Z) : Z :=
  Z.shiftr (u32 (u32 s + 127 + Z.shiftl 120 7)) 7.

Definition ClassIndexMaybe (s : Z) : option Z :=
  if s <=? kMaxSmallSize then Some (Z.shiftr (u32 (u32 s + 7)) 3)
  else if s <=? kMaxSize then
    Some (Z.shiftr (u32 (u32 s + 127 + Z.shiftl 120 7)) 7)
  else None.

Definition ClassIndex (s : Z) : Z :=
  if s <=? kMaxSmallSize then SmallSizeClass s else LargeSizeClass s.

(** ** The tables *)

Record SizeMap := mkSizeMap {
  class_array_ : gmap Z Z;
  num_objects_to_move_ : gmap Z Z;
  class_to_size_ : gmap Z Z;
  class_to_pages_ : gmap Z Z;
  min_span_size_in_pages_ : Z;
  num_size_classes : Z
}.

Definition SizeClass (sm : SizeMap) (size : Z) : Z :=
  arr_get (class_array_ sm) (ClassIndex size).

Definition GetSizeClass (sm : SizeMap) (size : Z) : option Z :=
  match ClassIndexMaybe size with
  | None => None
  | Some idx => Some (arr_get (class_array_ sm) idx)
  end.

Definition ByteSizeForClass (sm : SizeMap) (cl : Z) : Z := arr_get (class_to_size_ sm) cl.
Definition class_to_size (sm : SizeMap) (cl : Z) : Z := arr_get (class_to_size_ sm) cl.
Definition class_to_pages (sm : SizeMap) (cl : Z) : Z := arr_get (class_to_pages_ sm) cl.
Definition num_objects_to_move (sm : SizeMap) (cl : Z) : Z :=
  arr_get (num_objects_to_move_ sm) cl.

(** ** [SizeMap::Init] *)

Section Init.
Context (flag : Z)            (* FLAGS_tcmalloc_transfer_num_objects *)
        (min_span_size : Z).

(** The inner [while]: grow [psize] until at most 1/8 of it is left over. *)
Fixpoint grow_waste (fuel : nat) (size psize : Z) : result Z :=
  match fuel with
  | O => NoFuel
  | S fuel =>
      if psize mod size >? Z.shiftr psize 3
      then grow_waste fuel size (u64 (psize + min_span_size))
      else Ok psize
  end.

(** Enough for every [size <= kMaxSize] and [min_span_size >= kPageSize]:
    see [grow_waste_total]. *)
Definition waste_fuel : nat := 300.

(** The [do ... while]: at least [blocks_to_move] objects per span.  The
    comparison is between a [size_t] and an [int], which C++ does unsigned. *)
Fixpoint grow_span (fuel : nat) (size blocks_to_move psize : Z) : result Z :=
  match fuel with
  | O => NoFuel
  | S fuel =>
      psize ← grow_waste waste_fuel size (u64 (psize + min_span_size));
      if psize / size <? u64 blocks_to_move
      then grow_span fuel size blocks_to_move psize
      else Ok psize
  end.

(** Two rounds are enough: see [grow_span_total]. *)
Definition span_fuel : nat := 3.

(** One round of the loop over [size] that chooses the classes: the state is
    [(sc, class_to_pages_, class_to_size_)]. *)
Definition add_class (size : Z) (st : Z * gmap Z Z * gmap Z Z)
    : result (Z * gmap Z Z * gmap Z Z) :=
  let '(sc, cpages, csize) := st in
  let blocks_to_move := Z.quot (NumMoveSize flag size) 4 in
  psize ← grow_span span_fuel size blocks_to_move 0;
  let my_pages := Z.shiftr psize kPageShift in
  let merge :=
    if (sc >? 1) && (my_pages =? arr_get cpages (sc - 1)) then
      let my_objects := Z.shiftl my_pages kPageShift / size in
      let prev_objects :=
        Z.shiftl (arr_get cpages (sc - 1)) kPageShift / arr_get csize (sc - 1) in
      my_objects =? prev_objects
    else false in
  if merge then Ok (sc, cpages, <[sc - 1 := size]> csize)
  else Ok (sc + 1, <[sc := my_pages]> cpages, <[sc := size]> csize).

Fixpoint class_loop (fuel : nat) (size : Z) (st : Z * gmap Z Z * gmap Z Z)
    : result (Z * gmap Z Z * gmap Z Z) :=
  match fuel with
  | O => NoFuel
  | S fuel =>
      if size <=? kMaxSize then
        alignment ← AlignmentForSize size;
        check (size mod alignment =? 0) ;;
        st ← add_class size st;
        class_loop fuel (size + alignment) st
      else Ok st
  end.

(** Sizes advance by at least [kAlignment]. *)
Definition class_fuel : nat := Z.to_nat (kMaxSize / kAlignment + 2).
End Init.

(** Fill [class_array_] for one class: [s] runs over [next_size, next_size + 8,
    ...] up to [max_size_in_class]; [n] is the number of rounds left. *)
Fixpoint fill_loop (n : nat) (c s : Z) (arr : gmap Z Z) : gmap Z Z :=
  match n with
  | O => arr
  | S n => fill_loop n c (s + kAlignment) (<[ClassIndex s := c mod 256]> arr)
  end.

Definition fill_class (arr : gmap Z Z) (c next_size max_size_in_class : Z) : gmap Z Z :=
  fill_loop (Z.to_nat ((max_size_in_class - next_size) / kAlignment + 1)) c next_size arr.

(** One class of the loop over [c]; the state is [(class_array_, next_size)]. *)
Definition fill_step (csize : gmap Z Z) (st : gmap Z Z * Z) (c : Z) : gmap Z Z * Z :=
  let '(arr, next_size) := st in
  let max_size_in_class := arr_get csize c in
  (fill_class arr c next_size max_size_in_class, max_size_in_class + kAlignment).

Definition fill_classes (csize : gmap Z Z) (num : Z) : gmap Z Z :=
  fst (foldl (fill_step csize) (∅, 0) (seqZ 1 (num - 1))).

(** "Double-check sizes just to be safe". *)
Fixpoint double_check (fuel : nat) (sm : SizeMap) (size : Z) : result unit :=
  match fuel with
  | O => NoFuel
  | S fuel =>
      if size <=? kMaxSize then
        let sc := SizeClass sm size in
        check (negb ((sc <=? 0) || (sc >=? num_size_classes sm))) ;;
        check (negb ((sc >? 1) && (size <=? class_to_size sm (sc - 1)))) ;;
        let s := class_to_size sm sc in
        check (negb ((size >? s) || (s =? 0))) ;;
        double_check fuel sm (if size <=? kMaxSmallSize then size + 8 else size + 128)
      else Ok tt
  end.

(** The check of naturally aligned sizes, for one [align]. *)
Definition check_align_row (sm : SizeMap) (align : Z) : bool :=
  forallb (fun k => class_to_size sm (SizeClass sm (align * k)) mod align =? 0)
          (seqZ 1 ((kPageSize - 1) / align)).

Fixpoint check_align (fuel : nat) (sm : SizeMap) (align : Z) : result unit :=
  match fuel with
  | O => NoFuel
  | S fuel =>
      if align <=? kPageSize then
        check (check_align_row sm align) ;;
        check_align fuel sm (Z.shiftl align 1)
      else Ok tt
  end.

Definition align_fuel : nat := 12.

(** The minimal span size in bytes chosen from the system page size. *)
Definition min_span_size_of (native_page_size : Z) : Z :=
  let min_span_size := Z.max native_page_size kPageSize in
  if (min_span_size >? kPageSize) && negb (min_span_size mod kPageSize =? 0)
  then kPageSize else min_span_size.

Definition init_moves (flag : Z) (csize : gmap Z Z) (num : Z) : gmap Z Z :=
  foldl (fun m cl => <[cl := NumMoveSize flag (arr_get csize cl)]> m) ∅
        (seqZ 1 (num - 1)).

Definition Init (flag native_page_size : Z) : result SizeMap :=
  let min_span_size := min_span_size_of native_page_size in
  check (ClassIndex 0 =? 0) ;;
  check (ClassIndex kMaxSize <? kClassArraySize) ;;
  check (kAlignment <=? kMinAlign) ;;
  '(sc, cpages, csize) ←
     class_loop flag min_span_size class_fuel kAlignment (1, ∅, ∅);
  check (negb (sc >? kClassSizesMax)) ;;
  let sm := mkSizeMap (fill_classes csize sc) ∅ csize cpages
                      (min_span_size / kPageSize) sc in
  double_check class_fuel sm 0 ;;
  check_align align_fuel sm kMinAlign ;;
  mret (mkSizeMap (class_array_ sm) (init_moves flag csize sc) csize cpages
                  (min_span_size / kPageSize) sc).

(** ** Arithmetic of the constants *)

Ltac consts :=
  unfold kMaxSize, kPageSize, kMaxPages, kAlignment, kMinAlign, kClassSizesMax,
    kMaxSmallSize, kPageShift in *;
  change (Z.shiftl 1 13) with 8192 in *; change (Z.shiftl 1 (20 - 13)) with 128 in *;
  change (256 * 1024) with 262144 in *.

(** ** [pages] *)

Lemma land_page_mask b : Z.land b (kPageSize - 1) = b mod kPageSize.
Proof. consts. change (8192 - 1) with (Z.ones 13). by rewrite Z.land_ones. Qed.

Lemma pages_bounds bytes :
  0 <= bytes < 2 ^ 64 ->
  (pages bytes - 1) * kPageSize < bytes <= pages bytes * kPageSize /\
  0 <= pages bytes <= kMaxValidPages + 1.
Proof.
  intros Hb. unfold pages. rewrite land_page_mask.
  rewrite Z.shiftr_div_pow2 by (unfold kPageShift; lia).
  replace kMaxValidPages with (2 ^ 51 - 1) by reflexivity.
  consts. change (2 ^ 13) with 8192.
  destruct (Z.gtb_spec (bytes mod 8192) 0); Z.div_mod_to_equations; lia.
Qed.

(** [pages] is exact: it is the least number of pages that holds the bytes
    (rounding up), for every 64-bit byte count, and it does not overflow. *)
Theorem pages_ceil bytes :
  0 <= bytes < 2 ^ 64 ->
  (pages bytes - 1) * kPageSize < bytes <= pages bytes * kPageSize /\
  0 <= pages bytes <= kMaxValidPages + 1.
Proof. apply pages_bounds. Qed.

(** ** [LgFloor] and [AlignmentForSize] *)

Lemma LgFloor_loop_log2 i : forall n log,
  0 < n < 2 ^ 2 ^ (Z.of_nat i + 1) -> LgFloor_loop i n log = log + Z.log2 n.
Proof.
  induction i as [|i IH]; intros n log Hn; simpl.
  - change (Z.shiftl 1 (Z.of_nat 0)) with 1. simpl in Hn.
    assert (n = 1 \/ n = 2 \/ n = 3) as [->|[->| ->]] by (simpl in Hn; lia); simpl; lia.
  - set (sh := Z.shiftl 1 (Z.of_nat (S i))).
    assert (Hsh : sh = 2 ^ (Z.of_nat i + 1)).
    { unfold sh. rewrite Z.shiftl_1_l. f_equal. lia. }
    assert (0 < sh) by (rewrite Hsh; apply Z.pow_pos_nonneg; lia).
    assert (Hn' : n < 2 ^ sh * 2 ^ sh).
    { rewrite <- Z.pow_add_r by lia. rewrite Hsh.
      replace (2 ^ (Z.of_nat i + 1) + 2 ^ (Z.of_nat i + 1))
        with (2 ^ (Z.of_nat (S i) + 1)); [lia|].
      rewrite (Z.pow_add_r 2 (Z.of_nat (S i)) 1) by lia.
      replace (Z.of_nat (S i)) with (Z.of_nat i + 1) by lia. lia. }
    assert (0 < 2 ^ sh) by (apply Z.pow_pos_nonneg; lia).
    rewrite Z.shiftr_div_pow2 by lia.
    destruct (Z.eqb_spec (n / 2 ^ sh) 0) as [E|E]; simpl.
    + apply IH. rewrite <- Hsh. apply Z.div_small_iff in E; lia.
    + assert (0 < n / 2 ^ sh) by (pose proof (Z.div_pos n (2 ^ sh)); lia).
      rewrite IH.
      * rewrite <- Z.shiftr_div_pow2, Z.log2_shiftr by lia.
        assert (sh <= Z.log2 n); [|lia].
        apply Z.log2_le_pow2; [lia|]. Z.div_mod_to_equations. nia.
      * rewrite <- Hsh. split; [done|]. apply Z.div_lt_upper_bound; lia.
Qed.

(** [LgFloor] computes the integer binary logarithm of every positive
    32-bit value, as the comment above it says. *)
Lemma LgFloor_log2 n : 0 < n < 2 ^ 32 -> LgFloor n = Z.log2 n.
Proof. intros. unfold LgFloor. by rewrite LgFloor_loop_log2. Qed.

Lemma land_pow2_pred k : 0 <= k -> Z.land (2 ^ k) (2 ^ k - 1) = 0.
Proof.
  intros.
  replace (2 ^ k - 1) with (Z.ones k) by (rewrite Z.ones_equiv; lia).
  rewrite Z.land_ones by done. apply Z_mod_same_full.
Qed.

(** [AlignmentForSize] never fails one of its checks; the alignment is a
    power of two between 8 bytes and the page size, is at least [kMinAlign] for
    sizes that need it, and for a small-object size of at least 128 bytes it is
    at most an eighth of the size (the 12.5% bound on alignment waste). *)
Theorem AlignmentForSize_spec size :
  0 < size < 2 ^ 64 ->
  exists a k, AlignmentForSize size = Ok a /\ a = 2 ^ k /\ 3 <= k <= 13 /\
    (kMinAlign <= size -> kMinAlign <= a) /\
    (128 <= size <= kMaxSize -> 8 * a <= size).
Proof.
  intros Hs.
  assert (Hk : exists k, 3 <= k <= 13 /\ (kMinAlign <= size -> 4 <= k) /\
    (128 <= size <= kMaxSize -> 8 * 2 ^ k <= size) /\
    (let al := if size >? kMaxSize then kPageSize
      else if size >=? 128 then Z.shiftl 1 (LgFloor size) / 8
      else if size >=? kMinAlign then kMinAlign else kAlignment in
     (if al >? kPageSize then kPageSize else al) = 2 ^ k)).
  { cbv zeta. rewrite ?Z.gtb_ltb, ?Z.geb_leb.
    destruct (Z.ltb_spec kMaxSize size); [exists 13; consts; simpl; lia|].
    destruct (Z.leb_spec 128 size).
    - rewrite LgFloor_log2 by (consts; lia).
      pose proof (Z.log2_spec size ltac:(lia)) as [Hl Hu].
      assert (7 <= Z.log2 size) by (apply Z.log2_le_pow2; lia).
      assert (Z.log2 size < 19) by (apply Z.log2_lt_pow2; consts; lia).
      rewrite Z.shiftl_1_l.
      assert (Hd : 2 ^ Z.log2 size = 8 * 2 ^ (Z.log2 size - 3)).
      { change 8 with (2 ^ 3). rewrite <- Z.pow_add_r by lia. f_equal. lia. }
      rewrite Hd, Z.mul_comm, Z.div_mul by lia.
      destruct (Z.ltb_spec kPageSize (2 ^ (Z.log2 size - 3))).
      + exists 13. consts. simpl in *. lia.
      + exists (Z.log2 size - 3). repeat split; try lia.
        destruct (Z.le_gt_cases (Z.log2 size - 3) 13); [done|].
        assert (2 ^ 14 <= 2 ^ (Z.log2 size - 3)) by (apply Z.pow_le_mono_r; lia).
        consts. lia.
    - destruct (Z.leb_spec kMinAlign size); [exists 4|exists 3]; consts; simpl; lia. }
  destruct Hk as (k & Hk & H4 & H8 & Hal). exists (2 ^ k), k.
  unfold AlignmentForSize. rewrite Hal. rewrite land_pow2_pred by lia. simpl.
  assert (2 ^ 3 <= 2 ^ k) by (apply Z.pow_le_mono_r; lia).
  rewrite Z.geb_leb.
  destruct (Z.ltb_spec size kMinAlign); simpl.
  - repeat split; try lia. 
  - assert (2 ^ 4 <= 2 ^ k) by (apply Z.pow_le_mono_r; lia).
    destruct (Z.leb_spec kMinAlign (2 ^ k)); consts; simpl; [|lia].
    repeat split; lia.
Qed.

Lemma pages_ceil_witness :
  (pages 8193 - 1) * kPageSize < 8193 <= pages 8193 * kPageSize /\
  0 <= pages 8193 <= kMaxValidPages + 1.
Proof. apply (pages_ceil 8193). lia. Defined.

Lemma AlignmentForSize_spec_witness :
  exists a k, AlignmentForSize 1000 = Ok a /\ a = 2 ^ k /\ 3 <= k <= 13 /\
    (kMinAlign <= 1000 -> kMinAlign <= a) /\ (128 <= 1000 <= kMaxSize -> 8 * a <= 1000).
Proof. apply (AlignmentForSize_spec 1000). lia. Defined.
