(* ===== verification/SizeClasses.v ===== *)
(** Correctness of the size-class tables that [SizeMap::Init] (common.cc) builds:
    the loops terminate, the tables classify every request, spans waste at most
    an eighth, naturally aligned sizes get naturally aligned objects. *)
From S2P Require Import Prelude SizeMap.

(** ** Span sizes *)

Section SpanSize.
Context (m : Z) (Hm : kPageSize <= m) (Hmax : m <= 2 ^ 40).

(** What the waste loop promises about the span size it stops at. *)
Definition waste_ok (size psize : Z) : Prop := psize mod size <= Z.shiftr psize 3.

Lemma waste_ok_big size psize : 0 < size -> 8 * size <= psize -> waste_ok size psize.
Proof.
  intros. unfold waste_ok. rewrite Z.shiftr_div_pow2 by lia. change (2 ^ 3) with 8.
  pose proof (Z.mod_pos_bound psize size). Z.div_mod_to_equations. lia.
Qed.

(** The waste loop stops as soon as the span is eight objects long, so the fuel
    needed is bounded by the distance to that. *)
Lemma grow_waste_total fuel : forall size psize,
  0 < size <= kMaxSize -> 0 < psize <= 2 ^ 50 -> psize mod m = 0 ->
  8 * size - psize <= (Z.of_nat fuel - 1) * m -> (0 < fuel)%nat ->
  exists p, grow_waste m fuel size psize = Ok p /\ psize <= p /\
    p <= Z.max psize (8 * size + m) /\ p mod m = 0 /\ waste_ok size p.
Proof.
  assert (0 < m) by (consts; lia).
  induction fuel as [|fuel IH]; intros size psize Hs Hp Hd Hf Hpos; [lia|]. simpl.
  rewrite Z.gtb_ltb. destruct (Z.ltb_spec (Z.shiftr psize 3) (psize mod size)) as [Hw|Hw].
  - assert (psize < 8 * size).
    { destruct (Z.lt_ge_cases psize (8 * size)); [done|].
      pose proof (waste_ok_big size psize ltac:(lia) ltac:(lia)). unfold waste_ok in *. lia. }
    assert (m < 2 ^ 50 - 8 * kMaxSize) by (consts; lia).
    rewrite u64_small by (consts; lia).
    destruct (IH size (psize + m)) as (p & -> & ? & ? & ? & ?); [done| | | | |].
    + consts; lia.
    + rewrite <- Zplus_mod_idemp_l, Hd. apply Z_mod_same_full.
    + rewrite Nat2Z.inj_succ in Hf. nia.
    + destruct fuel; [|lia]. change (Z.of_nat 1 - 1) with 0 in Hf. lia.
    + exists p. repeat split; try done; lia.
  - exists psize. repeat split; try done; lia.
Qed.

(** One round of the outer loop. *)
Lemma grow_waste_round size psize :
  0 < size <= kMaxSize -> 0 <= psize <= 8 * kMaxSize + 2 * m -> psize mod m = 0 ->
  exists p, grow_waste m waste_fuel size (u64 (psize + m)) = Ok p /\
    psize + m <= p <= Z.max (psize + m) (8 * size + m) /\ p mod m = 0 /\ waste_ok size p.
Proof.
  intros Hs Hp Hd. rewrite u64_small by (consts; lia).
  destruct (grow_waste_total waste_fuel size (psize + m)) as (p & ? & ? & ? & ? & ?).
  - done.
  - consts; lia.
  - rewrite <- Zplus_mod_idemp_l, Hd. apply Z_mod_same_full.
  - unfold waste_fuel. consts; lia.
  - unfold waste_fuel; lia.
  - exists p. eauto 10 with lia.
Qed.

(** A transfer batch is at most 16 KiB ([blocks_to_move * size <= 2 * kPageSize]),
    which two rounds reach whatever the page size. *)
Lemma grow_span_total size blocks :
  0 < size <= kMaxSize -> 0 <= blocks -> blocks * size <= 2 * kPageSize ->
  exists p, grow_span m span_fuel size blocks 0 = Ok p /\ 0 < p <= 8 * size + 2 * m /\
    p mod m = 0 /\ waste_ok size p /\ blocks <= p / size.
Proof.
  intros Hs Hb Hbs. assert (0 < m) by (consts; lia).
  assert (u64 blocks = blocks) as Hu by (apply u64_small; consts; nia).
  destruct (grow_waste_round size 0) as (p1 & E1 & ? & ? & ?);
    [done|consts; lia|apply Z.mod_0_l; lia|].
  unfold span_fuel. cbn [grow_span]. rewrite E1, Hu. cbn [mbind result_bind].
  destruct (Z.ltb_spec (p1 / size) blocks) as [Hlt|Hge]; [|exists p1; repeat split; done || lia].
  destruct (grow_waste_round size p1) as (p2 & E2 & ? & ? & ?); [done|consts; lia|done|].
  rewrite E2. cbn [mbind result_bind].
  assert (blocks <= p2 / size) by (apply Z.div_le_lower_bound; consts; lia).
  destruct (Z.ltb_spec (p2 / size) blocks) as [|_]; [lia|].
  exists p2. repeat split; done || lia.
Qed.
End SpanSize.

(** ** The sizes the construction visits

    The sequence of sizes does not depend on the configuration, so it can be
    evaluated once. *)

Fixpoint sizes_from (fuel : nat) (size : Z) : result (list Z) :=
  match fuel with
  | O => NoFuel
  | S fuel =>
      if size <=? kMaxSize then
        alignment ← AlignmentForSize size;
        check (size mod alignment =? 0) ;;
        l ← sizes_from fuel (size + alignment);
        Ok (size :: l)
      else Ok []
  end.

Definition class_sizes : list Z :=
  Eval vm_compute in
    match sizes_from class_fuel kAlignment with Ok l => l | _ => [] end.

Lemma class_sizes_eq : sizes_from class_fuel kAlignment = Ok class_sizes.
Proof. vm_compute. reflexivity. Qed.

(** The loop as a fold over those sizes. *)
Fixpoint run_classes (flag m : Z) (l : list Z) (st : Z * gmap Z Z * gmap Z Z)
    : result (Z * gmap Z Z * gmap Z Z) :=
  match l with
  | [] => Ok st
  | size :: l => st ← add_class flag m size st; run_classes flag m l st
  end.

Lemma class_loop_run flag m fuel : forall size l st,
  sizes_from fuel size = Ok l -> class_loop flag m fuel size st = run_classes flag m l st.
Proof.
  induction fuel as [|fuel IH]; intros size l st Hl; simpl in *; [discriminate|].
  case_if; [|by injection Hl as <-].
  destruct (AlignmentForSize size) as [a| | |]; simpl in *; try discriminate.
  destruct (check _) as [[]| | |]; simpl in *; try discriminate.
  inv_res. subst l. simpl. destruct (add_class flag m size st) as [st'| | |]; simpl; auto.
Qed.

(** A size the table can hold: a multiple of 8, and of 128 above 1024. *)
Definition size_okb (s : Z) : bool :=
  (s mod 8 =? 0) && ((s <=? 8) || (s mod 16 =? 0)) && ((s <=? 1024) || (s mod 128 =? 0)) && (0 <? s) && (s <=? kMaxSize).

Definition size_ok (s : Z) : Prop :=
  s mod 8 = 0 /\ ((1024 < s -> s mod 128 = 0) /\ (8 < s -> s mod 16 = 0)) /\ 0 < s <= kMaxSize.

Fixpoint incr_from (x : Z) (l : list Z) : bool :=
  match l with [] => true | y :: l => (x <? y) && incr_from y l end.

Lemma class_sizes_ok : forallb size_okb class_sizes = true /\
  incr_from 0 class_sizes = true /\ List.last class_sizes 0 = kMaxSize /\
  length class_sizes = 105%nat.
Proof. vm_compute. auto. Qed.

Lemma size_okb_ok s : size_okb s = true -> size_ok s.
Proof.
  unfold size_okb, size_ok. rewrite !andb_true_iff, !orb_true_iff, !Z.eqb_eq, !Z.leb_le, Z.ltb_lt.
  intros. split_and!; try tauto; lia.
Qed.

#[global] Opaque class_sizes.

(** The double division is exact integer division on every visited size. *)
Lemma NumMoveSize_quotients :
  forallb (fun s => NumMoveSize (2 ^ 40) s =? Z.max 2 (65536 / s)) class_sizes = true.
Proof. vm_compute. reflexivity. Qed.

(** On every size the tables are built for, [NumMoveSize] (a division in
    [double]) is the integer quotient 64 KiB / size, at least 2 and at most the
    configured number of objects. *)
Lemma NumMoveSize_spec flag s :
  s ∈ class_sizes -> flag <= 2 ^ 31 -> NumMoveSize flag s = Z.min flag (Z.max 2 (65536 / s)).
Proof.
  intros Hin Hf. pose proof NumMoveSize_quotients as H.
  rewrite forallb_forall in H. specialize (H s (proj1 (list_elem_of_In _ _) Hin)).
  propify.
  destruct class_sizes_ok as [Hok _]. rewrite forallb_forall in Hok.
  apply list_elem_of_In, Hok, size_okb_ok in Hin as (_ & _ & Hs). revert H.
  unfold NumMoveSize. destruct (Z.eqb_spec s 0); [lia|].
  set (q := int_of_double _). rewrite !Z.gtb_ltb.
  assert (65536 / s <= 65536) by (apply Z.div_le_upper_bound; lia).
  destruct (Z.ltb_spec q 2); repeat case_if; propify; lia.
Qed.

(** ** The class tables *)

Section Tables.
Context (flag m : Z).

(** What one row of the tables promises: the span has whole pages, is a multiple
    of the system page, leaves at most an eighth unused, holds a batch, and is not
    much larger than eight objects. *)
Definition class_ok (size npages : Z) : Prop :=
  size_ok size /\ size ∈ class_sizes /\ npages * kPageSize <= 8 * size + 2 * m /\ 0 < npages /\ (npages * kPageSize) mod m = 0 /\
  waste_ok size (npages * kPageSize) /\
  Z.quot (Z.min flag (Z.max 2 (65536 / size))) 4 <= npages * kPageSize / size.

Definition tbl_inv (last : Z) (st : Z * gmap Z Z * gmap Z Z) : Prop :=
  let '(sc, cpages, csize) := st in
  1 <= sc /\
  (forall c, 1 <= c < sc -> class_ok (arr_get csize c) (arr_get cpages c)) /\
  (forall c, 1 <= c -> c + 1 < sc -> arr_get csize c < arr_get csize (c + 1)) /\
  (1 < sc -> arr_get csize (sc - 1) = last) /\ arr_get csize 0 = 0.

Context (Hflag : 0 <= flag <= 2 ^ 31)
        (Hm : kPageSize <= m) (Hmp : m mod kPageSize = 0) (Hmax : m <= 2 ^ 40).

Lemma batch_bound size :
  size_ok size ->
  0 <= Z.quot (Z.min flag (Z.max 2 (65536 / size))) 4 /\
  Z.quot (Z.min flag (Z.max 2 (65536 / size))) 4 * size <= 2 * kPageSize.
Proof.
  intros (_ & _ & Hs). set (x := Z.min _ _).
  assert (0 <= x) by (unfold x; lia).
  rewrite Z.quot_div_nonneg by lia.
  assert (0 <= x / 4) by (apply Z.div_pos; lia). split; [done|].
  assert (x <= 2 \/ x <= 65536 / size) as [Hx|Hx] by (unfold x; lia).
  - replace (x / 4) with 0; [consts; lia|]. symmetry. apply Z.div_small. lia.
  - assert (x * size <= 65536).
    { pose proof (Z.mul_div_le 65536 size). nia. }
    consts. Z.div_mod_to_equations. nia.
Qed.

(** The pages of a span whose size is a multiple of the minimal span size. *)
Lemma span_pages p : 0 < p -> p mod m = 0 ->
  Z.shiftr p kPageShift * kPageSize = p /\ 0 < Z.shiftr p kPageShift.
Proof.
  intros Hp Hd. rewrite Z.shiftr_div_pow2 by (unfold kPageShift; lia).
  change (2 ^ kPageShift) with kPageSize.
  assert (p mod kPageSize = 0) as Hpp.
  { apply Z.mod_divide in Hd; [|consts; lia]. apply Z.mod_divide in Hmp; [|consts; lia].
    apply Z.mod_divide; [consts; lia|]. by etrans. }
  pose proof (Z.div_exact p kPageSize). consts. lia.
Qed.

Lemma tbl_inv_merge last size sc cpages csize :
  tbl_inv last (sc, cpages, csize) -> 1 < sc -> last < size ->
  class_ok size (arr_get cpages (sc - 1)) ->
  tbl_inv size (sc, cpages, <[sc - 1 := size]> csize).
Proof.
  intros (Hsc & Hcl & Hmono & Hlast & H0) H1 Hlt Hrow. split_and!; try lia; [..|by rewrite arr_get_insert_ne by lia].
  - intros c Hc. destruct (decide (c = sc - 1)) as [->|]; [by rewrite arr_get_insert_eq|].
    rewrite arr_get_insert_ne by lia. by apply Hcl.
  - intros c Hc1 Hc2. rewrite (arr_get_insert_ne _ _ c) by lia.
    pose proof (Hmono c Hc1 Hc2). destruct (decide (c + 1 = sc - 1)) as [Heq|].
    + rewrite Heq, arr_get_insert_eq. rewrite Heq, Hlast in * by lia. lia.
    + by rewrite arr_get_insert_ne by lia.
  - intros. by rewrite arr_get_insert_eq.
Qed.

Lemma tbl_inv_new last size npages sc cpages csize :
  tbl_inv last (sc, cpages, csize) -> last < size -> class_ok size npages ->
  tbl_inv size (sc + 1, <[sc := npages]> cpages, <[sc := size]> csize).
Proof.
  intros (Hsc & Hcl & Hmono & Hlast & H0) Hlt Hrow. split_and!; try lia; [..|by rewrite arr_get_insert_ne by lia].
  - intros c Hc. destruct (decide (c = sc)) as [->|]; [by rewrite !arr_get_insert_eq|].
    rewrite !arr_get_insert_ne by lia. apply Hcl. lia.
  - intros c Hc1 Hc2. rewrite (arr_get_insert_ne _ _ c) by lia.
    destruct (decide (c + 1 = sc)) as [Heq|].
    + rewrite Heq, arr_get_insert_eq. replace c with (sc - 1) by lia.
      rewrite Hlast by lia. done.
    + rewrite arr_get_insert_ne by lia. apply Hmono; lia.
  - intros. replace (sc + 1 - 1) with sc by lia. by rewrite arr_get_insert_eq.
Qed.

(** One round never fails and preserves the invariant. *)
Lemma add_class_inv last size st :
  size ∈ class_sizes -> size_ok size -> last < size -> tbl_inv last st ->
  exists st', add_class flag m size st = Ok st' /\ tbl_inv size st' /\
    st'.1.1 <= st.1.1 + 1 /\ 1 < st'.1.1.
Proof.
  destruct st as [[sc cpages] csize]. intros Hin Hok Hlt Hinv.
  assert (1 <= sc) by (by destruct Hinv).
  unfold add_class. rewrite NumMoveSize_spec by (done || lia).
  pose proof (batch_bound size Hok) as [Hb0 Hb].
  destruct (grow_span_total m Hm Hmax size _ (proj2 (proj2 Hok)) Hb0 Hb)
    as (p & -> & Hp & Hpm & Hw & Hn). simpl.
  destruct (span_pages p ltac:(lia) Hpm) as [Hpp Hpos].
  assert (Hrow : class_ok size (Z.shiftr p kPageShift)).
  { unfold class_ok. rewrite Hpp. split_and!; done || lia. }
  rewrite Z.gtb_ltb.
  destruct ((1 <? sc) && _) eqn:Hb1; [case_if|]; propify; eexists;
    (split; [done|]); simpl; (split; [|lia]).
  - apply tbl_inv_merge with last; try done. congruence.
  - by apply tbl_inv_new with last.
  - by apply tbl_inv_new with last.
Qed.

Lemma run_classes_inv l : forall last st,
  (forall s, s ∈ l -> s ∈ class_sizes /\ size_ok s) -> incr_from last l = true ->
  tbl_inv last st -> 1 <= st.1.1 ->
  exists st', run_classes flag m l st = Ok st' /\ tbl_inv (List.last l last) st' /\
    st'.1.1 <= st.1.1 + Z.of_nat (length l) /\ (l <> [] -> 1 < st'.1.1).
Proof.
  induction l as [|size l IH]; intros last st Hin Hincr Hinv Hsc.
  { exists st. simpl. split_and!; try done; lia. }
  simpl in Hincr. propify.
  destruct (Hin size ltac:(by left)) as [Hcs Hok].
  destruct (add_class_inv last size st Hcs Hok ltac:(lia) Hinv) as (st1 & E1 & Hinv1 & ? & ?).
  destruct (IH size st1) as (st2 & E2 & Hinv2 & ? & ?);
    [intros; apply Hin; by right|done..|lia|].
  exists st2. cbn [run_classes]. rewrite E1. cbn [mbind result_bind]. split; [done|].
  rewrite last_cons_default. split; [done|]. cbn [length]. split; [lia|]. intros _.
  destruct l; [|auto]. simpl in E2. injection E2 as <-. lia.
Qed.

(** The loop that chooses the classes always succeeds, with at most 106 entries. *)
Lemma class_loop_ok :
  exists sc cpages csize,
    class_loop flag m class_fuel kAlignment (1, ∅, ∅) = Ok (sc, cpages, csize) /\
    tbl_inv kMaxSize (sc, cpages, csize) /\ 1 < sc <= 106.
Proof.
  destruct class_sizes_ok as (Hok & Hincr & Hlast & Hlen).
  rewrite (class_loop_run _ _ _ _ _ _ class_sizes_eq).
  destruct (run_classes_inv class_sizes 0 (1, ∅, ∅)) as ([[sc cp] cs] & E & Hinv & H1 & H2).
  - intros s Hs. split; [done|]. rewrite forallb_forall in Hok.
    by apply size_okb_ok, Hok, list_elem_of_In.
  - done.
  - split_and!; try lia; try (intros; lia); reflexivity.
  - done.
  - exists sc, cp, cs. rewrite Hlast in Hinv. split; [done|]. split; [done|].
    simpl in *. rewrite Hlen in H1. split; [by apply H2|lia].
Qed.
End Tables.

(** ** Indexing *)

Lemma ClassIndex_eq s :
  0 <= s <= kMaxSize ->
  ClassIndex s = if s <=? 1024 then (s + 7) / 8 else (s + 127) / 128 + 120.
Proof.
  intros Hs. unfold ClassIndex, SmallSizeClass, LargeSizeClass. consts.
  change (Z.shiftl 120 7) with 15360.
  rewrite (u32_small s), !u32_small by lia. rewrite !Z.shiftr_div_pow2 by lia.
  change (2 ^ 3) with 8. change (2 ^ 7) with 128.
  case_if; [done|]. Z.div_mod_to_equations. lia.
Qed.

Lemma GetSizeClass_eq sm size :
  0 <= size -> GetSizeClass sm size = if size <=? kMaxSize then Some (SizeClass sm size) else None.
Proof.
  intros Hs. unfold GetSizeClass, ClassIndexMaybe, SizeClass, ClassIndex. consts.
  destruct (Z.leb_spec size 1024), (Z.leb_spec size 262144); try done; lia.
Qed.

(** [GetSizeClass] (the branch-free variant used by [malloc]) agrees with
    [SizeClass] below [kMaxSize] and refuses every larger size; no index it
    computes is outside [class_array_]. *)
Theorem GetSizeClass_SizeClass sm size :
  0 <= size < 2 ^ 64 ->
  GetSizeClass sm size = (if size <=? kMaxSize then Some (SizeClass sm size) else None) /\
  (size <= kMaxSize -> 0 <= ClassIndex size < kClassArraySize).
Proof.
  intros Hs. split; [apply GetSizeClass_eq; lia|]. intros. rewrite ClassIndex_eq by lia.
  change kClassArraySize with 2169. consts.
  case_if; propify; Z.div_mod_to_equations; lia.
Qed.

(** A class boundary separates the entries of the sizes on its two sides. *)
Lemma ClassIndex_sep s b s' :
  0 <= s <= b -> b < s' <= kMaxSize -> s mod 8 = 0 -> s' mod 8 = 0 -> size_ok b ->
  ClassIndex s <> ClassIndex s'.
Proof.
  intros Hs Hs' H8 H8' (Hb8 & [Hb128 _] & Hb). rewrite !ClassIndex_eq by (consts; lia).
  destruct (Z.leb_spec s 1024), (Z.leb_spec s' 1024); try lia.
  - Z.div_mod_to_equations. lia.
  - clear Hb128. Z.div_mod_to_equations. lia.
  - specialize (Hb128 ltac:(lia)). Z.div_mod_to_equations. lia.
Qed.

(** Sizes between two multiples of 8 share the entry of the upper one. *)
Definition round8 (s : Z) : Z := (s + 7) / 8 * 8.

Lemma round8_spec s : 0 <= s <= kMaxSize ->
  s <= round8 s < s + 8 /\ round8 s mod 8 = 0 /\ round8 s <= kMaxSize /\
  ClassIndex (round8 s) = ClassIndex s.
Proof.
  intros Hs. unfold round8.
  assert (Hr : s <= (s + 7) / 8 * 8 < s + 8 /\ ((s + 7) / 8 * 8) mod 8 = 0 /\
    (s + 7) / 8 * 8 <= kMaxSize).
  { rewrite Z.mod_mul by lia. consts. Z.div_mod_to_equations. lia. }
  split_and!; try lia. rewrite !ClassIndex_eq by lia.
  destruct (Z.leb_spec s 1024), (Z.leb_spec ((s + 7) / 8 * 8) 1024);
    Z.div_mod_to_equations; lia.
Qed.

(** ** Filling [class_array_] *)

Lemma fill_loop_miss n c i : forall s arr,
  (forall k, 0 <= k < Z.of_nat n -> ClassIndex (s + 8 * k) <> i) ->
  arr_get (fill_loop n c s arr) i = arr_get arr i.
Proof.
  induction n as [|n IH]; intros s arr Hi; [done|]. simpl. unfold kAlignment.
  rewrite IH.
  - apply arr_get_insert_ne. specialize (Hi 0). rewrite Z.mul_0_r, Z.add_0_r in Hi.
    apply Hi. lia.
  - intros k Hk. replace (s + 8 + 8 * k) with (s + 8 * (k + 1)) by lia. apply Hi. lia.
Qed.

Lemma fill_loop_keep n c i : forall s arr,
  arr_get arr i = c mod 256 -> arr_get (fill_loop n c s arr) i = c mod 256.
Proof.
  induction n as [|n IH]; intros s arr Hi; [done|]. simpl. apply IH.
  destruct (decide (ClassIndex s = i)) as [->|]; [apply arr_get_insert_eq|].
  by rewrite arr_get_insert_ne.
Qed.

Lemma fill_loop_hit n c : forall s arr k,
  0 <= k < Z.of_nat n -> arr_get (fill_loop n c s arr) (ClassIndex (s + 8 * k)) = c mod 256.
Proof.
  induction n as [|n IH]; intros s arr k Hk; [lia|]. simpl. unfold kAlignment.
  destruct (decide (k = 0)) as [->|].
  - rewrite Z.mul_0_r, Z.add_0_r. apply fill_loop_keep. apply arr_get_insert_eq.
  - replace (s + 8 * k) with (s + 8 + 8 * (k - 1)) by lia. apply IH. lia.
Qed.

Lemma fill_class_miss arr c lo hi i :
  (forall s, lo <= s <= hi -> (s - lo) mod 8 = 0 -> ClassIndex s <> i) ->
  arr_get (fill_class arr c lo hi) i = arr_get arr i.
Proof.
  intros Hi. unfold fill_class. apply fill_loop_miss. intros k Hk.
  unfold kAlignment in *. apply Hi.
  - Z.div_mod_to_equations. lia.
  - replace (lo + 8 * k - lo) with (k * 8) by lia. by apply Z.mod_mul.
Qed.

Lemma fill_class_hit arr c lo hi s :
  lo <= s <= hi -> (s - lo) mod 8 = 0 ->
  arr_get (fill_class arr c lo hi) (ClassIndex s) = c mod 256.
Proof.
  intros Hs Hd. unfold fill_class.
  replace s with (lo + 8 * ((s - lo) / 8)) by (Z.div_mod_to_equations; lia).
  apply fill_loop_hit. unfold kAlignment. Z.div_mod_to_equations. lia.
Qed.

(** The boundary below class [c]; class 1 starts at size 0. *)
Definition class_floor (csize : gmap Z Z) (c : Z) : Z :=
  if c =? 1 then -8 else arr_get csize (c - 1).

Section Fill.
Context (flag m last sc : Z) (cpages csize : gmap Z Z).
Context (Hinv : tbl_inv flag m last (sc, cpages, csize)).

Lemma csize_ok c : 1 <= c < sc -> size_ok (arr_get csize c).
Proof. intros Hc. destruct Hinv as (_ & Hcl & _). by apply Hcl. Qed.

Lemma csize_mono c c' : 1 <= c <= c' -> c' < sc -> arr_get csize c <= arr_get csize c'.
Proof.
  intros Hc Hc'. destruct Hinv as (_ & _ & Hmono & _).
  replace c' with (c + Z.of_nat (Z.to_nat (c' - c))) in * by lia.
  induction (Z.to_nat (c' - c)) as [|k IH]; [by rewrite Z.add_0_r|].
  etrans; [apply IH; lia|]. specialize (Hmono (c + Z.of_nat k)).
  replace (c + Z.of_nat (S k)) with (c + Z.of_nat k + 1) in * by lia. lia.
Qed.

Lemma class_floor_lt c : 1 <= c < sc -> class_floor csize c < arr_get csize c.
Proof.
  intros Hc. unfold class_floor. destruct (Z.eqb_spec c 1) as [->|].
  - destruct (csize_ok 1) as (_ & _ & ?); lia.
  - destruct Hinv as (_ & _ & Hmono & _). specialize (Hmono (c - 1)).
    replace (c - 1 + 1) with c in Hmono by lia. apply Hmono; lia.
Qed.

Lemma class_floor_mod8 c : 1 <= c < sc -> class_floor csize c mod 8 = 0.
Proof.
  intros Hc. unfold class_floor. destruct (Z.eqb_spec c 1); [done|].
  by destruct (csize_ok (c - 1) ltac:(lia)).
Qed.

(** After the classes below [S n] were filled, every multiple of 8 in a filled
    class finds its class. *)
Lemma fill_steps n : Z.of_nat n < sc ->
  let '(arr, next) := foldl (fill_step csize) (∅, 0) (seqZ 1 (Z.of_nat n)) in
  next = class_floor csize (Z.of_nat n + 1) + 8 /\
  forall c s, 1 <= c <= Z.of_nat n -> class_floor csize c < s <= arr_get csize c ->
    s mod 8 = 0 -> arr_get arr (ClassIndex s) = c mod 256.
Proof.
  induction n as [|n IH]; intros Hn.
  { split; [reflexivity|]. intros; lia. }
  replace (Z.of_nat (S n)) with (Z.of_nat n + 1) in * by lia.
  rewrite seqZ_app by lia. rewrite foldl_app. specialize (IH ltac:(lia)).
  destruct (foldl (fill_step csize) (∅, 0) (seqZ 1 (Z.of_nat n))) as [arr next].
  destruct IH as [-> IH]. set (d := Z.of_nat n + 1) in *.
  replace (seqZ (1 + Z.of_nat n) 1) with [d] by (unfold seqZ, d; simpl; f_equal; lia).
  simpl. split.
  { unfold class_floor. destruct (Z.eqb_spec (d + 1) 1); [lia|].
    replace (d + 1 - 1) with d by lia. reflexivity. }
  intros c s Hc Hs H8. pose proof (class_floor_mod8 d ltac:(lia)) as Hf8.
  destruct (decide (c = d)) as [->|].
  - apply fill_class_hit; Z.div_mod_to_equations; lia.
  - rewrite fill_class_miss; [apply IH; done || lia|].
    intros s' Hs' H8'.
    assert (class_floor csize d = arr_get csize (d - 1)) as Hfl.
    { unfold class_floor. destruct (Z.eqb_spec d 1); [lia|done]. }
    pose proof (csize_mono c (d - 1) ltac:(lia) ltac:(lia)).
    pose proof (csize_ok d ltac:(lia)) as (_ & _ & ?).
    assert (0 <= s).
    { pose proof (class_floor_mod8 c ltac:(lia)). unfold class_floor in *.
      destruct (Z.eqb_spec c 1); [Z.div_mod_to_equations; lia|].
      destruct (csize_ok (c - 1) ltac:(lia)) as (_ & _ & ?). lia. }
    apply not_eq_sym, (ClassIndex_sep s (arr_get csize (d - 1)) s'); try lia.
    + Z.div_mod_to_equations. lia.
    + apply csize_ok. lia.
Qed.

Lemma fill_classes_spec c s :
  1 <= c < sc -> class_floor csize c < s <= arr_get csize c -> s mod 8 = 0 ->
  arr_get (fill_classes csize sc) (ClassIndex s) = c mod 256.
Proof.
  intros Hc Hs H8. pose proof (fill_steps (Z.to_nat (sc - 1)) ltac:(lia)) as H.
  rewrite Z2Nat.id in H by lia.
  unfold fill_classes.
  destruct (foldl (fill_step csize) _ _) as [arr next]. simpl.
  destruct H as [_ H]. apply H; lia || done.
Qed.

(** Every size up to the last boundary lies in exactly one class. *)
Lemma class_exists n s : Z.of_nat n < sc -> (0 < n)%nat -> -8 < s <= arr_get csize (Z.of_nat n) ->
  exists c, 1 <= c <= Z.of_nat n /\ class_floor csize c < s <= arr_get csize c.
Proof.
  induction n as [|n IH]; intros Hn Hp Hs; [lia|].
  destruct (decide (class_floor csize (Z.of_nat (S n)) < s)).
  { exists (Z.of_nat (S n)). lia. }
  destruct n as [|n].
  { exists 1. unfold class_floor in *. simpl in *. lia. }
  destruct IH as (c & ? & ?); [lia|lia| |exists c; lia].
  unfold class_floor in *. destruct (Z.eqb_spec (Z.of_nat (S (S n))) 1); [lia|].
  replace (Z.of_nat (S (S n)) - 1) with (Z.of_nat (S n)) in * by lia. lia.
Qed.
End Fill.

(** ** The correctness of [Init] *)

Lemma min_span_size_ok native :
  0 < native <= 2 ^ 40 ->
  kPageSize <= min_span_size_of native <= 2 ^ 40 /\
  min_span_size_of native mod kPageSize = 0.
Proof.
  intros Hn. unfold min_span_size_of. rewrite Z.gtb_ltb.
  destruct (Z.ltb_spec kPageSize (native `max` kPageSize)); simpl.
  - destruct (Z.eqb_spec ((native `max` kPageSize) mod kPageSize) 0); simpl; [consts; lia|].
    consts. rewrite Z_mod_same_full. lia.
  - replace (native `max` kPageSize) with kPageSize by lia.
    consts. rewrite Z_mod_same_full. lia.
Qed.

(** The tables a successful [Init] leaves behind. *)
Lemma Init_tables flag native sm :
  0 <= flag <= 2 ^ 31 -> 0 < native <= 2 ^ 40 -> Init flag native = Ok sm ->
  exists cpages csize,
    tbl_inv flag (min_span_size_of native) kMaxSize (num_size_classes sm, cpages, csize) /\
    1 < num_size_classes sm <= 106 /\
    class_array_ sm = fill_classes csize (num_size_classes sm) /\
    class_to_size_ sm = csize /\ class_to_pages_ sm = cpages /\
    num_objects_to_move_ sm = init_moves flag csize (num_size_classes sm) /\
    min_span_size_in_pages_ sm = min_span_size_of native / kPageSize /\
    check_align align_fuel (mkSizeMap (class_array_ sm) ∅ csize cpages
      (min_span_size_of native / kPageSize) (num_size_classes sm)) kMinAlign = Ok tt.
Proof.
  intros Hf Hn H. destruct (min_span_size_ok native Hn) as [[? ?] ?].
  destruct (class_loop_ok flag (min_span_size_of native)) as (sc & cp & cs & E & Hinv & Hsc);
    try done.
  unfold Init in H. rewrite E in H. inv_res. subst. inv_res. subst sm.
  cbn [class_array_ class_to_size_ class_to_pages_ num_objects_to_move_
    min_span_size_in_pages_ num_size_classes].
  exists cp, cs. repeat match goal with u : unit |- _ => destruct u end.
  split_and!; done || lia.
Qed.

(** Classification through the filled array. *)
Lemma tbl_classifies flag m sc cpages csize size :
  tbl_inv flag m kMaxSize (sc, cpages, csize) -> 1 < sc <= 106 -> 0 <= size <= kMaxSize ->
  let c := arr_get (fill_classes csize sc) (ClassIndex size) in
  1 <= c < sc /\ size <= arr_get csize c /\ (1 < c -> arr_get csize (c - 1) < size).
Proof.
  intros Hinv Hsc Hs.
  destruct (round8_spec size Hs) as (Hr & Hr8 & Hrm & Hri).
  assert (arr_get csize (sc - 1) = kMaxSize) as Hlast by (apply Hinv; lia).
  destruct (class_exists sc csize (Z.to_nat (sc - 1)) (round8 size)) as (c & Hc & Hb).
  { lia. } { lia. } { rewrite Z2Nat.id by lia. rewrite Hlast. lia. }
  rewrite Z2Nat.id in Hc by lia.
  assert (arr_get (fill_classes csize sc) (ClassIndex size) = c) as ->.
  { rewrite <- Hri. rewrite (fill_classes_spec _ _ _ _ _ _ Hinv c) by (done || lia).
    apply Z.mod_small. lia. }
  split; [lia|]. split; [lia|].
  intros Hc1. pose proof (class_floor_mod8 _ _ _ _ _ _ Hinv c ltac:(lia)).
  unfold class_floor in *. destruct (Z.eqb_spec c 1); [lia|].
  Z.div_mod_to_equations. lia.
Qed.


(** Every size class wastes at most an eighth of its spans, its spans are
    whole multiples of the system page, and one span holds at least a quarter
    of a transfer batch (when the configured batch is a sane one). *)
Theorem Init_span_waste flag native sm c :
  0 <= flag <= 2 ^ 31 -> 0 < native <= 2 ^ 40 -> Init flag native = Ok sm ->
  1 <= c < num_size_classes sm ->
  let bytes := class_to_pages sm c * kPageSize in
  0 < bytes /\ bytes mod min_span_size_of native = 0 /\
  bytes mod class_to_size sm c <= bytes / 8 /\
  Z.quot (Z.min flag (Z.max 2 (65536 / class_to_size sm c))) 4 <= bytes / class_to_size sm c.
Proof.
  intros Hf Hn Hi Hc.
  destruct (Init_tables _ _ _ Hf Hn Hi) as (cp & cs & (_ & Hcl & _) & _ & _ & Hcs & Hcp & _).
  destruct (Hcl c Hc) as (_ & _ & _ & Hp & Hm & Hw & Hb).
  unfold class_to_pages, class_to_size. rewrite Hcs, Hcp. cbv zeta.
  unfold waste_ok in Hw. rewrite Z.shiftr_div_pow2 in Hw by lia. change (2 ^ 3) with 8 in Hw.
  split_and!; try done. consts; lia.
Qed.

Lemma check_align_Ok fuel : forall sm align k,
  check_align fuel sm align = Ok tt -> 0 < align -> (k <= fuel)%nat ->
  align * 2 ^ Z.of_nat k <= kPageSize -> check_align_row sm (align * 2 ^ Z.of_nat k) = true.
Proof.
  induction fuel as [|fuel IH]; intros sm align k H Ha Hk Hle; simpl in H; [discriminate|].
  assert (align * 1 <= align * 2 ^ Z.of_nat k).
  { apply Z.mul_le_mono_nonneg_l; [lia|]. pose proof (Z.pow_pos_nonneg 2 (Z.of_nat k)). lia. }
  destruct (Z.leb_spec align kPageSize); [|lia]. inv_res.
  destruct k as [|k]; [by rewrite Z.mul_1_r|].
  rewrite Z.shiftl_mul_pow2 in H by lia. change (2 ^ 1) with 2 in H.
  replace (align * 2 ^ Z.of_nat (S k)) with (align * 2 * 2 ^ Z.of_nat k) in *.
  - apply IH; done || lia.
  - rewrite Nat2Z.inj_succ, Z.pow_succ_r by lia. lia.
Qed.


(** The self-check of [Init] passes on any tables that classify. *)
Lemma double_check_ok sm fuel : forall size,
  (forall s, 0 <= s <= kMaxSize -> let c := SizeClass sm s in
     1 <= c < num_size_classes sm /\ s <= class_to_size sm c /\
     (1 < c -> class_to_size sm (c - 1) < s) /\ 0 < class_to_size sm c) ->
  0 <= size -> kMaxSize - size < 8 * (Z.of_nat fuel - 1) -> (0 < fuel)%nat ->
  double_check fuel sm size = Ok tt.
Proof.
  induction fuel as [|fuel IH]; intros size Hc Hs Hf Hp; [lia|]. cbn [double_check].
  destruct (Z.leb_spec size kMaxSize); [|done].
  destruct (Hc size ltac:(lia)) as (H1 & H2 & H3 & H4).
  rewrite !Z.gtb_ltb, !Z.geb_leb. set (c := SizeClass sm size) in *.
  destruct (Z.leb_spec c 0), (Z.leb_spec (num_size_classes sm) c); try lia.
  cbn [orb negb check mbind result_bind].
  destruct (Z.ltb_spec (class_to_size sm c) size), (Z.eqb_spec (class_to_size sm c) 0); try lia.
  assert ((1 <? c) && (size <=? class_to_size sm (c - 1)) = false) as ->.
  { destruct (Z.ltb_spec 1 c); [|done]. apply Z.leb_gt. by apply H3. }
  cbn [orb negb check mbind result_bind].
  apply IH; [done|case_if; lia|case_if; lia|lia].
Qed.

Lemma check_align_fuel fuel : forall sm align,
  0 < align -> kPageSize < align * 2 ^ (Z.of_nat fuel - 1) -> (0 < fuel)%nat ->
  check_align fuel sm align = Ok tt \/ check_align fuel sm align = Crash.
Proof.
  induction fuel as [|fuel IH]; intros sm align Ha Hf Hp; [lia|]. cbn [check_align].
  destruct (Z.leb_spec align kPageSize); [|by left].
  destruct (check_align_row sm align); [|by right]. cbn [check mbind result_bind].
  rewrite Z.shiftl_mul_pow2 by lia. change (2 ^ 1) with 2.
  replace (Z.of_nat (S fuel) - 1) with (Z.of_nat fuel) in Hf by lia.
  destruct fuel as [|fuel]; [simpl in Hf; lia|]. apply IH; try lia.
  replace (Z.of_nat (S fuel)) with (1 + (Z.of_nat (S fuel) - 1)) in Hf by lia.
  rewrite Z.pow_add_r in Hf by lia. lia.
Qed.

Lemma class_fuel_Z : Z.of_nat class_fuel = 32770.
Proof. vm_compute. reflexivity. Qed.

#[global] Opaque class_fuel.

(** C39: the loops of [Init] terminate (the fuel of the model is enough for every
    non-negative batch limit and every page size) and never choose more than 106
    of the 128 possible classes; of the checks of [Init] only the one on
    naturally aligned sizes can fail: its outcome decides between the tables and
    a crash. *)
Theorem Init_terminates flag native :
  0 <= flag <= 2 ^ 31 -> 0 < native <= 2 ^ 40 ->
  exists sc cpages csize,
    class_loop flag (min_span_size_of native) class_fuel kAlignment (1, ∅, ∅)
      = Ok (sc, cpages, csize) /\ 1 < sc <= 106 /\
    let sm := mkSizeMap (fill_classes csize sc) ∅ csize cpages
                (min_span_size_of native / kPageSize) sc in
    (check_align align_fuel sm kMinAlign = Ok tt /\
     Init flag native = Ok (mkSizeMap (fill_classes csize sc) (init_moves flag csize sc)
                              csize cpages (min_span_size_of native / kPageSize) sc)) \/
    (check_align align_fuel sm kMinAlign = Crash /\ Init flag native = Crash).
Proof.
  intros Hf Hn. destruct (min_span_size_ok native Hn) as [[? ?] ?].
  destruct (class_loop_ok flag (min_span_size_of native)) as (sc & cp & cs & E & Hinv & Hsc);
    try done.
  exists sc, cp, cs. split; [exact E|]. split; [exact Hsc|]. unfold Init. rewrite E.
  replace (ClassIndex 0 =? 0) with true by reflexivity.
  replace (ClassIndex kMaxSize <? kClassArraySize) with true by reflexivity.
  replace (kAlignment <=? kMinAlign) with true by reflexivity.
  cbn [check mbind result_bind]. rewrite Z.gtb_ltb.
  destruct (Z.ltb_spec kClassSizesMax sc); [consts; lia|].
  set (sm := mkSizeMap _ ∅ cs cp _ sc). cbn [negb check mbind result_bind].
  pose proof class_fuel_Z.
  rewrite double_check_ok; [| |lia|consts; lia|lia].
  - cbn [mbind result_bind].
    destruct (check_align_fuel align_fuel sm kMinAlign) as [->| ->];
      [reflexivity|reflexivity|unfold align_fuel; lia|left|right]; split; reflexivity.
  - intros s Hs. pose proof (tbl_classifies _ _ _ _ _ s Hinv Hsc Hs) as Hc.
    destruct Hc as (Hc & Hle & Hprev). split; [exact Hc|]. split; [exact Hle|].
    split; [exact Hprev|]. by destruct (csize_ok _ _ _ _ _ _ Hinv _ Hc) as (_ & _ & [? _]).
Qed.

(** ** The default configuration: batches of 32 objects, 4 KiB system pages *)

Definition is_ok {A} (r : result A) : bool := match r with Ok _ => true | _ => false end.
Definition ok_or {A} (d : A) (r : result A) : A := match r with Ok a => a | _ => d end.

Definition default_sizemap : SizeMap := ok_or (mkSizeMap ∅ ∅ ∅ ∅ 0 0) (Init 32 4096).

(** [Init] succeeds for the usual system page sizes. *)
Lemma Init_usual_pages :
  forallb (fun native => is_ok (Init 32 native)) [4096; 65536] = true.
Proof. vm_compute. reflexivity. Qed.

Lemma Init_default : Init 32 4096 = Ok default_sizemap.
Proof.
  pose proof Init_usual_pages as H. cbn [forallb] in H. apply andb_prop in H as [H _].
  unfold default_sizemap. destruct (Init 32 4096); done.
Qed.

#[global] Opaque default_sizemap.


Lemma Init_span_waste_witness :
  let bytes := class_to_pages default_sizemap 1 * kPageSize in
  0 < bytes /\ bytes mod min_span_size_of 4096 = 0 /\
  bytes mod class_to_size default_sizemap 1 <= bytes / 8 /\
  Z.quot (Z.min 32 (Z.max 2 (65536 / class_to_size default_sizemap 1))) 4
    <= bytes / class_to_size default_sizemap 1.
Proof.
  apply (Init_span_waste 32 4096 default_sizemap 1); [lia|lia|exact Init_default|].
  destruct (Init_tables 32 4096 default_sizemap) as (_ & _ & _ & ? & _);
    [lia|lia|exact Init_default|lia].
Defined.


Lemma Init_terminates_witness :
  exists sc cpages csize,
    class_loop 32 (min_span_size_of 4096) class_fuel kAlignment (1, ∅, ∅)
      = Ok (sc, cpages, csize) /\ 1 < sc <= 106.
Proof.
  destruct (Init_terminates 32 4096) as (sc & cp & cs & H & Hsc & _); [lia|lia|].
  exists sc, cp, cs. exact (conj H Hsc).
Defined.

Lemma GetSizeClass_SizeClass_witness :
  GetSizeClass default_sizemap 300000 = None.
Proof.
  destruct (GetSizeClass_SizeClass default_sizemap 300000) as [-> _]; [lia|reflexivity].
Defined.
