(* ===== verification/Sampler.v ===== *)
(** The allocation sampler: [src/sampler.h] and [src/sampler.cc]. *)
From Stdlib Require Import Floats.SpecFloat.
From S2P Require Import Prelude SizeMap.

Record Sampler := mkSampler {
  bytes_until_sample_ : Z;
  rnd_ : Z;
  initialized_ : bool
}.

(** The [constexpr] constructor. *)
Definition Sampler_new : Sampler := mkSampler 0 0 false.

Definition set_bytes (v : Z) (s : Sampler) : Sampler := mkSampler v s.(rnd_) s.(initialized_).
Definition set_rnd (v : Z) (s : Sampler) : Sampler := mkSampler s.(bytes_until_sample_) v s.(initialized_).
Definition set_initialized (s : Sampler) : Sampler := mkSampler s.(bytes_until_sample_) s.(rnd_) true.

(** [aX + b mod 2^48] *)
Definition NextRandom (rnd : Z) : Z :=
  let prng_mult := 25214903917 in   (* 0x5DEECE66D *)
  let prng_add := 11 in
  let prng_mod_mask := u64 (Z.lnot (u64 (Z.shiftl (u64 (Z.lnot 0)) 48))) in
  Z.land (u64 (u64 (prng_mult * rnd) + prng_add)) prng_mod_mask.

Definition kMaxSSize : Z := Z.shiftr (2 ^ 64 - 1) 1.

(** [static_cast<ssize_t>] of a double: undefined outside the range. *)
Definition ssize_of_double (f : spec_float) : result Z :=
  let in_range := match f with
                  | S754_zero _ => true
                  | S754_finite _ _ _ => SFleb (double_of_Z (- 2 ^ 63)) f && SFltb f (double_of_Z (2 ^ 63))
                  | _ => false
                  end in
  if in_range then Ok (int_of_double f) else Crash.

Section Sampler.
(** [FLAGS_tcmalloc_sample_parameter] once it is set up, and [log2] and [log(2.0)] of
    the C library. *)
Context (sample_parameter : Z) (log2 : spec_float -> spec_float) (log_2 : spec_float).

Definition GetSamplePeriod : Z := i32 sample_parameter.

Definition PickNextSamplingPoint (s : Sampler) : result (Z * Sampler) :=
  if sample_parameter <=? 0 then Ok (Z.shiftl 16 20, s)
  else
    let s := set_rnd (NextRandom s.(rnd_)) s in
    let q := SFadd 53 1024 (double_of_Z (u32 (Z.shiftr s.(rnd_) (48 - 26)))) (double_of_Z 1) in
    let interval := SFmul 53 1024 (SFsub 53 1024 (log2 q) (double_of_Z 26))
                      (SFmul 53 1024 (SFopp log_2) (double_of_Z sample_parameter)) in
    let clamped := if SFltb (double_of_Z kMaxSSize) interval then double_of_Z kMaxSSize else interval in
    v ← ssize_of_double clamped;
    Ok (v, s).

Definition Sampler_Init (seed : Z) (s : Sampler) : result Sampler :=
  let s := set_rnd (Nat.iter 20 NextRandom seed) s in
  '(v, s) ← PickNextSamplingPoint s;
  Ok (set_bytes v s).

(** [self] is the address of the sampler. *)
Definition RecordAllocationSlow (self k : Z) (s : Sampler) : result (bool * Sampler) :=
  let pick s :=
    '(v, s) ← PickNextSamplingPoint s;
    Ok (sample_parameter <=? 0, set_bytes v s) in
  if negb s.(initialized_) then
    s ← Sampler_Init self (set_initialized s);
    if u64 s.(bytes_until_sample_) >=? k then
      Ok (true, set_bytes (i64 (s.(bytes_until_sample_) - k)) s)
    else pick s
  else pick s.

Definition RecordAllocation (self k : Z) (s : Sampler) : result (bool * Sampler) :=
  if u64 s.(bytes_until_sample_) <? k then RecordAllocationSlow self k s
  else Ok (true, set_bytes (i64 (s.(bytes_until_sample_) - k)) s).

Definition TryRecordAllocationFast (k : Z) (s : Sampler) : bool * Sampler :=
  let s1 := set_bytes (i64 (s.(bytes_until_sample_) - i64 k)) s in
  if s1.(bytes_until_sample_) <? 0
  then (false, set_bytes (i64 (s1.(bytes_until_sample_) + k)) s1)
  else (true, s1).

(** ** The fast path *)

(** The counter is a non-negative [ssize_t]. *)
Definition sampler_ok (s : Sampler) : Prop := 0 <= s.(bytes_until_sample_) < 2 ^ 63.

(** C37: the fast path of sampling is the slow one where it applies: for a request below
    [2^63] bytes, [TryRecordAllocationFast] says yes exactly when [RecordAllocation]
    would not have to look further, and then leaves the same state; when it says no, it
    leaves the sampler as it was. *)
Theorem TryRecordAllocationFast_equiv self k s :
  sampler_ok s -> 0 <= k < 2 ^ 63 ->
  match TryRecordAllocationFast k s with
  | (true, s') => RecordAllocation self k s = Ok (true, s') /\ sampler_ok s' /\
      s'.(bytes_until_sample_) = s.(bytes_until_sample_) - k
  | (false, s') => s' = s /\ s.(bytes_until_sample_) < k /\
      RecordAllocation self k s = RecordAllocationSlow self k s
  end.
Proof.
  intros Hs Hk. unfold sampler_ok in *. unfold TryRecordAllocationFast, RecordAllocation. simpl.
  rewrite (i64_small k) by lia. rewrite (i64_small (_ - k)) by lia. rewrite (u64_small s.(bytes_until_sample_)) by lia.
  destruct (Z.ltb_spec (s.(bytes_until_sample_) - k) 0) as [Hn|Hn].
  - destruct (Z.ltb_spec s.(bytes_until_sample_) k); [|lia]. split_and!; [|lia|done].
    rewrite i64_small by lia. destruct s. unfold set_bytes. simpl. f_equal. lia.
  - destruct (Z.ltb_spec s.(bytes_until_sample_) k); [lia|]. split_and!; simpl; [done|lia..].
Qed.

(** With sampling off no allocation is ever sampled, and nothing can go wrong. *)
Lemma RecordAllocation_off self k s :
  sample_parameter <= 0 -> sampler_ok s -> 0 <= k < 2 ^ 64 ->
  exists s', RecordAllocation self k s = Ok (true, s') /\ sampler_ok s'.
Proof.
  intros Hp Hs Hk. unfold sampler_ok in *. unfold RecordAllocation, RecordAllocationSlow, Sampler_Init, PickNextSamplingPoint.
  assert (Hle : (sample_parameter <=? 0) = true) by (by apply Z.leb_le). rewrite Hle.
  change (Z.shiftl 16 20) with 16777216.
  rewrite (u64_small s.(bytes_until_sample_)) by lia.
  destruct (Z.ltb_spec s.(bytes_until_sample_) k).
  - destruct s.(initialized_); simpl.
    + eexists. split; [done|]. simpl. lia.
    + rewrite Z.geb_leb. change (u64 16777216) with 16777216. destruct (Z.leb_spec k 16777216).
      * eexists. split; [done|]. simpl. rewrite i64_small; lia.
      * eexists. split; [done|]. simpl. lia.
  - eexists. split; [done|]. simpl. rewrite i64_small; lia.
Qed.
End Sampler.

(** The largest value the clamp lets through, 2^63, is not a [ssize_t]: with a sample
    parameter above 2^58 the conversion can be undefined. *)
Lemma PickNextSamplingPoint_overflow :
  PickNextSamplingPoint (2 ^ 62) (fun _ => S754_zero false) (S754_finite false 6243314768165359 (-53))
    (mkSampler 0 0 true) = Crash.
Proof. vm_compute. reflexivity. Qed.

Lemma TryRecordAllocationFast_equiv_witness :
  RecordAllocation 0 (fun f => f) (double_of_Z 0) 4096 100 (mkSampler 300 7 true) = Ok (true, mkSampler 200 7 true).
Proof.
  pose proof (TryRecordAllocationFast_equiv 0 (fun f => f) (double_of_Z 0) 4096 100 (mkSampler 300 7 true)) as H.
  unfold sampler_ok in H. simpl in H. apply H; lia.
Defined.
