(* ===== verification/MallocHook.v ===== *)
(** The lists of allocation hooks: [HookList] of [src/malloc_hook-inl.h] and
    [src/malloc_hook.cc].

    Hooks are non-zero addresses of functions.  One operation runs at a time: [Add] and
    [Remove] hold a lock, and [Traverse] reads a list nobody changes meanwhile. *)
From S2P Require Import Prelude SizeMap.

Definition kHookListCapacity : Z := 8.
Definition kHookListMaxValues : Z := 7.
Definition kHookListSingularIdx : Z := 7.

(** [priv_data] as an array: entries never written are 0. *)
Record HookList := mkHookList { priv_end : Z; priv_data : gmap Z Z }.
Definition HookList_new : HookList := mkHookList 0 ∅.

(** [while (index < limit && p(priv_data[index])) ++index], at most [n] rounds. *)
Fixpoint scan (n : nat) (p : Z -> bool) (d : gmap Z Z) (index limit : Z) : Z :=
  match n with
  | O => index
  | S n => if (index <? limit) && p (arr_get d index) then scan n p d (index + 1) limit else index
  end.

Definition HL_Add (value : Z) (l : HookList) : bool * HookList :=
  if value =? 0 then (false, l)
  else
    let index := scan 7 (fun v => negb (v =? 0)) l.(priv_data) 0 kHookListMaxValues in
    if index =? kHookListMaxValues then (false, l)
    else
      let prev_num_hooks := l.(priv_end) in
      (true, mkHookList (if prev_num_hooks <=? index then index + 1 else prev_num_hooks)
               (<[index := value]> l.(priv_data))).

(** [while (hooks_end > 0 && priv_data[hooks_end - 1] == 0) --hooks_end] *)
Fixpoint fixup_loop (n : nat) (d : gmap Z Z) (hooks_end : Z) : Z :=
  match n with
  | O => hooks_end
  | S n => if (hooks_end >? 0) && (arr_get d (hooks_end - 1) =? 0) then fixup_loop n d (hooks_end - 1) else hooks_end
  end.
Definition FixupPrivEndLocked (l : HookList) : HookList :=
  mkHookList (fixup_loop (Z.to_nat l.(priv_end)) l.(priv_data) l.(priv_end)) l.(priv_data).

Definition HL_Remove (value : Z) (l : HookList) : bool * HookList :=
  if value =? 0 then (false, l)
  else
    let hooks_end := l.(priv_end) in
    let index := scan (Z.to_nat hooks_end) (fun v => negb (value =? v)) l.(priv_data) 0 hooks_end in
    if index =? hooks_end then (false, l)
    else (true, FixupPrivEndLocked (mkHookList l.(priv_end) (<[index := 0]> l.(priv_data)))).

(** [for (int i = 0; i < hooks_end && n > 0; ++i)] over the indices still to visit: what
    is written to [output_array]. *)
Fixpoint traverse_loop (indices : list Z) (d : gmap Z Z) (n : Z) : list Z :=
  match indices with
  | [] => []
  | i :: indices =>
      if n >? 0 then
        let data := arr_get d i in
        if negb (data =? 0) then data :: traverse_loop indices d (n - 1) else traverse_loop indices d n
      else []
  end.
Definition Traverse (n : Z) (l : HookList) : list Z := traverse_loop (seqZ 0 l.(priv_end)) l.(priv_data) n.

Definition hooks_empty (l : HookList) : bool := l.(priv_end) =? 0.
Definition GetSingular (l : HookList) : Z := arr_get l.(priv_data) kHookListSingularIdx.

Definition ExchangeSingular (value : Z) (l : HookList) : Z * HookList :=
  let old_value := GetSingular l in
  let d := <[kHookListSingularIdx := value]> l.(priv_data) in
  (old_value, if negb (value =? 0) then mkHookList (kHookListSingularIdx + 1) d
              else FixupPrivEndLocked (mkHookList l.(priv_end) d)).

(** The hooks [InvokeNewHookSlow] and [InvokeDeleteHookSlow] call, in order. *)
Definition invoked_hooks (l : HookList) : list Z := Traverse kHookListMaxValues l.

(** ** Well-formed lists *)

(** The hooks in the array, by index. *)
Definition hooks_of (d : gmap Z Z) (indices : list Z) : list Z :=
  filter (fun v => v <> 0) (arr_get d <$> indices).
Definition installed (l : HookList) : list Z := hooks_of l.(priv_data) (seqZ 0 kHookListCapacity).

Record hooks_ok (l : HookList) : Prop := {
  ho_end : 0 <= l.(priv_end) <= kHookListCapacity;
  ho_past i : l.(priv_end) <= i -> arr_get l.(priv_data) i = 0;
  ho_last : 0 < l.(priv_end) -> arr_get l.(priv_data) (l.(priv_end) - 1) <> 0
}.

Lemma traverse_loop_take d l : forall n, 0 <= n -> traverse_loop l d n = take (Z.to_nat n) (hooks_of d l).
Proof.
  unfold hooks_of. induction l as [|i l IH]; intros n Hn; cbn [traverse_loop].
  - by rewrite fmap_nil, filter_nil, take_nil.
  - rewrite fmap_cons, filter_cons. rewrite Z.gtb_ltb. destruct (Z.ltb_spec 0 n).
    + destruct (Z.eqb_spec (arr_get d i) 0) as [Hz|Hz]; cbn [negb].
      * rewrite decide_False by tauto. by apply IH.
      * rewrite decide_True by done. replace (Z.to_nat n) with (S (Z.to_nat (n - 1))) by lia. simpl. f_equal. apply IH. lia.
    + by replace (Z.to_nat n) with 0%nat by lia.
Qed.

Lemma hooks_of_app d l1 l2 : hooks_of d (l1 ++ l2) = hooks_of d l1 ++ hooks_of d l2.
Proof. unfold hooks_of. by rewrite fmap_app, filter_app. Qed.

Lemma hooks_of_nil d l : (forall i, i ∈ l -> arr_get d i = 0) -> hooks_of d l = [].
Proof.
  unfold hooks_of. induction l as [|i l IH]; intros Hl; [done|]. rewrite fmap_cons, filter_cons.
  rewrite (Hl i) by (by left). rewrite decide_False by tauto. apply IH. intros. apply Hl. by right.
Qed.

Lemma hooks_of_ext d d' l : (forall i, i ∈ l -> arr_get d' i = arr_get d i) -> hooks_of d' l = hooks_of d l.
Proof.
  unfold hooks_of. intros Hl. f_equal. apply list_fmap_ext. intros k i Hk. apply Hl. by eapply list_elem_of_lookup_2.
Qed.

Lemma seqZ_split_at k n : 0 <= k < n -> seqZ 0 n = seqZ 0 k ++ k :: seqZ (k + 1) (n - k - 1).
Proof.
  intros Hk. replace n with (k + (1 + (n - k - 1))) at 1 by lia. rewrite seqZ_app by lia. f_equal.
  rewrite Z.add_0_l, seqZ_app by lia. done.
Qed.

Lemma installed_end l : hooks_ok l -> installed l = hooks_of l.(priv_data) (seqZ 0 l.(priv_end)).
Proof.
  intros [He Hp _]. unfold installed. replace kHookListCapacity with (l.(priv_end) + (kHookListCapacity - l.(priv_end))) by lia.
  rewrite seqZ_app by lia. rewrite hooks_of_app, (hooks_of_nil _ (seqZ (0 + _) _)), app_nil_r; [done|].
  intros i Hi%elem_of_seqZ. apply Hp. lia.
Qed.

Lemma scan_spec n p d limit : forall index, limit - index <= Z.of_nat n -> index <= limit ->
  let k := scan n p d index limit in
  index <= k <= limit /\ (forall i, index <= i < k -> p (arr_get d i) = true) /\ (k < limit -> p (arr_get d k) = false).
Proof.
  induction n as [|n IH]; intros index Hn Hle; cbn [scan].
  - split_and!; lia || (intros; lia).
  - destruct (Z.ltb_spec index limit); cbn [andb].
    + destruct (p (arr_get d index)) eqn:Hp.
      * destruct (IH (index + 1) ltac:(lia) ltac:(lia)) as (H1 & H2 & H3). split_and!; [lia..| |done].
        intros i Hi. destruct (decide (i = index)) as [->|]; [done|]. apply H2. lia.
      * split_and!; [lia..|intros; lia|done].
    + split_and!; [lia..|intros; lia|lia].
Qed.

Lemma fixup_spec d : forall n e, e = Z.of_nat n -> let k := fixup_loop n d e in
  0 <= k <= e /\ (forall i, k <= i < e -> arr_get d i = 0) /\ (0 < k -> arr_get d (k - 1) <> 0).
Proof.
  induction n as [|n IH]; intros e ->; cbn [fixup_loop]; [split_and!; lia || (intros; lia)|].
  rewrite Z.gtb_ltb. destruct (Z.ltb_spec 0 (Z.of_nat (S n))); [|lia]. cbn [andb].
  destruct (Z.eqb_spec (arr_get d (Z.of_nat (S n) - 1)) 0).
  - destruct (IH (Z.of_nat (S n) - 1) ltac:(lia)) as (H1 & H2 & H3). split_and!; [lia..| |done].
    intros i Hi. destruct (decide (i = Z.of_nat (S n) - 1)) as [->|]; [done|]. apply H2. lia.
  - split_and!; [lia..|intros; lia|done].
Qed.

Lemma fixup_ok d e : 0 <= e <= kHookListCapacity -> (forall i, e <= i -> arr_get d i = 0) ->
  hooks_ok (FixupPrivEndLocked (mkHookList e d)).
Proof.
  intros He Hp. unfold FixupPrivEndLocked. cbn [priv_end priv_data].
  destruct (fixup_spec d (Z.to_nat e) e ltac:(lia)) as (H1 & H2 & H3). split; cbn [priv_end priv_data]; [lia| |done].
  intros i Hi. destruct (decide (i < e)); [apply H2; lia|apply Hp; lia].
Qed.

Lemma hooks_ok_new : hooks_ok HookList_new.
Proof. split; done || (intros; lia). Qed.

(** The hooks around a changed entry. *)
Lemma installed_insert d e k v : 0 <= k < kHookListCapacity ->
  installed (mkHookList e (<[k := v]> d)) = hooks_of d (seqZ 0 k) ++ filter (fun x => x <> 0) [v] ++ hooks_of d (seqZ (k + 1) (8 - k - 1)).
Proof.
  intros Hk. unfold installed. cbn [priv_data]. change kHookListCapacity with 8 in *. rewrite (seqZ_split_at k) by done.
  rewrite hooks_of_app. f_equal.
  - apply hooks_of_ext. intros i Hi%elem_of_seqZ. apply arr_get_insert_ne. lia.
  - unfold hooks_of. rewrite fmap_cons, arr_get_insert_eq. change (v :: ?l) with ([v] ++ l). rewrite filter_app. f_equal.
    apply hooks_of_ext. intros i Hi%elem_of_seqZ. apply arr_get_insert_ne. lia.
Qed.

Lemma installed_at d e k : 0 <= k < kHookListCapacity ->
  installed (mkHookList e d) = hooks_of d (seqZ 0 k) ++ filter (fun x => x <> 0) [arr_get d k] ++ hooks_of d (seqZ (k + 1) (8 - k - 1)).
Proof.
  intros Hk. rewrite <- (installed_insert d e k (arr_get d k) Hk). unfold installed. cbn [priv_data].
  apply hooks_of_ext. intros i _. destruct (decide (i = k)) as [->|]; [by rewrite arr_get_insert_eq|by rewrite arr_get_insert_ne].
Qed.

Lemma elem_of_hooks d l v : v ∈ hooks_of d l <-> v <> 0 /\ exists i, i ∈ l /\ arr_get d i = v.
Proof.
  unfold hooks_of. rewrite list_elem_of_filter, list_elem_of_fmap. split.
  - intros (Hv & i & -> & Hi). split; [done|]. by exists i.
  - intros (Hv & i & Hi & <-). split; [done|]. by exists i.
Qed.

Lemma hooks_of_full d l : (forall i, i ∈ l -> arr_get d i <> 0) -> length (hooks_of d l) = length l.
Proof.
  unfold hooks_of. induction l as [|i l IH]; intros Hl; [done|]. rewrite fmap_cons, filter_cons.
  rewrite decide_True by (apply Hl; by left). simpl. f_equal. apply IH. intros. apply Hl. by right.
Qed.

Lemma HL_Add_ok v l : hooks_ok l -> let r := HL_Add v l in hooks_ok r.2 /\
  (r.1 = true -> v <> 0 /\ exists l1 l2, installed l = l1 ++ l2 /\ installed r.2 = l1 ++ v :: l2) /\
  (r.1 = false -> r.2 = l /\ (v = 0 \/ 7 <= Z.of_nat (length (installed l)))).
Proof.
  intros Hok. pose proof Hok as [He Hp Hl]. unfold HL_Add. destruct (Z.eqb_spec v 0) as [->|Hv]; [split_and!; [done|done|intros _; split; [done|by left]]|].
  destruct (scan_spec 7 (fun v => negb (v =? 0)) l.(priv_data) kHookListMaxValues 0) as (H1 & H2 & H3); [done..|].
  cbv zeta. set (k := scan _ _ _ _ _) in *. destruct l as [e d]. simpl in *. destruct (Z.eqb_spec k kHookListMaxValues) as [Hk|Hk].
  - split_and!; try done. intros _. split; [done|]. right. rewrite (installed_at d e 7) by done.
    rewrite length_app, (hooks_of_full d (seqZ 0 7)).
    + rewrite length_seqZ. lia.
    + intros i Hi%elem_of_seqZ. specialize (H2 i ltac:(unfold kHookListMaxValues in *; lia)). by destruct (Z.eqb_spec (arr_get d i) 0).
  - assert (Hk7 : 0 <= k < 7) by (unfold kHookListMaxValues in *; lia).
    assert (Hdk : arr_get d k = 0).
    { specialize (H3 ltac:(unfold kHookListMaxValues in *; lia)). by destruct (Z.eqb_spec (arr_get d k) 0). }
    split_and!; [|intros _; split; [done|]|done].
    + unfold kHookListCapacity in *. split; cbn [priv_end priv_data snd].
      * unfold kHookListCapacity. destruct (Z.leb_spec e k); lia.
      * intros i Hi. destruct (Z.leb_spec e k); rewrite arr_get_insert_ne by lia; apply Hp; lia.
      * intros Hpos. destruct (Z.leb_spec e k); [by replace (k + 1 - 1) with k by lia; rewrite arr_get_insert_eq|].
        destruct (decide (e - 1 = k)) as [->|]; [by rewrite arr_get_insert_eq|]. rewrite arr_get_insert_ne by lia. by apply Hl.
    + exists (hooks_of d (seqZ 0 k)), (hooks_of d (seqZ (k + 1) (8 - k - 1))).
      cbn [snd]. rewrite (installed_at d e k), installed_insert by (unfold kHookListCapacity; lia). rewrite Hdk. split; [done|].
      rewrite filter_cons, decide_True by done. done.
Qed.

Lemma HL_Remove_ok v l : hooks_ok l -> let r := HL_Remove v l in hooks_ok r.2 /\
  (r.1 = true -> exists l1 l2, installed l = l1 ++ v :: l2 /\ (v ∉ l1) /\ installed r.2 = l1 ++ l2) /\
  (r.1 = false -> r.2 = l /\ (v = 0 \/ v ∉ installed l)).
Proof.
  intros Hok. pose proof Hok as [He Hp Hl]. unfold HL_Remove. destruct (Z.eqb_spec v 0) as [->|Hv]; [split_and!; [done|done|intros _; split; [done|by left]]|].
  destruct (scan_spec (Z.to_nat l.(priv_end)) (fun x => negb (v =? x)) l.(priv_data) l.(priv_end) 0) as (H1 & H2 & H3); [lia..|].
  cbv zeta. set (k := scan _ _ _ _ _) in *. destruct (Z.eqb_spec k l.(priv_end)) as [Hk|Hk].
  - split_and!; try done. intros _. split; [done|]. right. rewrite installed_end by done.
    intros (_ & i & Hi%elem_of_seqZ & Hiv)%elem_of_hooks. specialize (H2 i ltac:(lia)). by rewrite Hiv, Z.eqb_refl in H2.
  - assert (Hdk : arr_get l.(priv_data) k = v).
    { specialize (H3 ltac:(lia)). by destruct (Z.eqb_spec v (arr_get l.(priv_data) k)). }
    destruct l as [e d]. cbn [priv_end priv_data] in *. unfold kHookListCapacity in *. split_and!; [|intros _|done].
    + apply fixup_ok; [done|]. intros i Hi. rewrite arr_get_insert_ne by lia. by apply Hp.
    + exists (hooks_of d (seqZ 0 k)), (hooks_of d (seqZ (k + 1) (8 - k - 1))).
      change (installed (true, FixupPrivEndLocked (mkHookList e (<[k:=0]> d))).2) with (installed (mkHookList e (<[k:=0]> d))).
      rewrite (installed_at d e k), installed_insert by (unfold kHookListCapacity; lia). rewrite Hdk. split_and!; [|intros Hin|done].
      * by rewrite filter_cons, decide_True.
      * apply elem_of_hooks in Hin as (_ & i & Hi%elem_of_seqZ & Hiv). specialize (H2 i ltac:(lia)). by rewrite Hiv, Z.eqb_refl in H2.
Qed.

Lemma ExchangeSingular_ok v l : hooks_ok l -> let r := ExchangeSingular v l in hooks_ok r.2 /\
  r.1 = GetSingular l /\ GetSingular r.2 = v /\ forall i, i <> kHookListSingularIdx -> arr_get r.2.(priv_data) i = arr_get l.(priv_data) i.
Proof.
  intros [He Hp Hl]. unfold ExchangeSingular, GetSingular, kHookListSingularIdx, kHookListCapacity in *.
  destruct (Z.eqb_spec v 0) as [->|Hv]; cbn [negb fst snd priv_end priv_data FixupPrivEndLocked].
  - split_and!; [apply fixup_ok; [done|]|done|by rewrite arr_get_insert_eq|intros; by apply arr_get_insert_ne].
    intros i Hi. destruct (decide (i = 7)) as [->|]; [by rewrite arr_get_insert_eq|]. rewrite arr_get_insert_ne by done. by apply Hp.
  - split_and!; [split; cbn [priv_end priv_data]; unfold kHookListCapacity|done|by rewrite arr_get_insert_eq|intros; by apply arr_get_insert_ne].
    + lia.
    + intros i Hi. rewrite arr_get_insert_ne by lia. apply Hp. lia.
    + intros _. by rewrite arr_get_insert_eq.
Qed.

Lemma installed_empty l : hooks_ok l -> hooks_empty l = true <-> installed l = [].
Proof.
  intros Hok. pose proof Hok as [He Hp Hl]. unfold hooks_empty. rewrite installed_end, Z.eqb_eq by done. split; [by intros ->|].
  intros Hnil. destruct (decide (0 < l.(priv_end))) as [H0|]; [|lia]. exfalso.
  assert (Hin : arr_get l.(priv_data) (l.(priv_end) - 1) ∈ @nil Z); [|by apply not_elem_of_nil in Hin].
  rewrite <- Hnil. apply elem_of_hooks. split; [by apply Hl|]. eexists. split; [|done]. apply elem_of_seqZ. lia.
Qed.

Lemma Traverse_take n l : hooks_ok l -> 0 <= n -> Traverse n l = take (Z.to_nat n) (installed l).
Proof. intros Hok Hn. unfold Traverse. by rewrite traverse_loop_take, installed_end. Qed.

(** The operations on a list of hooks, and the lists they lead to. *)
Inductive hooks_reach : HookList -> Prop :=
| hr_new : hooks_reach HookList_new
| hr_add v l : hooks_reach l -> hooks_reach (HL_Add v l).2
| hr_remove v l : hooks_reach l -> hooks_reach (HL_Remove v l).2
| hr_exchange v l : hooks_reach l -> hooks_reach (ExchangeSingular v l).2.

Lemma hooks_reach_ok l : hooks_reach l -> hooks_ok l.
Proof.
  induction 1; [apply hooks_ok_new|by apply HL_Add_ok|by apply HL_Remove_ok|by apply ExchangeSingular_ok].
Qed.

(** C36: the lists of hooks, whatever was added, removed and exchanged before: [empty] is
    exact (the fast paths of the allocator skip the hooks on the strength of it);
    [Traverse] gives the first [n] installed hooks in order; [Add] inserts one hook and
    fails only for a null hook or with seven hooks installed; [Remove] takes out the
    first hook that matches and fails only if there is none. *)
Theorem hook_lists v n l : hooks_reach l -> 0 <= n ->
  (hooks_empty l = true <-> installed l = []) /\ Traverse n l = take (Z.to_nat n) (installed l) /\
  (let r := HL_Add v l in
   (r.1 = true -> v <> 0 /\ exists l1 l2, installed l = l1 ++ l2 /\ installed r.2 = l1 ++ v :: l2) /\
   (r.1 = false -> r.2 = l /\ (v = 0 \/ 7 <= Z.of_nat (length (installed l))))) /\
  (let r := HL_Remove v l in
   (r.1 = true -> exists l1 l2, installed l = l1 ++ v :: l2 /\ (v ∉ l1) /\ installed r.2 = l1 ++ l2) /\
   (r.1 = false -> r.2 = l /\ (v = 0 \/ v ∉ installed l))).
Proof.
  intros Hl%hooks_reach_ok Hn. destruct (HL_Add_ok v l Hl) as [_ Ha], (HL_Remove_ok v l Hl) as [_ Hr].
  exact (conj (installed_empty l Hl) (conj (Traverse_take n l Hl Hn) (conj Ha Hr))).
Qed.

(** Seven hooks and the one of the deprecated interface. *)
Definition full_hooks : HookList :=
  (ExchangeSingular 80 (foldl (fun l v => (HL_Add v l).2) HookList_new [10; 20; 30; 40; 50; 60; 70])).2.

Lemma full_hooks_reach : hooks_reach full_hooks.
Proof. unfold full_hooks. cbn [foldl]. repeat constructor. Qed.

Lemma hook_lists_witness : Traverse 7 full_hooks = take 7 (installed full_hooks).
Proof. exact (proj1 (proj2 (hook_lists 0 7 full_hooks full_hooks_reach ltac:(lia)))). Defined.

(** With all eight slots taken the callers of [Traverse] leave one hook out: the array
    they pass holds seven. *)
Lemma singular_hook_skipped :
  installed full_hooks = [10; 20; 30; 40; 50; 60; 70; 80] /\ invoked_hooks full_hooks = [10; 20; 30; 40; 50; 60; 70].
Proof. by vm_compute. Qed.
