(* ===== verification/LinkedList.v ===== *)
(** Singly linked lists threaded through free objects: [src/linked_list.h].

    The first word of a free object is the pointer to the next one.  The model
    keeps the memory as a map from word addresses to words; [nullptr] is 0. *)
From S2P Require Import Prelude.

Abbreviation mem := (gmap Z Z).

Definition SLL_Next (m : mem) (t : Z) : Z := default 0 (m !! t).
Definition SLL_SetNext (m : mem) (t n : Z) : mem := <[t := n]> m.

(** [SLL_Push(&list, element)]: the new memory and the new value of [list]. *)
Definition SLL_Push (m : mem) (list element : Z) : mem * Z :=
  let next := list in
  let list := element in
  (SLL_SetNext m element next, list).

(** [SLL_Pop(&list)]: the popped object and the new value of [list]. *)
Definition SLL_Pop (m : mem) (list : Z) : Z * Z :=
  let result := list in
  (result, SLL_Next m list).

(** [SLL_TryPop(&list, &rv)]: [None] is [false]. *)
Definition SLL_TryPop (m : mem) (list : Z) : option (Z * Z) :=
  let result := list in
  if result =? 0 then None
  else
    let next := SLL_Next m list in
    Some (result, next).

(** [tmp = SLL_Next(tmp)], [n] times. *)
Fixpoint SLL_Advance (m : mem) (tmp : Z) (n : nat) : Z :=
  match n with O => tmp | S n => SLL_Advance m (SLL_Next m tmp) n end.

(** [SLL_PopRange(&head, N, &start, &end)]: the new memory, [head], [start] and
    [end]. *)
Definition SLL_PopRange (m : mem) (head N : Z) : mem * Z * Z * Z :=
  if N =? 0 then (m, head, 0, 0)
  else
    let tmp := SLL_Advance m head (Z.to_nat (N - 1)) in
    let start := head in
    let end_ := tmp in
    let head := SLL_Next m tmp in
    (SLL_SetNext m tmp 0, head, start, end_).

Definition SLL_PushRange (m : mem) (head start end_ : Z) : mem * Z :=
  if start =? 0 then (m, head)
  else (SLL_SetNext m end_ head, start).

(** [SLL_Size]: the loop runs until it reads a null pointer. *)
Fixpoint SLL_Size_loop (fuel : nat) (m : mem) (head count : Z) : result Z :=
  match fuel with
  | O => NoFuel
  | S fuel =>
      if head =? 0 then Ok count
      else SLL_Size_loop fuel m (SLL_Next m head) (count + 1)
  end.
Definition SLL_Size (fuel : nat) (m : mem) (head : Z) : result Z := SLL_Size_loop fuel m head 0.

(** ** The list a head pointer denotes *)

(** [sll_seg m a l b]: following the links from [a] visits exactly the objects
    of [l] and then reaches [b]. *)
Fixpoint sll_seg (m : mem) (a : Z) (l : list Z) (b : Z) : Prop :=
  match l with
  | [] => a = b
  | x :: l => a = x /\ x <> 0 /\ sll_seg m (SLL_Next m x) l b
  end.

(** A well-formed free list: null-terminated and without repetition. *)
Definition sll (m : mem) (head : Z) (l : list Z) : Prop :=
  sll_seg m head l 0 /\ NoDup l.

Lemma SLL_Next_Set_eq m t n : SLL_Next (SLL_SetNext m t n) t = n.
Proof. unfold SLL_Next, SLL_SetNext. by rewrite lookup_insert_eq. Qed.

Lemma SLL_Next_Set_ne m t n x : t <> x -> SLL_Next (SLL_SetNext m t n) x = SLL_Next m x.
Proof. intros. unfold SLL_Next, SLL_SetNext. by rewrite lookup_insert_ne. Qed.

Lemma sll_seg_frame m t n a l b :
  t ∉ l -> sll_seg m a l b -> sll_seg (SLL_SetNext m t n) a l b.
Proof.
  revert a. induction l as [|x l IH]; intros a Ht; [done|].
  intros (-> & Hx & Hl). apply not_elem_of_cons in Ht as [Htx Htl].
  simpl. rewrite SLL_Next_Set_ne by done. auto.
Qed.

Lemma sll_frame m t n a l : t ∉ l -> sll m a l -> sll (SLL_SetNext m t n) a l.
Proof. intros Ht [? ?]. split; [by apply sll_seg_frame|done]. Qed.

Lemma sll_seg_app m a l1 l2 b :
  sll_seg m a (l1 ++ l2) b <-> exists c, sll_seg m a l1 c /\ sll_seg m c l2 b.
Proof.
  revert a. induction l1 as [|x l1 IH]; intros a; simpl; [naive_solver|].
  rewrite IH. naive_solver.
Qed.

Lemma sll_nil_iff m a l : sll m a l -> (a = 0 <-> l = []).
Proof.
  intros [Hs _]. destruct l as [|x l]; simpl in Hs; [naive_solver|].
  destruct Hs as (-> & Hx & _). naive_solver.
Qed.

Lemma sll_seg_nonzero m a l b x : sll_seg m a l b -> x ∈ l -> x <> 0.
Proof.
  revert a. induction l as [|y l IH]; intros a Hs Hx; [by apply not_elem_of_nil in Hx|].
  destruct Hs as (_ & ? & ?). apply elem_of_cons in Hx as [->|]; eauto.
Qed.

(** Two lists from one head are the same list. *)
Lemma sll_inj m a l1 l2 : sll m a l1 -> sll m a l2 -> l1 = l2.
Proof.
  intros [H1 _] [H2 _]. revert a l2 H1 H2.
  induction l1 as [|x l1 IH]; intros a [|y l2]; simpl; naive_solver.
Qed.

(** ** The operations *)

Lemma SLL_Push_sll m head l x :
  sll m head l -> x <> 0 -> x ∉ l ->
  let '(m', head') := SLL_Push m head x in sll m' head' (x :: l).
Proof.
  intros [Hs Hnd] Hx Hnx. split; [|by constructor].
  simpl. rewrite SLL_Next_Set_eq. split_and!; try done. by apply sll_seg_frame.
Qed.

Lemma SLL_Pop_sll m head x l :
  sll m head (x :: l) -> SLL_Pop m head = (x, SLL_Next m x) /\ sll m (SLL_Next m x) l.
Proof.
  intros [(-> & Hx & Hs) Hnd]. split; [done|]. split; [done|]. by inversion Hnd.
Qed.

Lemma SLL_TryPop_sll m head l :
  sll m head l ->
  match l with
  | [] => SLL_TryPop m head = None
  | x :: l' => SLL_TryPop m head = Some (x, SLL_Next m x) /\ sll m (SLL_Next m x) l'
  end.
Proof.
  intros H. destruct l as [|x l].
  - destruct H as [-> _]. done.
  - destruct (SLL_Pop_sll _ _ _ _ H) as [_ ?]. destruct H as [(-> & Hx & _) _].
    unfold SLL_TryPop. by destruct (Z.eqb_spec x 0).
Qed.

Lemma SLL_Advance_seg m a l1 x l2 b :
  sll_seg m a (l1 ++ x :: l2) b -> SLL_Advance m a (length l1) = x.
Proof.
  revert a. induction l1 as [|y l1 IH]; intros a H; simpl in *; [by destruct H|].
  destruct H as (-> & _ & H). by apply IH.
Qed.

Lemma SLL_PopRange_cut m head l1 x l2 :
  sll m head (l1 ++ x :: l2) ->
  let '(m', head', start, end_) := SLL_PopRange m head (Z.of_nat (length l1) + 1) in
  sll m' start (l1 ++ [x]) /\ end_ = x /\ sll m' head' l2 /\
  (forall t, t ∉ l1 ++ [x] -> m' !! t = m !! t).
Proof.
  intros [Hs Hnd]. unfold SLL_PopRange.
  destruct (Z.eqb_spec (Z.of_nat (length l1) + 1) 0); [lia|].
  replace (Z.to_nat (Z.of_nat (length l1) + 1 - 1)) with (length l1) by lia.
  rewrite (SLL_Advance_seg _ _ _ _ _ _ Hs).
  apply sll_seg_app in Hs as (c & H1 & -> & Hx & H2).
  apply NoDup_app in Hnd as (Hn1 & Hn12 & Hn2). apply NoDup_cons in Hn2 as [Hx2 Hn2].
  assert (x ∉ l1) by (intros ?; eapply Hn12; [done|by left]).
  split_and!; try done.
  - split.
    + apply sll_seg_app. exists x. split; [by apply sll_seg_frame|].
      simpl. by rewrite SLL_Next_Set_eq.
    + apply NoDup_app. split_and!; [done| |apply NoDup_singleton].
      intros y Hy ->%list_elem_of_singleton. done.
  - split; [by apply sll_seg_frame|done].
  - intros t Ht. apply lookup_insert_ne. set_solver.
Qed.

(** [SLL_PopRange] with a non-zero count no longer than the list cuts the list in two: the
    range is the null-terminated prefix from [start] to [end], the remainder is
    what [head] now denotes, and no memory outside the range is written. *)
Theorem SLL_PopRange_spec m head l1 x l2 :
  sll m head (l1 ++ x :: l2) ->
  let '(m', head', start, end_) := SLL_PopRange m head (Z.of_nat (length l1) + 1) in
  sll m' start (l1 ++ [x]) /\ end_ = x /\ sll m' head' l2 /\
  (forall t, t ∉ l1 ++ [x] -> m' !! t = m !! t).
Proof. exact (SLL_PopRange_cut m head l1 x l2). Qed.

(** [SLL_PushRange] is the inverse of [SLL_PopRange]: pushing the removed
    range back in front of the remainder restores the list and the memory. *)
Theorem SLL_PopRange_PushRange m head l N :
  sll m head l -> 0 <= N <= Z.of_nat (length l) ->
  (forall x, x ∈ l -> is_Some (m !! x)) ->
  let '(m', head', start, end_) := SLL_PopRange m head N in
  SLL_PushRange m' head' start end_ = (m, head).
Proof.
  intros Hs HN Hdom. unfold SLL_PopRange. destruct (Z.eqb_spec N 0) as [->|HN0]; [done|].
  destruct (lookup_lt_is_Some_2 l (Z.to_nat (N - 1))) as [x Hx]; [lia|].
  apply list_elem_of_split_length in Hx as Hl. destruct Hl as (l1 & l2 & -> & Hlen).
  rewrite Hlen. destruct Hs as [Hs Hnd]. rewrite (SLL_Advance_seg _ _ _ _ _ _ Hs).
  unfold SLL_PushRange. destruct (Z.eqb_spec head 0) as [->|].
  { destruct l1; simpl in Hs; destruct Hs as (<- & ? & _); done. }
  f_equal. unfold SLL_SetNext. rewrite insert_insert_eq. apply insert_id.
  destruct (Hdom x) as [v Hv]; [set_solver|]. unfold SLL_Next. by rewrite Hv.
Qed.

Lemma SLL_PushRange_sll m head l start end_ r :
  sll m head l -> sll_seg m start (r ++ [end_]) 0 -> NoDup (r ++ end_ :: l) ->
  let '(m', head') := SLL_PushRange m head start end_ in sll m' head' (r ++ end_ :: l).
Proof.
  intros [Hs Hnl] Hr Hnd. unfold SLL_PushRange.
  apply sll_seg_app in Hr as (c & Hr & -> & Hz & _).
  destruct (Z.eqb_spec start 0) as [->|].
  { destruct r; simpl in Hr; [by subst|]. by destruct Hr as (<- & ? & _). }
  split; [|done]. apply NoDup_app in Hnd as (_ & Hre & Hn2).
  apply NoDup_cons in Hn2 as [He _].
  apply sll_seg_app. exists end_. split.
  - apply sll_seg_frame; [|done]. intros ?. eapply Hre; [done|by left].
  - simpl. rewrite SLL_Next_Set_eq. split_and!; try done. by apply sll_seg_frame.
Qed.

Lemma SLL_Size_loop_sll m l : forall head count fuel,
  sll_seg m head l 0 -> (length l < fuel)%nat ->
  SLL_Size_loop fuel m head count = Ok (count + Z.of_nat (length l)).
Proof.
  induction l as [|x l IH]; intros head count [|fuel] Hs Hf; simpl in *; try lia.
  - subst head. simpl. f_equal. lia.
  - destruct Hs as (-> & Hx & Hs). destruct (Z.eqb_spec x 0); [done|].
    rewrite (IH _ _ fuel) by (done || lia). f_equal. lia.
Qed.

(** [SLL_Size] terminates on every well-formed list and counts its objects. *)
Lemma SLL_Size_length m head l :
  sll m head l -> SLL_Size (S (length l)) m head = Ok (Z.of_nat (length l)).
Proof. intros [Hs _]. unfold SLL_Size. rewrite (SLL_Size_loop_sll m l); done || lia. Qed.

(** A list of three objects, for the witnesses. *)
Definition mem3 : mem := <[16 := 32]> (<[32 := 48]> (<[48 := 0]> ∅)).

Lemma mem3_sll : sll mem3 16 [16; 32; 48].
Proof.
  split; [simpl; split_and!; done|]. repeat constructor; set_solver.
Qed.

Lemma SLL_PopRange_spec_witness :
  let '(m', head', start, end_) := SLL_PopRange mem3 16 2 in
  sll m' start [16; 32] /\ end_ = 32 /\ sll m' head' [48] /\
  (forall t, t ∉ [16; 32] -> m' !! t = mem3 !! t).
Proof. apply (SLL_PopRange_spec mem3 16 [16] 32 [48] mem3_sll). Defined.

Lemma SLL_PopRange_PushRange_witness :
  let '(m', head', start, end_) := SLL_PopRange mem3 16 2 in
  SLL_PushRange m' head' start end_ = (mem3, 16).
Proof.
  apply (SLL_PopRange_PushRange mem3 16 [16; 32; 48] 2 mem3_sll); [simpl; lia|].
  intros x Hx. apply list_elem_of_In in Hx. simpl in Hx.
  destruct Hx as [<-|[<-|[<-|[]]]]; vm_compute; eauto.
Defined.
