(* ===== verification/Bytes.v ===== *)
(** Bytes of the word memory, and the [memset] and [memcpy] of the C library on it.

    [mem] holds 64-bit words at addresses that are multiples of 8; the bytes of a word
    are in little-endian order. *)
From S2P Require Import Prelude LinkedList.

Definition word_of (m : mem) (a : Z) : Z := default 0 (m !! a).
Definition word_addr (a : Z) : Z := 8 * (a / 8).

Definition get_byte (m : mem) (a : Z) : Z :=
  word_of m (word_addr a) / 2 ^ (8 * (a mod 8)) mod 256.

(** The word [w] with its byte [i] replaced by [v]. *)
Definition word_with (w i v : Z) : Z :=
  w / 2 ^ (8 * (i + 1)) * 2 ^ (8 * (i + 1)) + v mod 256 * 2 ^ (8 * i) + w mod 2 ^ (8 * i).
Definition set_byte (m : mem) (a v : Z) : mem :=
  <[word_addr a := word_with (word_of m (word_addr a)) (a mod 8) v]> m.

Fixpoint memset_loop (n : nat) (m : mem) (p v : Z) : mem :=
  match n with
  | O => m
  | S n => memset_loop n (set_byte m p v) (p + 1) v
  end.
Definition memset (m : mem) (p v n : Z) : mem := memset_loop (Z.to_nat n) m p v.

(** The regions do not overlap. *)
Fixpoint memcpy_loop (n : nat) (m : mem) (dst src : Z) : mem :=
  match n with
  | O => m
  | S n => memcpy_loop n (set_byte m dst (get_byte m src)) (dst + 1) (src + 1)
  end.
Definition memcpy (m : mem) (dst src n : Z) : mem := memcpy_loop (Z.to_nat n) m dst src.

(** ** Reading after writing *)

Lemma word_addr_spec a : word_addr a <= a < word_addr a + 8 /\ a = word_addr a + a mod 8 /\ 0 <= a mod 8 < 8.
Proof. unfold word_addr. pose proof (Z.div_mod a 8 ltac:(lia)). pose proof (Z.mod_pos_bound a 8 ltac:(lia)). lia. Qed.

Lemma word_with_byte w i v j : 0 <= i < 8 -> 0 <= j < 8 ->
  word_with w i v / 2 ^ (8 * j) mod 256 = if decide (i = j) then v mod 256 else w / 2 ^ (8 * j) mod 256.
Proof.
  intros Hi Hj. unfold word_with. replace (8 * (i + 1)) with (8 * i + 8) by lia. rewrite Z.pow_add_r by lia.
  change (2 ^ 8) with 256. set (A := w / (2 ^ (8 * i) * 256)). set (L := w mod 2 ^ (8 * i)). set (b := v mod 256).
  assert (Hb : 0 <= b < 256) by (apply Z.mod_pos_bound; lia).
  assert (Hp : forall k, 0 <= k -> 0 < 2 ^ k) by (intros; apply Z.pow_pos_nonneg; lia).
  assert (HL : 0 <= L < 2 ^ (8 * i)) by (apply Z.mod_pos_bound, Hp; lia).
  pose proof (Hp (8 * i) ltac:(lia)) as Hpi. set (Q := 2 ^ (8 * i)) in *.
  assert (Hw : w = A * (Q * 256) + (w / Q mod 256) * Q + L).
  { unfold A, L. rewrite <- Z.div_div by lia. pose proof (Z.div_mod w Q ltac:(lia)). pose proof (Z.div_mod (w / Q) 256 ltac:(lia)). nia. }
  destruct (decide (i = j)) as [<-|Hne].
  - fold Q. replace (A * (Q * 256) + b * Q + L) with (L + (A * 256 + b) * Q) by lia.
    rewrite Z.div_add, (Z.div_small L) by lia. rewrite Z.add_0_l, Z.add_comm, Z_mod_plus_full. by apply Z.mod_small.
  - destruct (decide (j < i)) as [Hlt|Hge].
    + assert (HQ : Q = 2 ^ (8 * j) * (256 * 2 ^ (8 * (i - j - 1)))).
      { unfold Q. change 256 with (2 ^ 8). rewrite <- !Z.pow_add_r by lia. f_equal. lia. }
      set (R := 2 ^ (8 * (i - j - 1))) in *. pose proof (Hp (8 * j) ltac:(lia)). set (J := 2 ^ (8 * j)) in *.
      assert (Hx : forall x, (A * (Q * 256) + x * Q + L) / J mod 256 = (L / J) mod 256).
      { intros x. replace (A * (Q * 256) + x * Q + L) with (L + ((A * 256 + x) * 256 * R) * J) by (rewrite HQ; ring).
        rewrite Z.div_add by lia. replace ((A * 256 + x) * 256 * R) with (((A * 256 + x) * R) * 256) by ring.
        by rewrite Z_mod_plus_full. }
      rewrite Hx. rewrite Hw at 1. by rewrite Hx.
    + assert (HJ : 2 ^ (8 * j) = Q * 256 * 2 ^ (8 * (j - i - 1))).
      { unfold Q. change 256 with (2 ^ 8). rewrite <- !Z.pow_add_r by lia. f_equal. lia. }
      pose proof (Hp (8 * (j - i - 1)) ltac:(lia)). rewrite HJ, <- !Z.div_div by lia. f_equal. f_equal.
      replace (A * (Q * 256) + b * Q + L) with (L + (A * 256 + b) * Q) by lia.
      rewrite Z.div_add, (Z.div_small L), Z.add_0_l by lia. replace (A * 256 + b) with (b + A * 256) by lia.
      rewrite Z.div_add, (Z.div_small b) by lia. unfold A. rewrite Z.div_div by lia. lia.
Qed.

Lemma get_set_byte m a v b : get_byte (set_byte m a v) b = if decide (a = b) then v mod 256 else get_byte m b.
Proof.
  unfold get_byte, set_byte, word_of at 1. destruct (word_addr_spec a) as (_ & Ha & Hra), (word_addr_spec b) as (_ & Hb & Hrb).
  destruct (decide (word_addr a = word_addr b)) as [Hw|Hw].
  - rewrite Hw, lookup_insert_eq. simpl. rewrite word_with_byte by done.
    destruct (decide (a = b)) as [->|Hne]; [by rewrite decide_True|]. rewrite decide_False; [done|]. lia.
  - rewrite lookup_insert_ne by done. destruct (decide (a = b)) as [->|_]; [done|]. done.
Qed.

Lemma set_byte_other m a v x : x <> word_addr a -> set_byte m a v !! x = m !! x.
Proof. intros Hx. unfold set_byte. by rewrite lookup_insert_ne. Qed.

Lemma memset_bytes n : forall m p v a,
  get_byte (memset_loop n m p v) a = if decide (p <= a < p + Z.of_nat n) then v mod 256 else get_byte m a.
Proof.
  induction n as [|n IH]; intros m p v a; cbn [memset_loop]; [by rewrite decide_False by lia|].
  rewrite IH, get_set_byte. repeat case_decide; try done; lia.
Qed.

Lemma memset_word n : forall m p v x, (forall a, p <= a < p + Z.of_nat n -> word_addr a <> x) ->
  memset_loop n m p v !! x = m !! x.
Proof.
  induction n as [|n IH]; intros m p v x Hx; cbn [memset_loop]; [done|]. rewrite IH by (intros a Ha; apply Hx; lia).
  apply set_byte_other. intros ->. by apply (Hx p); [lia|].
Qed.

Lemma memcpy_bytes n : forall m dst src a,
  (forall i j, 0 <= i < Z.of_nat n -> 0 <= j < Z.of_nat n -> dst + i <> src + j) ->
  get_byte (memcpy_loop n m dst src) a = if decide (dst <= a < dst + Z.of_nat n) then get_byte m (src + (a - dst)) mod 256 else get_byte m a.
Proof.
  induction n as [|n IH]; intros m dst src a Hd; cbn [memcpy_loop]; [by rewrite decide_False by lia|].
  rewrite IH, !get_set_byte by (intros i j Hi Hj; specialize (Hd (i + 1) (j + 1)); lia).
  destruct (decide (dst + 1 <= a < dst + 1 + Z.of_nat n)).
  - rewrite (decide_True (P := dst <= a < _)) by lia. rewrite decide_False; [f_equal; f_equal; lia|].
    specialize (Hd 0 (a - dst)). lia.
  - destruct (decide (dst = a)) as [->|]; [rewrite decide_True by lia; f_equal; f_equal; lia|by rewrite decide_False by lia].
Qed.

Lemma memcpy_word n : forall m dst src x, (forall a, dst <= a < dst + Z.of_nat n -> word_addr a <> x) ->
  memcpy_loop n m dst src !! x = m !! x.
Proof.
  induction n as [|n IH]; intros m dst src x Hx; cbn [memcpy_loop]; [done|]. rewrite IH by (intros a Ha; apply Hx; lia).
  apply set_byte_other. intros ->. by apply (Hx dst); [lia|].
Qed.

Lemma get_byte_mod m a : get_byte m a mod 256 = get_byte m a.
Proof. unfold get_byte. apply Z.mod_mod. lia. Qed.

(** Memories with the same words have the same bytes. *)
Lemma get_byte_word m m' a : m' !! word_addr a = m !! word_addr a -> get_byte m' a = get_byte m a.
Proof. intros Hm. unfold get_byte, word_of. by rewrite Hm. Qed.

Lemma memcpy_outside n : forall m dst src a, ~ dst <= a < dst + Z.of_nat n -> get_byte (memcpy_loop n m dst src) a = get_byte m a.
Proof.
  induction n as [|n IH]; intros m dst src a Ha; cbn [memcpy_loop]; [done|]. rewrite IH by lia. rewrite get_set_byte, decide_False by lia. done.
Qed.

(** Copying upwards, the bytes that are not overwritten arrive. *)
Lemma memcpy_kept n : forall m dst src i, 0 <= i < Z.of_nat n -> (forall k, 0 <= k < Z.of_nat n -> dst + k <> src + i) ->
  get_byte (memcpy_loop n m dst src) (dst + i) = get_byte m (src + i).
Proof.
  induction n as [|n IH]; intros m dst src i Hi Hk; [lia|]. cbn [memcpy_loop]. destruct (decide (i = 0)) as [->|Hi0].
  - rewrite memcpy_outside, get_set_byte, decide_True by lia. rewrite Z.add_0_r. unfold get_byte. apply Z.mod_mod. lia.
  - replace (dst + i) with (dst + 1 + (i - 1)) by lia. rewrite IH by (try intros k Hkn; try specialize (Hk (k + 1)); lia).
    replace (src + 1 + (i - 1)) with (src + i) by lia. rewrite get_set_byte, decide_False; [done|]. specialize (Hk 0). lia.
Qed.
