(* ===== verification/Span.v ===== *)
(** Spans: [src/span.h] and [src/span.cc].

    A [Span] describes a run of pages.  The model keeps the span descriptors of
    the program in two maps indexed by the address of the descriptor ([nullptr]
    is 0): [spans] holds the descriptive fields ([Record Span]), [links] the two
    list fields [next] and [prev] ([Record Link]), because the circular lists
    also run through header nodes that are embedded in other objects.  The
    [SpanSet] (a [std::set] ordered by [SpanBestFitLess]) is a sorted list. *)
From S2P Require Import Prelude SizeMap.

(** ** The descriptor *)

Inductive Location := IN_USE | ON_NORMAL_FREELIST | ON_RETURNED_FREELIST.

#[export] Instance Location_eq_dec : EqDecision Location.
Proof. solve_decision. Defined.

Record Span := mkSpan {
  start : Z;          (* starting page number *)
  length_ : Z;        (* number of pages: the field [length] *)
  objects : Z;        (* linked list of free objects *)
  refcount : Z;       (* number of non-free objects, 16 bits *)
  sizeclass : Z;      (* size class for small objects, or 0, 8 bits *)
  location : Location;
  sample : bool;
  has_span_iter : bool
}.

Definition set_start (v : Z) (s : Span) : Span :=
  mkSpan v (length_ s) (objects s) (refcount s) (sizeclass s) (location s) (sample s) (has_span_iter s).
Definition set_length (v : Z) (s : Span) : Span :=
  mkSpan (start s) v (objects s) (refcount s) (sizeclass s) (location s) (sample s) (has_span_iter s).
Definition set_objects (v : Z) (s : Span) : Span :=
  mkSpan (start s) (length_ s) v (refcount s) (sizeclass s) (location s) (sample s) (has_span_iter s).
Definition set_refcount (v : Z) (s : Span) : Span :=
  mkSpan (start s) (length_ s) (objects s) (u16 v) (sizeclass s) (location s) (sample s) (has_span_iter s).
Definition set_sizeclass (v : Z) (s : Span) : Span :=
  mkSpan (start s) (length_ s) (objects s) (refcount s) (u8 v) (location s) (sample s) (has_span_iter s).
Definition set_location (v : Location) (s : Span) : Span :=
  mkSpan (start s) (length_ s) (objects s) (refcount s) (sizeclass s) v (sample s) (has_span_iter s).
Definition set_sample (v : bool) (s : Span) : Span :=
  mkSpan (start s) (length_ s) (objects s) (refcount s) (sizeclass s) (location s) v (has_span_iter s).
Definition set_has_span_iter (v : bool) (s : Span) : Span :=
  mkSpan (start s) (length_ s) (objects s) (refcount s) (sizeclass s) (location s) (sample s) v.

(** The constructor [Span::Span()]: every field zero. *)
Definition Span_zero : Span := mkSpan 0 0 0 0 0 IN_USE false false.

(** The fields [NewSpan(p, len)] leaves in the new descriptor. *)
Definition NewSpan_fields (p len : Z) : Span := set_length len (set_start p Span_zero).

(** ** Doubly linked lists of spans *)

Record Link := mkLink { next : Z; prev : Z }.
Abbreviation links := (gmap Z Link).

Definition lnext (L : links) (p : Z) : Z := default 0 (next <$> L !! p).
Definition lprev (L : links) (p : Z) : Z := default 0 (prev <$> L !! p).
Definition set_next (L : links) (p v : Z) : links := <[p := mkLink v (lprev L p)]> L.
Definition set_prev (L : links) (p v : Z) : links := <[p := mkLink (lnext L p) v]> L.

Definition DLL_Init (L : links) (list : Z) : links :=
  let L := set_next L list list in
  set_prev L list list.

Definition DLL_Remove (L : links) (span : Z) : links :=
  let L := set_next L (lprev L span) (lnext L span) in
  let L := set_prev L (lnext L span) (lprev L span) in
  let L := set_prev L span 0 in
  set_next L span 0.

Definition DLL_IsEmpty (L : links) (list : Z) : bool := lnext L list =? list.

Definition DLL_Prepend (L : links) (list span : Z) : links :=
  let L := set_next L span (lnext L list) in
  let L := set_prev L span list in
  let L := set_prev L (lnext L list) span in
  set_next L list span.

Fixpoint DLL_Length_loop (fuel : nat) (L : links) (list s result : Z) : Prelude.result Z :=
  match fuel with
  | O => NoFuel
  | S fuel =>
      if negb (s =? list) then DLL_Length_loop fuel L list (lnext L s) (result + 1)
      else Ok result
  end.
Definition DLL_Length (fuel : nat) (L : links) (list : Z) : Prelude.result Z :=
  DLL_Length_loop fuel L list (lnext L list) 0.

(** ** The set of large spans *)

Record SpanPtrWithLength := mkSPL { spl_span : Z; spl_length : Z }.

(** [SpanBestFitLess]: by length, then by start; [start_of] dereferences the
    span pointers. *)
Definition SpanBestFitLess (start_of : Z -> Z) (a b : SpanPtrWithLength) : bool :=
  if spl_length a <? spl_length b then true
  else if spl_length a >? spl_length b then false
  else start_of (spl_span a) <? start_of (spl_span b).

Abbreviation SpanSet := (list SpanPtrWithLength).

(** [std::set::insert]: keeps the order, and keeps the old element when an
    equivalent one is present. *)
Fixpoint SpanSet_insert (start_of : Z -> Z) (x : SpanPtrWithLength) (s : SpanSet) : SpanSet :=
  match s with
  | [] => [x]
  | y :: s' =>
      if SpanBestFitLess start_of x y then x :: s
      else if SpanBestFitLess start_of y x then y :: SpanSet_insert start_of x s'
      else s
  end.

(** [std::set::erase] at the iterator kept in the span. *)
Definition SpanSet_erase (span : Z) (s : SpanSet) : SpanSet :=
  base.filter (fun y => spl_span y <> span) s.

(** [upper_bound] of a bound with length [len] and start [st]: the first element
    greater than it. *)
Fixpoint SpanSet_upper_bound (start_of : Z -> Z) (len st : Z) (s : SpanSet)
    : option SpanPtrWithLength :=
  match s with
  | [] => None
  | y :: s' =>
      if (if len <? spl_length y then true
          else if len >? spl_length y then false
          else st <? start_of (spl_span y))
      then Some y else SpanSet_upper_bound start_of len st s'
  end.

(** ** The list a header denotes *)

(** [dseg L a l b]: from [a] the [next] links visit [l] and reach [b], and the
    [prev] links come back. *)
Fixpoint dseg (L : links) (a : Z) (l : list Z) (b : Z) : Prop :=
  match l with
  | [] => lnext L a = b /\ lprev L b = a
  | x :: l => lnext L a = x /\ lprev L x = a /\ dseg L x l b
  end.

(** The circular list of header [h] holds [l], front first. *)
Definition dll (L : links) (h : Z) (l : list Z) : Prop := dseg L h l h /\ NoDup (h :: l).

Lemma lnext_set_next L p v q : lnext (set_next L p v) q = if decide (p = q) then v else lnext L q.
Proof. unfold lnext, set_next. rewrite lookup_insert. by case_decide. Qed.
Lemma lprev_set_next L p v q : lprev (set_next L p v) q = lprev L q.
Proof. unfold lprev, set_next. rewrite lookup_insert. case_decide; [by subst|done]. Qed.
Lemma lprev_set_prev L p v q : lprev (set_prev L p v) q = if decide (p = q) then v else lprev L q.
Proof. unfold lprev, set_prev. rewrite lookup_insert. by case_decide. Qed.
Lemma lnext_set_prev L p v q : lnext (set_prev L p v) q = lnext L q.
Proof. unfold lnext, set_prev. rewrite lookup_insert. case_decide; [by subst|done]. Qed.

Create Rewrite HintDb links.
#[export] Hint Rewrite lnext_set_next lprev_set_next lprev_set_prev lnext_set_prev : links.

(** Evaluate reads of updated links. *)
Ltac links_simpl := autorewrite with links; repeat case_decide; simplify_eq; try done.

Lemma dseg_app L a l1 x l2 b :
  dseg L a (l1 ++ x :: l2) b <-> dseg L a l1 x /\ dseg L x l2 b.
Proof. revert a. induction l1 as [|y l1 IH]; intros a; simpl; [tauto|]. rewrite IH. tauto. Qed.

Lemma dseg_ends L a l b : dseg L a l b -> lnext L a = hd b l /\ lprev L b = List.last l a.
Proof.
  revert a. induction l as [|x l IH]; intros a; [done|].
  intros (Hn & Hp & Hs). rewrite last_cons_default. simpl. split; [done|]. by apply IH.
Qed.

(** A segment survives any change of the links outside it; its two outer links
    may be redirected to another end [b']. *)
Lemma dseg_change L L' a l b b' :
  NoDup (a :: l) -> dseg L a l b ->
  (forall y, y ∈ a :: l -> y <> List.last l a -> lnext L' y = lnext L y) ->
  (forall y, y ∈ l -> lprev L' y = lprev L y) ->
  lnext L' (List.last l a) = b' -> lprev L' b' = List.last l a ->
  dseg L' a l b'.
Proof.
  revert a. induction l as [|x l IH]; intros a Hnd Hs Hn Hp Hl1 Hl2; [done|].
  rewrite last_cons_default in *. destruct Hs as (Ha & Hx & Hs).
  apply NoDup_cons in Hnd as [Hax Hnd]. simpl. split_and!.
  - rewrite Hn; [done|by left|]. intros ->. apply Hax.
    destruct l as [|y l] using rev_ind; [by left|]. rewrite last_last. set_solver.
  - rewrite Hp; [done|by left].
  - apply IH; try done.
    + intros y Hy. apply Hn. by right.
    + intros y Hy. apply Hp. by right.
Qed.

(** A list depends only on the links of its own nodes. *)
Lemma dll_agree L L' h l :
  dll L h l -> (forall y, y ∈ h :: l -> lnext L' y = lnext L y /\ lprev L' y = lprev L y) ->
  dll L' h l.
Proof.
  intros [Hs Hnd] Ha. split; [|done]. pose proof (dseg_ends _ _ _ _ Hs) as [Hh Hl].
  assert (List.last l h ∈ h :: l) as Hin.
  { destruct l as [|y l _] using rev_ind; [by left|]. rewrite last_last. set_solver. }
  apply (dseg_change L L' h l h h); try done.
  - intros y Hy _. by apply Ha.
  - intros y Hy. apply Ha. by right.
  - rewrite (proj1 (Ha _ Hin)).
    destruct l as [|y l _] using rev_ind; [done|]. rewrite last_last in *.
    apply dseg_app in Hs as [_ [? _]]. done.
  - rewrite (proj2 (Ha h ltac:(by left))). done.
Qed.

(** ** The operations implement lists *)

Lemma DLL_Init_dll L h : dll (DLL_Init L h) h [].
Proof.
  unfold DLL_Init. split; [|by apply NoDup_singleton]. simpl. split; links_simpl.
Qed.

Lemma DLL_IsEmpty_spec L h l : dll L h l -> DLL_IsEmpty L h = bool_decide (l = []).
Proof.
  intros [Hs Hnd]. apply dseg_ends in Hs as [Hn _]. unfold DLL_IsEmpty. rewrite Hn.
  destruct l as [|x l]; simpl.
  - by rewrite Z.eqb_refl.
  - destruct (Z.eqb_spec x h) as [->|]; [|done]. apply NoDup_cons in Hnd as [Hin _]. set_solver.
Qed.

(** The links after [DLL_Remove], node by node. *)
Lemma DLL_Remove_links L x y :
  lprev L x <> x -> lnext L x <> x ->
  lnext (DLL_Remove L x) y =
    (if decide (y = x) then 0 else if decide (y = lprev L x) then lnext L x else lnext L y) /\
  lprev (DLL_Remove L x) y =
    (if decide (y = x) then 0 else if decide (y = lnext L x) then lprev L x else lprev L y).
Proof.
  intros Hp Hn. unfold DLL_Remove. split; links_simpl; congruence.
Qed.

Lemma DLL_Prepend_links L h x y :
  x <> h -> lnext L h <> x ->
  lnext (DLL_Prepend L h x) y =
    (if decide (y = h) then x else if decide (y = x) then lnext L h else lnext L y) /\
  lprev (DLL_Prepend L h x) y =
    (if decide (y = lnext L h) then x else if decide (y = x) then h else lprev L y).
Proof.
  intros Hx Hn. unfold DLL_Prepend. split; links_simpl; congruence.
Qed.

(** The two neighbours of a node of a list. *)
Lemma dll_neighbours L h l1 x l2 :
  dll L h (l1 ++ x :: l2) ->
  lprev L x = List.last l1 h /\ lnext L x = hd h l2 /\
  List.last l1 h <> x /\ hd h l2 <> x.
Proof.
  intros [Hs Hnd]. apply dseg_app in Hs as [H1 H2].
  apply dseg_ends in H1 as [_ ->]. apply dseg_ends in H2 as [-> _].
  apply NoDup_cons in Hnd as [Hh Hnd]. apply NoDup_app in Hnd as (_ & Hd & Hx2).
  apply NoDup_cons in Hx2 as [Hx2 _].
  assert (h <> x) by (intros ->; apply Hh; set_solver).
  split_and!; try done.
  - destruct l1 as [|y l1 _] using rev_ind; [done|]. rewrite last_last.
    intros ->. apply (Hd x); set_solver.
  - destruct l2; simpl; [done|]. intros ->. apply Hx2. by left.
Qed.

Lemma last_elem_of (l : list Z) h : List.last l h ∈ h :: l.
Proof. destruct l as [|y l _] using rev_ind; [by left|]. rewrite last_last. set_solver. Qed.

Lemma hd_elem_of (l : list Z) h : hd h l ∈ h :: l.
Proof. destruct l; simpl; set_solver. Qed.

Lemma DLL_Remove_frame L h l1 x l2 y :
  dll L h (l1 ++ x :: l2) -> y ∉ h :: l1 ++ x :: l2 ->
  lnext (DLL_Remove L x) y = lnext L y /\ lprev (DLL_Remove L x) y = lprev L y.
Proof.
  intros Hd Hy. destruct (dll_neighbours _ _ _ _ _ Hd) as (Hp & Hn & Hp' & Hn').
  destruct (DLL_Remove_links L x y) as [-> ->]; [congruence..|].
  rewrite Hp, Hn. pose proof (last_elem_of l1 h). pose proof (hd_elem_of l2 h).
  split; repeat case_decide; subst; try done; exfalso; apply Hy; set_solver.
Qed.

(** The nodes of a ring around [x] are distinct. *)
Lemma ring_disjoint (h : Z) l1 x l2 :
  NoDup (h :: l1 ++ x :: l2) ->
  NoDup (h :: l1 ++ l2) /\ NoDup (h :: l1) /\ NoDup (x :: l2) /\
  (forall y, y ∈ h :: l1 -> y <> x) /\ (forall y, y ∈ h :: l1 -> y ∉ l2).
Proof.
  intros Hnd. change (h :: l1 ++ x :: l2) with ((h :: l1) ++ x :: l2) in Hnd.
  apply NoDup_app in Hnd as (H1 & Hd & H2). pose proof H2 as H2'.
  apply NoDup_cons in H2' as [Hx Hn2]. split_and!; try done.
  - change (h :: l1 ++ l2) with ((h :: l1) ++ l2). apply NoDup_app. split_and!; try done.
    intros y Hy Hy2. apply (Hd y Hy). by right.
  - intros y Hy ->. apply (Hd x Hy). by left.
  - intros y Hy Hy2. apply (Hd y Hy). by right.
Qed.

(** [DLL_Remove] removes exactly its argument from the circular list it is
    in, clears the argument's own links, and leaves the links of every span
    outside that list alone. *)
Lemma DLL_Remove_spec L h l1 x l2 :
  dll L h (l1 ++ x :: l2) ->
  let L' := DLL_Remove L x in
  dll L' h (l1 ++ l2) /\ lnext L' x = 0 /\ lprev L' x = 0 /\
  (forall y, y ∉ h :: l1 ++ x :: l2 -> lnext L' y = lnext L y /\ lprev L' y = lprev L y).
Proof.
  intros Hd L'. destruct (dll_neighbours _ _ _ _ _ Hd) as (Hp & Hn & Hp' & Hn').
  pose proof (fun y => DLL_Remove_links L x y ltac:(congruence) ltac:(congruence)) as HL.
  rewrite Hp, Hn in HL. fold L' in HL.
  split_and!; [|by destruct (HL x) as [-> _]; rewrite decide_True
               |by destruct (HL x) as [_ ->]; rewrite decide_True
               |by intros y; apply (DLL_Remove_frame L h l1 x l2)].
  destruct Hd as [Hs Hnd]. apply dseg_app in Hs as [H1 H2].
  destruct (ring_disjoint _ _ _ _ Hnd) as (Hnd2 & Hnd1 & Hndn & Hx & Hd12).
  split; [|done].
  assert (Hseg1 : dseg L' h l1 (hd h l2)).
  { apply (dseg_change L L' h l1 x); try done.
    - intros y Hy Hyl. destruct (HL y) as [-> _].
      rewrite decide_False by (intros ->; by apply (Hx x Hy)). by rewrite decide_False.
    - intros y Hy. destruct (HL y) as [_ ->].
      rewrite !decide_False; [done| |intros ->; by apply (Hx x ltac:(by right))].
      intros ->. pose proof (hd_elem_of l2 h) as Hhd.
      apply elem_of_cons in Hhd as [Heq|Hhd]; [|by apply (Hd12 _ ltac:(by right) Hhd)].
      rewrite Heq in Hy. by apply NoDup_cons in Hnd1 as [? _].
    - destruct (HL (List.last l1 h)) as [-> _]. by rewrite decide_False, decide_True.
    - destruct (HL (hd h l2)) as [_ ->]. by rewrite decide_False, decide_True. }
  destruct l2 as [|n l2]; simpl in *; [by rewrite app_nil_r|].
  apply dseg_app. split; [done|]. destruct H2 as (_ & _ & H2).
  pose proof (dseg_ends _ _ _ _ H2) as [_ Hlast]. apply NoDup_cons in Hndn as [Hxn Hndn].
  assert (forall y, y ∈ n :: l2 -> lnext L' y = lnext L y) as Hnx.
  { intros y Hy. destruct (HL y) as [-> _]. rewrite !decide_False; [done| |by intros ->].
    intros ->. by apply (Hd12 _ (last_elem_of l1 h) Hy). }
  apply (dseg_change L L' n l2 h h); try done.
  - intros y Hy _. by apply Hnx.
  - intros y Hy. destruct (HL y) as [_ ->]. apply NoDup_cons in Hndn as [Hn2 _].
    rewrite !decide_False; [done|by intros ->|intros ->; apply Hxn; by right].
  - rewrite Hnx by apply last_elem_of.
    destruct l2 as [|z l2 _] using rev_ind; [by destruct H2|]. rewrite last_last.
    by apply dseg_app in H2 as [_ [? _]].
  - destruct (HL h) as [_ ->]. rewrite !decide_False; [done| |].
    + intros ->. apply (Hd12 n); by left.
    + intros ->. by apply (Hx x ltac:(by left)).
Qed.

(** [DLL_Prepend] puts a span that is in no list at the front of the list of
    a header and changes no link outside that list and the span. *)
Lemma DLL_Prepend_spec L h l x :
  dll L h l -> x ∉ h :: l ->
  let L' := DLL_Prepend L h x in
  dll L' h (x :: l) /\
  (forall y, y ∉ h :: x :: l -> lnext L' y = lnext L y /\ lprev L' y = lprev L y).
Proof.
  intros [Hs Hnd] Hx L'. apply not_elem_of_cons in Hx as [Hxh Hxl].
  pose proof (dseg_ends _ _ _ _ Hs) as [Hn Hp].
  assert (hd h l <> x).
  { intros Heq. pose proof (hd_elem_of l h) as Hl. rewrite Heq in Hl.
    apply elem_of_cons in Hl as [?|?]; done. }
  pose proof (fun y => DLL_Prepend_links L h x y Hxh ltac:(congruence)) as HL.
  rewrite Hn in HL. fold L' in HL. split.
  - assert (NoDup (h :: x :: l)) as Hnd'.
    { apply NoDup_cons in Hnd as [Hh Hnd]. apply NoDup_cons.
      split; [|by apply NoDup_cons]. rewrite not_elem_of_cons. done. }
    split; [|done]. simpl. split_and!.
    + destruct (HL h) as [-> _]. by rewrite decide_True.
    + destruct (HL x) as [_ ->]. by rewrite decide_False, decide_True.
    + destruct l as [|y l]; simpl in *.
      * destruct (HL x) as [-> _]. destruct (HL h) as [_ ->].
        by rewrite decide_False, !decide_True.
      * destruct Hs as (_ & Hy & Hs). pose proof (dseg_ends _ _ _ _ Hs) as [_ Hlast].
        apply NoDup_cons in Hnd as [Hh Hnd].
        assert (forall z, z ∈ y :: l -> lnext L' z = lnext L z) as Hnx.
        { intros z Hz. destruct (HL z) as [-> _]. rewrite !decide_False; [done|by intros ->..]. }
        split_and!.
        -- destruct (HL x) as [-> _]. by rewrite decide_False, decide_True.
        -- destruct (HL y) as [_ ->]. by rewrite decide_True.
        -- apply (dseg_change L L' y l h h); try done.
           ++ intros z Hz _. by apply Hnx.
           ++ intros z Hz. destruct (HL z) as [_ ->]. apply NoDup_cons in Hnd as [Hyl _].
              rewrite !decide_False; [done|intros ->; apply Hxl; by right|by intros ->].
           ++ rewrite Hnx by apply last_elem_of.
              destruct l as [|z l _] using rev_ind; [by destruct Hs|]. rewrite last_last.
              by apply dseg_app in Hs as [_ [? _]].
           ++ destruct (HL h) as [_ ->].
              rewrite !decide_False; [done|done|intros ->; apply Hh; by left].
  - intros y Hy. apply not_elem_of_cons in Hy as [Hyh Hy].
    apply not_elem_of_cons in Hy as [Hyx Hyl]. destruct (HL y) as [-> ->].
    rewrite !decide_False; try done. intros ->. pose proof (hd_elem_of l h) as Hl.
    apply elem_of_cons in Hl as [?|?]; done.
Qed.

Lemma DLL_Length_loop_dll L h l : forall a r fuel,
  dseg L a l h -> h ∉ l -> (List.length l < fuel)%nat ->
  DLL_Length_loop fuel L h (lnext L a) r = Ok (r + Z.of_nat (List.length l)).
Proof.
  induction l as [|x l IH]; intros a r [|fuel] Hs Hh Hf; simpl in *; try lia.
  - destruct Hs as [-> _]. rewrite Z.eqb_refl. simpl. f_equal. lia.
  - destruct Hs as (-> & _ & Hs). apply not_elem_of_cons in Hh as [Hhx Hh].
    destruct (Z.eqb_spec x h); [congruence|]. simpl.
    rewrite (IH x _ fuel Hs Hh) by lia. f_equal. lia.
Qed.

(** [DLL_Length] terminates on a well-formed list with its length. *)
Lemma DLL_Length_dll L h l fuel :
  dll L h l -> (List.length l < fuel)%nat -> DLL_Length fuel L h = Ok (Z.of_nat (List.length l)).
Proof.
  intros [Hs Hnd] Hf. apply NoDup_cons in Hnd as [Hh _].
  unfold DLL_Length. rewrite (DLL_Length_loop_dll L h l h 0 fuel); done.
Qed.

(** ** The sorted set *)

Lemma SpanSet_erase_elem p s y : y ∈ SpanSet_erase p s <-> y ∈ s /\ spl_span y <> p.
Proof. unfold SpanSet_erase. rewrite list_elem_of_filter. tauto. Qed.

Section SpanSets.
Context (start_of : Z -> Z).
Abbreviation less := (SpanBestFitLess start_of).

(** Strictly increasing in the comparator: the representation invariant of the
    [std::set]. *)
Fixpoint set_sorted (s : SpanSet) : Prop :=
  match s with
  | [] => True
  | x :: s => (forall y, y ∈ s -> less x y = true) /\ set_sorted s
  end.

Lemma less_spec a b : less a b = true <->
  spl_length a < spl_length b \/
  (spl_length a = spl_length b /\ start_of (spl_span a) < start_of (spl_span b)).
Proof.
  unfold SpanBestFitLess. rewrite Z.gtb_ltb.
  destruct (Z.ltb_spec (spl_length a) (spl_length b));
    destruct (Z.ltb_spec (spl_length b) (spl_length a)); split; intros; lia || done.
Qed.

Lemma less_trans a b c : less a b = true -> less b c = true -> less a c = true.
Proof. rewrite !less_spec. lia. Qed.

(** Two elements of the set that compare equal are the same position. *)
Lemma SpanSet_insert_elem x s y :
  (forall z, z ∈ s -> start_of (spl_span z) <> start_of (spl_span x)) ->
  y ∈ SpanSet_insert start_of x s <-> y = x \/ y ∈ s.
Proof.
  induction s as [|z s IH]; intros Hne; simpl; [set_solver|].
  destruct (less x z) eqn:E1; [set_solver|].
  destruct (less z x) eqn:E2.
  - rewrite !elem_of_cons, IH; [tauto|]. intros w Hw. apply Hne. by right.
  - exfalso. apply not_true_iff_false in E1, E2. rewrite less_spec in E1, E2.
    specialize (Hne z ltac:(by left)). lia.
Qed.

Lemma SpanSet_insert_sorted x s :
  set_sorted s -> (forall z, z ∈ s -> start_of (spl_span z) <> start_of (spl_span x)) ->
  set_sorted (SpanSet_insert start_of x s).
Proof.
  induction s as [|z s IH]; intros Hs Hne; simpl.
  { split; [|done]. intros y Hy. by apply not_elem_of_nil in Hy. }
  destruct Hs as [Hz Hs]. destruct (less x z) eqn:E1.
  - split; [|done]. intros y [->|Hy]%elem_of_cons; [done|]. eauto using less_trans.
  - destruct (less z x) eqn:E2; [|done].
    assert (forall w, w ∈ s -> start_of (spl_span w) <> start_of (spl_span x)) as Hne'.
    { intros w Hw. apply Hne. by right. }
    split; [|auto]. intros y Hy. apply SpanSet_insert_elem in Hy as [->|?]; auto.
Qed.

Lemma SpanSet_erase_sorted p s : set_sorted s -> set_sorted (SpanSet_erase p s).
Proof.
  induction s as [|x s IH]; [done|]. intros [Hx Hs]. unfold SpanSet_erase in *.
  rewrite filter_cons. case_decide; [|auto]. split; [|auto].
  intros y Hy. apply list_elem_of_filter in Hy as [_ Hy]. auto.
Qed.

Lemma upper_bound_least n s :
  set_sorted s -> (forall y, y ∈ s -> 0 < start_of (spl_span y)) ->
  match SpanSet_upper_bound start_of n 0 s with
  | Some x => x ∈ s /\ n <= spl_length x /\
      forall y, y ∈ s -> n <= spl_length y -> y = x \/ less x y = true
  | None => forall y, y ∈ s -> spl_length y < n
  end.
Proof.
  induction s as [|x s IH]; intros Hs Hpos; simpl.
  { intros y Hy. by apply not_elem_of_nil in Hy. }
  destruct Hs as [Hx Hs]. specialize (Hpos x ltac:(by left)) as Hpx.
  assert (Hpos' : forall y, y ∈ s -> 0 < start_of (spl_span y)) by (intros; apply Hpos; by right).
  rewrite Z.gtb_ltb. destruct (Z.ltb_spec n (spl_length x)).
  { split_and!; [by left|lia|]. intros y [->|Hy]%elem_of_cons; auto. }
  destruct (Z.ltb_spec (spl_length x) n).
  - specialize (IH Hs Hpos'). destruct (SpanSet_upper_bound start_of n 0 s) as [z|].
    + destruct IH as (Hz & Hn & Hbest). split_and!; [by right|done|].
      intros y [->|Hy]%elem_of_cons Hyn; [lia|auto].
    + intros y [->|Hy]%elem_of_cons; auto.
  - destruct (Z.ltb_spec 0 (start_of (spl_span x))); [|lia].
    split_and!; [by left|lia|]. intros y [->|Hy]%elem_of_cons; auto.
Qed.

End SpanSets.

Lemma set_sorted_ext f g s :
  (forall y, y ∈ s -> f (spl_span y) = g (spl_span y)) -> set_sorted f s -> set_sorted g s.
Proof.
  induction s as [|x s IH]; intros Hfg; [done|]. intros [Hx Hs]. split.
  - intros y Hy. specialize (Hx y Hy). rewrite !less_spec in *.
    rewrite <- !Hfg; [done|by right|by left].
  - apply IH; [|done]. intros y Hy. apply Hfg. by right.
Qed.

(** ** Witness: a set of two spans *)

