(* ===== verification/PackedCache.v ===== *)
(** The page-to-size-class cache: [src/packed-cache-inl.h].

    A direct-mapped cache of 2^kHashbits words, each the upper bits of a key
    together with a 7-bit value and an "invalid" bit. *)
From S2P Require Import Prelude.

Section PackedCache.
Context (kKeybits : Z).

Definition kWantHashBits : Z := 16.
Definition kHashbits : Z := if kKeybits <? kWantHashBits then kKeybits else kWantHashBits.
Definition kValuebits : Z := 7.
Definition kInvalidMask : Z := 0x80.

(** [N_ONES_(IntType, N)]. *)
Definition N_ONES (N : Z) : Z :=
  if N =? 0 then 0 else Z.shiftl 1 (N - 1) - 1 + Z.shiftl 1 (N - 1).

Definition kKeyMask : Z := N_ONES kKeybits.
Definition kValueMask : Z := N_ONES kValuebits.

(** [array_]; an entry that was never written holds the pattern of [Clear]. *)
Abbreviation cache := (gmap Z Z).

(** [memset(array_, kInvalidMask, ...)] sets every byte. *)
Definition clear_entry : Z := 0x8080808080808080.
Definition Clear : cache := ∅.
Definition entry_at (c : cache) (hash : Z) : Z := default clear_entry (c !! hash).

Definition Hash (key : Z) : Z := Z.land key (N_ONES kHashbits).
Definition KeyToUpper (k : Z) : Z := Z.lxor k (Hash k).

Definition TryGet (c : cache) (key : Z) : option Z :=
  let hash := Hash key in
  let expected_entry := key in
  let expected_entry := Z.land expected_entry (u64 (Z.lnot (N_ONES kHashbits))) in
  let entry := entry_at c hash in
  let entry := Z.lxor entry expected_entry in
  if entry >=? Z.shiftl 1 kValuebits then None else Some (u32 entry).

Definition Put (c : cache) (key value : Z) : cache :=
  <[Hash key := Z.lor (KeyToUpper key) value]> c.

Definition Invalidate (c : cache) (key : Z) : cache :=
  <[Hash key := Z.lor (KeyToUpper key) kInvalidMask]> c.

(** The constructor's static assertions, for the key widths in use. *)
Context (Hbits : kKeybits + kValuebits + 1 <= 64) (Hhash : kValuebits + 1 <= kHashbits).

(** ** Bit-level facts *)

Lemma N_ONES_ones N : 0 <= N -> N_ONES N = Z.ones N.
Proof.
  intros. unfold N_ONES. destruct (Z.eqb_spec N 0) as [->|]; [done|].
  rewrite Z.shiftl_1_l, Z.ones_equiv. replace N with (Z.succ (N - 1)) at 3 by lia.
  rewrite Z.pow_succ_r; lia.
Qed.

Lemma kHashbits_range : 8 <= kHashbits <= 16.
Proof. unfold kHashbits, kWantHashBits, kValuebits in *. case_if; propify; lia. Qed.

Definition upper (k : Z) : Z := Z.ldiff k (Z.ones kHashbits).

Lemma Hash_mod k : Hash k = k mod 2 ^ kHashbits.
Proof.
  pose proof kHashbits_range. unfold Hash. rewrite N_ONES_ones, Z.land_ones by lia. done.
Qed.

Lemma KeyToUpper_upper k : KeyToUpper k = upper k.
Proof.
  pose proof kHashbits_range. unfold KeyToUpper, Hash, upper. rewrite N_ONES_ones by lia.
  apply Z.bits_inj'. intros n Hn.
  rewrite Z.lxor_spec, Z.land_spec, Z.ldiff_spec.
  destruct (Z.testbit k n), (Z.testbit (Z.ones kHashbits) n); done.
Qed.

Lemma expected_upper k :
  0 <= k < 2 ^ 64 -> Z.land k (u64 (Z.lnot (N_ONES kHashbits))) = upper k.
Proof.
  intros Hk. pose proof kHashbits_range. rewrite N_ONES_ones by lia. unfold upper, u64.
  change 18446744073709551616 with (2 ^ 64).
  apply Z.bits_inj'. intros n Hn. rewrite Z.land_spec, Z.ldiff_spec.
  destruct (Z.lt_ge_cases n 64).
  - rewrite Z.mod_pow2_bits_low by lia. by rewrite Z.lnot_spec.
  - by rewrite (testbit_high k 64 n) by lia.
Qed.

Lemma upper_shiftr k : Z.shiftr (upper k) kHashbits = Z.shiftr k kHashbits.
Proof.
  pose proof kHashbits_range. apply Z.bits_inj'. intros n Hn.
  unfold upper. rewrite !Z.shiftr_spec, Z.ldiff_spec by lia.
  rewrite Z.ones_spec_high by lia. by rewrite andb_true_r.
Qed.

Lemma small_shiftr v : 0 <= v < 2 ^ 8 -> Z.shiftr v kHashbits = 0.
Proof.
  intros. pose proof kHashbits_range. rewrite Z.shiftr_div_pow2 by lia.
  apply Z.div_small. split; [lia|]. apply Z.lt_le_trans with (2 ^ 8); [lia|].
  apply Z.pow_le_mono_r; lia.
Qed.

(** What a look-up of [k'] sees in an entry written for [k] with payload [v]. *)
Lemma entry_xor k k' v :
  0 <= k -> 0 <= k' -> 0 <= v < 2 ^ 8 -> Hash k = Hash k' ->
  let e := Z.lxor (Z.lor (upper k) v) (upper k') in
  if decide (k = k') then e = v else 2 ^ 8 <= e.
Proof.
  intros Hk Hk' Hv Hh e. pose proof kHashbits_range.
  assert (Hlow : forall n, n < kHashbits -> 0 <= n -> Z.testbit (upper k) n = false).
  { intros n Hn ?. unfold upper. rewrite Z.ldiff_spec, Z.ones_spec_low by lia.
    by rewrite andb_false_r. }
  case_decide as Hd.
  - subst k'. apply Z.bits_inj'. intros n Hn. unfold e. rewrite Z.lxor_spec, Z.lor_spec.
    destruct (Z.lt_ge_cases n kHashbits).
    + rewrite Hlow by lia. by rewrite xorb_false_r.
    + rewrite (testbit_high v 8 n) by lia. by rewrite orb_false_r, xorb_nilpotent.
  - assert (Hs : Z.shiftr e kHashbits <> 0).
    { unfold e. rewrite Z.shiftr_lxor, Z.shiftr_lor, !upper_shiftr, (small_shiftr v Hv).
      rewrite Z.lor_0_r. rewrite Z.lxor_eq_0_iff. intros Heq. apply Hd.
      rewrite !Hash_mod in Hh. rewrite !Z.shiftr_div_pow2 in Heq by lia.
      assert (0 < 2 ^ kHashbits) by (apply Z.pow_pos_nonneg; lia).
      rewrite (Z.div_mod k (2 ^ kHashbits)), (Z.div_mod k' (2 ^ kHashbits)) by lia. congruence. }
    assert (0 <= e).
    { unfold e. apply Z.lxor_nonneg. split; intros _.
      - unfold upper. apply Z.ldiff_nonneg. by left.
      - apply Z.lor_nonneg. split; [|lia]. unfold upper. apply Z.ldiff_nonneg. by left. }
    assert (2 ^ kHashbits <= e).
    { destruct (Z.lt_ge_cases e (2 ^ kHashbits)); [|done]. destruct Hs.
      rewrite Z.shiftr_div_pow2 by lia. by apply Z.div_small. }
    assert (2 ^ 8 <= 2 ^ kHashbits) by (apply Z.pow_le_mono_r; lia). lia.
Qed.

(** ** The cache as a map *)

Lemma TryGet_insert c k k' v :
  0 <= k < 2 ^ 64 -> 0 <= k' < 2 ^ 64 -> 0 <= v < 2 ^ 8 ->
  TryGet (<[Hash k := Z.lor (KeyToUpper k) v]> c) k' =
    if decide (k = k') then (if v <? 128 then Some v else None)
    else if decide (Hash k = Hash k') then None else TryGet c k'.
Proof.
  intros Hk Hk' Hv. unfold TryGet, entry_at. rewrite expected_upper, KeyToUpper_upper by lia.
  change (Z.shiftl 1 kValuebits) with 128. rewrite !Z.geb_leb, lookup_insert.
  destruct (decide (Hash k = Hash k')) as [Hh|Hh].
  - cbn [default from_option]. pose proof (entry_xor k k' v ltac:(lia) ltac:(lia) Hv Hh) as He.
    cbv zeta in He. destruct (decide (k = k')); simpl.
    + rewrite He. destruct (Z.leb_spec 128 v), (Z.ltb_spec v 128); try lia; [done|].
      f_equal. apply u32_small. lia.
    + destruct (Z.leb_spec 128 (Z.lxor (Z.lor (upper k) v) (upper k'))); [done|]. lia.
  - rewrite decide_False by congruence. done.
Qed.

(** [Put] makes its key map to its value, evicts every other key of the same
    cache line, and leaves all other keys as they were: the cache never answers
    with the value of another key. *)
Lemma TryGet_Put c k k' v :
  0 <= k < 2 ^ 64 -> 0 <= k' < 2 ^ 64 -> 0 <= v < 128 ->
  TryGet (Put c k v) k' =
    if decide (k = k') then Some v
    else if decide (Hash k = Hash k') then None else TryGet c k'.
Proof.
  intros. unfold Put. rewrite TryGet_insert by lia.
  by destruct (Z.ltb_spec v 128); [|lia].
Qed.

(** [Invalidate] removes exactly the keys of one cache line. *)
Lemma TryGet_Invalidate c k k' :
  0 <= k < 2 ^ 64 -> 0 <= k' < 2 ^ 64 ->
  TryGet (Invalidate c k) k' = if decide (Hash k = Hash k') then None else TryGet c k'.
Proof.
  intros. unfold Invalidate, kInvalidMask. rewrite TryGet_insert by lia.
  destruct (decide (k = k')) as [->|]; [|done]. by rewrite decide_True.
Qed.

(** After [Clear] (and in a newly constructed cache) every look-up misses,
    whatever the key. *)
Lemma TryGet_Clear k : 0 <= k <= kKeyMask -> TryGet Clear k = None.
Proof.
  intros Hk. pose proof kHashbits_range.
  assert (0 <= kKeybits <= 56) as Hkb.
  { unfold kHashbits, kValuebits, kWantHashBits in *. case_if; propify; lia. }
  assert (Hk56 : 0 <= k < 2 ^ 56).
  { unfold kKeyMask in Hk. rewrite N_ONES_ones, Z.ones_equiv in Hk by lia.
    assert (2 ^ kKeybits <= 2 ^ 56) by (apply Z.pow_le_mono_r; lia). lia. }
  unfold TryGet, entry_at, Clear. rewrite lookup_empty, expected_upper by lia. cbn [default].
  change (Z.shiftl 1 kValuebits) with 128. rewrite Z.geb_leb.
  destruct (Z.leb_spec 128 (Z.lxor clear_entry (upper k))) as [|Hlt]; [done|]. exfalso.
  assert (Z.testbit (Z.lxor clear_entry (upper k)) 63 = true) as Hb.
  { rewrite Z.lxor_spec. replace (Z.testbit (upper k) 63) with false; [done|].
    unfold upper. by rewrite Z.ldiff_spec, (testbit_high k 56) by lia. }
  assert (0 <= Z.lxor clear_entry (upper k)).
  { apply Z.lxor_nonneg. split; intros _; [|done]. unfold upper. apply Z.ldiff_nonneg. left. lia. }
  by rewrite (testbit_high _ 7) in Hb by lia.
Qed.

(** ** Histories of the cache, against a plain map *)

Inductive cache_op :=
  | CPut (key value : Z)
  | CInvalidate (key : Z).

Definition cache_apply (c : cache) (o : cache_op) : cache :=
  match o with
  | CPut k v => Put c k v
  | CInvalidate k => Invalidate c k
  end.
Definition map_apply (m : gmap Z Z) (o : cache_op) : gmap Z Z :=
  match o with
  | CPut k v => <[k := v]> m
  | CInvalidate k => delete k m
  end.
Definition cache_run (ops : list cache_op) : cache := foldl cache_apply Clear ops.
Definition map_run (ops : list cache_op) : gmap Z Z := foldl map_apply ∅ ops.

(** Keys of the declared width, values below the invalid bit. *)
Definition op_ok (o : cache_op) : Prop :=
  match o with
  | CPut k v => 0 <= k <= kKeyMask /\ 0 <= v < 128
  | CInvalidate k => 0 <= k <= kKeyMask
  end.

Lemma key_word k : 0 <= k <= kKeyMask -> 0 <= k < 2 ^ 64.
Proof.
  intros Hk. pose proof kHashbits_range.
  assert (0 <= kKeybits <= 56) as Hkb.
  { unfold kHashbits, kValuebits, kWantHashBits in *. case_if; propify; lia. }
  unfold kKeyMask in Hk. rewrite N_ONES_ones, Z.ones_equiv in Hk by lia.
  assert (2 ^ kKeybits <= 2 ^ 56) by (apply Z.pow_le_mono_r; lia). lia.
Qed.

(** One step keeps every answer of the cache an entry of the map. *)
Lemma cache_step c m o k v :
  op_ok o -> 0 <= k <= kKeyMask ->
  (TryGet c k = Some v -> m !! k = Some v) ->
  TryGet (cache_apply c o) k = Some v -> map_apply m o !! k = Some v.
Proof.
  intros Ho Hk%key_word IH. destruct o as [k' v'|k']; cbn [cache_apply map_apply op_ok] in *.
  - destruct Ho as [Hk'%key_word Hv]. rewrite TryGet_Put, lookup_insert by done.
    case_decide as Hd; [done|]. case_decide; [done|exact IH].
  - apply key_word in Ho. rewrite TryGet_Invalidate by done.
    case_decide as Hd; [done|]. intros H%IH. rewrite lookup_delete_ne; [done|].
    by intros ->.
Qed.

(** C32: the packed cache never lies: after any sequence of [Put]s and
    [Invalidate]s on a new cache, a look-up that hits returns the value most
    recently put for that very key and not invalidated since (it may miss,
    because keys share lines), and a look-up right after the key's [Put] does
    hit.  In particular a new cache misses on every key. *)
Theorem cache_coherent ops k v :
  Forall op_ok ops -> 0 <= k <= kKeyMask ->
  (TryGet (cache_run ops) k = Some v -> map_run ops !! k = Some v) /\
  (0 <= v < 128 -> TryGet (cache_run (ops ++ [CPut k v])) k = Some v).
Proof.
  intros Hops Hk. split.
  - induction ops as [|o ops IH] using rev_ind; [by rewrite TryGet_Clear|].
    apply Forall_app in Hops as [Hops [Ho _]%Forall_cons].
    unfold cache_run, map_run. rewrite !foldl_app. apply cache_step; [done|done|].
    by apply IH.
  - intros Hv. unfold cache_run. rewrite foldl_app. cbn [foldl cache_apply].
    apply key_word in Hk. rewrite TryGet_Put by done. by rewrite decide_True.
Qed.
End PackedCache.

(** ** Witness, at the width in use: 48 address bits less 13 page bits *)

Lemma cache_coherent_witness :
  map_run [CPut 7 5; CPut 0x20007 6; CInvalidate 0x20007; CPut 9 1] !! 9 = Some 1 /\
  TryGet 35 (cache_run 35 [CPut 7 5; CPut 0x20007 6]) 0x20007 = Some 6.
Proof.
  split.
  - refine (proj1 (cache_coherent 35 ltac:(unfold kValuebits; lia) ltac:(vm_compute; done)
      [CPut 7 5; CPut 0x20007 6; CInvalidate 0x20007; CPut 9 1] 9 1 _ _) _).
    + repeat apply Forall_cons_2; try apply Forall_nil; vm_compute; repeat split; discriminate.
    + vm_compute. split; discriminate.
    + vm_compute. reflexivity.
  - refine (proj2 (cache_coherent 35 ltac:(unfold kValuebits; lia) ltac:(vm_compute; done)
      [CPut 7 5] 0x20007 6 _ _) _).
    + repeat apply Forall_cons_2; try apply Forall_nil; vm_compute; repeat split; discriminate.
    + vm_compute. split; discriminate.
    + lia.
Defined.
