(* ===== verification/PageMap.v ===== *)
(** Maps from page numbers to span descriptors: [src/pagemap.h].

    The three radix maps [TCMalloc_PageMap1/2/3], each with [get], [set],
    [Ensure], [PreallocateMoreMemory] and [Next], and the interface ([PageMap]
    with its laws) that [PageHeap] is verified against.  Which map is used is
    chosen by [MapSelector] in [page_heap.h]: the two-level map for 48-bit
    addresses, the three-level map for 64-bit ones.

    Nodes come from an allocator callback ([MetaDataAlloc]); the model threads
    the allocator's state [W] and only asks whether the allocation succeeded.  A
    [set] through a null node is a crash. *)
From S2P Require Import Prelude SizeMap.

(** ** The interface *)

Section Interface.
Context {W : Type} (allocator : Z -> W -> result (Z * W)).

(** The operations [PageHeap] uses. *)
Class PageMap := {
  pm_t : Type;
  pm_bits : Z;
  pm_init : pm_t;
  pm_get : pm_t -> Z -> Z;
  pm_set : pm_t -> Z -> Z -> result pm_t;
  pm_Ensure : pm_t -> W -> Z -> Z -> result (bool * pm_t * W);
  pm_PreallocateMoreMemory : pm_t -> W -> result (pm_t * W);
  pm_Next : pm_t -> Z -> result Z
}.

(** [next_spec f k limit v]: [v] is the first non-null value of [f] in
    [k .. limit - 1], or null when there is none. *)
Definition next_spec (f : Z -> Z) (k limit v : Z) : Prop :=
  (v = 0 /\ forall j, k <= j < limit -> f j = 0) \/
  (exists j, k <= j < limit /\ f j = v /\ v <> 0 /\ forall i, k <= i < j -> f i = 0).

(** [Q] is kept by the allocator, which does not crash where [Q] holds. *)
Definition alloc_keeps (Q : W -> Prop) : Prop :=
  forall sz w, 0 < sz < 2 ^ 63 -> Q w -> exists p w', allocator sz w = Ok (p, w') /\ Q w'.

(** What the operations promise.  [ensured m k]: [k] may be [set]. *)
Class PageMapLaws (P : PageMap) (ensured : pm_t -> Z -> Prop) : Prop := {
  pm_get_init k : pm_get pm_init k = 0;
  pm_get_range m k : 2 ^ pm_bits <= k -> pm_get m k = 0;
  pm_set_ok m k v : ensured m k ->
    exists m', pm_set m k v = Ok m' /\
      (forall k', 0 <= k' -> pm_get m' k' = if decide (k = k') then v else pm_get m k') /\
      (forall k', ensured m' k' <-> ensured m k');
  pm_Ensure_ok Q m w s n : alloc_keeps Q -> Q w ->
    0 <= s < 2 ^ pm_bits -> 0 < n < 2 ^ 63 ->
    exists b m' w', pm_Ensure m w s n = Ok (b, m', w') /\
      (b = true -> s + n <= 2 ^ pm_bits /\ forall k, s <= k < s + n -> ensured m' k) /\
      (forall k, 0 <= k -> pm_get m' k = pm_get m k) /\
      (forall k, ensured m k -> ensured m' k) /\
      Q w';
  pm_Preallocate_ok Q m w : alloc_keeps Q -> Q w ->
    exists m' w', pm_PreallocateMoreMemory m w = Ok (m', w') /\
      (forall k, 0 <= k -> pm_get m' k = pm_get m k) /\
      (forall k, ensured m k -> ensured m' k) /\
      Q w';
  pm_Next_ok m k : 0 <= k ->
    exists v, pm_Next m k = Ok v /\ next_spec (pm_get m) k (2 ^ pm_bits) v
}.
End Interface.

Arguments PageMap W : clear implicits.

(** Searching on from a prefix that holds only nulls. *)
Lemma next_spec_skip f k k' limit v :
  k <= k' -> (forall j, k <= j < k' -> f j = 0) -> next_spec f k' limit v ->
  next_spec f k limit v.
Proof.
  intros Hk Hz [[-> H]|(j & Hj & Hv & Hn & H)].
  - left. split; [done|]. intros j Hj.
    destruct (Z.lt_ge_cases j k'); [apply Hz|apply H]; lia.
  - right. exists j. split_and!; try done; try lia. intros i Hi.
    destruct (Z.lt_ge_cases i k'); [apply Hz|apply H]; lia.
Qed.

Lemma next_spec_ext f g k limit v :
  (forall j, k <= j -> f j = g j) -> next_spec f k limit v <-> next_spec g k limit v.
Proof.
  intros Hfg. unfold next_spec. split; (intros [[? H]|(j & ? & ? & ? & H)]; [left|right]).
  - split; [done|]. intros j Hj. rewrite <- Hfg by lia. by apply H.
  - exists j. split_and!; try done; try lia; [by rewrite <- Hfg by lia|].
    intros i Hi. rewrite <- Hfg by lia. by apply H.
  - split; [done|]. intros j Hj. rewrite Hfg by lia. by apply H.
  - exists j. split_and!; try done; try lia; [by rewrite Hfg by lia|].
    intros i Hi. rewrite Hfg by lia. by apply H.
Qed.

(** An array of words, zero where it was not written ([memset(..., 0, ...)]). *)
Abbreviation leaf := (gmap Z Z).

(** The scan of a leaf from index [i]: [n] indices are left. *)
Fixpoint scan_leaf (n : nat) (l : leaf) (i : Z) : Z :=
  match n with
  | O => 0
  | S n => let v := arr_get l i in if negb (v =? 0) then v else scan_leaf n l (i + 1)
  end.

Lemma scan_leaf_spec n l i : next_spec (arr_get l) i (i + Z.of_nat n) (scan_leaf n l i).
Proof.
  revert i. induction n as [|n IH]; intros i; simpl.
  - left. split; [done|]. lia.
  - destruct (Z.eqb_spec (arr_get l i) 0) as [E|E]; simpl.
    + apply next_spec_skip with (i + 1); [lia| |].
      * intros j Hj. by replace j with i by lia.
      * by replace (i + Z.of_nat (S n)) with (i + 1 + Z.of_nat n) by lia.
    + right. exists i. split_and!; try done; lia.
Qed.

(** A radix map seen as an array of leaves of [LL] words each: [leaf_at i] is the
    [i]-th leaf when it is there. *)
Definition radix_get (LL NL : Z) (leaf_at : Z -> option leaf) (k : Z) : Z :=
  if NL * LL <=? k then 0
  else match leaf_at (k / LL) with None => 0 | Some l => arr_get l (k mod LL) end.

Lemma div_range LL NL k : 0 < LL -> 0 <= k < NL * LL ->
  0 <= k / LL < NL /\ k / LL * LL <= k < (k / LL + 1) * LL.
Proof.
  intros HLL Hk. pose proof (Z.div_mod k LL ltac:(lia)).
  pose proof (Z.mod_pos_bound k LL ltac:(lia)).
  split; [split; [apply Z.div_pos; lia|apply Z.div_lt_upper_bound; lia]|lia].
Qed.

(** The scan of one leaf, as a search of the map up to the end of the leaf. *)
Lemma scan_radix LL NL leaf_at k : 0 < LL -> 0 <= k < NL * LL ->
  next_spec (radix_get LL NL leaf_at) k ((k / LL + 1) * LL)
    (match leaf_at (k / LL) with
     | Some l => scan_leaf (Z.to_nat (LL - k mod LL)) l (k mod LL)
     | None => 0
     end).
Proof.
  intros HLL Hk. destruct (div_range LL NL k HLL Hk) as [Hi Hik].
  pose proof (Z.div_mod k LL ltac:(lia)) as Hdm.
  pose proof (Z.mod_pos_bound k LL ltac:(lia)) as Hm.
  set (i1 := k / LL) in *. set (i2 := k mod LL) in *.
  assert (Hget : forall j, 0 <= j < LL -> radix_get LL NL leaf_at (i1 * LL + j) =
    match leaf_at i1 with None => 0 | Some l => arr_get l j end).
  { intros j Hj. unfold radix_get.
    destruct (Z.leb_spec (NL * LL) (i1 * LL + j)); [nia|].
    rewrite Z.div_add_l, Z.div_small, Z.add_0_r by lia.
    rewrite Z.add_comm, Z_mod_plus_full, Z.mod_small by lia. done. }
  destruct (leaf_at i1) as [l|].
  - pose proof (scan_leaf_spec (Z.to_nat (LL - i2)) l i2) as Hs.
    rewrite Z2Nat.id in Hs by lia.
    destruct Hs as [[-> Hz]|(j & Hj & Hv & Hn & Hz)].
    + left. split; [done|]. intros j Hj.
      replace j with (i1 * LL + (j - i1 * LL)) by lia. rewrite Hget by lia. apply Hz. lia.
    + right. exists (i1 * LL + j). split_and!; try done; try lia.
      * by rewrite Hget by lia.
      * intros i Hi'. replace i with (i1 * LL + (i - i1 * LL)) by lia.
        rewrite Hget by lia. apply Hz. lia.
  - left. split; [done|]. intros j Hj.
    replace j with (i1 * LL + (j - i1 * LL)) by lia. by rewrite Hget by lia.
Qed.

(** Writing one word of one leaf. *)
Lemma radix_get_set LL NL leaf_at leaf_at' k l v k' :
  0 < LL -> 0 <= k < NL * LL -> leaf_at (k / LL) = Some l ->
  (forall i, leaf_at' i = if decide (k / LL = i) then Some (<[k mod LL := v]> l) else leaf_at i) ->
  radix_get LL NL leaf_at' k' = if decide (k = k') then v else radix_get LL NL leaf_at k'.
Proof.
  intros HLL Hk Hl Hl'. unfold radix_get.
  destruct (Z.leb_spec (NL * LL) k'); [by rewrite decide_False by lia|].
  rewrite Hl'. destruct (decide (k / LL = k' / LL)) as [Heq|Hne].
  - rewrite <- Heq, Hl. unfold arr_get. rewrite lookup_insert.
    destruct (decide (k = k')) as [->|Hkk]; [by rewrite decide_True|].
    rewrite decide_False; [done|]. intros Hm. apply Hkk.
    rewrite (Z.div_mod k LL), (Z.div_mod k' LL) by lia. congruence.
  - rewrite decide_False; [done|congruence].
Qed.

(** Adding an empty leaf where there was none. *)
Lemma radix_get_empty LL NL leaf_at leaf_at' j k :
  leaf_at j = None ->
  (forall i, leaf_at' i = if decide (j = i) then Some ∅ else leaf_at i) ->
  radix_get LL NL leaf_at' k = radix_get LL NL leaf_at k.
Proof.
  intros Hj Hl'. unfold radix_get. case_if; [done|]. rewrite Hl'.
  case_decide as Hd; [|done]. by rewrite <- Hd, Hj.
Qed.

(** Splitting a key into a node index and an index in the node. *)
Lemma key_split k b : 0 <= b -> Z.shiftr k b = k / 2 ^ b /\ Z.land k (Z.shiftl 1 b - 1) = k mod 2 ^ b.
Proof.
  intros Hb. rewrite Z.shiftr_div_pow2, Z.shiftl_1_l by done. split; [done|].
  rewrite <- Z.land_ones by done. by rewrite Z.ones_equiv.
Qed.

(** ** Single-level array *)

(** The size of an array of [2 ^ k] pointers. *)
Lemma shifted_bound k : 0 <= k < 60 -> 0 < 8 * 2 ^ k < 2 ^ 63.
Proof.
  intros Hk. assert (2 ^ k < 2 ^ 60) by (apply Z.pow_lt_mono_r; lia).
  assert (0 < 2 ^ k) by (apply Z.pow_pos_nonneg; lia). lia.
Qed.

Module PageMap1.
Section PageMap1.
Context (BITS : Z).

Definition LENGTH : Z := Z.shiftl 1 BITS.

(** [return n <= LENGTH - x]: the subtraction is in [uintptr_t]. *)
Definition Ensure (x n : Z) : bool := n <=? u64 (LENGTH - x).

Definition get (array : leaf) (k : Z) : Z :=
  if Z.shiftr k BITS >? 0 then 0 else arr_get array k.

Definition set (array : leaf) (k v : Z) : leaf := <[k := v]> array.

Fixpoint Next_loop (fuel : nat) (array : leaf) (k : Z) : result Z :=
  match fuel with
  | O => NoFuel
  | S fuel =>
      if k <? Z.shiftl 1 BITS then
        if negb (arr_get array k =? 0) then Ok (arr_get array k)
        else Next_loop fuel array (k + 1)
      else Ok 0
  end.
Definition Next (array : leaf) (k : Z) : result Z :=
  Next_loop (Z.to_nat (Z.shiftl 1 BITS - k) + 1) array k.

Context (Hbits : 0 <= BITS < 32).

(** [PageMap1::Ensure] accepts exactly the ranges inside the array, but only
    for starting points that are themselves inside: beyond the end the unsigned
    subtraction wraps and every range is accepted. *)
Theorem Ensure_spec x n :
  0 <= x < 2 ^ 64 -> 0 <= n < 2 ^ 63 ->
  (x <= LENGTH -> (Ensure x n = true <-> x + n <= LENGTH)) /\
  (LENGTH < x < 2 ^ 63 -> Ensure x n = true).
Proof.
  intros Hx Hn. unfold Ensure, LENGTH. rewrite Z.shiftl_1_l.
  assert (0 < 2 ^ BITS <= 2 ^ 32) by (split; [apply Z.pow_pos_nonneg|apply Z.pow_le_mono_r]; lia).
  split.
  - intros. rewrite u64_small by lia. rewrite Z.leb_le. lia.
  - intros. apply Z.leb_le. unfold u64.
    rewrite <- (Z_mod_plus_full _ 1). rewrite Z.mod_small by lia. lia.
Qed.
End PageMap1.

Lemma Ensure_spec_witness :
  (Ensure 20 (2 ^ 20) 1 = true <-> 2 ^ 20 + 1 <= LENGTH 20) /\ Ensure 20 (2 ^ 21) 1 = true.
Proof.
  destruct (Ensure_spec 20 ltac:(lia) (2 ^ 20) 1) as [H1 _]; [lia|lia|].
  destruct (Ensure_spec 20 ltac:(lia) (2 ^ 21) 1) as [_ H2]; [lia|lia|].
  split; [apply H1; vm_compute; discriminate|apply H2; split; reflexivity].
Defined.
End PageMap1.

(** ** Two-level radix tree *)

Module PageMap2.
Section PageMap2.
Context {W : Type} (allocator : Z -> W -> result (Z * W)) (BITS : Z).

Definition LEAF_BITS : Z := (BITS + 1) / 2.
Definition LEAF_LENGTH : Z := Z.shiftl 1 LEAF_BITS.
Definition ROOT_BITS : Z := BITS - LEAF_BITS.
Definition ROOT_LENGTH : Z := Z.shiftl 1 ROOT_BITS.

(** [root_]: a missing entry is a null pointer. *)
Abbreviation root := (gmap Z leaf).

Definition sizeof_Leaf : Z := 8 * LEAF_LENGTH.

Definition get (r : root) (k : Z) : Z :=
  let i1 := Z.shiftr k LEAF_BITS in
  let i2 := Z.land k (LEAF_LENGTH - 1) in
  if Z.shiftr k BITS >? 0 then 0
  else match r !! i1 with
       | None => 0
       | Some l => arr_get l i2
       end.

Definition set (r : root) (k v : Z) : result root :=
  let i1 := Z.shiftr k LEAF_BITS in
  let i2 := Z.land k (LEAF_LENGTH - 1) in
  match r !! i1 with
  | None => Crash
  | Some l => Ok (<[i1 := <[i2 := v]> l]> r)
  end.

(** The loop of [Ensure]; [last] is [start + n - 1]. *)
Fixpoint Ensure_loop (fuel : nat) (r : root) (w : W) (key last : Z)
    : result (bool * root * W) :=
  match fuel with
  | O => NoFuel
  | S fuel =>
      if key <=? last then
        let i1 := Z.shiftr key LEAF_BITS in
        if i1 >=? ROOT_LENGTH then Ok (false, r, w)
        else
          let next_key := u64 (Z.shiftl (Z.shiftr key LEAF_BITS + 1) LEAF_BITS) in
          match r !! i1 with
          | Some _ => Ensure_loop fuel r w next_key last
          | None =>
              '(leaf, w) ← allocator sizeof_Leaf w;
              if leaf =? 0 then Ok (false, r, w)
              else Ensure_loop fuel (<[i1 := ∅]> r) w next_key last
          end
      else Ok (true, r, w)
  end.

(** One round per leaf from [start] to the end of the range or of the map. *)
Definition Ensure_fuel (start last : Z) : nat :=
  Z.to_nat (Z.min ROOT_LENGTH (Z.shiftr last LEAF_BITS) - Z.shiftr start LEAF_BITS + 2).

Definition Ensure (r : root) (w : W) (start n : Z) : result (bool * root * W) :=
  let last := u64 (start + n - 1) in
  Ensure_loop (Ensure_fuel start last) r w start last.

Definition PreallocateMoreMemory (r : root) (w : W) : result (root * W) :=
  if BITS <? 20 then
    '(_, r, w) ← Ensure r w 0 (Z.shiftl 1 BITS);
    Ok (r, w)
  else Ok (r, w).

Fixpoint Next_loop (fuel : nat) (r : root) (k : Z) : result Z :=
  match fuel with
  | O => NoFuel
  | S fuel =>
      if k <? Z.shiftl 1 BITS then
        let i1 := Z.shiftr k LEAF_BITS in
        let v :=
          match r !! i1 with
          | Some l =>
              let i2 := Z.land k (LEAF_LENGTH - 1) in
              scan_leaf (Z.to_nat (LEAF_LENGTH - i2)) l i2
          | None => 0
          end in
        if negb (v =? 0) then Ok v
        else Next_loop fuel r (Z.shiftl (i1 + 1) LEAF_BITS)
      else Ok 0
  end.
Definition Next (r : root) (k : Z) : result Z :=
  Next_loop (Z.to_nat (ROOT_LENGTH - Z.shiftr k LEAF_BITS) + 2) r k.

#[export] Instance ops : PageMap W := {|
  pm_t := root;
  pm_bits := BITS;
  pm_init := ∅;
  pm_get := get;
  pm_set := set;
  pm_Ensure := Ensure;
  pm_PreallocateMoreMemory := PreallocateMoreMemory;
  pm_Next := Next
|}.

(** ** Correctness *)

Context (Hbits : 2 <= BITS <= 52).

Lemma bits_pos : 0 < LEAF_BITS /\ 0 < ROOT_BITS /\ BITS = ROOT_BITS + LEAF_BITS.
Proof. unfold ROOT_BITS, LEAF_BITS. Z.div_mod_to_equations. lia. Qed.

Lemma length_pow : LEAF_LENGTH = 2 ^ LEAF_BITS /\ ROOT_LENGTH = 2 ^ ROOT_BITS /\
  2 ^ BITS = ROOT_LENGTH * LEAF_LENGTH /\ 0 < LEAF_LENGTH /\ 0 < ROOT_LENGTH.
Proof.
  pose proof bits_pos as (? & ? & Hb). unfold LEAF_LENGTH, ROOT_LENGTH.
  rewrite !Z.shiftl_1_l. split_and!; try done; try (apply Z.pow_pos_nonneg; lia).
  rewrite Hb at 1. rewrite Z.pow_add_r by lia. done.
Qed.

(** The two indices of a key. *)
Lemma index_eq k :
  Z.shiftr k LEAF_BITS = k / LEAF_LENGTH /\ Z.land k (LEAF_LENGTH - 1) = k mod LEAF_LENGTH.
Proof.
  pose proof bits_pos. unfold LEAF_LENGTH. rewrite Z.shiftl_1_l.
  destruct (key_split k LEAF_BITS) as [-> Hm]; [lia|]. rewrite Z.shiftl_1_l in Hm. done.
Qed.

Lemma get_eq r k : 0 <= k -> get r k = radix_get LEAF_LENGTH ROOT_LENGTH (r !!.) k.
Proof.
  intros Hk. unfold get, radix_get. destruct (index_eq k) as [-> ->].
  pose proof length_pow as (_ & _ & <- & _ & _).
  rewrite Z.shiftr_div_pow2, Z.gtb_ltb by lia.
  assert (0 < 2 ^ BITS) by (apply Z.pow_pos_nonneg; lia).
  destruct (Z.leb_spec (2 ^ BITS) k), (Z.ltb_spec 0 (k / 2 ^ BITS)); try done.
  - assert (1 <= k / 2 ^ BITS) by (apply Z.div_le_lower_bound; lia). lia.
  - assert (k / 2 ^ BITS = 0) by (apply Z.div_small; lia). lia.
Qed.

Definition ensured2 (r : root) (k : Z) : Prop :=
  0 <= k < 2 ^ BITS /\ is_Some (r !! (k / LEAF_LENGTH)).

Lemma set_ok r k v : ensured2 r k ->
  exists r', set r k v = Ok r' /\
    (forall k', 0 <= k' -> get r' k' = if decide (k = k') then v else get r k') /\
    (forall k', ensured2 r' k' <-> ensured2 r k').
Proof.
  intros [Hk [l Hl]]. pose proof length_pow as (_ & _ & HB & HLL & _).
  unfold set. destruct (index_eq k) as [-> ->]. rewrite Hl.
  eexists. split; [done|]. split.
  - intros k' Hk'. rewrite !get_eq by done.
    apply radix_get_set with l; try done; try lia. intros i. apply lookup_insert.
  - intros k'. unfold ensured2. rewrite lookup_insert. case_decide as Hd; [|done].
    rewrite <- Hd, Hl. split; intros [? _]; split; eauto.
Qed.

Lemma get_insert_empty r i k : r !! i = None -> 0 <= k -> get (<[i := ∅]> r) k = get r k.
Proof.
  intros Hi Hk. rewrite !get_eq by done. apply radix_get_empty with i; [done|].
  intros j. apply lookup_insert.
Qed.

Lemma ensured_insert r i k : ensured2 r k -> ensured2 (<[i := ∅]> r) k.
Proof. intros [? ?]. split; [done|]. rewrite lookup_insert. case_decide; eauto. Qed.

Lemma sizeof_Leaf2_bound : 0 < sizeof_Leaf < 2 ^ 63.
Proof.
  unfold sizeof_Leaf, LEAF_LENGTH. rewrite Z.shiftl_1_l. apply shifted_bound. unfold LEAF_BITS.
  Z.to_euclidean_division_equations. lia.
Qed.

Section Ensure2.
Context (Q : W -> Prop) (HQ : alloc_keeps allocator Q).

(** What the loop of [Ensure] guarantees, from any point of the range. *)
Definition ensure_post (r : root) (key last : Z) (b : bool) (r' : root) (w' : W) : Prop :=
  (b = true -> forall k, key <= k <= last -> ensured2 r' k) /\
  (forall k, 0 <= k -> get r' k = get r k) /\
  (forall k, ensured2 r k -> ensured2 r' k) /\
  Q w'.

Lemma Ensure_loop_ok fuel : forall r w key last,
  0 <= key -> 0 <= last < 2 ^ 64 ->
  Z.min ROOT_LENGTH (last / LEAF_LENGTH) - key / LEAF_LENGTH + 2 <= Z.of_nat fuel ->
  (0 < fuel)%nat -> Q w ->
  exists b r' w', Ensure_loop fuel r w key last = Ok (b, r', w') /\
    ensure_post r key last b r' w'.
Proof.
  pose proof length_pow as (HL & HR & HB & HLL & HRL).
  assert (HB64 : 2 ^ BITS <= 2 ^ 52) by (apply Z.pow_le_mono_r; lia).
  induction fuel as [|fuel IH]; intros r w key last Hk Hl Hf Hp Hw; [lia|]. cbn [Ensure_loop].
  destruct (Z.leb_spec key last) as [Hle|Hgt].
  2: { exists true, r, w. split; [done|]. split_and!; try done. lia. }
  destruct (index_eq key) as [-> _]. rewrite Z.geb_leb.
  destruct (Z.leb_spec ROOT_LENGTH (key / LEAF_LENGTH)) as [|Hi].
  { exists false, r, w. split; [done|]. by split_and!. }
  set (i := key / LEAF_LENGTH) in *.
  assert (Hik : i * LEAF_LENGTH <= key < (i + 1) * LEAF_LENGTH).
  { unfold i. pose proof (Z.div_mod key LEAF_LENGTH).
    pose proof (Z.mod_pos_bound key LEAF_LENGTH). lia. }
  assert (0 <= i) by (apply Z.div_pos; lia).
  assert (Hnext : u64 (Z.shiftl (i + 1) LEAF_BITS) = (i + 1) * LEAF_LENGTH).
  { rewrite Z.shiftl_mul_pow2, <- HL by (pose proof bits_pos; lia). apply u64_small. nia. }
  rewrite Hnext.
  assert (Hle' : i <= last / LEAF_LENGTH) by (apply Z.div_le_mono; lia).
  assert (Hgo : forall r1 w1, is_Some (r1 !! i) -> Q w1 ->
    exists b r' w', Ensure_loop fuel r1 w1 ((i + 1) * LEAF_LENGTH) last = Ok (b, r', w') /\
      ensure_post r1 key last b r' w').
  { intros r1 w1 Hr1 Hw1. destruct (IH r1 w1 ((i + 1) * LEAF_LENGTH) last)
      as (b & r' & w' & -> & Hb & Hg & He & HQ'); [nia|done| |lia|done|].
    - rewrite Z.div_mul by lia. lia.
    - exists b, r', w'. split; [done|]. split_and!; try done. intros -> k Hkk.
      destruct (Z.lt_ge_cases k ((i + 1) * LEAF_LENGTH)); [|apply Hb; done || lia].
      apply He. assert (k / LEAF_LENGTH = i) as Hki.
      { symmetry. apply (Z.div_unique_pos _ _ _ (k - i * LEAF_LENGTH)); nia. }
      split; [|by rewrite Hki]. nia. }
  destruct (r !! i) as [l|] eqn:Hri; [apply Hgo; [by rewrite Hri|done]|].
  destruct (HQ sizeof_Leaf w sizeof_Leaf2_bound Hw) as (p & w1 & -> & Hw1). cbn [mbind result_bind].
  destruct (Z.eqb_spec p 0).
  { exists false, r, w1. by split_and!. }
  destruct (Hgo (<[i := ∅]> r) w1) as (b & r' & w' & -> & Hb & Hg & He & HQ').
  { rewrite lookup_insert_eq. eauto. }
  { done. }
  exists b, r', w'. split; [done|]. split_and!; try done.
  - intros k Hk'. rewrite Hg by done. by apply get_insert_empty.
  - intros k Hk'. by apply He, ensured_insert.
Qed.
End Ensure2.

Lemma next_spec_get r k limit v :
  0 <= k -> next_spec (radix_get LEAF_LENGTH ROOT_LENGTH (r !!.)) k limit v <->
  next_spec (get r) k limit v.
Proof.
  intros Hk. apply next_spec_ext. intros j Hj. symmetry. apply get_eq. lia.
Qed.

Lemma Next_loop_ok fuel : forall r k,
  0 <= k -> ROOT_LENGTH - k / LEAF_LENGTH + 1 <= Z.of_nat fuel -> (0 < fuel)%nat ->
  exists v, Next_loop fuel r k = Ok v /\ next_spec (get r) k (2 ^ BITS) v.
Proof.
  pose proof length_pow as (HL & HR & HB & HLL & HRL).
  induction fuel as [|fuel IH]; intros r k Hk Hf Hp; [lia|]. cbn [Next_loop].
  rewrite Z.shiftl_1_l. destruct (Z.ltb_spec k (2 ^ BITS)) as [Hlt|].
  2: { exists 0. split; [done|]. left. split; [done|]. lia. }
  destruct (index_eq k) as [-> ->].
  pose proof (scan_radix LEAF_LENGTH ROOT_LENGTH (r !!.) k HLL ltac:(lia)) as Hs.
  apply next_spec_get in Hs; [|done].
  set (v := match r !! (k / LEAF_LENGTH) with Some _ => _ | None => 0 end) in *.
  set (i := k / LEAF_LENGTH) in *.
  assert (Hik : i * LEAF_LENGTH <= k < (i + 1) * LEAF_LENGTH).
  { unfold i. pose proof (Z.div_mod k LEAF_LENGTH).
    pose proof (Z.mod_pos_bound k LEAF_LENGTH). lia. }
  assert (i < ROOT_LENGTH) by (apply Z.div_lt_upper_bound; lia).
  assert (0 <= i) by (apply Z.div_pos; lia).
  destruct (Z.eqb_spec v 0) as [Ev|Ev]; simpl.
  - rewrite Z.shiftl_mul_pow2, <- HL by (pose proof bits_pos; lia).
    destruct (IH r ((i + 1) * LEAF_LENGTH)) as (v' & -> & Hv'); [nia| |lia|].
    { rewrite Z.div_mul by lia. lia. }
    exists v'. split; [done|].
    apply next_spec_skip with ((i + 1) * LEAF_LENGTH); [lia| |done].
    destruct Hs as [[_ Hz]|(j & _ & Hj & Hn & _)]; [done|congruence].
  - exists v. split; [done|]. destruct Hs as [[? _]|(j & Hj & Hv & Hn & Hz)]; [done|].
    right. exists j. split_and!; try done; try lia. nia.
Qed.

Lemma laws2 : PageMapLaws allocator ops ensured2.
Proof.
  pose proof length_pow as (HL & HR & HB & HLL & HRL).
  assert (HB52 : 2 ^ BITS <= 2 ^ 52) by (apply Z.pow_le_mono_r; lia).
  assert (HEns : forall Q r w s n, alloc_keeps allocator Q -> Q w ->
    0 <= s < 2 ^ BITS -> 0 < n < 2 ^ 63 ->
    exists b r' w', Ensure r w s n = Ok (b, r', w') /\ ensure_post Q r s (s + n - 1) b r' w').
  { intros Q r w s n HQ Hw Hs Hn. unfold Ensure. rewrite u64_small by lia.
    apply Ensure_loop_ok; try done; try lia; unfold Ensure_fuel;
      destruct (index_eq s) as [-> _], (index_eq (s + n - 1)) as [-> _];
      assert (s / LEAF_LENGTH <= (s + n - 1) / LEAF_LENGTH) by (apply Z.div_le_mono; lia);
      assert (s / LEAF_LENGTH < ROOT_LENGTH) by (apply Z.div_lt_upper_bound; lia); lia. }
  refine (@Build_PageMapLaws W allocator ops ensured2 _ _ set_ok _ _ _); simpl.
  - intros k. unfold get. case_if; done.
  - intros r k Hk. rewrite get_eq by lia. unfold radix_get.
    by destruct (Z.leb_spec (ROOT_LENGTH * LEAF_LENGTH) k); [|lia].
  - intros Q r w s n HQ Hw Hs Hn. destruct (HEns Q r w s n HQ Hw Hs Hn) as (b & r' & w' & H & Hb & Hrest).
    exists b, r', w'. split; [done|]. split; [|done]. intros Ht. split.
    + destruct (Hb Ht (s + n - 1)) as [? _]; lia.
    + intros k Hk. apply Hb; done || lia.
  - intros Q r w HQ Hw. unfold PreallocateMoreMemory. case_if; [|by exists r, w].
    rewrite Z.shiftl_1_l.
    destruct (HEns Q r w 0 (2 ^ BITS) HQ Hw) as (b & r' & w' & -> & _ & Hrest); [lia|lia|].
    by exists r', w'.
  - intros r k Hk. unfold Next. destruct (index_eq k) as [-> _].
    apply Next_loop_ok; lia.
Qed.

(** C30: the two-level map implements the page-map interface: a [get] after
    [set] sees the value and no other key changes, [Ensure] makes a range
    settable without changing any entry (also when it fails half-way),
    out-of-range keys read as null, [Next] returns the first non-null entry, and
    all loops terminate. *)
Theorem PageMap2_laws : PageMapLaws allocator ops ensured2.
Proof. exact laws2. Qed.
End PageMap2.

Lemma PageMap2_laws_witness : PageMapLaws (W:=nat) (fun _ n => Ok (1, S n))
  (ops (fun _ n => Ok (1, S n)) 35) (ensured2 35).
Proof. apply PageMap2_laws. lia. Defined.
End PageMap2.

(** ** Three-level radix tree *)

Module PageMap3.
Section PageMap3.
Context {W : Type} (allocator : Z -> W -> result (Z * W)) (BITS : Z).

Definition INTERIOR_BITS : Z := (BITS + 2) / 3.
Definition INTERIOR_LENGTH : Z := Z.shiftl 1 INTERIOR_BITS.
Definition LEAF_BITS : Z := BITS - 2 * INTERIOR_BITS.
Definition LEAF_LENGTH : Z := Z.shiftl 1 LEAF_BITS.

(** The second-level nodes point to leaves; a missing entry is null. *)
Abbreviation node := (gmap Z leaf).
Abbreviation root := (gmap Z node).

Definition sizeof_Node : Z := 8 * INTERIOR_LENGTH.
Definition sizeof_Leaf : Z := 8 * LEAF_LENGTH.

Definition get (r : root) (k : Z) : Z :=
  let i1 := Z.shiftr k (LEAF_BITS + INTERIOR_BITS) in
  let i2 := Z.land (Z.shiftr k LEAF_BITS) (INTERIOR_LENGTH - 1) in
  let i3 := Z.land k (LEAF_LENGTH - 1) in
  if Z.shiftr k BITS >? 0 then 0
  else match r !! i1 with
       | None => 0
       | Some n => match n !! i2 with None => 0 | Some l => arr_get l i3 end
       end.

Definition set (r : root) (k v : Z) : result root :=
  let i1 := Z.shiftr k (LEAF_BITS + INTERIOR_BITS) in
  let i2 := Z.land (Z.shiftr k LEAF_BITS) (INTERIOR_LENGTH - 1) in
  let i3 := Z.land k (LEAF_LENGTH - 1) in
  match r !! i1 with
  | None => Crash
  | Some n =>
      match n !! i2 with
      | None => Crash
      | Some l => Ok (<[i1 := <[i2 := <[i3 := v]> l]> n]> r)
      end
  end.

(** [NewNode] and its use: make the second-level node when it is missing. *)
Definition make_node (r : root) (w : W) (i1 : Z) : result (bool * root * W) :=
  match r !! i1 with
  | Some _ => Ok (true, r, w)
  | None =>
      '(p, w) ← allocator sizeof_Node w;
      if p =? 0 then Ok (false, r, w) else Ok (true, <[i1 := ∅]> r, w)
  end.

(** Make the leaf when it is missing. *)
Definition make_leaf (r : root) (w : W) (i1 i2 : Z) : result (bool * root * W) :=
  match r !! i1 with
  | None => Crash
  | Some n =>
      match n !! i2 with
      | Some _ => Ok (true, r, w)
      | None =>
          '(p, w) ← allocator sizeof_Leaf w;
          if p =? 0 then Ok (false, r, w) else Ok (true, <[i1 := <[i2 := ∅]> n]> r, w)
      end
  end.

Fixpoint Ensure_loop (fuel : nat) (r : root) (w : W) (key last : Z)
    : result (bool * root * W) :=
  match fuel with
  | O => NoFuel
  | S fuel =>
      if key <=? last then
        let i1 := Z.shiftr key (LEAF_BITS + INTERIOR_BITS) in
        let i2 := Z.land (Z.shiftr key LEAF_BITS) (INTERIOR_LENGTH - 1) in
        if (i1 >=? INTERIOR_LENGTH) || (i2 >=? INTERIOR_LENGTH) then Ok (false, r, w)
        else
          '(ok, r, w) ← make_node r w i1;
          if negb ok then Ok (false, r, w)
          else
            '(ok, r, w) ← make_leaf r w i1 i2;
            if negb ok then Ok (false, r, w)
            else
              let key := u64 (Z.shiftl (Z.shiftr key LEAF_BITS + 1) LEAF_BITS) in
              Ensure_loop fuel r w key last
      else Ok (true, r, w)
  end.

Definition Ensure_fuel (start last : Z) : nat :=
  Z.to_nat (Z.min (INTERIOR_LENGTH * INTERIOR_LENGTH) (Z.shiftr last LEAF_BITS)
            - Z.shiftr start LEAF_BITS + 2).

Definition Ensure (r : root) (w : W) (start n : Z) : result (bool * root * W) :=
  let last := u64 (start + n - 1) in
  Ensure_loop (Ensure_fuel start last) r w start last.

Definition PreallocateMoreMemory (r : root) (w : W) : result (root * W) := Ok (r, w).

Fixpoint Next_loop (fuel : nat) (r : root) (k : Z) : result Z :=
  match fuel with
  | O => NoFuel
  | S fuel =>
      if k <? Z.shiftl 1 BITS then
        let i1 := Z.shiftr k (LEAF_BITS + INTERIOR_BITS) in
        let i2 := Z.land (Z.shiftr k LEAF_BITS) (INTERIOR_LENGTH - 1) in
        match r !! i1 with
        | None => Next_loop fuel r (Z.shiftl (i1 + 1) (LEAF_BITS + INTERIOR_BITS))
        | Some n =>
            let v :=
              match n !! i2 with
              | Some l =>
                  let i3 := Z.land k (LEAF_LENGTH - 1) in
                  scan_leaf (Z.to_nat (LEAF_LENGTH - i3)) l i3
              | None => 0
              end in
            if negb (v =? 0) then Ok v
            else Next_loop fuel r (Z.shiftl (Z.shiftr k LEAF_BITS + 1) LEAF_BITS)
        end
      else Ok 0
  end.
Definition Next (r : root) (k : Z) : result Z :=
  Next_loop (Z.to_nat (INTERIOR_LENGTH * INTERIOR_LENGTH - Z.shiftr k LEAF_BITS) + 2) r k.

#[export] Instance ops : PageMap W := {|
  pm_t := root;
  pm_bits := BITS;
  pm_init := ∅;
  pm_get := get;
  pm_set := set;
  pm_Ensure := Ensure;
  pm_PreallocateMoreMemory := PreallocateMoreMemory;
  pm_Next := Next
|}.

(** ** Correctness *)

Context (Hbits : 5 <= BITS <= 52).

Abbreviation IL := INTERIOR_LENGTH.
Abbreviation LL := LEAF_LENGTH.

Lemma bits_pos3 : 0 < LEAF_BITS /\ 0 < INTERIOR_BITS /\
  BITS = INTERIOR_BITS + INTERIOR_BITS + LEAF_BITS.
Proof. unfold LEAF_BITS, INTERIOR_BITS. Z.div_mod_to_equations. lia. Qed.

Lemma length_pow3 : LL = 2 ^ LEAF_BITS /\ IL = 2 ^ INTERIOR_BITS /\
  2 ^ BITS = IL * IL * LL /\ 0 < LL /\ 0 < IL.
Proof.
  pose proof bits_pos3 as (? & ? & Hb). unfold LEAF_LENGTH, INTERIOR_LENGTH.
  rewrite !Z.shiftl_1_l. split_and!; try done; try (apply Z.pow_pos_nonneg; lia).
  rewrite Hb at 1. rewrite !Z.pow_add_r by lia. done.
Qed.

(** The index of a leaf and its two coordinates. *)
Lemma index_eq3 k : 
  Z.shiftr k LEAF_BITS = k / LL /\ Z.land k (LL - 1) = k mod LL /\
  Z.shiftr k (LEAF_BITS + INTERIOR_BITS) = k / LL / IL /\
  Z.land (Z.shiftr k LEAF_BITS) (IL - 1) = k / LL mod IL.
Proof.
  pose proof bits_pos3 as (? & ? & _). pose proof length_pow3 as (HL & HI & _).
  destruct (key_split k LEAF_BITS) as [H1 H2]; [lia|].
  destruct (key_split (k / LL) INTERIOR_BITS) as [H3 H4]; [lia|].
  rewrite <- Z.shiftr_shiftr by lia. rewrite H1, <- HL.
  fold LEAF_LENGTH in H2. fold INTERIOR_LENGTH in H4. rewrite H2, H3, H4, <- HL, <- HI. done.
Qed.

Definition leaf_at (r : root) (i : Z) : option leaf := r !! (i / IL) ≫= (.!! (i mod IL)).

Lemma get_eq3 r k : 0 <= k -> get r k = radix_get LL (IL * IL) (leaf_at r) k.
Proof.
  intros Hk. unfold get, radix_get, leaf_at. destruct (index_eq3 k) as (_ & -> & -> & ->).
  pose proof length_pow3 as (_ & _ & <- & _ & _).
  rewrite Z.shiftr_div_pow2, Z.gtb_ltb by lia.
  assert (0 < 2 ^ BITS) by (apply Z.pow_pos_nonneg; lia).
  destruct (Z.leb_spec (2 ^ BITS) k), (Z.ltb_spec 0 (k / 2 ^ BITS)); try done.
  - assert (1 <= k / 2 ^ BITS) by (apply Z.div_le_lower_bound; lia). lia.
  - assert (k / 2 ^ BITS = 0) by (apply Z.div_small; lia). lia.
  - by destruct (r !! (k / LL / IL)).
Qed.

(** Writing one leaf of one node changes one leaf of the array. *)
Lemma leaf_at_insert r n i l j :
  r !! (i / IL) = Some n ->
  leaf_at (<[i / IL := <[i mod IL := l]> n]> r) j =
    if decide (i = j) then Some l else leaf_at r j.
Proof.
  intros Hn. unfold leaf_at. pose proof length_pow3 as (_ & _ & _ & _ & ?).
  rewrite lookup_insert. destruct (decide (i / IL = j / IL)) as [Heq|Hne].
  - cbn. rewrite lookup_insert. rewrite <- Heq, Hn.
    destruct (decide (i = j)) as [->|Hij]; [by rewrite decide_True|].
    rewrite decide_False; [done|]. intros Hm. apply Hij.
    rewrite (Z.div_mod i IL), (Z.div_mod j IL) by lia. congruence.
  - rewrite decide_False; [done|congruence].
Qed.

Lemma leaf_at_new_node r i1 j : r !! i1 = None -> leaf_at (<[i1 := ∅]> r) j = leaf_at r j.
Proof.
  intros Hn. unfold leaf_at. rewrite lookup_insert. case_decide as Hd; [|done].
  by rewrite <- Hd, Hn.
Qed.

Definition ensured3 (r : root) (k : Z) : Prop :=
  0 <= k < 2 ^ BITS /\ is_Some (leaf_at r (k / LL)).

Lemma set_ok3 r k v : ensured3 r k ->
  exists r', set r k v = Ok r' /\
    (forall k', 0 <= k' -> get r' k' = if decide (k = k') then v else get r k') /\
    (forall k', ensured3 r' k' <-> ensured3 r k').
Proof.
  intros [Hk [l Hl]]. pose proof length_pow3 as (_ & _ & HB & HLL & _).
  unfold set. destruct (index_eq3 k) as (_ & -> & -> & ->).
  pose proof Hl as Hl'. unfold leaf_at in Hl'.
  destruct (r !! (k / LL / IL)) as [n|] eqn:Hn; [|done]. cbn in Hl'. rewrite Hl'.
  eexists. split; [done|]. split.
  - intros k' Hk'. rewrite !get_eq3 by done.
    apply radix_get_set with l; try done; try lia.
    intros i. by apply leaf_at_insert.
  - intros k'. unfold ensured3. rewrite leaf_at_insert by done. case_decide as Hd; [|done].
    rewrite <- Hd, Hl. split; intros [? _]; split; eauto.
Qed.

Lemma sizeof_Node_bound : 0 < sizeof_Node < 2 ^ 63.
Proof.
  unfold sizeof_Node, INTERIOR_LENGTH. rewrite Z.shiftl_1_l. apply shifted_bound. unfold INTERIOR_BITS.
  Z.to_euclidean_division_equations. lia.
Qed.

Lemma sizeof_Leaf3_bound : 0 < sizeof_Leaf < 2 ^ 63.
Proof.
  unfold sizeof_Leaf, LEAF_LENGTH. rewrite Z.shiftl_1_l. apply shifted_bound.
  unfold LEAF_BITS, INTERIOR_BITS. Z.to_euclidean_division_equations. lia.
Qed.

Section Ensure3.
Context (Q : W -> Prop) (HQ : alloc_keeps allocator Q).

(** What making a leaf guarantees, whether it succeeds or not. *)
Definition grow_post (r : root) (r' : root) (w' : W) : Prop :=
  (forall k, 0 <= k -> get r' k = get r k) /\
  (forall k, ensured3 r k -> ensured3 r' k) /\
  Q w'.

Lemma grow_post_trans r1 r2 w2 r3 w3 :
  grow_post r1 r2 w2 -> grow_post r2 r3 w3 -> grow_post r1 r3 w3.
Proof.
  intros (Hg1 & He1 & _) (Hg2 & He2 & HQ2). split_and!; [|by auto|done].
  intros k Hk. by rewrite Hg2, Hg1.
Qed.

Lemma make_node_ok r w i1 : Q w ->
  exists ok r' w', make_node r w i1 = Ok (ok, r', w') /\
    grow_post r r' w' /\ (ok = true -> is_Some (r' !! i1)).
Proof.
  intros Hw. unfold make_node. destruct (r !! i1) as [n|] eqn:Hn.
  { exists true, r, w. by split_and!. }
  destruct (HQ sizeof_Node w sizeof_Node_bound Hw) as (p & w1 & -> & Hw1). cbn [mbind result_bind].
  case_if; [by exists false, r, w1|]. do 3 eexists. split; [done|].
  split; [|intros _; rewrite lookup_insert_eq; eauto].
  split_and!; try done.
  - intros k Hk. rewrite !get_eq3 by done. unfold radix_get. case_if; [done|].
    by rewrite leaf_at_new_node.
  - intros k [? ?]. split; [done|]. by rewrite leaf_at_new_node.
Qed.

Lemma make_leaf_ok r w i : Q w -> is_Some (r !! (i / IL)) ->
  exists ok r' w', make_leaf r w (i / IL) (i mod IL) = Ok (ok, r', w') /\
    grow_post r r' w' /\ (ok = true -> is_Some (leaf_at r' i)).
Proof.
  intros Hw [n Hn]. unfold make_leaf. rewrite Hn.
  assert (leaf_at r i = n !! (i mod IL)) as Hli by (unfold leaf_at; by rewrite Hn).
  destruct (n !! (i mod IL)) as [l|] eqn:Hl.
  { exists true, r, w. by split_and!. }
  destruct (HQ sizeof_Leaf w sizeof_Leaf3_bound Hw) as (p & w1 & -> & Hw1). cbn [mbind result_bind].
  case_if; [by exists false, r, w1|]. do 3 eexists. split; [done|]. split.
  - split_and!; try done.
    + intros k Hk. rewrite !get_eq3 by done. apply radix_get_empty with i; [done|].
      intros j. by apply leaf_at_insert.
    + intros k [? ?]. split; [done|]. rewrite leaf_at_insert by done. case_decide; eauto.
  - intros _. rewrite leaf_at_insert by done. rewrite decide_True by done. eauto.
Qed.

Lemma key_bound key : 0 <= key -> key / LL / IL < IL -> key < IL * IL * LL.
Proof.
  pose proof length_pow3 as (HL & HI & HB & HLL & HIL). intros Hk Hi.
  destruct (Z.lt_ge_cases key (IL * IL * LL)); [done|].
  assert (IL * IL <= key / LL) by (apply Z.div_le_lower_bound; lia).
  assert (IL <= key / LL / IL) by (apply Z.div_le_lower_bound; lia). lia.
Qed.

Lemma Ensure_loop_ok3 fuel : forall r w key last,
  0 <= key -> 0 <= last < 2 ^ 64 ->
  Z.min (IL * IL) (last / LL) - key / LL + 2 <= Z.of_nat fuel -> (0 < fuel)%nat -> Q w ->
  exists b r' w', Ensure_loop fuel r w key last = Ok (b, r', w') /\
    grow_post r r' w' /\ (b = true -> forall k, key <= k <= last -> ensured3 r' k).
Proof.
  pose proof length_pow3 as (HL & HI & HB & HLL & HIL).
  assert (HB52 : 2 ^ BITS <= 2 ^ 52) by (apply Z.pow_le_mono_r; lia).
  induction fuel as [|fuel IH]; intros r w key last Hk Hl Hf Hp Hw; [lia|]. cbn [Ensure_loop].
  destruct (Z.leb_spec key last) as [Hle|Hgt].
  2: { exists true, r, w. split; [done|]. split; [done|]. lia. }
  destruct (index_eq3 key) as (-> & _ & -> & ->). rewrite !Z.geb_leb.
  destruct (Z.leb_spec IL (key / LL / IL)) as [|Hi]; [by exists false, r, w|].
  destruct (Z.leb_spec IL ((key / LL) mod IL)) as [|_]; [by exists false, r, w|].
  cbn [orb]. pose proof (key_bound key Hk Hi).
  destruct (div_range LL (IL * IL) key HLL ltac:(lia)) as [Hir Hik].
  set (i := key / LL) in *.
  destruct (make_node_ok r w (i / IL) Hw) as (ok & r1 & w1 & -> & Hg1 & Hn1).
  cbn [mbind result_bind]. destruct ok; cbn [negb]; [|by exists false, r1, w1].
  destruct (make_leaf_ok r1 w1 i ltac:(apply Hg1) (Hn1 eq_refl)) as (ok & r2 & w2 & -> & Hg2 & Hl2).
  cbn [mbind result_bind]. destruct ok; cbn [negb];
    [|exists false, r2, w2; split_and!; [done|by eapply grow_post_trans..|done]].
  assert (Hnext : u64 (Z.shiftl (i + 1) LEAF_BITS) = (i + 1) * LL).
  { rewrite Z.shiftl_mul_pow2, <- HL by (pose proof bits_pos3; lia). apply u64_small. nia. }
  rewrite Hnext. assert (Hle' : i <= last / LL) by (apply Z.div_le_mono; lia).
  destruct (IH r2 w2 ((i + 1) * LL) last) as (b & r' & w' & -> & Hg3 & Hb);
    [nia|done|rewrite Z.div_mul by lia; lia|lia|apply Hg2|].
  exists b, r', w'. split; [done|]. split; [eauto using grow_post_trans|].
  intros -> k Hkk. destruct (Z.lt_ge_cases k ((i + 1) * LL)); [|apply Hb; done || lia].
  destruct Hg3 as (_ & He & _). apply He. split; [nia|].
  assert (k / LL = i) as ->.
  { symmetry. apply (Z.div_unique_pos _ _ _ (k - i * LL)); nia. }
  by apply Hl2.
Qed.
End Ensure3.

Lemma next_spec_get3 r k limit v :
  0 <= k -> next_spec (radix_get LL (IL * IL) (leaf_at r)) k limit v <->
  next_spec (get r) k limit v.
Proof.
  intros Hk. apply next_spec_ext. intros j Hj. symmetry. apply get_eq3. lia.
Qed.

(** A missing node reads as nulls up to the first key of the next node. *)
Lemma missing_node_skip r k : 0 <= k < 2 ^ BITS -> r !! (k / LL / IL) = None ->
  let k' := (k / LL / IL + 1) * (LL * IL) in
  k < k' /\ (k / LL < k' / LL) /\ forall j, k <= j < k' -> get r j = 0.
Proof.
  intros Hk Hn. pose proof length_pow3 as (HL & HI & HB & HLL & HIL).
  destruct (div_range LL (IL * IL) k) as [Hi Hik]; [lia..|].
  destruct (div_range IL IL (k / LL)) as [Hi1 Hik1]; [lia..|].
  set (i := k / LL) in *. set (i1 := i / IL) in *.
  assert (k < (i1 + 1) * (LL * IL)) by nia. split_and!; [done| |].
  - replace ((i1 + 1) * (LL * IL)) with ((i1 + 1) * IL * LL) by ring.
    rewrite Z.div_mul by lia. lia.
  - intros j Hj. rewrite get_eq3 by lia. unfold radix_get. case_if; [done|].
    unfold leaf_at. assert (j / LL / IL = i1) as ->; [|by rewrite Hn].
    rewrite Z.div_div by lia. symmetry.
    apply (Z.div_unique_pos _ _ _ (j - i1 * (LL * IL))); nia.
Qed.

Lemma Next_loop_ok3 fuel : forall r k,
  0 <= k -> IL * IL - k / LL + 1 <= Z.of_nat fuel -> (0 < fuel)%nat ->
  exists v, Next_loop fuel r k = Ok v /\ next_spec (get r) k (2 ^ BITS) v.
Proof.
  pose proof length_pow3 as (HL & HI & HB & HLL & HIL). pose proof bits_pos3 as (? & ? & _).
  induction fuel as [|fuel IH]; intros r k Hk Hf Hp; [lia|]. cbn [Next_loop].
  rewrite Z.shiftl_1_l. destruct (Z.ltb_spec k (2 ^ BITS)) as [Hlt|].
  2: { exists 0. split; [done|]. left. split; [done|]. lia. }
  destruct (index_eq3 k) as (-> & -> & -> & ->).
  destruct (div_range LL (IL * IL) k) as [Hi Hik]; [lia..|].
  destruct (r !! (k / LL / IL)) as [n|] eqn:Hn.
  - pose proof (scan_radix LL (IL * IL) (leaf_at r) k HLL ltac:(lia)) as Hs.
    apply next_spec_get3 in Hs; [|done]. unfold leaf_at in Hs. rewrite Hn in Hs. cbn in Hs.
    set (v := match n !! ((k / LL) mod IL) with Some _ => _ | None => 0 end) in *.
    destruct (Z.eqb_spec v 0) as [Ev|Ev]; simpl.
    + rewrite Z.shiftl_mul_pow2, <- HL by lia.
      destruct (IH r ((k / LL + 1) * LL)) as (v' & -> & Hv'); [nia| |lia|].
      { rewrite Z.div_mul by lia. lia. }
      exists v'. split; [done|].
      apply next_spec_skip with ((k / LL + 1) * LL); [lia| |done].
      destruct Hs as [[_ Hz]|(j & _ & Hj & Hnz & _)]; [done|congruence].
    + exists v. split; [done|]. destruct Hs as [[? _]|(j & Hj & Hv & Hnz & Hz)]; [done|].
      right. exists j. split_and!; try done; try lia. nia.
  - rewrite Z.shiftl_mul_pow2, Z.pow_add_r, <- HL, <- HI by lia.
    destruct (missing_node_skip r k) as (Hgt & Hdiv & Hz); [lia|done|].
    destruct (IH r ((k / LL / IL + 1) * (LL * IL))) as (v' & -> & Hv'); [lia|lia|lia|].
    exists v'. split; [done|]. by eapply next_spec_skip; [|exact Hz|]; [lia|].
Qed.

Lemma laws3 : PageMapLaws allocator ops ensured3.
Proof.
  pose proof length_pow3 as (HL & HI & HB & HLL & HIL).
  assert (HB52 : 2 ^ BITS <= 2 ^ 52) by (apply Z.pow_le_mono_r; lia).
  refine (@Build_PageMapLaws W allocator ops ensured3 _ _ set_ok3 _ _ _); simpl.
  - intros k. unfold get. case_if; done.
  - intros r k Hk. rewrite get_eq3 by lia. unfold radix_get.
    by destruct (Z.leb_spec (IL * IL * LL) k); [|lia].
  - intros Q r w s n HQ Hw Hs Hn. unfold Ensure. rewrite u64_small by lia.
    destruct (Ensure_loop_ok3 Q HQ (Ensure_fuel s (s + n - 1)) r w s (s + n - 1))
      as (b & r' & w' & -> & (Hg & He & HQ') & Hb); try done; try lia;
      [unfold Ensure_fuel; destruct (index_eq3 s) as (-> & _), (index_eq3 (s + n - 1)) as (-> & _);
       assert (s / LL <= (s + n - 1) / LL) by (apply Z.div_le_mono; lia);
       assert (s / LL < IL * IL) by (apply Z.div_lt_upper_bound; lia); lia..|].
    exists b, r', w'. split; [done|]. split; [|done]. intros Ht. split.
    + destruct (Hb Ht (s + n - 1)) as [? _]; lia.
    + intros k Hk. apply Hb; done || lia.
  - intros Q r w HQ Hw. unfold PreallocateMoreMemory. by exists r, w.
  - intros r k Hk. unfold Next. destruct (index_eq3 k) as (-> & _).
    apply Next_loop_ok3; lia.
Qed.

(** C31: the three-level map implements the same page-map interface; a missing
    second-level node reads as nulls and is skipped as a whole by [Next], and an
    [Ensure] that obtains a node but not its leaf leaves every entry as it was. *)
Theorem PageMap3_laws : PageMapLaws allocator ops ensured3.
Proof. exact laws3. Qed.
End PageMap3.

Lemma PageMap3_laws_witness : PageMapLaws (W:=nat) (fun _ n => Ok (1, S n))
  (ops (fun _ n => Ok (1, S n)) 51) (ensured3 51).
Proof. apply PageMap3_laws. lia. Defined.
End PageMap3.
