(* ===== verification/SystemAlloc.v ===== *)
(** The system allocators: [src/system-alloc.cc] and [src/base/memmap.h].

    The operating system is a parameter: [Class OS] lists the calls the code makes
    ([sbrk], [mmap], [munmap], [madvise], [getpagesize]) and [Class OSLaws] what it
    relies on, in terms of the bytes the process has obtained and not given back.
    The build is the default one on Linux: [HAVE_SBRK] and [MADV_FREE] (an alias of
    [MADV_DONTNEED]) defined, [FREE_MMAP_PROT_NONE] not; [kDebugMode] is a
    parameter, and [tc_get_sysalloc_override] is the default one. *)
From S2P Require Import Prelude SizeMap.

(** [(void* ) -1] *)
Definition MAP_FAILED : Z := 2 ^ 64 - 1.
Definition EAGAIN : Z := 11.
Definition sizeof_MemoryAligner : Z := 64.

Section SystemAlloc.
Context {Sys : Type}.

Class OS := {
  getpagesize : Z;
  (** increment; returns the old break *)
  sbrk : Z -> Sys -> Z * Sys;
  (** hint, length; anonymous private memory *)
  mmap : Z -> Z -> Sys -> Z * Sys;
  munmap : Z -> Z -> Sys -> Sys;
  (** address, length; returns the result and [errno] *)
  madvise : Z -> Z -> Sys -> Z * Z * Sys;
  (** no more calls in a row than this fail with [EAGAIN] *)
  madvise_retries : nat
}.

(** What the laws speak about: the states the system can be in, and the bytes the
    process has obtained and not given back. *)
Class OSGhost := {
  os_ok : Sys -> Prop;
  used : Sys -> Z -> Prop;
  (** the bytes of the program image, with its static objects *)
  image : Z -> Prop
}.

Context {OSops : OS}.
Context {OSG : OSGhost}.

(** [n] bytes at [r] were obtained, all of them fresh; or none, and [r] says so. *)
Definition obtained (n : Z) (o : Sys) (r : Z) (o' : Sys) : Prop :=
  (r = MAP_FAILED /\ forall a, used o' a <-> used o a) \/
  (0 < r /\ r + n <= 2 ^ kAddressBits /\
   (forall a, r <= a < r + n -> ~ used o a) /\
   (forall a, used o' a <-> used o a \/ r <= a < r + n)).

(** [k] calls in a row fail with [EAGAIN]. *)
Fixpoint eagain (k : nat) (addr len : Z) (o : Sys) : Prop :=
  match k with
  | O => True
  | S k => let '(r, e, o') := madvise addr len o in r = -1 /\ e = EAGAIN /\ eagain k addr len o'
  end.

Class OSLaws : Prop := {
  getpagesize_pow : exists k, 6 <= k <= 30 /\ getpagesize = 2 ^ k;
  sbrk_0 o : os_ok o -> exists b o', sbrk 0 o = (b, o') /\ os_ok o' /\
    0 <= b < 2 ^ 64 /\ forall a, used o' a <-> used o a;
  sbrk_ok n o : os_ok o -> 0 < n < 2 ^ 64 -> exists r o', sbrk n o = (r, o') /\ os_ok o' /\
    obtained n o r o';
  mmap_ok hint n o : os_ok o -> 0 < n < 2 ^ 64 -> exists r o', mmap hint n o = (r, o') /\ os_ok o' /\
    obtained n o r o' /\ (r <> MAP_FAILED -> r mod getpagesize = 0);
  munmap_ok p n o : os_ok o -> p mod getpagesize = 0 -> n mod getpagesize = 0 ->
    os_ok (munmap p n o) /\ forall a, used (munmap p n o) a <-> used o a /\ ~ p <= a < p + n;
  madvise_ok p n o : os_ok o -> exists r e o', madvise p n o = (r, e, o') /\ os_ok o' /\
    forall a, used o' a <-> used o a;
  madvise_settles p n o : os_ok o -> ~ eagain (S madvise_retries) p n o;
  used_image o a : os_ok o -> used o a -> ~ image a;
  (** fewer than 2^44 bytes (16 TiB) are in use at a time *)
  used_bound o (X : gset Z) : os_ok o ->
    (forall k a, k ∈ X -> k * kPageSize <= a < (k + 1) * kPageSize -> used o a) ->
    Z.of_nat (size X) < 2 ^ 31
}.

Context (kDebugMode : bool).

(** The flags, the variables and the objects of the file. *)
Record SysAlloc := mkSysAlloc {
  os : Sys;
  FLAGS_malloc_skip_sbrk : bool;
  FLAGS_malloc_skip_mmap : bool;
  FLAGS_malloc_disable_memory_release : bool;
  pagesize : Z;
  hint_ : Z;                     (* of the [MmapSysAllocator] *)
  failed_ : bool * bool;         (* of the [DefaultSysAllocator] *)
  system_alloc_inited : bool;
  SystemTaken : Z                (* [TCMalloc_SystemTaken] *)
}.

Abbreviation MS := (M SysAlloc).

Definition upd_os (o : Sys) (s : SysAlloc) : SysAlloc :=
  mkSysAlloc o s.(FLAGS_malloc_skip_sbrk) s.(FLAGS_malloc_skip_mmap)
    s.(FLAGS_malloc_disable_memory_release) s.(pagesize) s.(hint_) s.(failed_)
    s.(system_alloc_inited) s.(SystemTaken).
Definition upd_pagesize (v : Z) (s : SysAlloc) : SysAlloc :=
  mkSysAlloc s.(os) s.(FLAGS_malloc_skip_sbrk) s.(FLAGS_malloc_skip_mmap)
    s.(FLAGS_malloc_disable_memory_release) v s.(hint_) s.(failed_)
    s.(system_alloc_inited) s.(SystemTaken).
Definition upd_hint (v : Z) (s : SysAlloc) : SysAlloc :=
  mkSysAlloc s.(os) s.(FLAGS_malloc_skip_sbrk) s.(FLAGS_malloc_skip_mmap)
    s.(FLAGS_malloc_disable_memory_release) s.(pagesize) v s.(failed_)
    s.(system_alloc_inited) s.(SystemTaken).
Definition upd_failed (v : bool * bool) (s : SysAlloc) : SysAlloc :=
  mkSysAlloc s.(os) s.(FLAGS_malloc_skip_sbrk) s.(FLAGS_malloc_skip_mmap)
    s.(FLAGS_malloc_disable_memory_release) s.(pagesize) s.(hint_) v
    s.(system_alloc_inited) s.(SystemTaken).
Definition upd_inited (v : bool) (s : SysAlloc) : SysAlloc :=
  mkSysAlloc s.(os) s.(FLAGS_malloc_skip_sbrk) s.(FLAGS_malloc_skip_mmap)
    s.(FLAGS_malloc_disable_memory_release) s.(pagesize) s.(hint_) s.(failed_)
    v s.(SystemTaken).
Definition upd_taken (v : Z) (s : SysAlloc) : SysAlloc :=
  mkSysAlloc s.(os) s.(FLAGS_malloc_skip_sbrk) s.(FLAGS_malloc_skip_mmap)
    s.(FLAGS_malloc_disable_memory_release) s.(pagesize) s.(hint_) s.(failed_)
    s.(system_alloc_inited) v.

(** A call of the system. *)
Definition syscall {A} (f : Sys -> A * Sys) : MS A := fun s =>
  let '(a, o) := f s.(os) in Ok (a, upd_os o s).

Definition CheckAddressBits (ptr : Z) : bool := Z.shiftr ptr kAddressBits =? 0.

(** ** The allocators: pointer (null on failure) and actual size *)

Definition SbrkSysAllocator_Alloc (size alignment : Z) : MS (Z * Z) :=
  s ← get_state;
  if s.(FLAGS_malloc_skip_sbrk) then mret (0, 0)
  else if i64 (u64 (size + alignment)) <? 0 then mret (0, 0)
  else
    let size := u64 (u64 (size + alignment - 1) / alignment * alignment) in
    brk ← syscall (sbrk 0);
    if u64 (brk + size) <? size then mret (0, 0)
    else
      result ← syscall (sbrk size);
      if result =? MAP_FAILED then mret (0, 0)
      else
        let ptr := result in
        if Z.land ptr (alignment - 1) =? 0 then mret (ptr, size)
        else
          let extra := alignment - Z.land ptr (alignment - 1) in
          r2 ← syscall (sbrk extra);
          if r2 =? u64 (ptr + size) then mret (u64 (ptr + extra), size)
          else
            result ← syscall (sbrk (u64 (size + alignment - 1)));
            if result =? MAP_FAILED then mret (0, 0)
            else
              let ptr := result in
              let ptr := if negb (Z.land ptr (alignment - 1) =? 0)
                         then u64 (ptr + (alignment - Z.land ptr (alignment - 1))) else ptr in
              mret (ptr, size).

(** [MapAnonymousWithHint]: the address, if it succeeds. *)
Definition MapAnonymousWithHint (length hint : Z) : MS (option Z) :=
  addr ← syscall (mmap hint length);
  mret (if addr =? MAP_FAILED then None else Some addr).

Definition MapAnonymous (length : Z) : MS (option Z) := MapAnonymousWithHint length 0.

Definition sys_munmap (addr length : Z) : MS unit :=
  syscall (fun o => (tt, munmap addr length o)).

(** The attempt of [MmapSysAllocator::Alloc] to continue the previous mapping. *)
Definition mmap_hint (size alignment : Z) : MS (option Z) :=
  s ← get_state;
  let hint := s.(hint_) in
  if negb (hint =? 0) && (u64 (hint + size) >? size) && (Z.land hint (alignment - 1) =? 0) then
    r ← MapAnonymousWithHint size hint;
    match r with
    | Some addr =>
        if negb (Z.land addr (alignment - 1) =? 0) then
          sys_munmap addr size ;;
          mret None
        else
          modify (upd_hint (u64 (addr + size))) ;;
          mret (Some addr)
    | None => mret None
    end
  else mret None.

Definition mmap_aligned (size alignment : Z) : MS Z :=
  s ← get_state;
  let extra := if alignment >? s.(pagesize) then alignment - s.(pagesize) else 0 in
  r ← MapAnonymous (u64 (size + extra));
  match r with
  | None => mret 0
  | Some ptr =>
      let adjust := if negb (Z.land ptr (alignment - 1) =? 0)
                    then alignment - Z.land ptr (alignment - 1) else 0 in
      (if adjust >? 0 then sys_munmap ptr adjust else skip) ;;
      (if adjust <? extra then sys_munmap (u64 (ptr + adjust + size)) (extra - adjust) else skip) ;;
      let ptr := u64 (ptr + adjust) in
      modify (upd_hint (u64 (ptr + size))) ;;
      mret ptr
  end.

Definition MmapSysAllocator_Alloc (size alignment : Z) : MS (Z * Z) :=
  s ← get_state;
  if s.(FLAGS_malloc_skip_mmap) then mret (0, 0)
  else
    (if s.(pagesize) =? 0 then modify (upd_pagesize getpagesize) else skip) ;;
    s ← get_state;
    let alignment := if alignment <? s.(pagesize) then s.(pagesize) else alignment in
    let aligned_size := u64 (u64 (size + alignment - 1) / alignment * alignment) in
    if aligned_size <? size then mret (0, 0)
    else
      let size := aligned_size in
      r ← mmap_hint size alignment;
      match r with
      | Some addr => mret (addr, size)
      | None => ptr ← mmap_aligned size alignment; mret (ptr, size)
      end.

(** [DefaultSysAllocator]: the two children in the order [InitSystemAllocators]
    installs them. *)
Definition child_Alloc (i : bool) (size alignment : Z) : MS (Z * Z) :=
  if xorb i kDebugMode then MmapSysAllocator_Alloc size alignment
  else SbrkSysAllocator_Alloc size alignment.

Definition get_failed (i : bool) (s : SysAlloc) : bool := if i then s.(failed_).2 else s.(failed_).1.
Definition set_failed (i : bool) (s : SysAlloc) : SysAlloc :=
  upd_failed (if i then (s.(failed_).1, true) else (true, s.(failed_).2)) s.

(** One iteration: [Some] when the child returned memory. *)
Definition try_child (i : bool) (size alignment : Z) : MS (option (Z * Z)) :=
  s ← get_state;
  if negb (get_failed i s) then
    '(result, actual) ← child_Alloc i size alignment;
    if negb (result =? 0) then mret (Some (result, actual))
    else modify (set_failed i) ;; mret None
  else mret None.

Definition DefaultSysAllocator_Alloc (size alignment : Z) : MS (Z * Z) :=
  r ← try_child false size alignment;
  match r with
  | Some r => mret r
  | None =>
      r ← try_child true size alignment;
      match r with
      | Some r => mret r
      | None =>
          modify (upd_failed (false, false)) ;;
          mret (0, 0)
      end
  end.

(** The constructors: both children installed, none failed. *)
Definition InitSystemAllocators : MS unit :=
  modify (upd_hint 0) ;;
  modify (upd_failed (false, false)).

Definition SystemAlloc (size alignment : Z) : MS (Z * Z) :=
  if u64 (size + alignment) <? size then mret (0, 0)
  else
    s ← get_state;
    (if negb s.(system_alloc_inited) then
       InitSystemAllocators ;;
       modify (upd_inited true)
     else skip) ;;
    let alignment := if alignment <? sizeof_MemoryAligner then sizeof_MemoryAligner else alignment in
    '(result, actual_size) ← DefaultSysAllocator_Alloc size alignment;
    if negb (result =? 0) then
      (if CheckAddressBits (u64 (result + actual_size - 1)) then skip else crash) ;;
      modify (fun s => upd_taken (u64 (s.(SystemTaken) + actual_size)) s) ;;
      mret (result, actual_size)
    else mret (0, 0).

(** ** Releasing *)

(** The [do] loop: fuel is the number of calls. *)
Fixpoint release_calls (fuel : nat) (new_start len : Z) : MS bool :=
  match fuel with
  | O => no_fuel
  | S fuel =>
      '(ret, errno) ← syscall (madvise new_start len);
      let result := negb (ret =? -1) in
      let retry := errno =? EAGAIN in
      if negb result && retry then release_calls fuel new_start len else mret result
  end.

Definition SystemRelease (start length : Z) : MS bool :=
  s ← get_state;
  if s.(FLAGS_malloc_disable_memory_release) then mret false
  else
    (if s.(pagesize) =? 0 then modify (upd_pagesize getpagesize) else skip) ;;
    s ← get_state;
    let pagemask := s.(pagesize) - 1 in
    let end_ := u64 (start + length) in
    let new_start := Z.land (u64 (start + s.(pagesize) - 1)) (u64 (Z.lnot pagemask)) in
    let new_end := Z.land end_ (u64 (Z.lnot pagemask)) in
    if new_end >? new_start then release_calls (S madvise_retries) new_start (new_end - new_start)
    else mret false.

(** Without [FREE_MMAP_PROT_NONE] there is nothing to do. *)
Definition SystemCommit (start length : Z) : MS unit := skip.

(** ** What the allocators return *)

Context {OSL : OSLaws}.

Implicit Types (s : SysAlloc).

Definition sa_ok s : Prop := os_ok s.(os) /\ (s.(pagesize) = 0 \/ s.(pagesize) = getpagesize).

(** [s'] owns at least what [s] does, and has counted as much. *)
Record sa_grows s s' : Prop := {
  sg_ok : sa_ok s';
  sg_used a : used s.(os) a -> used s'.(os) a;
  sg_taken : s'.(SystemTaken) = s.(SystemTaken)
}.

(** The region [r] (pointer, size) of at least [size] fresh bytes, aligned. *)
Definition fresh_region (size alignment : Z) s (r : Z * Z) s' : Prop :=
  0 < r.1 /\ r.1 mod alignment = 0 /\ size <= r.2 /\ r.1 + r.2 <= 2 ^ kAddressBits /\
  forall a, r.1 <= a < r.1 + r.2 -> ~ used s.(os) a /\ used s'.(os) a.

Definition alloc_post (size alignment : Z) s (r : Z * Z) s' : Prop :=
  sa_grows s s' /\ (r.1 = 0 \/ fresh_region size alignment s r s').

Lemma sa_grows_refl s : sa_ok s -> sa_grows s s.
Proof. done. Qed.

Lemma sa_grows_trans s1 s2 s3 : sa_grows s1 s2 -> sa_grows s2 s3 -> sa_grows s1 s3.
Proof. intros [_ H1 T1] [Hok H2 T2]. split; auto. congruence. Qed.

Lemma wp_sbrk0 s Q :
  sa_ok s -> (forall b s', sa_grows s s' -> (forall a, used s'.(os) a <-> used s.(os) a) ->
    s' = upd_os s'.(os) s -> 0 <= b < 2 ^ 64 -> Q b s') ->
  wp (syscall (sbrk 0)) Q s.
Proof.
  intros [Hok Hps] HQ. destruct (sbrk_0 s.(os) Hok) as (b & o' & Heq & Hok' & Hb & Hu).
  unfold wp, syscall. rewrite Heq. apply HQ; [|done..]. split; [done| |done]. intros a Ha. by apply Hu.
Qed.

Lemma wp_sbrk n s Q :
  sa_ok s -> 0 < n < 2 ^ 64 ->
  (forall r s', sa_grows s s' -> obtained n s.(os) r s'.(os) -> s' = upd_os s'.(os) s -> Q r s') ->
  wp (syscall (sbrk n)) Q s.
Proof.
  intros [Hok Hps] Hn HQ. destruct (sbrk_ok n s.(os) Hok Hn) as (r & o' & Heq & Hok' & Hob).
  unfold wp, syscall. rewrite Heq. apply HQ; [|done..]. split; [done| |done].
  intros a Ha. destruct Hob as [[_ Hu]|(_ & _ & _ & Hu)]; apply Hu; auto.
Qed.

Lemma land_align x k : 0 <= k -> Z.land x (2 ^ k - 1) = x mod 2 ^ k.
Proof. intros Hk. rewrite <- Z.land_ones by done. by rewrite Z.ones_equiv, Z.sub_1_r. Qed.

(** Rounding a size up to the alignment: it does not overflow where the caller
    checked, and else the result is smaller than the size. *)
Lemma round_up size k : 0 < size < 2 ^ 64 -> 0 <= k < 64 ->
  let r := u64 (u64 (size + 2 ^ k - 1) / 2 ^ k * 2 ^ k) in
  (r < size \/ size <= r < size + 2 ^ k /\ r mod 2 ^ k = 0 /\ r + 2 ^ k <= 2 ^ 64) /\
  (size + 2 ^ k <= 2 ^ 64 -> size <= r).
Proof.
  intros Hs Hk r. assert (0 < 2 ^ k <= 2 ^ 63) by (split; [apply Z.pow_pos_nonneg|apply Z.pow_le_mono_r]; lia).
  assert (H64 : 2 ^ 64 = 2 ^ (64 - k) * 2 ^ k) by (rewrite <- Z.pow_add_r by lia; f_equal; lia).
  set (b := 2 ^ k) in *. set (c := 2 ^ (64 - k)) in *.
  pose proof (Z.div_mod (u64 (size + b - 1)) b ltac:(lia)).
  pose proof (Z.mod_pos_bound (u64 (size + b - 1)) b ltac:(lia)).
  pose proof (u64_range (size + b - 1)).
  assert (Hr : r = u64 (size + b - 1) / b * b).
  { unfold r. apply u64_small. split; [apply Z.mul_nonneg_nonneg; [apply Z.div_pos|]; lia|lia]. }
  clearbody r.
  destruct (Z.lt_ge_cases (size + b - 1) (2 ^ 64)) as [Hlt|Hge].
  - rewrite (u64_small (size + b - 1)) in * by lia. split; [right|]; [|lia].
    split_and!; [lia..|rewrite Hr; apply Z.mod_mul; lia|].
    assert ((size + b - 1) / b < c) by (apply Z.div_lt_upper_bound; lia). rewrite Hr. nia.
  - assert (Hu : u64 (size + b - 1) = size + b - 1 - 2 ^ 64).
    { rewrite <- (u64_small (size + b - 1 - 2 ^ 64)) by lia. unfold u64.
      replace (size + b - 1) with (size + b - 1 - 2 ^ 64 + 1 * 2 ^ 64) at 1 by lia. apply Z_mod_plus_full. }
    rewrite Hu in *. split; [left|]; lia.
Qed.

(** A region inside one just obtained is fresh. *)
Lemma obtained_fresh n s0 s r s' size alignment p :
  sa_grows s0 s -> sa_grows s s' -> obtained n s.(os) r s'.(os) -> r <> MAP_FAILED ->
  r <= p -> p + size <= r + n -> p mod alignment = 0 ->
  fresh_region size alignment s0 (p, size) s'.
Proof.
  intros [_ H0 _] Hg [[? _]|(Hr & Hlim & Hnew & Hu)] Hne Hp Hend Hal; [done|].
  split_and!; simpl; try lia. intros a Ha. split.
  - intros Hus. apply (Hnew a); [lia|auto].
  - apply Hu. right. lia.
Qed.

Lemma mod_up x b : 0 < b -> (x + (b - x mod b)) mod b = 0.
Proof.
  intros Hb. pose proof (Z.div_mod x b ltac:(lia)).
  replace (x + (b - x mod b)) with ((x / b + 1) * b) by lia. apply Z.mod_mul. lia.
Qed.

Lemma wp_SbrkSysAllocator_Alloc size k s :
  sa_ok s -> 0 < size -> 0 <= k < 63 -> size + 2 ^ k <= 2 ^ 64 ->
  wp (SbrkSysAllocator_Alloc size (2 ^ k)) (alloc_post size (2 ^ k) s) s.
Proof.
  intros Hok Hs Hk Hov. assert (Hb : 0 < 2 ^ k <= 2 ^ 62) by (split; [apply Z.pow_pos_nonneg|apply Z.pow_le_mono_r]; lia).
  assert (Hnull : forall s', sa_grows s s' -> alloc_post size (2 ^ k) s (0, 0) s') by (intros s' ?; split; [done|by left]).
  unfold SbrkSysAllocator_Alloc. apply wp_bind, wp_get.
  destruct s.(FLAGS_malloc_skip_sbrk); [by apply wp_ret, Hnull|].
  destruct (Z.ltb_spec (i64 (u64 (size + 2 ^ k))) 0) as [|Hpos]; [by apply wp_ret, Hnull|].
  destruct (round_up size k ltac:(lia) ltac:(lia)) as [_ Hup].
  destruct (round_up size k ltac:(lia) ltac:(lia)) as [[?|(Hr1 & Hrm & Hr2)] _]; [lia|]. clear Hup.
  set (sz := u64 (u64 (size + 2 ^ k - 1) / 2 ^ k * 2 ^ k)) in *. clearbody sz. cbv zeta.
  apply wp_bind, wp_sbrk0; [done|]. intros brk s1 Hg1 _ _ _.
  destruct (Z.ltb_spec (u64 (brk + sz)) sz) as [|_]; [by apply wp_ret, Hnull|].
  apply wp_bind, wp_sbrk; [apply Hg1|lia|]. intros r s2 Hg2 Hob2 _.
  assert (Hg02 : sa_grows s s2) by (by eapply sa_grows_trans).
  destruct (Z.eqb_spec r MAP_FAILED) as [|Hne]; [by apply wp_ret, Hnull|].
  pose proof Hob2 as [[? _]|(Hr0 & Hlim & _ & Hu2)]; [done|]. change (2 ^ kAddressBits) with (2 ^ 48) in Hlim.
  rewrite !land_align by lia. pose proof (Z.mod_pos_bound r (2 ^ k) ltac:(lia)) as Hm.
  assert (Hsz : forall p s', fresh_region sz (2 ^ k) s (p, sz) s' -> fresh_region size (2 ^ k) s (p, sz) s').
  { intros p s' (? & ? & ? & ? & ?). split_and!; simpl in *; try done; lia. }
  destruct (Z.eqb_spec (r mod 2 ^ k) 0) as [H0|Hn0].
  { apply wp_ret. split; [done|right]. apply Hsz. eapply (obtained_fresh sz s s1 r s2); try done; lia. }
  apply wp_bind, wp_sbrk; [apply Hg2|lia|]. intros r2 s3 Hg3 Hob3 _.
  assert (Hg03 : sa_grows s s3) by (by eapply sa_grows_trans).
  rewrite (u64_small (r + sz)) by lia. destruct (Z.eqb_spec r2 (r + sz)) as [->|Hne2].
  { apply wp_ret. split; [done|right]. apply Hsz.
    destruct Hob3 as [[Hf _]|(_ & Hlim3 & Hnew3 & Hu3)]; [unfold MAP_FAILED in Hf; lia|].
    change (2 ^ kAddressBits) with (2 ^ 48) in Hlim3.
    rewrite u64_small by lia. split_and!; simpl; unfold kAddressBits; try lia; [apply mod_up; lia|]. intros a Ha. split.
    - intros Hus. destruct Hg1 as [_ Hg1 _]. destruct (Z.lt_ge_cases a (r + sz)).
      + destruct Hob2 as [[? _]|(_ & _ & Hnew & _)]; [done|]. apply (Hnew a); [lia|auto].
      + apply (Hnew3 a); [lia|]. apply Hu2. auto.
    - apply Hu3. destruct (Z.lt_ge_cases a (r + sz)); [left; apply Hu2|]; right; lia. }
  rewrite u64_small by lia. apply wp_bind, wp_sbrk; [apply Hg3|lia|]. intros r3 s4 Hg4 Hob4 _.
  assert (Hg04 : sa_grows s s4) by (by eapply sa_grows_trans).
  destruct (Z.eqb_spec r3 MAP_FAILED) as [|Hne4]; [by apply wp_ret, Hnull|].
  pose proof Hob4 as [[? _]|(Hr40 & Hlim4 & _)]; [done|]. change (2 ^ kAddressBits) with (2 ^ 48) in Hlim4.
  rewrite !land_align by lia. pose proof (Z.mod_pos_bound r3 (2 ^ k) ltac:(lia)) as Hm4.
  apply wp_ret. split; [done|right]. apply Hsz.
  destruct (Z.eqb_spec (r3 mod 2 ^ k) 0) as [H0|Hn04]; cbn [negb].
  - eapply (obtained_fresh _ s s3 r3 s4); try done; lia.
  - rewrite u64_small by lia. eapply (obtained_fresh _ s s3 r3 s4); try done; try lia. apply mod_up. lia.
Qed.

(** ** [mmap] *)

Lemma mod_pow_le x p a : 0 <= p <= a -> x mod 2 ^ a = 0 -> x mod 2 ^ p = 0.
Proof.
  intros Hp Hx. assert (0 < 2 ^ p) by (apply Z.pow_pos_nonneg; lia).
  assert (0 < 2 ^ a) by (apply Z.pow_pos_nonneg; lia).
  apply Z.mod_divide in Hx as [c ->]; [|lia]. replace a with (a - p + p) by lia.
  rewrite Z.pow_add_r, Z.mul_assoc by lia. apply Z.mod_mul. lia.
Qed.

Lemma mod_sum x y b : 0 < b -> x mod b = 0 -> y mod b = 0 -> (x + y) mod b = 0 /\ (x - y) mod b = 0.
Proof. intros Hb Hx Hy. rewrite Z.add_mod, Zminus_mod, Hx, Hy by lia. by rewrite Z.mod_0_l by lia. Qed.

(** The distance from a page to the next multiple of a larger power of two. *)
Lemma adjust_bound x p a : 0 <= p <= a -> x mod 2 ^ p = 0 -> x mod 2 ^ a <> 0 ->
  0 < 2 ^ a - x mod 2 ^ a <= 2 ^ a - 2 ^ p /\ (2 ^ a - x mod 2 ^ a) mod 2 ^ p = 0.
Proof.
  intros Hp Hx Hne. assert (Hpp : 0 < 2 ^ p) by (apply Z.pow_pos_nonneg; lia).
  assert (0 < 2 ^ a) by (apply Z.pow_pos_nonneg; lia).
  pose proof (Z.mod_pos_bound x (2 ^ a) ltac:(lia)) as Hm.
  assert (Hap : 2 ^ a mod 2 ^ p = 0) by (apply (mod_pow_le _ p a); [lia|apply Z.mod_same; lia]).
  assert (Hxp : (x mod 2 ^ a) mod 2 ^ p = 0).
  { rewrite (Z.mod_eq x (2 ^ a)) by lia. apply mod_sum; [done..|].
    rewrite Z.mul_comm. rewrite <- Z.mul_mod_idemp_r, Hap by lia. by rewrite Z.mul_0_r, Z.mod_0_l by lia. }
  split; [|by apply mod_sum].
  apply Z.mod_divide in Hxp as [c Hc]; [|lia]. rewrite Hc in *.
  assert (0 < c) by (apply (Z.mul_lt_mono_pos_r (2 ^ p)); lia).
  pose proof (Z.mul_le_mono_nonneg_r 1 c (2 ^ p)). lia.
Qed.

(** The state once the page size is known. *)
Definition sa_paged s : Prop := sa_ok s /\ s.(pagesize) = getpagesize.

Lemma sa_paged_os s s' : sa_paged s -> sa_ok s' -> s' = upd_os s'.(os) s -> sa_paged s'.
Proof. intros [_ Hp] Hok Heq. split; [done|]. by rewrite Heq. Qed.

Lemma wp_mmap n hint s Q :
  sa_ok s -> 0 < n < 2 ^ 64 ->
  (forall r s', sa_grows s s' -> s' = upd_os s'.(os) s ->
    match r with
    | Some p => obtained n s.(os) p s'.(os) /\ p <> MAP_FAILED /\ p mod getpagesize = 0
    | None => True
    end -> Q r s') ->
  wp (MapAnonymousWithHint n hint) Q s.
Proof.
  intros [Hok Hps] Hn HQ. destruct (mmap_ok hint n s.(os) Hok Hn) as (r & o' & Heq & Hok' & Hob & Hal).
  unfold MapAnonymousWithHint. apply wp_bind. unfold wp at 1, syscall. rewrite Heq. apply wp_ret, HQ; [|done|].
  - split; [done| |done]. intros a Ha. destruct Hob as [[_ Hu]|(_ & _ & _ & Hu)]; apply Hu; auto.
  - destruct (Z.eqb_spec r MAP_FAILED); auto.
Qed.

Lemma wp_munmap p n s Q :
  sa_ok s -> p mod getpagesize = 0 -> n mod getpagesize = 0 ->
  (forall s', sa_ok s' -> s' = upd_os s'.(os) s ->
     (forall a, used s'.(os) a <-> used s.(os) a /\ ~ p <= a < p + n) -> Q tt s') ->
  wp (sys_munmap p n) Q s.
Proof.
  intros [Hok Hps] Hp Hn HQ. destruct (munmap_ok p n s.(os) Hok Hp Hn) as [Hok' Hu].
  unfold sys_munmap, wp, syscall. by apply HQ.
Qed.

Lemma wp_mmap_hint size p a s :
  sa_paged s -> getpagesize = 2 ^ p -> 0 <= p <= a -> 0 < size < 2 ^ 64 -> size mod 2 ^ a = 0 ->
  wp (mmap_hint size (2 ^ a)) (fun r s' => sa_paged s' /\ sa_grows s s' /\
    match r with Some addr => fresh_region size (2 ^ a) s (addr, size) s' | None => True end) s.
Proof.
  intros Hpd Hpp Hp Hs Hsa. pose proof Hpd as [Hok Hpg]. unfold mmap_hint. apply wp_bind, wp_get. cbv zeta.
  case_if; [|by apply wp_ret]. apply wp_bind, wp_mmap; [done..|].
  intros [addr|] s1 Hg1 Heq1 Hr; 
    [|by apply wp_ret; split_and!; [eapply sa_paged_os; [done|apply Hg1|done]|..]].
  assert (Hpd1 : sa_paged s1) by (eapply sa_paged_os; [done|apply Hg1|done]).
  destruct Hr as (Hob & Hne & Hal). rewrite land_align by lia.
  destruct (Z.eqb_spec (addr mod 2 ^ a) 0) as [H0|Hn0]; cbn [negb].
  - apply wp_bind, wp_modify, wp_ret. split_and!; [done|by destruct Hg1; split|].
    apply (obtained_fresh size s s addr s1); try done; lia.
  - apply wp_bind, wp_munmap; [apply Hg1|done|rewrite Hpp; by apply (mod_pow_le _ p a)|].
    intros s2 Hok2 Heq2 Hu2. apply wp_ret. split_and!; [|split; [done| |by rewrite Heq2, Heq1]|done].
    + by eapply sa_paged_os.
    + intros b Hb. apply Hu2. destruct Hob as [[? _]|(_ & _ & Hnew & Hu1)]; [done|].
      split; [apply Hu1; auto|]. intros Hin. by apply (Hnew b).
Qed.

Lemma wp_mmap_aligned size p a s :
  sa_paged s -> getpagesize = 2 ^ p -> 0 <= p <= a -> 0 < size -> size + 2 ^ a <= 2 ^ 64 -> size mod 2 ^ a = 0 ->
  wp (mmap_aligned size (2 ^ a)) (fun r s' => sa_grows s s' /\
    (r = 0 \/ fresh_region size (2 ^ a) s (r, size) s')) s.
Proof.
  intros Hpd Hpp Hp Hs Hov Hsa. pose proof Hpd as [Hok Hpg]. unfold mmap_aligned. apply wp_bind, wp_get.
  assert (Hle : 2 ^ p <= 2 ^ a) by (apply Z.pow_le_mono_r; lia).
  assert (Hpos : 0 < 2 ^ p) by (apply Z.pow_pos_nonneg; lia).
  cbv zeta. rewrite Hpg, Hpp, Z.gtb_ltb. set (extra := if 2 ^ p <? 2 ^ a then 2 ^ a - 2 ^ p else 0).
  assert (Hex : extra = 2 ^ a - 2 ^ p) by (unfold extra; destruct (Z.ltb_spec (2 ^ p) (2 ^ a)); lia).
  clearbody extra. rewrite u64_small by lia. apply wp_bind, wp_mmap; [done|lia|].
  intros [ptr|] s1 Hg1 Heq1 Hr; [|by apply wp_ret; split; [done|left]].
  destruct Hr as (Hob & Hne & Hal). rewrite Hpp in Hal. pose proof Hob as [[? _]|(Hp0 & Hlim & Hnew & Hu1)]; [done|].
  change (2 ^ kAddressBits) with (2 ^ 48) in Hlim. rewrite land_align by lia.
  set (adjust := if negb (ptr mod 2 ^ a =? 0) then 2 ^ a - ptr mod 2 ^ a else 0).
  assert (Hadj : 0 <= adjust <= extra /\ adjust mod 2 ^ p = 0 /\ (ptr + adjust) mod 2 ^ a = 0).
  { unfold adjust. destruct (Z.eqb_spec (ptr mod 2 ^ a) 0) as [H0|Hn0]; cbn [negb].
    - rewrite Z.add_0_r, Z.mod_0_l by lia. split_and!; lia.
    - destruct (adjust_bound ptr p a) as [? ?]; [done..|]. split_and!; [lia..|done|apply mod_up; lia]. }
  clearbody adjust. destruct Hadj as (Hadj & Hadjp & Hadja).
  assert (Hsp : size mod 2 ^ p = 0) by (by apply (mod_pow_le _ p a)).
  assert (Hap : (2 ^ a) mod 2 ^ p = 0) by (apply (mod_pow_le _ p a); [lia|apply Z.mod_same; lia]).
  assert (Hexp : extra mod 2 ^ p = 0) by (rewrite Hex; apply mod_sum; [done..|apply Z.mod_same; lia]).
  apply wp_bind. apply wp_mono with (fun _ s2 => sa_ok s2 /\ s2.(SystemTaken) = s.(SystemTaken) /\
    forall b, used s2.(os) b <-> used s.(os) b \/ ptr + adjust <= b < ptr + (size + extra)).
  { rewrite Z.gtb_ltb. destruct (Z.ltb_spec 0 adjust).
    - apply wp_munmap; [apply Hg1|by rewrite Hpp..|]. intros s2 Hok2 Heq2 Hu2. split_and!; [done|by rewrite Heq2, Heq1|].
      intros b. rewrite Hu2, Hu1. split; [intros [[?|?] ?]; [by left|right; lia]|].
      intros [Hb|?]; [|split; [right|]; lia]. split; [by left|]. intros Hin. apply (Hnew b); [lia|done].
    - apply wp_ret. split_and!; [apply Hg1..|]. intros b. rewrite Hu1. by replace (ptr + adjust) with ptr by lia. }
  intros _ s2 (Hok2 & Ht2 & Hu2). apply wp_bind. rewrite (u64_small (ptr + adjust + size)) by lia.
  apply wp_mono with (fun _ s3 => sa_ok s3 /\ s3.(SystemTaken) = s.(SystemTaken) /\
    forall b, used s3.(os) b <-> used s.(os) b \/ ptr + adjust <= b < ptr + adjust + size).
  { destruct (Z.ltb_spec adjust extra).
    - apply wp_munmap; [done| |rewrite Hpp; by apply mod_sum|].
      { rewrite Hpp. apply mod_sum; [done| |done]. by apply mod_sum. }
      intros s3 Hok3 Heq3 Hu3. split_and!; [done|by rewrite Heq3|]. intros b. rewrite Hu3, Hu2.
      split; [intros [[?|?] ?]; [by left|right; lia]|].
      intros [Hb|?]; [|split; [right|]; lia]. split; [by left|]. intros Hin. apply (Hnew b); [lia|done].
    - apply wp_ret. split_and!; [done..|]. intros b. rewrite Hu2. by replace (ptr + (size + extra)) with (ptr + adjust + size) by lia. }
  intros _ s3 (Hok3 & Ht3 & Hu3). rewrite (u64_small (ptr + adjust)) by lia.
  apply wp_bind, wp_modify, wp_ret. split; [split; [done| |done]|right].
  - intros b Hb. apply Hu3. by left.
  - split_and!; simpl; unfold kAddressBits; try lia; try done. intros b Hb. split; [apply Hnew; lia|].
    apply Hu3. by right.
Qed.

Lemma pow_max k p : 0 <= k -> 0 <= p -> (if 2 ^ k <? 2 ^ p then 2 ^ p else 2 ^ k) = 2 ^ Z.max k p.
Proof.
  intros Hk Hp. destruct (Z.ltb_spec (2 ^ k) (2 ^ p)) as [Hlt|Hge].
  - apply Z.pow_lt_mono_r_iff in Hlt; [|lia..]. f_equal. lia.
  - apply Z.pow_le_mono_r_iff in Hge; [|lia..]. f_equal. lia.
Qed.

Lemma fresh_region_weaken size size' a k s r s' :
  size <= size' -> 0 <= k <= a -> fresh_region size' (2 ^ a) s r s' -> fresh_region size (2 ^ k) s r s'.
Proof.
  intros Hs Hk (? & ? & ? & ? & ?). split_and!; try done; [|lia]. by apply (mod_pow_le _ k a).
Qed.

Lemma wp_MmapSysAllocator_Alloc size k s :
  sa_ok s -> 0 < size < 2 ^ 64 -> 0 <= k < 63 ->
  wp (MmapSysAllocator_Alloc size (2 ^ k)) (alloc_post size (2 ^ k) s) s.
Proof.
  intros Hok Hs Hk. unfold MmapSysAllocator_Alloc. apply wp_bind, wp_get.
  destruct s.(FLAGS_malloc_skip_mmap); [apply wp_ret; split; [done|by left]|].
  destruct getpagesize_pow as (p & Hp & Hpp). assert (0 < 2 ^ p) by (apply Z.pow_pos_nonneg; lia).
  apply wp_bind. apply wp_mono with (fun _ s1 => sa_paged s1 /\ s1.(os) = s.(os) /\ s1.(SystemTaken) = s.(SystemTaken)).
  { destruct (Z.eqb_spec s.(pagesize) 0) as [H0|Hne].
    - apply wp_modify. split_and!; [|done..]. split; [|done]. split; [apply Hok|by right].
    - apply wp_ret. split_and!; [|done..]. split; [done|]. by destruct Hok as [_ [?|?]]. }
  intros _ s1 (Hpd & Hos & Ht1). apply wp_bind, wp_get. cbv zeta.
  rewrite (proj2 Hpd), Hpp, pow_max by lia. set (a := Z.max k p).
  assert (Hg : forall s', sa_grows s1 s' -> sa_grows s s') by (intros s' [? Hu ?]; split; [done|by rewrite <- Hos|congruence]).
  assert (Hfr : forall r s' size', size <= size' -> fresh_region size' (2 ^ a) s1 r s' -> fresh_region size (2 ^ k) s r s').
  { intros r s' size' Hle Hf. apply (fresh_region_weaken size size' a k); [done| |].
    - unfold a. lia.
    - destruct Hf as (? & ? & ? & ? & Hf). split_and!; try done. by rewrite <- Hos. }
  destruct (round_up size a Hs ltac:(lia)) as [Hround _].
  set (sz := u64 (u64 (size + 2 ^ a - 1) / 2 ^ a * 2 ^ a)) in *. clearbody sz.
  destruct (Z.ltb_spec sz size) as [|Hge]; [apply wp_ret; split; [apply Hg, sa_grows_refl, Hpd|by left]|].
  destruct Hround as [?|(Hr1 & Hrm & Hr2)]; [lia|].
  apply wp_bind. eapply wp_mono; [apply (wp_mmap_hint sz p a s1); try done; lia|].
  intros [addr|] s2 (Hpd2 & Hg2 & Hr).
  - apply wp_ret. split; [by apply Hg|right]. by eapply Hfr.
  - apply wp_bind. eapply wp_mono; [apply (wp_mmap_aligned sz p a s2); try done; lia|].
    intros r s3 (Hg3 & Hr3). apply wp_ret. split; [apply Hg; by eapply sa_grows_trans|].
    destruct Hr3 as [->|Hr3]; [by left|right]. eapply Hfr; [exact Hge|].
    destruct Hr3 as (? & ? & ? & ? & Hf). split_and!; try done. intros b Hb. destruct (Hf b Hb) as [Hn Hy].
    split; [|done]. intros Hus. by apply Hn, (sg_used _ _ Hg2).
Qed.

(** ** The default allocator and [TCMalloc_SystemAlloc] *)

Lemma sa_grows_failed s s' v : sa_grows s s' -> sa_grows s (upd_failed v s').
Proof. by intros []. Qed.

Lemma wp_try_child i size k s0 s :
  sa_grows s0 s -> 0 < size -> 0 <= k < 63 -> size + 2 ^ k <= 2 ^ 64 ->
  wp (try_child i size (2 ^ k)) (fun r s' => sa_grows s0 s' /\
    match r with Some r => fresh_region size (2 ^ k) s0 r s' | None => True end) s.
Proof.
  intros Hg Hs Hk Hov. assert (0 < 2 ^ k) by (apply Z.pow_pos_nonneg; lia).
  unfold try_child. apply wp_bind, wp_get. case_if; [|by apply wp_ret].
  apply wp_bind. apply wp_mono with (alloc_post size (2 ^ k) s).
  { unfold child_Alloc. case_if; [apply wp_MmapSysAllocator_Alloc|apply wp_SbrkSysAllocator_Alloc]; try lia; apply Hg. }
  intros [ptr actual] s1 [Hg1 Hr]. assert (Hg01 : sa_grows s0 s1) by (by eapply sa_grows_trans).
  destruct (Z.eqb_spec ptr 0) as [->|Hne]; cbn [negb].
  - apply wp_bind, wp_modify, wp_ret. split; [by apply sa_grows_failed|done].
  - apply wp_ret. split; [done|]. destruct Hr as [?|(? & ? & ? & ? & Hf)]; [done|].
    split_and!; try done. intros b Hb. destruct (Hf b Hb) as [Hn Hy]. split; [|done].
    intros Hus. by apply Hn, (sg_used _ _ Hg).
Qed.

Lemma wp_DefaultSysAllocator_Alloc size k s :
  sa_ok s -> 0 < size -> 0 <= k < 63 -> size + 2 ^ k <= 2 ^ 64 ->
  wp (DefaultSysAllocator_Alloc size (2 ^ k)) (alloc_post size (2 ^ k) s) s.
Proof.
  intros Hok Hs Hk Hov. unfold DefaultSysAllocator_Alloc.
  apply wp_bind. eapply wp_mono; [by apply (wp_try_child false size k s s)|].
  intros [r|] s1 (Hg1 & Hr); [by apply wp_ret; split; [|right]|].
  apply wp_bind. eapply wp_mono; [by apply (wp_try_child true size k s s1)|].
  intros [r|] s2 (Hg2 & Hr2); [by apply wp_ret; split; [|right]|].
  apply wp_bind, wp_modify, wp_ret. split; [by apply sa_grows_failed|by left].
Qed.

Lemma CheckAddressBits_ok x : 0 <= x < 2 ^ kAddressBits -> CheckAddressBits x = true.
Proof.
  intros Hx. unfold CheckAddressBits. rewrite Z.shiftr_div_pow2 by done. by rewrite Z.div_small.
Qed.

(** The alignment the allocator works with. *)
Definition min_aligned (alignment : Z) : Z :=
  if alignment <? sizeof_MemoryAligner then sizeof_MemoryAligner else alignment.

Definition system_post (size alignment : Z) s (r : Z * Z) s' : Prop :=
  sa_ok s' /\ (forall a, used s.(os) a -> used s'.(os) a) /\
  (r.1 = 0 /\ s'.(SystemTaken) = s.(SystemTaken) \/
   fresh_region size (min_aligned alignment) s r s' /\
   s'.(SystemTaken) = u64 (s.(SystemTaken) + r.2)).

Lemma wp_SystemAlloc size alignment k s :
  sa_ok s -> 0 < size < 2 ^ 64 -> 0 <= alignment -> min_aligned alignment = 2 ^ k -> 0 <= k < 63 ->
  (sizeof_MemoryAligner <= alignment \/ size + sizeof_MemoryAligner <= 2 ^ 64) ->
  wp (SystemAlloc size alignment) (system_post size alignment s) s.
Proof.
  intros Hok Hs Ha Hmin Hk Hcase. unfold SystemAlloc.
  assert (Hb : 2 ^ k <= 2 ^ 62) by (apply Z.pow_le_mono_r; lia).
  assert (Hmax : alignment <= 2 ^ k) by (rewrite <- Hmin; unfold min_aligned; case_if; propify; lia).
  destruct (Z.ltb_spec (u64 (size + alignment)) size) as [|Hchk].
  { apply wp_ret. split_and!; [done..|by left]. }
  assert (Hov : size + 2 ^ k <= 2 ^ 64).
  { unfold min_aligned in Hmin. destruct (Z.ltb_spec alignment sizeof_MemoryAligner); [lia|].
    destruct (Z.lt_ge_cases (size + alignment) (2 ^ 64)); [lia|].
    assert (u64 (size + alignment) = size + alignment - 2 ^ 64); [|lia].
    rewrite <- (u64_small (size + alignment - 2 ^ 64)) by lia. unfold u64.
    replace (size + alignment) with (size + alignment - 2 ^ 64 + 1 * 2 ^ 64) at 1 by lia. apply Z_mod_plus_full. }
  apply wp_bind, wp_get. apply wp_bind.
  apply wp_mono with (fun _ s1 => sa_grows s s1 /\ s1.(os) = s.(os)).
  { case_if; [|by apply wp_ret]. unfold InitSystemAllocators. apply wp_bind, wp_bind, wp_modify, wp_modify, wp_modify.
    split; [|done]. split; [apply Hok|done|done]. }
  intros _ s1 (Hg1 & Hos1). cbv zeta. fold (min_aligned alignment). rewrite Hmin.
  apply wp_bind. eapply wp_mono; [apply (wp_DefaultSysAllocator_Alloc size k s1); try lia; apply Hg1|].
  intros [ptr actual] s2 [Hg2 Hr]. pose proof (sa_grows_trans _ _ _ Hg1 Hg2) as [Hok2 Hu2 Ht2].
  destruct (Z.eqb_spec ptr 0) as [->|Hne]; cbn [negb].
  { apply wp_ret. split_and!; [done..|by left]. }
  simpl in Hr. destruct Hr as [?|(Hp0 & Hal & Hsz & Hlim & Hf)]; [lia|]. simpl in Hp0, Hal, Hsz, Hlim, Hf.
  pose proof Hlim as Hlim'. change (2 ^ kAddressBits) with (2 ^ 48) in Hlim'.
  rewrite u64_small, CheckAddressBits_ok by lia. apply wp_bind, wp_ret, wp_bind, wp_modify, wp_ret.
  split_and!; [done..|]. right. rewrite Hmin. split; [|simpl; by rewrite Ht2].
  split_and!; try done. simpl. by rewrite <- Hos1.
Qed.

Lemma no_oom_syscall {A} (f : Sys -> A * Sys) : no_oom (syscall f).
Proof. intros s. unfold syscall. by destruct (f s.(os)). Qed.
#[local] Hint Resolve no_oom_syscall : no_oom.

Lemma no_oom_SystemAlloc size alignment : no_oom (SystemAlloc size alignment).
Proof.
  unfold SystemAlloc, InitSystemAllocators, DefaultSysAllocator_Alloc, try_child, child_Alloc,
    SbrkSysAllocator_Alloc, MmapSysAllocator_Alloc, mmap_hint, mmap_aligned, MapAnonymous,
    MapAnonymousWithHint, sys_munmap, skip. solve_no_oom.
Qed.

(** ** [TCMalloc_SystemRelease] *)

Lemma wp_release_calls n addr len s : forall fuel s1,
  sa_grows s s1 -> (forall a, used s1.(os) a <-> used s.(os) a) -> ~ eagain fuel addr len s1.(os) -> (fuel <= n)%nat ->
  wp (release_calls fuel addr len) (fun _ s' => sa_grows s s' /\ forall a, used s'.(os) a <-> used s.(os) a) s1.
Proof.
  induction fuel as [|fuel IH]; intros s1 Hg Hu Hea Hn; [by destruct Hea|]. simpl in Hea |- *.
  destruct (madvise_ok addr len s1.(os)) as (r & e & o' & Heq & Hok' & Hu'); [apply Hg|].
  rewrite Heq in Hea. apply wp_bind. unfold wp at 1, syscall. rewrite Heq.
  assert (Hg' : sa_grows s (upd_os o' s1)).
  { destruct Hg as [[_ Hp] Hgu Ht]. split; [by split|intros a Ha; by apply Hu', Hu|done]. }
  assert (Hu2 : forall a, used o' a <-> used s.(os) a) by (intros a; by rewrite Hu', Hu).
  destruct (Z.eqb_spec r (-1)) as [->|Hr]; cbn [negb andb]; [|by apply wp_ret].
  destruct (Z.eqb_spec e EAGAIN) as [->|He]; [|by apply wp_ret].
  apply IH; [done|done| |lia]. simpl. intros Hagain. by apply Hea.
Qed.

Lemma wp_SystemRelease start len s :
  sa_ok s -> wp (SystemRelease start len) (fun _ s' => sa_grows s s' /\ forall a, used s'.(os) a <-> used s.(os) a) s.
Proof.
  intros Hok. unfold SystemRelease. apply wp_bind, wp_get. case_if; [by apply wp_ret|].
  apply wp_bind. apply wp_mono with (fun _ s1 => sa_grows s s1 /\ s1.(os) = s.(os)).
  { case_if; [|by apply wp_ret]. apply wp_modify. split; [|done]. split; [|done..]. split; [apply Hok|by right]. }
  intros _ s1 (Hg1 & Hos1). apply wp_bind, wp_get. cbv zeta.
  case_if; [|apply wp_ret; split; [done|by rewrite Hos1]].
  apply (wp_release_calls (S madvise_retries)); [done|by rewrite Hos1| |done].
  apply madvise_settles, Hg1.
Qed.

Lemma no_oom_SystemRelease start len : no_oom (SystemRelease start len).
Proof.
  assert (forall fuel a l, no_oom (release_calls fuel a l)) as Hcalls.
  { induction fuel; intros a l; simpl; solve_no_oom. }
  unfold SystemRelease, skip. solve_no_oom.
Qed.

(** C29: [TCMalloc_SystemAlloc] always returns, and returns null or a region of at least
    the requested size, aligned as asked (and to 64 bytes), inside the address space,
    all of whose bytes are fresh; nothing obtained earlier is lost, whichever of
    [sbrk] and [mmap] provides the memory and however the calls fail, and
    [TCMalloc_SystemTaken] grows by exactly the actual size.  The size and the
    alignment must not overflow together once the alignment is raised to 64. *)
Theorem SystemAlloc_region size alignment k s :
  sa_ok s -> 0 < size < 2 ^ 64 -> 0 <= alignment -> min_aligned alignment = 2 ^ k -> 0 <= k < 63 ->
  (sizeof_MemoryAligner <= alignment \/ size + sizeof_MemoryAligner <= 2 ^ 64) ->
  exists r s', SystemAlloc size alignment s = Ok (r, s') /\ system_post size alignment s r s'.
Proof.
  intros Hok Hs Ha Hmin Hk Hc.
  exact (wp_total _ _ _ (no_oom_SystemAlloc size alignment) (wp_SystemAlloc size alignment k s Hok Hs Ha Hmin Hk Hc)).
Qed.
End SystemAlloc.
