(* ===== verification/SysEnv.v ===== *)
(** What the page heap needs from its surroundings.

    [Env] lists the calls that [src/page_heap.cc] makes to other components: the
    system allocator ([src/system-alloc.cc]), [MetaDataAlloc] ([src/common.cc])
    and the object allocators of [src/page_heap_allocator.h] for spans, for the
    nodes of the sets of large spans and for stack traces.  [W] is the state
    behind those calls.  [EnvLaws] states what they promise; the page heap is
    verified against these laws, and the components named above discharge
    them. *)
From S2P Require Import Prelude SizeMap.

Section Interface.
Context (W : Type).

Class Env := {
  (** size, alignment; returns pointer and actual size *)
  TCMalloc_SystemAlloc : Z -> Z -> W -> result (Z * Z * W);
  (** address, length *)
  TCMalloc_SystemRelease : Z -> Z -> W -> result (bool * W);
  TCMalloc_SystemCommit : Z -> Z -> W -> W;
  TCMalloc_SystemTaken : W -> Z;
  MetaDataAlloc : Z -> W -> result (Z * W);
  (** [Static::span_allocator()] *)
  span_New : W -> result (Z * W);
  span_Delete : Z -> W -> W;
  (** [STLPageHeapAllocator] of the nodes of [SpanSet] *)
  setnode_New : W -> result (Z * W);
  setnode_Delete : Z -> W -> W;
  (** [Static::stacktrace_allocator()] *)
  stacktrace_New : W -> result (Z * W)
}.

(** The view of the surroundings that the laws speak about: the well-formed
    states, the span descriptors handed out, the pages obtained from the system,
    and the addresses of statically allocated objects. *)
Class EnvGhost := {
  env_ok : W -> Prop;
  live : W -> gset Z;
  taken : W -> gset Z;
  static_addr : Z -> Prop
}.

Context {E : Env} {G : EnvGhost}.

(** A call that hands out no descriptor. *)
Definition env_step (w w' : W) : Prop :=
  env_ok w' /\ live w' = live w /\ taken w ⊆ taken w'.

(** The pages of a new region, all of them fresh. *)
Definition region_fresh (w w' : W) (ptr actual : Z) : Prop :=
  0 < ptr /\ ptr mod kPageSize = 0 /\ ptr + actual <= 2 ^ kAddressBits /\
  forall k, ptr / kPageSize <= k < ptr / kPageSize + actual / kPageSize ->
    (k ∉ taken w) /\ (k ∈ taken w').

(** An object allocator call: it aborts, or returns and leaves the spans alone. *)
Definition object_New_ok (new : W -> result (Z * W)) : Prop :=
  forall w, env_ok w -> new w = OutOfMemory \/ exists p w', new w = Ok (p, w') /\ env_step w w'.

Class EnvLaws : Prop := {
  SystemAlloc_ok size w : env_ok w -> 0 < size < 2 ^ 64 ->
    exists ptr actual w', TCMalloc_SystemAlloc size kPageSize w = Ok (ptr, actual, w') /\
      env_step w w' /\ (ptr = 0 \/ size <= actual /\ region_fresh w w' ptr actual);
  SystemRelease_ok a len w : env_ok w ->
    exists b w', TCMalloc_SystemRelease a len w = Ok (b, w') /\ env_step w w';
  SystemCommit_ok a len w : env_ok w -> env_step w (TCMalloc_SystemCommit a len w);
  MetaDataAlloc_ok size w : env_ok w -> 0 < size < 2 ^ 63 ->
    exists p w', MetaDataAlloc size w = Ok (p, w') /\ env_step w w';
  span_New_ok w : env_ok w ->
    span_New w = OutOfMemory \/
    exists p w', span_New w = Ok (p, w') /\ env_ok w' /\ taken w ⊆ taken w' /\
      0 < p /\ (p ∉ live w) /\ ~ static_addr p /\ live w' = {[p]} ∪ live w;
  span_Delete_ok p w : env_ok w -> p ∈ live w ->
    env_ok (span_Delete p w) /\ taken w ⊆ taken (span_Delete p w) /\
    live (span_Delete p w) = live w ∖ {[p]};
  setnode_New_ok : object_New_ok setnode_New;
  setnode_Delete_ok p w : env_ok w -> env_step w (setnode_Delete p w);
  stacktrace_New_ok : object_New_ok stacktrace_New;
  (** at most 2^31 - 1 pages (16 TiB) are ever obtained *)
  taken_bound w : env_ok w -> Z.of_nat (size (taken w)) < 2 ^ 31
}.
End Interface.

Arguments env_ok {W _} _.
Arguments live {W _} _.
Arguments taken {W _} _.
Arguments TCMalloc_SystemAlloc {W _} _ _ _.
Arguments TCMalloc_SystemRelease {W _} _ _ _.
Arguments TCMalloc_SystemCommit {W _} _ _ _.
Arguments TCMalloc_SystemTaken {W _} _.
Arguments MetaDataAlloc {W _} _ _.
Arguments span_New {W _} _.
Arguments span_Delete {W _} _ _.
Arguments setnode_New {W _} _.
Arguments setnode_Delete {W _} _ _.
Arguments stacktrace_New {W _} _.
Arguments env_step {W _} _ _.
Arguments region_fresh {W _} _ _ _ _.
Arguments static_addr {W _} _.

Lemma env_step_refl {W} `{EnvGhost W} (w : W) : env_ok w -> env_step w w.
Proof. intros. by split. Qed.

Lemma env_step_trans {W} `{EnvGhost W} (w1 w2 w3 : W) :
  env_step w1 w2 -> env_step w2 w3 -> env_step w1 w3.
Proof.
  intros (_ & L1 & T1) (O & L2 & T2). split; [done|]. split; [congruence|].
  by transitivity (taken w2).
Qed.

(** ** The allocator of thread caches

    [threadcache_allocator] of [src/thread_cache.cc].  The page heap never calls it;
    [caches] is the set of objects it has handed out. *)
Class CacheEnv (W : Type) := {
  threadcache_New : W -> result (Z * W);
  threadcache_Delete : Z -> W -> W;
  (** [Static::stacktrace_allocator()->Delete] *)
  stacktrace_Delete : Z -> W -> W;
  caches : W -> gset Z
}.

Class CacheEnvLaws (W : Type) {E : Env W} {G : EnvGhost W} {C : CacheEnv W} : Prop := {
  threadcache_New_ok w : env_ok w ->
    threadcache_New w = OutOfMemory \/
    exists p w', threadcache_New w = Ok (p, w') /\ env_step w w' /\
      0 < p /\ (p ∉ caches w) /\ caches w' = {[p]} ∪ caches w;
  threadcache_Delete_ok p w : env_ok w -> p ∈ caches w ->
    env_step w (threadcache_Delete p w) /\ caches (threadcache_Delete p w) = caches w ∖ {[p]};
  (** the other calls leave the thread caches alone *)
  caches_SystemAlloc size align w ptr actual w' :
    TCMalloc_SystemAlloc size align w = Ok (ptr, actual, w') -> caches w' = caches w;
  caches_SystemRelease a len w b w' : TCMalloc_SystemRelease a len w = Ok (b, w') -> caches w' = caches w;
  caches_SystemCommit a len w : caches (TCMalloc_SystemCommit a len w) = caches w;
  caches_MetaDataAlloc size w p w' : env_ok w -> 0 < size < 2 ^ 63 ->
    MetaDataAlloc size w = Ok (p, w') -> caches w' = caches w;
  caches_span_New w p w' : env_ok w -> span_New w = Ok (p, w') -> caches w' = caches w;
  caches_span_Delete p w : caches (span_Delete p w) = caches w;
  caches_setnode_New w p w' : env_ok w -> setnode_New w = Ok (p, w') -> caches w' = caches w;
  caches_setnode_Delete p w : caches (setnode_Delete p w) = caches w;
  caches_stacktrace_New w p w' : env_ok w -> stacktrace_New w = Ok (p, w') -> caches w' = caches w
}.

(** The surroundings while the thread caches are those of [T]: whatever is proved of the
    page heap for all surroundings holds of these. *)
Section Pinned.
Context {W : Type} {E : Env W} {G : EnvGhost W} {C : CacheEnv W} {EL : EnvLaws W} {CL : CacheEnvLaws W}.

Definition pinned (T : gset Z) : EnvGhost W := {|
  env_ok w := env_ok w /\ caches w = T;
  live := live;
  taken := taken;
  static_addr := static_addr
|}.

Lemma pinned_step T w w' : env_step w w' -> caches w = T -> caches w' = caches w -> env_step (G := pinned T) w w'.
Proof. intros (Hok & Hl & Ht) Hc Hc'. split; [split; [done|congruence]|]. done. Qed.

Lemma pinned_laws T : @EnvLaws W E (pinned T).
Proof.
  split; simpl.
  - intros size w [Hw Hc] Hs. destruct (SystemAlloc_ok _ size w Hw Hs) as (ptr & actual & w' & Heq & Hst & Hr).
    exists ptr, actual, w'. split_and!; [done| |exact Hr]. eapply pinned_step; [done..|]. by eapply caches_SystemAlloc.
  - intros p len w [Hw Hc]. destruct (SystemRelease_ok _ p len w Hw) as (b & w' & Heq & Hst). exists b, w'.
    split; [done|]. eapply pinned_step; [done..|]. by eapply caches_SystemRelease.
  - intros p len w [Hw Hc]. eapply pinned_step; [by apply SystemCommit_ok|done|apply caches_SystemCommit].
  - intros size w [Hw Hc] Hs. destruct (MetaDataAlloc_ok _ size w Hw Hs) as (p & w' & Heq & Hst). exists p, w'.
    split; [done|]. eapply pinned_step; [done..|]. by eapply caches_MetaDataAlloc.
  - intros w [Hw Hc]. destruct (span_New_ok _ w Hw) as [?|(p & w' & Heq & Hok & Hr)]; [by left|right]. exists p, w'.
    pose proof (caches_span_New w p w' Hw Heq). split_and!; try done; [congruence|apply Hr..].
  - intros p w [Hw Hc] Hp. destruct (span_Delete_ok _ p w Hw Hp) as (Hok & Hr). pose proof (caches_span_Delete p w).
    split_and!; try done; [congruence|apply Hr..].
  - intros w [Hw Hc]. destruct (setnode_New_ok _ w Hw) as [?|(p & w' & Heq & Hst)]; [by left|right]. exists p, w'.
    split; [done|]. eapply pinned_step; [done..|]. by eapply caches_setnode_New.
  - intros p w [Hw Hc]. eapply pinned_step; [by apply setnode_Delete_ok|done|apply caches_setnode_Delete].
  - intros w [Hw Hc]. destruct (stacktrace_New_ok _ w Hw) as [?|(p & w' & Heq & Hst)]; [by left|right]. exists p, w'.
    split; [done|]. eapply pinned_step; [done..|]. by eapply caches_stacktrace_New.
  - intros w [Hw Hc]. by apply (@taken_bound W E G EL).
Qed.
End Pinned.
