(* ===== verification/MetaData.v ===== *)
(** Memory for the allocator's own data: [MetaDataAlloc] of [src/common.cc], the
    object allocators of [src/page_heap_allocator.h], and with the system
    allocators below them the surroundings the page heap runs in.

    [PageHeapAllocator<T>] chains its free objects through their first words; the
    model keeps the chain as the list [free_list_].  Two history variables record
    what the code does not: [carved_], the objects ever carved by an allocator, and
    [pages_taken], the pages the page heap obtained from the system.  No operation
    reads them. *)
From S2P Require Import Prelude SizeMap SystemAlloc SysEnv.

Definition kMetadataAllocChunkSize : Z := 8 * 1024 * 1024.
Definition kMetadataAllignment : Z := sizeof_MemoryAligner.
Definition kAllocIncrement : Z := Z.shiftl 128 10.

(** [sizeof] of the objects. *)
Definition sizeof_SpanObject : Z := 48.
Definition sizeof_SetNode : Z := 48.
Definition sizeof_StackTrace : Z := 264.
Definition sizeof_ThreadCache : Z := 4160.   (* a whole number of cache lines *)

Record PageHeapAllocator := mkPHA {
  free_area_ : Z;
  free_avail_ : Z;
  free_list_ : list Z;
  inuse_ : Z;
  carved_ : gset Z
}.

Section MetaData.
Context {Sys : Type} {OSops : OS (Sys := Sys)} {OSG : OSGhost (Sys := Sys)}.
Context (kDebugMode : bool).

Record World := mkWorld {
  sys : SysAlloc (Sys := Sys);
  metadata_chunk_alloc_ : Z;
  metadata_chunk_avail_ : Z;
  metadata_system_bytes_ : Z;
  span_allocator_ : PageHeapAllocator;
  stacktrace_allocator_ : PageHeapAllocator;
  setnode_allocator_ : PageHeapAllocator;   (* [STLPageHeapAllocator::underlying_] *)
  setnode_initialized : bool;
  threadcache_allocator_ : PageHeapAllocator;
  pages_taken : gset Z
}.

Definition upd_sys (v : SysAlloc) (w : World) : World :=
  mkWorld v w.(metadata_chunk_alloc_) w.(metadata_chunk_avail_) w.(metadata_system_bytes_)
    w.(span_allocator_) w.(stacktrace_allocator_) w.(setnode_allocator_) w.(setnode_initialized)
    w.(threadcache_allocator_) w.(pages_taken).
Definition upd_chunk (alloc avail bytes : Z) (w : World) : World :=
  mkWorld w.(sys) alloc avail bytes
    w.(span_allocator_) w.(stacktrace_allocator_) w.(setnode_allocator_) w.(setnode_initialized)
    w.(threadcache_allocator_) w.(pages_taken).
Definition upd_span_allocator (v : PageHeapAllocator) (w : World) : World :=
  mkWorld w.(sys) w.(metadata_chunk_alloc_) w.(metadata_chunk_avail_) w.(metadata_system_bytes_)
    v w.(stacktrace_allocator_) w.(setnode_allocator_) w.(setnode_initialized)
    w.(threadcache_allocator_) w.(pages_taken).
Definition upd_stacktrace_allocator (v : PageHeapAllocator) (w : World) : World :=
  mkWorld w.(sys) w.(metadata_chunk_alloc_) w.(metadata_chunk_avail_) w.(metadata_system_bytes_)
    w.(span_allocator_) v w.(setnode_allocator_) w.(setnode_initialized)
    w.(threadcache_allocator_) w.(pages_taken).
Definition upd_setnode_allocator (v : PageHeapAllocator) (w : World) : World :=
  mkWorld w.(sys) w.(metadata_chunk_alloc_) w.(metadata_chunk_avail_) w.(metadata_system_bytes_)
    w.(span_allocator_) w.(stacktrace_allocator_) v w.(setnode_initialized)
    w.(threadcache_allocator_) w.(pages_taken).
Definition upd_setnode_initialized (v : bool) (w : World) : World :=
  mkWorld w.(sys) w.(metadata_chunk_alloc_) w.(metadata_chunk_avail_) w.(metadata_system_bytes_)
    w.(span_allocator_) w.(stacktrace_allocator_) w.(setnode_allocator_) v
    w.(threadcache_allocator_) w.(pages_taken).
Definition upd_threadcache_allocator (v : PageHeapAllocator) (w : World) : World :=
  mkWorld w.(sys) w.(metadata_chunk_alloc_) w.(metadata_chunk_avail_) w.(metadata_system_bytes_)
    w.(span_allocator_) w.(stacktrace_allocator_) w.(setnode_allocator_) w.(setnode_initialized)
    v w.(pages_taken).
Definition upd_pages_taken (v : gset Z) (w : World) : World :=
  mkWorld w.(sys) w.(metadata_chunk_alloc_) w.(metadata_chunk_avail_) w.(metadata_system_bytes_)
    w.(span_allocator_) w.(stacktrace_allocator_) w.(setnode_allocator_) w.(setnode_initialized)
    w.(threadcache_allocator_) v.

Abbreviation MW := (M World).

(** A computation on the system allocator. *)
Definition on_sys {A} (m : M SysAlloc A) : MW A := fun w =>
  '(a, s) ← m w.(sys);
  Ok (a, upd_sys s w).

(** ** [MetaDataAlloc] *)

Definition MetaDataAlloc_w (bytes : Z) : MW Z :=
  if bytes >=? kMetadataAllocChunkSize then
    '(rv, _) ← on_sys (SystemAlloc kDebugMode bytes kMetadataAllignment);
    (if negb (rv =? 0) then
       modify (fun w => upd_chunk w.(metadata_chunk_alloc_) w.(metadata_chunk_avail_)
                          (u64 (w.(metadata_system_bytes_) + bytes)) w)
     else skip) ;;
    mret rv
  else
    w ← get_state;
    let alignment := Z.land (u64 (- w.(metadata_chunk_alloc_))) (kMetadataAllignment - 1) in
    alignment ← (if w.(metadata_chunk_avail_) <? u64 (bytes + alignment) then
                   '(ptr, real_size) ← on_sys (SystemAlloc kDebugMode kMetadataAllocChunkSize kMetadataAllignment);
                   if ptr =? 0 then mret None
                   else
                     modify (fun w => upd_chunk ptr real_size w.(metadata_system_bytes_) w) ;;
                     mret (Some 0)
                 else mret (Some alignment));
    match alignment with
    | None => mret 0
    | Some alignment =>
        w ← get_state;
        let rv := u64 (w.(metadata_chunk_alloc_) + alignment) in
        let bytes := u64 (bytes + alignment) in
        modify (fun w => upd_chunk (u64 (w.(metadata_chunk_alloc_) + bytes))
                           (u64 (w.(metadata_chunk_avail_) - bytes))
                           (u64 (w.(metadata_system_bytes_) + bytes)) w) ;;
        mret rv
    end.

(** ** [PageHeapAllocator<T>]: [sz] is [sizeof(T)], [get] and [put] select the allocator *)

Section Objects.
Context (sz : Z) (get : World -> PageHeapAllocator) (put : PageHeapAllocator -> World -> World).

Definition PHA_New : MW Z :=
  w ← get_state;
  match (get w).(free_list_) with
  | result :: rest =>
      let a := get w in
      modify (put (mkPHA a.(free_area_) a.(free_avail_) rest (i32 (a.(inuse_) + 1)) a.(carved_))) ;;
      mret result
  | [] =>
      (if (get w).(free_avail_) <? sz then
         area ← MetaDataAlloc_w kAllocIncrement;
         if area =? 0 then out_of_memory
         else
           modify (fun w => let a := get w in
             put (mkPHA area kAllocIncrement a.(free_list_) a.(inuse_) a.(carved_)) w)
       else skip) ;;
      w ← get_state;
      let a := get w in
      let result := a.(free_area_) in
      modify (put (mkPHA (u64 (result + sz)) (u64 (a.(free_avail_) - sz)) a.(free_list_)
                     (i32 (a.(inuse_) + 1)) ({[result]} ∪ a.(carved_)))) ;;
      mret result
  end.

Definition PHA_Delete (p : Z) (w : World) : World :=
  let a := get w in
  put (mkPHA a.(free_area_) a.(free_avail_) (p :: a.(free_list_)) (i32 (a.(inuse_) - 1)) a.(carved_)) w.

Definition PHA_Init : MW unit :=
  modify (put (mkPHA 0 0 [] 0 ∅)) ;;
  p ← PHA_New;
  modify (PHA_Delete p).
End Objects.

(** ** The instances *)

Definition span_allocator_New : MW Z := PHA_New sizeof_SpanObject span_allocator_ upd_span_allocator.
Definition span_allocator_Delete : Z -> World -> World := PHA_Delete span_allocator_ upd_span_allocator.
Definition stacktrace_allocator_New : MW Z :=
  PHA_New sizeof_StackTrace stacktrace_allocator_ upd_stacktrace_allocator.
Definition stacktrace_allocator_Delete : Z -> World -> World :=
  PHA_Delete stacktrace_allocator_ upd_stacktrace_allocator.

(** [STLPageHeapAllocator::allocate] and [deallocate] (for one node). *)
Definition setnode_allocate : MW Z :=
  w ← get_state;
  (if negb w.(setnode_initialized) then
     PHA_Init sizeof_SetNode setnode_allocator_ upd_setnode_allocator ;;
     modify (upd_setnode_initialized true)
   else skip) ;;
  PHA_New sizeof_SetNode setnode_allocator_ upd_setnode_allocator.
Definition setnode_deallocate : Z -> World -> World := PHA_Delete setnode_allocator_ upd_setnode_allocator.

Definition threadcache_allocator_New : MW Z :=
  PHA_New sizeof_ThreadCache threadcache_allocator_ upd_threadcache_allocator.
Definition threadcache_allocator_Delete : Z -> World -> World :=
  PHA_Delete threadcache_allocator_ upd_threadcache_allocator.

(** [InitStaticVars]: the object allocators. *)
Definition InitAllocators : MW unit :=
  PHA_Init sizeof_SpanObject span_allocator_ upd_span_allocator ;;
  span_allocator_New ;;
  span_allocator_New ;;
  PHA_Init sizeof_StackTrace stacktrace_allocator_ upd_stacktrace_allocator.

(** [InitModule]: these, and the allocator of thread caches. *)
Definition InitModuleAllocators : MW unit :=
  InitAllocators ;;
  PHA_Init sizeof_ThreadCache threadcache_allocator_ upd_threadcache_allocator.

Definition PHA_zero : PageHeapAllocator := mkPHA 0 0 [] 0 ∅.

(** The state before [InitStaticVars]: all static variables zero. *)
Definition World_zero (o : Sys) (skip_sbrk skip_mmap disable_release : bool) : World :=
  mkWorld (mkSysAlloc o skip_sbrk skip_mmap disable_release 0 0 (false, false) false 0)
    0 0 0 PHA_zero PHA_zero PHA_zero false PHA_zero ∅.

(** The pages inside a region. *)
Definition region_pages (ptr size : Z) : gset Z :=
  list_to_set (seqZ (ptr / kPageSize) (size / kPageSize)).

(** The surroundings of the page heap. *)
#[local] Instance World_env : Env World := {
  TCMalloc_SystemAlloc size alignment w :=
    '(ptr, actual, w) ← on_sys (SystemAlloc kDebugMode size alignment) w;
    Ok (ptr, actual,
        if ptr =? 0 then w else upd_pages_taken (region_pages ptr actual ∪ w.(pages_taken)) w);
  TCMalloc_SystemRelease start len w := on_sys (SystemRelease start len) w;
  TCMalloc_SystemCommit start len w := w;
  TCMalloc_SystemTaken w := w.(sys).(SystemTaken);
  MetaDataAlloc := MetaDataAlloc_w;
  span_New := span_allocator_New;
  span_Delete := span_allocator_Delete;
  setnode_New := setnode_allocate;
  setnode_Delete := setnode_deallocate;
  stacktrace_New := stacktrace_allocator_New
}.

(** ** The invariant *)

Context {OSL : OSLaws (Sys := Sys)}.

Implicit Types (w : World) (a : PageHeapAllocator).

Definition in_range (x p n : Z) : Prop := p <= x < p + n.

(** The bytes an allocator of objects of size [sz] holds. *)
Definition owns (sz : Z) a (x : Z) : Prop :=
  (exists p, p ∈ a.(carved_) /\ in_range x p sz) \/ in_range x a.(free_area_) a.(free_avail_).

Record pha_ok (sz : Z) (u : Z -> Prop) a : Prop := {
  po_avail : 0 <= a.(free_avail_);
  po_area : 0 < a.(free_avail_) -> 0 < a.(free_area_);
  po_limit : a.(free_area_) + a.(free_avail_) <= 2 ^ kAddressBits;
  po_used x : owns sz a x -> u x;
  po_pos p : p ∈ a.(carved_) -> 0 < p;
  po_sep p q : p ∈ a.(carved_) -> q ∈ a.(carved_) -> p <> q -> p + sz <= q \/ q + sz <= p;
  po_area_sep p x : p ∈ a.(carved_) -> in_range x p sz -> ~ in_range x a.(free_area_) a.(free_avail_)
}.

(** The free objects: each was carved, none is there twice. *)
Definition list_ok a : Prop := NoDup a.(free_list_) /\ forall p, p ∈ a.(free_list_) -> p ∈ a.(carved_).

(** The four allocators.  The nodes given back to [ASet] come from [std::set], whose
    calls are not tracked: nothing is claimed of its free list. *)
Inductive which := ASpan | AStack | ASet | ACache.

#[export] Instance which_eq_dec : EqDecision which.
Proof. solve_decision. Defined.

Definition obj_size (i : which) : Z :=
  match i with ASpan => sizeof_SpanObject | AStack => sizeof_StackTrace | ASet => sizeof_SetNode
  | ACache => sizeof_ThreadCache end.
Definition pha (i : which) w : PageHeapAllocator :=
  match i with
  | ASpan => w.(span_allocator_)
  | AStack => w.(stacktrace_allocator_)
  | ASet => w.(setnode_allocator_)
  | ACache => w.(threadcache_allocator_)
  end.
Definition put_pha (i : which) (a : PageHeapAllocator) w : World :=
  match i with
  | ASpan => upd_span_allocator a w
  | AStack => upd_stacktrace_allocator a w
  | ASet => upd_setnode_allocator a w
  | ACache => upd_threadcache_allocator a w
  end.

Definition chunk w (x : Z) : Prop := in_range x w.(metadata_chunk_alloc_) w.(metadata_chunk_avail_).

(** The bytes of the pages of the page heap. *)
Definition paged w (x : Z) : Prop :=
  exists k, k ∈ w.(pages_taken) /\ in_range x (k * kPageSize) kPageSize.

Record world_ok w : Prop := {
  wo_sys : sa_ok w.(sys);
  wo_pages k x : k ∈ w.(pages_taken) -> in_range x (k * kPageSize) kPageSize -> used w.(sys).(os) x;
  wo_chunk : 0 <= w.(metadata_chunk_alloc_) /\ 0 <= w.(metadata_chunk_avail_) /\
    (0 < w.(metadata_chunk_avail_) -> 0 < w.(metadata_chunk_alloc_)) /\
    w.(metadata_chunk_alloc_) + w.(metadata_chunk_avail_) <= 2 ^ kAddressBits;
  wo_chunk_used x : chunk w x -> used w.(sys).(os) x;
  wo_pha i : pha_ok (obj_size i) (used w.(sys).(os)) (pha i w);
  wo_list i : i <> ASet -> list_ok (pha i w);
  wo_pha_chunk i x : owns (obj_size i) (pha i w) x -> ~ chunk w x;
  wo_pha_sep i j x : owns (obj_size i) (pha i w) x -> owns (obj_size j) (pha j w) x -> i = j;
  wo_paged x : paged w x -> ~ chunk w x /\ forall i, ~ owns (obj_size i) (pha i w) x
}.

(** A step that leaves the allocators and the pages of the page heap alone. *)
Record meta_step w w' : Prop := {
  ms_ok : world_ok w';
  ms_pha i : pha i w' = pha i w;
  ms_pages : w'.(pages_taken) = w.(pages_taken);
  ms_used x : used w.(sys).(os) x -> used w'.(sys).(os) x
}.

Lemma wp_on_sys {A} (m : M SysAlloc A) Q w :
  wp m (fun r s => Q r (upd_sys s w)) w.(sys) -> wp (on_sys m) Q w.
Proof. unfold wp, on_sys. simpl. by destruct (m w.(sys)) as [[r s]| | |]. Qed.

Lemma no_oom_on_sys {A} (m : M SysAlloc A) : no_oom m -> no_oom (on_sys m).
Proof. intros Hm w. unfold on_sys. simpl. specialize (Hm w.(sys)). by destruct (m w.(sys)) as [[r s]| | |]. Qed.

(** The system allocator's state may change if nothing it gave out is lost. *)
Lemma world_ok_sys w s :
  world_ok w -> sa_ok s -> (forall x, used w.(sys).(os) x -> used s.(os) x) -> world_ok (upd_sys s w).
Proof.
  intros [] Hs Hu. split; simpl; try done; eauto.
  intros i. destruct (wo_pha0 i). destruct i; split; simpl in *; eauto.
Qed.

Lemma meta_step_sys w s :
  world_ok w -> sa_ok s -> (forall x, used w.(sys).(os) x -> used s.(os) x) -> meta_step w (upd_sys s w).
Proof. intros Hw Hs Hu. split; [by apply world_ok_sys|by intros []|done|done]. Qed.

(** Memory nobody holds yet. *)
Definition unowned w (p n : Z) : Prop :=
  0 < p /\ p mod kMetadataAllignment = 0 /\ p + n <= 2 ^ kAddressBits /\
  forall x, in_range x p n -> used w.(sys).(os) x /\ ~ chunk w x /\ ~ paged w x /\
    forall i, ~ owns (obj_size i) (pha i w) x.

Lemma wp_SystemAlloc_md w n Q :
  world_ok w -> 0 < n < 2 ^ 63 ->
  (forall r s, meta_step w (upd_sys s w) -> r.1 = 0 \/ n <= r.2 /\ unowned (upd_sys s w) r.1 r.2 ->
    Q r (upd_sys s w)) ->
  wp (on_sys (SystemAlloc kDebugMode n kMetadataAllignment)) Q w.
Proof.
  intros Hw Hn HQ. apply wp_on_sys.
  eapply wp_mono; [apply (wp_SystemAlloc kDebugMode n kMetadataAllignment 6); try done; [apply Hw|lia|by left]|].
  intros [ptr actual] s (Hs & Hu & Hr). apply HQ; [by apply meta_step_sys|]. simpl in *.
  destruct Hr as [[-> _]|((Hp & Hal & Hsz & Hlim & Hf) & _)]; [by left|right]. split; [done|]. simpl in *.
  split_and!; try done. intros x Hx. destruct (Hf x Hx) as [Hnot Hyes]. split_and!; [done|..].
  - intros Hc. by apply Hnot, wo_chunk_used.
  - intros (k & Hk & Hkx). by eapply Hnot, (wo_pages w Hw k).
  - intros i Ho. apply Hnot. apply (po_used _ _ _ (wo_pha w Hw i)). by destruct i.
Qed.

Lemma meta_step_refl w : world_ok w -> meta_step w w.
Proof. by split. Qed.

Lemma meta_step_trans w1 w2 w3 : meta_step w1 w2 -> meta_step w2 w3 -> meta_step w1 w3.
Proof.
  intros [_ P1 G1 U1] [Hok P2 G2 U2]. split; [done| |congruence|auto].
  intros i. by rewrite P2, P1.
Qed.

(** Cutting [al + n] bytes off the chunk: the last [n] of them belong to nobody. *)
Lemma carve_chunk w al n bytes :
  world_ok w -> 0 <= al -> 0 < n -> al + n <= w.(metadata_chunk_avail_) ->
  (w.(metadata_chunk_alloc_) + al) mod kMetadataAllignment = 0 ->
  let w' := upd_chunk (w.(metadata_chunk_alloc_) + (n + al)) (w.(metadata_chunk_avail_) - (n + al)) bytes w in
  meta_step w w' /\ unowned w' (w.(metadata_chunk_alloc_) + al) n.
Proof.
  intros Hw Hal Hn Hle Halign w'. pose proof Hw as [].
  assert (Hsub : forall x, chunk w' x -> chunk w x) by (unfold chunk, in_range, w'; simpl; intros; lia).
  assert (Hpha : forall i, pha i w' = pha i w) by (by intros []). split; [split|split_and!]; try done.
  - split; try done.
    + simpl. lia.
    + intros x Hx. by apply wo_chunk_used0, Hsub.
    + intros i x Ho Hx. rewrite Hpha in Ho. by apply (wo_pha_chunk0 i x), Hsub.
    + intros x Hx. destruct (wo_paged0 x Hx) as [Hnc Hno]. split; [by intros ?%Hsub|]. intros i. rewrite Hpha. apply Hno.
  - lia.
  - destruct wo_chunk0. lia.
  - intros x Hx. assert (Hc : chunk w x) by (unfold chunk, in_range in *; lia).
    split_and!; [by apply wo_chunk_used0| | |].
    + unfold chunk, in_range, w' in *. simpl. lia.
    + intros Hpg. by destruct (wo_paged0 x Hpg).
    + intros i. rewrite Hpha. intros Ho. by apply (wo_pha_chunk0 i x).
Qed.

(** A region nobody holds becomes the chunk. *)
Lemma new_chunk w p n bytes :
  world_ok w -> unowned w p n -> 0 < n ->
  meta_step w (upd_chunk p n bytes w).
Proof.
  intros Hw (Hp & _ & Hlim & Hun) Hn. pose proof Hw as [].
  assert (Hpha : forall i, pha i (upd_chunk p n bytes w) = pha i w) by (by intros []). split; try done.
  split; try done.
  - simpl. lia.
  - intros x Hx. by apply (Hun x).
  - intros i x Ho Hx. rewrite Hpha in Ho. by apply (Hun x Hx) in Ho.
  - intros x Hx. destruct (wo_paged0 x Hx) as [_ Hno]. split; [intros Hc; by apply (Hun x Hc)|].
    intros i. rewrite Hpha. apply Hno.
Qed.

Lemma chunk_alignment x : 0 <= x < 2 ^ 64 ->
  0 <= Z.land (u64 (- x)) (kMetadataAllignment - 1) < 64 /\
  (x + Z.land (u64 (- x)) (kMetadataAllignment - 1)) mod kMetadataAllignment = 0.
Proof.
  intros Hx. change kMetadataAllignment with (2 ^ 6). rewrite land_align by done.
  pose proof (Z.mod_pos_bound (u64 (- x)) (2 ^ 6) ltac:(lia)). split; [lia|].
  assert (u64 (- x) mod 2 ^ 6 = (- x) mod 2 ^ 6) as ->.
  { unfold u64. apply Z.mod_mod_divide. by exists (2 ^ 58). }
  rewrite Z.add_mod_idemp_r by lia. by replace (x + - x) with 0 by lia.
Qed.

Lemma unowned_mono w p n n' : unowned w p n -> 0 <= n' <= n -> unowned w p n'.
Proof.
  intros (? & ? & ? & Hun) Hn. split_and!; try done; [lia|]. intros x Hx. apply Hun. unfold in_range in *. lia.
Qed.

Lemma wp_MetaDataAlloc n w :
  world_ok w -> 0 < n < 2 ^ 63 ->
  wp (MetaDataAlloc_w n) (fun r w' => meta_step w w' /\ (r = 0 \/ unowned w' r n)) w.
Proof.
  intros Hw Hn. unfold MetaDataAlloc_w. rewrite Z.geb_leb.
  destruct (Z.leb_spec kMetadataAllocChunkSize n) as [Hbig|Hsmall]; unfold kMetadataAllocChunkSize in *.
  - apply wp_bind, wp_SystemAlloc_md; [done..|]. intros [r actual] s Hst Hr. simpl in Hr. apply wp_bind.
    destruct (Z.eqb_spec r 0) as [->|Hne]; cbn [negb]; [by apply wp_ret, wp_ret; split; [|left]|].
    apply wp_modify, wp_ret. destruct Hr as [?|[Hle Hun]]; [done|]. split.
    + eapply meta_step_trans; [exact Hst|]. destruct Hst as [[] ? ? ?]. split; done || by intros [].
    + right. apply (unowned_mono _ _ actual); [|lia]. exact Hun.
  - apply wp_bind, wp_get. cbv zeta. pose proof (wo_chunk w Hw) as (H0 & Hav & Hpos & Hlim).
    change (2 ^ kAddressBits) with (2 ^ 48) in Hlim.
    destruct (chunk_alignment w.(metadata_chunk_alloc_) ltac:(lia)) as [Hal Halm].
    set (al := Z.land _ _) in *. clearbody al. rewrite (u64_small (n + al)) by lia.
    apply wp_bind. apply wp_mono with (fun r w1 => meta_step w w1 /\ match r with
      | Some al => 0 <= al < 64 /\ al + n <= w1.(metadata_chunk_avail_) /\
          (w1.(metadata_chunk_alloc_) + al) mod kMetadataAllignment = 0
      | None => True end).
    { destruct (Z.ltb_spec w.(metadata_chunk_avail_) (n + al)).
      - apply wp_bind, wp_SystemAlloc_md; [done..|]. intros [ptr real] s Hst Hr. simpl in Hr.
        destruct (Z.eqb_spec ptr 0) as [->|Hne]; [by apply wp_ret|].
        destruct Hr as [?|[Hle Hun]]; [done|]. apply wp_bind, wp_modify, wp_ret. split.
        + eapply meta_step_trans; [exact Hst|]. apply new_chunk; [apply Hst|done|lia].
        + simpl. split_and!; [lia..|]. rewrite Z.add_0_r. apply Hun.
      - apply wp_ret. split; [by apply meta_step_refl|]. split_and!; try done; lia. }
    intros [al'|] w1 [Hst Hr]; [|by apply wp_ret; split; [|left]]. clear Hpos Hlim H0 Hav.
    destruct Hr as (Hal' & Hle & Halm'). pose proof (wo_chunk w1 (ms_ok _ _ Hst)) as (H0 & Hav & Hpos & Hlim).
    change (2 ^ kAddressBits) with (2 ^ 48) in Hlim.
    apply wp_bind, wp_get. cbv zeta. rewrite (u64_small (n + al')) by lia. apply wp_bind, wp_modify, wp_ret.
    rewrite (u64_small (w1.(metadata_chunk_alloc_) + (n + al'))), (u64_small (w1.(metadata_chunk_avail_) - (n + al'))),
      (u64_small (w1.(metadata_chunk_alloc_) + al')) by lia.
    destruct (carve_chunk w1 al' n (u64 (w1.(metadata_system_bytes_) + (n + al')))) as [Hst2 Hun]; try done; [apply Hst|lia..|].
    split; [by eapply meta_step_trans|right; exact Hun].
Qed.

Lemma no_oom_MetaDataAlloc n : no_oom (MetaDataAlloc_w n).
Proof.
  pose proof (fun n k : Z => no_oom_on_sys _ (no_oom_SystemAlloc kDebugMode n k)).
  unfold MetaDataAlloc_w, skip. solve_no_oom.
Qed.

(** ** Objects *)

Lemma pha_put i a w : pha i (put_pha i a w) = a.
Proof. by destruct i. Qed.

Lemma pha_put_ne i j a w : i <> j -> pha j (put_pha i a w) = pha j w.
Proof. by destruct i, j. Qed.

Lemma put_pha_sys i a w : (put_pha i a w).(sys) = w.(sys).
Proof. by destruct i. Qed.

Lemma put_pha_chunk i a w x : chunk (put_pha i a w) x <-> chunk w x.
Proof. by destruct i. Qed.

Lemma put_pha_pages i a w : (put_pha i a w).(pages_taken) = w.(pages_taken).
Proof. by destruct i. Qed.

(** Replacing an allocator by one that holds no other bytes than nobody's. *)
Lemma world_ok_put i a w :
  world_ok w -> pha_ok (obj_size i) (used w.(sys).(os)) a -> (i <> ASet -> list_ok a) ->
  (forall x, owns (obj_size i) a x -> owns (obj_size i) (pha i w) x \/
     ~ chunk w x /\ ~ paged w x /\ forall j, j <> i -> ~ owns (obj_size j) (pha j w) x) ->
  world_ok (put_pha i a w).
Proof.
  intros Hw Hok Hlist Hown. pose proof Hw as [].
  assert (Hsep : forall j x, j <> i -> owns (obj_size i) a x -> owns (obj_size j) (pha j w) x -> False).
  { intros j x Hj Ho Hoj. destruct (Hown x Ho) as [Hi|(_ & _ & Hno)]; [|by eapply Hno].
    by apply Hj, (wo_pha_sep0 j i x). }
  split; rewrite ?put_pha_sys, ?put_pha_pages; try done.
  - by destruct i.
  - intros x Hx%put_pha_chunk. auto.
  - intros j. destruct (decide (i = j)) as [<-|Hne]; [by rewrite pha_put|by rewrite pha_put_ne].
  - intros j Hj. destruct (decide (i = j)) as [<-|Hne]; [rewrite pha_put|rewrite pha_put_ne]; auto.
  - intros j x Ho Hx%put_pha_chunk. destruct (decide (i = j)) as [<-|Hne].
    + rewrite pha_put in Ho. destruct (Hown x Ho) as [Hi|(Hno & _ & _)]; [by eapply wo_pha_chunk0|done].
    + rewrite pha_put_ne in Ho by done. by eapply wo_pha_chunk0.
  - intros j k x Hj Hk. destruct (decide (i = j)) as [<-|Hnj], (decide (i = k)) as [<-|Hnk]; try done.
    + rewrite pha_put in Hj. rewrite pha_put_ne in Hk by done. exfalso. by eapply Hsep.
    + rewrite pha_put in Hk. rewrite pha_put_ne in Hj by done. exfalso. by eapply Hsep.
    + rewrite pha_put_ne in Hj, Hk by done. by eapply wo_pha_sep0.
  - intros x Hx. assert (Hpx : paged w x) by (by destruct i). destruct (wo_paged0 x Hpx) as [Hnc Hno].
    split; [by rewrite put_pha_chunk|]. intros j. destruct (decide (i = j)) as [<-|Hne].
    + rewrite pha_put. intros Ho. destruct (Hown x Ho) as [Hi|(_ & Hnp & _)]; [by apply (Hno i)|done].
    + rewrite pha_put_ne by done. apply Hno.
Qed.

(** The objects handed out. *)
Definition live_objects a : gset Z := a.(carved_) ∖ list_to_set a.(free_list_).

(** A new area. *)
Definition refilled (area : Z) a : PageHeapAllocator :=
  mkPHA area kAllocIncrement a.(free_list_) a.(inuse_) a.(carved_).

Lemma refill_ok i w area :
  world_ok w -> unowned w area kAllocIncrement -> world_ok (put_pha i (refilled area (pha i w)) w).
Proof.
  intros Hw (Hp & _ & Hlim & Hun). destruct (wo_pha w Hw i) as [].
  assert (Hobj : forall p x, p ∈ (pha i w).(carved_) -> in_range x p (obj_size i) -> owns (obj_size i) (pha i w) x)
    by (intros p x ? ?; left; eauto).
  apply world_ok_put; [done| |by apply (wo_list w Hw)|].
  - split; simpl; try done.
    + intros x [(q & Hq & Hx)|Hx]; [by eapply po_used0, Hobj|by apply Hun].
    + intros p x Hpc Hx Hin. destruct (Hun x Hin) as (_ & _ & _ & Hno). by apply (Hno i), (Hobj p).
  - intros x [(q & Hq & Hx)|Hx]; [left; by eapply Hobj|right].
    destruct (Hun x Hx) as (_ & Hc & Hpg & Hno). split_and!; [done..|]. intros j _. apply Hno.
Qed.

(** One object carved off the area. *)
Definition carved_one (sz : Z) a : PageHeapAllocator :=
  mkPHA (a.(free_area_) + sz) (a.(free_avail_) - sz) a.(free_list_) (i32 (a.(inuse_) + 1))
    ({[a.(free_area_)]} ∪ a.(carved_)).

Lemma carve_ok i w :
  world_ok w -> obj_size i <= (pha i w).(free_avail_) ->
  world_ok (put_pha i (carved_one (obj_size i) (pha i w)) w).
Proof.
  intros Hw Hav. destruct (wo_pha w Hw i) as []. set (a := pha i w) in *.
  assert (Hsz : 0 < obj_size i) by (by destruct i).
  assert (Hown : forall x, owns (obj_size i) (carved_one (obj_size i) a) x -> owns (obj_size i) a x).
  { intros x [(q & Hq & Hx)|Hx].
    - simpl in Hq. apply elem_of_union in Hq as [->%elem_of_singleton|Hq]; [right|left; eauto].
      unfold in_range in *. lia.
    - right. unfold in_range in *. simpl in Hx. lia. }
  apply world_ok_put; [done| | |by left; apply Hown].
  2: { intros Hi. destruct (wo_list w Hw i Hi) as [Hnd Hin]. split; [done|].
       intros p Hp. apply elem_of_union_r. auto. }
  split; simpl; try done; try lia.
  - intros x Hx. by apply po_used0, Hown.
  - intros p [->%elem_of_singleton|Hp]%elem_of_union; [apply po_area0; lia|auto].
  - assert (Hne : forall p, p ∈ a.(carved_) -> p + obj_size i <= a.(free_area_) \/ a.(free_area_) + obj_size i <= p).
    { intros p Hp. destruct (Z.le_gt_cases (p + obj_size i) a.(free_area_)); [by left|right].
      destruct (Z.le_gt_cases (a.(free_area_) + obj_size i) p); [done|exfalso].
      apply (po_area_sep0 p (Z.max p a.(free_area_))); [done|unfold in_range; lia..]. }
    intros p q [->%elem_of_singleton|Hp]%elem_of_union [->%elem_of_singleton|Hq]%elem_of_union Hpq; try done.
    + specialize (Hne q Hq). lia.
    + by apply Hne.
    + by apply po_sep0.
  - intros p x [->%elem_of_singleton|Hp]%elem_of_union Hx Hin; [unfold in_range in *; lia|].
    apply (po_area_sep0 p x Hp Hx). unfold in_range in *. lia.
Qed.

Lemma wp_PHA_New i w :
  world_ok w ->
  wp (PHA_New (obj_size i) (pha i) (put_pha i)) (fun p w' => world_ok w' /\
    w'.(pages_taken) = w.(pages_taken) /\ (forall j, j <> i -> pha j w' = pha j w) /\
    (i <> ASet -> 0 < p /\ used w'.(sys).(os) p /\ (p ∉ live_objects (pha i w)) /\
      live_objects (pha i w') = {[p]} ∪ live_objects (pha i w))) w.
Proof.
  intros Hw. pose proof (wo_pha w Hw i) as Hok. unfold PHA_New. apply wp_bind, wp_get.
  destruct ((pha i w).(free_list_)) as [|r rest] eqn:Hl.
  - apply wp_bind. apply wp_mono with (fun _ w1 => world_ok w1 /\ w1.(pages_taken) = w.(pages_taken) /\
      (forall j, j <> i -> pha j w1 = pha j w) /\ obj_size i <= (pha i w1).(free_avail_) /\
      (pha i w1).(carved_) = (pha i w).(carved_) /\ (pha i w1).(free_list_) = []).
    { destruct (Z.ltb_spec (pha i w).(free_avail_) (obj_size i)); [|by apply wp_ret; split_and!].
      apply wp_bind. eapply wp_mono; [by apply (wp_MetaDataAlloc kAllocIncrement w)|].
      intros area w1 (Hst & Hr). destruct (Z.eqb_spec area 0) as [->|Hne]; [done|].
      destruct Hr as [?|Hun]; [done|]. apply wp_modify. fold (refilled area (pha i w1)).
      split_and!; [apply refill_ok; [apply Hst|done]|by rewrite put_pha_pages, (ms_pages _ _ Hst)|..].
      - intros j Hj. rewrite pha_put_ne by done. apply Hst.
      - rewrite pha_put. by destruct i.
      - rewrite pha_put. simpl. by rewrite (ms_pha _ _ Hst).
      - rewrite pha_put. simpl. by rewrite (ms_pha _ _ Hst). }
    intros _ w1 (Hw1 & Hpg & Hj & Hav & Hcv & Hl1). apply wp_bind, wp_get. cbv zeta. apply wp_bind, wp_modify, wp_ret.
    pose proof (wo_pha w1 Hw1 i) as []. assert (Hsz : 0 < obj_size i) by (by destruct i).
    change (2 ^ kAddressBits) with (2 ^ 48) in *. specialize (po_area0 ltac:(lia)).
    rewrite (u64_small (_ + obj_size i)), (u64_small (_ - obj_size i)) by lia.
    fold (carved_one (obj_size i) (pha i w1)).
    assert (Hnew : (pha i w1).(free_area_) ∉ (pha i w1).(carved_)).
    { intros Hin. apply (po_area_sep0 _ (pha i w1).(free_area_) Hin); unfold in_range; lia. }
    split_and!; [by apply carve_ok|by rewrite put_pha_pages|..].
    { intros j Hne. rewrite pha_put_ne by done. auto. }
    intros _. split_and!; [done|..].
    + rewrite put_pha_sys. apply po_used0. right. unfold in_range. lia.
    + unfold live_objects. rewrite <- Hcv. intros [? _]%elem_of_difference. done.
    + rewrite pha_put. unfold live_objects. simpl. rewrite Hl, Hl1, Hcv. simpl. by rewrite !difference_empty_L.
  - apply wp_bind, wp_modify, wp_ret. destruct Hok.
    assert (Hlist : i <> ASet -> (r ∉ rest) /\ NoDup rest /\ (r ∈ (pha i w).(carved_)) /\
      forall p, p ∈ rest -> p ∈ (pha i w).(carved_)).
    { intros Hi. destruct (wo_list w Hw i Hi) as [Hnd Hin]. rewrite Hl in Hnd, Hin.
      apply NoDup_cons in Hnd as [? ?]. split_and!; try done; [apply Hin; by left|]. intros p Hp. apply Hin. by right. }
    split_and!.
    + apply world_ok_put; [done|by split| |by left]. intros Hi. destruct (Hlist Hi) as (? & ? & ? & ?). by split.
    + by rewrite put_pha_pages.
    + intros j Hj. by apply pha_put_ne.
    + intros Hi. destruct (Hlist Hi) as (Hr & Hnd & Hrc & _). split_and!.
    { auto. }
    { rewrite put_pha_sys. apply po_used0. left. exists r. split; [done|].
      assert (0 < obj_size i) by (by destruct i). unfold in_range. lia. }
    { unfold live_objects. rewrite Hl. set_solver. }
      rewrite pha_put. unfold live_objects. rewrite Hl. simpl. apply set_eq. intros x.
      rewrite elem_of_union, !elem_of_difference, elem_of_union, !elem_of_list_to_set, elem_of_singleton.
      destruct (decide (x = r)) as [->|]; naive_solver.
Qed.

Lemma PHA_Delete_ok i p w :
  world_ok w -> i <> ASet -> p ∈ live_objects (pha i w) ->
  let w' := PHA_Delete (pha i) (put_pha i) p w in
  world_ok w' /\ w'.(pages_taken) = w.(pages_taken) /\ (forall j, j <> i -> pha j w' = pha j w) /\
  live_objects (pha i w') = live_objects (pha i w) ∖ {[p]}.
Proof.
  intros Hw Hi Hp w'. destruct (wo_list w Hw i Hi) as [Hnd Hin].
  apply elem_of_difference in Hp as [Hpc Hpl]. rewrite elem_of_list_to_set in Hpl. split_and!.
  - apply world_ok_put; [done|by destruct (wo_pha w Hw i)| |by left]. intros _. split; simpl; [by constructor|].
    intros q [->|Hq]%elem_of_cons; auto.
  - apply put_pha_pages.
  - intros j Hj. by apply pha_put_ne.
  - unfold w', PHA_Delete. rewrite pha_put. unfold live_objects. simpl. apply set_eq. intros x.
    rewrite !elem_of_difference, elem_of_union, !elem_of_list_to_set, elem_of_singleton. naive_solver.
Qed.

(** ** The surroundings keep their promises *)

#[local] Instance World_ghost : EnvGhost World := {
  env_ok := world_ok;
  live w := live_objects w.(span_allocator_);
  taken := pages_taken;
  static_addr := image
}.

Lemma meta_step_env w w' : meta_step w w' -> env_step w w'.
Proof.
  intros [Hok Hp Hpg _]. split; [done|]. simpl. rewrite Hpg. split; [|done].
  by rewrite (Hp ASpan : w'.(span_allocator_) = w.(span_allocator_)).
Qed.

(** Whatever the postcondition says of a run, in the form of the laws. *)
Lemma wp_run {A} (m : MW A) Q w :
  wp m Q w -> m w = OutOfMemory \/ exists r w', m w = Ok (r, w') /\ Q r w'.
Proof. unfold wp. destruct (m w) as [[r w']| | |]; naive_solver. Qed.

Lemma World_SystemAlloc size w :
  world_ok w -> 0 < size < 2 ^ 64 ->
  exists ptr actual w', TCMalloc_SystemAlloc size kPageSize w = Ok (ptr, actual, w') /\
    env_step w w' /\ (ptr = 0 \/ size <= actual /\ region_fresh w w' ptr actual).
Proof.
  intros Hw Hs.
  destruct (wp_total _ _ _ (no_oom_SystemAlloc kDebugMode size kPageSize)
    (wp_SystemAlloc kDebugMode size kPageSize 13 w.(sys) (wo_sys w Hw) Hs ltac:(done) eq_refl ltac:(done)
      ltac:(by left))) as ([ptr actual] & s & Heq & Hs' & Hu & Hr).
  simpl. unfold on_sys. rewrite Heq. simpl. pose proof (meta_step_sys w s Hw Hs' Hu) as Hst.
  destruct (Z.eqb_spec ptr 0) as [->|Hne].
  { exists 0, actual, (upd_sys s w). split_and!; [done|by apply meta_step_env|by left]. }
  destruct Hr as [[? _]|((Hp & Hal & Hsz & Hlim & Hf) & _)]; [done|]. simpl in Hp, Hal, Hsz, Hlim, Hf.
  change (min_aligned kPageSize) with kPageSize in Hal. change kPageSize with 8192 in *.
  assert (Hpage : forall k x, k ∈ region_pages ptr actual -> in_range x (k * 8192) 8192 -> ptr <= x < ptr + actual).
  { intros k x Hk Hx. unfold region_pages in Hk. apply elem_of_list_to_set, elem_of_seqZ in Hk.
    change kPageSize with 8192 in Hk. unfold in_range in Hx. pose proof (Z.div_mod ptr 8192).
    pose proof (Z.mul_div_le actual 8192). lia. }
  exists ptr, actual, (upd_pages_taken (region_pages ptr actual ∪ w.(pages_taken)) (upd_sys s w)). split_and!; [done| |right].
  - split; [|split; [done|simpl; set_solver]]. destruct (ms_ok _ _ Hst). split; try done.
    { intros k x [Hk|Hk]%elem_of_union Hx; [|by eapply wo_pages0]. by apply (Hf x), (Hpage k). }
    intros x (k & [Hk|Hk]%elem_of_union & Hx); [|by apply wo_paged0; exists k].
    destruct (Hf x ltac:(by apply (Hpage k))) as [Hnot _]. split; [intros Hc; by apply Hnot, (wo_chunk_used w Hw)|].
    intros i Ho. apply Hnot, (po_used _ _ _ (wo_pha w Hw i)). by destruct i.
  - split; [done|]. unfold region_fresh. change kPageSize with 8192. split_and!; try done.
    intros k Hk. assert (Hin : k ∈ region_pages ptr actual).
    { unfold region_pages. apply elem_of_list_to_set, elem_of_seqZ. done. }
    split; [|simpl; set_solver]. intros Ht. destruct (Hf (k * 8192)) as [Hn _].
    + apply (Hpage k); [done|]. unfold in_range. lia.
    + apply Hn, (wo_pages w Hw k); [done|]. unfold in_range. change kPageSize with 8192. lia.
Qed.

Lemma wp_PHA_Init i w :
  world_ok w ->
  wp (PHA_Init (obj_size i) (pha i) (put_pha i)) (fun _ w' => world_ok w' /\ (i <> ASpan -> env_step w w') /\ (forall j, j <> i -> pha j w' = pha j w) /\
    (i <> ASet -> live_objects (pha i w') = ∅)) w.
Proof.
  intros Hw. unfold PHA_Init. apply wp_bind, wp_modify. fold PHA_zero.
  assert (Hlive : forall j (a : PageHeapAllocator) v, j <> ASpan -> pha ASpan (put_pha j a v) = pha ASpan v)
    by (intros; by apply pha_put_ne).
  assert (Hw0 : world_ok (put_pha i PHA_zero w)).
  { assert (Hno : forall x, ~ owns (obj_size i) PHA_zero x).
    { intros x [(p & Hp & _)|Hx]; [by apply elem_of_empty in Hp|unfold in_range in Hx; simpl in Hx; lia]. }
    apply world_ok_put; [done| | |by intros x ?%Hno].
    - split; simpl; try done. by intros x ?%Hno.
    - intros _. split; [apply NoDup_nil_2|]. intros p Hp. by apply elem_of_nil in Hp. }
  apply wp_bind. eapply wp_mono; [by apply (wp_PHA_New i (put_pha i PHA_zero w))|].
  intros p w1 (Hw1 & Hpg & Hj & Hp). apply wp_modify. unfold PHA_Delete.
  assert (Hpk : world_ok (put_pha i (mkPHA (pha i w1).(free_area_) (pha i w1).(free_avail_)
    (p :: (pha i w1).(free_list_)) (i32 ((pha i w1).(inuse_) - 1)) (pha i w1).(carved_)) w1)).
  { destruct (decide (i = ASet)) as [->|Hne].
    - apply world_ok_put; [done|by destruct (wo_pha w1 Hw1 ASet)|done|by left].
    - apply (PHA_Delete_ok i p w1); [done..|]. destruct (Hp Hne) as (_ & _ & _ & ->). set_solver. }
  split; [exact Hpk|]. split; [|split; [intros j Hne; by rewrite pha_put_ne, Hj, pha_put_ne|]].
  2:{ intros Hne. destruct (Hp Hne) as (_ & _ & _ & Hl).
      destruct (PHA_Delete_ok i p w1 Hw1 Hne) as (_ & _ & _ & Hd); [rewrite Hl; set_solver|].
      unfold PHA_Delete in Hd. rewrite Hd, Hl, pha_put. unfold live_objects. simpl. set_solver. }
  intros Hi. match goal with |- env_step w ?x => set (w2 := x) in * end.
  assert (Hsame : pha ASpan w2 = pha ASpan w) by (unfold w2; by rewrite Hlive, Hj, Hlive).
  assert (Hpg2 : w2.(pages_taken) = w.(pages_taken)) by (unfold w2; by rewrite put_pha_pages, Hpg, put_pha_pages).
  split; [done|]. simpl. rewrite Hpg2. split; [|done]. by rewrite (Hsame : w2.(span_allocator_) = _).
Qed.

Lemma put_ASet_step w a :
  world_ok w -> pha_ok (obj_size ASet) (used w.(sys).(os)) a ->
  (forall x, owns (obj_size ASet) a x -> owns (obj_size ASet) (pha ASet w) x) ->
  env_step w (upd_setnode_allocator a w).
Proof.
  intros Hw Ha Ho. split; [|done]. apply (world_ok_put ASet a w); [done|done|done|by left; apply Ho].
Qed.

Lemma World_object_New i w :
  world_ok w -> i <> ASpan ->
  wp (PHA_New (obj_size i) (pha i) (put_pha i)) (fun _ w' => env_step w w') w.
Proof.
  intros Hw Hi. eapply wp_mono; [by apply wp_PHA_New|]. intros p w' (Hw' & Hpg & Hj & _).
  split; [done|]. simpl. rewrite Hpg. split; [|done]. by rewrite (Hj ASpan (not_eq_sym Hi) : w'.(span_allocator_) = _).
Qed.

#[local] Instance World_laws : EnvLaws World.
Proof.
  split.
  - intros size w Hw Hs. by apply World_SystemAlloc.
  - intros p len w Hw.
    destruct (wp_total _ _ _ (no_oom_SystemRelease p len) (wp_SystemRelease p len w.(sys) (wo_sys w Hw)))
      as (b & s & Heq & Hg & _). exists b, (upd_sys s w). simpl. unfold on_sys. rewrite Heq. split; [done|].
    apply meta_step_env, meta_step_sys; [done|apply Hg..].
  - intros p len w Hw. by apply env_step_refl.
  - intros n w Hw Hn. destruct (wp_run _ _ _ (wp_MetaDataAlloc n w Hw Hn)) as [Hoom|(r & w' & Heq & Hst & _)].
    + by destruct (no_oom_MetaDataAlloc n w).
    + exists r, w'. split; [done|]. by apply meta_step_env.
  - intros w Hw. destruct (wp_run _ _ _ (wp_PHA_New ASpan w Hw)) as [Hoom|(p & w' & Heq & Hw' & Hpg & _ & Hp)]; [by left|right].
    destruct (Hp ltac:(done)) as (Hp0 & Hu & Hnew & Hlive). exists p, w'. split_and!; try done.
    + simpl. by rewrite Hpg.
    + simpl. eapply used_image; [|done]. apply Hw'.
  - intros p w Hw Hp. destruct (PHA_Delete_ok ASpan p w Hw ltac:(done) Hp) as (Hw' & Hpg & _ & Hlive).
    split_and!; [done|done|done].
  - intros w Hw. apply wp_run. simpl. unfold setnode_allocate. apply wp_bind, wp_get, wp_bind.
    apply wp_mono with (fun _ w1 => env_step w w1).
    { case_if; [|by apply wp_ret, env_step_refl]. apply wp_bind. eapply wp_mono; [by apply (wp_PHA_Init ASet w)|].
      intros u w1 (_ & Hst & _ & _). specialize (Hst ltac:(done)). apply wp_modify. eapply env_step_trans; [exact Hst|]. assert (Hw1 : world_ok w1) by apply Hst.
      split; [|done]. destruct Hw1. by split. }
    intros _ w1 Hst. eapply wp_mono; [apply (World_object_New ASet w1); [apply Hst|done]|].
    intros u2 w2 Hst2. by eapply env_step_trans.
  - intros p w Hw. by apply put_ASet_step; destruct (wo_pha w Hw ASet).
  - intros w Hw. apply wp_run. by apply (World_object_New AStack w).
  - intros w Hw. apply (used_bound w.(sys).(os)); [apply Hw|]. intros k x Hk Hx. apply (wo_pages w Hw k x Hk).
    unfold in_range. lia.
Qed.

(** ** Thread caches *)

#[local] Instance World_cache_env : CacheEnv World := {
  threadcache_New := threadcache_allocator_New;
  threadcache_Delete := threadcache_allocator_Delete;
  stacktrace_Delete := stacktrace_allocator_Delete;
  caches w := live_objects w.(threadcache_allocator_)
}.

Lemma caches_eq w w' : pha ACache w' = pha ACache w -> caches w' = caches w.
Proof. simpl. by intros ->. Qed.

Lemma wp_pha_keep {A} (m : MW A) (Q : A -> World -> Prop) w r w' :
  wp m (fun r w' => Q r w' /\ pha ACache w' = pha ACache w) w -> m w = Ok (r, w') -> caches w' = caches w.
Proof. intros Hwp Heq. apply caches_eq. exact (proj2 (wp_Ok _ _ _ _ _ Hwp Heq)). Qed.

#[local] Instance World_cache_laws : CacheEnvLaws World.
Proof.
  split.
  - intros w Hw. destruct (wp_run _ _ _ (wp_PHA_New ACache w Hw)) as [Hoom|(p & w' & Heq & Hw' & Hpg & Hj & Hp)]; [by left|right].
    destruct (Hp ltac:(done)) as (Hp0 & _ & Hnew & Hlive). exists p, w'. split; [done|]. split; [|done].
    split; [done|]. simpl. by rewrite (Hj ASpan ltac:(done) : w'.(span_allocator_) = _), Hpg.
  - intros p w Hw Hp. destruct (PHA_Delete_ok ACache p w Hw ltac:(done) Hp) as (Hw' & Hpg & Hj & Hlive).
    split; [|done]. split_and!; [done|done|done].
  - intros size al w ptr actual w' Heq. apply caches_eq. simpl in Heq. unfold on_sys in Heq.
    destruct (SystemAlloc kDebugMode size al w.(sys)) as [[[p0 a0] s]| | |]; simpl in Heq; try done.
    injection Heq as <- <- <-. by destruct (p0 =? 0).
  - intros a len w b w' Heq. apply caches_eq. simpl in Heq. unfold on_sys in Heq.
    destruct (SystemRelease a len w.(sys)) as [[b0 s]| | |]; simpl in Heq; try done. by injection Heq as <- <-.
  - done.
  - intros size w p w' Hw Hs. apply (wp_pha_keep _ (fun _ _ => True)).
    eapply wp_mono; [by apply wp_MetaDataAlloc|]. intros r w1 [Hst _]. split; [done|apply Hst].
  - intros w p w' Hw. apply (wp_pha_keep _ (fun _ _ => True)).
    eapply wp_mono; [by apply (wp_PHA_New ASpan)|]. intros r w1 (_ & _ & Hj & _). split; [done|by apply Hj].
  - done.
  - intros w p w' Hw. apply (wp_pha_keep _ (fun _ _ => True)). unfold setnode_allocate. apply wp_bind, wp_get, wp_bind.
    apply wp_mono with (fun _ w1 => world_ok w1 /\ pha ACache w1 = pha ACache w).
    { case_if; [|by apply wp_ret]. apply wp_bind. eapply wp_mono; [by apply (wp_PHA_Init ASet w)|].
      intros u w1 (Hw1 & _ & Hj & _). apply wp_modify. split; [destruct Hw1; by split|]. by rewrite <- (Hj ACache). }
    intros _ w1 [Hw1 Hc]. eapply wp_mono; [by apply (wp_PHA_New ASet w1)|]. intros r w2 (_ & _ & Hj & _).
    split; [done|]. by rewrite Hj.
  - done.
  - intros w p w' Hw. apply (wp_pha_keep _ (fun _ _ => True)).
    eapply wp_mono; [by apply (wp_PHA_New AStack)|]. intros r w1 (_ & _ & Hj & _). split; [done|by apply Hj].
Qed.

(** ** The state [InitStaticVars] starts from *)

Lemma World_zero_ok o skip_sbrk skip_mmap disable_release :
  os_ok o -> world_ok (World_zero o skip_sbrk skip_mmap disable_release).
Proof.
  intros Ho. assert (Hno : forall sz x, ~ owns sz PHA_zero x).
  { intros sz x [(p & Hp & _)|Hx]; [by apply elem_of_empty in Hp|unfold in_range in Hx; simpl in Hx; lia]. }
  split; simpl; try done.
  - split; [done|by left].
  - intros x Hx. unfold chunk, in_range in Hx. simpl in Hx. lia.
  - intros i. assert (pha i (World_zero o skip_sbrk skip_mmap disable_release) = PHA_zero) as -> by (by destruct i).
    split; simpl; try done. by intros x ?%Hno.
  - intros i Hi. by destruct i; split; simpl; try apply NoDup_nil_2; intros p ?%elem_of_nil.
  - intros i x Hx. by destruct i; apply Hno in Hx.
  - intros i j x Hx. by destruct i; apply Hno in Hx.
  - intros x (k & Hk & _). by apply elem_of_empty in Hk.
Qed.

Lemma wp_InitModuleAllocators w : world_ok w ->
  wp InitModuleAllocators (fun _ w' => world_ok w' /\ caches w' = ∅) w.
Proof.
  intros Hw. apply wp_bind. apply wp_mono with (fun _ w1 => world_ok w1).
  { apply wp_bind. eapply wp_mono; [by apply (wp_PHA_Init ASpan w)|]. intros _ w1 [Hw1 _].
    apply wp_bind. eapply wp_mono; [by apply (wp_PHA_New ASpan w1)|]. intros _ w2 [Hw2 _].
    apply wp_bind. eapply wp_mono; [by apply (wp_PHA_New ASpan w2)|]. intros _ w3 [Hw3 _].
    eapply wp_mono; [by apply (wp_PHA_Init AStack w3)|]. by intros _ w4 [Hw4 _]. }
  intros _ w1 Hw1. eapply wp_mono; [by apply (wp_PHA_Init ACache w1)|]. intros _ w2 (Hw2 & _ & _ & Hl). split; [done|].
  by apply Hl.
Qed.

(** The states reached by the calls of the page heap and of the thread caches. *)
Inductive world_step : World -> World -> Prop :=
| step_SystemAlloc size ptr actual w w' : 0 < size < 2 ^ 64 ->
    TCMalloc_SystemAlloc size kPageSize w = Ok (ptr, actual, w') -> world_step w w'
| step_SystemRelease p len b w w' : TCMalloc_SystemRelease p len w = Ok (b, w') -> world_step w w'
| step_MetaDataAlloc size p w w' : 0 < size < 2 ^ 63 -> MetaDataAlloc size w = Ok (p, w') -> world_step w w'
| step_span_New p w w' : span_New w = Ok (p, w') -> world_step w w'
| step_span_Delete p w : p ∈ live w -> world_step w (span_Delete p w)
| step_setnode_New p w w' : setnode_New w = Ok (p, w') -> world_step w w'
| step_setnode_Delete p w : world_step w (setnode_Delete p w)
| step_stacktrace_New p w w' : stacktrace_New w = Ok (p, w') -> world_step w w'
| step_threadcache_New p w w' : threadcache_New w = Ok (p, w') -> world_step w w'
| step_threadcache_Delete p w : p ∈ caches w -> world_step w (threadcache_Delete p w).

Inductive world_reach (o : Sys) (skip_sbrk skip_mmap disable_release : bool) : World -> Prop :=
| reach_init w : InitModuleAllocators (World_zero o skip_sbrk skip_mmap disable_release) = Ok (tt, w) ->
    world_reach o skip_sbrk skip_mmap disable_release w
| reach_step w w' : world_reach o skip_sbrk skip_mmap disable_release w -> world_step w w' ->
    world_reach o skip_sbrk skip_mmap disable_release w'.

Lemma world_step_ok w w' : world_ok w -> world_step w w' -> world_ok w'.
Proof.
  intros Hw. destruct 1 as [size ptr actual w w' Hs Heq|p len b w w' Heq|size p w w' Hs Heq|p w w' Heq|p w Hp|
    p w w' Heq|p w|p w w' Heq|p w w' Heq|p w Hp].
  - destruct (@SystemAlloc_ok _ _ _ World_laws size w Hw Hs) as (? & ? & ? & Heq' & Hst & _). rewrite Heq in Heq'.
    simplify_eq. apply Hst.
  - destruct (@SystemRelease_ok _ _ _ World_laws p len w Hw) as (? & ? & Heq' & Hst). rewrite Heq in Heq'. simplify_eq. apply Hst.
  - destruct (@MetaDataAlloc_ok _ _ _ World_laws size w Hw Hs) as (? & ? & Heq' & Hst). rewrite Heq in Heq'. simplify_eq. apply Hst.
  - destruct (@span_New_ok _ _ _ World_laws w Hw) as [Heq'|(? & ? & Heq' & Hok & _)]; rewrite Heq in Heq'; by simplify_eq.
  - by apply (@span_Delete_ok _ _ _ World_laws p w Hw).
  - destruct (@setnode_New_ok _ _ _ World_laws w Hw) as [Heq'|(? & ? & Heq' & Hst)]; rewrite Heq in Heq'; simplify_eq; apply Hst.
  - apply (@setnode_Delete_ok _ _ _ World_laws p w Hw).
  - destruct (@stacktrace_New_ok _ _ _ World_laws w Hw) as [Heq'|(? & ? & Heq' & Hst)]; rewrite Heq in Heq'; simplify_eq; apply Hst.
  - destruct (@threadcache_New_ok _ _ _ _ World_cache_laws w Hw) as [Heq'|(? & ? & Heq' & Hst & _)]; rewrite Heq in Heq'; simplify_eq; apply Hst.
  - apply (@threadcache_Delete_ok _ _ _ _ World_cache_laws p w Hw Hp).
Qed.

Lemma world_reach_ok o b1 b2 b3 w : os_ok o -> world_reach o b1 b2 b3 w -> world_ok w.
Proof.
  intros Ho. induction 1 as [w Heq|w w' _ IH Hst]; [|by eapply world_step_ok].
  exact (proj1 (wp_Ok _ _ _ _ _ (wp_InitModuleAllocators _ (World_zero_ok o b1 b2 b3 Ho)) Heq)).
Qed.

(** C28: [MetaDataAlloc], the object allocators and the system allocator give the
    page heap what it relies on: every law of [EnvLaws] holds of them, for any
    operating system that keeps [OSLaws]. *)
Theorem World_provides_Env : EnvLaws World.
Proof. exact World_laws. Qed.

(** C27: from [InitModule] on, over any sequence of calls of the page heap and of the
    thread caches: two different metadata objects (span descriptors, set nodes, stack
    traces, thread caches), in use or free, never overlap; none overlaps memory that is still to be handed out as
    metadata; and none overlaps a page obtained for the page heap. *)
Theorem metadata_separate o b1 b2 b3 w :
  os_ok o -> world_reach o b1 b2 b3 w ->
  (forall i j p q x, p ∈ (pha i w).(carved_) -> q ∈ (pha j w).(carved_) ->
     in_range x p (obj_size i) -> in_range x q (obj_size j) -> i = j /\ p = q) /\
  (forall i p x, p ∈ (pha i w).(carved_) -> in_range x p (obj_size i) ->
     ~ chunk w x /\ ~ in_range x (pha i w).(free_area_) (pha i w).(free_avail_) /\ ~ paged w x) /\
  (forall x, paged w x -> ~ chunk w x).
Proof.
  intros Ho Hr. pose proof (world_reach_ok _ _ _ _ _ Ho Hr) as [].
  assert (Hown : forall i p x, p ∈ (pha i w).(carved_) -> in_range x p (obj_size i) -> owns (obj_size i) (pha i w) x)
    by (intros; left; eauto).
  split_and!.
  - intros i j p q x Hp Hq Hx Hx'. assert (i = j) as <- by (eapply wo_pha_sep0; eauto). split; [done|].
    destruct (decide (p = q)) as [|Hne]; [done|]. unfold in_range in *.
    destruct (po_sep _ _ _ (wo_pha0 i) p q Hp Hq Hne); lia.
  - intros i p x Hp Hx. split_and!; [eauto|by eapply po_area_sep|].
    intros Hpg. destruct (wo_paged0 x Hpg) as [_ Hno]. by apply (Hno i), (Hown i p).
  - intros x Hx. by apply wo_paged0.
Qed.
End MetaData.
