(* ===== verification/BumpOS.v ===== *)
(** A small operating system: memory is handed out at rising addresses up to a limit,
    and what is unmapped is remembered.  It keeps [OSLaws], so the theorems that rest
    on them apply to it, and it runs: the scenarios below are evaluated on it. *)
From S2P Require Import Prelude SizeMap Span PackedCache PageMap SystemAlloc SysEnv MetaData.

(** The events, latest first: [n] bytes at [p] were obtained ([true]) or unmapped. *)
Record BumpOS := mkBump { next_addr : Z; events : list (bool * Z * Z) }.

Definition bump_base : Z := 2 ^ 30.
Definition bump_limit : Z := 2 ^ 40.

Fixpoint in_use_bytes (l : list (bool * Z * Z)) (a : Z) : Prop :=
  match l with
  | [] => False
  | (true, p, n) :: l => p <= a < p + n \/ in_use_bytes l a
  | (false, p, n) :: l => in_use_bytes l a /\ ~ p <= a < p + n
  end.

(** The old break; memory is taken in units of 4096 bytes. *)
Definition bump_take (n : Z) (o : BumpOS) : Z * BumpOS :=
  let m := (n + 4095) / 4096 * 4096 in
  if o.(next_addr) + m <=? bump_limit then
    (o.(next_addr), mkBump (o.(next_addr) + m) ((true, o.(next_addr), n) :: o.(events)))
  else (MAP_FAILED, o).

#[export] Instance BumpOS_os : OS (Sys := BumpOS) := {
  getpagesize := 4096;
  sbrk n o := if n =? 0 then (o.(next_addr), o) else bump_take n o;
  mmap _ n o := bump_take n o;
  munmap p n o := mkBump o.(next_addr) ((false, p, n) :: o.(events));
  madvise _ _ o := (0, 0, o);
  madvise_retries := 0
}.

#[export] Instance BumpOS_ghost : OSGhost (Sys := BumpOS) := {
  os_ok o := bump_base <= o.(next_addr) <= bump_limit /\ o.(next_addr) mod 4096 = 0 /\
    forall a, in_use_bytes o.(events) a -> bump_base <= a < o.(next_addr);
  used o a := in_use_bytes o.(events) a;
  image a := 0 < a < bump_base
}.

Lemma bump_take_ok n o :
  os_ok o -> 0 < n < 2 ^ 64 ->
  exists r o', bump_take n o = (r, o') /\ os_ok o' /\ obtained n o r o' /\ (r <> MAP_FAILED -> r mod 4096 = 0).
Proof.
  intros Ho Hn. pose proof Ho as (Hnx & Hal & Hin). unfold bump_take, bump_base, bump_limit in *. cbv zeta.
  pose proof (Z.div_mod (n + 4095) 4096 ltac:(lia)). pose proof (Z.mod_pos_bound (n + 4095) 4096 ltac:(lia)).
  set (m := (n + 4095) / 4096 * 4096) in *.
  destruct (Z.leb_spec (o.(next_addr) + m) (2 ^ 40)); eexists _, _; (split; [reflexivity|]).
  - split; [|split; [right|done]].
    + simpl. unfold bump_base, bump_limit. split_and!; [lia|lia|unfold m; by rewrite Z_mod_plus_full|].
      intros a [?|Ha]; [lia|]. specialize (Hin a Ha). lia.
    + unfold kAddressBits. split_and!; [lia|lia|intros a Ha Hu; specialize (Hin a Hu); lia|]. intros a. simpl. tauto.
  - split; [done|]. split; [by left|done].
Qed.

#[export] Instance BumpOS_laws : OSLaws (Sys := BumpOS).
Proof.
  split.
  - by exists 12.
  - intros o Ho. exists o.(next_addr), o. split_and!; try done; destruct Ho as [Ho _];
      unfold bump_base, bump_limit in Ho; lia.
  - intros n o Ho Hn. simpl. destruct (Z.eqb_spec n 0); [lia|].
    destruct (bump_take_ok n o Ho Hn) as (r & o' & ? & ? & ? & _). eauto.
  - intros hint n o Ho Hn. by apply bump_take_ok.
  - intros p n o (Hnx & Hal & Hin) _ _. split; [|done]. split_and!; simpl; try lia. intros a [Ha _]. auto.
  - intros p n o Ho. by exists 0, 0, o.
  - intros p n o Ho. simpl. by intros (? & _).
  - intros o a (Hnx & _ & Hin) Hu. specialize (Hin a Hu). simpl. lia.
  - intros o X (Hnx & _ & Hin) HX. unfold bump_base, bump_limit in *.
    assert (X ⊆ list_to_set (seqZ 0 (2 ^ 27))) as Hsub.
    { intros k Hk. rewrite elem_of_list_to_set, elem_of_seqZ.
      specialize (Hin (k * kPageSize)). unfold used in HX. simpl in HX.
      specialize (HX k (k * kPageSize) Hk). change kPageSize with 8192 in *. specialize (Hin ltac:(apply HX; lia)). lia. }
    apply subseteq_size in Hsub. rewrite size_list_to_set, length_seqZ in Hsub by apply NoDup_seqZ. lia.
Qed.

Definition bump_start : BumpOS := mkBump bump_base [].

Lemma bump_start_ok : os_ok bump_start.
Proof. by split_and!; simpl. Qed.
