(* ===== verification/PageHeap.v ===== *)
(** The page heap: [src/page_heap.h] and [src/page_heap.cc].

    [PageHeap] is the state of the class (with the span descriptors it manages,
    the process-wide flags it reads and the state [W] of its surroundings); each
    method is a computation on that state.  All methods run under [lock_].  The
    [ASSERT]s of the source are no-ops in release builds and do not appear; that
    they hold is part of what is proved in the files that follow. *)
From Stdlib Require Import Floats.SpecFloat.
From S2P Require Import Prelude SizeMap Span PackedCache PageMap SysEnv.

(** ** State *)

(** [PageHeap::Stats]; every counter is a [uint64_t]. *)
Record Stats := mkStats {
  system_bytes : Z;
  free_bytes : Z;
  unmapped_bytes : Z;
  committed_bytes : Z;
  scavenge_count : Z;
  commit_count : Z;
  total_commit_bytes : Z;
  decommit_count : Z;
  total_decommit_bytes : Z;
  reserve_count : Z;
  total_reserve_bytes : Z
}.
Definition set_free_bytes (v : Z) (t : Stats) : Stats :=
  mkStats
    t.(system_bytes) v t.(unmapped_bytes) t.(committed_bytes) t.(scavenge_count)
    t.(commit_count) t.(total_commit_bytes) t.(decommit_count) t.(total_decommit_bytes)
    t.(reserve_count) t.(total_reserve_bytes).
Definition set_unmapped_bytes (v : Z) (t : Stats) : Stats :=
  mkStats
    t.(system_bytes) t.(free_bytes) v t.(committed_bytes) t.(scavenge_count)
    t.(commit_count) t.(total_commit_bytes) t.(decommit_count) t.(total_decommit_bytes)
    t.(reserve_count) t.(total_reserve_bytes).
Definition set_committed_bytes (v : Z) (t : Stats) : Stats :=
  mkStats
    t.(system_bytes) t.(free_bytes) t.(unmapped_bytes) v t.(scavenge_count) t.(commit_count)
    t.(total_commit_bytes) t.(decommit_count) t.(total_decommit_bytes) t.(reserve_count)
    t.(total_reserve_bytes).
Definition set_scavenge_count (v : Z) (t : Stats) : Stats :=
  mkStats
    t.(system_bytes) t.(free_bytes) t.(unmapped_bytes) t.(committed_bytes) v
    t.(commit_count) t.(total_commit_bytes) t.(decommit_count) t.(total_decommit_bytes)
    t.(reserve_count) t.(total_reserve_bytes).
Definition set_commit_count (v : Z) (t : Stats) : Stats :=
  mkStats
    t.(system_bytes) t.(free_bytes) t.(unmapped_bytes) t.(committed_bytes)
    t.(scavenge_count) v t.(total_commit_bytes) t.(decommit_count) t.(total_decommit_bytes)
    t.(reserve_count) t.(total_reserve_bytes).
Definition set_total_commit_bytes (v : Z) (t : Stats) : Stats :=
  mkStats
    t.(system_bytes) t.(free_bytes) t.(unmapped_bytes) t.(committed_bytes)
    t.(scavenge_count) t.(commit_count) v t.(decommit_count) t.(total_decommit_bytes)
    t.(reserve_count) t.(total_reserve_bytes).
Definition set_decommit_count (v : Z) (t : Stats) : Stats :=
  mkStats
    t.(system_bytes) t.(free_bytes) t.(unmapped_bytes) t.(committed_bytes)
    t.(scavenge_count) t.(commit_count) t.(total_commit_bytes) v t.(total_decommit_bytes)
    t.(reserve_count) t.(total_reserve_bytes).
Definition set_total_decommit_bytes (v : Z) (t : Stats) : Stats :=
  mkStats
    t.(system_bytes) t.(free_bytes) t.(unmapped_bytes) t.(committed_bytes)
    t.(scavenge_count) t.(commit_count) t.(total_commit_bytes) t.(decommit_count) v
    t.(reserve_count) t.(total_reserve_bytes).
Definition Stats_zero : Stats := mkStats 0 0 0 0 0 0 0 0 0 0 0.

Definition kForcedCoalesceInterval : Z := 128 * 1024 * 1024.
Definition kPageMapBigAllocationThreshold : Z := Z.shiftl 128 20.
Definition kMinSystemAlloc : Z := kMaxPages.
Definition kMaxReleaseDelay : Z := Z.shiftl 1 20.
Definition kDefaultReleaseDelay : Z := Z.shiftl 1 18.
Definition ENOMEM : Z := 12.

(** [length << kPageShift] in a 64-bit word. *)
Definition bytes_of (n : Z) : Z := u64 (Z.shiftl n kPageShift).

Section PageHeap.
Context {W : Type} {E : Env W} {P : PageMap W}.

(** The address of the array [free_], a member of the statically allocated heap
    object, and of its list headers: each entry is two [Span]s of 48 bytes. *)
Context (free_ : Z).
Definition sizeof_Span : Z := 48.
Definition free_normal (i : Z) : Z := free_ + (2 * i) * sizeof_Span.
Definition free_returned (i : Z) : Z := free_ + (2 * i + 1) * sizeof_Span.
Definition free_list (loc : Location) (i : Z) : Z :=
  match loc with ON_RETURNED_FREELIST => free_returned i | _ => free_normal i end.

Record PageHeap := mkPageHeap {
  smallest_span_size_ : Z;
  pagemap_cache_ : gmap Z Z;
  pagemap_ : pm_t;
  large_normal_ : SpanSet;
  large_returned_ : SpanSet;
  stats_ : Stats;
  scavenge_counter_ : Z;
  release_index_ : Z;
  aggressive_decommit_ : bool;
  grown_by : Z;  (* [LockingContext::grown_by] of the current operation *)
  spans : gmap Z Span;  (* the live span descriptors, by address *)
  span_links : links;  (* their [next] and [prev], and those of the list headers *)
  growth_stacks_ : list (Z * Z);  (* [Static::growth_stacks_]: addresses and sizes, newest first *)
  errno : Z;
  heap_limit_mb : Z;  (* [FLAGS_tcmalloc_heap_limit_mb] *)
  release_rate : spec_float;  (* [FLAGS_tcmalloc_release_rate] *)
  world : W  (* everything behind the environment interface *)
}.

Definition upd_pagemap_cache (f : gmap Z Z -> gmap Z Z) (h : PageHeap) : PageHeap :=
  mkPageHeap
    h.(smallest_span_size_) (f (h.(pagemap_cache_))) h.(pagemap_) h.(large_normal_)
    h.(large_returned_) h.(stats_) h.(scavenge_counter_) h.(release_index_)
    h.(aggressive_decommit_) h.(grown_by) h.(spans) h.(span_links) h.(growth_stacks_)
    h.(errno) h.(heap_limit_mb) h.(release_rate) h.(world).
Definition upd_pagemap (f : pm_t -> pm_t) (h : PageHeap) : PageHeap :=
  mkPageHeap
    h.(smallest_span_size_) h.(pagemap_cache_) (f (h.(pagemap_))) h.(large_normal_)
    h.(large_returned_) h.(stats_) h.(scavenge_counter_) h.(release_index_)
    h.(aggressive_decommit_) h.(grown_by) h.(spans) h.(span_links) h.(growth_stacks_)
    h.(errno) h.(heap_limit_mb) h.(release_rate) h.(world).
Definition upd_large_normal (f : SpanSet -> SpanSet) (h : PageHeap) : PageHeap :=
  mkPageHeap
    h.(smallest_span_size_) h.(pagemap_cache_) h.(pagemap_) (f (h.(large_normal_)))
    h.(large_returned_) h.(stats_) h.(scavenge_counter_) h.(release_index_)
    h.(aggressive_decommit_) h.(grown_by) h.(spans) h.(span_links) h.(growth_stacks_)
    h.(errno) h.(heap_limit_mb) h.(release_rate) h.(world).
Definition upd_large_returned (f : SpanSet -> SpanSet) (h : PageHeap) : PageHeap :=
  mkPageHeap
    h.(smallest_span_size_) h.(pagemap_cache_) h.(pagemap_) h.(large_normal_) (f
    (h.(large_returned_))) h.(stats_) h.(scavenge_counter_) h.(release_index_)
    h.(aggressive_decommit_) h.(grown_by) h.(spans) h.(span_links) h.(growth_stacks_)
    h.(errno) h.(heap_limit_mb) h.(release_rate) h.(world).
Definition upd_stats (f : Stats -> Stats) (h : PageHeap) : PageHeap :=
  mkPageHeap
    h.(smallest_span_size_) h.(pagemap_cache_) h.(pagemap_) h.(large_normal_)
    h.(large_returned_) (f (h.(stats_))) h.(scavenge_counter_) h.(release_index_)
    h.(aggressive_decommit_) h.(grown_by) h.(spans) h.(span_links) h.(growth_stacks_)
    h.(errno) h.(heap_limit_mb) h.(release_rate) h.(world).
Definition upd_scavenge_counter (f : Z -> Z) (h : PageHeap) : PageHeap :=
  mkPageHeap
    h.(smallest_span_size_) h.(pagemap_cache_) h.(pagemap_) h.(large_normal_)
    h.(large_returned_) h.(stats_) (f (h.(scavenge_counter_))) h.(release_index_)
    h.(aggressive_decommit_) h.(grown_by) h.(spans) h.(span_links) h.(growth_stacks_)
    h.(errno) h.(heap_limit_mb) h.(release_rate) h.(world).
Definition upd_release_index (f : Z -> Z) (h : PageHeap) : PageHeap :=
  mkPageHeap
    h.(smallest_span_size_) h.(pagemap_cache_) h.(pagemap_) h.(large_normal_)
    h.(large_returned_) h.(stats_) h.(scavenge_counter_) (f (h.(release_index_)))
    h.(aggressive_decommit_) h.(grown_by) h.(spans) h.(span_links) h.(growth_stacks_)
    h.(errno) h.(heap_limit_mb) h.(release_rate) h.(world).
Definition upd_aggressive_decommit (f : bool -> bool) (h : PageHeap) : PageHeap :=
  mkPageHeap
    h.(smallest_span_size_) h.(pagemap_cache_) h.(pagemap_) h.(large_normal_)
    h.(large_returned_) h.(stats_) h.(scavenge_counter_) h.(release_index_) (f
    (h.(aggressive_decommit_))) h.(grown_by) h.(spans) h.(span_links) h.(growth_stacks_)
    h.(errno) h.(heap_limit_mb) h.(release_rate) h.(world).
Definition upd_grown_by (f : Z -> Z) (h : PageHeap) : PageHeap :=
  mkPageHeap
    h.(smallest_span_size_) h.(pagemap_cache_) h.(pagemap_) h.(large_normal_)
    h.(large_returned_) h.(stats_) h.(scavenge_counter_) h.(release_index_)
    h.(aggressive_decommit_) (f (h.(grown_by))) h.(spans) h.(span_links) h.(growth_stacks_)
    h.(errno) h.(heap_limit_mb) h.(release_rate) h.(world).
Definition upd_spans (f : gmap Z Span -> gmap Z Span) (h : PageHeap) : PageHeap :=
  mkPageHeap
    h.(smallest_span_size_) h.(pagemap_cache_) h.(pagemap_) h.(large_normal_)
    h.(large_returned_) h.(stats_) h.(scavenge_counter_) h.(release_index_)
    h.(aggressive_decommit_) h.(grown_by) (f (h.(spans))) h.(span_links) h.(growth_stacks_)
    h.(errno) h.(heap_limit_mb) h.(release_rate) h.(world).
Definition upd_span_links (f : links -> links) (h : PageHeap) : PageHeap :=
  mkPageHeap
    h.(smallest_span_size_) h.(pagemap_cache_) h.(pagemap_) h.(large_normal_)
    h.(large_returned_) h.(stats_) h.(scavenge_counter_) h.(release_index_)
    h.(aggressive_decommit_) h.(grown_by) h.(spans) (f (h.(span_links))) h.(growth_stacks_)
    h.(errno) h.(heap_limit_mb) h.(release_rate) h.(world).
Definition upd_growth_stacks (f : list (Z * Z) -> list (Z * Z)) (h : PageHeap) : PageHeap :=
  mkPageHeap
    h.(smallest_span_size_) h.(pagemap_cache_) h.(pagemap_) h.(large_normal_)
    h.(large_returned_) h.(stats_) h.(scavenge_counter_) h.(release_index_)
    h.(aggressive_decommit_) h.(grown_by) h.(spans) h.(span_links) (f (h.(growth_stacks_)))
    h.(errno) h.(heap_limit_mb) h.(release_rate) h.(world).
Definition upd_errno (f : Z -> Z) (h : PageHeap) : PageHeap :=
  mkPageHeap
    h.(smallest_span_size_) h.(pagemap_cache_) h.(pagemap_) h.(large_normal_)
    h.(large_returned_) h.(stats_) h.(scavenge_counter_) h.(release_index_)
    h.(aggressive_decommit_) h.(grown_by) h.(spans) h.(span_links) h.(growth_stacks_) (f
    (h.(errno))) h.(heap_limit_mb) h.(release_rate) h.(world).
Definition upd_heap_limit_mb (f : Z -> Z) (h : PageHeap) : PageHeap :=
  mkPageHeap
    h.(smallest_span_size_) h.(pagemap_cache_) h.(pagemap_) h.(large_normal_)
    h.(large_returned_) h.(stats_) h.(scavenge_counter_) h.(release_index_)
    h.(aggressive_decommit_) h.(grown_by) h.(spans) h.(span_links) h.(growth_stacks_)
    h.(errno) (f (h.(heap_limit_mb))) h.(release_rate) h.(world).
Definition upd_release_rate (f : spec_float -> spec_float) (h : PageHeap) : PageHeap :=
  mkPageHeap
    h.(smallest_span_size_) h.(pagemap_cache_) h.(pagemap_) h.(large_normal_)
    h.(large_returned_) h.(stats_) h.(scavenge_counter_) h.(release_index_)
    h.(aggressive_decommit_) h.(grown_by) h.(spans) h.(span_links) h.(growth_stacks_)
    h.(errno) h.(heap_limit_mb) (f (h.(release_rate))) h.(world).
Definition upd_world (f : W -> W) (h : PageHeap) : PageHeap :=
  mkPageHeap
    h.(smallest_span_size_) h.(pagemap_cache_) h.(pagemap_) h.(large_normal_)
    h.(large_returned_) h.(stats_) h.(scavenge_counter_) h.(release_index_)
    h.(aggressive_decommit_) h.(grown_by) h.(spans) h.(span_links) h.(growth_stacks_)
    h.(errno) h.(heap_limit_mb) h.(release_rate) (f (h.(world))).

(** Updates of the counters, modulo 2^64. *)
Definition stats_add (loc : Location) (v : Z) (t : Stats) : Stats :=
  if decide (loc = ON_NORMAL_FREELIST)
  then set_free_bytes (u64 (t.(free_bytes) + v)) t
  else set_unmapped_bytes (u64 (t.(unmapped_bytes) + v)) t.
Definition add_bytes (loc : Location) (v : Z) : PageHeap -> PageHeap :=
  upd_stats (stats_add loc v).
Definition add_committed_bytes (v : Z) : PageHeap -> PageHeap :=
  upd_stats (fun t => set_committed_bytes (u64 (t.(committed_bytes) + v)) t).

Abbreviation MH := (M PageHeap).

(** [span->field]: reading through a pointer that is not a live span is a crash. *)
Definition deref (p : Z) : MH Span := fun h =>
  match h.(spans) !! p with Some s => Ok (s, h) | None => Crash end.
Definition store (p : Z) (f : Span -> Span) : MH unit := fun h =>
  match h.(spans) !! p with
  | Some s => Ok (tt, upd_spans (<[p := f s]>) h)
  | None => Crash
  end.

(** A call into the surroundings. *)
Definition call {A} (f : W -> result (A * W)) : MH A := fun h =>
  '(a, w) ← f h.(world);
  Ok (a, upd_world (fun _ => w) h).

(** ** Construction *)

Definition init_free_lists (L : links) : links :=
  foldl (fun L i => DLL_Init (DLL_Init L (free_normal i)) (free_returned i)) L (seqZ 0 kMaxPages).

(** [L] is what the links of the static objects held before. *)
Definition PageHeap_new (L : links) (smallest_span_size limit_mb : Z) (rate : spec_float) (w : W)
    : result PageHeap :=
  check (Z.land smallest_span_size (smallest_span_size - 1) =? 0) ;;
  Ok (mkPageHeap smallest_span_size Clear pm_init [] [] Stats_zero 0 kMaxPages false 0
        ∅ (init_free_lists L) [] 0 limit_mb rate w).

(** ** The span descriptors and the page map *)

Definition NewSpan (p len : Z) : MH Z :=
  result ← call span_New;
  modify (upd_spans (<[result := NewSpan_fields p len]>)) ;;
  modify (upd_span_links (<[result := mkLink 0 0]>)) ;;
  mret result.

Definition DeleteSpan (span : Z) : MH unit :=
  deref span ;;
  modify (upd_spans (delete span)) ;;
  modify (upd_world (span_Delete span)).

Definition GetDescriptor (h : PageHeap) (p : Z) : Z := pm_get h.(pagemap_) p.

Definition pagemap_set (k v : Z) : MH unit := fun h =>
  m ← pm_set h.(pagemap_) k v;
  Ok (tt, upd_pagemap (fun _ => m) h).

Definition RecordSpan (span : Z) : MH unit :=
  s ← deref span;
  pagemap_set s.(start) span ;;
  (if s.(length_) >? 1 then pagemap_set (u64 (s.(start) + s.(length_) - 1)) span else skip).

Definition InvalidateCachedSizeClass (p : Z) : MH unit :=
  modify (upd_pagemap_cache (fun c => Invalidate (kAddressBits - kPageShift) c p)).
Definition SetCachedSizeClass (p cl : Z) : MH unit :=
  modify (upd_pagemap_cache (fun c => Put (kAddressBits - kPageShift) c p cl)).
Definition TryGetSizeClass (h : PageHeap) (p : Z) : option Z :=
  TryGet (kAddressBits - kPageShift) h.(pagemap_cache_) p.
Definition GetSizeClassOrZero (h : PageHeap) (p : Z) : Z := default 0 (TryGetSizeClass h p).

Definition SetAggressiveDecommit (b : bool) : MH unit :=
  modify (upd_aggressive_decommit (fun _ => b)).

Definition RoundUpSize (h : PageHeap) (n : Z) : Z :=
  let mask := u64 (Z.lnot (u64 (h.(smallest_span_size_) - 1))) in
  let rounded_n := Z.land (u64 (n + h.(smallest_span_size_) - 1)) mask in
  if rounded_n <? n then Z.land (2 ^ 64 - 1) mask else rounded_n.

(** ** Free lists *)

Definition start_of (h : PageHeap) (p : Z) : Z := default 0 (start <$> h.(spans) !! p).

(** Change [large_returned_] for returned spans, [large_normal_] for others. *)
Definition upd_large (loc : Location) (f : SpanSet -> SpanSet) (h : PageHeap) : PageHeap :=
  upd_large_normal (fun x => if decide (loc = ON_RETURNED_FREELIST) then x else f x)
    (upd_large_returned (fun x => if decide (loc = ON_RETURNED_FREELIST) then f x else x) h).

(** [set->insert] with the node's allocation, and [SetSpanSetIterator]: the
    iterator (the node's address) overlays [objects]. *)
Definition large_insert (loc : Location) (span len : Z) : MH unit :=
  node ← call setnode_New;
  h ← get_state;
  let ins := SpanSet_insert (start_of h) (mkSPL span len) in
  modify (upd_large loc ins) ;;
  store span (fun s => set_has_span_iter true (set_objects node s)).

(** [ExtractSpanSetIterator] and [set->erase]. *)
Definition large_erase (loc : Location) (span : Z) : MH unit :=
  s ← deref span;
  store span (set_has_span_iter false) ;;
  modify (upd_large loc (SpanSet_erase span)) ;;
  modify (upd_world (setnode_Delete s.(objects))).

Definition PrependToFreeList (span : Z) : MH unit :=
  s ← deref span;
  modify (add_bytes s.(location) (bytes_of s.(length_))) ;;
  if s.(length_) >? kMaxPages then large_insert s.(location) span s.(length_)
  else
    modify (upd_span_links (fun L =>
      DLL_Prepend L (if decide (s.(location) = ON_NORMAL_FREELIST)
                     then free_normal (s.(length_) - 1) else free_returned (s.(length_) - 1)) span)).

Definition RemoveFromFreeList (span : Z) : MH unit :=
  s ← deref span;
  modify (add_bytes s.(location) (- bytes_of s.(length_))) ;;
  if s.(length_) >? kMaxPages then large_erase s.(location) span
  else modify (upd_span_links (fun L => DLL_Remove L span)).

(** ** Committing and decommitting *)

Definition CommitSpan (span : Z) : MH unit :=
  s ← deref span;
  modify (upd_stats (fun t => set_commit_count (u64 (t.(commit_count) + 1)) t)) ;;
  modify (upd_world (TCMalloc_SystemCommit (bytes_of s.(start)) (bytes_of s.(length_)))) ;;
  modify (add_committed_bytes (bytes_of s.(length_))) ;;
  modify (upd_stats (fun t =>
    set_total_commit_bytes (u64 (t.(total_commit_bytes) + bytes_of s.(length_))) t)).

Definition DecommitSpan (span : Z) : MH bool :=
  s ← deref span;
  modify (upd_stats (fun t => set_decommit_count (u64 (t.(decommit_count) + 1)) t)) ;;
  rv ← call (TCMalloc_SystemRelease (bytes_of s.(start)) (bytes_of s.(length_)));
  (if (rv : bool) then
     modify (add_committed_bytes (- bytes_of s.(length_))) ;;
     modify (upd_stats (fun t =>
       set_total_decommit_bytes (u64 (t.(total_decommit_bytes) + bytes_of s.(length_))) t))
   else skip) ;;
  mret rv.

(** ** Coalescing *)

Definition CheckAndHandlePreMerge (span other : Z) : MH Z :=
  if other =? 0 then mret other
  else
    h ← get_state;
    o ← deref other;
    s ← deref span;
    if h.(aggressive_decommit_) && bool_decide (o.(location) = ON_NORMAL_FREELIST) &&
       bool_decide (s.(location) = ON_RETURNED_FREELIST) then
      worked ← DecommitSpan other;
      if negb worked then mret 0
      else RemoveFromFreeList other ;; mret other
    else if decide (o.(location) <> s.(location)) then mret 0
    else RemoveFromFreeList other ;; mret other.

Definition merge_prev (span p : Z) : MH unit :=
  h ← get_state;
  prev ← CheckAndHandlePreMerge span (GetDescriptor h (u64 (p - 1)));
  if negb (prev =? 0) then
    pv ← deref prev;
    let len := pv.(length_) in
    DeleteSpan prev ;;
    store span (fun s => set_length (u64 (s.(length_) + len)) (set_start (u64 (s.(start) - len)) s)) ;;
    s ← deref span;
    pagemap_set s.(start) span
  else skip.

Definition merge_next (span q : Z) : MH unit :=
  h ← get_state;
  next ← CheckAndHandlePreMerge span (GetDescriptor h q);
  if negb (next =? 0) then
    nx ← deref next;
    let len := nx.(length_) in
    DeleteSpan next ;;
    store span (fun s => set_length (u64 (s.(length_) + len)) s) ;;
    s ← deref span;
    pagemap_set (u64 (s.(start) + s.(length_) - 1)) span
  else skip.

Definition MergeIntoFreeList (span : Z) : MH unit :=
  s ← deref span;
  let p := s.(start) in
  let n := s.(length_) in
  h ← get_state;
  (if h.(aggressive_decommit_) && bool_decide (s.(location) = ON_NORMAL_FREELIST) then
     worked ← DecommitSpan span;
     if (worked : bool) then store span (set_location ON_RETURNED_FREELIST) else skip
   else skip) ;;
  merge_prev span p ;;
  merge_next span (u64 (p + n)) ;;
  PrependToFreeList span.

(** ** Releasing memory to the system *)

Definition ReleaseSpan (s : Z) : MH Z :=
  worked ← DecommitSpan s;
  if (worked : bool) then
    RemoveFromFreeList s ;;
    sp ← deref s;
    let n := sp.(length_) in
    store s (set_location ON_RETURNED_FREELIST) ;;
    MergeIntoFreeList s ;;
    mret n
  else mret 0.

(** The span to release from the list [release_index_]. *)
Definition release_candidate (h : PageHeap) : option Z :=
  if h.(release_index_) =? kMaxPages then
    match h.(large_normal_) with [] => None | x :: _ => Some (spl_span x) end
  else
    let list := free_normal h.(release_index_) in
    if DLL_IsEmpty h.(span_links) list then None else Some (lprev h.(span_links) list).

(** The [for] loop over the lists: [k] rounds are left.  The flag says whether
    the function returned from inside the loop. *)
Fixpoint release_round (k : nat) (num_pages released_pages : Z) : MH (Z * bool) :=
  match k with
  | O => mret (released_pages, false)
  | S k =>
      if released_pages <? num_pages then
        modify (upd_release_index (fun i => if i >? kMaxPages then 0 else i)) ;;
        h ← get_state;
        match release_candidate h with
        | None =>
            modify (upd_release_index (Z.add 1)) ;;
            release_round k num_pages released_pages
        | Some s =>
            released_len ← ReleaseSpan s;
            if released_len =? 0 then mret (released_pages, true)
            else
              modify (upd_release_index (Z.add 1)) ;;
              release_round k num_pages (u64 (released_pages + released_len))
        end
      else mret (released_pages, false)
  end.

(** The [while] loop.  A round that does not return releases a span, so that the
    number of spans bounds the number of rounds. *)
Fixpoint release_loop (fuel : nat) (num_pages released_pages : Z) : MH Z :=
  match fuel with
  | O => no_fuel
  | S fuel =>
      h ← get_state;
      if (released_pages <? num_pages) && (h.(stats_).(free_bytes) >? 0) then
        '(released_pages, returned) ←
          release_round (Z.to_nat (kMaxPages + 1)) num_pages released_pages;
        if (returned : bool) then mret released_pages
        else release_loop fuel num_pages released_pages
      else mret released_pages
  end.

Definition ReleaseAtLeastNPages (num_pages : Z) : MH Z :=
  h ← get_state;
  release_loop (S (size h.(spans))) num_pages 0.

(** The double nearest to 1e-6. *)
Definition double_1em6 : spec_float := S754_finite false 4722366482869645 (-72).

Definition IncrementalScavenge (n : Z) : MH unit :=
  modify (upd_scavenge_counter (fun c => i64 (u64 (c - n)))) ;;
  h ← get_state;
  if h.(scavenge_counter_) >=? 0 then skip
  else
    let rate := h.(release_rate) in
    if SFleb rate double_1em6 then
      modify (upd_scavenge_counter (fun _ => kDefaultReleaseDelay))
    else
      modify (upd_stats (fun t => set_scavenge_count (u64 (t.(scavenge_count) + 1)) t)) ;;
      released_pages ← ReleaseAtLeastNPages 1;
      if released_pages =? 0 then
        modify (upd_scavenge_counter (fun _ => kDefaultReleaseDelay))
      else
        let mult := SFdiv 53 1024 (double_of_Z 1000) rate in
        let wait := SFmul 53 1024 mult (double_of_Z released_pages) in
        let wait := if SFltb (double_of_Z kMaxReleaseDelay) wait
                    then double_of_Z kMaxReleaseDelay else wait in
        modify (upd_scavenge_counter (fun _ => i64 (int_of_double wait))).

Definition EnsureLimit (n : Z) (withRelease : bool) : MH bool :=
  h ← get_state;
  let limit := u64 (Z.shiftr (i64 (h.(heap_limit_mb) * 1024 * 1024)) kPageShift) in
  if limit =? 0 then mret true
  else
    let takenPages := Z.shiftr (TCMalloc_SystemTaken h.(world)) kPageShift in
    let takenPages := u64 (takenPages - Z.shiftr h.(stats_).(unmapped_bytes) kPageShift) in
    takenPages ← (if (u64 (takenPages + n) >? limit) && withRelease then
                    released ← ReleaseAtLeastNPages (u64 (u64 (takenPages + n) - limit));
                    mret (u64 (takenPages - released))
                  else mret takenPages);
    mret (u64 (takenPages + n) <=? limit).

(** ** Allocation *)

Definition Carve (span n : Z) : MH Z :=
  s ← deref span;
  let old_location := s.(location) in
  RemoveFromFreeList span ;;
  store span (set_location IN_USE) ;;
  let extra := i32 (s.(length_) - n) in
  (if extra >? 0 then
     leftover ← NewSpan (u64 (s.(start) + n)) (u64 extra);
     store leftover (set_location old_location) ;;
     RecordSpan leftover ;;
     PrependToFreeList leftover ;;
     store span (set_length n) ;;
     pagemap_set (u64 (s.(start) + n - 1)) span
   else skip) ;;
  (if decide (old_location = ON_RETURNED_FREELIST) then CommitSpan span else skip) ;;
  mret span.

Definition Split (span n : Z) : MH Z :=
  s ← deref span;
  let extra := i32 (s.(length_) - n) in
  leftover ← NewSpan (u64 (s.(start) + n)) (u64 extra);
  RecordSpan leftover ;;
  pagemap_set (u64 (s.(start) + n - 1)) span ;;
  store span (set_length n) ;;
  mret leftover.

(** Each retry of [AllocLarge] has released a span. *)
Fixpoint AllocLarge_loop (fuel : nat) (n : Z) : MH Z :=
  match fuel with
  | O => no_fuel
  | S fuel =>
      h ← get_state;
      let best_normal :=
        match SpanSet_upper_bound (start_of h) n 0 h.(large_normal_) with
        | Some place => spl_span place
        | None => 0
        end in
      best ← match SpanSet_upper_bound (start_of h) n 0 h.(large_returned_) with
             | Some place =>
                 if best_normal =? 0 then mret (spl_span place)
                 else
                   c ← deref (spl_span place);
                   b ← deref best_normal;
                   if c.(length_) <? b.(length_) then mret (spl_span place) else mret best_normal
             | None => mret best_normal
             end;
      if best =? best_normal then
        if best =? 0 then mret 0 else Carve best n
      else
        ok ← EnsureLimit n false;
        if (ok : bool) then Carve best n
        else
          ok ← EnsureLimit n true;
          if (ok : bool) then AllocLarge_loop fuel n else mret 0
  end.
Definition AllocLarge (n : Z) : MH Z :=
  h ← get_state;
  AllocLarge_loop (S (size h.(spans))) n.

(** The search of the small lists from length [s]; [k] lengths are left. *)
Fixpoint search_small (k : nat) (s n : Z) : MH (option Z) :=
  match k with
  | O => mret None
  | S k =>
      h ← get_state;
      if negb (DLL_IsEmpty h.(span_links) (free_normal (s - 1))) then
        r ← Carve (lnext h.(span_links) (free_normal (s - 1))) n;
        mret (Some r)
      else if negb (DLL_IsEmpty h.(span_links) (free_returned (s - 1))) then
        ok ← EnsureLimit n true;
        h ← get_state;
        if (ok : bool) && negb (DLL_IsEmpty h.(span_links) (free_returned (s - 1))) then
          r ← Carve (lnext h.(span_links) (free_returned (s - 1))) n;
          mret (Some r)
        else search_small k (s + 1) n
      else search_small k (s + 1) n
  end.

Definition SearchFreeAndLargeLists (n : Z) : MH Z :=
  r ← search_small (Z.to_nat (kMaxPages + 1 - n)) n n;
  match r with
  | Some span => mret span
  | None => AllocLarge n
  end.

Definition DeleteLocked (span : Z) : MH unit :=
  s ← deref span;
  let n := s.(length_) in
  store span (fun s => set_location ON_NORMAL_FREELIST (set_sample false (set_sizeclass 0 s))) ;;
  MergeIntoFreeList span ;;
  IncrementalScavenge n.

Definition Delete (span : Z) : MH unit := DeleteLocked span.

(** [TCMalloc_SystemAlloc] when the limit allows it. *)
Definition grow_alloc (ask : Z) : MH (Z * Z) :=
  ok ← EnsureLimit ask true;
  if (ok : bool) then call (TCMalloc_SystemAlloc (bytes_of ask) kPageSize) else mret (0, 0).

Definition GrowHeap (n : Z) : MH bool :=
  if n >? kMaxValidPages then mret false
  else
    let ask := if n >? kMinSystemAlloc then n else kMinSystemAlloc in
    '(ptr, actual_size) ← grow_alloc ask;
    '(ptr, actual_size) ← (if (ptr =? 0) && (n <? ask) then grow_alloc n
                           else mret (ptr, actual_size));
    if ptr =? 0 then mret false
    else
      let ask := Z.shiftr actual_size kPageShift in
      modify (upd_grown_by (fun g => u64 (g + bytes_of ask))) ;;
      h ← get_state;
      let old_system_bytes := h.(stats_).(system_bytes) in
      modify (upd_stats (fun t =>
        mkStats (u64 (t.(system_bytes) + bytes_of ask)) t.(free_bytes) t.(unmapped_bytes)
          (u64 (t.(committed_bytes) + bytes_of ask)) t.(scavenge_count)
          (u64 (t.(commit_count) + 1)) (u64 (t.(total_commit_bytes) + bytes_of ask))
          t.(decommit_count) t.(total_decommit_bytes)
          (u64 (t.(reserve_count) + 1)) (u64 (t.(total_reserve_bytes) + bytes_of ask)))) ;;
      let p := Z.shiftr ptr kPageShift in
      h ← get_state;
      (if (old_system_bytes <? kPageMapBigAllocationThreshold) &&
          (h.(stats_).(system_bytes) >=? kPageMapBigAllocationThreshold) then
         m ← call (pm_PreallocateMoreMemory h.(pagemap_));
         modify (upd_pagemap (fun _ => m))
       else skip) ;;
      h ← get_state;
      '(ok, m) ← call (fun w => pm_Ensure h.(pagemap_) w (u64 (p - 1)) (u64 (ask + 2)));
      modify (upd_pagemap (fun _ => m)) ;;
      if (ok : bool) then
        span ← NewSpan p ask;
        RecordSpan span ;;
        DeleteLocked span ;;
        mret true
      else mret false.

Definition NewLocked (n : Z) : MH Z :=
  h ← get_state;
  let n := RoundUpSize h n in
  result ← SearchFreeAndLargeLists n;
  if negb (result =? 0) then mret result
  else
    h ← get_state;
    let t := h.(stats_) in
    result ←
      (if negb (t.(free_bytes) =? 0) && negb (t.(unmapped_bytes) =? 0) &&
          (u64 (t.(free_bytes) + t.(unmapped_bytes)) >=? t.(system_bytes) / 4) &&
          negb (t.(system_bytes) / kForcedCoalesceInterval =?
                u64 (t.(system_bytes) + bytes_of n) / kForcedCoalesceInterval) then
         ReleaseAtLeastNPages 0x7fffffff ;;
         SearchFreeAndLargeLists n
       else mret 0);
    if negb (result =? 0) then mret result
    else
      grown ← GrowHeap n;
      if negb grown then
        modify (upd_errno (fun _ => ENOMEM)) ;;
        mret 0
      else SearchFreeAndLargeLists n.

(** The [LockingContext] of an operation: [grown_by] starts at 0, and unlocking
    records a stack trace when the heap grew. *)
Definition LockingContext : MH unit := modify (upd_grown_by (fun _ => 0)).

Definition HandleUnlock : MH unit :=
  h ← get_state;
  if negb (h.(grown_by) =? 0) then
    t ← call stacktrace_New;
    modify (upd_growth_stacks (cons (t, h.(grown_by))))
  else skip.

(** The interior pages [start + i .. start + i + k - 1]. *)
Fixpoint register_pages (k : nat) (span st i : Z) : MH unit :=
  match k with
  | O => skip
  | S k =>
      pagemap_set (u64 (st + i)) span ;;
      register_pages k span st (i + 1)
  end.

Definition RegisterSizeClass (span sc : Z) : MH unit :=
  store span (set_sizeclass sc) ;;
  s ← deref span;
  register_pages (Z.to_nat (u64 (s.(length_) - 1) - 1)) span s.(start) 1.

Definition NewWithSizeClass (n sizeclass : Z) : MH Z :=
  LockingContext ;;
  span ← NewLocked n;
  (if negb (span =? 0) then
     s ← deref span;
     InvalidateCachedSizeClass s.(start) ;;
     if negb (sizeclass =? 0) then RegisterSizeClass span sizeclass else skip
   else skip) ;;
  HandleUnlock ;;
  mret span.

Definition New (n : Z) : MH Z := NewWithSizeClass n 0.

(** The pages to skip so that the rest is aligned: the first [skip] with
    [((start + skip) << kPageShift) & (align_bytes - 1) == 0]. *)
Fixpoint skip_loop (fuel : nat) (st align_bytes skip : Z) : result Z :=
  match fuel with
  | O => NoFuel
  | S fuel =>
      if negb (Z.land (bytes_of (u64 (st + skip))) (u64 (align_bytes - 1)) =? 0)
      then skip_loop fuel st align_bytes (skip + 1)
      else Ok skip
  end.

Definition NewAligned (n align_pages : Z) : MH Z :=
  h ← get_state;
  let n := RoundUpSize h n in
  let alloc := u64 (n + align_pages) in
  if (alloc <? n) || (alloc <? align_pages) then
    span ← New (2 ^ 64 - 1);
    (if span =? 0 then skip else crash) ;;
    mret 0
  else
    LockingContext ;;
    span ← NewLocked alloc;
    result ←
      (if span =? 0 then mret 0
       else
         s ← deref span;
         let align_bytes := bytes_of align_pages in
         skip ← (fun h => k ← skip_loop (Z.to_nat align_pages + 1) s.(start) align_bytes 0;
                          Ok (k, h));
         span ← (if skip >? 0 then
                   rest ← Split span skip;
                   DeleteLocked span ;;
                   mret rest
                 else mret span);
         s ← deref span;
         (if s.(length_) >? n then
            trailer ← Split span n;
            DeleteLocked trailer
          else Prelude.skip) ;;
         s ← deref span;
         InvalidateCachedSizeClass s.(start) ;;
         mret span);
    HandleUnlock ;;
    mret result.

(** ** Inspection *)

Definition GetSmallSpanStatsLocked (h : PageHeap) : result (list (Z * Z)) :=
  mapM (fun i =>
    n ← DLL_Length (S (size h.(spans))) h.(span_links) (free_normal i);
    r ← DLL_Length (S (size h.(spans))) h.(span_links) (free_returned i);
    Ok (n, r)) (seqZ 0 kMaxPages).

(** [spans], [normal_pages], [returned_pages]. *)
Definition GetLargeSpanStatsLocked (h : PageHeap) : Z * Z * Z :=
  let '(n, np) := foldl (fun '(n, pages) x => (n + 1, i64 (pages + spl_length x)))
                    (0, 0) h.(large_normal_) in
  let '(n, rp) := foldl (fun '(n, pages) x => (n + 1, i64 (pages + spl_length x)))
                    (n, 0) h.(large_returned_) in
  (n, np, rp).

(** [base::MallocRange]. *)
Inductive RangeType := INUSE | FREE | UNMAPPED.
Record MallocRange := mkRange {
  range_address : Z;
  range_length : Z;
  range_type : RangeType;
  range_fraction : spec_float
}.

(** The kind of a span and the fraction of it in use. *)
Definition range_info (sm : SizeMap) (s : Span) (len : Z) : RangeType * spec_float :=
  match s.(location) with
  | IN_USE =>
      (INUSE,
       if s.(sizeclass) >? 0 then
         SFdiv 53 1024
           (SFmul 53 1024
              (SFmul 53 1024 (double_of_Z 1) (double_of_Z (class_to_size sm s.(sizeclass))))
              (double_of_Z s.(refcount)))
           (double_of_Z len)
       else double_of_Z 1)
  | ON_NORMAL_FREELIST => (FREE, double_of_Z 0)
  | ON_RETURNED_FREELIST => (UNMAPPED, double_of_Z 0)
  end.

Definition GetNextRange (sm : SizeMap) (h : PageHeap) (st : Z) : result (option MallocRange) :=
  span ← pm_Next h.(pagemap_) st;
  if span =? 0 then Ok None
  else
    match h.(spans) !! span with
    | None => Crash
    | Some s =>
        let len := bytes_of s.(length_) in
        let '(ty, fraction) := range_info sm s len in
        Ok (Some (mkRange (bytes_of s.(start)) len ty fraction))
    end.

(** The checks both [CheckList] and [CheckSet] make of a span. *)
Definition check_span (h : PageHeap) (min_pages max_pages : Z) (freelist : Location) (p : Z)
    : result unit :=
  match h.(spans) !! p with
  | None => Crash
  | Some s =>
      check (bool_decide (s.(location) = freelist)) ;;
      check (s.(length_) >=? min_pages) ;;
      check (s.(length_) <=? max_pages) ;;
      check (GetDescriptor h s.(start) =? p) ;;
      check (GetDescriptor h (u64 (s.(start) + s.(length_) - 1)) =? p)
  end.

Fixpoint CheckList_loop (fuel : nat) (h : PageHeap) (list s min_pages max_pages : Z)
    (freelist : Location) : result bool :=
  match fuel with
  | O => NoFuel
  | S fuel =>
      if negb (s =? list) then
        check_span h min_pages max_pages freelist s ;;
        CheckList_loop fuel h list (lnext h.(span_links) s) min_pages max_pages freelist
      else Ok true
  end.
Definition CheckList (h : PageHeap) (list min_pages max_pages : Z) (freelist : Location)
    : result bool :=
  CheckList_loop (S (size h.(spans))) h list (lnext h.(span_links) list)
    min_pages max_pages freelist.

(** A length is at most 2^64 - 1. *)
Fixpoint CheckSet (h : PageHeap) (spanset : SpanSet) (min_pages : Z) (freelist : Location)
    : result bool :=
  match spanset with
  | [] => Ok true
  | it :: spanset =>
      match h.(spans) !! spl_span it with
      | None => Crash
      | Some s => check (s.(length_) =? spl_length it)
      end ;;
      check_span h min_pages (2 ^ 64 - 1) freelist (spl_span it) ;;
      CheckSet h spanset min_pages freelist
  end.

Definition CheckExpensive (h : PageHeap) : result bool :=
  CheckSet h h.(large_normal_) (kMaxPages + 1) ON_NORMAL_FREELIST ;;
  CheckSet h h.(large_returned_) (kMaxPages + 1) ON_RETURNED_FREELIST ;;
  mapM (fun s =>
    CheckList h (free_normal (s - 1)) s s ON_NORMAL_FREELIST ;;
    CheckList h (free_returned (s - 1)) s s ON_RETURNED_FREELIST) (seqZ 1 kMaxPages) ;;
  Ok true.
End PageHeap.
