(* ===== verification/SpanStore.v ===== *)
(** The mathematics of a store of spans.

    A page heap keeps its spans in several places at once: the descriptors, the
    page map, the free lists and the counters.  This file states what it means
    for these to agree, without reference to the code: [geom] relates the
    descriptors to the page map, [lists] to the free lists; [span_total],
    [span_free] and the like count pages.  The lemmas say how these facts follow
    a change of the store (a span split, merged, created, moved between lists). *)
From S2P Require Import Prelude SizeMap Span.

Definition covers (s : Span) (k : Z) : Prop := s.(start) <= k < s.(start) + s.(length_).

Lemma elem_of_pair (x a b : Z) : x ∈ ({[a; b]} : gset Z) -> x = a \/ x = b.
Proof. set_solver. Qed.

(** ** Descriptors and the page map *)

Section Geom.
Context (static : Z -> Prop) (limit : Z).

(** [get] and [ens] are the look-up of the page map and the set of its settable
    keys, [lv] the allocated descriptors, [tk] the pages obtained from the
    system. *)
Record span_ok (p : Z) (s : Span) (ens : Z -> Prop) (lv tk : gset Z) : Prop := {
  so_ptr : 0 < p;
  so_static : ~ static p;
  so_live : p ∈ lv;
  so_start : 0 < s.(start);
  so_length : 0 < s.(length_);
  so_limit : s.(start) + s.(length_) < limit;
  so_pages k : covers s k -> (k ∈ tk) /\ ens k
}.

Record span_mapped (p : Z) (s : Span) (get : Z -> Z) : Prop := {
  sm_first : get s.(start) = p;
  sm_last : get (s.(start) + s.(length_) - 1) = p;
  sm_class : s.(sizeclass) <> 0 ->
    s.(location) = IN_USE /\ forall k, covers s k -> get k = p
}.

Record geom (S : gmap Z Span) (get : Z -> Z) (ens : Z -> Prop) (lv tk : gset Z) : Prop := {
  g_ok p s : S !! p = Some s -> span_ok p s ens lv tk;
  g_mapped p s : S !! p = Some s -> span_mapped p s get;
  g_disjoint p q s t k :
    S !! p = Some s -> S !! q = Some t -> covers s k -> covers t k -> p = q;
  g_cover k : 0 <= k -> get k <> 0 -> exists q t, S !! q = Some t /\ covers t k
}.

Implicit Types (S : gmap Z Span) (p q k : Z) (s t : Span).

Lemma geom_empty get ens lv tk :
  (forall k, get k = 0) -> geom ∅ get ens lv tk.
Proof.
  intros Hg. split; [by intros; simplify_map_eq..|]. intros k _. by rewrite Hg.
Qed.

Lemma covers_first s : 0 < s.(length_) -> covers s s.(start).
Proof. unfold covers. lia. Qed.

Lemma covers_last s : 0 < s.(length_) -> covers s (s.(start) + s.(length_) - 1).
Proof. unfold covers. lia. Qed.

(** The general change: the spans with addresses in [U] are replaced by others
    that cover exactly the pages [a .. b - 1], and the page map changes only there. *)
Lemma geom_local S get ens lv tk S' get' ens' lv' tk' (U : gset Z) a b :
  geom S get ens lv tk ->
  (forall p, p ∉ U -> S' !! p = S !! p) ->
  (forall p s k, p ∉ U -> S !! p = Some s -> covers s k -> ~ a <= k < b) ->
  (forall p s k, p ∈ U -> S !! p = Some s -> covers s k -> a <= k < b) ->
  (forall p s, p ∉ U -> S !! p = Some s -> p ∈ lv') -> tk ⊆ tk' ->
  (forall k, ens k -> ens' k) ->
  (forall p s, p ∈ U -> S' !! p = Some s ->
     span_ok p s ens' lv' tk' /\ span_mapped p s get' /\ forall k, covers s k -> a <= k < b) ->
  (forall p q s t k, p ∈ U -> q ∈ U -> S' !! p = Some s -> S' !! q = Some t ->
     covers s k -> covers t k -> p = q) ->
  (forall k, a <= k < b -> exists p s, S' !! p = Some s /\ covers s k) ->
  (forall k, 0 <= k -> ~ a <= k < b -> get' k = get k) ->
  geom S' get' ens' lv' tk'.
Proof.
  intros [Hok Hmap Hdis Hcov] HS HnR HR Hlv Htk Hens HU HUd HRc Hget.
  assert (Hold : forall p s, p ∉ U -> S' !! p = Some s -> S !! p = Some s).
  { intros p s Hp. by rewrite HS. }
  split.
  - intros p s Hp. destruct (decide (p ∈ U)) as [HpU|HpU]; [by apply HU|].
    apply Hold in Hp; [|done]. destruct (Hok p s Hp) as [? ? ? ? ? ? Hpg]. split; eauto.
    intros k Hk. destruct (Hpg k Hk). eauto.
  - intros p s Hp. destruct (decide (p ∈ U)) as [HpU|HpU]; [by apply HU|].
    apply Hold in Hp; [|done]. pose proof (Hok p s Hp) as [? ? ? ? ? ? Hpg].
    assert (Hk : forall k, covers s k -> get' k = get k).
    { intros k Hk. apply Hget; [unfold covers in Hk; lia|by eapply HnR]. }
    destruct (Hmap p s Hp) as [Hf Hl Hc]. split.
    + by rewrite Hk by (by apply covers_first).
    + by rewrite Hk by (by apply covers_last).
    + intros Hs. destruct (Hc Hs) as [? Hall]. split; [done|].
      intros k Hck. rewrite Hk by done. by apply Hall.
  - intros p q s t k Hp Hq Hs Ht.
    destruct (decide (p ∈ U)) as [HpU|HpU], (decide (q ∈ U)) as [HqU|HqU].
    + by eapply HUd.
    + apply Hold in Hq; [|done]. exfalso. eapply (HnR q t k); eauto. by eapply HU.
    + apply Hold in Hp; [|done]. exfalso. eapply (HnR p s k); eauto. by eapply HU.
    + apply Hold in Hp, Hq; [|done..]. by eapply Hdis.
  - intros k Hk Hne. destruct (decide (a <= k < b)) as [HRk|HRk]; [by apply HRc|].
    rewrite Hget in Hne by done. destruct (Hcov k Hk Hne) as (q & t & Hq & Ht).
    exists q, t. split; [|done]. rewrite HS; [done|]. intros HqU. by apply HRk, (HR q t).
Qed.

(** Nothing changes but the surroundings. *)
Lemma geom_mono S get ens lv tk get' ens' lv' tk' :
  geom S get ens lv tk ->
  (forall p s, S !! p = Some s -> p ∈ lv') -> tk ⊆ tk' -> (forall k, ens k -> ens' k) ->
  (forall k, 0 <= k -> get' k = get k) ->
  geom S get' ens' lv' tk'.
Proof.
  intros Hg Hlv Htk Hens Hget.
  apply (geom_local S get ens lv tk S get' ens' lv' tk' ∅ 0 0); try done; try lia; eauto.
Qed.

(** A field of a span other than its extent changes. *)
Lemma geom_store S get ens lv tk p s s' :
  geom S get ens lv tk -> S !! p = Some s ->
  s'.(start) = s.(start) -> s'.(length_) = s.(length_) ->
  (s'.(sizeclass) <> 0 -> s'.(sizeclass) = s.(sizeclass) /\ s'.(location) = IN_USE) ->
  geom (<[p := s']> S) get ens lv tk.
Proof.
  intros Hg Hp Hst Hlen Hcl. pose proof Hg as [Hok Hmap Hdis Hcov].
  pose proof (Hok p s Hp) as [? ? ? ? ? ? Hpg]. pose proof (Hmap p s Hp) as [Hf Hl Hc].
  assert (Hcv : forall k, covers s' k <-> covers s k).
  { intros k. unfold covers. by rewrite Hst, Hlen. }
  apply (geom_local S get ens lv tk _ get ens lv tk {[p]} s.(start) (s.(start) + s.(length_))); try done.
  - intros q Hq. rewrite lookup_insert_ne; [done|set_solver].
  - intros q t k Hq Ht Hk HR. apply not_elem_of_singleton in Hq. by apply Hq, (Hdis q p t s k).
  - intros q t k ->%elem_of_singleton Ht. simplify_eq. unfold covers. lia.
  - intros q t _ Ht. by destruct (Hok q t Ht).
  - intros q t ->%elem_of_singleton Ht. rewrite lookup_insert_eq in Ht. simplify_eq.
    split_and!; [split; try done; try lia|split|].
    + intros k Hk. by apply Hpg, Hcv.
    + by rewrite Hst.
    + by rewrite Hst, Hlen.
    + intros Hsc. destruct (Hcl Hsc) as [Heq Hloc]. rewrite Heq in Hsc.
      split; [done|]. intros k Hk. apply Hc; [done|]. by apply Hcv.
    + intros k Hk. apply Hcv in Hk. done.
  - intros q1 q2 s1 s2 k ->%elem_of_singleton ->%elem_of_singleton. done.
  - intros k Hk. exists p, s'. rewrite lookup_insert_eq. split; [done|]. by apply Hcv.
Qed.

(** A span [p] is cut after [n] pages; the rest becomes the new span [q]. *)
Lemma geom_split S get ens lv tk get' lv' tk' p q s s1 s2 n :
  geom S get ens lv tk -> S !! p = Some s -> S !! q = None -> 0 < n < s.(length_) ->
  0 < q -> ~ static q -> q ∈ lv' ->
  (forall p' s', S !! p' = Some s' -> p' ∈ lv') -> tk ⊆ tk' ->
  s1.(start) = s.(start) -> s1.(length_) = n -> s1.(sizeclass) = 0 ->
  s2.(start) = s.(start) + n -> s2.(length_) = s.(length_) - n -> s2.(sizeclass) = 0 ->
  (forall k, 0 <= k -> get' k =
     if decide (k = s.(start) + n - 1) then p
     else if decide (k = s.(start) + n \/ k = s.(start) + s.(length_) - 1) then q else get k) ->
  geom (<[q := s2]> (<[p := s1]> S)) get' ens lv' tk'.
Proof.
  intros Hg Hp Hq Hn Hq0 Hqs Hqlv Hlv Htk A1 B1 C1 A2 B2 C2 Hget.
  pose proof Hg as [Hok Hmap Hdis Hcov]. assert (p <> q) as Hpq by congruence.
  pose proof (Hok p s Hp) as [? ? ? ? ? ? Hpg]. pose proof (Hmap p s Hp) as [Hf Hl Hc].
  assert (Hq' : <[q := s2]> (<[p := s1]> S) !! q = Some s2) by apply lookup_insert_eq.
  assert (Hp' : <[q := s2]> (<[p := s1]> S) !! p = Some s1).
  { rewrite lookup_insert_ne by done. apply lookup_insert_eq. }
  assert (Hc1 : forall k, covers s1 k <-> s.(start) <= k < s.(start) + n).
  { intros k. unfold covers. by rewrite A1, B1. }
  assert (Hc2 : forall k, covers s2 k <-> s.(start) + n <= k < s.(start) + s.(length_)).
  { intros k. unfold covers. rewrite A2, B2. lia. }
  apply (geom_local S get ens lv tk _ get' ens lv' tk' {[p; q]} s.(start) (s.(start) + s.(length_)));
    try done.
  - intros r Hr. rewrite !lookup_insert_ne; [done|set_solver..].
  - intros r t k Hr Ht Hk HR. apply Hr. rewrite (Hdis r p t s k) by done. set_solver.
  - intros r t k [-> | ->]%elem_of_pair Ht; simplify_eq. done.
  - intros r t _ Ht. by eapply Hlv.
  - intros r t [-> | ->]%elem_of_pair Ht.
    + rewrite Hp' in Ht. injection Ht as <-. split_and!; [split; try done; try lia|split|].
      * by eapply Hlv.
      * intros k Hk. apply Hc1 in Hk. destruct (Hpg k ltac:(unfold covers; lia)). auto.
      * rewrite A1, Hget by lia. repeat case_decide; try lia.
      * rewrite A1, Hget by lia. by rewrite decide_True by lia.
      * lia.
      * intros k Hk%Hc1. lia.
    + rewrite Hq' in Ht. injection Ht as <-. split_and!; [split; try done; try lia|split|].
      * intros k Hk. apply Hc2 in Hk. destruct (Hpg k ltac:(unfold covers; lia)). auto.
      * rewrite A2, Hget by lia. rewrite decide_False, decide_True by lia. done.
      * rewrite A2, B2, Hget by lia. rewrite decide_False, decide_True by lia. done.
      * lia.
      * intros k Hk%Hc2. lia.
  - intros r1 r2 t1 t2 k [-> | ->]%elem_of_pair [-> | ->]%elem_of_pair;
      try done; rewrite ?Hp', ?Hq'; intros; simplify_eq; rewrite Hc1, Hc2 in *; lia.
  - intros k Hk. destruct (Z.lt_ge_cases k (s.(start) + n)).
    + exists p, s1. split; [done|]. apply Hc1. lia.
    + exists q, s2. split; [done|]. apply Hc2. lia.
  - intros k Hk HR. rewrite Hget by done. rewrite !decide_False by lia. done.
Qed.

(** The adjacent span [q] is absorbed by [p]. *)
Lemma geom_merge S get ens lv tk get' lv' tk' p q s t s1 :
  geom S get ens lv tk -> S !! p = Some s -> S !! q = Some t -> p <> q ->
  (t.(start) + t.(length_) = s.(start) /\ s1.(start) = t.(start) \/
   s.(start) + s.(length_) = t.(start) /\ s1.(start) = s.(start)) ->
  s1.(length_) = s.(length_) + t.(length_) -> s1.(sizeclass) = 0 ->
  (forall p' s', p' <> q -> S !! p' = Some s' -> p' ∈ lv') -> tk ⊆ tk' ->
  get' s1.(start) = p -> get' (s1.(start) + s1.(length_) - 1) = p ->
  (forall k, 0 <= k -> ~ covers s1 k -> get' k = get k) ->
  geom (<[p := s1]> (delete q S)) get' ens lv' tk'.
Proof.
  intros Hg Hp Hq Hpq Hadj Hlen Hsc Hlv Htk Hf' Hl' Hget.
  pose proof Hg as [Hok Hmap Hdis Hcov].
  pose proof (Hok p s Hp) as [? ? ? ? ? ? Hpg]. pose proof (Hok q t Hq) as [? ? ? ? ? ? Hqg].
  assert (Hp' : <[p := s1]> (delete q S) !! p = Some s1) by apply lookup_insert_eq.
  assert (Hq' : <[p := s1]> (delete q S) !! q = None).
  { rewrite lookup_insert_ne by done. apply lookup_delete_eq. }
  assert (Hc1 : forall k, covers s1 k <-> covers s k \/ covers t k) by (intros k; unfold covers; lia).
  apply (geom_local S get ens lv tk _ get' ens lv' tk' {[p; q]} s1.(start) (s1.(start) + s1.(length_)));
    try done.
  - intros r Hr. rewrite lookup_insert_ne, lookup_delete_ne; [done|set_solver..].
  - intros r u k Hr Hu Hk HR. apply Hr. apply Hc1 in HR as [HR|HR].
    + rewrite (Hdis r p u s k) by done. set_solver.
    + rewrite (Hdis r q u t k) by done. set_solver.
  - intros r u k [-> | ->]%elem_of_pair Hu Hk; simplify_eq; apply Hc1; auto.
  - intros r u Hr Hu. eapply Hlv; [|done]. set_solver.
  - intros r u [-> | ->]%elem_of_pair Hu; [|by rewrite Hq' in Hu].
    rewrite Hp' in Hu. injection Hu as <-.
    split_and!; [split; try done; try lia|split; done|done].
    + by eapply Hlv.
    + intros k [Hk|Hk]%Hc1; [destruct (Hpg k Hk)|destruct (Hqg k Hk)]; auto.
  - intros r1 r2 t1 t2 k [-> | ->]%elem_of_pair [-> | ->]%elem_of_pair; try done;
      rewrite Hq'; done.
  - intros k Hk. by exists p, s1.
Qed.

(** A new span on pages that no span covers. *)
Lemma geom_new S get ens lv tk get' ens' lv' tk' q s :
  geom S get ens lv tk -> S !! q = None ->
  (forall p t k, S !! p = Some t -> covers t k -> ~ covers s k) ->
  span_ok q s ens' lv' tk' -> s.(sizeclass) = 0 ->
  (forall p t, S !! p = Some t -> p ∈ lv') -> tk ⊆ tk' -> (forall k, ens k -> ens' k) ->
  (forall k, 0 <= k -> get' k =
     if decide (k = s.(start) \/ k = s.(start) + s.(length_) - 1) then q else get k) ->
  geom (<[q := s]> S) get' ens' lv' tk'.
Proof.
  intros Hg Hq Hno Hsok Hsc Hlv Htk Hens Hget. pose proof Hsok as [? ? ? ? ? ? Hpg].
  apply (geom_local S get ens lv tk _ get' ens' lv' tk' {[q]} s.(start) (s.(start) + s.(length_)));
    try done.
  - intros r Hr. rewrite lookup_insert_ne; [done|set_solver].
  - intros r t k _ Ht Hk. by apply (Hno r t).
  - intros r t k ->%elem_of_singleton Ht. by simplify_eq.
  - intros r t _ Ht. by eapply Hlv.
  - intros r t ->%elem_of_singleton Ht. rewrite lookup_insert_eq in Ht. injection Ht as <-.
    split_and!; [done|split|done].
    + rewrite Hget by lia. rewrite decide_True by lia. done.
    + rewrite Hget by lia. rewrite decide_True by lia. done.
    + done.
  - intros r1 r2 t1 t2 k ->%elem_of_singleton ->%elem_of_singleton. done.
  - intros k Hk. exists q, s. by rewrite lookup_insert_eq.
  - intros k Hk HR. rewrite Hget by done. rewrite decide_False by lia. done.
Qed.

(** All pages of an in-use span are mapped to it. *)
Lemma geom_register S get ens lv tk get' p s s' :
  geom S get ens lv tk -> S !! p = Some s -> s'.(location) = IN_USE ->
  s'.(start) = s.(start) -> s'.(length_) = s.(length_) ->
  (forall k, covers s k -> get' k = p) ->
  (forall k, 0 <= k -> ~ covers s k -> get' k = get k) ->
  geom (<[p := s']> S) get' ens lv tk.
Proof.
  intros Hg Hp Hloc Hst Hlen Hall Hget. pose proof Hg as [Hok Hmap Hdis Hcov].
  pose proof (Hok p s Hp) as [? ? ? ? ? ? Hpg].
  assert (Hcv : forall k, covers s' k <-> covers s k).
  { intros k. unfold covers. by rewrite Hst, Hlen. }
  apply (geom_local S get ens lv tk _ get' ens lv tk {[p]} s.(start) (s.(start) + s.(length_))); try done.
  - intros q Hq. rewrite lookup_insert_ne; [done|set_solver].
  - intros q t k Hq Ht Hk HR. apply not_elem_of_singleton in Hq. by apply Hq, (Hdis q p t s k).
  - intros q t k ->%elem_of_singleton Ht. by simplify_eq.
  - intros q t _ Ht. by destruct (Hok q t Ht).
  - intros q t ->%elem_of_singleton Ht. rewrite lookup_insert_eq in Ht. injection Ht as <-.
    split_and!; [split; try done; try lia|split|].
    + intros k Hk. by apply Hpg, Hcv.
    + rewrite Hst. apply Hall. by apply covers_first.
    + rewrite Hst, Hlen. apply Hall. by apply covers_last.
    + intros _. split; [done|]. intros k Hk. by apply Hall, Hcv.
    + intros k Hk. apply Hcv in Hk. done.
  - intros q1 q2 s1 s2 k ->%elem_of_singleton ->%elem_of_singleton. done.
  - intros k Hk. exists p, s'. rewrite lookup_insert_eq. split; [done|]. by apply Hcv.
Qed.

(** What the page map says just before and just after a span. *)
Lemma geom_prev S get ens lv tk p s q :
  geom S get ens lv tk -> S !! p = Some s -> get (s.(start) - 1) = q -> q <> 0 ->
  exists t, S !! q = Some t /\ t.(start) + t.(length_) = s.(start) /\ q <> p.
Proof.
  intros [Hok Hmap Hdis Hcov] Hp Hq Hq0. pose proof (Hok p s Hp) as [? ? ? ? ? ? _].
  destruct (Hcov (s.(start) - 1)) as (q' & t & Ht & Hc); [lia|congruence|].
  assert (q' <> p) as Hne by (intros ->; simplify_eq; unfold covers in Hc; lia).
  assert (t.(start) + t.(length_) = s.(start)) as Hend.
  { unfold covers in Hc. destruct (Z.lt_ge_cases s.(start) (t.(start) + t.(length_))); [|lia].
    destruct Hne. apply (Hdis q' p t s s.(start)); try done; unfold covers; lia. }
  destruct (Hmap q' t Ht) as [_ Hl _]. rewrite Hend, Hq in Hl. subst q'. by exists t.
Qed.

Lemma geom_next S get ens lv tk p s q :
  geom S get ens lv tk -> S !! p = Some s -> get (s.(start) + s.(length_)) = q -> q <> 0 ->
  exists t, S !! q = Some t /\ s.(start) + s.(length_) = t.(start) /\ q <> p.
Proof.
  intros [Hok Hmap Hdis Hcov] Hp Hq Hq0. pose proof (Hok p s Hp) as [? ? ? ? ? ? _].
  destruct (Hcov (s.(start) + s.(length_))) as (q' & t & Ht & Hc); [lia|congruence|].
  assert (q' <> p) as Hne by (intros ->; simplify_eq; unfold covers in Hc; lia).
  assert (s.(start) + s.(length_) = t.(start)) as Hend.
  { unfold covers in Hc.
    destruct (Z.lt_ge_cases t.(start) (s.(start) + s.(length_))); [|lia].
    destruct Hne. apply (Hdis q' p t s (s.(start) + s.(length_) - 1)); try done; unfold covers; lia. }
  destruct (Hmap q' t Ht) as [Hf _ _]. rewrite <- Hend, Hq in Hf. subst q'. by exists t.
Qed.

(** Where the map has nothing, no span ends or starts. *)
Lemma geom_no_prev S get ens lv tk st q t :
  geom S get ens lv tk -> get (st - 1) = 0 -> S !! q = Some t ->
  t.(start) + t.(length_) <> st.
Proof.
  intros [Hok Hmap _ _] H0 Hq Heq. destruct (Hmap q t Hq) as [_ Hl _].
  rewrite Heq, H0 in Hl. destruct (Hok q t Hq). lia.
Qed.

Lemma geom_no_next S get ens lv tk st q t :
  geom S get ens lv tk -> get st = 0 -> S !! q = Some t -> t.(start) <> st.
Proof.
  intros [Hok Hmap _ _] H0 Hq Heq. destruct (Hmap q t Hq) as [Hf _ _].
  rewrite Heq, H0 in Hf. destruct (Hok q t Hq). lia.
Qed.

(** Two spans that start together are one. *)
Lemma geom_start_inj S get ens lv tk p q s t :
  geom S get ens lv tk -> S !! p = Some s -> S !! q = Some t ->
  s.(start) = t.(start) -> p = q.
Proof.
  intros Hg Hp Hq Heq. pose proof (g_ok _ _ _ _ _ Hg p s Hp) as [].
  pose proof (g_ok _ _ _ _ _ Hg q t Hq) as [].
  apply (g_disjoint _ _ _ _ _ Hg p q s t s.(start)); try done; unfold covers; lia.
Qed.
End Geom.

(** ** Counting pages *)

Definition len_of (_ : Z) (s : Span) : Z := s.(length_).
Definition span_total : gmap Z Span -> Z := msum len_of.

(** The pages of free spans with location [loc] whose addresses are not in [D]. *)
Definition free_of (D : gset Z) (loc : Location) (p : Z) (s : Span) : Z :=
  if decide ((p ∉ D) /\ s.(location) = loc) then s.(length_) else 0.
Definition span_free (D : gset Z) (loc : Location) : gmap Z Span -> Z := msum (free_of D loc).

(** The pages of all spans whose location says they are returned. *)
Definition ret_of (_ : Z) (s : Span) : Z :=
  if decide (s.(location) = ON_RETURNED_FREELIST) then s.(length_) else 0.
Definition span_returned : gmap Z Span -> Z := msum ret_of.

(** The number of normal free spans. *)
Definition normal_of (_ : Z) (s : Span) : Z :=
  if decide (s.(location) = ON_NORMAL_FREELIST) then 1 else 0.
Definition normal_count : gmap Z Span -> Z := msum normal_of.

Definition pages_set (s : Span) : gset Z := list_to_set (seqZ s.(start) s.(length_)).

Lemma elem_of_pages_set s k : k ∈ pages_set s <-> covers s k.
Proof. unfold pages_set, covers. rewrite elem_of_list_to_set, elem_of_seqZ. lia. Qed.

Lemma size_pages_set s : 0 <= s.(length_) -> Z.of_nat (size (pages_set s)) = s.(length_).
Proof.
  intros. unfold pages_set. rewrite size_list_to_set by apply NoDup_seqZ.
  rewrite length_seqZ. lia.
Qed.

(** The pages of disjoint spans, as a set. *)
Lemma store_pages (S : gmap Z Span) :
  (forall p s, S !! p = Some s -> 0 <= s.(length_)) ->
  (forall p q s t k, S !! p = Some s -> S !! q = Some t -> covers s k -> covers t k -> p = q) ->
  exists X : gset Z,
    (forall k, k ∈ X <-> exists p s, S !! p = Some s /\ covers s k) /\
    Z.of_nat (size X) = span_total S.
Proof.
  induction S as [|p s S Hp IH] using map_ind; intros Hlen Hdis.
  { exists ∅. split; [|done]. intros k. split; [done|]. intros (p & s & Hs & _).
    by rewrite lookup_empty in Hs. }
  assert (Hin : forall q t, S !! q = Some t -> <[p := s]> S !! q = Some t).
  { intros q t Hq. rewrite lookup_insert_ne; [done|]. intros ->. congruence. }
  destruct IH as (X & HX & Hsz); [eauto..|].
  exists (pages_set s ∪ X). split.
  - intros k. rewrite elem_of_union, elem_of_pages_set, HX. split.
    + intros [Hk|(q & t & Hq & Hk)]; [exists p, s; by rewrite lookup_insert_eq|].
      exists q, t. auto.
    + intros (q & t & Hq & Hk). apply lookup_insert_Some in Hq as [[-> ->]|[_ Hq]]; eauto.
  - rewrite size_union.
    + unfold span_total. rewrite msum_insert by done. unfold len_of at 1.
      rewrite Nat2Z.inj_add, size_pages_set, Hsz; [done|].
      apply (Hlen p). by rewrite lookup_insert_eq.
    + intros k Hk Hk'. apply elem_of_pages_set in Hk. apply HX in Hk' as (q & t & Hq & Ht).
      assert (p = q) as <-; [|congruence].
      apply (Hdis p q s t k); [by rewrite lookup_insert_eq|auto..].
Qed.

(** Spans on disjoint pages of a finite set: with the pages [lk] that belong to
    no span they are at most as many as the set. *)
Lemma total_bound (S : gmap Z Span) (lk tk : gset Z) :
  (forall p s, S !! p = Some s -> 0 <= s.(length_)) ->
  (forall p q s t k, S !! p = Some s -> S !! q = Some t -> covers s k -> covers t k -> p = q) ->
  (forall p s k, S !! p = Some s -> covers s k -> (k ∈ tk) /\ (k ∉ lk)) -> lk ⊆ tk ->
  span_total S + Z.of_nat (size lk) <= Z.of_nat (size tk).
Proof.
  intros Hlen Hdis Hin Hlk. destruct (store_pages S Hlen Hdis) as (X & HX & <-).
  rewrite <- Nat2Z.inj_add. apply inj_le. rewrite <- size_union.
  - apply subseteq_size. apply union_least; [|done]. intros k Hk.
    apply HX in Hk as (p & s & Hp & Hk). by eapply Hin.
  - intros k Hk. apply HX in Hk as (p & s & Hp & Hk). by eapply Hin.
Qed.

Lemma free_le_total D loc (S : gmap Z Span) :
  (forall p s, S !! p = Some s -> 0 <= s.(length_)) ->
  0 <= span_free D loc S <= span_total S.
Proof.
  intros Hlen. split.
  - apply msum_nonneg. intros p s Hp. unfold free_of. case_decide; [by eapply Hlen|done].
  - apply msum_le. intros p s Hp. unfold free_of, len_of. case_decide; [done|by eapply Hlen].
Qed.

Lemma free_sum_le_total D (S : gmap Z Span) :
  (forall p s, S !! p = Some s -> 0 <= s.(length_)) ->
  span_free D ON_NORMAL_FREELIST S + span_returned S <= span_total S.
Proof.
  intros Hlen. unfold span_free, span_returned, span_total. rewrite <- msum_add.
  apply msum_le. intros p s Hp. specialize (Hlen p s Hp). unfold free_of, ret_of, len_of.
  destruct s as [? ? ? ? ? [] ? ?]; repeat case_decide; simpl in *; naive_solver lia.
Qed.

(** *** How the counts follow a change *)

Definition free_len (loc : Location) (s : Span) : Z :=
  if decide (s.(location) = loc) then s.(length_) else 0.

Section Counting.
Implicit Types (S : gmap Z Span) (D : gset Z) (p q : Z) (s t : Span) (loc : Location).

Lemma span_free_detach D loc S p s :
  S !! p = Some s -> p ∉ D -> span_free ({[p]} ∪ D) loc S = span_free D loc S - free_len loc s.
Proof.
  intros Hp HD. unfold span_free. rewrite !(msum_delete _ S p s) by done.
  rewrite (msum_ext (free_of ({[p]} ∪ D) loc) (free_of D loc)).
  - unfold free_of, free_len. rewrite decide_False by set_solver.
    repeat case_decide; naive_solver lia.
  - intros q t Hq. apply lookup_delete_Some in Hq as [Hne _]. unfold free_of.
    repeat case_decide; set_solver.
Qed.

Lemma span_free_attach D loc S p s :
  S !! p = Some s -> p ∈ D -> span_free (D ∖ {[p]}) loc S = span_free D loc S + free_len loc s.
Proof.
  intros Hp HD. replace D with ({[p]} ∪ D ∖ {[p]}) at 2 by (symmetry; apply union_difference_L; set_solver).
  rewrite (span_free_detach _ _ _ p s) by set_solver. lia.
Qed.

Lemma span_free_store D loc S p s s' :
  S !! p = Some s ->
  p ∈ D \/ free_len loc s' = free_len loc s ->
  span_free D loc (<[p := s']> S) = span_free D loc S.
Proof.
  intros Hp Hs. unfold span_free. rewrite (msum_update _ _ _ s) by done.
  destruct Hs as [HD|Hs]; unfold free_of, free_len in *; repeat case_decide; naive_solver lia.
Qed.

(** Detached spans do not count. *)
Lemma span_free_insert D loc S p s :
  S !! p = None -> p ∈ D \/ s.(location) <> loc ->
  span_free D loc (<[p := s]> S) = span_free D loc S.
Proof.
  intros Hp Hs. unfold span_free. rewrite msum_insert by done. unfold free_of at 1.
  rewrite decide_False by naive_solver. lia.
Qed.

Lemma span_free_delete D loc S p s :
  S !! p = Some s -> p ∈ D -> span_free D loc (delete p S) = span_free D loc S.
Proof.
  intros Hp HD. unfold span_free. rewrite (msum_delete _ S p s) by done. unfold free_of at 2.
  rewrite decide_False by naive_solver. lia.
Qed.

(** Addresses that are no spans do not matter. *)
Lemma span_free_ext D D' loc S :
  (forall p s, S !! p = Some s -> s.(location) = loc -> p ∈ D <-> p ∈ D') ->
  span_free D loc S = span_free D' loc S.
Proof.
  intros HD. apply msum_ext. intros p s Hp. unfold free_of.
  specialize (HD p s Hp). repeat case_decide; naive_solver.
Qed.

Lemma span_returned_store S p s s' :
  S !! p = Some s ->
  span_returned (<[p := s']> S) = span_returned S
    - free_len ON_RETURNED_FREELIST s + free_len ON_RETURNED_FREELIST s'.
Proof. intros Hp. unfold span_returned. by rewrite (msum_update _ _ _ s). Qed.

Lemma span_returned_insert S p s :
  S !! p = None ->
  span_returned (<[p := s]> S) = free_len ON_RETURNED_FREELIST s + span_returned S.
Proof. intros Hp. unfold span_returned. by rewrite msum_insert. Qed.

Lemma span_returned_delete S p s :
  S !! p = Some s ->
  span_returned (delete p S) = span_returned S - free_len ON_RETURNED_FREELIST s.
Proof.
  intros Hp. unfold span_returned. rewrite (msum_delete _ S p s) by done.
  unfold ret_of at 2, free_len. lia.
Qed.

Lemma span_total_store S p s s' :
  S !! p = Some s -> span_total (<[p := s']> S) = span_total S - s.(length_) + s'.(length_).
Proof. intros Hp. unfold span_total. by rewrite (msum_update _ _ _ s). Qed.

Lemma span_total_insert S p s :
  S !! p = None -> span_total (<[p := s]> S) = s.(length_) + span_total S.
Proof. intros Hp. unfold span_total. by rewrite msum_insert. Qed.

Lemma span_total_delete S p s :
  S !! p = Some s -> span_total (delete p S) = span_total S - s.(length_).
Proof.
  intros Hp. unfold span_total. rewrite (msum_delete _ S p s) by done. unfold len_of at 2. lia.
Qed.

(** The number of normal free spans. *)
Lemma normal_count_store S p s s' :
  S !! p = Some s ->
  normal_count (<[p := s']> S) = normal_count S - normal_of p s + normal_of p s'.
Proof. intros Hp. unfold normal_count. by rewrite (msum_update _ _ _ s). Qed.

Lemma normal_count_delete S p s :
  S !! p = Some s -> normal_count (delete p S) = normal_count S - normal_of p s.
Proof. intros Hp. unfold normal_count. rewrite (msum_delete _ S p s) by done. lia. Qed.

Lemma normal_of_range p s : 0 <= normal_of p s <= 1.
Proof. unfold normal_of. case_decide; lia. Qed.

Lemma normal_count_size S : 0 <= normal_count S <= Z.of_nat (size S).
Proof.
  induction S as [|p s S Hp IH] using map_ind; [done|].
  unfold normal_count in *. rewrite msum_insert, map_size_insert_None by done.
  pose proof (normal_of_range p s). lia.
Qed.
End Counting.

(** ** Free lists *)

(** The spans a free list of spans of [n] pages holds. *)
Definition sel (D : gset Z) (S : gmap Z Span) (loc : Location) (n p : Z) : Prop :=
  exists s, S !! p = Some s /\ (p ∉ D) /\ s.(location) = loc /\ s.(length_) = n.

Definition links_agree (L L' : links) (y : Z) : Prop :=
  lnext L' y = lnext L y /\ lprev L' y = lprev L y.

Definition starts (S : gmap Z Span) (p : Z) : Z := default 0 (start <$> S !! p).

Section Lists.
Context (header : Location -> Z -> Z).

Definition small_ok (D : gset Z) (S : gmap Z Span) (L : links) (loc : Location) (i : Z) : Prop :=
  exists l, dll L (header loc i) l /\ forall p, p ∈ l <-> sel D S loc (i + 1) p.

Definition large_ok (D : gset Z) (S : gmap Z Span) (set : SpanSet) (loc : Location) : Prop :=
  set_sorted (starts S) set /\
  forall x, x ∈ set <-> sel D S loc (spl_length x) (spl_span x) /\ kMaxPages < spl_length x.

Definition lists (D : gset Z) (S : gmap Z Span) (L : links) (large : Location -> SpanSet) : Prop :=
  forall loc, loc <> IN_USE ->
    (forall i, 0 <= i < kMaxPages -> small_ok D S L loc i) /\ large_ok D S (large loc) loc.

Lemma small_frame D S L D' S' L' loc i :
  small_ok D S L loc i ->
  (forall p, sel D' S' loc (i + 1) p <-> sel D S loc (i + 1) p) ->
  links_agree L L' (header loc i) ->
  (forall y, sel D S loc (i + 1) y -> links_agree L L' y) ->
  small_ok D' S' L' loc i.
Proof.
  intros (l & Hd & Hl) Hsel Hh Hy. exists l. split.
  - apply dll_agree with L; [done|]. intros y [->|Hin]%elem_of_cons; [done|]. by apply Hy, Hl.
  - intros p. by rewrite Hl, Hsel.
Qed.

Lemma large_frame D S D' S' set loc :
  large_ok D S set loc ->
  (forall n p, kMaxPages < n -> sel D' S' loc n p <-> sel D S loc n p) ->
  (forall n p, kMaxPages < n -> sel D S loc n p -> starts S' p = starts S p) ->
  large_ok D' S' set loc.
Proof.
  intros [Hs Hl] Hsel Hst. split.
  - apply set_sorted_ext with (starts S); [|done]. intros y Hy. symmetry.
    apply Hl in Hy as [Hy Hn]. by eapply Hst.
  - intros x. rewrite Hl. split; intros [Hx Hn]; (split; [by apply Hsel|done]).
Qed.

Lemma sel_detach D S loc n p y :
  sel ({[p]} ∪ D) S loc n y <-> sel D S loc n y /\ y <> p.
Proof.
  unfold sel. split.
  - intros (s & Hy & HD & ?). split; [exists s|]; set_solver.
  - intros [(s & Hy & HD & ?) Hne]. exists s. set_solver.
Qed.

Lemma sel_attach D S loc n p s y :
  p ∈ D -> S !! p = Some s ->
  sel (D ∖ {[p]}) S loc n y <->
    sel D S loc n y \/ y = p /\ s.(location) = loc /\ s.(length_) = n.
Proof.
  intros HpD Hp. unfold sel. split.
  - intros (t & Hy & HD & Ht). destruct (decide (y = p)) as [->|Hne].
    + right. rewrite Hp in Hy. injection Hy as <-. done.
    + left. exists t. set_solver.
  - intros [(t & Hy & HD & Ht)|(-> & Hl)]; [exists t|exists s]; set_solver.
Qed.

(** Headers are distinct statically allocated objects, spans are not static. *)
Context (static : Z -> Prop).
Context (Hstatic : forall loc i, 0 <= i < kMaxPages -> static (header loc i)).
Context (Hinj : forall loc loc' i i', loc <> IN_USE -> loc' <> IN_USE ->
  0 <= i < kMaxPages -> 0 <= i' < kMaxPages ->
  header loc i = header loc' i' -> loc = loc' /\ i = i').

Definition not_static (S : gmap Z Span) : Prop := forall p s, S !! p = Some s -> ~ static p.

(** The free spans and the headers: the only nodes whose links the lists use. *)
Definition list_node (S : gmap Z Span) (y : Z) : Prop :=
  (exists loc i, loc <> IN_USE /\ 0 <= i < kMaxPages /\ y = header loc i) \/
  (exists s, S !! y = Some s /\ s.(location) <> IN_USE).

Lemma lists_ext D S L lg D' S' :
  lists D S L lg ->
  (forall loc n p, loc <> IN_USE -> sel D' S' loc n p <-> sel D S loc n p) ->
  (forall loc n p, loc <> IN_USE -> sel D S loc n p -> starts S' p = starts S p) ->
  lists D' S' L lg.
Proof.
  intros Hls Hsel Hst loc Hloc. destruct (Hls loc Hloc) as [Hsm Hlg]. split.
  - intros i Hi. apply small_frame with D S L; [by apply Hsm|by intros; apply Hsel|done|done].
  - apply large_frame with D S; [done|by intros; apply Hsel|intros; by eapply Hst].
Qed.

(** Detached spans may change at will. *)
Lemma lists_detached D S L lg S' :
  lists D S L lg -> (forall p, p ∉ D -> S' !! p = S !! p) -> lists D S' L lg.
Proof.
  intros Hls HS. apply lists_ext with D S; [done| |].
  - intros loc n p _. unfold sel. split; intros (s & Hp & HD & ?); exists s; rewrite HS in *; auto.
  - intros loc n p _ (s & Hp & HD & _). unfold starts. by rewrite HS.
Qed.

(** Spans in use may change at will. *)
Lemma lists_same_free D S L lg S' :
  lists D S L lg ->
  (forall p s, s.(location) <> IN_USE -> S' !! p = Some s <-> S !! p = Some s) ->
  lists D S' L lg.
Proof.
  intros Hls HS. apply lists_ext with D S; [done| |].
  - intros loc n p Hloc. unfold sel. split; intros (s & Hp & HD & Hl & Hn); exists s;
      (split; [apply HS; [congruence|done]|done]).
  - intros loc n p Hloc (s & Hp & HD & Hl & _). unfold starts.
    by rewrite (proj2 (HS p s ltac:(congruence)) Hp), Hp.
Qed.

Lemma header_not_span S loc i p s :
  not_static S -> 0 <= i < kMaxPages -> S !! p = Some s -> p <> header loc i.
Proof. intros Hns Hi Hp ->. by apply (Hns _ _ Hp), Hstatic. Qed.

(** The links of a new object. *)
Lemma lists_new_link D S L lg q l :
  lists D S L lg -> S !! q = None -> ~ static q -> lists D S (<[q := l]> L) lg.
Proof.
  intros Hls Hq Hqs loc Hloc. destruct (Hls loc Hloc) as [Hsm Hlg]. split; [|done].
  assert (Hag : forall y, y <> q -> links_agree L (<[q := l]> L) y).
  { intros y Hy. unfold links_agree, lnext, lprev. by rewrite lookup_insert_ne. }
  intros i Hi. apply small_frame with D S L; [by apply Hsm|done| |].
  - apply Hag. intros Heq. apply Hqs. rewrite <- Heq. by apply Hstatic.
  - intros y (s & Hy & _). apply Hag. congruence.
Qed.

(** Changing the links around one list only. *)
Lemma lists_one_list D S L lg D' L' loc i :
  lists D S L lg -> not_static S -> loc <> IN_USE -> 0 <= i < kMaxPages ->
  (forall loc' n p, loc' <> IN_USE -> ~ (loc' = loc /\ n = i + 1) ->
     sel D' S loc' n p <-> sel D S loc' n p) ->
  (forall y, y <> header loc i -> ~ sel D S loc (i + 1) y -> ~ sel D' S loc (i + 1) y ->
     links_agree L L' y) ->
  small_ok D' S L' loc i ->
  lists D' S L' lg.
Proof.
  intros Hls Hns Hloc Hi Hsel HL Hsm loc' Hloc'. destruct (Hls loc' Hloc') as [Hsm' Hlg']. split.
  - intros i' Hi'. destruct (decide (loc' = loc /\ i' = i)) as [[-> ->]|Hne]; [done|].
    assert (Hexcl : forall D0 y, sel D S loc' (i' + 1) y -> ~ sel D0 S loc (i + 1) y).
    { intros D0 y (s & Hy & _ & Hl & Hn) (s' & Hy' & _ & Hl' & Hn'). apply Hne.
      rewrite Hy in Hy'. injection Hy' as <-. split; [congruence|lia]. }
    assert (Hnot : forall D0, ~ sel D0 S loc (i + 1) (header loc' i')).
    { intros D0 (s & Hs & _). by apply (Hns _ _ Hs), Hstatic. }
    apply small_frame with D S L; [by apply Hsm'| | |].
    + intros p. apply Hsel; [done|]. intros [? ?]. apply Hne. split; [done|lia].
    + apply HL; [|done..]. intros Heq. apply Hinj in Heq as [? ?]; try done. by apply Hne.
    + intros y Hy. apply HL; [|by apply Hexcl..]. destruct Hy as (s & Hy & _).
      by eapply header_not_span.
  - apply large_frame with D S; [done| |done]. intros n p Hn. apply Hsel; [done|]. lia.
Qed.

(** Taking a small span off its list. *)
Lemma lists_remove_small D S L lg p s :
  lists D S L lg -> not_static S -> S !! p = Some s -> p ∉ D ->
  s.(location) <> IN_USE -> 0 < s.(length_) <= kMaxPages ->
  lists ({[p]} ∪ D) S (DLL_Remove L p) lg /\
  (forall y, ~ list_node S y -> links_agree L (DLL_Remove L p) y).
Proof.
  intros Hls Hns Hp HD Hloc Hlen. set (loc := s.(location)) in *.
  assert (Hi : 0 <= s.(length_) - 1 < kMaxPages) by lia.
  destruct (Hls loc Hloc) as [Hsm _]. destruct (Hsm _ Hi) as (l & Hd & Hl).
  assert (Hpl : p ∈ l) by (apply Hl; exists s; repeat split; [done..|lia]).
  apply list_elem_of_split in Hpl as (l1 & l2 & ->).
  destruct (DLL_Remove_spec _ _ _ _ _ Hd) as (Hd' & _ & _ & Hfr).
  assert (Hframe : forall y, y <> header loc (s.(length_) - 1) -> ~ sel D S loc (s.(length_) - 1 + 1) y ->
    links_agree L (DLL_Remove L p) y).
  { intros y Hy1 Hy2. apply Hfr. rewrite not_elem_of_cons. split; [done|]. by rewrite Hl. }
  split.
  - eapply lists_one_list; [exact Hls|done|exact Hloc|exact Hi| |by eauto|].
    + intros loc' n y Hloc' Hne. rewrite sel_detach. split; [by intros [? _]|]. intros Hy.
      split; [done|]. intros ->. destruct Hy as (t & Ht & _ & Hlt & Hnt).
      rewrite Hp in Ht. injection Ht as <-. apply Hne. split; [done|lia].
    + exists (l1 ++ l2). split; [done|]. intros y. rewrite sel_detach, <- Hl.
      destruct Hd as [_ [_ (Hnd1 & Hx & Hnd2)%NoDup_app]%NoDup_cons].
      apply NoDup_cons in Hnd2 as [Hp2 _]. rewrite !elem_of_app, elem_of_cons.
      split; [|naive_solver]. intros [Hy|Hy]; (split; [by auto|]); intros ->; [|done].
      apply (Hx p Hy). by left.
  - intros y Hy. apply Hframe.
    + intros ->. apply Hy. left. by exists loc, (s.(length_) - 1).
    + intros (t & Ht & _ & Hlt & _). apply Hy. right. exists t. split; [done|congruence].
Qed.

(** Putting a small span on its list. *)
Lemma lists_prepend_small D S L lg p s :
  lists D S L lg -> not_static S -> S !! p = Some s -> p ∈ D ->
  s.(location) <> IN_USE -> 0 < s.(length_) <= kMaxPages ->
  let L' := DLL_Prepend L (header s.(location) (s.(length_) - 1)) p in
  lists (D ∖ {[p]}) S L' lg /\
  (forall y, ~ list_node S y -> links_agree L L' y).
Proof.
  intros Hls Hns Hp HD Hloc Hlen L'. set (loc := s.(location)) in *.
  assert (Hi : 0 <= s.(length_) - 1 < kMaxPages) by lia.
  destruct (Hls loc Hloc) as [Hsm _]. destruct (Hsm _ Hi) as (l & Hd & Hl).
  assert (Hpl : p ∉ header loc (s.(length_) - 1) :: l).
  { rewrite not_elem_of_cons. split; [by eapply header_not_span|].
    rewrite Hl. by intros (t & _ & ? & _). }
  destruct (DLL_Prepend_spec _ _ _ _ Hd Hpl) as (Hd' & Hfr). fold L' in Hd', Hfr.
  assert (Hframe : forall y, y <> header loc (s.(length_) - 1) ->
    ~ sel (D ∖ {[p]}) S loc (s.(length_) - 1 + 1) y -> links_agree L L' y).
  { intros y Hy1 Hy2. rewrite (sel_attach _ _ _ _ p s) in Hy2 by done. apply Hfr.
    rewrite !not_elem_of_cons. split_and!; [done| |].
    - intros ->. apply Hy2. right. split_and!; [done|done|lia].
    - rewrite Hl. intros Hy. apply Hy2. by left. }
  split.
  - eapply lists_one_list; [exact Hls|done|exact Hloc|exact Hi| |by eauto|].
    + intros loc' n y Hloc' Hne. rewrite sel_attach by done. split; [|by left].
      intros [Hy|(-> & Hl' & Hn)]; [done|]. destruct Hne. split; [done|lia].
    + exists (p :: l). split; [done|]. intros y. rewrite sel_attach, <- Hl, elem_of_cons by done.
      split; [intros [->|?]; [right|by left]|intros [?|(-> & _)]; auto]. split_and!; [done|done|lia].
  - intros y Hy. apply Hframe.
    + intros ->. apply Hy. left. by exists loc, (s.(length_) - 1).
    + intros (t & Ht & _ & Hlt & _). apply Hy. right. exists t. split; [done|congruence].
Qed.

(** Taking a large span out of its set. *)
Lemma lists_remove_large D S L lg lg' p s :
  lists D S L lg -> S !! p = Some s -> p ∉ D ->
  s.(location) <> IN_USE -> kMaxPages < s.(length_) ->
  (forall loc, loc <> IN_USE -> lg' loc =
     if decide (loc = s.(location)) then SpanSet_erase p (lg loc) else lg loc) ->
  lists ({[p]} ∪ D) S L lg'.
Proof.
  clear Hstatic Hinj static.
  intros Hls Hp HD Hloc Hlen Hlg loc Hloc'. destruct (Hls loc Hloc') as [Hsm [Hst Hel]]. split.
  - intros i Hi. apply small_frame with D S L; [by apply Hsm| |done..].
    intros y. rewrite sel_detach. split; [by intros [? _]|]. intros Hy. split; [done|].
    intros ->. destruct Hy as (t & Ht & _ & _ & Hn). rewrite Hp in Ht. injection Ht as <-. lia.
  - rewrite Hlg by done. case_decide as Hd.
    + split; [by apply SpanSet_erase_sorted|]. intros x.
      rewrite SpanSet_erase_elem, Hel, sel_detach. tauto.
    + split; [done|]. intros x. rewrite Hel, sel_detach. split; [|tauto]. intros [Hx ?].
      split_and!; try done. intros Hxp. destruct Hx as (t & Ht & _ & Hl & _). rewrite Hxp in Ht.
      rewrite Hp in Ht. injection Ht as <-. by apply Hd.
Qed.

(** Putting a large span into its set. *)
Lemma lists_insert_large D S L lg lg' p s :
  lists D S L lg -> S !! p = Some s -> p ∈ D ->
  s.(location) <> IN_USE -> kMaxPages < s.(length_) ->
  (forall q t, S !! q = Some t -> q ∉ D -> t.(location) <> IN_USE -> t.(start) <> s.(start)) ->
  (forall loc, loc <> IN_USE -> lg' loc =
     if decide (loc = s.(location))
     then SpanSet_insert (starts S) (mkSPL p s.(length_)) (lg loc) else lg loc) ->
  lists (D ∖ {[p]}) S L lg'.
Proof.
  clear Hstatic Hinj static.
  intros Hls Hp HD Hloc Hlen Huniq Hlg loc Hloc'. destruct (Hls loc Hloc') as [Hsm [Hst Hel]]. split.
  - intros i Hi. apply small_frame with D S L; [by apply Hsm| |done..].
    intros y. rewrite sel_attach by done. split; [|by left]. intros [?|(_ & _ & ?)]; [done|lia].
  - rewrite Hlg by done.
    assert (Hne : forall z, z ∈ lg loc -> starts S (spl_span z) <> starts S p).
    { intros z Hz. apply Hel in Hz as [(t & Ht & HtD & Hlt & _) _]. unfold starts.
      rewrite Ht, Hp. simpl. apply (Huniq _ _ Ht); [done|congruence]. }
    case_decide as Hd.
    + split; [by apply SpanSet_insert_sorted|]. intros x.
      rewrite SpanSet_insert_elem, Hel, sel_attach by done. destruct x as [xp xl]. simpl. split.
      * intros [[= -> ->]|[? ?]]; (split; [|done]); [right|left]; done.
      * intros [[?|(-> & _ & <-)] ?]; [by right|by left].
    + split; [done|]. intros x. rewrite Hel, sel_attach by done. split; [tauto|].
      intros [[?|(_ & ? & _)] ?]; [tauto|]. by destruct Hd.
Qed.
End Lists.
