(* ===== verification/PageHeapInv.v ===== *)
(** The invariant of the page heap, and what its building blocks do to it.

    [Inv strict D e h] says that the descriptors, the page map, the free lists
    and the counters of [h] agree, where [D] is the set of spans that are for the
    moment on no free list, and [e] is the number of pages by which the committed
    bytes are ahead of the locations of the spans: both are trivial ([∅] and 0)
    between operations.  [strict] selects the stronger form in which also the
    returned spans are maximally coalesced, which holds as long as aggressive
    decommit is off. *)
From S2P Require Import Prelude SizeMap Span PackedCache PageMap SysEnv PageHeap SpanStore.

(** No two neighbours, both on lists, have location [loc]. *)
Definition coalesced (D : gset Z) (loc : Location) (S : gmap Z Span) : Prop :=
  forall p q s t, S !! p = Some s -> S !! q = Some t -> p ∉ D -> q ∉ D ->
    s.(start) + s.(length_) = t.(start) -> s.(location) = loc -> t.(location) <> loc.

Lemma coalesced_mono D D' loc S : coalesced D loc S -> D ⊆ D' -> coalesced D' loc S.
Proof. intros HS HD p q s t Hp Hq HpD HqD. apply (HS p q s t); set_solver. Qed.

(** Changing a detached span. *)
Lemma coalesced_detached D loc S S' :
  coalesced D loc S -> (forall p, p ∉ D -> S' !! p = S !! p) -> coalesced D loc S'.
Proof.
  intros HS Heq p q s t Hp Hq HpD HqD. rewrite Heq in Hp, Hq by done. by apply (HS p q s t).
Qed.

Definition page_limit : Z := 2 ^ (kAddressBits - kPageShift).

Lemma bytes_of_eq n : 0 <= n < 2 ^ 51 -> bytes_of n = 8192 * n.
Proof.
  intros. unfold bytes_of. rewrite Z.shiftl_mul_pow2 by done. consts.
  change (2 ^ 13) with 8192. rewrite u64_small; lia.
Qed.

Lemma u64_add_r a b : u64 (a + u64 b) = u64 (a + b).
Proof. apply Zplus_mod_idemp_r. Qed.

Lemma u64_eq a b : (exists k, a = b + k * 2 ^ 64) -> u64 a = u64 b.
Proof. intros [k ->]. apply Z_mod_plus_full. Qed.

(** The page map has an entry for every page number, and the list headers are
    statically allocated. *)
Class HeapLayout {W : Type} {P : PageMap W} {G : EnvGhost W} (free_ : Z) : Prop := {
  layout_bits : pm_bits = kAddressBits - kPageShift;
  layout_static loc i : 0 <= i < kMaxPages -> static_addr (free_list free_ loc i)
}.
Arguments layout_static {W P G} free_ {_} loc i _.

Section Inv.
Context {W : Type} {E : Env W} {P : PageMap W} {G : EnvGhost W}.
Context (ens : pm_t -> Z -> Prop) (free_ : Z).

Implicit Types (h : PageHeap) (D : gset Z) (p q : Z) (s t : Span).

Definition large h (loc : Location) : SpanSet :=
  match loc with ON_RETURNED_FREELIST => h.(large_returned_) | _ => h.(large_normal_) end.

Record Inv (strict : bool) (D : gset Z) (e : Z) (h : PageHeap) : Prop := {
  i_env : env_ok h.(world);
  i_geom : geom static_addr page_limit h.(spans) (pm_get h.(pagemap_)) (ens h.(pagemap_))
             (live h.(world)) (taken h.(world));
  i_lists : lists (free_list free_) D h.(spans) h.(span_links) (large h);
  i_free : h.(stats_).(free_bytes) = 8192 * span_free D ON_NORMAL_FREELIST h.(spans);
  i_unmapped : h.(stats_).(unmapped_bytes) = 8192 * span_free D ON_RETURNED_FREELIST h.(spans);
  i_system : exists lk, lk ⊆ taken h.(world) /\
    (forall p s k, h.(spans) !! p = Some s -> covers s k -> k ∉ lk) /\
    h.(stats_).(system_bytes) = 8192 * (span_total h.(spans) + Z.of_nat (size lk));
  i_committed : h.(stats_).(committed_bytes) =
    u64 (h.(stats_).(system_bytes) - 8192 * (span_returned h.(spans) + e));
  i_normal : coalesced D ON_NORMAL_FREELIST h.(spans);
  i_returned : strict = true ->
    coalesced D ON_RETURNED_FREELIST h.(spans) /\ h.(aggressive_decommit_) = false;
  i_round : exists k, 0 <= k < 51 /\ h.(smallest_span_size_) = 2 ^ k;
  i_index : 0 <= h.(release_index_)
}.

(** [is_header a]: [a] is one of the headers of [free_]. *)
Definition is_header (a : Z) : Prop :=
  exists loc i, loc <> IN_USE /\ 0 <= i < kMaxPages /\ a = free_list free_ loc i.

(** What every operation leaves alone: the spans in use other than those in [X] with
    their pages and links, the links of static objects other than the heap's own
    headers, and the configuration.  No span outside [X] comes into use. *)
Record keeps (X : gset Z) (h h' : PageHeap) : Prop := {
  k_span p s : h.(spans) !! p = Some s -> s.(location) = IN_USE -> p ∉ X ->
    h'.(spans) !! p = Some s;
  k_span' p s : h'.(spans) !! p = Some s -> s.(location) = IN_USE -> p ∉ X ->
    h.(spans) !! p = Some s;
  k_page p s k : h.(spans) !! p = Some s -> s.(location) = IN_USE -> p ∉ X ->
    covers s k -> pm_get h'.(pagemap_) k = pm_get h.(pagemap_) k;
  k_link p s : h.(spans) !! p = Some s -> s.(location) = IN_USE -> p ∉ X ->
    links_agree h.(span_links) h'.(span_links) p;
  k_static a : static_addr a -> ~ is_header a ->
    links_agree h.(span_links) h'.(span_links) a;
  k_taken : taken h.(world) ⊆ taken h'.(world);
  k_config : h'.(smallest_span_size_) = h.(smallest_span_size_) /\
    h'.(aggressive_decommit_) = h.(aggressive_decommit_) /\
    h'.(heap_limit_mb) = h.(heap_limit_mb) /\ h'.(release_rate) = h.(release_rate);
  (* the size-class cache learns nothing *)
  k_cache k v : 0 <= k < 2 ^ 64 -> TryGetSizeClass h' k = Some v -> TryGetSizeClass h k = Some v
}.

Lemma links_agree_refl L y : links_agree L L y.
Proof. done. Qed.

Lemma links_agree_trans L1 L2 L3 y :
  links_agree L1 L2 y -> links_agree L2 L3 y -> links_agree L1 L3 y.
Proof. intros [? ?] [? ?]. split; congruence. Qed.

Lemma keeps_refl X h : keeps X h h.
Proof. split; auto using links_agree_refl. Qed.

Lemma keeps_trans X h1 h2 h3 : keeps X h1 h2 -> keeps X h2 h3 -> keeps X h1 h3.
Proof.
  intros [A1 A2 A3 A4 A5 A6 A7 A8] [B1 B2 B3 B4 B5 B6 B7 B8]. split; eauto.
  - intros p s k Hp Hl Hx Hk. rewrite (B3 p s k); eauto.
  - intros p s Hp Hl Hx. eapply links_agree_trans; eauto.
  - intros a Ha Hh. eapply links_agree_trans; eauto.
  - by transitivity (taken h2.(world)).
  - destruct A7 as (? & ? & ? & ?), B7 as (? & ? & ? & ?). split_and!; congruence.
Qed.

Lemma keeps_mono X Y h h' : keeps X h h' -> X ⊆ Y -> keeps Y h h'.
Proof. intros [A1 A2 A3 A4 A5 A6 A7 A8] HXY. split; eauto. Qed.

Lemma keeps_weaken X h h' : keeps ∅ h h' -> keeps X h h'.
Proof. intros Hk. eapply keeps_mono; [exact Hk|set_solver]. Qed.

(** A span that is in use neither before nor after need not be excepted. *)
Lemma keeps_drop X h h' q :
  keeps X h h' ->
  (forall s, h.(spans) !! q = Some s -> s.(location) <> IN_USE) ->
  (forall s, h'.(spans) !! q = Some s -> s.(location) <> IN_USE) ->
  keeps (X ∖ {[q]}) h h'.
Proof.
  intros [A1 A2 A3 A4 A5 A6 A7 A8] Hq Hq'.
  assert (Hne : forall p s, h.(spans) !! p = Some s -> s.(location) = IN_USE -> p ∉ X ∖ {[q]} -> p ∉ X).
  { intros p s Hp Hl Hx. assert (p <> q) by (intros ->; by apply (Hq s)). set_solver. }
  assert (Hne' : forall p s, h'.(spans) !! p = Some s -> s.(location) = IN_USE -> p ∉ X ∖ {[q]} -> p ∉ X).
  { intros p s Hp Hl Hx. assert (p <> q) by (intros ->; by apply (Hq' s)). set_solver. }
  split; eauto.
Qed.

(** The change of a state in which only counters, links of no list and the
    surroundings differ. *)
Record quiet (h h' : PageHeap) : Prop := {
  q_spans : h'.(spans) = h.(spans);
  q_pagemap : h'.(pagemap_) = h.(pagemap_);
  q_links : h'.(span_links) = h.(span_links);
  q_normal : h'.(large_normal_) = h.(large_normal_);
  q_returned : h'.(large_returned_) = h.(large_returned_);
  q_free : h'.(stats_).(free_bytes) = h.(stats_).(free_bytes);
  q_unmapped : h'.(stats_).(unmapped_bytes) = h.(stats_).(unmapped_bytes);
  q_system : h'.(stats_).(system_bytes) = h.(stats_).(system_bytes);
  q_index : h'.(release_index_) = h.(release_index_);
  q_config : h'.(smallest_span_size_) = h.(smallest_span_size_) /\
    h'.(aggressive_decommit_) = h.(aggressive_decommit_) /\
    h'.(heap_limit_mb) = h.(heap_limit_mb) /\ h'.(release_rate) = h.(release_rate);
  q_world : env_step h.(world) h'.(world);
  q_cache k v : 0 <= k < 2 ^ 64 -> TryGetSizeClass h' k = Some v -> TryGetSizeClass h k = Some v
}.

Lemma quiet_keeps X h h' : quiet h h' -> keeps X h h'.
Proof.
  intros [H1 H2 H3 H4 H5 _ _ _ _ H6 (_ & _ & H7) H8].
  split; rewrite ?H1, ?H2, ?H3; auto using links_agree_refl.
Qed.

Lemma quiet_Inv strict D e e' h h' :
  quiet h h' ->
  h'.(stats_).(committed_bytes) =
    u64 (h.(stats_).(system_bytes) - 8192 * (span_returned h.(spans) + e')) ->
  Inv strict D e h -> Inv strict D e' h'.
Proof.
  intros [H1 H2 H3 H4 H5 H6 H7 H8 H9 (H10 & H11 & _) (Hok & Hlv & Htk) _] Hc [].
  split; rewrite ?H1, ?H2, ?H3, ?H6, ?H7, ?H8, ?H9, ?H10, ?H11; try done.
  - apply geom_mono with (get := pm_get h.(pagemap_)) (ens := ens h.(pagemap_))
      (lv := live h.(world)) (tk := taken h.(world)); try done.
    intros p s Hp. rewrite Hlv. by destruct (g_ok _ _ _ _ _ _ _ i_geom0 p s Hp).
  - intros loc Hloc. specialize (i_lists0 loc Hloc).
    by destruct loc; unfold large in *; rewrite ?H4, ?H5.
  - destruct i_system0 as (lk & Hlk & Hno & Hsys). exists lk. split_and!; try done.
    by transitivity (taken h.(world)).
Qed.

(** ** Consequences of the invariant *)

Context {EL : EnvLaws W} {PL : PageMapLaws MetaDataAlloc P ens}.
Context {HLay : HeapLayout free_}.

Lemma free_list_inj loc loc' i i' :
  loc <> IN_USE -> loc' <> IN_USE -> 0 <= i < kMaxPages -> 0 <= i' < kMaxPages ->
  free_list free_ loc i = free_list free_ loc' i' -> loc = loc' /\ i = i'.
Proof.
  unfold free_list, free_normal, free_returned, sizeof_Span.
  destruct loc, loc'; intros; try done; (split; [done|lia]) || lia.
Qed.

Lemma Inv_ok strict D e h p s :
  Inv strict D e h -> h.(spans) !! p = Some s ->
  span_ok static_addr page_limit p s (ens h.(pagemap_)) (live h.(world)) (taken h.(world)).
Proof. intros [] Hp. by eapply g_ok. Qed.

Lemma Inv_not_static strict D e h : Inv strict D e h -> not_static static_addr h.(spans).
Proof. intros HI p s Hp. by destruct (Inv_ok _ _ _ _ _ _ HI Hp). Qed.

(** All pages, of spans and leaked, are fewer than 2^31. *)
Lemma Inv_total strict D e h lk :
  Inv strict D e h -> lk ⊆ taken h.(world) ->
  (forall p s k, h.(spans) !! p = Some s -> covers s k -> k ∉ lk) ->
  span_total h.(spans) + Z.of_nat (size lk) < 2 ^ 31.
Proof.
  intros HI Hlk Hno. pose proof HI as []. apply Z.le_lt_trans with (Z.of_nat (size (taken h.(world)))).
  - apply total_bound; [| |intros p s k Hp Hk|done].
    + intros p s Hp. destruct (Inv_ok _ _ _ _ _ _ HI Hp). lia.
    + apply i_geom0.
    + split; [|by eapply Hno]. by apply (Inv_ok _ _ _ _ _ _ HI Hp).
  - by apply (@taken_bound W E G EL).
Qed.

Lemma Inv_total0 strict D e h : Inv strict D e h -> 0 <= span_total h.(spans) < 2 ^ 31.
Proof.
  intros HI. pose proof (i_system _ _ _ _ HI) as (lk & Hlk & Hno & _).
  pose proof (Inv_total _ _ _ _ _ HI Hlk Hno). split; [|lia].
  apply msum_nonneg. intros p s Hp. unfold len_of. destruct (Inv_ok _ _ _ _ _ _ HI Hp). lia.
Qed.

Lemma Inv_lengths strict D e h p s : Inv strict D e h -> h.(spans) !! p = Some s -> 0 <= s.(length_).
Proof. intros HI Hp. destruct (Inv_ok _ _ _ _ _ _ HI Hp). lia. Qed.
#[local] Hint Resolve Inv_lengths : core.

Lemma Inv_length strict D e h p s :
  Inv strict D e h -> h.(spans) !! p = Some s -> 0 < s.(length_) < 2 ^ 31.
Proof.
  intros HI Hp. pose proof (Inv_total0 _ _ _ _ HI).
  assert (len_of p s <= span_total h.(spans)) as Hle by (apply msum_elem; [done|by eauto]).
  unfold len_of in Hle. destruct (Inv_ok _ _ _ _ _ _ HI Hp). lia.
Qed.

Lemma Inv_bytes strict D e h p s :
  Inv strict D e h -> h.(spans) !! p = Some s -> bytes_of s.(length_) = 8192 * s.(length_).
Proof. intros HI Hp. pose proof (Inv_length _ _ _ _ _ _ HI Hp). apply bytes_of_eq. lia. Qed.

(** ** Primitive commands *)

Lemma wp_deref p s Q h : h.(spans) !! p = Some s -> Q s h -> wp (deref p) Q h.
Proof. intros Hp HQ. unfold wp, deref. by rewrite Hp. Qed.

Lemma wp_store p s f Q h :
  h.(spans) !! p = Some s -> Q tt (upd_spans (<[p := f s]>) h) -> wp (store p f) Q h.
Proof. intros Hp HQ. unfold wp, store. by rewrite Hp. Qed.

Lemma wp_call {A} (f : W -> result (A * W)) a w Q h :
  f h.(world) = Ok (a, w) -> Q a (upd_world (fun _ => w) h) -> wp (call f) Q h.
Proof. intros Hf HQ. unfold wp, call. by rewrite Hf. Qed.

Lemma wp_call_oom {A} (f : W -> result (A * W)) Q h :
  f h.(world) = OutOfMemory -> wp (call f) Q h.
Proof. intros Hf. unfold wp, call. by rewrite Hf. Qed.

Lemma wp_pagemap_set k v Q h :
  ens h.(pagemap_) k ->
  (forall m', (forall k', 0 <= k' -> pm_get m' k' = if decide (k = k') then v else pm_get h.(pagemap_) k') ->
     (forall k', ens m' k' <-> ens h.(pagemap_) k') ->
     Q tt (upd_pagemap (fun _ => m') h)) ->
  wp (pagemap_set k v) Q h.
Proof.
  intros Hk HQ. destruct (pm_set_ok _ _ _ v Hk) as (m' & Heq & Hget & Hens).
  unfold wp, pagemap_set. rewrite Heq. simpl. by apply HQ.
Qed.

(** ** Committing and decommitting *)

(** The system never refuses to take memory back. *)
Definition release_works : Prop :=
  forall a len w b w', TCMalloc_SystemRelease a len w = Ok (b, w') -> b = true.

Lemma wp_DecommitSpan strict D e h p s :
  Inv strict D e h -> h.(spans) !! p = Some s ->
  wp (DecommitSpan p) (fun b h' =>
    Inv strict D (if b : bool then e + s.(length_) else e) h' /\ quiet h h' /\
    (release_works -> b = true)) h.
Proof.
  intros HI Hp. pose proof HI as []. pose proof (Inv_bytes _ _ _ _ _ _ HI Hp) as Hb.
  unfold DecommitSpan. apply wp_bind, wp_deref with s; [done|]. apply wp_bind, wp_modify.
  destruct (SystemRelease_ok _ (bytes_of s.(start)) (bytes_of s.(length_)) h.(world) i_env0)
    as (b & w' & Heq & Hw).
  apply wp_bind. eapply wp_call; [exact Heq|]. apply wp_bind.
  destruct b; wp_pure;
    match goal with |- Inv _ _ _ ?h' /\ _ => assert (quiet h h') as Hq by (split; try done) end;
    (split; [|split; [exact Hq|intros Hw'; by eapply Hw']]); apply quiet_Inv with e h; try done.
  simpl. rewrite i_committed0, u64_add_l, Hb. f_equal. lia.
Qed.

Lemma wp_CommitSpan strict D e h p s :
  Inv strict D e h -> h.(spans) !! p = Some s ->
  wp (CommitSpan p) (fun _ h' => Inv strict D (e - s.(length_)) h' /\ quiet h h') h.
Proof.
  intros HI Hp. pose proof HI as []. pose proof (Inv_bytes _ _ _ _ _ _ HI Hp) as Hb.
  unfold CommitSpan. apply wp_bind, wp_deref with s; [done|]. wp_pure.
  match goal with |- Inv _ _ _ ?h' /\ _ => assert (quiet h h') as Hq end.
  { split; try done. by apply SystemCommit_ok. }
  split; [|exact Hq]. apply quiet_Inv with e h; [done| |done]. simpl.
  rewrite i_committed0, u64_add_l, Hb. f_equal. lia.
Qed.

(** ** Free lists *)

(** The fields of a free span that anything depends on. *)
Definition span_eqv (s s' : Span) : Prop :=
  s'.(start) = s.(start) /\ s'.(length_) = s.(length_) /\
  s'.(location) = s.(location) /\ s'.(sizeclass) = s.(sizeclass).

Lemma free_sizeclass strict D e h p s :
  Inv strict D e h -> h.(spans) !! p = Some s -> s.(location) <> IN_USE -> s.(sizeclass) = 0.
Proof.
  intros HI Hp Hl. destruct (g_mapped _ _ _ _ _ _ _ (i_geom _ _ _ _ HI) p s Hp) as [_ _ Hc].
  destruct (Z.eq_dec s.(sizeclass) 0); [done|]. by destruct (Hc n).
Qed.

(** A change of a free span [p] and of the links of list nodes. *)
Lemma keeps_free h h' p s s' :
  not_static static_addr h.(spans) ->
  h.(spans) !! p = Some s -> s.(location) <> IN_USE -> s'.(location) <> IN_USE ->
  h'.(spans) = <[p := s']> h.(spans) -> h'.(pagemap_) = h.(pagemap_) ->
  (forall y, ~ list_node (free_list free_) h.(spans) y -> links_agree h.(span_links) h'.(span_links) y) ->
  taken h.(world) ⊆ taken h'.(world) ->
  h'.(smallest_span_size_) = h.(smallest_span_size_) /\
    h'.(aggressive_decommit_) = h.(aggressive_decommit_) /\
    h'.(heap_limit_mb) = h.(heap_limit_mb) /\ h'.(release_rate) = h.(release_rate) ->
  h'.(pagemap_cache_) = h.(pagemap_cache_) ->
  keeps ∅ h h'.
Proof.
  intros Hns Hp Hl Hl' HS Hm HL Htk Hcfg Hca. split; try done; [..|intros k v _; unfold TryGetSizeClass; by rewrite Hca].
  - intros q t Hq Ht _. rewrite HS, lookup_insert_ne; [done|]. intros <-. congruence.
  - intros q t Hq Ht _. rewrite HS in Hq. apply lookup_insert_Some in Hq as [[_ <-]|[_ ?]]; done.
  - intros. by rewrite Hm.
  - intros q t Hq Ht _. apply HL. intros [(loc & i & _ & Hi & ->)|(u & Hu & Hul)].
    + by apply (Hns _ _ Hq), layout_static.
    + congruence.
  - intros a Ha Hh. apply HL. intros [?|(u & Hu & _)]; [by apply Hh|]. by apply (Hns _ _ Hu).
Qed.

(** [h'] is [h] with the free span [p], at [s] in [h], taken off its list. *)
Definition detached (p : Z) (s : Span) (h h' : PageHeap) : Prop :=
  exists s', span_eqv s s' /\ h'.(spans) = <[p := s']> h.(spans) /\ h'.(pagemap_) = h.(pagemap_).

Lemma span_eqv_free_len loc s s' : span_eqv s s' -> free_len loc s' = free_len loc s.
Proof. intros (_ & Hl & Hloc & _). unfold free_len. by rewrite Hl, Hloc. Qed.

(** The accounting and the geometry when a span changes only inessentially and
    moves between being detached and being on a list. *)
Lemma Inv_relist strict D D' e h h' p s s' :
  Inv strict D e h -> h.(spans) !! p = Some s -> span_eqv s s' -> s.(location) <> IN_USE ->
  h'.(spans) = <[p := s']> h.(spans) -> h'.(pagemap_) = h.(pagemap_) ->
  env_step h.(world) h'.(world) ->
  h'.(smallest_span_size_) = h.(smallest_span_size_) ->
  h'.(aggressive_decommit_) = h.(aggressive_decommit_) ->
  h'.(release_index_) = h.(release_index_) ->
  h'.(stats_).(system_bytes) = h.(stats_).(system_bytes) ->
  h'.(stats_).(committed_bytes) = h.(stats_).(committed_bytes) ->
  lists (free_list free_) D' h'.(spans) h'.(span_links) (large h') ->
  h'.(stats_).(free_bytes) = 8192 * span_free D' ON_NORMAL_FREELIST h.(spans) ->
  h'.(stats_).(unmapped_bytes) = 8192 * span_free D' ON_RETURNED_FREELIST h.(spans) ->
  coalesced D' ON_NORMAL_FREELIST h.(spans) ->
  (strict = true -> coalesced D' ON_RETURNED_FREELIST h.(spans)) ->
  Inv strict D' e h'.
Proof.
  intros HI Hp Heqv Hl HS Hm (Hok & Hlv & Htk) H1 H2 H3 Hsys Hcom Hls Hf Hu Hcn Hcr.
  pose proof HI as []. pose proof Heqv as (A1 & A2 & A3 & A4).
  assert (Hco : forall loc, coalesced D' loc h.(spans) -> coalesced D' loc h'.(spans)).
  { intros loc Hc. rewrite HS. intros a b u v Ha Hb HaD HbD.
    assert (exists u', h.(spans) !! a = Some u' /\ span_eqv u' u) as (u' & Ha' & Eu).
    { apply lookup_insert_Some in Ha as [[<- <-]|[_ ?]]; eauto. exists u. by split. }
    assert (exists v', h.(spans) !! b = Some v' /\ span_eqv v' v) as (v' & Hb' & Ev).
    { apply lookup_insert_Some in Hb as [[<- <-]|[_ ?]]; eauto. exists v. by split. }
    destruct Eu as (-> & -> & -> & _), Ev as (-> & _ & -> & _). by apply (Hc a b u' v'). }
  split; rewrite ?H1, ?H2, ?H3, ?Hm, ?Hsys, ?Hcom; try done.
  - rewrite HS. apply geom_store with s; [|done..|].
    + apply geom_mono with (get := pm_get h.(pagemap_)) (ens := ens h.(pagemap_))
        (lv := live h.(world)) (tk := taken h.(world)); try done.
      intros q t Hq. rewrite Hlv. by destruct (Inv_ok _ _ _ _ _ _ HI Hq).
    + intros Hsc. rewrite A4 in Hsc. by rewrite (free_sizeclass _ _ _ _ _ _ HI Hp Hl) in Hsc.
  - rewrite HS, (span_free_store _ _ _ _ s); [done|done|]. right. by apply span_eqv_free_len.
  - rewrite HS, (span_free_store _ _ _ _ s); [done|done|]. right. by apply span_eqv_free_len.
  - destruct i_system0 as (lk & Hlk & Hno & Hs). exists lk. split_and!.
    + by transitivity (taken h.(world)).
    + intros q t k Hq Hk. rewrite HS in Hq. apply lookup_insert_Some in Hq as [[<- <-]|[_ Hq]].
      * apply (Hno p s k Hp). unfold covers in *. by rewrite <- A1, <- A2.
      * by apply (Hno q t k).
    + rewrite HS, (span_total_store _ _ s), A2 by done. rewrite Hs. lia.
  - rewrite HS, (span_returned_store _ _ s), (span_eqv_free_len _ _ _ Heqv) by done.
    rewrite i_committed0. f_equal. lia.
  - by apply Hco.
  - intros Hst. split; [by apply Hco, Hcr|by apply i_returned0].
Qed.

(** The two byte counters after a span of [n] pages left or joined a list. *)
Lemma counter_add a n : 0 <= a + n < 2 ^ 31 -> u64 (8192 * a + 8192 * n) = 8192 * (a + n).
Proof. intros. rewrite u64_small; lia. Qed.

Lemma Inv_free_bound strict D e h D' loc :
  Inv strict D e h -> 0 <= span_free D' loc h.(spans) < 2 ^ 31.
Proof.
  intros HI. pose proof (Inv_total0 _ _ _ _ HI).
  pose proof (free_le_total D' loc h.(spans) ltac:(eauto)). lia.
Qed.

Lemma stats_add_spec loc n (t : Stats) D (S : gmap Z Span) :
  loc <> IN_USE ->
  t.(free_bytes) = 8192 * span_free D ON_NORMAL_FREELIST S ->
  t.(unmapped_bytes) = 8192 * span_free D ON_RETURNED_FREELIST S ->
  forall D', (forall loc', loc' <> IN_USE -> span_free D' loc' S =
    span_free D loc' S + (if decide (loc' = loc) then n else 0)) ->
  (0 <= span_free D' loc S < 2 ^ 31) ->
  (stats_add loc (8192 * n) t).(free_bytes) = 8192 * span_free D' ON_NORMAL_FREELIST S /\
  (stats_add loc (8192 * n) t).(unmapped_bytes) = 8192 * span_free D' ON_RETURNED_FREELIST S /\
  (stats_add loc (8192 * n) t).(system_bytes) = t.(system_bytes) /\
  (stats_add loc (8192 * n) t).(committed_bytes) = t.(committed_bytes).
Proof.
  intros Hl Hf Hu D' HD' Hb. unfold stats_add.
  rewrite (HD' loc), decide_True in Hb by done. rewrite !HD' by done.
  destruct loc; [done| |]; simpl; rewrite ?Hf, ?Hu, counter_add by done; split_and!; lia.
Qed.

Lemma wp_RemoveFromFreeList strict D e h p s :
  Inv strict D e h -> h.(spans) !! p = Some s -> p ∉ D -> s.(location) <> IN_USE ->
  wp (RemoveFromFreeList p) (fun _ h' =>
    Inv strict ({[p]} ∪ D) e h' /\ keeps ∅ h h' /\ detached p s h h') h.
Proof.
  intros HI Hp HD Hl. pose proof HI as [].
  pose proof (Inv_length _ _ _ _ _ _ HI Hp) as Hlen.
  pose proof (Inv_not_static _ _ _ _ HI) as Hns.
  unfold RemoveFromFreeList. apply wp_bind, wp_deref with s; [done|].
  rewrite (Inv_bytes _ _ _ _ _ _ HI Hp). apply wp_bind, wp_modify.
  destruct (stats_add_spec s.(location) (- s.(length_)) h.(stats_) D h.(spans) Hl i_free0 i_unmapped0
    ({[p]} ∪ D)) as (F1 & F2 & F3 & F4).
  { intros loc' Hl'. rewrite (span_free_detach _ _ _ p s) by done. unfold free_len.
    repeat case_decide; naive_solver lia. }
  { by eapply Inv_free_bound. }
  rewrite Z.mul_opp_r in F1, F2, F3, F4.
  assert (coalesced ({[p]} ∪ D) ON_NORMAL_FREELIST h.(spans)) as Hcn by (eapply coalesced_mono; set_solver).
  assert (strict = true -> coalesced ({[p]} ∪ D) ON_RETURNED_FREELIST h.(spans)) as Hcr.
  { intros Hst. destruct (i_returned0 Hst). eapply coalesced_mono; set_solver. }
  rewrite Z.gtb_ltb. destruct (Z.ltb_spec kMaxPages s.(length_)) as [Hbig|Hsmall].
  - unfold large_erase. apply wp_bind, wp_deref with s; [done|].
    apply wp_bind, wp_store with s; [done|]. wp_pure.
    pose proof (setnode_Delete_ok _ s.(objects) h.(world) i_env0) as Hw.
    split_and!.
    + apply Inv_relist with D h p s (set_has_span_iter false s); try done.
      apply lists_detached with h.(spans).
      * eapply lists_remove_large; [exact i_lists0|done..|].
        intros loc Hloc. destruct loc, s.(location); done.
      * intros q Hq. simpl. rewrite lookup_insert_ne; [done|set_solver].
    + eapply keeps_free with p s (set_has_span_iter false s); try done. apply Hw.
    + by exists (set_has_span_iter false s).
  - apply wp_modify.
    destruct (lists_remove_small _ _ (layout_static free_) free_list_inj D h.(spans) h.(span_links) (large h) p s)
      as [Hls HL]; try done; [lia|].
    assert (<[p := s]> h.(spans) = h.(spans)) as Hid by (by apply insert_id). split_and!.
    + apply Inv_relist with D h p s s; try done.
    + eapply keeps_free with p s s; try done.
    + by exists s.
Qed.

(** [PrependToFreeList], where the geometry may be in transition: what it does to
    the lists and the counters. *)
Lemma wp_PrependToFreeList_raw D h p s :
  env_ok h.(world) -> not_static static_addr h.(spans) ->
  lists (free_list free_) D h.(spans) h.(span_links) (large h) ->
  h.(stats_).(free_bytes) = 8192 * span_free D ON_NORMAL_FREELIST h.(spans) ->
  h.(stats_).(unmapped_bytes) = 8192 * span_free D ON_RETURNED_FREELIST h.(spans) ->
  h.(spans) !! p = Some s -> p ∈ D -> s.(location) <> IN_USE -> 0 < s.(length_) < 2 ^ 31 ->
  0 <= span_free (D ∖ {[p]}) s.(location) h.(spans) < 2 ^ 31 ->
  (forall q t, h.(spans) !! q = Some t -> q ∉ D -> t.(location) <> IN_USE -> t.(start) <> s.(start)) ->
  wp (PrependToFreeList free_ p) (fun _ h' => exists s' w' L' ln lr st',
    span_eqv s s' /\ env_step h.(world) w' /\
    h' = upd_world (fun _ => w') (upd_spans (<[p := s']>) (upd_span_links (fun _ => L')
           (upd_large_normal (fun _ => ln) (upd_large_returned (fun _ => lr)
             (upd_stats (fun _ => st') h))))) /\
    lists (free_list free_) (D ∖ {[p]}) h'.(spans) L' (large h') /\
    (forall y, ~ list_node (free_list free_) h.(spans) y -> links_agree h.(span_links) L' y) /\
    st'.(free_bytes) = 8192 * span_free (D ∖ {[p]}) ON_NORMAL_FREELIST h.(spans) /\
    st'.(unmapped_bytes) = 8192 * span_free (D ∖ {[p]}) ON_RETURNED_FREELIST h.(spans) /\
    st'.(system_bytes) = h.(stats_).(system_bytes) /\
    st'.(committed_bytes) = h.(stats_).(committed_bytes)) h.
Proof.
  intros Hok Hns Hls Hf Hu Hp HD Hl Hlen Hb Huniq.
  unfold PrependToFreeList. apply wp_bind, wp_deref with s; [done|].
  rewrite bytes_of_eq by lia. apply wp_bind, wp_modify.
  destruct (stats_add_spec s.(location) s.(length_) h.(stats_) D h.(spans) Hl Hf Hu
    (D ∖ {[p]})) as (F1 & F2 & F3 & F4); [|done|].
  { intros loc' Hl'. rewrite (span_free_attach _ _ _ p s) by done. unfold free_len.
    repeat case_decide; naive_solver lia. }
  rewrite Z.gtb_ltb. destruct (Z.ltb_spec kMaxPages s.(length_)) as [Hbig|Hsmall].
  - unfold large_insert. apply wp_bind.
    destruct (setnode_New_ok _ h.(world) Hok) as [Hoom|(node & w' & Hnew & Hw)];
      [by apply wp_call_oom|]. eapply wp_call; [exact Hnew|].
    apply wp_bind, wp_get, wp_bind, wp_modify, wp_store with s; [done|].
    set (s' := set_has_span_iter true (set_objects node s)).
    exists s', w', h.(span_links).
    match goal with |- context [upd_large ?l ?f ?h0] => set (h1 := upd_large l f h0) end.
    exists h1.(large_normal_), h1.(large_returned_), h1.(stats_).
    split_and!; try done.
    simpl. apply lists_ext with (D ∖ {[p]}) h.(spans).
    + eapply lists_insert_large; [exact Hls|done..|].
      intros loc Hloc. unfold h1. destruct loc, s.(location); done.
    + intros loc n q _. unfold sel. split.
      * intros (t & Ht & ?). apply lookup_insert_Some in Ht as [[<- <-]|[_ Ht]]; [by exists s|eauto].
      * intros (t & Ht & ?). destruct (decide (q = p)) as [->|Hne].
        -- exists s'. rewrite lookup_insert_eq. simplify_eq. done.
        -- exists t. rewrite lookup_insert_ne by done. done.
    + intros loc n q _ _. unfold starts. rewrite lookup_insert.
      case_decide as Heq; [|done]. subst q. by rewrite Hp.
  - apply wp_modify. replace (if decide (s.(location) = ON_NORMAL_FREELIST) then _ else _)
      with (free_list free_ s.(location) (s.(length_) - 1)) by (by destruct s.(location)).
    destruct (lists_prepend_small _ _ (layout_static free_) free_list_inj D h.(spans) h.(span_links) (large h) p s)
      as [Hls' HL]; try done; [lia|].
    assert (<[p := s]> h.(spans) = h.(spans)) as Hid by (by apply insert_id).
    exists s, h.(world), (DLL_Prepend h.(span_links) (free_list free_ s.(location) (s.(length_) - 1)) p).
    exists h.(large_normal_), h.(large_returned_), (stats_add s.(location) (8192 * s.(length_)) h.(stats_)).
    split_and!; [done|by apply env_step_refl| |done..].
    unfold upd_world, upd_spans. simpl. by rewrite Hid.
Qed.

Lemma wp_PrependToFreeList strict D e h p s :
  Inv strict D e h -> h.(spans) !! p = Some s -> p ∈ D -> s.(location) <> IN_USE ->
  (s.(location) = ON_NORMAL_FREELIST \/ strict = true ->
   forall q t, h.(spans) !! q = Some t -> q ∉ D -> t.(location) = s.(location) ->
     t.(start) + t.(length_) <> s.(start) /\ s.(start) + s.(length_) <> t.(start)) ->
  wp (PrependToFreeList free_ p) (fun _ h' =>
    Inv strict (D ∖ {[p]}) e h' /\ keeps ∅ h h' /\ detached p s h h') h.
Proof.
  intros HI Hp HD Hl Hco. pose proof HI as [].
  pose proof (Inv_not_static _ _ _ _ HI) as Hns.
  eapply wp_mono.
  - apply (wp_PrependToFreeList_raw D h p s); try done.
    + by eapply Inv_length.
    + by eapply Inv_free_bound.
    + intros q t Hq HqD _ Heq. assert (q = p) as ->; [|done].
      by eapply geom_start_inj.
  - intros _ h' (s' & w' & L' & ln & lr & c' & Heqv & Hw & -> & Hls & HL & F1 & F2 & F3 & F4).
    assert (Hc : forall loc, (s.(location) = loc -> s.(location) = ON_NORMAL_FREELIST \/ strict = true) ->
      coalesced D loc h.(spans) -> coalesced (D ∖ {[p]}) loc h.(spans)).
    { intros loc Hcond Hcl a b u v Ha Hb HaD HbD Hadj Hlu Hlv.
      destruct (decide (a = p)) as [->|Hap], (decide (b = p)) as [->|Hbp].
      - simplify_eq. pose proof (Inv_length _ _ _ _ _ _ HI Hp). lia.
      - simplify_eq. destruct (Hco ltac:(auto) b v Hb) as [_ ?]; [set_solver|congruence|lia].
      - simplify_eq. destruct (Hco ltac:(auto) a u Ha) as [? _]; [set_solver|congruence|lia].
      - apply (Hcl a b u v); set_solver. }
    split_and!.
    + apply Inv_relist with D h p s s'; try done.
      * apply Hc; [by auto|done].
      * intros Hst. apply Hc; [by auto|by apply i_returned0].
    + apply keeps_free with p s s'; try done; [|apply Hw].
      destruct Heqv as (_ & _ & -> & _). done.
    + by exists s'.
Qed.

(** ** Coalescing *)

Lemma detached_lookup h h' p s :
  detached p s h h' ->
  exists s', span_eqv s s' /\ h'.(spans) !! p = Some s' /\ forall q, q <> p -> h'.(spans) !! q = h.(spans) !! q.
Proof.
  intros (s' & Heqv & HS & _). exists s'. rewrite HS. split_and!; [done|by rewrite lookup_insert_eq|].
  intros q Hq. by rewrite lookup_insert_ne.
Qed.

Lemma wp_CheckAndHandlePreMerge strict D e h p s q :
  Inv strict D e h -> h.(spans) !! p = Some s -> s.(location) <> IN_USE ->
  (q <> 0 -> (q ∉ D) /\ exists t, h.(spans) !! q = Some t) ->
  wp (CheckAndHandlePreMerge p q) (fun r h' =>
    (r = 0 /\ Inv strict D e h' /\ quiet h h' /\
     forall t, q <> 0 -> h.(spans) !! q = Some t -> t.(location) <> s.(location)) \/
    (r = q /\ q <> 0 /\ exists t, h.(spans) !! q = Some t /\ t.(location) <> IN_USE /\
       keeps ∅ h h' /\ detached q t h h' /\
       (t.(location) = s.(location) /\ Inv strict ({[q]} ∪ D) e h' \/
        t.(location) = ON_NORMAL_FREELIST /\ s.(location) = ON_RETURNED_FREELIST /\
          strict = false /\ h.(aggressive_decommit_) = true /\
          Inv strict ({[q]} ∪ D) (e + t.(length_)) h'))) h.
Proof.
  intros HI Hp Hl Hq. unfold CheckAndHandlePreMerge. destruct (Z.eqb_spec q 0) as [->|Hq0].
  { apply wp_ret. left. split_and!; try done. split; try done. by apply env_step_refl, HI. }
  destruct (Hq Hq0) as (HqD & t & Ht). apply wp_bind, wp_get, wp_bind.
  apply wp_deref with t; [done|]. apply wp_bind, wp_deref with s; [done|].
  destruct (_ && _ && _) eqn:Hcond.
  - apply andb_prop in Hcond as [[Hag Ht1%bool_decide_eq_true]%andb_prop Hs1%bool_decide_eq_true].
    assert (strict = false) as Hst.
    { destruct strict; [|done]. destruct (i_returned _ _ _ _ HI eq_refl). congruence. }
    apply wp_bind. eapply wp_mono; [by eapply wp_DecommitSpan|].
    intros worked h1 (HI1 & Hq1 & _). destruct worked; cbn [negb].
    + apply wp_bind.
      eapply wp_mono; [eapply wp_RemoveFromFreeList with (s := t); [exact HI1|..]|].
      * by rewrite (q_spans _ _ Hq1).
      * done.
      * congruence.
      * intros _ h2 (HI2 & Hk2 & Hd2). apply wp_ret. right. split_and!; [done..|].
        exists t. split_and!; try done; [congruence| | |by right].
        -- apply keeps_trans with h1; [by apply quiet_keeps|done].
        -- destruct Hd2 as (t' & ? & HS & Hm). exists t'. destruct Hq1.
           rewrite HS, Hm. split_and!; congruence.
    + apply wp_ret. left. split_and!; try done. intros u _ Hu. simplify_eq. congruence.
  - destruct (decide (t.(location) <> s.(location))) as [Hne|Hne].
    + apply wp_ret. left. split_and!; try done.
      * split; try done. by apply env_step_refl, HI.
      * intros u _ Hu. by simplify_eq.
    + apply dec_stable in Hne. apply wp_bind.
      eapply wp_mono; [eapply wp_RemoveFromFreeList with (s := t); [exact HI|..]|]; try done; [congruence|].
      intros _ h2 (HI2 & Hk2 & Hd2). apply wp_ret. right. split_and!; [done..|].
      exists t. split_and!; try done; [congruence|by left].
Qed.

(** The span [q] is absorbed by its detached neighbour [p]. *)
Lemma Inv_absorb strict D e h p q s t s1 m' :
  Inv strict ({[q]} ∪ D) e h -> p ∈ D -> q ∉ D ->
  h.(spans) !! p = Some s -> h.(spans) !! q = Some t ->
  (t.(start) + t.(length_) = s.(start) /\ s1.(start) = t.(start) \/
   s.(start) + s.(length_) = t.(start) /\ s1.(start) = s.(start)) ->
  s1.(length_) = s.(length_) + t.(length_) -> s1.(sizeclass) = 0 ->
  pm_get m' s1.(start) = p -> pm_get m' (s1.(start) + s1.(length_) - 1) = p ->
  (forall k, 0 <= k -> ~ covers s1 k -> pm_get m' k = pm_get h.(pagemap_) k) ->
  (forall k, ens m' k <-> ens h.(pagemap_) k) ->
  Inv strict D (e + free_len ON_RETURNED_FREELIST s + free_len ON_RETURNED_FREELIST t
                  - free_len ON_RETURNED_FREELIST s1)
    (upd_pagemap (fun _ => m') (upd_spans (<[p := s1]>) (upd_world (span_Delete q)
      (upd_spans (delete q) h)))).
Proof.
  intros HI HpD HqD Hp Hq Hadj Hlen Hsc Hf Hlast Hget Hens. pose proof HI as [].
  assert (p <> q) as Hpq by (intros ->; done).
  pose proof (Inv_ok _ _ _ _ _ _ HI Hq) as [? ? Hqlv ? ? ? _].
  destruct (span_Delete_ok _ q h.(world) i_env0 Hqlv) as (Hok & Htk & Hlv).
  set (S' := <[p := s1]> (delete q h.(spans))).
  assert (Hp' : delete q h.(spans) !! p = Some s) by (by rewrite lookup_delete_ne).
  assert (Hq' : S' !! q = None).
  { unfold S'. rewrite lookup_insert_ne by done. apply lookup_delete_eq. }
  assert (HS : forall r, r ∉ {[q]} ∪ D -> S' !! r = h.(spans) !! r).
  { intros r Hr. unfold S'. rewrite lookup_insert_ne, lookup_delete_ne; set_solver. }
  assert (Hfree : forall loc, span_free D loc S' = span_free ({[q]} ∪ D) loc h.(spans)).
  { intros loc. rewrite (span_free_ext D ({[q]} ∪ D)).
    - unfold S'. rewrite (span_free_store _ _ _ _ s) by set_solver.
      apply (span_free_delete _ _ _ _ t); set_solver.
    - intros r u Hr _. assert (r <> q) by congruence. set_solver. }
  assert (Hcl : forall loc, coalesced ({[q]} ∪ D) loc h.(spans) -> coalesced D loc S').
  { intros loc Hc a b u v Ha Hb HaD HbD. assert (a <> q) by congruence. assert (b <> q) by congruence.
    rewrite HS in Ha, Hb by set_solver. apply (Hc a b u v); set_solver. }
  split; simpl; try done; fold S'.
  - assert (Hg : geom static_addr page_limit S' (pm_get m') (ens h.(pagemap_))
      (live (span_Delete q h.(world))) (taken (span_Delete q h.(world)))).
    { eapply geom_merge; try done. intros r u Hr Hu. rewrite Hlv.
      destruct (Inv_ok _ _ _ _ _ _ HI Hu). set_solver. }
    eapply geom_mono; [exact Hg| |done|by intros k; apply Hens|done].
    intros r u Hr. by destruct (g_ok _ _ _ _ _ _ _ Hg r u Hr).
  - apply lists_ext with ({[q]} ∪ D) S'; [by eapply lists_detached| |done].
    intros loc n r _. unfold sel. split; intros (u & Hr & HrD & ?); exists u; split_and!; try done;
      assert (r <> q) by congruence; set_solver.
  - by rewrite Hfree.
  - by rewrite Hfree.
  - destruct i_system0 as (lk & Hlk & Hno & Hsys). exists lk. split_and!.
    + by transitivity (taken h.(world)).
    + intros r u k Hr Hk. unfold S' in Hr. apply lookup_insert_Some in Hr as [[<- <-]|[_ Hr]].
      * assert (covers s k \/ covers t k) as [Hc|Hc] by (unfold covers in *; lia); eauto.
      * apply lookup_delete_Some in Hr as [_ Hr]. eauto.
    + unfold S'. rewrite (span_total_store _ _ s), (span_total_delete _ _ t) by done.
      rewrite Hsys. lia.
  - unfold S'. rewrite (span_returned_store _ _ s), (span_returned_delete _ _ t) by done.
    rewrite i_committed0. f_equal. lia.
  - by apply Hcl.
  - intros Hst. destruct (i_returned0 Hst). split; [by apply Hcl|done].
Qed.

(** The common tail of the two merges: [F] extends the span, [K] is the page
    whose map entry changes. *)
Lemma wp_absorb strict D e h p q s t (F : Z -> Span -> Span) (K : Span -> Z) :
  let s1 := F t.(length_) s in
  Inv strict ({[q]} ∪ D) e h -> p ∈ D -> q ∉ D ->
  h.(spans) !! p = Some s -> h.(spans) !! q = Some t ->
  s.(location) <> IN_USE -> t.(location) <> IN_USE ->
  (t.(start) + t.(length_) = s.(start) /\ s1.(start) = t.(start) /\ K s1 = t.(start) \/
   s.(start) + s.(length_) = t.(start) /\ s1.(start) = s.(start) /\
     K s1 = t.(start) + t.(length_) - 1) ->
  s1.(length_) = s.(length_) + t.(length_) -> s1.(sizeclass) = 0 -> s1.(location) = s.(location) ->
  wp (pv ← deref q;
      DeleteSpan q ;;
      store p (F pv.(length_)) ;;
      s ← deref p;
      pagemap_set (K s) p)
    (fun _ h' =>
      Inv strict D (e + free_len ON_RETURNED_FREELIST s + free_len ON_RETURNED_FREELIST t
                      - free_len ON_RETURNED_FREELIST s1) h' /\
      keeps ∅ h h' /\ h'.(spans) = <[p := s1]> (delete q h.(spans))) h.
Proof.
  intros s1 HI HpD HqD Hp Hq Hls Hlt Hadj Hlen Hsc Hloc. pose proof HI as [].
  assert (p <> q) as Hpq by (intros ->; done).
  pose proof (Inv_ok _ _ _ _ _ _ HI Hp) as [? ? ? ? ? ? Hpg].
  pose proof (Inv_ok _ _ _ _ _ _ HI Hq) as [? ? Hqlv ? ? ? Hqg].
  pose proof (g_mapped _ _ _ _ _ _ _ i_geom0 p s Hp) as [Hpf Hpl _].
  assert (HK : covers t (K s1)) by (unfold covers; lia).
  apply wp_bind, wp_deref with t; [done|]. apply wp_bind.
  unfold DeleteSpan. apply wp_bind, wp_deref with t; [done|]. wp_pure.
  apply wp_store with s; [simpl; by rewrite lookup_delete_ne|]. wp_pure.
  apply wp_deref with s1; [simpl; apply lookup_insert_eq|].
  apply wp_pagemap_set; [simpl; by apply Hqg|]. simpl. intros m' Hget Hens.
  fold s1. clearbody s1.
  destruct (span_Delete_ok _ q h.(world) i_env0 Hqlv) as (Hok & Htk & Hlv).
  split_and!; [| |done].
  - eapply Inv_absorb; try done.
    + destruct Hadj as [(? & ? & _)|(? & ? & _)]; [left|right]; done.
    + rewrite Hget by lia. case_decide; [done|].
      destruct Hadj as [(_ & ? & ?)|(_ & -> & _)]; [congruence|done].
    + rewrite Hget by lia. case_decide; [done|].
      destruct Hadj as [(? & Hst & _)|(? & ? & ?)]; [|lia].
      by replace (s1.(start) + s1.(length_) - 1) with (s.(start) + s.(length_) - 1) by lia.
    + intros k Hk Hc. rewrite Hget by done. rewrite decide_False; [done|]. intros <-.
      unfold covers in *. lia.
  - split; simpl; try done.
    + intros r u Hr Hu _. rewrite lookup_insert_ne, lookup_delete_ne; [done|congruence..].
    + intros r u Hr Hu _. apply lookup_insert_Some in Hr as [[<- <-]|[_ Hr]]; [congruence|].
      by apply lookup_delete_Some in Hr as [_ Hr].
    + intros r u k Hr Hu _ Hc. pose proof (Inv_ok _ _ _ _ _ _ HI Hr) as [].
      rewrite Hget by (unfold covers in *; lia). rewrite decide_False; [done|]. intros <-.
      assert (r = q) by (eapply g_disjoint; eauto). congruence.
Qed.

(** No neighbour before (or after) [p] could still be merged into it. *)
Definition no_prev (strict : bool) (S : gmap Z Span) (p : Z) (s : Span) : Prop :=
  s.(location) = ON_NORMAL_FREELIST \/ strict = true ->
  forall q t, S !! q = Some t -> q <> p -> t.(location) = s.(location) ->
    t.(start) + t.(length_) <> s.(start).
Definition no_next (strict : bool) (S : gmap Z Span) (p : Z) (s : Span) : Prop :=
  s.(location) = ON_NORMAL_FREELIST \/ strict = true ->
  forall q t, S !! q = Some t -> q <> p -> t.(location) = s.(location) ->
    s.(start) + s.(length_) <> t.(start).

(** Free pages stay free, and stay together. *)
Definition free_grows (S S' : gmap Z Span) : Prop :=
  forall p s, S !! p = Some s -> s.(location) <> IN_USE ->
    exists q t, S' !! q = Some t /\ t.(location) <> IN_USE /\ forall k, covers s k -> covers t k.

Lemma free_grows_refl S : free_grows S S.
Proof. intros p s Hp Hl. by exists p, s. Qed.

Lemma free_grows_trans S1 S2 S3 : free_grows S1 S2 -> free_grows S2 S3 -> free_grows S1 S3.
Proof.
  intros H1 H2 p s Hp Hl. destruct (H1 p s Hp Hl) as (q & t & Hq & Hlt & Hc).
  destruct (H2 q t Hq Hlt) as (r & u & Hr & Hlu & Hc'). exists r, u. auto.
Qed.

Lemma free_grows_store S p s s' :
  S !! p = Some s -> s'.(location) <> IN_USE -> (forall k, covers s k -> covers s' k) ->
  free_grows S (<[p := s']> S).
Proof.
  intros Hp Hl Hc q t Hq Hlt. destruct (decide (q = p)) as [->|Hne].
  - exists p, s'. rewrite lookup_insert_eq. simplify_eq. done.
  - exists q, t. by rewrite lookup_insert_ne.
Qed.

Lemma free_grows_absorb S p q s t s' :
  S !! p = Some s -> S !! q = Some t -> s'.(location) <> IN_USE ->
  (forall k, covers s k -> covers s' k) -> (forall k, covers t k -> covers s' k) ->
  free_grows S (<[p := s']> (delete q S)).
Proof.
  intros Hp Hq Hl Hc1 Hc2 r u Hr Hlu.
  destruct (decide (r = p)) as [->|Hne]; [|destruct (decide (r = q)) as [->|Hne']].
  - exists p, s'. rewrite lookup_insert_eq. simplify_eq. done.
  - exists p, s'. rewrite lookup_insert_eq. simplify_eq. done.
  - exists r, u. by rewrite lookup_insert_ne, lookup_delete_ne.
Qed.

Lemma free_grows_detached h h' p s :
  h.(spans) !! p = Some s -> s.(location) <> IN_USE -> detached p s h h' ->
  free_grows h.(spans) h'.(spans).
Proof.
  intros Hp Hl (s' & (A1 & A2 & A3 & _) & -> & _). apply free_grows_store with s; [done|congruence|].
  intros k. unfold covers. by rewrite A1, A2.
Qed.

(** [h'] is [h] after merging neighbours into the detached span [p]. *)
Definition merged (p : Z) (s : Span) (h : PageHeap) (s' : Span) (h' : PageHeap) : Prop :=
  h'.(spans) !! p = Some s' /\ s'.(location) = s.(location) /\
  (forall k, covers s k -> covers s' k) /\
  normal_count h'.(spans) <= normal_count h.(spans) /\ keeps ∅ h h' /\
  (h.(aggressive_decommit_) = false -> span_returned h'.(spans) = span_returned h.(spans)) /\
  free_grows h.(spans) h'.(spans).

Lemma merged_trans p s1 s2 s3 h1 h2 h3 :
  merged p s1 h1 s2 h2 -> merged p s2 h2 s3 h3 -> merged p s1 h1 s3 h3.
Proof.
  intros (_ & A2 & A3 & A4 & A5 & A6 & A7) (B1 & B2 & B3 & B4 & B5 & B6 & B7).
  split_and!; eauto using free_grows_trans; [congruence|lia|by apply keeps_trans with h2|].
  intros Hag. destruct (k_config _ _ _ A5) as (_ & Hc & _). rewrite B6, A6; congruence.
Qed.
End Inv.
