(* ===== verification/PageHeapOps.v ===== *)
(** The composite operations of the page heap: coalescing, releasing memory,
    carving and splitting.  Each is shown to keep the invariant, to touch no span
    in use but the ones it is about, and to terminate. *)
From S2P Require Import Prelude SizeMap Span PackedCache PageMap SysEnv PageHeap SpanStore PageHeapInv.

Section Ops.
Context {W : Type} {E : Env W} {P : PageMap W} {G : EnvGhost W}.
Context {ens : pm_t -> Z -> Prop} {free_ : Z}.
Context {EL : EnvLaws W} {PL : PageMapLaws MetaDataAlloc P ens} {HLay : HeapLayout free_}.

Implicit Types (h : PageHeap) (D : gset Z) (p q : Z) (s t : Span).

Abbreviation Inv := (Inv ens free_).
Abbreviation keeps := (keeps free_).
Abbreviation merged := (merged free_).

Lemma page_limit_u64 : page_limit = 34359738368.
Proof. reflexivity. Qed.

(** ** Merging with the neighbours *)

Lemma absorb_normal_count S p q s t s1 :
  S !! p = Some s -> S !! q = Some t -> p <> q -> s1.(location) = s.(location) ->
  normal_count (<[p := s1]> (delete q S)) <= normal_count S.
Proof.
  intros Hp Hq Hpq Hl. rewrite (normal_count_store _ _ s) by (by rewrite lookup_delete_ne).
  rewrite (normal_count_delete _ _ t) by done. pose proof (normal_of_range q t).
  assert (normal_of p s1 = normal_of p s) by (unfold normal_of; by rewrite Hl). lia.
Qed.

(** The committed pages are accounted for by the merge. *)
Lemma absorb_e e s t s1 :
  s1.(length_) = s.(length_) + t.(length_) -> s1.(location) = s.(location) ->
  t.(location) = s.(location) ->
  e + free_len ON_RETURNED_FREELIST s + free_len ON_RETURNED_FREELIST t
    - free_len ON_RETURNED_FREELIST s1 = e.
Proof. intros Hl H1 H2. unfold free_len. rewrite H1, H2, Hl. case_decide; lia. Qed.

Lemma absorb_e_aggressive e s t s1 :
  s1.(length_) = s.(length_) + t.(length_) -> s1.(location) = s.(location) ->
  t.(location) = ON_NORMAL_FREELIST -> s.(location) = ON_RETURNED_FREELIST ->
  e + t.(length_) + free_len ON_RETURNED_FREELIST s + free_len ON_RETURNED_FREELIST t
    - free_len ON_RETURNED_FREELIST s1 = e.
Proof. intros Hl H1 H2 H3. unfold free_len. rewrite H1, H2, H3, Hl. simpl. lia. Qed.

(** One merge, in either direction, of the detached span [p] with the candidate
    [q] that the page map gives. *)
Section Merge.
Context (strict : bool) (e : Z) (h : PageHeap) (p : Z) (s : Span).
Context (HI : Inv strict {[p]} e h) (Hp : h.(spans) !! p = Some s) (Hl : s.(location) <> IN_USE).

Lemma wp_merge q (F : Z -> Span -> Span) (K : Span -> Z) :
  (forall t, q <> 0 -> h.(spans) !! q = Some t ->
    let s1 := F t.(length_) s in
    s1.(length_) = s.(length_) + t.(length_) /\ s1.(sizeclass) = s.(sizeclass) /\
    s1.(location) = s.(location) /\
    (t.(start) + t.(length_) = s.(start) /\ s1.(start) = t.(start) /\ K s1 = t.(start) \/
     s.(start) + s.(length_) = t.(start) /\ s1.(start) = s.(start) /\
       K s1 = t.(start) + t.(length_) - 1)) ->
  (q <> 0 -> q <> p /\ exists t, h.(spans) !! q = Some t) ->
  wp (other ← CheckAndHandlePreMerge p q;
      if negb (other =? 0) then
        ot ← deref other;
        DeleteSpan other ;;
        store p (F ot.(length_)) ;;
        s ← deref p;
        pagemap_set (K s) p
      else skip)
    (fun _ h' => exists s', Inv strict {[p]} e h' /\ merged p s h s' h' /\
      ((h'.(spans) = h.(spans) /\ s' = s /\
        forall t, q <> 0 -> h.(spans) !! q = Some t -> t.(location) <> s.(location)) \/
       exists t, h.(spans) !! q = Some t /\ h'.(spans) = <[p := s']> (delete q h.(spans)) /\
         q <> 0 /\ s' = F t.(length_) s /\
         (t.(location) = s.(location) \/ s.(location) = ON_RETURNED_FREELIST /\ strict = false))) h.
Proof.
  intros HF Hq. apply wp_bind.
  eapply wp_mono; [eapply (wp_CheckAndHandlePreMerge ens free_) with (s := s); [exact HI|done|done|]|].
  { intros Hq0. destruct (Hq Hq0) as (Hne & t & Ht). split; [by rewrite not_elem_of_singleton|eauto]. }
  intros r h1 [(-> & HI1 & Hqt & Hno)|(-> & Hq0 & t & Ht & Hlt & Hk & (t1 & Heqv & HS & Hm) & Hcase)].
  - wp_pure. exists s. rewrite (q_spans _ _ Hqt). split_and!; [done| |by left].
    split_and!; rewrite ?(q_spans _ _ Hqt); try done; [by apply quiet_keeps|apply free_grows_refl].
  - destruct (Hq Hq0) as (Hne & _). destruct (HF t Hq0 Ht) as (Hln & Hsc & Hlo & Hadj).
    destruct (Z.eqb_spec q 0); [done|]. cbn [negb].
    pose proof (Inv_ok _ _ _ _ _ _ _ _ HI Ht) as [? ? ? ? ? ? _].
    pose proof (Inv_ok _ _ _ _ _ _ _ _ HI Hp) as [? ? ? ? ? ? _].
    pose proof Heqv as (A1 & A2 & A3 & A4). rewrite <- A2 in Hln, Hsc, Hlo, Hadj.
    assert (Hp1 : h1.(spans) !! p = Some s) by (by rewrite HS, lookup_insert_ne).
    assert (Hq1 : h1.(spans) !! q = Some t1) by (by rewrite HS, lookup_insert_eq).
    set (s1 := F t1.(length_) s) in *.
    assert (exists e1, Inv strict ({[q]} ∪ {[p]}) e1 h1 /\
      e1 + free_len ON_RETURNED_FREELIST s + free_len ON_RETURNED_FREELIST t1
        - free_len ON_RETURNED_FREELIST s1 = e) as (e1 & HI1 & He1).
    { destruct Hcase as [[? ?]|(? & ? & ? & ? & ?)]; (eexists; split; [done|]).
      - apply absorb_e; [lia|done|congruence].
      - rewrite <- A2. apply absorb_e_aggressive; [lia|done|congruence|done]. }
    eapply wp_mono; [apply (wp_absorb ens free_ strict {[p]} e1 h1 p q s t1 F K);
      [exact HI1|by apply elem_of_singleton|by rewrite not_elem_of_singleton|done..|congruence| |done| |done]|].
    + fold s1. by rewrite A1.
    + fold s1. rewrite Hsc. exact (free_sizeclass _ _ _ _ _ _ _ _ HI Hp Hl).
    + fold s1. intros _ h2 (HI2 & Hk2 & HS2). exists s1. rewrite He1 in HI2.
      assert (HSd : h2.(spans) = <[p := s1]> (delete q h.(spans))).
      { rewrite HS2, HS. f_equal. by rewrite delete_insert_eq. }
      split; [done|]. split.
      * split_and!; [by rewrite HSd, lookup_insert_eq|done| | |by apply keeps_trans with h1| |].
        -- intros k. unfold covers. lia.
        -- rewrite HSd. by apply (absorb_normal_count _ _ _ s t).
        -- intros Hag. destruct Hcase as [[Hlts _]|(_ & _ & _ & ? & _)]; [|congruence].
           rewrite HSd, (span_returned_store _ _ s), (span_returned_delete _ _ t); [|done|by rewrite lookup_delete_ne].
           pose proof (absorb_e 0 s t s1 ltac:(lia) Hlo Hlts). lia.
        -- rewrite HSd. apply free_grows_absorb with s t; [done|done|congruence|..];
             intros k; unfold covers; lia.
      * right. exists t. split_and!; try done; [unfold s1; congruence|].
        destruct Hcase as [[? _]|(_ & ? & ? & _)]; auto.
Qed.

(** What the absorbed neighbour [t] had beyond it was not free in the same way. *)
Lemma merge_coalesced q t :
  s.(location) = ON_NORMAL_FREELIST \/ strict = true ->
  h.(spans) !! q = Some t -> q <> p ->
  (t.(location) = s.(location) \/ s.(location) = ON_RETURNED_FREELIST /\ strict = false) ->
  forall r u, h.(spans) !! r = Some u -> r <> p -> u.(location) = s.(location) ->
    u.(start) + u.(length_) <> t.(start) /\ t.(start) + t.(length_) <> u.(start).
Proof.
  intros Hcond Hq Hqp Hlt r u Hr Hrp Hlu.
  assert (t.(location) = s.(location)) as Hlts.
  { destruct Hlt as [?|[? ?]]; [done|]. destruct Hcond; congruence. }
  assert (coalesced {[p]} s.(location) h.(spans)) as Hco.
  { destruct Hcond as [Hc|Hc]; [rewrite Hc; apply HI|].
    destruct (i_returned _ _ _ _ _ _ HI Hc). destruct s.(location); [done|apply HI|done]. }
  split; intros Hadj.
  - by apply (Hco r q u t Hr Hq); rewrite ?not_elem_of_singleton.
  - apply (Hco q r t u Hq Hr); rewrite ?not_elem_of_singleton; done.
Qed.

Lemma wp_merge_prev :
  wp (merge_prev p s.(start)) (fun _ h' => exists s',
    Inv strict {[p]} e h' /\ merged p s h s' h' /\
    s'.(start) + s'.(length_) = s.(start) + s.(length_) /\
    no_prev strict h'.(spans) p s') h.
Proof.
  pose proof (Inv_ok _ _ _ _ _ _ _ _ HI Hp) as [? ? ? ? ? Hlim _].
  pose proof (i_geom _ _ _ _ _ _ HI) as Hg. rewrite page_limit_u64 in Hlim.
  unfold merge_prev. apply wp_bind, wp_get. unfold GetDescriptor. rewrite u64_small by lia.
  set (q := pm_get h.(pagemap_) (s.(start) - 1)).
  assert (Hq : forall t, q <> 0 -> h.(spans) !! q = Some t -> t.(start) + t.(length_) = s.(start)).
  { intros t Hq0 Ht. destruct (geom_prev _ _ _ _ _ _ _ p s q Hg Hp eq_refl Hq0) as (t' & ? & ? & _). congruence. }
  eapply wp_mono.
  - apply (wp_merge q (fun len s => set_length (u64 (s.(length_) + len)) (set_start (u64 (s.(start) - len)) s)) start).
    + intros t Hq0 Ht. specialize (Hq t Hq0 Ht). pose proof (Inv_ok _ _ _ _ _ _ _ _ HI Ht) as [].
      simpl. rewrite !u64_small by lia. split_and!; try done. left. lia.
    + intros Hq0. destruct (geom_prev _ _ _ _ _ _ _ p s q Hg Hp eq_refl Hq0) as (t & ? & _ & ?). eauto.
  - intros _ h' (s' & HI' & Hm & [(HS & -> & Hno)|(t & Ht & HS & Hq0 & Hs' & Hlt)]); [exists s|exists s'].
    + split_and!; try done. rewrite HS. intros Hcond r u Hr Hrp Hlu Hend.
      destruct (Z.eq_dec q 0) as [Hq0|Hq0]; [by eapply geom_no_prev|].
      destruct (geom_prev _ _ _ _ _ _ _ p s q Hg Hp eq_refl Hq0) as (t & Ht & Hadj & _).
      pose proof (Inv_ok _ _ _ _ _ _ _ _ HI Hr) as []. pose proof (Inv_ok _ _ _ _ _ _ _ _ HI Ht) as [].
      assert (r = q) as ->; [|by apply (Hno u)].
      apply (g_disjoint _ _ _ _ _ _ _ Hg r q u t (s.(start) - 1)); try done; unfold covers; lia.
    + pose proof (Hq t Hq0 Ht). pose proof (Inv_ok _ _ _ _ _ _ _ _ HI Ht) as [].
      destruct (geom_prev _ _ _ _ _ _ _ p s q Hg Hp eq_refl Hq0) as (t' & _ & _ & Hqp).
      split_and!; try done.
      * rewrite Hs'. simpl. rewrite !u64_small by lia. lia.
      * assert (s'.(start) = t.(start)) as Hst by (rewrite Hs'; simpl; rewrite u64_small; lia).
        assert (s'.(location) = s.(location)) as Hlo by (by rewrite Hs').
        unfold no_prev. rewrite Hlo, Hst, HS. intros Hcond r u Hr Hrp Hlu.
        rewrite lookup_insert_ne in Hr by done. apply lookup_delete_Some in Hr as [_ Hr].
        exact (proj1 (merge_coalesced q t Hcond Ht Hqp Hlt r u Hr Hrp Hlu)).
Qed.

Lemma wp_merge_next :
  wp (merge_next p (u64 (s.(start) + s.(length_)))) (fun _ h' => exists s',
    Inv strict {[p]} e h' /\ merged p s h s' h' /\
    (no_prev strict h.(spans) p s -> no_prev strict h'.(spans) p s') /\
    no_next strict h'.(spans) p s') h.
Proof.
  pose proof (Inv_ok _ _ _ _ _ _ _ _ HI Hp) as [? ? ? ? ? Hlim _].
  pose proof (i_geom _ _ _ _ _ _ HI) as Hg. rewrite page_limit_u64 in Hlim.
  unfold merge_next. apply wp_bind, wp_get. unfold GetDescriptor. rewrite u64_small by lia.
  set (q := pm_get h.(pagemap_) (s.(start) + s.(length_))).
  assert (Hq : forall t, q <> 0 -> h.(spans) !! q = Some t -> s.(start) + s.(length_) = t.(start)).
  { intros t Hq0 Ht. destruct (geom_next _ _ _ _ _ _ _ p s q Hg Hp eq_refl Hq0) as (t' & ? & ? & _). congruence. }
  eapply wp_mono.
  - apply (wp_merge q (fun len s => set_length (u64 (s.(length_) + len)) s)
             (fun s => u64 (s.(start) + s.(length_) - 1))).
    + intros t Hq0 Ht. specialize (Hq t Hq0 Ht). pose proof (Inv_ok _ _ _ _ _ _ _ _ HI Ht) as [? ? ? ? ? Hl2 _].
      rewrite page_limit_u64 in Hl2. simpl. rewrite !u64_small by (rewrite ?u64_small; lia).
      split_and!; try done. right. lia.
    + intros Hq0. destruct (geom_next _ _ _ _ _ _ _ p s q Hg Hp eq_refl Hq0) as (t & ? & _ & ?). eauto.
  - intros _ h' (s' & HI' & Hm & [(HS & -> & Hno)|(t & Ht & HS & Hq0 & Hs' & Hlt)]); [exists s|exists s'].
    + split_and!; try done; rewrite HS; [done|]. intros Hcond r u Hr Hrp Hlu Hend.
      destruct (Z.eq_dec q 0) as [Hq0|Hq0]; [by eapply geom_no_next|].
      destruct (geom_next _ _ _ _ _ _ _ p s q Hg Hp eq_refl Hq0) as (t & Ht & Hadj & _).
      assert (r = q) as ->; [|by apply (Hno u)].
      eapply geom_start_inj; [exact Hg|done|done|lia].
    + pose proof (Hq t Hq0 Ht). pose proof (Inv_ok _ _ _ _ _ _ _ _ HI Ht) as [? ? ? ? ? Hl2 _].
      destruct (geom_next _ _ _ _ _ _ _ p s q Hg Hp eq_refl Hq0) as (t' & _ & _ & Hqp).
      assert (s'.(start) = s.(start)) as Hst by (by rewrite Hs').
      assert (s'.(length_) = s.(length_) + t.(length_)) as Hln.
      { rewrite page_limit_u64 in Hl2. rewrite Hs'. simpl. rewrite u64_small; lia. }
      assert (s'.(location) = s.(location)) as Hlo by (by rewrite Hs').
      assert (HS' : forall r u, h'.(spans) !! r = Some u -> r <> p -> h.(spans) !! r = Some u).
      { intros r u Hr Hrp. rewrite HS, lookup_insert_ne in Hr by done.
        by apply lookup_delete_Some in Hr as [_ Hr]. }
      split_and!; try done.
      * unfold no_prev. rewrite Hlo, Hst. intros Hnp Hcond r u Hr Hrp. by apply (Hnp Hcond r u); auto.
      * unfold no_next. rewrite Hlo, Hst, Hln. intros Hcond r u Hr Hrp Hlu.
        replace (s.(start) + (s.(length_) + t.(length_))) with (t.(start) + t.(length_)) by lia.
        exact (proj2 (merge_coalesced q t Hcond Ht Hqp Hlt r u (HS' r u Hr Hrp) Hrp Hlu)).
Qed.
End Merge.

(** Changing the location of a detached span. *)
Lemma Inv_store_detached strict D e h p s s' :
  Inv strict D e h -> h.(spans) !! p = Some s -> p ∈ D ->
  s'.(start) = s.(start) -> s'.(length_) = s.(length_) ->
  (s'.(sizeclass) <> 0 -> s'.(sizeclass) = s.(sizeclass) /\ s'.(location) = IN_USE) ->
  Inv strict D (e + free_len ON_RETURNED_FREELIST s - free_len ON_RETURNED_FREELIST s')
    (upd_spans (<[p := s']>) h).
Proof.
  intros HI Hp HD Hst Hln Hsc. pose proof HI as [].
  assert (HS : forall q, q ∉ D -> <[p := s']> h.(spans) !! q = h.(spans) !! q).
  { intros q Hq. rewrite lookup_insert_ne; [done|]. by intros ->. }
  split; simpl; try done.
  - by apply geom_store with s.
  - by eapply lists_detached.
  - by rewrite (span_free_store _ _ _ _ s) by auto.
  - by rewrite (span_free_store _ _ _ _ s) by auto.
  - destruct i_system as (lk & Hlk & Hno & Hsys). exists lk. split_and!; [done| |].
    + intros q t k Hq Hk. apply lookup_insert_Some in Hq as [[<- <-]|[_ Hq]]; [|by apply (Hno q t)].
      apply (Hno p s); [done|]. unfold covers in *. by rewrite <- Hst, <- Hln.
    + rewrite (span_total_store _ _ s) by done. lia.
  - rewrite (span_returned_store _ _ s), i_committed by done. f_equal. lia.
  - by eapply coalesced_detached.
  - intros Hs. destruct (i_returned Hs). split; [by eapply coalesced_detached|done].
Qed.

Lemma keeps_store_free strict D e h p s s' :
  Inv strict D e h -> h.(spans) !! p = Some s -> s.(location) <> IN_USE -> s'.(location) <> IN_USE ->
  keeps ∅ h (upd_spans (<[p := s']>) h).
Proof.
  intros HI Hp Hl Hl'. apply keeps_free with p s s'; try done. by eapply Inv_not_static.
Qed.

(** [h'] is [h] with the free span [p] merged and put on a list. *)
Definition listed (p : Z) (s : Span) (h h' : PageHeap) : Prop :=
  keeps ∅ h h' /\ normal_count h'.(spans) <= normal_count h.(spans) /\
  free_grows h.(spans) h'.(spans) /\
  exists s', h'.(spans) !! p = Some s' /\ s'.(location) <> IN_USE /\
    (forall k, covers s k -> covers s' k) /\
    (s.(location) = ON_RETURNED_FREELIST -> s'.(location) = ON_RETURNED_FREELIST) /\
    (h.(aggressive_decommit_) = false -> span_returned h'.(spans) = span_returned h.(spans)).

Lemma normal_count_detached h h' p s :
  h.(spans) !! p = Some s -> detached p s h h' ->
  normal_count h'.(spans) = normal_count h.(spans).
Proof.
  intros Hp (s' & (_ & _ & Hl & _) & -> & _). rewrite (normal_count_store _ _ s) by done.
  unfold normal_of. rewrite Hl. lia.
Qed.

Lemma merged_listed p s h s' h' h'' :
  merged p s h s' h' -> s.(location) <> IN_USE -> detached p s' h' h'' -> keeps ∅ h' h'' ->
  listed p s h h''.
Proof.
  intros (Hp & Hlo & Hcv & Hnc & Hk & Hret & Hfg) Hl Hd Hk'.
  pose proof (normal_count_detached _ _ _ _ Hp Hd) as Hn.
  assert (free_grows h'.(spans) h''.(spans)) as Hfg' by (eapply free_grows_detached; [done|congruence|done]).
  destruct Hd as (s1 & (A1 & A2 & A3 & _) & HS & _). split_and!.
  - by apply keeps_trans with h'.
  - lia.
  - by eapply free_grows_trans.
  - exists s1. rewrite HS, lookup_insert_eq. split_and!; [done|congruence| |congruence|].
    + intros k Hk1. apply Hcv in Hk1. unfold covers in *. by rewrite A1, A2.
    + intros Hag. rewrite <- (Hret Hag), (span_returned_store _ _ s') by done.
      unfold free_len. rewrite A2, A3. lia.
Qed.

(** The two merges and the insertion. *)
Lemma wp_merge_list strict e h p s :
  Inv strict {[p]} e h -> h.(spans) !! p = Some s -> s.(location) <> IN_USE ->
  wp (merge_prev p s.(start) ;; merge_next p (u64 (s.(start) + s.(length_))) ;; PrependToFreeList free_ p)
    (fun _ h' => Inv strict ∅ e h' /\ listed p s h h') h.
Proof.
  intros HI Hp Hl. apply wp_bind. eapply wp_mono; [by eapply wp_merge_prev|].
  intros _ h1 (s1 & HI1 & Hm1 & Hend & Hnp1). rewrite <- Hend.
  pose proof Hm1 as (Hp1 & Hl1 & _).
  apply wp_bind. eapply wp_mono; [eapply wp_merge_next; [done|done|congruence]|].
  intros _ h2 (s2 & HI2 & Hm2 & Hnp2 & Hnn2). pose proof Hm2 as (Hp2 & Hl2 & _).
  eapply wp_mono; [eapply (wp_PrependToFreeList ens free_) with (s := s2); [exact HI2|done| | |]|].
  - by apply elem_of_singleton.
  - congruence.
  - intros Hcond q t Hq HqD Hlt. rewrite not_elem_of_singleton in HqD.
    split; [by apply (Hnp2 Hnp1 Hcond q t)|by apply (Hnn2 Hcond q t)].
  - intros _ h3 (HI3 & Hk3 & Hd3). rewrite difference_diag_L in HI3. split; [done|].
    apply (merged_listed p s h s2 h2 h3); try done. by apply merged_trans with s1 h1.
Qed.

Lemma wp_MergeIntoFreeList strict e h p s :
  Inv strict {[p]} e h -> h.(spans) !! p = Some s -> s.(location) <> IN_USE ->
  wp (MergeIntoFreeList free_ p) (fun _ h' => Inv strict ∅ e h' /\ listed p s h h') h.
Proof.
  intros HI Hp Hl. pose proof (Inv_length _ _ _ _ _ _ _ _ HI Hp) as Hlen.
  unfold MergeIntoFreeList. apply wp_bind, wp_deref with s; [done|].
  apply wp_bind, wp_get, wp_bind. case_if.
  - apply andb_prop in Heqb as [Hag Hn%bool_decide_eq_true].
    apply wp_bind. eapply wp_mono; [by eapply (wp_DecommitSpan ens free_)|].
    intros worked h1 (HI1 & Hq1 & _). pose proof (q_spans _ _ Hq1) as HS1.
    assert (keeps ∅ h h1) as Hk1 by (by apply quiet_keeps). destruct worked.
    + apply wp_store with s; [by rewrite HS1|].
      set (s1 := set_location ON_RETURNED_FREELIST s).
      eapply wp_mono; [apply (wp_merge_list strict e _ p s1); [|by simpl; rewrite lookup_insert_eq|done]|].
      * replace e with (e + s.(length_) + free_len ON_RETURNED_FREELIST s - free_len ON_RETURNED_FREELIST s1).
        -- apply Inv_store_detached; try done; [by rewrite HS1|by apply elem_of_singleton|].
           intros Hsc. destruct Hsc. exact (free_sizeclass _ _ _ _ _ _ _ _ HI Hp Hl).
        -- unfold free_len, s1. rewrite Hn. simpl. lia.
      * intros _ h2 (HI2 & Hk2 & Hn2 & Hfg & s2 & Hp2 & Hl2 & Hcv & Hr & _). split; [done|]. split_and!.
        -- apply keeps_trans with h1; [done|].
           apply keeps_trans with (upd_spans (<[p := s1]>) h1); [|done].
           apply (keeps_store_free strict {[p]} (e + s.(length_)) h1 p s); try done. by rewrite HS1.
        -- etransitivity; [exact Hn2|]. simpl. rewrite HS1, (normal_count_store _ _ s) by done.
           unfold normal_of, s1. rewrite Hn. simpl. lia.
        -- eapply free_grows_trans; [|exact Hfg]. simpl. rewrite HS1. by apply free_grows_store with s.
        -- exists s2. split_and!; try done; [by intros _; apply Hr|congruence].
    + apply wp_ret. eapply wp_mono; [apply (wp_merge_list strict e h1 p s); try done; by rewrite HS1|].
      intros _ h2 (HI2 & Hk2 & Hn2 & Hfg & s2 & Hp2 & Hl2 & Hcv & Hr & _). split; [done|].
      split_and!; [by apply keeps_trans with h1|by rewrite <- HS1|by rewrite <- HS1|].
      exists s2. split_and!; try done. congruence.
  - apply wp_ret. by apply wp_merge_list.
Qed.

(** ** Releasing memory *)

Lemma wp_ReleaseSpan strict h p s :
  Inv strict ∅ 0 h -> h.(spans) !! p = Some s -> s.(location) = ON_NORMAL_FREELIST ->
  wp (ReleaseSpan free_ p) (fun n h' =>
    Inv strict ∅ 0 h' /\ keeps ∅ h h' /\ free_grows h.(spans) h'.(spans) /\
    (n = 0 /\ quiet h h' /\ ~ release_works \/
     n = s.(length_) /\ normal_count h'.(spans) < normal_count h.(spans) /\
       (h.(aggressive_decommit_) = false ->
          span_returned h'.(spans) = span_returned h.(spans) + n))) h.
Proof.
  intros HI Hp Hn. unfold ReleaseSpan. apply wp_bind.
  eapply wp_mono; [eapply (wp_DecommitSpan ens free_) with (s := s); [exact HI|done]|].
  intros worked h1 (HI1 & Hq1 & Hwk). pose proof (q_spans _ _ Hq1) as HS1.
  assert (keeps ∅ h h1) as Hk1 by (by apply quiet_keeps).
  destruct worked; [|apply wp_ret; split_and!; [done..|rewrite HS1; apply free_grows_refl|left; naive_solver]]. apply wp_bind.
  eapply wp_mono; [eapply (wp_RemoveFromFreeList ens free_) with (s := s);
    [exact HI1|by rewrite HS1|set_solver|congruence]|].
  intros _ h2 (HI2 & Hk2 & Hd2). rewrite union_empty_r_L in HI2.
  pose proof (normal_count_detached _ _ _ _ ltac:(by rewrite HS1) Hd2) as Hnc2.
  assert (span_returned h2.(spans) = span_returned h.(spans)) as Hret2.
  { destruct Hd2 as (s' & Heqv & -> & _). rewrite (span_returned_store _ _ s) by (by rewrite HS1).
    rewrite (span_eqv_free_len _ _ _ Heqv), HS1. lia. }
  destruct (detached_lookup _ _ _ _ Hd2) as (s2 & (A1 & A2 & A3 & A4) & Hp2 & _).
  apply wp_bind, wp_deref with s2; [done|]. apply wp_bind, wp_store with s2; [done|].
  set (s3 := set_location ON_RETURNED_FREELIST s2).
  assert (Hl2 : s2.(location) <> IN_USE) by congruence. apply wp_bind.
  eapply wp_mono; [apply (wp_MergeIntoFreeList strict 0 _ p s3); [|by simpl; rewrite lookup_insert_eq|done]|].
  - replace 0 with (0 + s.(length_) + free_len ON_RETURNED_FREELIST s2 - free_len ON_RETURNED_FREELIST s3).
    + apply Inv_store_detached; try done; [by apply elem_of_singleton|].
      intros Hsc. destruct Hsc. exact (free_sizeclass _ _ _ _ _ _ _ _ HI2 Hp2 Hl2).
    + unfold free_len, s3. rewrite A3, Hn. simpl. lia.
  - intros _ h4 (HI4 & Hk4 & Hn4 & Hfg4 & s4 & _ & _ & _ & _ & Hret4). apply wp_ret. simpl in Hn4, Hret4.
    rewrite (normal_count_store _ _ s2) in Hn4 by done.
    rewrite (span_returned_store _ _ s2) in Hret4 by done.
    assert (keeps ∅ h2 (upd_spans (<[p := s3]>) h2)) as Hk3 by (by eapply keeps_store_free).
    split; [done|]. split.
    + apply keeps_trans with h1; [done|]. apply keeps_trans with h2; [done|].
      by apply keeps_trans with (upd_spans (<[p := s3]>) h2).
    + split.
      { rewrite <- HS1. eapply free_grows_trans; [apply (free_grows_detached h1 h2 p s); [by rewrite HS1|congruence|exact Hd2]|].
        eapply free_grows_trans; [|exact Hfg4]. simpl. by apply free_grows_store with s2. }
      right. split_and!; [congruence| |].
      * assert (normal_of p s2 = 1) by (unfold normal_of; by rewrite A3, Hn).
        assert (normal_of p s3 = 0) by done. rewrite Hnc2, HS1 in Hn4. lia.
      * intros Hag. rewrite Hret4, Hret2.
        -- unfold free_len, s3. rewrite A3, Hn. simpl. lia.
        -- destruct (k_config _ _ _ _ Hk1) as (_ & Hc & _). destruct (k_config _ _ _ _ Hk2) as (_ & Hc2 & _).
           congruence.
Qed.

(** The list of normal spans a free span is on: [kMaxPages] is the set. *)
Definition list_index (s : Span) : Z := Z.min (s.(length_) - 1) kMaxPages.

Lemma release_candidate_spec strict h :
  Inv strict ∅ 0 h -> 0 <= h.(release_index_) <= kMaxPages ->
  match release_candidate free_ h with
  | Some p => exists s, h.(spans) !! p = Some s /\ s.(location) = ON_NORMAL_FREELIST
  | None => forall p s, h.(spans) !! p = Some s -> s.(location) = ON_NORMAL_FREELIST ->
      list_index s <> h.(release_index_)
  end.
Proof.
  intros HI Hi. destruct (i_lists _ _ _ _ _ _ HI ON_NORMAL_FREELIST) as [Hsm [_ Hlg]]; [done|].
  unfold release_candidate, list_index. destruct (Z.eqb_spec h.(release_index_) kMaxPages) as [Heq|Hne].
  - simpl in Hlg. destruct h.(large_normal_) as [|x l].
    + intros p s Hp Hn Hmin. assert (mkSPL p s.(length_) ∈ ([] : SpanSet)) as Hin.
      { apply Hlg. simpl. split; [|lia]. exists s. by split_and!. }
      by apply not_elem_of_nil in Hin.
    + destruct (proj1 (Hlg x) ltac:(by left)) as [(s & ? & _ & ? & _) _]. by exists s.
  - destruct (Hsm h.(release_index_) ltac:(lia)) as (l & Hd & Hl). simpl in Hd.
    rewrite (DLL_IsEmpty_spec _ _ _ Hd). case_bool_decide as Hnil.
    + intros p s Hp Hn Hmin. subst l. assert (p ∈ ([] : list Z)) as Hin.
      { apply Hl. exists s. split_and!; try done. lia. }
      by apply not_elem_of_nil in Hin.
    + destruct Hd as [Hseg _]. apply dseg_ends in Hseg as [_ Hlast].
      rewrite Hlast. destruct l as [|x l _] using rev_ind; [done|]. rewrite last_last.
      destruct (proj1 (Hl x) ltac:(set_solver)) as (s & ? & _ & ? & _). by exists s.
Qed.

(** The list visited next. *)
Definition next_list (h : PageHeap) : Z :=
  if h.(release_index_) >? kMaxPages then 0 else h.(release_index_).

(** After visiting [k] lists, in a circle: some span was released, or there was
    nothing to release there. *)
Definition round_post (k : nat) (num rel : Z) (h : PageHeap) (r : Z) (returned : bool)
    (h' : PageHeap) : Prop :=
  (normal_count h'.(spans) < normal_count h.(spans) \/
   r = rel /\ h'.(spans) = h.(spans) /\
   (returned = true \/ num <= rel \/
    forall j p s, 0 <= j < Z.of_nat k -> h.(spans) !! p = Some s ->
      s.(location) = ON_NORMAL_FREELIST ->
      list_index s <> (next_list h + j) mod (kMaxPages + 1))) /\
  (returned = true -> ~ release_works) /\
  (h.(aggressive_decommit_) = false -> 0 <= rel <= span_returned h.(spans) ->
     span_returned h'.(spans) - r = span_returned h.(spans) - rel /\ rel <= r).

Lemma Inv_index strict D e h f :
  Inv strict D e h -> 0 <= f h.(release_index_) ->
  Inv strict D e (upd_release_index f h).
Proof. intros [] Hi. by split. Qed.

Lemma keeps_index X h f : keeps X h (upd_release_index f h).
Proof. split; try done. Qed.

Lemma Inv_returned_bound strict D e h : Inv strict D e h -> 0 <= span_returned h.(spans) < 2 ^ 31.
Proof.
  intros HI. pose proof (Inv_total0 _ _ _ _ _ _ HI).
  assert (Hlen : forall p s, h.(spans) !! p = Some s -> 0 <= s.(length_)).
  { intros p s Hp. destruct (Inv_ok _ _ _ _ _ _ _ _ HI Hp). lia. }
  pose proof (free_sum_le_total ∅ h.(spans) Hlen).
  pose proof (free_le_total ∅ ON_NORMAL_FREELIST h.(spans) Hlen). split; [|lia].
  apply msum_nonneg. intros p s Hp. unfold ret_of. case_decide; [by eapply Hlen|done].
Qed.

Lemma next_list_range strict h : Inv strict ∅ 0 h -> 0 <= next_list h <= kMaxPages.
Proof.
  intros HI. pose proof (i_index _ _ _ _ _ _ HI). unfold next_list. rewrite Z.gtb_ltb.
  consts. destruct (Z.ltb_spec 128 h.(release_index_)); lia.
Qed.

Lemma next_list_succ h i : 0 <= i <= kMaxPages -> h.(release_index_) = i + 1 ->
  next_list h = (i + 1) mod (kMaxPages + 1).
Proof.
  intros Hi Heq. unfold next_list. rewrite Heq, Z.gtb_ltb.
  destruct (Z.ltb_spec kMaxPages (i + 1)); [|by rewrite Z.mod_small by lia].
  assert (i = kMaxPages) as -> by lia. by rewrite Z_mod_same_full.
Qed.

Lemma wp_release_round strict num k : forall rel h,
  Inv strict ∅ 0 h ->
  wp (release_round free_ k num rel) (fun '(r, returned) h' =>
    Inv strict ∅ 0 h' /\ keeps ∅ h h' /\ free_grows h.(spans) h'.(spans) /\
    normal_count h'.(spans) <= normal_count h.(spans) /\ round_post k num rel h r returned h') h.
Proof.
  induction k as [|k IH]; intros rel h HI; cbn [release_round].
  { apply wp_ret. split; [done|]. split; [apply keeps_refl|]. split; [apply free_grows_refl|]. split; [done|].
    split_and!; [right|done|lia]. split_and!; try done. right. right. lia. }
  destruct (Z.ltb_spec rel num) as [Hlt|Hge].
  2: { apply wp_ret. split; [done|]. split; [apply keeps_refl|]. split; [apply free_grows_refl|]. split; [done|].
       split_and!; [right|done|lia]. split_and!; try done. auto. }
  apply wp_bind, wp_modify, wp_bind, wp_get.
  pose proof (next_list_range strict h HI) as Hi1.
  set (h1 := upd_release_index _ h).
  assert (HI1 : Inv strict ∅ 0 h1) by (apply Inv_index; [done|apply Hi1]).
  assert (Hk1 : keeps ∅ h h1) by apply keeps_index.
  pose proof (release_candidate_spec strict h1 HI1 Hi1) as Hcand.
  destruct (release_candidate free_ h1) as [p|].
  - destruct Hcand as (s & Hp & Hn). apply wp_bind.
    eapply wp_mono; [by eapply (wp_ReleaseSpan strict h1 p s)|].
    intros n h2 (HI2 & Hk2 & Hfg2 & [(-> & Hq2 & Hnw)|(-> & Hnc & Hret)]).
    + apply wp_ret. rewrite (q_spans _ _ Hq2). split_and!; try done; [by apply keeps_trans with h1|apply free_grows_refl|].
      unfold round_post. rewrite (q_spans _ _ Hq2). split_and!; [right; auto|done|simpl; lia].
    + pose proof (Inv_length _ _ _ _ _ _ _ _ HI1 Hp) as Hlen.
      destruct (Z.eqb_spec s.(length_) 0); [lia|]. apply wp_bind, wp_modify.
      pose proof (i_index _ _ _ _ _ _ HI2) as Hidx2.
      eapply wp_mono; [apply IH; apply Inv_index; [done|lia]|].
      intros [r returned] h3 (HI3 & Hk3 & Hfg3 & Hn3 & Hp3). simpl in Hn3, Hnc.
      split_and!; [done| |by eapply free_grows_trans|lia|].
      * apply keeps_trans with h1; [done|]. apply keeps_trans with h2; [done|].
        eapply keeps_trans; [apply keeps_index|exact Hk3].
      * destruct Hp3 as (_ & Hnw & Hr). simpl in Hr. split_and!; [left; lia|done|].
        intros Hag Hrel. destruct (k_config _ _ _ _ Hk2) as (_ & Hc2 & _).
        pose proof (Inv_returned_bound _ _ _ _ HI2). specialize (Hret Hag). simpl in Hret.
        rewrite u64_small in Hr by lia. destruct Hr; [by rewrite Hc2|lia|lia].
  - apply wp_bind, wp_modify.
    eapply wp_mono; [apply IH; apply Inv_index; [done|simpl; unfold next_list in Hi1; lia]|].
    intros [r returned] h3 (HI3 & Hk3 & Hfg3 & Hn3 & Hp3). split_and!; [done| |done|done|].
    + apply keeps_trans with h1; [done|]. eapply keeps_trans; [apply keeps_index|exact Hk3].
    + destruct Hp3 as (Hcase & Hnw & Hr). split_and!; [|done|done].
      destruct Hcase as [?|(-> & HS & Hc)]; [by left|right]. split_and!; [done..|].
      destruct Hc as [?|[?|Hno]]; [by auto..|]. right. right. intros j p s Hj Hp Hn.
      destruct (Z.eq_dec j 0) as [->|Hj0].
      * rewrite Z.add_0_r, Z.mod_small by (consts; lia). by apply (Hcand p s).
      * specialize (Hno (j - 1) p s ltac:(lia) Hp Hn).
        rewrite (next_list_succ _ (next_list h)) in Hno; [|done|simpl; unfold next_list; lia].
        rewrite Zplus_mod_idemp_l in Hno.
        by replace (next_list h + 1 + (j - 1)) with (next_list h + j) in Hno by lia.
Qed.

Lemma free_bytes_pos strict h :
  Inv strict ∅ 0 h -> 0 < h.(stats_).(free_bytes) ->
  exists p s, h.(spans) !! p = Some s /\ s.(location) = ON_NORMAL_FREELIST.
Proof.
  intros HI Hf. rewrite (i_free _ _ _ _ _ _ HI) in Hf.
  destruct (msum_pos (free_of ∅ ON_NORMAL_FREELIST) h.(spans)) as (p & s & Hp & Hs).
  - intros p s Hp. unfold free_of. case_decide; [|done].
    destruct (Inv_ok _ _ _ _ _ _ _ _ HI Hp). lia.
  - unfold span_free in Hf. lia.
  - exists p, s. split; [done|]. unfold free_of in Hs. case_decide; [naive_solver|lia].
Qed.

(** What releasing at least [num] pages, [rel] of them already released, does. *)
Definition release_post (num rel : Z) (h : PageHeap) (r : Z) (h' : PageHeap) : Prop :=
  keeps ∅ h h' /\ free_grows h.(spans) h'.(spans) /\
  normal_count h'.(spans) <= normal_count h.(spans) /\
  (r = rel \/ normal_count h'.(spans) < normal_count h.(spans)) /\
  (release_works -> num <= r \/ h'.(stats_).(free_bytes) <= 0) /\
  (h.(aggressive_decommit_) = false -> 0 <= rel <= span_returned h.(spans) ->
     span_returned h'.(spans) - r = span_returned h.(spans) - rel /\ rel <= r).

Lemma wp_release_loop strict num fuel : forall rel h,
  Inv strict ∅ 0 h -> normal_count h.(spans) < Z.of_nat fuel ->
  wp (release_loop free_ fuel num rel) (fun r h' => Inv strict ∅ 0 h' /\ release_post num rel h r h') h.
Proof.
  induction fuel as [|fuel IH]; intros rel h HI Hf.
  { pose proof (normal_count_size h.(spans)). lia. }
  cbn [release_loop]. apply wp_bind, wp_get. rewrite Z.gtb_ltb.
  destruct (Z.ltb_spec rel num) as [Hlt|Hge]; [destruct (Z.ltb_spec 0 h.(stats_).(free_bytes)) as [Hfb|Hfb]|].
  2, 3: apply wp_ret; split; [done|]; split_and!; [apply keeps_refl|apply free_grows_refl|lia|by left|lia|lia].
  cbn [andb]. apply wp_bind. eapply wp_mono; [by apply wp_release_round|].
  intros [r returned] h1 (HI1 & Hk1 & Hfg1 & Hn1 & (Hcase & Hnw & Hr)). destruct returned.
  - apply wp_ret. split; [done|]. split_and!; [done|done|done| |by intros; destruct Hnw|done].
    destruct Hcase as [?|(? & _)]; auto.
  - destruct Hcase as [Hdec|(-> & HS & [?|[?|Hno]])]; [|done|lia|].
    + eapply wp_mono; [apply IH; [done|lia]|].
      intros r2 h2 (HI2 & Hk2 & Hfg2 & Hn2 & _ & Hw2 & Hr2). split; [done|].
      split_and!; [by apply keeps_trans with h1|by eapply free_grows_trans|lia|right; lia|done|].
      intros Hag Hrel. destruct (k_config _ _ _ _ Hk1) as (_ & Hc & _).
      destruct (Hr Hag Hrel). destruct Hr2; [congruence|lia|lia].
    + exfalso. destruct (free_bytes_pos strict h HI Hfb) as (p & s & Hp & Hn).
      pose proof (Inv_length _ _ _ _ _ _ _ _ HI Hp) as Hlen.
      pose proof (next_list_range strict h HI) as Hi.
      assert (0 <= list_index s <= kMaxPages) as Hli by (unfold list_index; consts; lia).
      apply (Hno ((list_index s - next_list h) mod (kMaxPages + 1)) p s); [|done..|].
      * pose proof (Z.mod_pos_bound (list_index s - next_list h) (kMaxPages + 1)). consts. lia.
      * rewrite Zplus_mod_idemp_r.
        replace (next_list h + (list_index s - next_list h)) with (list_index s) by lia.
        rewrite Z.mod_small; lia.
Qed.

Lemma wp_ReleaseAtLeastNPages strict num h :
  Inv strict ∅ 0 h ->
  wp (ReleaseAtLeastNPages free_ num) (fun r h' => Inv strict ∅ 0 h' /\ release_post num 0 h r h') h.
Proof.
  intros HI. unfold ReleaseAtLeastNPages. apply wp_bind, wp_get.
  apply wp_release_loop; [done|]. pose proof (normal_count_size h.(spans)). lia.
Qed.

(** ** Deleting *)

(** Fields the invariant does not mention. *)
Lemma Inv_scavenge strict D e h f : Inv strict D e h -> Inv strict D e (upd_scavenge_counter f h).
Proof. intros []. by split. Qed.

Lemma keeps_scavenge X h f : keeps X h (upd_scavenge_counter f h).
Proof. split; try done. Qed.

Lemma wp_IncrementalScavenge strict n h :
  Inv strict ∅ 0 h ->
  wp (IncrementalScavenge free_ n) (fun _ h' =>
    Inv strict ∅ 0 h' /\ keeps ∅ h h' /\ free_grows h.(spans) h'.(spans)) h.
Proof.
  intros HI. unfold IncrementalScavenge. apply wp_bind, wp_modify, wp_bind, wp_get.
  set (h1 := upd_scavenge_counter _ h).
  assert (HI1 : Inv strict ∅ 0 h1) by (by apply Inv_scavenge).
  assert (Hk1 : keeps ∅ h h1) by apply keeps_scavenge.
  assert (free_grows h.(spans) h1.(spans)) by apply free_grows_refl.
  case_if; [by apply wp_ret|]. case_if.
  - apply wp_modify. split; [by apply Inv_scavenge|]. split; [|done].
    apply keeps_trans with h1; [done|apply keeps_scavenge].
  - apply wp_bind, wp_modify. set (h2 := upd_stats _ h1).
    assert (HI2 : Inv strict ∅ 0 h2) by (by destruct HI1; split).
    assert (Hk2 : keeps ∅ h h2) by (apply keeps_trans with h1; [done|by split]).
    apply wp_bind. eapply wp_mono; [by apply (wp_ReleaseAtLeastNPages strict 1)|].
    intros r h3 (HI3 & Hk3 & Hfg3 & _). assert (keeps ∅ h h3) by (by apply keeps_trans with h2).
    case_if; apply wp_modify; (split; [by apply Inv_scavenge|]); (split; [|done]);
      (apply keeps_trans with h3; [done|apply keeps_scavenge]).
Qed.

(** Spans in use may count as detached or not. *)
Lemma Inv_in_use strict D D' e h :
  (forall p s, h.(spans) !! p = Some s -> s.(location) <> IN_USE -> p ∈ D <-> p ∈ D') ->
  Inv strict D e h -> Inv strict D' e h.
Proof.
  intros HD []. assert (Hco : forall loc, loc <> IN_USE ->
    coalesced D loc h.(spans) -> coalesced D' loc h.(spans)).
  { intros loc Hloc Hc p q s t Hp Hq HpD HqD Hadj Hl Ht.
    apply (Hc p q s t Hp Hq); try done; rewrite HD by (done || congruence); done. }
  split; try done.
  - apply lists_ext with D h.(spans); [done| |done]. intros loc n p Hloc. unfold sel.
    split; intros (s & Hp & HpD & Hl & Hn); exists s; split_and!; try done;
      intros Hin; apply HpD; by apply (HD p s Hp ltac:(congruence)).
  - rewrite (span_free_ext D' D); [done|]. intros p s Hp Hl. symmetry. apply (HD p s); [done|congruence].
  - rewrite (span_free_ext D' D); [done|]. intros p s Hp Hl. symmetry. apply (HD p s); [done|congruence].
  - by apply Hco.
  - intros Hst. destruct (i_returned Hst). split; [by apply Hco|done].
Qed.

Lemma keeps_store_x strict D e h p s s' :
  Inv strict D e h -> h.(spans) !! p = Some s -> keeps {[p]} h (upd_spans (<[p := s']>) h).
Proof.
  intros HI Hp. split; try done; simpl.
  - intros q t Hq Ht Hne. rewrite lookup_insert_ne; [done|set_solver].
  - intros q t Hq Ht Hne. rewrite lookup_insert_ne in Hq; [done|set_solver].
Qed.

(** The state after deleting the span [p], which was [s] and in use. *)
Definition deleted (p : Z) (s : Span) (h h' : PageHeap) : Prop :=
  keeps {[p]} h h' /\ free_grows h.(spans) h'.(spans) /\
  (forall s', h'.(spans) !! p = Some s' -> s'.(location) <> IN_USE) /\
  exists q t, h'.(spans) !! q = Some t /\ t.(location) <> IN_USE /\ forall k, covers s k -> covers t k.

Lemma wp_DeleteLocked strict h p s :
  Inv strict ∅ 0 h -> h.(spans) !! p = Some s -> s.(location) = IN_USE ->
  wp (DeleteLocked free_ p) (fun _ h' => Inv strict ∅ 0 h' /\ deleted p s h h') h.
Proof.
  intros HI Hp Hl. unfold DeleteLocked. apply wp_bind, wp_deref with s; [done|].
  apply wp_bind, wp_store with s; [done|].
  set (s1 := set_location ON_NORMAL_FREELIST (set_sample false (set_sizeclass 0 s))).
  assert (HI0 : Inv strict {[p]} 0 h).
  { apply Inv_in_use with ∅; [|done]. intros q t Hq Hlt.
    assert (q <> p) by (intros ->; simplify_eq). set_solver. }
  assert (HI1 : Inv strict {[p]} 0 (upd_spans (<[p := s1]>) h)).
  { replace 0 with (0 + free_len ON_RETURNED_FREELIST s - free_len ON_RETURNED_FREELIST s1).
    - apply Inv_store_detached; try done. by apply elem_of_singleton.
    - unfold free_len, s1. by rewrite Hl. }
  apply wp_bind. eapply wp_mono.
  { apply (wp_MergeIntoFreeList strict 0 _ p s1); [done|by simpl; rewrite lookup_insert_eq|done]. }
  intros _ h2 (HI2 & Hk2 & _ & Hfg2 & s2 & Hp2 & Hl2 & Hc2 & _).
  eapply wp_mono; [by apply wp_IncrementalScavenge|].
  intros _ h3 (HI3 & Hk3 & Hfg3). split; [done|]. split_and!.
  - eapply keeps_trans; [by eapply keeps_store_x|]. apply keeps_weaken. by apply keeps_trans with h2.
  - eapply free_grows_trans; [|eapply free_grows_trans; [exact Hfg2|exact Hfg3]].
    simpl. by apply free_grows_store with s.
  - intros s' Hs' Hls'. assert (h2.(spans) !! p = Some s') by (by eapply k_span'). congruence.
  - destruct (Hfg3 p s2 Hp2 Hl2) as (q & t & Hq & Hlt & Hct). exists q, t. split_and!; auto.
Qed.

(** ** The heap limit *)

Definition limit_pages (h : PageHeap) : Z :=
  u64 (Z.shiftr (i64 (h.(heap_limit_mb) * 1024 * 1024)) kPageShift).

(** The pages in use as the limit counts them. *)
Definition taken_pages (h : PageHeap) : Z :=
  u64 (Z.shiftr (TCMalloc_SystemTaken h.(world)) kPageShift
       - Z.shiftr h.(stats_).(unmapped_bytes) kPageShift).

Definition limit_ok (n : Z) (h : PageHeap) : bool :=
  (limit_pages h =? 0) || (u64 (taken_pages h + n) <=? limit_pages h).

Lemma EnsureLimit_false n h : EnsureLimit free_ n false h = Ok (limit_ok n h, h).
Proof.
  unfold EnsureLimit, limit_ok, limit_pages, taken_pages. erewrite bind_run by reflexivity.
  cbv zeta. case_if; [done|]. rewrite andb_false_r. by erewrite bind_run.
Qed.

Lemma wp_EnsureLimit strict n h :
  Inv strict ∅ 0 h ->
  wp (EnsureLimit free_ n true) (fun ok h' =>
    Inv strict ∅ 0 h' /\ keeps ∅ h h' /\ free_grows h.(spans) h'.(spans) /\
    normal_count h'.(spans) <= normal_count h.(spans) /\
    (ok = true -> limit_ok n h = false -> normal_count h'.(spans) < normal_count h.(spans)) /\
    (limit_ok n h = true -> ok = true /\ h' = h)) h.
Proof.
  intros HI. unfold EnsureLimit. apply wp_bind, wp_get.
  fold (limit_pages h). fold (taken_pages h). unfold limit_ok. cbv zeta.
  destruct (Z.eqb_spec (limit_pages h) 0) as [Hlim|Hlim]; cbn [orb].
  { apply wp_ret. split_and!; first [done|apply keeps_refl|apply free_grows_refl]. }
  rewrite Z.gtb_ltb. apply wp_bind.
  destruct (Z.ltb_spec (limit_pages h) (u64 (taken_pages h + n))) as [Hgt|Hle]; cbn [andb].
  - apply wp_bind. eapply wp_mono; [by apply wp_ReleaseAtLeastNPages|].
    intros r h1 (HI1 & Hk1 & Hfg1 & Hn1 & Hr1 & _ & _). do 2 apply wp_ret. split_and!; try done.
    + intros Hok _. destruct Hr1 as [->|]; [|done]. exfalso.
      rewrite Z.sub_0_r in Hok. unfold taken_pages in Hok. rewrite u64_idemp in Hok.
      fold (taken_pages h) in Hok. propify. lia.
    + intros Hok. propify. lia.
  - do 2 apply wp_ret.
    split_and!; first [done|apply keeps_refl|apply free_grows_refl|intros Hok Hno; congruence].
Qed.
End Ops.
