(* ===== verification/PageHeapAlloc.v ===== *)
(** Allocation from the page heap: carving, splitting, searching and growing. *)
From S2P Require Import Prelude SizeMap Span PackedCache PageMap SysEnv PageHeap SpanStore.
From S2P Require Import PageHeapInv PageHeapOps.

Section Alloc.
Context {W : Type} {E : Env W} {P : PageMap W} {G : EnvGhost W}.
Context {ens : pm_t -> Z -> Prop} {free_ : Z}.
Context {EL : EnvLaws W} {PL : PageMapLaws MetaDataAlloc P ens} {HLay : HeapLayout free_}.

Implicit Types (h : PageHeap) (D : gset Z) (p q : Z) (s t : Span).

Abbreviation Inv := (Inv ens free_).
Abbreviation keeps := (keeps free_).

(** ** New descriptors *)

Lemma wp_NewSpan h st len Q :
  env_ok h.(world) ->
  (forall q w', env_ok w' -> taken h.(world) ⊆ taken w' -> 0 < q -> q ∉ live h.(world) ->
     ~ static_addr q -> live w' = {[q]} ∪ live h.(world) ->
     Q q (upd_span_links (<[q := mkLink 0 0]>) (upd_spans (<[q := NewSpan_fields st len]>)
            (upd_world (fun _ => w') h)))) ->
  wp (NewSpan st len) Q h.
Proof.
  intros Hok HQ. unfold NewSpan. apply wp_bind.
  destruct (span_New_ok _ h.(world) Hok) as [Hoom|(q & w' & Hnew & ? & ? & ? & ? & ? & ?)];
    [by apply wp_call_oom|].
  eapply wp_call; [exact Hnew|]. wp_pure. by apply HQ.
Qed.

Lemma wp_RecordSpan h q s Q :
  h.(spans) !! q = Some s -> 0 < s.(start) -> 0 < s.(length_) ->
  s.(start) + s.(length_) < page_limit ->
  (forall k, covers s k -> ens h.(pagemap_) k) ->
  (forall m', (forall k, 0 <= k -> pm_get m' k =
       if decide (k = s.(start) \/ k = s.(start) + s.(length_) - 1) then q else pm_get h.(pagemap_) k) ->
     (forall k, ens m' k <-> ens h.(pagemap_) k) ->
     Q tt (upd_pagemap (fun _ => m') h)) ->
  wp (RecordSpan q) Q h.
Proof.
  intros Hq Hst Hln Hlim Hens HQ. rewrite page_limit_u64 in Hlim. unfold RecordSpan.
  apply wp_bind, wp_deref with s; [done|].
  apply wp_bind, (wp_pagemap_set ens); [by apply Hens, covers_first|].
  intros m1 Hget1 Hens1. rewrite Z.gtb_ltb. destruct (Z.ltb_spec 1 s.(length_)).
  - rewrite u64_small by lia. apply (wp_pagemap_set ens); simpl.
    { apply Hens1, Hens. unfold covers. lia. }
    intros m2 Hget2 Hens2. apply (HQ m2).
    + intros k Hk. rewrite Hget2, Hget1 by done. repeat case_decide; lia || done.
    + intros k. by rewrite Hens2, Hens1.
  - apply wp_ret, HQ; [|done]. intros k Hk. rewrite Hget1 by done. repeat case_decide; lia || done.
Qed.

(** ** Splitting a span in use *)

Lemma coalesced_split loc S get tn lv tk p q s s1 s2 n :
  geom static_addr page_limit S get tn lv tk -> S !! p = Some s -> S !! q = None -> 0 < n < s.(length_) ->
  loc <> IN_USE -> s1.(location) = IN_USE ->
  s2.(start) = s.(start) + n -> s2.(length_) = s.(length_) - n ->
  coalesced ∅ loc S ->
  (s2.(location) = loc -> forall r u, r <> p -> S !! r = Some u ->
     s.(start) + s.(length_) = u.(start) -> u.(location) <> loc) ->
  coalesced ∅ loc (<[q := s2]> (<[p := s1]> S)).
Proof.
  intros Hg Hp Hq Hn Hloc D1 A2 B2 Hc Hc2.
  assert (Hcase : forall a u, <[q := s2]> (<[p := s1]> S) !! a = Some u -> u.(location) = loc ->
    a = q /\ u = s2 \/ a <> p /\ S !! a = Some u).
  { intros a u Ha Hlu. apply lookup_insert_Some in Ha as [[<- <-]|[_ Ha]]; [by left|right].
    apply lookup_insert_Some in Ha as [[<- <-]|[? Ha]]; [congruence|done]. }
  intros a b u v Ha Hb _ _ Hadj Hlu Hlv.
  destruct (Hcase a u Ha Hlu) as [[-> ->]|[Hap Ha']], (Hcase b v Hb Hlv) as [[-> ->]|[Hbp Hb']].
  - lia.
  - apply (Hc2 Hlu b v); [done..|lia|done].
  - apply Hap. pose proof (g_ok _ _ _ _ _ _ _ Hg a u Ha') as [].
    apply (g_disjoint _ _ _ _ _ _ _ Hg a p u s (s.(start) + n - 1)); try done; unfold covers; lia.
  - by apply (Hc a b u v).
Qed.

(** The invariant after the span [p], in use, was cut after [n] pages and the
    rest became the new span [q], on a free list if it is free. *)
Lemma Inv_split strict e h h' p q s s1 s2 n :
  Inv strict ∅ e h -> h.(spans) !! p = Some s -> s.(location) = IN_USE -> s.(sizeclass) = 0 ->
  0 < n < s.(length_) ->
  0 < q -> q ∉ live h.(world) -> ~ static_addr q -> live h'.(world) = {[q]} ∪ live h.(world) ->
  env_ok h'.(world) -> taken h.(world) ⊆ taken h'.(world) ->
  h'.(spans) = <[q := s2]> (<[p := s1]> h.(spans)) ->
  s1.(start) = s.(start) -> s1.(length_) = n -> s1.(sizeclass) = 0 -> s1.(location) = IN_USE ->
  s2.(start) = s.(start) + n -> s2.(length_) = s.(length_) - n -> s2.(sizeclass) = 0 ->
  (forall k, 0 <= k -> pm_get h'.(pagemap_) k =
     if decide (k = s.(start) + n - 1) then p
     else if decide (k = s.(start) + n \/ k = s.(start) + s.(length_) - 1) then q
     else pm_get h.(pagemap_) k) ->
  (forall k, ens h'.(pagemap_) k <-> ens h.(pagemap_) k) ->
  h'.(smallest_span_size_) = h.(smallest_span_size_) ->
  h'.(aggressive_decommit_) = h.(aggressive_decommit_) ->
  h'.(release_index_) = h.(release_index_) ->
  h'.(stats_).(system_bytes) = h.(stats_).(system_bytes) ->
  h'.(stats_).(committed_bytes) = h.(stats_).(committed_bytes) ->
  lists (free_list free_) ∅ h'.(spans) h'.(span_links) (large h') ->
  h'.(stats_).(free_bytes) = 8192 * span_free ∅ ON_NORMAL_FREELIST h'.(spans) ->
  h'.(stats_).(unmapped_bytes) = 8192 * span_free ∅ ON_RETURNED_FREELIST h'.(spans) ->
  (s2.(location) = ON_NORMAL_FREELIST \/ s2.(location) = ON_RETURNED_FREELIST /\ strict = true ->
    forall r u, r <> p -> h.(spans) !! r = Some u ->
      s.(start) + s.(length_) = u.(start) -> u.(location) <> s2.(location)) ->
  Inv strict ∅ (e - free_len ON_RETURNED_FREELIST s2) h'.
Proof.
  intros HI Hp Hl Hsc Hn Hq0 Hqlv Hqs Hlv Hok Htk HS A1 B1 C1 D1 A2 B2 C2 Hget Hens X1 X2 X3 X4 X5 Hls Hf Hu Hco.
  pose proof HI as [].
  assert (Hq : h.(spans) !! q = None).
  { destruct (h.(spans) !! q) as [t|] eqn:Hq; [|done].
    destruct Hqlv. by destruct (Inv_ok _ _ _ _ _ _ _ _ HI Hq). }
  assert (Hpq : p <> q) by congruence.
  assert (Hq1 : <[p := s1]> h.(spans) !! q = None) by (by rewrite lookup_insert_ne).
  pose proof (Inv_ok _ _ _ _ _ _ _ _ HI Hp) as [? ? ? ? ? ? _].
  split; rewrite ?X1, ?X2, ?X3, ?X4, ?X5; try done.
  - rewrite HS. assert (Hg : geom static_addr page_limit (<[q := s2]> (<[p := s1]> h.(spans)))
      (pm_get h'.(pagemap_)) (ens h.(pagemap_)) (live h'.(world)) (taken h'.(world))).
    { eapply (geom_split _ _ h.(spans)) with (s := s) (n := n); try done; rewrite Hlv.
      - set_solver.
      - intros r u Hr. destruct (Inv_ok _ _ _ _ _ _ _ _ HI Hr). set_solver. }
    eapply geom_mono; [exact Hg| |done|by intros k; apply Hens|done].
    intros r u Hr. by destruct (g_ok _ _ _ _ _ _ _ Hg r u Hr).
  - destruct i_system as (lk & Hlk & Hno & Hsys). exists lk. split_and!.
    + by transitivity (taken h.(world)).
    + intros r u k Hr Hk. rewrite HS in Hr. apply lookup_insert_Some in Hr as [[<- <-]|[_ Hr]];
        [|apply lookup_insert_Some in Hr as [[<- <-]|[_ Hr]]; [|by apply (Hno r u)]];
        apply (Hno p s); try done; unfold covers in *; lia.
    + rewrite HS, span_total_insert, (span_total_store _ _ s) by done. rewrite Hsys. lia.
  - rewrite HS, span_returned_insert, (span_returned_store _ _ s) by done.
    rewrite i_committed. f_equal. unfold free_len. rewrite Hl, D1. simpl. lia.
  - rewrite HS. eapply coalesced_split with (s := s); try done.
    intros Hl2 r u Hr Hru Hadj. rewrite <- Hl2. apply (Hco ltac:(auto) r u); done.
  - intros Hst. destruct (i_returned Hst). split; [|done].
    rewrite HS. eapply coalesced_split with (s := s); try done.
    intros Hl2 r u Hr Hru Hadj. rewrite <- Hl2. apply (Hco ltac:(auto) r u); done.
Qed.

(** [q] is a fresh span that holds the pages of [s] after the first [n]. *)
Definition split_of (p q : Z) (s : Span) (n : Z) (h h' : PageHeap) : Prop :=
  h.(spans) !! q = None /\ keeps {[p; q]} h h' /\ free_grows h.(spans) h'.(spans) /\
  h'.(spans) !! p = Some (set_length n s) /\
  h'.(spans) !! q = Some (NewSpan_fields (s.(start) + n) (s.(length_) - n)).

Lemma fresh_not_span strict D e h q :
  Inv strict D e h -> q ∉ live h.(world) -> h.(spans) !! q = None.
Proof.
  intros HI Hq. destruct (h.(spans) !! q) as [t|] eqn:Ht; [|done].
  destruct Hq. by destruct (Inv_ok _ _ _ _ _ _ _ _ HI Ht).
Qed.

Lemma pair_minus p q : ({[p; q]} : gset Z) ∖ {[q]} ⊆ {[p]}.
Proof. clear. set_solver. Qed.

Lemma pair_sub_l p q : ({[p]} : gset Z) ⊆ {[p; q]}.
Proof. clear. set_solver. Qed.

Lemma pair_sub_r p q : ({[q]} : gset Z) ⊆ {[p; q]}.
Proof. clear. set_solver. Qed.

Lemma pair_swap p q : ({[p; q]} : gset Z) ⊆ {[q; p]}.
Proof. clear. set_solver. Qed.

(** Splitting does not touch the other spans. *)
Lemma keeps_split strict D e h h' p q s n s1 s2 :
  Inv strict D e h -> h.(spans) !! p = Some s -> h.(spans) !! q = None -> ~ static_addr q ->
  0 < n < s.(length_) ->
  h'.(spans) = <[q := s2]> (<[p := s1]> h.(spans)) ->
  (forall k, 0 <= k -> pm_get h'.(pagemap_) k =
     if decide (k = s.(start) + n - 1) then p
     else if decide (k = s.(start) + n \/ k = s.(start) + s.(length_) - 1) then q
     else pm_get h.(pagemap_) k) ->
  (forall y, y <> q -> ~ list_node (free_list free_) h.(spans) y ->
     links_agree h.(span_links) h'.(span_links) y) ->
  taken h.(world) ⊆ taken h'.(world) ->
  h'.(smallest_span_size_) = h.(smallest_span_size_) /\
    h'.(aggressive_decommit_) = h.(aggressive_decommit_) /\
    h'.(heap_limit_mb) = h.(heap_limit_mb) /\ h'.(release_rate) = h.(release_rate) ->
  h'.(pagemap_cache_) = h.(pagemap_cache_) ->
  keeps {[p; q]} h h'.
Proof.
  intros HI Hp Hq Hqs Hn HS Hget HL Htk Hcfg Hca.
  split; try done; [..|intros k v _; unfold TryGetSizeClass; by rewrite Hca].
  - intros r u Hr Hu Hne. rewrite HS, !lookup_insert_ne; [done|set_solver..].
  - intros r u Hr Hu Hne. rewrite HS, !lookup_insert_ne in Hr; [done|set_solver..].
  - intros r u k Hr Hu Hne Hc. pose proof (Inv_ok _ _ _ _ _ _ _ _ HI Hr) as [].
    pose proof (Inv_ok _ _ _ _ _ _ _ _ HI Hp) as [].
    assert (Hk : ~ covers s k).
    { intros Hk. assert (r = p); [|set_solver].
      eapply (g_disjoint _ _ _ _ _ _ _ (i_geom _ _ _ _ _ _ HI)); done. }
    rewrite Hget by (unfold covers in Hc; lia).
    rewrite !decide_False; [done| |]; intros Heq; apply Hk; unfold covers; lia.
  - intros r u Hr Hu Hne. apply HL; [set_solver|].
    intros [(loc & i & _ & Hi & ->)|(v & Hv & Hlv)]; [|congruence].
    destruct (Inv_ok _ _ _ _ _ _ _ _ HI Hr) as [_ Hns]. by apply Hns, layout_static.
  - intros a Ha Hh. apply HL; [by intros ->|]. intros [?|(v & Hv & _)]; [by apply Hh|].
    by destruct (Inv_ok _ _ _ _ _ _ _ _ HI Hv).
Qed.

Lemma wp_Split strict e h p s n :
  Inv strict ∅ e h -> h.(spans) !! p = Some s -> s.(location) = IN_USE -> s.(sizeclass) = 0 ->
  0 < n < s.(length_) ->
  wp (Split p n) (fun q h' => Inv strict ∅ e h' /\ split_of p q s n h h') h.
Proof.
  intros HI Hp Hl Hsc Hn. pose proof (Inv_length _ _ _ _ _ _ _ _ HI Hp) as Hlen.
  pose proof (Inv_ok _ _ _ _ _ _ _ _ HI Hp) as [? ? ? ? ? Hlim Hpg].
  pose proof Hlim as Hlim'. rewrite page_limit_u64 in Hlim'.
  unfold Split. apply wp_bind, wp_deref with s; [done|].
  rewrite i32_small, !u64_small by lia. apply wp_bind, wp_NewSpan; [apply HI|].
  intros q w' Hok Htk Hq0 Hqlv Hqs Hlv.
  pose proof (fresh_not_span _ _ _ _ _ HI Hqlv) as Hq. assert (Hpq : p <> q) by congruence.
  set (s2 := NewSpan_fields (s.(start) + n) (s.(length_) - n)).
  apply wp_bind, wp_RecordSpan with s2; simpl; [by rewrite lookup_insert_eq|lia..| |].
  { intros k Hk. apply Hpg. unfold covers in *. simpl in Hk. lia. }
  intros m1 Hget1 Hens1. apply wp_bind, (wp_pagemap_set ens); simpl.
  { apply Hens1, Hpg. unfold covers. lia. }
  intros m2 Hget2 Hens2. apply wp_bind, wp_store with s; [simpl; by rewrite lookup_insert_ne|].
  apply wp_ret. set (h' := upd_spans _ _).
  assert (HS : h'.(spans) = <[q := s2]> (<[p := set_length n s]> h.(spans))).
  { unfold h'. simpl. by rewrite insert_insert_ne. }
  assert (Hget : forall k, 0 <= k -> pm_get h'.(pagemap_) k =
     if decide (k = s.(start) + n - 1) then p
     else if decide (k = s.(start) + n \/ k = s.(start) + s.(length_) - 1) then q
     else pm_get h.(pagemap_) k).
  { intros k Hk. simpl. rewrite Hget2, Hget1 by done. repeat case_decide; lia || done. }
  assert (Hens : forall k, ens m2 k <-> ens h.(pagemap_) k) by (intros k; by rewrite Hens2, Hens1).
  assert (Hfree : forall loc, loc <> IN_USE -> span_free ∅ loc h'.(spans) = span_free ∅ loc h.(spans)).
  { intros loc Hloc. rewrite HS, span_free_insert, (span_free_store _ _ _ _ s); try done.
    - right. unfold free_len. by rewrite !decide_False by (simpl; congruence).
    - by rewrite lookup_insert_ne.
    - right. simpl. congruence. }
  split; [|split_and!].
  - replace e with (e - free_len ON_RETURNED_FREELIST s2) by (unfold free_len; simpl; lia).
    eapply (Inv_split strict e h h' p q s (set_length n s) s2 n); try done.
    + rewrite HS. apply lists_same_free with h.(spans).
      * eapply (lists_new_link _ static_addr (layout_static free_)); [apply HI|done..].
      * intros r u Hu. rewrite lookup_insert_Some, lookup_insert_Some.
        split; [intros [[<- <-]|[? [[<- <-]|[? ?]]]]; done|]. intros Hr. right. split; [congruence|].
        right. split; [congruence|done].
    + rewrite Hfree by done. apply HI.
    + rewrite Hfree by done. apply HI.
    + intros [?|[? _]]; done.
  - done.
  - eapply keeps_split with (s1 := set_length n s) (s2 := s2); try done.
    intros y Hy _. unfold links_agree, lnext, lprev. simpl. by rewrite lookup_insert_ne.
  - rewrite HS. intros r u Hr Hlu. exists r, u. rewrite !lookup_insert_ne by congruence. done.
  - rewrite HS, lookup_insert_ne, lookup_insert_eq by done. done.
  - by rewrite HS, lookup_insert_eq.
Qed.

(** ** Carving *)

(** Free pages leave room for a span in use. *)
Lemma free_room strict D e h p s loc :
  Inv strict D e h -> h.(spans) !! p = Some s -> s.(location) <> loc ->
  span_free ∅ loc h.(spans) + s.(length_) <= span_total h.(spans).
Proof.
  intros HI Hp Hl. unfold span_free, span_total. rewrite !(msum_delete _ h.(spans) p s) by done.
  assert (free_of ∅ loc p s = 0) as -> by (unfold free_of; rewrite decide_False; naive_solver).
  assert (len_of p s = s.(length_)) as -> by done.
  assert (msum (free_of ∅ loc) (delete p h.(spans)) <= msum len_of (delete p h.(spans))); [|lia].
  apply msum_le. intros q t Hq. apply lookup_delete_Some in Hq as [_ Hq].
  unfold free_of, len_of. case_decide; [done|]. destruct (Inv_ok _ _ _ _ _ _ _ _ HI Hq). lia.
Qed.

(** The leftover [q], with location [loc], before the span [p] is shortened: what
    putting it on its list needs. *)
Section Leftover.
Context (strict : bool) (e : Z) (h : PageHeap) (p q : Z) (s t : Span) (n : Z) (w' : W) (m : pm_t).
Context (HI : Inv strict ∅ e h) (Hp : h.(spans) !! p = Some s) (Hl : s.(location) = IN_USE).
Context (Hn : 0 < n < s.(length_)) (Hq : h.(spans) !! q = None) (Hqs : ~ static_addr q).
Context (Hok : env_ok w').
Context (Ht : t.(start) = s.(start) + n) (Htl : t.(length_) = s.(length_) - n).
Context (Hloc : t.(location) <> IN_USE).

Definition leftover_heap : PageHeap :=
  upd_pagemap (fun _ => m) (upd_spans (<[q := t]>) (upd_span_links (<[q := mkLink 0 0]>)
    (upd_world (fun _ => w') h))).

Lemma leftover_free loc : loc <> IN_USE ->
  span_free {[q]} loc leftover_heap.(spans) = span_free ∅ loc h.(spans).
Proof.
  intros Hloc'. simpl. rewrite span_free_insert by (done || set_solver).
  apply span_free_ext. intros r u Hr _. assert (r <> q) by congruence. set_solver.
Qed.

Lemma wp_Prepend_leftover :
  wp (PrependToFreeList free_ q) (fun _ h' => exists t' w'' L' ln lr st',
    span_eqv t t' /\ env_step w' w'' /\
    h' = upd_world (fun _ => w'') (upd_spans (<[q := t']>) (upd_span_links (fun _ => L')
           (upd_large_normal (fun _ => ln) (upd_large_returned (fun _ => lr)
             (upd_stats (fun _ => st') leftover_heap))))) /\
    lists (free_list free_) ∅ (<[q := t']> h.(spans)) L' (large h') /\
    (forall y, y <> q -> ~ list_node (free_list free_) h.(spans) y -> links_agree h.(span_links) L' y) /\
    st'.(free_bytes) = 8192 * span_free ∅ ON_NORMAL_FREELIST (<[q := t']> h.(spans)) /\
    st'.(unmapped_bytes) = 8192 * span_free ∅ ON_RETURNED_FREELIST (<[q := t']> h.(spans)) /\
    st'.(system_bytes) = h.(stats_).(system_bytes) /\
    st'.(committed_bytes) = h.(stats_).(committed_bytes)) leftover_heap.
Proof.
  pose proof (Inv_length _ _ _ _ _ _ _ _ HI Hp) as Hlen. pose proof (Inv_total0 _ _ _ _ _ _ HI) as Htot.
  assert (Hdq : {[q]} ∖ {[q]} = (∅ : gset Z)) by apply difference_diag_L.
  assert (Hroom : forall loc, loc <> IN_USE -> 0 <= span_free ∅ loc leftover_heap.(spans) < 2 ^ 31).
  { intros loc Hloc'. rewrite <- Hdq, (span_free_attach _ _ _ q t) by (simpl; apply lookup_insert_eq || set_solver).
    rewrite leftover_free by done. pose proof (free_room strict ∅ e h p s loc HI Hp ltac:(congruence)).
    pose proof (Inv_free_bound _ _ _ _ _ _ ∅ loc HI). unfold free_len. case_decide; lia. }
  eapply wp_mono; [apply (wp_PrependToFreeList_raw free_ {[q]} leftover_heap q t)|].
  - done.
  - intros r u Hr. simpl in Hr. apply lookup_insert_Some in Hr as [[<- <-]|[_ Hr]]; [done|].
    by destruct (Inv_ok _ _ _ _ _ _ _ _ HI Hr).
  - apply lists_detached with h.(spans).
    + eapply (lists_new_link _ static_addr (layout_static free_)); [|done..].
      apply lists_ext with ∅ h.(spans); [apply HI| |done]. intros loc k r _. unfold sel.
      split; intros (u & Hr & ?); exists u; (assert (r <> q) by congruence); set_solver.
    + intros r Hr. simpl. rewrite lookup_insert_ne; [done|set_solver].
  - rewrite leftover_free by done. apply HI.
  - rewrite leftover_free by done. apply HI.
  - simpl. apply lookup_insert_eq.
  - by apply elem_of_singleton.
  - done.
  - lia.
  - rewrite Hdq. by apply Hroom.
  - intros r u Hr HrD Hu Hst. simpl in Hr. rewrite lookup_insert_ne in Hr by set_solver.
    assert (r = p); [|congruence]. pose proof (Inv_ok _ _ _ _ _ _ _ _ HI Hr) as [].
    eapply (g_disjoint _ _ _ _ _ _ _ (i_geom _ _ _ _ _ _ HI) r p u s u.(start)); try done; unfold covers; lia.
  - intros _ h' (t' & w'' & L' & ln & lr & st' & Heqv & Hw & Hh' & Hls & HL & F1 & F2 & F3 & F4).
    exists t', w'', L', ln, lr, st'. rewrite Hdq in Hls, F1, F2.
    assert (HS' : <[q := t']> leftover_heap.(spans) = <[q := t']> h.(spans)) by (simpl; apply insert_insert_eq).
    assert (Hfr : forall loc, span_free ∅ loc (<[q := t']> h.(spans)) = span_free ∅ loc leftover_heap.(spans)).
    { intros loc. rewrite <- HS'. apply (span_free_store _ _ _ _ t); [simpl; apply lookup_insert_eq|].
      right. by apply span_eqv_free_len. }
    split_and!; try done.
    + subst h'. simpl in Hls. by rewrite insert_insert_eq in Hls.
    + intros y Hyq Hy. eapply links_agree_trans; [|apply HL].
      * unfold links_agree, lnext, lprev. simpl. by rewrite lookup_insert_ne.
      * intros [?|(u & Hu & Hlu)]; apply Hy; [by left|right]. simpl in Hu.
        rewrite lookup_insert_ne in Hu by done. eauto.
    + by rewrite Hfr.
    + by rewrite Hfr.
Qed.
End Leftover.

(** The part of [Carve] that splits off the leftover and puts it on the list the
    span came from. *)
Lemma wp_carve_leftover strict e h p s n loc :
  Inv strict ∅ e h -> h.(spans) !! p = Some s -> s.(location) = IN_USE -> s.(sizeclass) = 0 ->
  0 < n < s.(length_) -> loc <> IN_USE ->
  (loc = ON_NORMAL_FREELIST \/ loc = ON_RETURNED_FREELIST /\ strict = true ->
    forall r u, r <> p -> h.(spans) !! r = Some u ->
      s.(start) + s.(length_) = u.(start) -> u.(location) <> loc) ->
  wp (leftover ← NewSpan (u64 (s.(start) + n)) (u64 (s.(length_) - n));
      store leftover (set_location loc) ;;
      RecordSpan leftover ;;
      PrependToFreeList free_ leftover ;;
      store p (set_length n) ;;
      pagemap_set (u64 (s.(start) + n - 1)) p)
    (fun _ h' => Inv strict ∅ (e - if decide (loc = ON_RETURNED_FREELIST) then s.(length_) - n else 0) h' /\
       keeps {[p]} h h' /\ h'.(spans) !! p = Some (set_length n s)) h.
Proof.
  intros HI Hp Hl Hsc Hn Hloc Hco.
  pose proof (Inv_ok _ _ _ _ _ _ _ _ HI Hp) as [? ? ? ? ? Hlim Hpg].
  pose proof Hlim as Hlim'. rewrite page_limit_u64 in Hlim'. rewrite !u64_small by lia.
  apply wp_bind, wp_NewSpan; [apply HI|]. intros q w' Hok Htk Hq0 Hqlv Hqs Hlv.
  pose proof (fresh_not_span _ _ _ _ _ HI Hqlv) as Hq. assert (Hpq : p <> q) by congruence.
  apply wp_bind. eapply wp_store; [by simpl; rewrite lookup_insert_eq|].
  set (t := set_location loc (NewSpan_fields (s.(start) + n) (s.(length_) - n))).
  apply wp_bind, wp_RecordSpan with t; simpl; [by rewrite lookup_insert_eq|lia..| |].
  { intros k Hk. apply Hpg. unfold covers in *. simpl in Hk. lia. }
  intros m1 Hget1 Hens1. apply wp_bind.
  match goal with |- wp _ _ ?h0 => assert (h0 = leftover_heap h q t w' m1) as -> end.
  { unfold leftover_heap, upd_pagemap, upd_spans, upd_span_links, upd_world. simpl. f_equal. apply insert_insert_eq. }
  eapply wp_mono; [by apply (wp_Prepend_leftover strict e h p q s t n w' m1)|].
  intros _ h1 (t' & w'' & L' & ln & lr & st' & Heqv & Hw & -> & Hls & HL & F1 & F2 & F3 & F4).
  destruct Heqv as (Et1 & Et2 & Et3 & Et4). destruct Hw as (Hw1 & Hw2 & Hw3).
  apply wp_bind, wp_store with s; [by simpl; rewrite !lookup_insert_ne|].
  apply (wp_pagemap_set ens); simpl. { apply Hens1, Hpg. unfold covers. lia. }
  intros m2 Hget2 Hens2.
  match goal with |- Inv _ _ _ ?h0 /\ _ => set (h' := h0) end.
  assert (HS : h'.(spans) = <[q := t']> (<[p := set_length n s]> h.(spans))).
  { unfold h'. simpl. by rewrite insert_insert_eq, insert_insert_ne. }
  assert (Hfr : forall loc, loc <> IN_USE -> span_free ∅ loc h'.(spans) = span_free ∅ loc (<[q := t']> h.(spans))).
  { intros loc' Hloc'. rewrite HS, insert_insert_ne by done. apply (span_free_store _ _ _ _ s); [by rewrite lookup_insert_ne|].
    right. unfold free_len. by rewrite !decide_False by (simpl; congruence). }
  assert (Hget : forall k, 0 <= k -> pm_get h'.(pagemap_) k =
     if decide (k = s.(start) + n - 1) then p
     else if decide (k = s.(start) + n \/ k = s.(start) + s.(length_) - 1) then q
     else pm_get h.(pagemap_) k).
  { intros k Hk. simpl. rewrite Hget2, Hget1 by done. simpl. repeat case_decide; lia || done. }
  assert (Htk' : taken h.(world) ⊆ taken h'.(world)) by (simpl; by transitivity (taken w')).
  assert (Hk : keeps {[p; q]} h h') by exact (keeps_split strict ∅ e h h' p q s n _ _ HI Hp Hq Hqs Hn HS Hget HL
    Htk' (conj eq_refl (conj eq_refl (conj eq_refl eq_refl))) eq_refl).
  assert (Hfl : (if decide (loc = ON_RETURNED_FREELIST) then s.(length_) - n else 0) =
    free_len ON_RETURNED_FREELIST t') by (unfold free_len; by rewrite Et2, Et3).
  rewrite Hfl. refine (conj _ (conj _ _)); [| |by rewrite lookup_insert_eq].
  - refine (Inv_split strict e h h' p q s (set_length n s) t' n HI Hp Hl Hsc Hn Hq0 Hqlv Hqs _ Hw1 Htk' HS
      eq_refl eq_refl Hsc Hl Et1 Et2 Et4 Hget _ eq_refl eq_refl eq_refl F3 F4 _ _ _ _).
    + simpl. by rewrite Hw2.
    + intros k. simpl. by rewrite Hens2, Hens1.
    + rewrite HS, insert_insert_ne by done. unfold large in Hls |- *. simpl in Hls |- *.
      apply lists_same_free with (<[q := t']> h.(spans)); [exact Hls|].
      intros r u Hu. rewrite !(lookup_insert_Some _ p). split; [by intros [[<- <-]|[_ ?]]|].
      intros Hr. right. split; [|done]. intros <-. rewrite lookup_insert_ne in Hr by done. congruence.
    + rewrite Hfr by done. exact F1.
    + rewrite Hfr by done. exact F2.
    + rewrite Et3. exact Hco.
  - apply keeps_mono with ({[p; q]} ∖ {[q]}); [|apply pair_minus]. apply keeps_drop; [done|congruence|].
    intros u Hu. rewrite HS, lookup_insert_eq in Hu. injection Hu as <-. by rewrite Et3.
Qed.
(** [n] pages at the front of the free span [p], which was [s], came into use. *)
Definition carved (p : Z) (s : Span) (n : Z) (h h' : PageHeap) : Prop :=
  keeps {[p]} h h' /\
  exists s', h'.(spans) !! p = Some s' /\ s'.(start) = s.(start) /\ s'.(length_) = n /\
    s'.(location) = IN_USE /\ s'.(sizeclass) = 0.

Lemma Inv_eq strict D e e' h : e = e' -> Inv strict D e h -> Inv strict D e' h.
Proof. by intros <-. Qed.

(** A detached free span comes into use. *)
Lemma Inv_use strict e h p s :
  Inv strict ({[p]} ∪ ∅) e h -> h.(spans) !! p = Some s -> s.(sizeclass) = 0 ->
  Inv strict ∅ (e + free_len ON_RETURNED_FREELIST s) (upd_spans (<[p := set_location IN_USE s]>) h).
Proof.
  intros HI Hp Hsc. apply Inv_in_use with ({[p]} ∪ ∅).
  - intros q t Hq Hlt. assert (q <> p).
    2: { rewrite elem_of_union, elem_of_singleton. clear -H. tauto. }
    intros ->. simpl in Hq.
    rewrite lookup_insert_eq in Hq. injection Hq as <-. done.
  - rewrite <- (Z.sub_0_r (e + _)).
    apply (Inv_store_detached strict _ e h p s (set_location IN_USE s)); try done.
    apply elem_of_union_l, elem_of_singleton_2. done.
Qed.

Lemma wp_Carve strict h p s n :
  Inv strict ∅ 0 h -> h.(spans) !! p = Some s -> s.(location) <> IN_USE -> 0 < n <= s.(length_) ->
  wp (Carve free_ p n) (fun r h' => r = p /\ Inv strict ∅ 0 h' /\ carved p s n h h') h.
Proof.
  intros HI Hp Hl Hn. pose proof (Inv_length _ _ _ _ _ _ _ _ HI Hp) as Hlen.
  unfold Carve. apply wp_bind, wp_deref with s; [done|].
  apply wp_bind. eapply wp_mono; [by apply (wp_RemoveFromFreeList ens free_ strict ∅ 0 h p s)|].
  intros _ h1 (HI1 & Hk1 & s1 & (E1 & E2 & E3 & E4) & HS1 & _).
  assert (Hp1 : h1.(spans) !! p = Some s1) by (by rewrite HS1, lookup_insert_eq).
  assert (Hsc : s1.(sizeclass) = 0) by (rewrite E4; eapply (free_sizeclass ens free_); [exact HI|done..]).
  apply wp_bind, wp_store with s1; [done|]. set (s2 := set_location IN_USE s1).
  set (h2 := upd_spans _ h1).
  assert (Hp2 : h2.(spans) !! p = Some s2) by (simpl; apply lookup_insert_eq).
  assert (HI2 : Inv strict ∅ (free_len ON_RETURNED_FREELIST s) h2).
  { eapply Inv_eq; [|exact (Inv_use strict 0 h1 p s1 HI1 Hp1 Hsc)]. unfold free_len. by rewrite E2, E3. }
  assert (Hk2 : keeps {[p]} h h2).
  { eapply keeps_trans; [by apply keeps_weaken|]. by eapply keeps_store_x. }
  rewrite i32_small by lia. apply wp_bind.
  assert (Hrest : wp (if s.(length_) - n >? 0 then
      leftover ← NewSpan (u64 (s.(start) + n)) (u64 (s.(length_) - n));
      store leftover (set_location s.(location)) ;; RecordSpan leftover ;;
      PrependToFreeList free_ leftover ;; store p (set_length n) ;;
      pagemap_set (u64 (s.(start) + n - 1)) p else skip)
    (fun _ h3 => Inv strict ∅ (if decide (s.(location) = ON_RETURNED_FREELIST) then n else 0) h3 /\
       keeps {[p]} h h3 /\ h3.(spans) !! p = Some (set_length n s2)) h2).
  { rewrite Z.gtb_ltb. destruct (Z.ltb_spec 0 (s.(length_) - n)).
    - rewrite <- E1, <- E2. change s1.(start) with s2.(start). change s1.(length_) with s2.(length_).
      eapply wp_mono; [apply (wp_carve_leftover strict (free_len ON_RETURNED_FREELIST s) h2 p s2 n s.(location)); try done; simpl; [lia|]|].
      + intros Hc r u Hrp Hr Hadj Hlu. simpl in Hr. rewrite HS1, !lookup_insert_ne in Hr by done.
        rewrite E1, E2 in Hadj. destruct Hc as [Hc|[Hc Hst]].
        * by apply (i_normal _ _ _ _ _ _ HI p r s u); try done; rewrite Hlu.
        * destruct (i_returned _ _ _ _ _ _ HI Hst) as [Hcr _]. by apply (Hcr p r s u); try done; rewrite Hlu.
      + intros _ h3 (HI3 & Hk3 & Hp3). split_and!; [|by eapply keeps_trans|done].
        unfold free_len in HI3. eapply Inv_eq; [|exact HI3]. simpl. rewrite E2. case_decide; lia.
    - apply wp_ret. assert (n = s.(length_)) as -> by lia. split_and!; [done|done|].
      rewrite Hp2. f_equal. unfold s2. rewrite <- E2. by destruct s1. }
  eapply wp_mono; [exact Hrest|]. intros _ h3 (HI3 & Hk3 & Hp3). apply wp_bind.
  assert (Hc3 : carved p s n h h3) by (split; [done|]; by exists (set_length n s2)).
  case_decide.
  - eapply wp_mono; [by apply (wp_CommitSpan ens free_ strict ∅ n h3 p)|]. simpl.
    intros _ h4 (HI4 & Hq4). apply wp_ret. rewrite Z.sub_diag in HI4. split_and!; try done.
    split; [eapply keeps_trans; [done|by apply quiet_keeps]|]. exists (set_length n s2).
    split_and!; try done. by rewrite (q_spans _ _ Hq4).
  - by apply wp_ret.
Qed.

(** ** Searching the free lists *)

(** [r] is a span of [n] pages that was not in use in [h] and is in [h']; no other
    span in use changed. *)
Definition allocated (n r : Z) (h h' : PageHeap) : Prop :=
  keeps {[r]} h h' /\ (forall s, h.(spans) !! r = Some s -> s.(location) <> IN_USE) /\
  exists s', h'.(spans) !! r = Some s' /\ s'.(length_) = n /\ s'.(location) = IN_USE /\ s'.(sizeclass) = 0.

Lemma carved_allocated p s n h h' :
  h.(spans) !! p = Some s -> s.(location) <> IN_USE -> carved p s n h h' -> allocated n p h h'.
Proof.
  intros Hp Hl [Hk (s' & ? & ? & ? & ? & ?)]. split_and!; [done|congruence|by exists s'].
Qed.

Lemma allocated_trans n r h1 h2 h3 : keeps ∅ h1 h2 -> allocated n r h2 h3 -> allocated n r h1 h3.
Proof.
  intros Hk (Hk' & Hr & Hs'). split_and!; [by eapply keeps_trans; [apply keeps_weaken|]| |done].
  intros s Hs Hl. eapply (Hr s); [|done]. by eapply k_span.
Qed.

(** No free span with a length in the range [[lo, hi]]. *)
Definition none_free (lo hi : Z) (h : PageHeap) : Prop :=
  forall p s, h.(spans) !! p = Some s -> s.(location) <> IN_USE -> lo <= s.(length_) <= hi -> False.

Lemma small_first strict h loc i :
  Inv strict ∅ 0 h -> loc <> IN_USE -> 0 <= i < kMaxPages ->
  if DLL_IsEmpty h.(span_links) (free_list free_ loc i)
  then forall p s, h.(spans) !! p = Some s -> s.(location) = loc -> s.(length_) <> i + 1
  else exists s, h.(spans) !! (lnext h.(span_links) (free_list free_ loc i)) = Some s /\
         s.(location) = loc /\ s.(length_) = i + 1.
Proof.
  intros HI Hloc Hi. destruct (i_lists _ _ _ _ _ _ HI loc Hloc) as [Hsm _].
  destruct (Hsm i Hi) as (l & Hd & Hl). rewrite (DLL_IsEmpty_spec _ _ _ Hd).
  destruct Hd as [Hseg _]. apply dseg_ends in Hseg as [-> _]. destruct l as [|x l]; simpl.
  - intros p s Hp Hlo Hlen. apply (not_elem_of_nil p), Hl. by exists s.
  - destruct (proj1 (Hl x) ltac:(by left)) as (s & ? & _ & ? & ?). by exists s.
Qed.

Lemma large_best strict h loc n :
  Inv strict ∅ 0 h -> loc <> IN_USE ->
  match SpanSet_upper_bound (start_of h) n 0 (large h loc) with
  | Some x => exists s, h.(spans) !! spl_span x = Some s /\ s.(location) = loc /\ n <= s.(length_)
  | None => forall p s, h.(spans) !! p = Some s -> s.(location) = loc -> kMaxPages < s.(length_) -> s.(length_) < n
  end.
Proof.
  intros HI Hloc. destruct (i_lists _ _ _ _ _ _ HI loc Hloc) as [_ [Hst Hlg]].
  assert (Hpos : forall y, y ∈ large h loc -> 0 < start_of h (spl_span y)).
  { intros y Hy. apply Hlg in Hy as [(s & Hs & _) _]. unfold start_of. rewrite Hs.
    by destruct (Inv_ok _ _ _ _ _ _ _ _ HI Hs). }
  pose proof (upper_bound_least (start_of h) n _ Hst Hpos) as Hub.
  destruct (SpanSet_upper_bound _ n 0 _) as [x|].
  - destruct Hub as (Hx & Hn & _). apply Hlg in Hx as [(s & Hs & _ & ? & ?) _]. exists s. split_and!; congruence || lia.
  - intros p s Hp Hl Hlen. apply (Hub (mkSPL p s.(length_))), Hlg. split; [by exists s|done].
Qed.

Lemma wp_search_small strict n k : forall st h,
  Inv strict ∅ 0 h -> 0 < n <= st -> Z.of_nat k = Z.max 0 (kMaxPages + 1 - st) ->
  wp (search_small free_ k st n) (fun r h' => Inv strict ∅ 0 h' /\
    match r with
    | Some r => allocated n r h h'
    | None => keeps ∅ h h' /\ free_grows h.(spans) h'.(spans) /\
        (limit_ok n h = true -> h' = h /\ none_free st kMaxPages h)
    end) h.
Proof.
  induction k as [|k IH]; intros st h HI Hn Hk; simpl.
  { apply wp_ret. split_and!; [done|apply keeps_refl|apply free_grows_refl|]. intros _. split; [done|].
    intros p s _ _. lia. }
  apply wp_bind, wp_get.
  pose proof (small_first strict h ON_NORMAL_FREELIST (st - 1) HI ltac:(done) ltac:(lia)) as Hno.
  pose proof (small_first strict h ON_RETURNED_FREELIST (st - 1) HI ltac:(done) ltac:(lia)) as Hre.
  simpl in Hno, Hre. destruct (DLL_IsEmpty h.(span_links) (free_normal free_ (st - 1))); simpl.
  2: { destruct Hno as (s & Hs & Hl & Hlen). apply wp_bind.
    eapply wp_mono; [apply (wp_Carve strict h _ s n HI Hs); [congruence|lia]|].
    intros r h' (-> & HI' & Hc). apply wp_ret. split; [done|]. eapply carved_allocated; [done|congruence|done]. }
  destruct (DLL_IsEmpty h.(span_links) (free_returned free_ (st - 1))) eqn:He; simpl.
  - eapply wp_mono; [apply IH; [done|lia..]|]. intros [r|] h' (HI' & Hpost); split; try done.
    destruct Hpost as (Hk' & Hfg & Hlim). split_and!; try done. intros Hok.
    destruct (Hlim Hok) as [-> Hnone]. split; [done|]. intros p s Hp Hl Hlen.
    destruct (Z.eq_dec s.(length_) (st - 1 + 1)) as [Heq|Hne]; [|by apply (Hnone p s); [..|lia]].
    destruct s.(location) eqn:Hloc; [done|by eapply Hno|by eapply Hre].
  - apply wp_bind. eapply wp_mono; [by apply (wp_EnsureLimit (ens := ens))|].
    intros ok h1 (HI1 & Hk1 & Hfg1 & _ & _ & Hsame). apply wp_bind, wp_get.
    pose proof (small_first strict h1 ON_RETURNED_FREELIST (st - 1) HI1 ltac:(done) ltac:(lia)) as Hre1.
    simpl in Hre1. destruct (DLL_IsEmpty h1.(span_links) (free_returned free_ (st - 1))) eqn:He1.
    2: destruct ok; simpl.
    2: { destruct Hre1 as (s & Hs & Hl & Hlen). apply wp_bind.
      eapply wp_mono; [apply (wp_Carve strict h1 _ s n HI1 Hs); [congruence|lia]|].
      intros r h' (-> & HI' & Hc). apply wp_ret. split; [done|]. eapply allocated_trans; [done|].
      eapply carved_allocated; [done|congruence|done]. }
    all: rewrite ?andb_false_r; eapply wp_mono; [apply IH; [done|lia..]|].
    all: intros [r|] h' (HI' & Hpost); (split; [done|]); [by eapply allocated_trans|].
    all: destruct Hpost as (Hk' & Hfg & Hlim); split_and!;
      [by eapply keeps_trans|by eapply free_grows_trans|].
    all: intros Hok; destruct (Hsame Hok) as [? ->]; congruence.
Qed.

(** What a search for [n] pages among the free spans longer than [lo] returns. *)
Definition search_post (lo n r : Z) (h h' : PageHeap) : Prop :=
  (r <> 0 -> allocated n r h h') /\
  (r = 0 -> keeps ∅ h h' /\ free_grows h.(spans) h'.(spans) /\
     (limit_ok n h = true -> h' = h /\ none_free (Z.max lo n) page_limit h)).

Lemma wp_Carve_search strict lo h h1 p s n :
  Inv strict ∅ 0 h1 -> keeps ∅ h h1 -> h1.(spans) !! p = Some s -> s.(location) <> IN_USE ->
  0 < n <= s.(length_) ->
  wp (Carve free_ p n) (fun r h' => Inv strict ∅ 0 h' /\ search_post lo n r h h') h1.
Proof.
  intros HI Hk Hs Hl Hn. eapply wp_mono; [by apply (wp_Carve strict h1 p s n)|].
  intros r h' (-> & HI' & Hc). destruct (Inv_ok _ _ _ _ _ _ _ _ HI Hs) as [Hp _].
  split; [done|]. split; [|lia]. intros _. eapply allocated_trans; [done|]. by eapply carved_allocated.
Qed.

Lemma wp_AllocLarge_loop strict n fuel : forall h,
  Inv strict ∅ 0 h -> 0 < n -> normal_count h.(spans) < Z.of_nat fuel ->
  wp (AllocLarge_loop free_ fuel n) (fun r h' => Inv strict ∅ 0 h' /\ search_post (kMaxPages + 1) n r h h') h.
Proof.
  induction fuel as [|fuel IH]; intros h HI Hn Hfuel.
  { pose proof (normal_count_size h.(spans)). lia. }
  simpl. apply wp_bind, wp_get.
  pose proof (large_best strict h ON_NORMAL_FREELIST n HI ltac:(done)) as Hno.
  pose proof (large_best strict h ON_RETURNED_FREELIST n HI ltac:(done)) as Hre. simpl in Hno, Hre.
  set (bn := match SpanSet_upper_bound (start_of h) n 0 h.(large_normal_) with Some x => _ | None => 0 end).
  assert (Hbn : bn = 0 /\ SpanSet_upper_bound (start_of h) n 0 h.(large_normal_) = None \/
    0 < bn /\ exists s, h.(spans) !! bn = Some s /\ s.(location) <> IN_USE /\ n <= s.(length_)).
  { unfold bn. destruct (SpanSet_upper_bound _ _ _ h.(large_normal_)) as [x|]; [right|by left].
    destruct Hno as (s & Hs & Hl & Hlen). destruct (Inv_ok _ _ _ _ _ _ _ _ HI Hs) as [? _].
    split; [done|]. exists s. split_and!; congruence || done. }
  apply wp_bind. apply wp_mono with (fun best h' => h' = h /\
    (best = bn \/ exists s, h.(spans) !! best = Some s /\ s.(location) <> IN_USE /\ n <= s.(length_)) /\
    (best = 0 -> SpanSet_upper_bound (start_of h) n 0 h.(large_returned_) = None)).
  { destruct (SpanSet_upper_bound _ _ _ h.(large_returned_)) as [x|]; [|by apply wp_ret; auto].
    destruct Hre as (s & Hs & Hl & Hlen). destruct (Inv_ok _ _ _ _ _ _ _ _ HI Hs) as [? _].
    assert (s.(location) <> IN_USE) by congruence.
    destruct (Z.eqb_spec bn 0) as [Hb|Hb]; [apply wp_ret; split_and!; eauto; lia|].
    destruct Hbn as [[??]|(? & b & Hb' & _)]; [done|].
    apply wp_bind, wp_deref with s; [done|]. apply wp_bind, wp_deref with b; [done|].
    case_if; apply wp_ret; split_and!; eauto; lia. }
  intros best h' (-> & Hbest & Hnone). destruct (Z.eqb_spec best bn) as [->|Hne].
  - destruct (Z.eqb_spec bn 0) as [Hb|Hb].
    + apply wp_ret. destruct Hbn as [[_ Hbn]|[? _]]; [|lia]. split; [done|]. split; [done|].
      intros _. split_and!; [apply keeps_refl|apply free_grows_refl|]. intros _. split; [done|].
      rewrite Hbn in Hno. rewrite Hnone in Hre by done. intros p s Hs Hl Hlen.
      destruct s.(location) eqn:Hloc; [done|..]; [specialize (Hno p s Hs Hloc)|specialize (Hre p s Hs Hloc)]; lia.
    + destruct Hbn as [[? _]|(? & s & Hs & Hl & Hlen)]; [done|].
      apply (wp_Carve_search strict _ h h bn s n); try done; apply keeps_refl.
  - destruct Hbest as [?|(s & Hs & Hl & Hlen)]; [done|]. apply wp_bind.
    unfold wp at 1. rewrite EnsureLimit_false. destruct (limit_ok n h) eqn:Hlim.
    + apply (wp_Carve_search strict _ h h best s n); try done; apply keeps_refl.
    + apply wp_bind. eapply wp_mono; [by apply (wp_EnsureLimit (ens := ens))|].
      intros ok h1 (HI1 & Hk1 & Hfg1 & _ & Hlt & _). destruct ok.
      * specialize (Hlt eq_refl Hlim). eapply wp_mono; [apply IH; [done..|lia]|].
        intros r h' (HI' & Hr & Hr0). split; [done|]. split; [intros Hne0; by eapply allocated_trans; [|auto]|].
        intros H0. destruct (Hr0 H0) as (Hk' & Hfg' & _).
        split_and!; [by eapply keeps_trans|by eapply free_grows_trans|congruence].
      * apply wp_ret. split; [done|]. split; [done|]. intros _. split_and!; [done|done|congruence].
Qed.

Lemma wp_SearchFreeAndLargeLists strict n h :
  Inv strict ∅ 0 h -> 0 < n ->
  wp (SearchFreeAndLargeLists free_ n) (fun r h' => Inv strict ∅ 0 h' /\ search_post n n r h h') h.
Proof.
  intros HI Hn. unfold SearchFreeAndLargeLists. apply wp_bind.
  eapply wp_mono; [apply (wp_search_small strict n _ n h HI); lia|]. intros [r|] h1 (HI1 & Hpost).
  - apply wp_ret. split; [done|]. split; [done|]. destruct Hpost as (_ & _ & s & Hs & _).
    destruct (Inv_ok _ _ _ _ _ _ _ _ HI1 Hs). lia.
  - destruct Hpost as (Hk1 & Hfg1 & Hlim1). unfold AllocLarge. apply wp_bind, wp_get.
    eapply wp_mono; [apply wp_AllocLarge_loop; [done..|]|].
    { pose proof (normal_count_size h1.(spans)). lia. }
    intros r h' (HI' & Hr & Hr0). split; [done|]. split; [intros Hne0; by eapply allocated_trans; [|auto]|].
    intros H0. destruct (Hr0 H0) as (Hk' & Hfg' & Hlim').
    split_and!; [by eapply keeps_trans|by eapply free_grows_trans|].
    intros Hok. destruct (Hlim1 Hok) as [-> Hn1]. destruct (Hlim' Hok) as [-> Hn2]. split; [done|].
    intros p s Hs Hl Hlen. destruct (Z.le_gt_cases s.(length_) kMaxPages).
    + apply (Hn1 p s); try done; lia.
    + apply (Hn2 p s); try done. unfold kMaxPages in *. lia.
Qed.
End Alloc.
