(* ===== verification/PageHeapGrow.v ===== *)
(** Growing the page heap with memory of the system, and [NewLocked]. *)
From S2P Require Import Prelude SizeMap Span PackedCache PageMap SysEnv PageHeap SpanStore.
From S2P Require Import PageHeapInv PageHeapOps PageHeapAlloc.

(** The pages [p .. p + n - 1]. *)
Definition page_set (p n : Z) : gset Z := list_to_set (seqZ p n).

Lemma elem_of_page_set p n k : k ∈ page_set p n <-> p <= k < p + n.
Proof. unfold page_set. rewrite elem_of_list_to_set, elem_of_seqZ. lia. Qed.

Lemma size_page_set p n : 0 <= n -> Z.of_nat (size (page_set p n)) = n.
Proof.
  intros Hn. unfold page_set. rewrite size_list_to_set by apply NoDup_seqZ. rewrite length_seqZ. lia.
Qed.

Section Grow.
Context {W : Type} {E : Env W} {P : PageMap W} {G : EnvGhost W}.
Context {ens : pm_t -> Z -> Prop} {free_ : Z}.
Context {EL : EnvLaws W} {PL : PageMapLaws MetaDataAlloc P ens} {HLay : HeapLayout free_}.

Implicit Types (h : PageHeap) (D : gset Z) (p q : Z) (s t : Span).

Abbreviation Inv := (Inv ens free_).
Abbreviation keeps := (keeps free_).

(** [h'] is [h] with [ask] fresh pages at [p] accounted for, in no span yet. *)
Record grown (p ask : Z) (h h' : PageHeap) : Prop := {
  gr_ask : 0 < ask;
  gr_fresh k : p <= k < p + ask -> (k ∉ taken h.(world)) /\ (k ∈ taken h'.(world));
  gr_spans : h'.(spans) = h.(spans);
  gr_links : h'.(span_links) = h.(span_links);
  gr_normal : h'.(large_normal_) = h.(large_normal_);
  gr_returned : h'.(large_returned_) = h.(large_returned_);
  gr_get k : 0 <= k -> pm_get h'.(pagemap_) k = pm_get h.(pagemap_) k;
  gr_ens k : ens h.(pagemap_) k -> ens h'.(pagemap_) k;
  gr_world : env_step h.(world) h'.(world);
  gr_free : h'.(stats_).(free_bytes) = h.(stats_).(free_bytes);
  gr_unmapped : h'.(stats_).(unmapped_bytes) = h.(stats_).(unmapped_bytes);
  gr_system : h'.(stats_).(system_bytes) = u64 (h.(stats_).(system_bytes) + 8192 * ask);
  gr_committed : h'.(stats_).(committed_bytes) = u64 (h.(stats_).(committed_bytes) + 8192 * ask);
  gr_index : h'.(release_index_) = h.(release_index_);
  gr_config : h'.(smallest_span_size_) = h.(smallest_span_size_) /\
    h'.(aggressive_decommit_) = h.(aggressive_decommit_) /\
    h'.(heap_limit_mb) = h.(heap_limit_mb) /\ h'.(release_rate) = h.(release_rate);
  gr_cache : h'.(pagemap_cache_) = h.(pagemap_cache_)
}.

Lemma grown_keeps strict D e X p ask h h' : Inv strict D e h -> grown p ask h h' -> keeps X h h'.
Proof.
  intros HI []. destruct gr_world0 as (_ & _ & Htk).
  split; rewrite ?gr_spans0, ?gr_links0; auto using links_agree_refl.
  2: { intros k v _. unfold TryGetSizeClass. by rewrite gr_cache0. }
  intros q s k Hq _ _ Hk. apply gr_get0.
  destruct (Inv_ok _ _ _ _ _ _ _ _ HI Hq). unfold covers in Hk. lia.
Qed.

(** The new pages and all others are fewer than 2^31. *)
Lemma grown_total strict D e p ask h h' :
  Inv strict D e h -> grown p ask h h' -> exists lk, lk ⊆ taken h.(world) /\
    (forall q s k, h.(spans) !! q = Some s -> covers s k -> k ∉ lk) /\
    0 <= span_total h.(spans) /\
    span_total h.(spans) + Z.of_nat (size lk) + ask < 2 ^ 31 /\
    h'.(stats_).(system_bytes) = 8192 * (span_total h.(spans) + Z.of_nat (size lk) + ask) /\
    h'.(stats_).(committed_bytes) = u64 (h'.(stats_).(system_bytes) - 8192 * (span_returned h.(spans) + e)).
Proof.
  intros HI []. pose proof HI as []. destruct i_system as (lk & Hlk & Hno & Hsys).
  destruct gr_world0 as (Hok & _ & Htk).
  assert (Hdisj : lk ## page_set p ask).
  { intros k Hk Hp. apply elem_of_page_set in Hp. destruct (gr_fresh0 k Hp) as [Hn _]. by apply Hn, Hlk. }
  assert (Htot : span_total h.(spans) + Z.of_nat (size (lk ∪ page_set p ask)) <= Z.of_nat (size (taken h'.(world)))).
  { apply total_bound; [| |intros q s k Hq Hk|].
    - intros q s Hq. destruct (Inv_ok _ _ _ _ _ _ _ _ HI Hq). lia.
    - apply i_geom.
    - assert (k ∈ taken h.(world)) as Hin by (by apply (Inv_ok _ _ _ _ _ _ _ _ HI Hq)).
      split; [by apply Htk|]. rewrite elem_of_union, elem_of_page_set. intros [?|Hr]; [by eapply Hno|].
      by apply (gr_fresh0 k Hr).
    - apply union_least; [by transitivity (taken h.(world))|]. intros k Hk%elem_of_page_set. by apply gr_fresh0. }
  rewrite size_union in Htot by done. rewrite Nat2Z.inj_add, size_page_set in Htot by lia.
  pose proof (@taken_bound W E G EL _ Hok). pose proof (Inv_total0 _ _ _ _ _ _ HI).
  exists lk. split_and!; try done; try lia.
  - rewrite gr_system0, Hsys, u64_small; lia.
  - rewrite gr_committed0, gr_system0, i_committed, u64_add_l, u64_sub_l. f_equal. lia.
Qed.

(** The invariant while the new pages are in no span: it still holds, they count as
    leaked. *)
Lemma Inv_grown strict D p ask h h' : Inv strict D 0 h -> grown p ask h h' -> Inv strict D 0 h'.
Proof.
  intros HI Hg. destruct (grown_total _ _ _ _ _ _ _ HI Hg) as (lk & Hlk & Hno & Ht0 & Hlt & Hsys & Hcom).
  destruct Hg. pose proof HI as []. destruct gr_world0 as (Hok & Hlv & Htk).
  destruct gr_config0 as (Hc1 & Hc2 & _).
  split; rewrite ?gr_spans0, ?gr_links0, ?gr_free0, ?gr_unmapped0, ?gr_index0, ?Hc1, ?Hc2; try done.
  - apply geom_mono with (get := pm_get h.(pagemap_)) (ens := ens h.(pagemap_))
      (lv := live h.(world)) (tk := taken h.(world)); try done.
    intros q s Hq. rewrite Hlv. by destruct (Inv_ok _ _ _ _ _ _ _ _ HI Hq).
  - intros loc Hloc. specialize (i_lists loc Hloc).
    by destruct loc; unfold large in *; rewrite ?gr_normal0, ?gr_returned0.
  - exists (lk ∪ page_set p ask). split_and!.
    + apply union_least; [by transitivity (taken h.(world))|]. intros k Hk%elem_of_page_set. by apply gr_fresh0.
    + intros q s k Hq Hk. rewrite elem_of_union, elem_of_page_set. intros [?|Hr]; [by eapply Hno|].
      apply (gr_fresh0 k Hr). by apply (Inv_ok _ _ _ _ _ _ _ _ HI Hq).
    + rewrite size_union.
      * rewrite Nat2Z.inj_add, size_page_set by lia. rewrite Hsys. lia.
      * intros k Hk Hp. apply elem_of_page_set in Hp. destruct (gr_fresh0 k Hp) as [Hn _]. by apply Hn, Hlk.
Qed.

Lemma coalesced_insert_used D loc (S : gmap Z Span) q s :
  loc <> IN_USE -> s.(location) = IN_USE -> coalesced D loc S -> coalesced D loc (<[q := s]> S).
Proof.
  intros Hloc Hl Hc a b u v Ha Hb HaD HbD Hadj Hu Hv.
  apply lookup_insert_Some in Ha as [[<- <-]|[_ Ha]]; [congruence|].
  apply lookup_insert_Some in Hb as [[<- <-]|[_ Hb]]; [congruence|]. by apply (Hc a b u v).
Qed.

(** The invariant once a new span in use holds the pages. *)
Lemma Inv_adopt strict p ask h h' q w' m' :
  Inv strict ∅ 0 h -> grown p ask h h' -> 0 < p -> p + ask < page_limit ->
  (forall k, p <= k < p + ask -> ens h'.(pagemap_) k) ->
  env_ok w' -> taken h'.(world) ⊆ taken w' -> 0 < q -> q ∉ live h'.(world) -> ~ static_addr q ->
  live w' = {[q]} ∪ live h'.(world) ->
  (forall k, 0 <= k -> pm_get m' k = if decide (k = p \/ k = p + ask - 1) then q else pm_get h'.(pagemap_) k) ->
  (forall k, ens m' k <-> ens h'.(pagemap_) k) ->
  let h'' := upd_pagemap (fun _ => m') (upd_span_links (<[q := mkLink 0 0]>)
    (upd_spans (<[q := NewSpan_fields p ask]>) (upd_world (fun _ => w') h'))) in
  Inv strict ∅ 0 h'' /\ keeps {[q]} h h'' /\ h.(spans) !! q = None.
Proof.
  intros HI Hg Hp Hlim Hens Hok' Htk' Hq0 Hqlv Hqs Hlv' Hget' Hens' h''.
  pose proof (Inv_grown _ _ _ _ _ _ HI Hg) as HI'. pose proof HI' as [].
  assert (Hq : h'.(spans) !! q = None) by (by eapply fresh_not_span).
  destruct (grown_total _ _ _ _ _ _ _ HI Hg) as (lk & Hlk & Hno & Ht0 & Hlt & Hsys & Hcom).
  assert (Hnew : forall r u k, h'.(spans) !! r = Some u -> covers u k -> ~ p <= k < p + ask).
  { intros r u k Hr Hk Hin. rewrite (gr_spans _ _ _ _ Hg) in Hr.
    apply (gr_fresh _ _ _ _ Hg k Hin). by apply (Inv_ok _ _ _ _ _ _ _ _ HI Hr). }
  pose proof (gr_ask _ _ _ _ Hg) as Hask. split_and!.
  - split; simpl; try done.
    + eapply geom_new; [exact i_geom|done|..]; try done.
      * split; simpl; try done; [set_solver|]. unfold covers. simpl. intros k Hk. split.
        -- by apply Htk', (gr_fresh _ _ _ _ Hg).
        -- by apply Hens', Hens.
      * intros r u Hr. rewrite Hlv'. destruct (Inv_ok _ _ _ _ _ _ _ _ HI' Hr). set_solver.
      * intros k Hk. by apply Hens'.
    + apply lists_same_free with h'.(spans).
      * eapply (lists_new_link _ static_addr (layout_static free_)); [exact i_lists|done..].
      * intros r u Hu. rewrite lookup_insert_Some. split; [by intros [[<- <-]|[_ ?]]|].
        intros Hr. right. split; [congruence|done].
    + by rewrite span_free_insert by (done || (right; done)).
    + by rewrite span_free_insert by (done || (right; done)).
    + exists lk. rewrite (gr_spans _ _ _ _ Hg) in *. split_and!.
      * transitivity (taken h.(world)); [done|]. transitivity (taken h'.(world)); [|done]. apply Hg.
      * intros r u k [[<- <-]|[_ Hr]]%lookup_insert_Some Hk; [|by eapply Hno].
        intros Hin. by apply (gr_fresh _ _ _ _ Hg k Hk), Hlk.
      * rewrite span_total_insert by done. simpl. rewrite Hsys. lia.
    + rewrite span_returned_insert by done. done.
    + eapply coalesced_insert_used; done.
    + intros Hst. destruct (i_returned Hst). split; [|done]. eapply coalesced_insert_used; done.
  - eapply keeps_trans; [by eapply grown_keeps|]. split; simpl; try done.
    + intros r u Hr Hu Hne. rewrite lookup_insert_ne; [done|set_solver].
    + intros r u Hr Hu Hne. rewrite lookup_insert_ne in Hr; [done|set_solver].
    + intros r u k Hr _ _ Hk. destruct (Inv_ok _ _ _ _ _ _ _ _ HI' Hr).
      pose proof (Hnew r u k Hr Hk). rewrite Hget' by (unfold covers in Hk; lia).
      rewrite decide_False by lia. done.
    + intros r u Hr _ _. unfold links_agree, lnext, lprev. rewrite lookup_insert_ne; [done|congruence].
    + intros a Ha _. unfold links_agree, lnext, lprev. rewrite lookup_insert_ne; [done|]. by intros ->.
  - by rewrite <- (gr_spans _ _ _ _ Hg).
Qed.

(** ** [GrowHeap] *)

Lemma quiet_world h w' : env_step h.(world) w' -> quiet h (upd_world (fun _ => w') h).
Proof. by split. Qed.

Lemma MetaDataAlloc_keeps w : alloc_keeps MetaDataAlloc (env_step w).
Proof.
  intros sz w1 Hsz Hw1. destruct (MetaDataAlloc_ok _ sz w1) as (p & w2 & Heq & Hw2); [apply Hw1|done|].
  exists p, w2. split; [done|]. by eapply env_step_trans.
Qed.

(** The state after asking the system for [ask] pages: [h1] before the call, [w']
    the surroundings after it. *)
Definition asked (ask : Z) (h : PageHeap) (r : Z * Z) (h1 : PageHeap) (w' : W) : Prop :=
  keeps ∅ h h1 /\ free_grows h.(spans) h1.(spans) /\ env_step h1.(world) w' /\
  (r.1 = 0 \/ 8192 * ask <= r.2 /\ region_fresh h1.(world) w' r.1 r.2).

Lemma wp_grow_alloc strict ask h :
  Inv strict ∅ 0 h -> 0 < ask <= kMaxValidPages ->
  wp (grow_alloc free_ ask) (fun r h' => exists h1 w', Inv strict ∅ 0 h1 /\
    h' = upd_world (fun _ => w') h1 /\ asked ask h r h1 w') h.
Proof.
  intros HI Hask. change kMaxValidPages with (2 ^ 51 - 1) in Hask. unfold grow_alloc. apply wp_bind.
  eapply wp_mono; [by apply (wp_EnsureLimit (ens := ens))|].
  intros ok h1 (HI1 & Hk1 & Hfg1 & _). destruct ok.
  - rewrite bytes_of_eq by lia.
    destruct (SystemAlloc_ok _ (8192 * ask) h1.(world)) as (ptr & actual & w' & Heq & Hw & Hr);
      [apply HI1|lia|].
    eapply wp_call; [exact Heq|]. exists h1, w'. by split_and!.
  - apply wp_ret. exists h1, h1.(world). split_and!; [done|by destruct h1|].
    split_and!; try done; [apply env_step_refl, HI1|by left].
Qed.

(** Asking a second time, for fewer pages. *)
Lemma wp_grow_alloc_again strict ask n h ptr actual h1 w1 :
  Inv strict ∅ 0 h1 -> asked ask h (ptr, actual) h1 w1 -> 0 < n <= ask -> ask <= kMaxValidPages ->
  wp (if (ptr =? 0) && (n <? ask) then grow_alloc free_ n else mret (ptr, actual))
    (fun r h' => exists h2 w', Inv strict ∅ 0 h2 /\
      h' = upd_world (fun _ => w') h2 /\ asked n h r h2 w') (upd_world (fun _ => w1) h1).
Proof.
  intros HI1 (Hk1 & Hfg1 & Hw1 & Hr1) Hn Hmax. case_if.
  - set (h1' := upd_world (fun _ => w1) h1). pose proof (quiet_world h1 w1 Hw1) as Hq.
    eapply wp_mono; [apply (wp_grow_alloc strict n h1')|]; [|lia|].
    { eapply (quiet_Inv ens free_); [exact Hq| |exact HI1]. apply HI1. }
    intros r h' (h2 & w' & HI2 & -> & Hk2 & Hfg2 & Hw2 & Hr2). exists h2, w'. split_and!; try done.
    split_and!; try done; [|by eapply free_grows_trans].
    eapply keeps_trans; [done|]. eapply keeps_trans; [by apply quiet_keeps|done].
  - apply wp_ret. exists h1, w1. split_and!; try done. split_and!; try done.
    destruct Hr1 as [?|[? ?]]; [by left|right]. split; [|done]. simpl in *. lia.
Qed.

(** The stats after [GrowHeap] obtained [ask] pages. *)
Lemma grown_stats p ask h w1 w' m' g :
  0 < ask < 2 ^ 35 -> env_step h.(world) w1 -> env_step w1 w' ->
  (forall k, p <= k < p + ask -> (k ∉ taken h.(world)) /\ (k ∈ taken w1)) ->
  (forall k, 0 <= k -> pm_get m' k = pm_get h.(pagemap_) k) ->
  (forall k, ens h.(pagemap_) k -> ens m' k) ->
  grown p ask h
    (upd_world (fun _ => w') (upd_pagemap (fun _ => m') (upd_stats (fun c : Stats =>
        mkStats (u64 (c.(system_bytes) + bytes_of ask)) c.(free_bytes) c.(unmapped_bytes)
          (u64 (c.(committed_bytes) + bytes_of ask)) c.(scavenge_count)
          (u64 (c.(commit_count) + 1)) (u64 (c.(total_commit_bytes) + bytes_of ask))
          c.(decommit_count) c.(total_decommit_bytes)
          (u64 (c.(reserve_count) + 1)) (u64 (c.(total_reserve_bytes) + bytes_of ask)))
      (upd_grown_by g h)))).
Proof.
  intros Hask Hw1 Hw' Hfr Hget Hens. split; simpl; try done; try lia.
  - intros k Hk. destruct (Hfr k Hk) as [? Hin]. split; [done|]. by apply Hw'.
  - by eapply env_step_trans.
  - rewrite bytes_of_eq by lia. done.
  - rewrite bytes_of_eq by lia. done.
Qed.

(** A free span of at least [n] pages. *)
Definition has_free (n : Z) (h : PageHeap) : Prop :=
  exists p s, h.(spans) !! p = Some s /\ s.(location) <> IN_USE /\ n <= s.(length_).

(** The new pages become a span, which is deleted at once. *)
Lemma wp_grow_span strict p ask h h' :
  Inv strict ∅ 0 h -> grown p ask h h' -> 0 < p -> p + ask < page_limit ->
  (forall k, p <= k < p + ask -> ens h'.(pagemap_) k) ->
  wp (span ← NewSpan p ask; RecordSpan span ;; DeleteLocked free_ span ;; mret true)
    (fun b h2 => b = true /\ Inv strict ∅ 0 h2 /\ keeps ∅ h h2 /\
       free_grows h.(spans) h2.(spans) /\ has_free ask h2) h'.
Proof.
  intros HI Hg Hp Hlim Hens. pose proof (Inv_grown _ _ _ _ _ _ HI Hg) as HI'.
  pose proof (gr_ask _ _ _ _ Hg) as Hask.
  apply wp_bind, wp_NewSpan; [apply HI'|]. intros q w' Hok Htk Hq0 Hqlv Hqs Hlv.
  apply wp_bind, wp_RecordSpan with (NewSpan_fields p ask); simpl; [by rewrite lookup_insert_eq|done..|].
  intros m' Hget' Hens'. apply wp_bind.
  destruct (Inv_adopt strict p ask h h' q w' m') as (HI2 & Hk2 & Hq); try done.
  match type of HI2 with Inv _ _ _ ?x => set (h2 := x) in * end.
  eapply wp_mono; [apply (wp_DeleteLocked strict h2 q (NewSpan_fields p ask) HI2); [|done]|].
  { simpl. apply lookup_insert_eq. }
  intros _ h3 (HI3 & Hk3 & Hfg3 & Hno3 & r & t & Hr & Hl & Hc). apply wp_ret. split_and!; try done.
  - apply keeps_mono with ({[q]} ∖ {[q]}); [|by rewrite difference_diag_L].
    apply keeps_drop; [by eapply keeps_trans|congruence|done].
  - eapply free_grows_trans; [|exact Hfg3]. simpl. rewrite (gr_spans _ _ _ _ Hg).
    intros a u Ha Hu. exists a, u. rewrite lookup_insert_ne by congruence. done.
  - exists r, t. split_and!; try done. unfold covers in Hc. simpl in Hc.
    pose proof (Hc p ltac:(lia)). pose proof (Hc (p + ask - 1) ltac:(lia)). lia.
Qed.

Lemma wp_GrowHeap strict n h :
  Inv strict ∅ 0 h -> 0 < n ->
  wp (GrowHeap free_ n) (fun b h' => Inv strict ∅ 0 h' /\ keeps ∅ h h' /\
    free_grows h.(spans) h'.(spans) /\ (b = true -> has_free n h')) h.
Proof.
  intros HI Hn. unfold GrowHeap. rewrite Z.gtb_ltb.
  destruct (Z.ltb_spec kMaxValidPages n) as [Hbig|Hmax].
  { apply wp_ret. split_and!; first [done|apply keeps_refl|apply free_grows_refl]. }
  set (ask := if n >? kMinSystemAlloc then n else kMinSystemAlloc).
  assert (Hask : n <= ask <= kMaxValidPages).
  { unfold ask. change kMaxValidPages with 2251799813685247 in *. change kMinSystemAlloc with 128.
    rewrite Z.gtb_ltb. destruct (Z.ltb_spec 128 n); lia. }
  cbv zeta. apply wp_bind. eapply wp_mono; [apply (wp_grow_alloc strict ask h HI); lia|].
  intros [ptr0 actual0] h0 (h1 & w1 & HI1 & -> & Ha1). apply wp_bind.
  eapply wp_mono; [apply (wp_grow_alloc_again strict ask n h ptr0 actual0 h1 w1 HI1 Ha1); lia|].
  clear h1 w1 HI1 Ha1. intros [ptr actual] h0' (h1 & w1 & HI1 & -> & Hk1 & Hfg1 & Hw1 & Hr1).
  simpl in Hr1. destruct (Z.eqb_spec ptr 0) as [->|Hptr].
  { apply wp_ret. split_and!; try done; [|eapply keeps_trans; [done|]; by apply quiet_keeps, quiet_world].
    eapply (quiet_Inv ens free_); [by apply quiet_world| |exact HI1]. apply HI1. }
  destruct Hr1 as [?|(Hact & Hp0 & Hpa & Hpl & Hfr)]; [done|].
  clearbody ask. clear Hask ask. set (ask := Z.shiftr actual kPageShift).
  set (p := Z.shiftr ptr kPageShift).
  assert (Hpe : p = ptr / 8192 /\ ptr = 8192 * p).
  { unfold p. rewrite Z.shiftr_div_pow2 by done. change (2 ^ kPageShift) with 8192.
    change kPageSize with 8192 in Hpa. pose proof (Z.div_mod ptr 8192). lia. }
  assert (Hae : ask = actual / 8192) by (unfold ask; by rewrite Z.shiftr_div_pow2).
  assert (Hask : n <= ask) by (rewrite Hae; apply Z.div_le_lower_bound; lia).
  assert (Hrange : 8192 * (p + ask) <= 2 ^ 48).
  { pose proof (Z.mul_div_le actual 8192 ltac:(lia)). change kAddressBits with 48 in Hpl. lia. }
  assert (Hfresh : forall k, p <= k < p + ask -> (k ∉ taken h1.(world)) /\ (k ∈ taken w1)).
  { intros k Hk. apply Hfr. change kPageSize with 8192. rewrite <- Hae, <- (proj1 Hpe). done. }
  apply wp_bind, wp_modify, wp_bind, wp_get. cbv zeta. apply wp_bind, wp_modify, wp_bind, wp_get.
  apply wp_bind. set (hs := upd_stats _ _).
  apply wp_mono with (fun _ h' => exists m' w', h' = upd_world (fun _ => w') (upd_pagemap (fun _ => m') hs) /\
    (forall k, 0 <= k -> pm_get m' k = pm_get h1.(pagemap_) k) /\
    (forall k, ens h1.(pagemap_) k -> ens m' k) /\ env_step w1 w').
  { case_if.
    - destruct (pm_Preallocate_ok _ (env_step w1) hs.(pagemap_) hs.(world)) as (m' & w' & Heq & Hget & Hens & Hw');
        [apply MetaDataAlloc_keeps|apply env_step_refl, Hw1|].
      apply wp_bind. eapply wp_call; [exact Heq|]. apply wp_modify. by exists m', w'.
    - apply wp_ret. exists h1.(pagemap_), w1. split_and!; try done. apply env_step_refl, Hw1. }
  intros _ h' (m1 & w2 & -> & Hget1 & Hens1 & Hw2). apply wp_bind, wp_get, wp_bind.
  assert (Hbits : pm_bits = 35) by exact (@layout_bits _ _ _ free_ HLay).
  destruct (pm_Ensure_ok _ (env_step w1) m1 w2 (p - 1) (ask + 2)) as (b & m2 & w3 & Heq & Hb & Hget2 & Hens2 & Hw3);
    [apply MetaDataAlloc_keeps|done|rewrite Hbits; lia|lia|].
  eapply wp_call; [simpl; rewrite !u64_small by lia; exact Heq|]. apply wp_bind, wp_modify.
  set (h2 := upd_pagemap _ _).
  assert (Hg : grown p ask h1 h2).
  { apply (grown_stats p ask h1 w1 w3 m2 (fun g => u64 (g + bytes_of ask))); try done; [lia|..].
    - intros k Hk. by rewrite Hget2, Hget1.
    - intros k Hk. by apply Hens2, Hens1. }
  assert (Hpm : h2.(pagemap_) = m2) by done. clearbody h2. destruct b.
  - destruct (Hb eq_refl) as [Hlim Hall]. rewrite Hbits in Hlim.
    eapply wp_mono; [apply (wp_grow_span strict p ask h1 h2 HI1 Hg)|].
    + lia.
    + rewrite page_limit_u64. lia.
    + intros k Hk. rewrite Hpm. apply Hall. lia.
    + intros _ h3 (-> & HI3 & Hk3 & Hfg3 & q & t & Hq & Hl & Hlen). split_and!; try done.
      * by eapply keeps_trans.
      * by eapply free_grows_trans.
      * intros _. exists q, t. split_and!; try done. lia.
  - apply wp_ret. split_and!; [by eapply Inv_grown| |by rewrite (gr_spans _ _ _ _ Hg)|done].
    eapply keeps_trans; [done|]. by eapply grown_keeps.
Qed.
End Grow.
