(* ===== verification/PageHeapNew.v ===== *)
(** [NewLocked] and the public allocation functions of the page heap. *)
From S2P Require Import Prelude SizeMap Span PackedCache PageMap SysEnv PageHeap SpanStore.
From S2P Require Import PageHeapInv PageHeapOps PageHeapAlloc PageHeapGrow.

(** ** Rounding *)

Section RoundUp.
Context {W : Type} {P : PageMap W}.

(** [RoundUpSize] rounds up to a multiple of [smallest_span_size_], and to the
    largest 64-bit multiple when the next one does not fit. *)
Lemma RoundUpSize_min (h : PageHeap) k n :
  h.(smallest_span_size_) = 2 ^ k -> 0 <= k < 51 -> 0 < n < 2 ^ 64 ->
  RoundUpSize h n = Z.min ((n + 2 ^ k - 1) / 2 ^ k * 2 ^ k) (2 ^ 64 - 2 ^ k).
Proof.
  intros Hs Hk Hn. assert (0 < 2 ^ k) by (apply Z.pow_pos_nonneg; lia).
  assert (Hle : 2 ^ k <= 2 ^ 51) by (apply Z.pow_le_mono_r; lia).
  assert (H64 : 2 ^ 64 = 2 ^ (64 - k) * 2 ^ k) by (rewrite <- Z.pow_add_r by lia; f_equal; lia).
  unfold RoundUpSize. rewrite Hs. cbv zeta. rewrite !land_high_mask by (apply u64_range || lia).
  set (b := 2 ^ k) in *. set (c := 2 ^ (64 - k)) in *.
  replace ((2 ^ 64 - 1) / b * b) with (2 ^ 64 - b).
  2: { replace (2 ^ 64 - 1) with ((c - 1) * b + (b - 1)) by lia.
       rewrite Z.div_add_l, (Z.div_small (b - 1)) by lia. lia. }
  pose proof (Z.div_mod (n + b - 1) b ltac:(lia)). pose proof (Z.mod_pos_bound (n + b - 1) b ltac:(lia)).
  destruct (Z.lt_ge_cases (n + b - 1) (2 ^ 64)) as [Hlt|Hge].
  - rewrite u64_small by lia. destruct (Z.ltb_spec ((n + b - 1) / b * b) n); [lia|].
    assert ((n + b - 1) / b < c); [|nia]. apply Z.div_lt_upper_bound; lia.
  - assert (Hu : u64 (n + b - 1) = n + b - 1 - 2 ^ 64).
    { rewrite <- (u64_small (n + b - 1 - 2 ^ 64)) by lia. apply u64_eq. exists 1. lia. }
    rewrite Hu. rewrite (Z.div_small (n + b - 1 - 2 ^ 64)) by lia.
    destruct (Z.ltb_spec (0 * b) n); [|lia].
    assert (c <= (n + b - 1) / b); [|nia]. apply Z.div_le_lower_bound; lia.
Qed.
End RoundUp.

(** ** The skip loop of [NewAligned] *)

Lemma aligned_test x a : 0 <= x < 2 ^ 36 -> 0 <= a < 31 ->
  Z.land (bytes_of (u64 x)) (u64 (bytes_of (2 ^ a) - 1)) = 8192 * (x mod 2 ^ a).
Proof.
  intros Hx Ha. assert (0 < 2 ^ a <= 2 ^ 31) by (split; [apply Z.pow_pos_nonneg|apply Z.pow_le_mono_r]; lia).
  rewrite u64_small, !bytes_of_eq, u64_small by lia.
  replace (8192 * 2 ^ a - 1) with (Z.ones (13 + a)) by (rewrite Z.ones_equiv, Z.pow_add_r by lia; lia).
  rewrite Z.land_ones, Z.pow_add_r by lia. apply Z.mul_mod_distr_l; lia.
Qed.

(** The loop stops at the distance to the next multiple of [2 ^ a]. *)
Lemma skip_loop_spec st a fuel : forall k,
  0 <= st < 2 ^ 35 -> 0 <= a < 31 -> 0 <= k <= (- st) mod 2 ^ a -> (- st) mod 2 ^ a - k < Z.of_nat fuel ->
  skip_loop fuel st (bytes_of (2 ^ a)) k = Ok ((- st) mod 2 ^ a).
Proof.
  assert (Hcong : forall b x y, 0 < b -> (x + y) mod b = 0 -> 0 <= y < b -> (- x) mod b = y).
  { intros b x y Hb Hxy Hy. apply Z.mod_divide in Hxy as [c Hc]; [|lia].
    symmetry. apply (Z.mod_unique _ _ (- c)); [lia|nia]. }
  induction fuel as [|fuel IH]; intros k Hst Ha Hk Hfuel; [lia|]. simpl.
  assert (0 < 2 ^ a <= 2 ^ 31) by (split; [apply Z.pow_pos_nonneg|apply Z.pow_le_mono_r]; lia).
  pose proof (Z.mod_pos_bound (- st) (2 ^ a) ltac:(lia)) as Hd.
  rewrite aligned_test by lia. destruct (Z.eqb_spec (8192 * ((st + k) mod 2 ^ a)) 0) as [H0|Hne]; simpl.
  - f_equal. symmetry. apply Hcong; lia.
  - apply IH; [done..| |lia]. split; [lia|].
    destruct (Z.eq_dec k ((- st) mod 2 ^ a)) as [->|]; [|lia]. exfalso. apply Hne.
    rewrite Z.add_mod_idemp_r by lia. replace (st + - st) with 0 by lia. by rewrite Z.mod_0_l by lia.
Qed.

Section New.
Context {W : Type} {E : Env W} {P : PageMap W} {G : EnvGhost W}.
Context {ens : pm_t -> Z -> Prop} {free_ : Z}.
Context {EL : EnvLaws W} {PL : PageMapLaws MetaDataAlloc P ens} {HLay : HeapLayout free_}.

Implicit Types (h : PageHeap) (D : gset Z) (p q : Z) (s t : Span).

Abbreviation Inv := (Inv ens free_).
Abbreviation keeps := (keeps free_).
Abbreviation allocated := (allocated (free_ := free_)).

(** A change of fields the invariant does not mention. *)
Lemma quiet_same strict D e h h' :
  quiet h h' -> h'.(stats_).(committed_bytes) = h.(stats_).(committed_bytes) ->
  Inv strict D e h -> Inv strict D e h'.
Proof. intros Hq Hc HI. eapply (quiet_Inv ens free_); [exact Hq| |exact HI]. rewrite Hc. apply HI. Qed.

Lemma RoundUpSize_pos strict D e h n :
  Inv strict D e h -> 0 < n < 2 ^ 64 -> 0 < RoundUpSize h n < 2 ^ 64.
Proof.
  intros HI Hn. destruct (i_round _ _ _ _ _ _ HI) as (k & Hk & Hs).
  rewrite (RoundUpSize_min h k n) by done.
  assert (0 < 2 ^ k <= 2 ^ 51) by (split; [apply Z.pow_pos_nonneg|apply Z.pow_le_mono_r]; lia).
  pose proof (Z.div_mod (n + 2 ^ k - 1) (2 ^ k) ltac:(lia)).
  pose proof (Z.mod_pos_bound (n + 2 ^ k - 1) (2 ^ k) ltac:(lia)). lia.
Qed.

(** ** [NewLocked] *)

(** What an allocation of [n] pages in [h] leaves: [r], or null. *)
Definition new_post (n r : Z) (h h' : PageHeap) : Prop :=
  (r <> 0 -> allocated n r h h') /\
  (r = 0 -> keeps ∅ h h' /\ (limit_pages h = 0 -> h'.(errno) = ENOMEM) /\
     (limit_ok n h = true -> none_free n page_limit h)).

Lemma limit_pages_keeps X h h' : keeps X h h' -> limit_pages h' = limit_pages h.
Proof. intros Hk. destruct (k_config _ _ _ _ Hk) as (_ & _ & Hl & _). unfold limit_pages. by rewrite Hl. Qed.

Lemma no_limit_ok n h : limit_pages h = 0 -> limit_ok n h = true.
Proof. intros Hl. unfold limit_ok. by rewrite Hl. Qed.

Lemma wp_grow_search strict n h h1 :
  Inv strict ∅ 0 h1 -> keeps ∅ h h1 -> 0 < n -> (limit_ok n h = true -> none_free n page_limit h) ->
  wp (grown ← GrowHeap free_ n;
      if negb grown then modify (upd_errno (fun _ => ENOMEM)) ;; mret 0
      else SearchFreeAndLargeLists free_ n)
    (fun r h' => Inv strict ∅ 0 h' /\ new_post n r h h') h1.
Proof.
  intros HI1 Hk1 Hn Hfirst. apply wp_bind. eapply wp_mono; [by apply (wp_GrowHeap strict n h1)|].
  intros b h2 (HI2 & Hk2 & _ & Hb). assert (Hk : keeps ∅ h h2) by (by eapply keeps_trans). destruct b; simpl.
  - eapply wp_mono; [by apply (wp_SearchFreeAndLargeLists strict n h2)|].
    intros r h3 (HI3 & Hr & Hr0). split; [done|]. split.
    + intros Hne. eapply allocated_trans; [exact Hk|auto].
    + intros H0. destruct (Hr0 H0) as (Hk3 & _ & Hfull). split_and!; [by eapply keeps_trans| |done].
      intros Hl. rewrite <- (limit_pages_keeps _ _ _ Hk) in Hl.
      destruct (Hfull (no_limit_ok _ _ Hl)) as [_ Hnone]. destruct (Hb eq_refl) as (q & t & Hq & Hlt & Hlen).
      destruct (Hnone q t Hq Hlt). destruct (Inv_ok _ _ _ _ _ _ _ _ HI2 Hq). lia.
  - apply wp_bind, wp_modify, wp_ret.
    assert (Hq : quiet h2 (upd_errno (fun _ => ENOMEM) h2)) by (split; try done; apply env_step_refl, HI2).
    split; [by eapply quiet_same|]. split; [done|]. intros _. split_and!; [|done..].
    eapply keeps_trans; [done|by apply quiet_keeps].
Qed.

Lemma wp_NewLocked strict n h :
  Inv strict ∅ 0 h -> 0 < n < 2 ^ 64 ->
  wp (NewLocked free_ n) (fun r h' => Inv strict ∅ 0 h' /\ new_post (RoundUpSize h n) r h h') h.
Proof.
  intros HI Hn. unfold NewLocked. apply wp_bind, wp_get. cbv zeta.
  pose proof (RoundUpSize_pos _ _ _ _ _ HI Hn) as Hr. set (m := RoundUpSize h n) in *.
  apply wp_bind. eapply wp_mono; [apply (wp_SearchFreeAndLargeLists strict m h HI); lia|].
  intros r1 h1 (HI1 & Hr1 & Hr10). destruct (Z.eqb_spec r1 0) as [->|Hne]; cbn [negb].
  2: { apply wp_ret. split; [done|]. split; [auto|done]. }
  destruct (Hr10 eq_refl) as (Hk1 & _ & Hfull). rewrite Z.max_id in Hfull. apply wp_bind, wp_get. cbv zeta. apply wp_bind.
  apply wp_mono with (fun r h' => Inv strict ∅ 0 h' /\ (r <> 0 -> allocated m r h h') /\ (r = 0 -> keeps ∅ h h')).
  { case_if; [|by apply wp_ret].
    apply wp_bind. eapply wp_mono; [by apply (wp_ReleaseAtLeastNPages strict _ h1)|].
    intros _ h2 (HI2 & Hk2 & _). eapply wp_mono; [apply (wp_SearchFreeAndLargeLists strict m h2 HI2); lia|].
    intros r h3 (HI3 & Hr3 & Hr30). assert (Hk : keeps ∅ h h2) by (by eapply keeps_trans).
    split_and!; [done| |].
    - intros Hne. eapply allocated_trans; [exact Hk|auto].
    - intros H0. destruct (Hr30 H0) as (Hk3 & _). by eapply keeps_trans. }
  intros r h2 (HI2 & Hr2 & Hr20). destruct (Z.eqb_spec r 0) as [->|Hne]; cbn [negb].
  - apply wp_grow_search; [done|by apply Hr20|lia|by apply Hfull].
  - apply wp_ret. split; [done|]. split; [auto|done].
Qed.

Lemma wp_HandleUnlock strict e h Q :
  Inv strict ∅ e h ->
  (forall h', Inv strict ∅ e h' -> quiet h h' -> h'.(pagemap_cache_) = h.(pagemap_cache_) ->
     h'.(errno) = h.(errno) -> Q tt h') ->
  wp HandleUnlock Q h.
Proof.
  intros HI HQ. unfold HandleUnlock. apply wp_bind, wp_get. case_if.
  - apply wp_bind. destruct (stacktrace_New_ok _ h.(world)) as [Hoom|(q & w' & Hnew & Hw)];
      [apply HI|by apply wp_call_oom|]. eapply wp_call; [exact Hnew|]. apply wp_modify.
    match goal with |- Q tt ?h' => assert (quiet h h') by (by split) end. apply HQ; try done. by eapply quiet_same.
  - apply wp_ret, HQ; try done. split; try done. apply env_step_refl, HI.
Qed.

(** ** Size classes *)

Lemma wp_register_pages k p st : forall i h Q,
  0 < st -> 0 <= i -> st + i + Z.of_nat k < 2 ^ 64 ->
  (forall j, st + i <= j < st + i + Z.of_nat k -> ens h.(pagemap_) j) ->
  (forall m', (forall j, 0 <= j -> pm_get m' j =
       if decide (st + i <= j < st + i + Z.of_nat k) then p else pm_get h.(pagemap_) j) ->
     (forall j, ens m' j <-> ens h.(pagemap_) j) -> Q tt (upd_pagemap (fun _ => m') h)) ->
  wp (register_pages k p st i) Q h.
Proof.
  induction k as [|k IH]; intros i h Q Hst Hi Hlim Hens HQ; simpl.
  - apply wp_ret. replace h with (upd_pagemap (fun _ => h.(pagemap_)) h) at 1 by (by destruct h).
    apply HQ; [|done]. intros j _. rewrite decide_False by lia. done.
  - rewrite u64_small by lia. apply wp_bind, (wp_pagemap_set ens); [apply Hens; lia|].
    intros m1 Hget1 Hens1. apply IH; [lia..| |].
    + simpl. intros j Hj. apply Hens1, Hens. lia.
    + intros m2 Hget2 Hens2. simpl in Hget2, Hens2. apply (HQ m2).
      * intros j Hj. rewrite Hget2, Hget1 by done. repeat case_decide; lia || done.
      * intros j. by rewrite Hens2, Hens1.
Qed.

(** A change of a span in use and of the page map on its pages. *)
Lemma Inv_register strict e h p s s' m' :
  Inv strict ∅ e h -> h.(spans) !! p = Some s -> s.(location) = IN_USE -> s'.(location) = IN_USE ->
  s'.(start) = s.(start) -> s'.(length_) = s.(length_) ->
  (forall k, covers s k -> pm_get m' k = p) ->
  (forall k, 0 <= k -> ~ covers s k -> pm_get m' k = pm_get h.(pagemap_) k) ->
  (forall k, ens m' k <-> ens h.(pagemap_) k) ->
  let h' := upd_pagemap (fun _ => m') (upd_spans (<[p := s']>) h) in
  Inv strict ∅ e h' /\ keeps {[p]} h h'.
Proof.
  intros HI Hp Hl Hl' Hst Hln Hall Hget Hens h'. pose proof HI as [].
  assert (HS : forall r u, u.(location) <> IN_USE -> <[p := s']> h.(spans) !! r = Some u <-> h.(spans) !! r = Some u).
  { intros r u Hu. rewrite lookup_insert_Some. split; [by intros [[<- <-]|[_ ?]]|].
    intros Hr. right. split; [congruence|done]. }
  assert (Hco : forall loc, loc <> IN_USE -> coalesced ∅ loc h.(spans) -> coalesced ∅ loc (<[p := s']> h.(spans))).
  { intros loc Hloc Hc a b u v Ha Hb HaD HbD Hadj Hu Hv. apply HS in Ha; [|congruence]. apply HS in Hb; [|congruence].
    by apply (Hc a b u v). }
  split; [split; simpl; try done|split; simpl; try done].
  - apply geom_mono with (get := pm_get m') (ens := ens h.(pagemap_)) (lv := live h.(world)) (tk := taken h.(world)).
    + by eapply geom_register.
    + intros r u Hr. apply lookup_insert_Some in Hr as [[<- <-]|[_ Hr]];
        [by destruct (Inv_ok _ _ _ _ _ _ _ _ HI Hp)|by destruct (Inv_ok _ _ _ _ _ _ _ _ HI Hr)].
    + done.
    + intros k. apply Hens.
    + done.
  - by eapply lists_same_free.
  - rewrite (span_free_store _ _ _ _ s); [done|done|]. right. unfold free_len. by rewrite !decide_False by congruence.
  - rewrite (span_free_store _ _ _ _ s); [done|done|]. right. unfold free_len. by rewrite !decide_False by congruence.
  - destruct i_system as (lk & Hlk & Hno & Hsys). exists lk. split_and!; [done| |].
    + intros q t k Hq Hk. apply lookup_insert_Some in Hq as [[<- <-]|[_ Hq]]; [|by apply (Hno q t)].
      apply (Hno p s); [done|]. unfold covers in *. by rewrite <- Hst, <- Hln.
    + rewrite (span_total_store _ _ s) by done. rewrite Hsys, Hln. lia.
  - rewrite (span_returned_store _ _ s) by done. unfold free_len. rewrite Hl, Hl'. rewrite i_committed. f_equal.
    simpl. lia.
  - by apply Hco.
  - intros Hs. destruct (i_returned Hs). split; [by apply Hco|done].
  - intros q t Hq Ht Hne. rewrite lookup_insert_ne; [done|set_solver].
  - intros q t Hq Ht Hne. rewrite lookup_insert_ne in Hq; [done|set_solver].
  - intros q t k Hq Ht Hne Hk. destruct (Inv_ok _ _ _ _ _ _ _ _ HI Hq). apply Hget; [unfold covers in Hk; lia|].
    intros Hk'. apply Hne, elem_of_singleton. by eapply (g_disjoint _ _ _ _ _ _ _ i_geom).
Qed.

Lemma wp_RegisterSizeClass strict h p s sc :
  Inv strict ∅ 0 h -> h.(spans) !! p = Some s -> s.(location) = IN_USE ->
  wp (RegisterSizeClass p sc) (fun _ h' => Inv strict ∅ 0 h' /\ keeps {[p]} h h' /\
    h'.(spans) !! p = Some (set_sizeclass sc s) /\ h'.(pagemap_cache_) = h.(pagemap_cache_) /\
    h'.(grown_by) = h.(grown_by)) h.
Proof.
  intros HI Hp Hl. pose proof (Inv_ok _ _ _ _ _ _ _ _ HI Hp) as [? ? ? ? ? Hlim Hpg].
  rewrite page_limit_u64 in Hlim. unfold RegisterSizeClass. apply wp_bind, wp_store with s; [done|].
  apply wp_bind, wp_deref with (set_sizeclass sc s); [by simpl; rewrite lookup_insert_eq|]. simpl.
  rewrite u64_small by lia.
  apply wp_register_pages; simpl; [lia..| |].
  { intros j Hj. apply Hpg. unfold covers. lia. }
  intros m' Hget Hens. destruct (g_mapped _ _ _ _ _ _ _ (i_geom _ _ _ _ _ _ HI) p s Hp) as [Hf Hla _].
  destruct (Inv_register strict 0 h p s (set_sizeclass sc s) m') as [HI' Hk']; try done.
  - intros k Hk. unfold covers in Hk. rewrite Hget by lia. case_decide; [done|].
    assert (k = s.(start) \/ k = s.(start) + s.(length_) - 1) as [-> | ->] by lia; done.
  - intros k Hk Hno. rewrite Hget by done. unfold covers in Hno. rewrite decide_False by lia. done.
  - split_and!; try done. simpl. by rewrite lookup_insert_eq.
Qed.

(** [r] is a span of the [n] pages from [st], in use in [h'] and not in [h]; no
    other span in use changed. *)
Definition owned (st n sc r : Z) (h h' : PageHeap) : Prop :=
  keeps {[r]} h h' /\ (forall s, h.(spans) !! r = Some s -> s.(location) <> IN_USE) /\
  exists s', h'.(spans) !! r = Some s' /\ s'.(start) = st /\ s'.(length_) = n /\
    s'.(location) = IN_USE /\ s'.(sizeclass) = sc.

Lemma allocated_owned n r h h' : allocated n r h h' -> exists st, owned st n 0 r h h'.
Proof. intros (Hk & Hr & s' & ? & ? & ? & ?). exists s'.(start). split_and!; eauto 10. Qed.

Lemma owned_quiet st n sc r h h' h'' : owned st n sc r h h' -> quiet h' h'' -> owned st n sc r h h''.
Proof.
  intros (Hk & Hr & Hs) Hq. split_and!; [|done|by rewrite (q_spans _ _ Hq)].
  eapply keeps_trans; [done|by apply quiet_keeps].
Qed.

Lemma quiet_cache h p :
  env_ok h.(world) -> 0 <= p < 2 ^ 64 -> quiet h (upd_pagemap_cache (fun c => Invalidate (kAddressBits - kPageShift) c p) h).
Proof.
  intros Hok Hp. assert (env_step h.(world) h.(world)) by (by apply env_step_refl). split; try done.
  intros k v Hk. unfold TryGetSizeClass. simpl. rewrite TryGet_Invalidate by done. by case_decide.
Qed.

Lemma quiet_grown_by h f : env_ok h.(world) -> quiet h (upd_grown_by f h).
Proof. intros Hok. split; done || by apply env_step_refl. Qed.

(** The public allocation functions: null with errno set (no heap limit), or an
    owned span whose first page is not in the size-class cache. *)
Definition public_post (n sc r : Z) (h h' : PageHeap) : Prop :=
  (r <> 0 -> exists st, owned st n sc r h h' /\ TryGetSizeClass h' st = None) /\
  (r = 0 -> keeps ∅ h h' /\ (limit_pages h = 0 -> h'.(errno) = ENOMEM) /\
     (limit_ok n h = true -> none_free n page_limit h)).

Lemma keeps_start X h h1 h' n :
  quiet h h1 -> limit_ok n h1 = limit_ok n h -> new_post n X h1 h' -> new_post n X h h'.
Proof.
  intros Hq Hlim [Hr Hr0]. pose proof (quiet_keeps free_ ∅ _ _ Hq) as Hk. split.
  - intros Hne. eapply allocated_trans; [exact Hk|auto].
  - intros H0. destruct (Hr0 H0) as (Hk' & He & Hnone). split_and!; [by eapply keeps_trans| |].
    + by rewrite <- (limit_pages_keeps _ _ _ Hk).
    + rewrite <- Hlim. intros Hl p s Hs. rewrite <- (q_spans _ _ Hq) in Hs. by apply (Hnone Hl p s).
Qed.

Lemma wp_NewWithSizeClass strict n sc h :
  Inv strict ∅ 0 h -> 0 < n < 2 ^ 64 -> 0 <= sc < 256 ->
  wp (NewWithSizeClass free_ n sc) (fun r h' => Inv strict ∅ 0 h' /\
    public_post (RoundUpSize h n) sc r h h') h.
Proof.
  intros HI Hn Hsc8. unfold NewWithSizeClass, LockingContext. apply wp_bind, wp_modify.
  set (h0 := upd_grown_by _ h). assert (Hq0 : quiet h h0) by (apply quiet_grown_by, HI).
  assert (HI0 : Inv strict ∅ 0 h0) by (by eapply quiet_same).
  apply wp_bind. eapply wp_mono; [by apply (wp_NewLocked strict n h0)|].
  intros r h1 (HI1 & Hpost). change (RoundUpSize h0 n) with (RoundUpSize h n) in Hpost.
  apply (keeps_start _ h) in Hpost as [Hr Hr0]; [|done..].
  destruct (Z.eqb_spec r 0) as [->|Hne]; cbn [negb].
  { apply wp_bind, wp_ret. apply wp_bind. apply (wp_HandleUnlock strict 0); [done|].
    intros h2 HI2 Hq2 Hc2 He2. apply wp_ret. split; [done|]. split; [done|]. intros _.
    destruct (Hr0 eq_refl) as (Hk & He & Hnone). split_and!; [|by rewrite He2|done].
    eapply keeps_trans; [done|by apply quiet_keeps]. }
  destruct (allocated_owned _ _ _ _ (Hr Hne)) as (st & Ho). pose proof Ho as (Hk1 & Hnu & s1 & Hs1 & Hst & Hln & Hl & Hsc).
  destruct (Inv_ok _ _ _ _ _ _ _ _ HI1 Hs1) as [_ _ _ ? ? Hlim _]. rewrite page_limit_u64 in Hlim.
  apply wp_bind. apply wp_mono with (fun _ h2 => Inv strict ∅ 0 h2 /\ owned st (RoundUpSize h n) sc r h h2 /\
    TryGetSizeClass h2 st = None).
  { apply wp_bind, wp_deref with s1; [done|]. unfold InvalidateCachedSizeClass. apply wp_bind, wp_modify.
    set (h2 := upd_pagemap_cache _ h1). assert (Hq2 : quiet h1 h2) by (apply quiet_cache; [apply HI1|lia]).
    assert (HI2 : Inv strict ∅ 0 h2) by (by eapply quiet_same).
    assert (Hc2 : TryGetSizeClass h2 st = None).
    { unfold TryGetSizeClass. simpl. rewrite TryGet_Invalidate by (done || lia). rewrite Hst. by rewrite decide_True. }
    pose proof (owned_quiet _ _ _ _ _ _ _ Ho Hq2) as Ho2.
    destruct (Z.eqb_spec sc 0) as [->|Hsc0]; cbn [negb]; [by apply wp_ret|].
    eapply wp_mono; [by apply (wp_RegisterSizeClass strict h2 r s1 sc)|].
    intros _ h3 (HI3 & Hk3 & Hs3 & Hc3 & _). split_and!; [done| |].
    - destruct Ho2 as (Hk2 & _). split_and!; [by eapply keeps_trans|done|].
      exists (set_sizeclass sc s1). split_and!; try done. simpl. by apply u8_small.
    - unfold TryGetSizeClass in *. by rewrite Hc3. }
  intros _ h2 (HI2 & Ho2 & Hc2). apply wp_bind. apply (wp_HandleUnlock strict 0); [done|].
  intros h3 HI3 Hq3 Hc3 _. apply wp_ret. split; [done|]. split; [|done]. intros _. exists st.
  split; [by eapply owned_quiet|]. unfold TryGetSizeClass in *. by rewrite Hc3.
Qed.

(** ** [NewAligned] *)

Lemma owned_trans st n sc r h1 h2 h3 : keeps ∅ h1 h2 -> owned st n sc r h2 h3 -> owned st n sc r h1 h3.
Proof.
  intros Hk (Hk' & Hr & Hs). split_and!; [eapply keeps_trans; [by apply keeps_weaken|done]| |done].
  intros s Hs1 Hl. apply (Hr s); [|done]. by eapply k_span.
Qed.

(** Giving back the first [k] pages of an owned span. *)
Lemma wp_trim_front strict st n r h h1 k :
  Inv strict ∅ 0 h1 -> owned st n 0 r h h1 -> 0 < k < n ->
  wp (rest ← Split r k; DeleteLocked free_ r ;; mret rest)
    (fun q h2 => Inv strict ∅ 0 h2 /\ owned (st + k) (n - k) 0 q h h2) h1.
Proof.
  intros HI (Hk1 & Hnu & s & Hs & Hst & Hln & Hl & Hsc) Hk.
  apply wp_bind. eapply wp_mono; [apply (wp_Split strict 0 h1 r s k); try done; lia|].
  intros q h2 (HI2 & Hq & Hk2 & _ & Hr2 & Hq2). assert (Hrq : r <> q) by congruence. apply wp_bind.
  eapply wp_mono; [by apply (wp_DeleteLocked strict h2 r (set_length k s) HI2)|].
  intros _ h3 (HI3 & Hk3 & _ & Hno & _). apply wp_ret. split; [done|]. split_and!.
  - apply keeps_mono with ({[q; r]} ∖ {[r]}); [|apply pair_minus].
    apply keeps_drop; [|done|done].
    apply keeps_trans with h1; [|apply keeps_trans with h2]; 
      (eapply keeps_mono; [eassumption|]);
      first [apply pair_sub_l|apply pair_sub_r|apply pair_swap|done].
  - intros u Hu Hlu. assert (h1.(spans) !! q = Some u); [|congruence].
    eapply k_span; [done|done|done|]. by apply not_elem_of_singleton.
  - exists (NewSpan_fields (s.(start) + k) (s.(length_) - k)). split_and!; simpl; try lia; [|done..].
    eapply k_span; [done|done|done|]. by apply not_elem_of_singleton.
Qed.

(** Giving back the pages after the first [n]. *)
Lemma wp_trim_back strict st len r h h1 n :
  Inv strict ∅ 0 h1 -> owned st len 0 r h h1 -> 0 < n < len ->
  wp (trailer ← Split r n; DeleteLocked free_ trailer)
    (fun _ h2 => Inv strict ∅ 0 h2 /\ owned st n 0 r h h2) h1.
Proof.
  intros HI (Hk1 & Hnu & s & Hs & Hst & Hln & Hl & Hsc) Hn.
  apply wp_bind. eapply wp_mono; [apply (wp_Split strict 0 h1 r s n); try done; lia|].
  intros q h2 (HI2 & Hq & Hk2 & _ & Hr2 & Hq2). assert (Hrq : r <> q) by congruence.
  eapply wp_mono; [by apply (wp_DeleteLocked strict h2 q _ HI2 Hq2)|].
  intros _ h3 (HI3 & Hk3 & _ & Hno & _). split; [done|]. split_and!.
  - apply keeps_mono with ({[r; q]} ∖ {[q]}); [|apply pair_minus].
    apply keeps_drop; [| |done].
    + apply keeps_trans with h1; [|apply keeps_trans with h2]; 
      (eapply keeps_mono; [eassumption|]);
      first [apply pair_sub_l|apply pair_sub_r|apply pair_swap|done].
    + intros u Hu Hlu. assert (h1.(spans) !! q = Some u); [|congruence].
      eapply k_span; [done|done|done|]. by apply not_elem_of_singleton.
  - done.
  - exists (set_length n s). split_and!; try done.
    eapply k_span; [done|done|done|]. by apply not_elem_of_singleton.
Qed.

(** An owned span is shorter than 2^31 pages, so its length is what was asked for,
    rounded up. *)
Lemma RoundUpSize_owned strict h0 st n sc r h h1 :
  Inv strict ∅ 0 h0 -> Inv strict ∅ 0 h1 -> 0 < n < 2 ^ 64 ->
  owned st (RoundUpSize h0 n) sc r h h1 -> n <= RoundUpSize h0 n < 2 ^ 31.
Proof.
  intros HI0 HI1 Hn (_ & _ & s & Hs & _ & Hln & _).
  pose proof (Inv_length _ _ _ _ _ _ _ _ HI1 Hs) as Hlen. rewrite Hln in Hlen. split; [|lia].
  destruct (i_round _ _ _ _ _ _ HI0) as (k & Hk & Hsm). revert Hlen. rewrite (RoundUpSize_min h0 k n) by done.
  assert (0 < 2 ^ k <= 2 ^ 51) by (split; [apply Z.pow_pos_nonneg|apply Z.pow_le_mono_r]; lia).
  pose proof (Z.div_mod (n + 2 ^ k - 1) (2 ^ k) ltac:(lia)).
  pose proof (Z.mod_pos_bound (n + 2 ^ k - 1) (2 ^ k) ltac:(lia)). lia.
Qed.

(** The result of [NewAligned]: also aligned. *)
Definition aligned_post (n align r : Z) (h h' : PageHeap) : Prop :=
  (r <> 0 -> exists st, owned st n 0 r h h' /\ st mod align = 0 /\ TryGetSizeClass h' st = None) /\
  (r = 0 -> keeps ∅ h h' /\ (limit_pages h = 0 -> h'.(errno) = ENOMEM)).

(** What [NewAligned] does with the span it got. *)
Lemma wp_align_span strict h h1 n a r st len :
  Inv strict ∅ 0 h1 -> owned st len 0 r h h1 -> 0 < n -> 0 <= a -> n + 2 ^ a <= len ->
  wp (s ← deref r;
      skip ← (fun h => k ← skip_loop (Z.to_nat (2 ^ a) + 1) s.(start) (bytes_of (2 ^ a)) 0; Ok (k, h));
      span ← (if skip >? 0 then rest ← Split r skip; DeleteLocked free_ r ;; mret rest else mret r);
      s ← deref span;
      (if s.(length_) >? n then trailer ← Split span n; DeleteLocked free_ trailer else Prelude.skip) ;;
      s ← deref span;
      InvalidateCachedSizeClass s.(start) ;;
      mret span)
    (fun q h2 => Inv strict ∅ 0 h2 /\ exists st, owned st n 0 q h h2 /\ st mod 2 ^ a = 0 /\
       TryGetSizeClass h2 st = None /\ q <> 0) h1.
Proof.
  intros HI1 Ho Hn Ha Hlen. pose proof Ho as (Hk1 & Hnu & s & Hs & Hst & Hln & Hl & Hsc).
  pose proof (Inv_length _ _ _ _ _ _ _ _ HI1 Hs). destruct (Inv_ok _ _ _ _ _ _ _ _ HI1 Hs) as [_ _ _ ? ? Hlim _].
  rewrite page_limit_u64 in Hlim. assert (0 < 2 ^ a) by (apply Z.pow_pos_nonneg; lia).
  assert (Ha31 : a < 31) by (apply (Z.pow_lt_mono_r_iff 2); lia).
  apply wp_bind, wp_deref with s; [done|]. apply wp_bind. set (d := (- s.(start)) mod 2 ^ a).
  pose proof (Z.mod_pos_bound (- s.(start)) (2 ^ a) ltac:(lia)) as Hd.
  unfold wp at 1. rewrite skip_loop_spec by lia. fold d in Hd |- *. simpl.
  apply wp_bind. rewrite Z.gtb_ltb.
  assert (Hdm : (st + d) mod 2 ^ a = 0).
  { unfold d. rewrite Hst, Z.add_mod_idemp_r by lia. replace (st + - st) with 0 by lia. by rewrite Z.mod_0_l by lia. }
  apply wp_mono with (fun q h2 => Inv strict ∅ 0 h2 /\ owned (st + d) (len - d) 0 q h h2).
  { destruct (Z.ltb_spec 0 d).
    - apply (wp_trim_front strict st len r h h1 d); try done. lia.
    - apply wp_ret. split; [done|]. replace (st + d) with st by lia. by replace (len - d) with len by lia. }
  intros q h2 (HI2 & Ho2). pose proof Ho2 as (_ & _ & s2 & Hs2 & Hst2 & Hln2 & _ & _).
  destruct (Inv_ok _ _ _ _ _ _ _ _ HI2 Hs2) as [Hq0 _ _ _ _ _ _].
  apply wp_bind, wp_deref with s2; [done|]. apply wp_bind. rewrite Z.gtb_ltb.
  apply wp_mono with (fun _ h3 => Inv strict ∅ 0 h3 /\ owned (st + d) n 0 q h h3).
  { destruct (Z.ltb_spec n s2.(length_)).
    - apply (wp_trim_back strict (st + d) (len - d) q h h2 n); try done. lia.
    - apply wp_ret. split; [done|]. by replace n with (len - d) by lia. }
  intros _ h3 (HI3 & Ho3). pose proof Ho3 as (_ & _ & s3 & Hs3 & Hst3 & _).
  destruct (Inv_ok _ _ _ _ _ _ _ _ HI3 Hs3) as [_ _ _ ? ? Hlim3 _]. rewrite page_limit_u64 in Hlim3.
  apply wp_bind, wp_deref with s3; [done|]. apply wp_bind, wp_modify, wp_ret.
  assert (Hq3 : quiet h3 (upd_pagemap_cache (fun c => Invalidate (kAddressBits - kPageShift) c s3.(start)) h3))
    by (apply quiet_cache; [apply HI3|lia]).
  split; [by eapply quiet_same|]. exists (st + d). split_and!; [by eapply owned_quiet|done| |lia].
  unfold TryGetSizeClass. simpl. rewrite TryGet_Invalidate by (done || lia). rewrite Hst3. by rewrite decide_True.
Qed.

Lemma wp_NewAligned strict n a h :
  Inv strict ∅ 0 h -> 0 < n < 2 ^ 64 -> 0 <= a < 64 ->
  wp (NewAligned free_ n (2 ^ a)) (fun r h' => Inv strict ∅ 0 h' /\
    aligned_post (RoundUpSize h n) (2 ^ a) r h h') h.
Proof.
  intros HI Hn Ha. assert (0 < 2 ^ a) by (apply Z.pow_pos_nonneg; lia).
  assert (2 ^ a < 2 ^ 64) by (apply Z.pow_lt_mono_r; lia).
  pose proof (RoundUpSize_pos _ _ _ _ _ HI Hn) as Hm. unfold NewAligned. apply wp_bind, wp_get. cbv zeta.
  set (m := RoundUpSize h n) in *. destruct ((_ <? m) || _) eqn:Hov.
  - apply wp_bind. eapply wp_mono; [by apply (wp_NewWithSizeClass strict (2 ^ 64 - 1) 0 h HI)|].
    intros r h1 (HI1 & Hr & Hr0). destruct (Z.eqb_spec r 0) as [->|Hne].
    + apply wp_bind, wp_ret, wp_ret. split; [done|]. split; [done|]. intros _. destruct (Hr0 eq_refl) as (? & ? & _). done.
    + destruct (Hr Hne) as (st & Ho & _). pose proof (RoundUpSize_owned strict h st (2 ^ 64 - 1) 0 r h h1 HI HI1 ltac:(lia) Ho). lia.
  - assert (Halloc : u64 (m + 2 ^ a) = m + 2 ^ a).
    { apply orb_false_elim in Hov as [H1 H2]. apply Z.ltb_ge in H1, H2.
      destruct (Z.lt_ge_cases (m + 2 ^ a) (2 ^ 64)); [by apply u64_small; lia|].
      assert (u64 (m + 2 ^ a) = m + 2 ^ a - 2 ^ 64); [|lia].
      rewrite <- (u64_small (m + 2 ^ a - 2 ^ 64)) by lia. apply u64_eq. exists 1. lia. }
    pose proof (u64_range (m + 2 ^ a)) as Hrg. rewrite Halloc in Hrg |- *.
    unfold LockingContext. apply wp_bind, wp_modify.
    set (h0 := upd_grown_by _ h). assert (Hq0 : quiet h h0) by (apply quiet_grown_by, HI).
    assert (HI0 : Inv strict ∅ 0 h0) by (by eapply quiet_same).
    apply wp_bind. eapply wp_mono; [apply (wp_NewLocked strict (m + 2 ^ a) h0 HI0); lia|].
    intros r h1 (HI1 & Hpost). apply (keeps_start _ h) in Hpost as [Hr Hr0]; [|done..].
    apply wp_bind. apply wp_mono with (fun q h2 => Inv strict ∅ 0 h2 /\ aligned_post m (2 ^ a) q h h2).
    + destruct (Z.eqb_spec r 0) as [->|Hne].
      { apply wp_ret. split; [done|]. split; [done|]. intros _. by destruct (Hr0 eq_refl) as (? & ? & _). }
      destruct (allocated_owned _ _ _ _ (Hr Hne)) as (st & Ho).
      pose proof (RoundUpSize_owned strict h0 st (m + 2 ^ a) 0 r h h1 HI0 HI1 ltac:(lia) Ho).
      eapply wp_mono; [apply (wp_align_span strict h h1 m a r st _ HI1 Ho); lia|].
      intros q h2 (HI2 & st2 & ? & ? & ? & ?). split; [done|]. split; [|done]. intros _. by exists st2.
    + intros q h2 (HI2 & Hq & Hq0'). apply wp_bind. apply (wp_HandleUnlock strict 0); [done|].
      intros h3 HI3 Hq3 Hc3 He3. apply wp_ret. split; [done|]. split.
      * intros Hne. destruct (Hq Hne) as (st & Ho & Hal & Hc). exists st.
        split_and!; [by eapply owned_quiet|done|]. unfold TryGetSizeClass in *. by rewrite Hc3.
      * intros H0'. destruct (Hq0' H0') as [Hk He]. rewrite He3. split; [|done].
        eapply keeps_trans; [done|by apply quiet_keeps].
Qed.
End New.
