(* ===== verification/PageHeapSpec.v ===== *)
(** The page heap as its clients see it: the theorems about the public operations,
    the refinement of an abstract owner map, and reachable states. *)
From S2P Require Import Prelude SizeMap Span PackedCache PageMap SysEnv PageHeap SpanStore.
From S2P Require Import PageHeapInv PageHeapOps PageHeapAlloc PageHeapGrow PageHeapNew.

Section Spec.
Context {W : Type} {E : Env W} {P : PageMap W} {G : EnvGhost W}.
Context {ens : pm_t -> Z -> Prop} {free_ : Z}.
Context {EL : EnvLaws W} {PL : PageMapLaws MetaDataAlloc P ens} {HLay : HeapLayout free_}.

Implicit Types (h : PageHeap) (D : gset Z) (p q : Z) (s t : Span).

Abbreviation Inv := (Inv ens free_).
Abbreviation keeps := (keeps free_).

(** ** A new heap *)

Definition self_linked (L : links) (a : Z) : Prop := lnext L a = a /\ lprev L a = a.

Lemma DLL_Init_self L a b : self_linked (DLL_Init L a) b <-> a = b \/ self_linked L b.
Proof.
  unfold self_linked, DLL_Init, set_next, set_prev, lnext, lprev. simpl.
  destruct (decide (a = b)) as [->|Hne].
  - rewrite !lookup_insert_eq. simpl. naive_solver.
  - rewrite !lookup_insert_ne by done. naive_solver.
Qed.

Lemma init_free_lists_self L loc i :
  loc <> IN_USE -> 0 <= i < kMaxPages -> self_linked (init_free_lists free_ L) (free_list free_ loc i).
Proof.
  intros Hloc Hi. unfold init_free_lists.
  assert (Hall : forall (l : list Z) L', (i ∈ l \/ self_linked L' (free_list free_ loc i)) ->
    self_linked (foldl (fun L i => DLL_Init (DLL_Init L (free_normal free_ i)) (free_returned free_ i)) L' l)
      (free_list free_ loc i)).
  { induction l as [|j l IH]; intros L' Hor; simpl.
    - destruct Hor as [Hin|?]; [by apply elem_of_nil in Hin|done].
    - apply IH. rewrite !DLL_Init_self. destruct Hor as [[->|?]%elem_of_cons|?]; [right|by left|by right; right; right].
      destruct loc; naive_solver. }
  apply Hall. left. apply elem_of_seqZ. lia.
Qed.

Lemma Inv_new L k limit_mb rate w h :
  env_ok w -> 0 <= k < 51 -> PageHeap_new free_ L (2 ^ k) limit_mb rate w = Ok h -> Inv true ∅ 0 h.
Proof.
  intros Hw Hk Hnew. unfold PageHeap_new in Hnew. apply bind_Ok in Hnew as (u & _ & [= <-]).
  assert (Hsel : forall loc n p, ~ sel ∅ ∅ loc n p) by (intros loc n p (s & Hs & _); by rewrite lookup_empty in Hs).
  split; simpl; try done.
  - apply geom_empty. intros j. apply (pm_get_init MetaDataAlloc (PageMapLaws := PL)).
  - intros loc Hloc. split.
    + intros i Hi. exists []. split; [|intros p; split; [by intros ?%elem_of_nil|by intros ?%Hsel]].
      split; [|apply NoDup_singleton]. apply init_free_lists_self; done.
    + split; [by destruct loc|]. intros x. split; [by destruct loc; intros ?%elem_of_nil|by intros [?%Hsel _]].
  - exists ∅. split_and!; [set_solver|by intros p s j Hp|done].
  - by exists k.
Qed.

(** ** The abstract view: who owns which pages *)

(** A span in use, as its owner sees it: first page, number of pages, size class. *)
Definition owner : Type := Z * Z * Z.
Abbreviation owners := (gmap Z owner).

Definition owner_of (s : Span) : option owner :=
  match s.(location) with IN_USE => Some (s.(start), s.(length_), s.(sizeclass)) | _ => None end.

Definition abs (h : PageHeap) : owners := omap owner_of h.(spans).

Definition owner_pages (o : owner) (k : Z) : Prop := o.1.1 <= k < o.1.1 + o.1.2.

(** No page is owned twice, and all of them were obtained from the system. *)
Definition unshared (A : owners) (o : owner) : Prop :=
  forall p o' k, A !! p = Some o' -> owner_pages o k -> ~ owner_pages o' k.

Inductive heap_op :=
| ONew (n sc : Z)
| OAligned (n a : Z)          (* aligned to [2 ^ a] pages *)
| ORegister (p sc : Z)
| ODelete (p : Z)
| ORelease (n : Z)
| OAggressive (b : bool).

(** What a client has to respect. *)
Definition op_pre (strict : bool) (o : heap_op) (A : owners) : Prop :=
  match o with
  | ONew n sc => 0 < n < 2 ^ 64 /\ 0 <= sc < 256
  | OAligned n a => 0 < n < 2 ^ 64 /\ 0 <= a < 64
  | ORegister p sc => is_Some (A !! p) /\ 0 <= sc < 256
  | ODelete p => is_Some (A !! p)
  | ORelease n => True
  | OAggressive b => strict = false
  end.

Definition run_op (o : heap_op) : M PageHeap Z :=
  match o with
  | ONew n sc => NewWithSizeClass free_ n sc
  | OAligned n a => NewAligned free_ n (2 ^ a)
  | ORegister p sc => RegisterSizeClass p sc ;; mret 0
  | ODelete p => Delete free_ p ;; mret 0
  | ORelease n => ReleaseAtLeastNPages free_ n
  | OAggressive b => SetAggressiveDecommit b ;; mret 0
  end.

(** The abstract transitions. *)
Definition allocates (n sc align r : Z) (A A' : owners) : Prop :=
  (r = 0 /\ A' = A) \/
  (0 < r /\ A !! r = None /\ exists st m, n <= m /\ st mod align = 0 /\
     A' = <[r := (st, m, sc)]> A /\ unshared A (st, m, sc)).

Definition owner_step (o : heap_op) (r : Z) (A A' : owners) : Prop :=
  match o with
  | ONew n sc => allocates n sc 1 r A A'
  | OAligned n a => allocates n 0 (2 ^ a) r A A'
  | ORegister p sc => exists st n sc0, A !! p = Some (st, n, sc0) /\ A' = <[p := (st, n, sc)]> A
  | ODelete p => A' = delete p A
  | ORelease n => A' = A
  | OAggressive b => A' = A
  end.

Lemma abs_lookup h p o :
  abs h !! p = Some o <-> exists s, h.(spans) !! p = Some s /\ s.(location) = IN_USE /\
    o = (s.(start), s.(length_), s.(sizeclass)).
Proof.
  unfold abs. rewrite lookup_omap_Some. unfold owner_of. split.
  - intros (s & Ho & Hs). exists s. destruct s.(location); naive_solver.
  - intros (s & Hs & Hl & ->). exists s. by rewrite Hl.
Qed.

Lemma abs_None h p : abs h !! p = None <-> forall s, h.(spans) !! p = Some s -> s.(location) <> IN_USE.
Proof.
  rewrite eq_None_not_Some. split.
  - intros Hn s Hs Hl. apply Hn. eexists. apply abs_lookup. eauto.
  - intros Hn [o (s & Hs & Hl & _)%abs_lookup]. by apply (Hn s).
Qed.

Lemma keeps_abs X h h' p : keeps X h h' -> p ∉ X -> abs h' !! p = abs h !! p.
Proof.
  intros Hk Hp. apply option_eq. intros o. rewrite !abs_lookup.
  split; intros (s & Hs & Hl & ->); exists s; split_and!; try done; [by eapply k_span'|by eapply k_span].
Qed.

Lemma keeps_abs_eq h h' : keeps ∅ h h' -> abs h' = abs h.
Proof. intros Hk. apply map_eq. intros p. eapply keeps_abs; [done|set_solver]. Qed.

Lemma keeps_abs_delete h h' p :
  keeps {[p]} h h' -> abs h' !! p = None -> abs h' = delete p (abs h).
Proof.
  intros Hk Hp. apply map_eq. intros q. destruct (decide (q = p)) as [->|Hne].
  - by rewrite lookup_delete_eq.
  - rewrite lookup_delete_ne by done. eapply keeps_abs; [done|set_solver].
Qed.

Lemma keeps_abs_insert h h' p o :
  keeps {[p]} h h' -> abs h' !! p = Some o -> abs h' = <[p := o]> (abs h).
Proof.
  intros Hk Hp. apply map_eq. intros q. destruct (decide (q = p)) as [->|Hne].
  - by rewrite lookup_insert_eq.
  - rewrite lookup_insert_ne by done. eapply keeps_abs; [done|set_solver].
Qed.

Lemma owned_allocates strict st m n sc align r h h' :
  Inv strict ∅ 0 h' -> owned (free_ := free_) st m sc r h h' -> n <= m -> st mod align = 0 ->
  allocates n sc align r (abs h) (abs h').
Proof.
  intros HI (Hk & Hnu & s & Hs & Hst & Hln & Hl & Hsc) Hn Hal. right.
  destruct (Inv_ok _ _ _ _ _ _ _ _ HI Hs) as [Hr0 _ _ _ _ _ _].
  assert (Hr : abs h' !! r = Some (st, m, sc)) by (apply abs_lookup; exists s; split_and!; congruence).
  split_and!; [done|by apply abs_None|]. exists st, m. split_and!; try done; [by apply keeps_abs_insert|].
  intros p o' k Hp Hko Hk'. assert (p <> r).
  { intros ->. by rewrite (proj2 (abs_None h r) Hnu) in Hp. }
  rewrite <- (keeps_abs {[r]} h h' p) in Hp by (done || set_solver).
  apply abs_lookup in Hp as (t & Ht & Hlt & ->). apply H.
  eapply (g_disjoint _ _ _ _ _ _ _ (i_geom _ _ _ _ _ _ HI) p r t s k); try done; unfold covers, owner_pages in *; simpl in *; lia.
Qed.

Lemma Inv_relax strict D e h : Inv strict D e h -> Inv false D e h.
Proof. intros []. by split. Qed.

Lemma Inv_aggressive D e h f : Inv false D e h -> Inv false D e (upd_aggressive_decommit f h).
Proof. intros []. by split. Qed.

(** Every operation of a client keeps the invariant and is an abstract transition. *)
Lemma wp_run_op strict o h :
  Inv strict ∅ 0 h -> op_pre strict o (abs h) ->
  wp (run_op o) (fun r h' => Inv strict ∅ 0 h' /\ owner_step o r (abs h) (abs h')) h.
Proof.
  intros HI Hpre. destruct o as [n sc|n a|p sc|p|n|b]; simpl in *.
  - destruct Hpre as [Hn Hsc]. eapply wp_mono; [by apply (wp_NewWithSizeClass strict n sc h HI)|].
    intros r h' (HI' & Hr & Hr0). split; [done|]. destruct (decide (r = 0)) as [->|Hne].
    + left. split; [done|]. by apply keeps_abs_eq, Hr0.
    + destruct (Hr Hne) as (st & Ho & _). eapply owned_allocates; [done|done| |apply Z.mod_1_r].
      by eapply (RoundUpSize_owned strict h).
  - destruct Hpre as [Hn Ha]. eapply wp_mono; [by apply (wp_NewAligned strict n a h HI)|].
    intros r h' (HI' & Hr & Hr0). split; [done|]. destruct (decide (r = 0)) as [->|Hne].
    + left. split; [done|]. by apply keeps_abs_eq, Hr0.
    + destruct (Hr Hne) as (st & Ho & Hal & _). eapply owned_allocates; [done|done| |done].
      by eapply (RoundUpSize_owned strict h).
  - destruct Hpre as [[o (s & Hs & Hl & ->)%abs_lookup] Hsc]. apply wp_bind.
    eapply wp_mono; [by apply (wp_RegisterSizeClass strict h p s sc)|].
    intros _ h' (HI' & Hk & Hs' & _). apply wp_ret. split; [done|].
    exists s.(start), s.(length_), s.(sizeclass). split; [apply abs_lookup; eauto|].
    apply keeps_abs_insert; [done|]. apply abs_lookup. exists (set_sizeclass sc s). split_and!; [done..|].
    simpl. by rewrite u8_small.
  - destruct Hpre as [o (s & Hs & Hl & ->)%abs_lookup]. apply wp_bind.
    eapply wp_mono; [by apply (wp_DeleteLocked strict h p s)|].
    intros _ h' (HI' & Hk & _ & Hno & _). apply wp_ret. split; [done|].
    apply keeps_abs_delete; [done|]. by apply abs_None.
  - eapply wp_mono; [by apply (wp_ReleaseAtLeastNPages strict n h)|].
    intros r h' (HI' & Hk & _). split; [done|]. by apply keeps_abs_eq.
  - subst strict. apply wp_bind, wp_modify, wp_ret. split; [by apply Inv_aggressive|done].
Qed.

(** C5: the page heap refines the map from descriptors to owned page ranges: in a
    consistent state every public operation a client may call runs without failing
    a check and without diverging (it may give up for lack of memory for its own
    data), leaves a consistent state, and changes the owner map exactly as the
    abstract operation does: an allocation adds one range of at least the requested
    number of pages, aligned as requested and shared with nobody, or returns null and
    changes nothing; [Delete] removes the range; everything else leaves it alone. *)
Theorem PageHeap_refines strict o h :
  Inv strict ∅ 0 h -> op_pre strict o (abs h) ->
  wp (run_op o) (fun r h' => Inv strict ∅ 0 h' /\ owner_step o r (abs h) (abs h')) h.
Proof. exact (wp_run_op strict o h). Qed.

(** ** Reachable states *)

Inductive reachable (k limit_mb : Z) rate (w : W) : PageHeap -> Prop :=
| reach_new L h : PageHeap_new free_ L (2 ^ k) limit_mb rate w = Ok h -> reachable k limit_mb rate w h
| reach_op h o r h' : reachable k limit_mb rate w h -> op_pre false o (abs h) ->
    run_op o h = Ok (r, h') -> reachable k limit_mb rate w h'.

Lemma reachable_Inv k limit_mb rate w h :
  env_ok w -> 0 <= k < 51 -> reachable k limit_mb rate w h -> Inv false ∅ 0 h.
Proof.
  intros Hw Hk. induction 1 as [h Hnew|h o r h' _ IH Hpre Hrun].
  - eapply Inv_relax, Inv_new; done.
  - pose proof (wp_Ok _ _ _ _ _ (wp_run_op false o h IH Hpre) Hrun) as [? _]. done.
Qed.

Lemma disjoint_owners strict h p q a b k :
  Inv strict ∅ 0 h -> abs h !! p = Some a -> abs h !! q = Some b -> owner_pages a k -> owner_pages b k -> p = q.
Proof.
  intros HI (s & Hs & _ & ->)%abs_lookup (t & Ht & _ & ->)%abs_lookup Ha Hb.
  by eapply (g_disjoint _ _ _ _ _ _ _ (i_geom _ _ _ _ _ _ HI) p q s t k).
Qed.

(** C6: from a new heap, over any sequence of operations whose clients delete and
    register only spans they own, with the aggressive-decommit switch thrown at will:
    no operation ever fails a check, uses a dangling pointer or diverges, and in
    every state reached no page has two owners and every owned page came from the
    system. *)
Theorem reachable_safe k limit_mb rate w h :
  env_ok w -> 0 <= k < 51 -> reachable k limit_mb rate w h ->
  (forall o, op_pre false o (abs h) -> run_op o h <> Crash /\ run_op o h <> NoFuel) /\
  (forall p q a b j, abs h !! p = Some a -> abs h !! q = Some b ->
     owner_pages a j -> owner_pages b j -> p = q) /\
  (forall p a j, abs h !! p = Some a -> owner_pages a j -> j ∈ taken h.(world)).
Proof.
  intros Hw Hk Hr. pose proof (reachable_Inv _ _ _ _ _ Hw Hk Hr) as HI. split_and!.
  - intros o Hpre. pose proof (wp_run_op false o h HI Hpre) as Hwp. unfold wp in Hwp.
    by destruct (run_op o h) as [[r h']| | |].
  - intros p q a b j. by apply (disjoint_owners false).
  - intros p a j (s & Hs & _ & ->)%abs_lookup Hj. by apply (Inv_ok _ _ _ _ _ _ _ _ HI Hs).
Qed.

(** ** The operations one by one *)

Lemma span_returned_free (S : gmap Z Span) : span_free ∅ ON_RETURNED_FREELIST S = span_returned S.
Proof.
  apply msum_ext. intros p s _. unfold free_of, ret_of. repeat case_decide; try done; [naive_solver|].
  destruct H. split; [apply not_elem_of_empty|done].
Qed.

Lemma owned_mapped strict st n sc r h h' :
  Inv strict ∅ 0 h' -> owned (free_ := free_) st n sc r h h' ->
  GetDescriptor h' st = r /\ GetDescriptor h' (st + n - 1) = r /\
  (sc <> 0 -> forall k, st <= k < st + n -> GetDescriptor h' k = r).
Proof.
  intros HI (_ & _ & s & Hs & <- & <- & _ & <-).
  destruct (g_mapped _ _ _ _ _ _ _ (i_geom _ _ _ _ _ _ HI) r s Hs) as [Hf Hla Hc].
  unfold GetDescriptor. split_and!; try done. intros Hne k Hk. by apply Hc.
Qed.

(** C7: [NewWithSizeClass] returns null or a span in use with exactly the rounded-up
    number of pages and the given size class, which was not in use before; the page
    map leads from its first and last page to it, and for a small-object span from
    every page; its first page has no stale entry in the size-class cache.  All spans
    in use before are as they were.  When no heap limit is set a null result comes
    with [ENOMEM], and where the limit allows the request null is returned only if no
    free span is long enough. *)
Theorem NewWithSizeClass_spec strict n sc h :
  Inv strict ∅ 0 h -> 0 < n < 2 ^ 64 -> 0 <= sc < 256 ->
  let len := RoundUpSize h n in
  wp (NewWithSizeClass free_ n sc) (fun r h' => Inv strict ∅ 0 h' /\
    (r <> 0 -> exists st, owned (free_ := free_) st len sc r h h' /\
       GetDescriptor h' st = r /\ GetDescriptor h' (st + len - 1) = r /\
       (sc <> 0 -> forall k, st <= k < st + len -> GetDescriptor h' k = r) /\
       TryGetSizeClass h' st = None) /\
    (r = 0 -> abs h' = abs h /\ (limit_pages h = 0 -> h'.(errno) = ENOMEM) /\
       (limit_ok len h = true -> none_free len page_limit h))) h.
Proof.
  intros HI Hn Hsc len. eapply wp_mono; [by apply (wp_NewWithSizeClass strict n sc h HI)|].
  intros r h' (HI' & Hr & Hr0). split_and!; [done| |].
  - intros Hne. destruct (Hr Hne) as (st & Ho & Hc). exists st.
    pose proof (owned_mapped strict st len sc r h h' HI' Ho) as (? & ? & ?). done.
  - intros H0. destruct (Hr0 H0) as (Hk & He & Hl). split_and!; [by apply keeps_abs_eq|done..].
Qed.

(** C8: [Delete] of a span in use ends its life as such and touches no other span in
    use; its pages are now inside one free span, and no two adjacent free spans are
    both normal (nor, unless aggressive decommit was ever on, both returned). *)
Theorem Delete_spec strict h p s :
  Inv strict ∅ 0 h -> h.(spans) !! p = Some s -> s.(location) = IN_USE ->
  wp (Delete free_ p) (fun _ h' => Inv strict ∅ 0 h' /\ abs h' = delete p (abs h) /\
    coalesced ∅ ON_NORMAL_FREELIST h'.(spans) /\
    (strict = true -> coalesced ∅ ON_RETURNED_FREELIST h'.(spans)) /\
    exists q t, h'.(spans) !! q = Some t /\ t.(location) <> IN_USE /\
      forall k, covers s k -> covers t k) h.
Proof.
  intros HI Hp Hl. eapply wp_mono; [by apply (wp_DeleteLocked strict h p s)|].
  intros _ h' (HI' & Hk & _ & Hno & Hq). split_and!; try done.
  - apply keeps_abs_delete; [done|]. by apply abs_None.
  - apply HI'.
  - apply HI'.
Qed.

End Spec.
