(* ===== verification/PageHeapCheck.v ===== *)
(** The inspection functions of the page heap: [CheckExpensive], the statistics of the
    free lists and [GetNextRange] report the state as it is. *)
From S2P Require Import Prelude SizeMap Span PackedCache PageMap SysEnv PageHeap SpanStore.
From S2P Require Import PageHeapInv PageHeapOps PageHeapAlloc PageHeapGrow PageHeapNew PageHeapSpec.

(** The sum of [f] over a map, as a sum over a list of its keys that leaves out only
    zeros. *)
Lemma msum_list {A B} (f : Z -> A -> Z) (g : B -> Z) (key : B -> Z) (l : list B) : forall S : gmap Z A,
  NoDup (key <$> l) ->
  (forall x, x ∈ l -> exists s, S !! key x = Some s /\ f (key x) s = g x) ->
  (forall p s, S !! p = Some s -> p ∉ key <$> l -> f p s = 0) ->
  msum f S = foldr (fun x acc => g x + acc) 0 l.
Proof.
  induction l as [|x l IH]; intros S Hnd Hin Hout; simpl in *.
  - apply msum_zero. intros p s Hp. apply (Hout p s Hp). apply not_elem_of_nil.
  - apply NoDup_cons in Hnd as [Hx Hnd]. destruct (Hin x ltac:(by left)) as (s & Hs & Hf).
    rewrite (msum_delete _ S (key x) s), Hf by done. f_equal. apply IH; [done| |].
    + intros y Hy. destruct (Hin y ltac:(by right)) as (t & Ht & Hft). exists t. split; [|done].
      rewrite lookup_delete_ne; [done|]. intros Heq. apply Hx. rewrite Heq. by apply list_elem_of_fmap_2.
    + intros p t [Hne Hp]%lookup_delete_Some Hnot. apply (Hout p t Hp). by apply not_elem_of_cons.
Qed.

Section Check.
Context {W : Type} {E : Env W} {P : PageMap W} {G : EnvGhost W}.
Context {ens : pm_t -> Z -> Prop} {free_ : Z}.
Context {EL : EnvLaws W} {PL : PageMapLaws MetaDataAlloc P ens} {HLay : HeapLayout free_}.

Implicit Types (h : PageHeap) (p q : Z) (s t : Span).

Abbreviation Inv := (Inv ens free_).

(** ** [CheckExpensive] *)

Lemma check_span_ok strict e h p s lo hi loc :
  Inv strict ∅ e h -> h.(spans) !! p = Some s -> s.(location) = loc -> lo <= s.(length_) <= hi ->
  check_span h lo hi loc p = Ok tt.
Proof.
  intros HI Hp Hl Hlen. destruct (Inv_ok _ _ _ _ _ _ _ _ HI Hp) as [_ _ _ ? ? Hlim _].
  rewrite page_limit_u64 in Hlim.
  destruct (g_mapped _ _ _ _ _ _ _ (i_geom _ _ _ _ _ _ HI) p s Hp) as [Hf Hla _].
  unfold check_span, GetDescriptor. rewrite Hp, u64_small by lia. rewrite Hf, Hla, Z.eqb_refl.
  rewrite bool_decide_true, Z.geb_leb by done.
  destruct (Z.leb_spec lo s.(length_)), (Z.leb_spec s.(length_) hi); try lia. done.
Qed.

Lemma CheckList_loop_ok strict e h hdr lo hi loc l : forall fuel a,
  Inv strict ∅ e h -> dseg h.(span_links) a l hdr -> hdr ∉ l -> (List.length l < fuel)%nat ->
  (forall p, p ∈ l -> exists s, h.(spans) !! p = Some s /\ s.(location) = loc /\ lo <= s.(length_) <= hi) ->
  CheckList_loop fuel h hdr (lnext h.(span_links) a) lo hi loc = Ok true.
Proof.
  induction l as [|x l IH]; intros [|fuel] a HI Hseg Hh Hf Hall; simpl in *; try lia.
  - destruct Hseg as [-> _]. by rewrite Z.eqb_refl.
  - destruct Hseg as (-> & _ & Hseg). apply not_elem_of_cons in Hh as [Hhx Hh].
    destruct (Z.eqb_spec x hdr); [congruence|]. cbn [negb].
    destruct (Hall x ltac:(by left)) as (s & Hs & Hl & Hlen).
    rewrite (check_span_ok strict e h x s) by done. simpl. apply IH; try done; [lia|].
    intros p Hp. apply Hall. by right.
Qed.

Lemma list_bound (l : list Z) (S : gmap Z Span) :
  NoDup l -> (forall p, p ∈ l -> is_Some (S !! p)) -> (List.length l <= size S)%nat.
Proof.
  intros Hnd Hin. rewrite <- size_dom. rewrite <- (size_list_to_set (C := gset Z) l) by done.
  apply subseteq_size. intros p Hp%elem_of_list_to_set. by apply elem_of_dom, Hin.
Qed.

Lemma CheckList_ok strict e h loc i :
  Inv strict ∅ e h -> loc <> IN_USE -> 0 <= i < kMaxPages ->
  CheckList h (free_list free_ loc i) (i + 1) (i + 1) loc = Ok true.
Proof.
  intros HI Hloc Hi. destruct (i_lists _ _ _ _ _ _ HI loc Hloc) as [Hsm _].
  destruct (Hsm i Hi) as (l & [Hseg Hnd] & Hl). apply NoDup_cons in Hnd as [Hh Hnd].
  eapply (CheckList_loop_ok strict e h _ _ _ _ l); try done.
  - assert ((List.length l <= size h.(spans))%nat); [|lia]. apply list_bound; [done|].
    intros p Hp. apply Hl in Hp as (s & Hs & _). by exists s.
  - intros p Hp. apply Hl in Hp as (s & Hs & _ & ? & ?). exists s. split_and!; try done; lia.
Qed.

Lemma CheckSet_ok strict e h loc set :
  Inv strict ∅ e h ->
  (forall x, x ∈ set -> sel ∅ h.(spans) loc (spl_length x) (spl_span x) /\ kMaxPages < spl_length x) ->
  CheckSet h set (kMaxPages + 1) loc = Ok true.
Proof.
  intros HI. induction set as [|x set IH]; intros Hall; [done|]. simpl.
  destruct (Hall x ltac:(by left)) as [(s & Hs & _ & Hl & Hln) Hbig]. rewrite Hs, Hln, Z.eqb_refl. simpl.
  pose proof (Inv_length _ _ _ _ _ _ _ _ HI Hs).
  rewrite (check_span_ok strict e h _ s) by (done || lia). simpl. apply IH. intros y Hy. apply Hall. by right.
Qed.

Lemma mapM_Ok {A B} (f : A -> result B) (g : A -> B) l :
  (forall x, x ∈ l -> f x = Ok (g x)) -> mapM f l = Ok (g <$> l).
Proof.
  induction l as [|x l IH]; intros Hf; [done|]. simpl. rewrite (Hf x) by (by left). simpl.
  rewrite IH; [done|]. intros y Hy. apply Hf. by right.
Qed.

(** C34: the heap's own consistency check, [CheckExpensive], always succeeds in a
    consistent state: every free list holds exactly free spans of its length and
    kind, in circular lists that end, and the page map leads from the first and the
    last page of each back to it. *)
Theorem CheckExpensive_succeeds strict h :
  Inv strict ∅ 0 h -> CheckExpensive free_ h = Ok true.
Proof.
  intros HI. unfold CheckExpensive.
  destruct (i_lists _ _ _ _ _ _ HI ON_NORMAL_FREELIST) as [_ [_ Hn]]; [done|].
  destruct (i_lists _ _ _ _ _ _ HI ON_RETURNED_FREELIST) as [_ [_ Hr]]; [done|]. simpl in Hn, Hr.
  rewrite (mapM_Ok _ (fun _ => true)).
  - rewrite (CheckSet_ok strict 0 h ON_NORMAL_FREELIST) by (done || (intros x Hx; by apply Hn)).
    by rewrite (CheckSet_ok strict 0 h ON_RETURNED_FREELIST) by (done || (intros x Hx; by apply Hr)).
  - intros i Hi%elem_of_seqZ.
    pose proof (CheckList_ok strict 0 h ON_NORMAL_FREELIST (i - 1) HI ltac:(done) ltac:(lia)) as H1.
    pose proof (CheckList_ok strict 0 h ON_RETURNED_FREELIST (i - 1) HI ltac:(done) ltac:(lia)) as H2.
    simpl in H1, H2. replace (i - 1 + 1) with i in H1, H2 by lia. rewrite H1. simpl. by rewrite H2.
Qed.

(** ** Statistics *)

(** The number of free spans of kind [loc] and length [n]. *)
Definition count_free (loc : Location) (n : Z) h : Z :=
  msum (fun _ s => if decide (s.(location) = loc /\ s.(length_) = n) then 1 else 0) h.(spans).

(** The pages of large free spans, and their number. *)
Definition large_pages (loc : Location) h : Z :=
  msum (fun _ s => if decide (s.(location) = loc /\ kMaxPages < s.(length_)) then s.(length_) else 0) h.(spans).
Definition large_count (loc : Location) h : Z :=
  msum (fun _ s => if decide (s.(location) = loc /\ kMaxPages < s.(length_)) then 1 else 0) h.(spans).

Lemma DLL_Length_count strict e h loc i :
  Inv strict ∅ e h -> loc <> IN_USE -> 0 <= i < kMaxPages ->
  DLL_Length (S (size h.(spans))) h.(span_links) (free_list free_ loc i) = Ok (count_free loc (i + 1) h).
Proof.
  intros HI Hloc Hi. destruct (i_lists _ _ _ _ _ _ HI loc Hloc) as [Hsm _].
  destruct (Hsm i Hi) as (l & Hd & Hl). pose proof Hd as [_ Hnd]. apply NoDup_cons in Hnd as [_ Hnd].
  rewrite (DLL_Length_dll _ _ l) by (done || (assert ((List.length l <= size h.(spans))%nat); [|lia];
    apply list_bound; [done|]; intros p (s & Hs & _)%Hl; by exists s)).
  f_equal. unfold count_free. rewrite (msum_list _ (fun _ => 1) id l).
  - clear. induction l as [|x l IH]; [done|]. simpl. lia.
  - by rewrite list_fmap_id.
  - intros p Hp. apply Hl in Hp as (s & Hs & _ & ? & ?). exists s. split; [done|]. by rewrite decide_True.
  - intros p s Hs Hp. rewrite list_fmap_id in Hp. rewrite decide_False; [done|]. intros [? ?].
    apply Hp, Hl. by exists s.
Qed.

Lemma set_sorted_NoDup f set : set_sorted f set -> (forall x y, x ∈ set -> y ∈ set -> spl_span x = spl_span y -> x = y) ->
  NoDup (spl_span <$> set).
Proof.
  induction set as [|x set IH]; intros Hs Hinj; [apply NoDup_nil_2|]. destruct Hs as [Hx Hs]. simpl. constructor.
  - intros (y & Heq & Hy)%list_elem_of_fmap. assert (x = y) as <- by (apply Hinj; [by left|by right|done]).
    specialize (Hx x Hy). apply less_spec in Hx. lia.
  - apply IH; [done|]. intros y z Hy Hz. apply Hinj; by right.
Qed.

Lemma large_set_sum strict e h loc (g : SpanPtrWithLength -> Z) (f : Span -> Z) :
  Inv strict ∅ e h -> loc <> IN_USE ->
  (forall x s, h.(spans) !! spl_span x = Some s -> s.(length_) = spl_length x -> f s = g x) ->
  foldr (fun x acc => g x + acc) 0 (large h loc) =
    msum (fun _ s => if decide (s.(location) = loc /\ kMaxPages < s.(length_)) then f s else 0) h.(spans).
Proof.
  intros HI Hloc Hfg. destruct (i_lists _ _ _ _ _ _ HI loc Hloc) as [_ [Hst Hlg]].
  symmetry. apply (msum_list _ g spl_span).
  - eapply set_sorted_NoDup; [exact Hst|]. intros x y [(s & Hs & _ & _ & Hls) _]%Hlg [(t & Ht & _ & _ & Hlt) _]%Hlg Heq.
    rewrite Heq in Hs. simplify_eq. destruct x, y; simpl in *. congruence.
  - intros x [(s & Hs & _ & Hl & Hln) Hbig]%Hlg. exists s. split; [done|]. rewrite decide_True by (split; [done|lia]).
    by apply Hfg.
  - intros p s Hs Hp. rewrite decide_False; [done|]. intros [Hl Hbig]. apply Hp.
    change p with (spl_span (mkSPL p s.(length_))). apply list_elem_of_fmap_2, Hlg. simpl.
    split; [|done]. by exists s.
Qed.

Lemma foldl_stats set n0 p0 : forall n p,
  p = p0 + 0 -> n = n0 + 0 -> 0 <= p0 -> (forall x, x ∈ set -> 0 <= spl_length x) ->
  p0 + foldr (fun x acc => spl_length x + acc) 0 set < 2 ^ 63 ->
  foldl (fun '(n, pages) x => (n + 1, i64 (pages + spl_length x))) (n, p) set =
    (n0 + foldr (fun _ acc => 1 + acc) 0 set, p0 + foldr (fun x acc => spl_length x + acc) 0 set).
Proof.
  revert n0 p0. induction set as [|x set IH]; intros n0 p0 n p -> -> Hp Hall Hlt; simpl in *; [done|].
  assert (0 <= foldr (fun x acc => spl_length x + acc) 0 set).
  { assert (forall x, x ∈ set -> 0 <= spl_length x) as Hs by (intros; apply Hall; by right).
    clear - Hs. induction set as [|y l IHl]; simpl; [done|].
    pose proof (Hs y ltac:(by left)). assert (forall z, z ∈ l -> 0 <= spl_length z) by (intros; apply Hs; by right).
    specialize (IHl ltac:(done)). lia. }
  pose proof (Hall x ltac:(by left)).
  rewrite i64_small by lia. rewrite (IH (n0 + 1) (p0 + spl_length x)); try lia; [f_equal; lia|].
  intros y Hy. apply Hall. by right.
Qed.

Lemma large_pages_bound strict e h loc : Inv strict ∅ e h -> large_pages loc h < 2 ^ 31.
Proof.
  intros HI. pose proof (Inv_total0 _ _ _ _ _ _ HI). enough (large_pages loc h <= span_total h.(spans)) by lia.
  apply msum_le. intros p s Hp. pose proof (Inv_lengths _ _ _ _ _ _ _ _ HI Hp). unfold len_of.
  case_decide; lia.
Qed.

Lemma large_stats strict e h loc n0 : Inv strict ∅ e h -> loc <> IN_USE ->
  foldl (fun '(n, pages) x => (n + 1, i64 (pages + spl_length x))) (n0, 0) (large h loc) =
    (n0 + large_count loc h, large_pages loc h).
Proof.
  intros HI Hloc. pose proof (large_pages_bound _ _ _ loc HI) as Hb.
  assert (foldr (fun x acc => spl_length x + acc) 0 (large h loc) = large_pages loc h) as Hp
    by (apply (large_set_sum strict e h loc spl_length length_ HI Hloc); done).
  assert (foldr (fun _ acc => 1 + acc) 0 (large h loc) = large_count loc h) as Hc
    by (apply (large_set_sum strict e h loc (fun _ => 1) (fun _ => 1) HI Hloc); done).
  rewrite (foldl_stats _ n0 0); [by rewrite Hp, Hc|lia..| |rewrite Hp; lia].
  intros x Hx. destruct (i_lists _ _ _ _ _ _ HI loc Hloc) as [_ [_ Hlg]].
  apply Hlg in Hx as [_ ?]. assert (kMaxPages = 128) by done. lia.
Qed.

Lemma foldr_pick (m : nat) : forall a n,
  foldr (fun i acc => (if decide (n = i + 1) then i + 1 else 0) + acc) 0 (seqZ a (Z.of_nat m)) =
    if decide (a < n <= a + Z.of_nat m) then n else 0.
Proof.
  induction m as [|m IH]; intros a n; [simpl; case_decide; lia|].
  rewrite seqZ_cons by lia. simpl. replace (Z.pred (Z.of_nat (S m))) with (Z.of_nat m) by lia.
  rewrite IH. repeat case_decide; lia.
Qed.

(** Every free page is in a small list or in the large set. *)
Lemma span_free_lists strict e h loc : Inv strict ∅ e h ->
  span_free ∅ loc h.(spans) =
    foldr (fun i acc => (i + 1) * count_free loc (i + 1) h + acc) 0 (seqZ 0 kMaxPages) + large_pages loc h.
Proof.
  intros HI.
  assert (forall l, foldr (fun i acc => (i + 1) * count_free loc (i + 1) h + acc) 0 l =
    msum (fun _ s => if decide (s.(location) = loc) then
                       foldr (fun i acc => (if decide (s.(length_) = i + 1) then i + 1 else 0) + acc) 0 l
                     else 0) h.(spans)) as Hsw.
  { induction l as [|i l IH]; simpl; [symmetry; apply msum_zero; intros; by case_decide|].
    rewrite IH. unfold count_free. clear IH HI. induction (h.(spans)) as [|k x m Hk IHm] using map_ind; [by rewrite !msum_empty, Z.mul_0_r|].
    rewrite !msum_insert by done. destruct (decide (x.(location) = loc)), (decide (x.(length_) = i + 1)).
    - rewrite decide_True by done. lia.
    - rewrite decide_False by naive_solver. lia.
    - rewrite decide_False by naive_solver. lia.
    - rewrite decide_False by naive_solver. lia. }
  rewrite Hsw. unfold large_pages, span_free. rewrite <- msum_add. apply msum_ext. intros p s Hp.
  pose proof (Inv_length _ _ _ _ _ _ _ _ HI Hp). unfold free_of.
  destruct (decide (s.(location) = loc)) as [Hl|Hl].
  2: { rewrite !decide_False by naive_solver. done. }
  rewrite decide_True by (split; [set_solver|done]).
  change kMaxPages with (Z.of_nat 128). rewrite foldr_pick. repeat case_decide; naive_solver lia.
Qed.

Lemma committed_exact strict h : Inv strict ∅ 0 h ->
  h.(stats_).(unmapped_bytes) + h.(stats_).(committed_bytes) = h.(stats_).(system_bytes).
Proof.
  intros HI. destruct (i_system _ _ _ _ _ _ HI) as (lk & Hlk & Hno & Hs).
  pose proof (Inv_total _ _ _ _ _ _ _ HI Hlk Hno). pose proof (Inv_returned_bound _ _ _ _ HI).
  assert (span_returned h.(spans) <= span_total h.(spans)).
  { apply msum_le. intros p s Hp. pose proof (Inv_lengths _ _ _ _ _ _ _ _ HI Hp). unfold ret_of, len_of.
    case_decide; lia. }
  rewrite (i_committed _ _ _ _ _ _ HI), (i_unmapped _ _ _ _ _ _ HI), Hs, u64_small by lia.
  rewrite span_returned_free. lia.
Qed.

(** C35: the statistics of the free lists are exact: for each number of pages up to
    [kMaxPages] [GetSmallSpanStats] counts the normal and the returned spans of that
    length, [GetLargeSpanStats] counts the longer ones and their pages, and together
    they account for every byte of [free_bytes] and [unmapped_bytes]; unmapped and
    committed bytes add up to the bytes obtained from the system. *)
Theorem span_stats_exact strict h :
  Inv strict ∅ 0 h ->
  let small loc := (fun i => count_free loc (i + 1) h) <$> seqZ 0 kMaxPages in
  let bytes loc := 8192 * (foldr Z.add 0 (zip_with Z.mul (seqZ 1 kMaxPages) (small loc)) + large_pages loc h) in
  GetSmallSpanStatsLocked free_ h = Ok (zip (small ON_NORMAL_FREELIST) (small ON_RETURNED_FREELIST)) /\
  GetLargeSpanStatsLocked h =
    (large_count ON_NORMAL_FREELIST h + large_count ON_RETURNED_FREELIST h,
     large_pages ON_NORMAL_FREELIST h, large_pages ON_RETURNED_FREELIST h) /\
  h.(stats_).(free_bytes) = bytes ON_NORMAL_FREELIST /\
  h.(stats_).(unmapped_bytes) = bytes ON_RETURNED_FREELIST /\
  h.(stats_).(unmapped_bytes) + h.(stats_).(committed_bytes) = h.(stats_).(system_bytes).
Proof.
  intros HI small bytes.
  assert (forall loc, bytes loc = 8192 * span_free ∅ loc h.(spans)) as Hb.
  { intros loc. unfold bytes, small. rewrite (span_free_lists strict 0) by done.
    reflexivity. }
  split_and!.
  - unfold GetSmallSpanStatsLocked, small. rewrite zip_with_fmap_l, zip_with_fmap_r, zip_with_diag.
    apply mapM_Ok. intros i Hi%elem_of_seqZ.
    pose proof (DLL_Length_count strict 0 h ON_NORMAL_FREELIST i HI ltac:(done) ltac:(lia)) as H1.
    pose proof (DLL_Length_count strict 0 h ON_RETURNED_FREELIST i HI ltac:(done) ltac:(lia)) as H2.
    simpl in H1, H2. rewrite H1. simpl. by rewrite H2.
  - unfold GetLargeSpanStatsLocked.
    pose proof (large_stats strict 0 h ON_NORMAL_FREELIST 0 HI ltac:(done)) as H1. simpl in H1. rewrite H1.
    pose proof (large_stats strict 0 h ON_RETURNED_FREELIST (0 + large_count ON_NORMAL_FREELIST h) HI ltac:(done)) as H2.
    simpl in H2. by rewrite H2.
  - rewrite Hb. apply HI.
  - rewrite Hb. apply HI.
  - by apply (committed_exact strict).
Qed.

(** ** Traversal *)

(** [st] is not inside a span. *)
Definition boundary (h : PageHeap) (st : Z) : Prop :=
  forall p s, h.(spans) !! p = Some s -> s.(start) < st -> s.(start) + s.(length_) <= st.

Definition range_of (l : Location) : RangeType :=
  match l with IN_USE => INUSE | ON_NORMAL_FREELIST => FREE | ON_RETURNED_FREELIST => UNMAPPED end.

(** [GetNextRange] started outside or at the beginning of a span reports the next
    span in address order with its address, length and kind, and the page after it is
    again such a place; it reports nothing only when no span follows.  (The entries
    of the page map inside a free span may be stale, but a traversal never reads one.) *)
Lemma GetNextRange_next strict h sm st :
  Inv strict ∅ 0 h -> 0 <= st -> boundary h st ->
  exists r, GetNextRange sm h st = Ok r /\
    match r with
    | None => forall p s, h.(spans) !! p = Some s -> s.(start) < st
    | Some r => exists p s, h.(spans) !! p = Some s /\ st <= s.(start) /\
        (forall q t, h.(spans) !! q = Some t -> st <= t.(start) -> s.(start) <= t.(start)) /\
        range_address r = 8192 * s.(start) /\ range_length r = 8192 * s.(length_) /\
        range_type r = range_of s.(location) /\ boundary h (s.(start) + s.(length_))
    end.
Proof.
  intros HI Hst Hbd. pose proof (i_geom _ _ _ _ _ _ HI) as Hg. unfold GetNextRange.
  destruct (pm_Next_ok MetaDataAlloc h.(pagemap_) st Hst) as (v & -> & Hv). simpl.
  assert (forall q t, h.(spans) !! q = Some t ->
    t.(start) < 2 ^ pm_bits /\ 0 < q /\ pm_get h.(pagemap_) t.(start) = q) as Hfirst.
  { intros q t Hq. destruct (Inv_ok _ _ _ _ _ _ _ _ HI Hq) as [? _ _ ? ? ? _].
    destruct (g_mapped _ _ _ _ _ _ _ Hg q t Hq) as [Hf _ _]. split_and!; [|done..].
    destruct (Z.lt_ge_cases t.(start) (2 ^ pm_bits)); [done|].
    rewrite (pm_get_range MetaDataAlloc h.(pagemap_)) in Hf by done. lia. }
  destruct Hv as [[-> Hz]|(j & Hj & Hget & Hv0 & Hlow)].
  - exists None. split; [done|]. intros p s Hp. destruct (Hfirst p s Hp) as (? & ? & Hf).
    destruct (Z.lt_ge_cases s.(start) st); [done|]. rewrite Hz in Hf by lia. lia.
  - destruct (g_cover _ _ _ _ _ _ _ Hg j) as (p & s & Hp & Hc); [lia|congruence|].
    destruct (Inv_ok _ _ _ _ _ _ _ _ HI Hp) as [? _ _ ? ? Hlim _]. unfold covers in Hc.
    destruct (Hfirst p s Hp) as (_ & _ & Hf).
    assert (st <= s.(start)) as Hle.
    { destruct (Z.lt_ge_cases s.(start) st) as [Hlt|]; [|done]. specialize (Hbd p s Hp Hlt). lia. }
    assert (s.(start) = j) as Hsj.
    { destruct (Z.lt_ge_cases s.(start) j); [|lia]. rewrite Hlow in Hf by lia. lia. }
    assert (v = p) as -> by congruence. destruct (Z.eqb_spec p 0); [lia|]. rewrite Hp.
    pose proof (Inv_length _ _ _ _ _ _ _ _ HI Hp).
    destruct (range_info sm s (bytes_of s.(length_))) as [ty fr] eqn:Hri.
    assert (ty = range_of s.(location)) as -> by (unfold range_info in Hri; destruct s.(location); by simplify_eq).
    eexists. split; [done|]. rewrite page_limit_u64 in Hlim.
    exists p, s. split_and!; simpl; try (done || (apply bytes_of_eq; lia)).
    + intros q t Hq Hle'. destruct (Z.lt_ge_cases t.(start) s.(start)); [|done].
      destruct (Hfirst q t Hq) as (_ & ? & Hft). rewrite Hlow in Hft by lia. lia.
    + intros q t Hq Hlt. destruct (Z.le_gt_cases (t.(start) + t.(length_)) (s.(start) + s.(length_))); [done|].
      destruct (Inv_ok _ _ _ _ _ _ _ _ HI Hq).
      assert (q = p) as ->; [|simplify_eq; lia].
      apply (g_disjoint _ _ _ _ _ _ _ Hg q p t s (s.(start) + s.(length_) - 1)); unfold covers; done || lia.
Qed.
End Check.
