(* ===== verification/PageHeapScenario.v ===== *)
(** The page heap over the system of [BumpOS.v], with the two-level page map: the
    instances, runs that reach interesting states, and the theorems of the page heap
    at those states. *)
From S2P Require Import Prelude SizeMap Span PackedCache PageMap SystemAlloc SysEnv MetaData BumpOS.
From S2P Require Import PageHeap SpanStore PageHeapInv PageHeapOps PageHeapAlloc PageHeapGrow PageHeapNew.
From S2P Require Import PageHeapSpec PageHeapCheck.

Abbreviation BW := (World (Sys := BumpOS)).

#[export] Instance bump_env : Env BW := World_env true.
#[export] Instance bump_ghost : EnvGhost BW := World_ghost.
#[export] Instance bump_env_laws : EnvLaws BW := World_laws true.
#[export] Instance bump_pagemap : PageMap BW := PageMap2.ops MetaDataAlloc (kAddressBits - kPageShift).
#[export] Instance bump_pagemap_laws : PageMapLaws MetaDataAlloc bump_pagemap (PageMap2.ensured2 35).
Proof. apply PageMap2.laws2. lia. Qed.

(** The address of [PageHeap::free_] in the image. *)
Definition bump_free : Z := 2 ^ 20.

#[export] Instance bump_layout : HeapLayout bump_free.
Proof.
  split; [done|]. intros loc i Hi. assert (kMaxPages = 128) by done. simpl.
  unfold free_list, bump_free, bump_base. destruct loc; simpl; unfold free_normal, free_returned, sizeof_Span; lia.
Qed.

(** The state after a computation, or the one before where it gave up. *)
Definition final {S A} (m : M S A) (w : S) : S := match m w with Ok (_, w') => w' | _ => w end.

Lemma wp_final {S A} (m : M S A) (Q : S -> Prop) w : wp m (fun _ w' => Q w') w -> Q w -> Q (final m w).
Proof. unfold wp, final. by destruct (m w) as [[u w']| | |]. Qed.

Definition bump_world (release_disabled : bool) : BW :=
  final (InitModuleAllocators true) (World_zero bump_start false false release_disabled).

Lemma bump_world_ok b : env_ok (bump_world b).
Proof.
  assert (Hz : world_ok (World_zero bump_start false false b)) by (apply World_zero_ok; exact bump_start_ok).
  exact (wp_final _ _ _ (wp_mono _ _ _ _ (wp_InitModuleAllocators true _ Hz) (fun _ w => @proj1 _ _)) Hz).
Qed.

(** A new heap, and the result of a run on it. *)
Definition new_heap (w : BW) : PageHeap :=
  match PageHeap_new bump_free ∅ 1 0 (double_of_Z 1) w with
  | Ok h => h
  | _ => mkPageHeap 1 Clear pm_init [] [] Stats_zero 0 kMaxPages false 0 ∅ ∅ [] 0 0 (double_of_Z 1) w
  end.
Definition bump_heap (release_disabled : bool) : PageHeap := new_heap (bump_world release_disabled).

Lemma new_heap_eq w : PageHeap_new bump_free ∅ (2 ^ 0) 0 (double_of_Z 1) w = Ok (new_heap w).
Proof. reflexivity. Qed.

Fixpoint run_ops (ops : list heap_op) (h : PageHeap) : result (list Z * PageHeap) :=
  match ops with
  | [] => Ok ([], h)
  | o :: ops =>
      '(r, h) ← run_op (free_ := bump_free) o h;
      '(rs, h) ← run_ops ops h;
      Ok (r :: rs, h)
  end.

Definition after (ops : list heap_op) (release_disabled : bool) : PageHeap :=
  match run_ops ops (bump_heap release_disabled) with Ok (_, h) => h | _ => bump_heap release_disabled end.

(** The precondition of an operation, decided. *)
Definition op_preb (strict : bool) (o : heap_op) (A : gmap Z owner) : bool :=
  match o with
  | ONew n sc => (0 <? n) && (n <? 2 ^ 64) && (0 <=? sc) && (sc <? 256)
  | OAligned n a => (0 <? n) && (n <? 2 ^ 64) && (0 <=? a) && (a <? 64)
  | ORegister p sc => bool_decide (is_Some (A !! p)) && (0 <=? sc) && (sc <? 256)
  | ODelete p => bool_decide (is_Some (A !! p))
  | ORelease n => true
  | OAggressive b => negb strict
  end.

Lemma op_preb_ok strict o A : op_preb strict o A = true -> op_pre strict o A.
Proof.
  destruct o; simpl; rewrite ?andb_true_iff, ?bool_decide_eq_true, ?Z.ltb_lt, ?Z.leb_le; try tauto; try lia.
  by destruct strict.
Qed.

Fixpoint ops_ok (strict : bool) (ops : list heap_op) (h : PageHeap) : bool :=
  match ops with
  | [] => true
  | o :: ops => op_preb strict o (abs h) &&
      match run_op (free_ := bump_free) o h with Ok (_, h') => ops_ok strict ops h' | _ => true end
  end.

Abbreviation BInv := (Inv (PageMap2.ensured2 35) bump_free).

Lemma run_ops_Inv strict ops : forall h rs h',
  BInv strict ∅ 0 h -> ops_ok strict ops h = true -> run_ops ops h = Ok (rs, h') -> BInv strict ∅ 0 h'.
Proof.
  induction ops as [|o ops IH]; intros h rs h' HI; simpl; [intros _ ?; by simplify_eq|].
  intros [Hpre Hok]%andb_true_iff Hrun. apply op_preb_ok in Hpre.
  pose proof (wp_run_op strict o h HI Hpre) as Hwp. unfold wp in Hwp.
  destruct (run_op o h) as [[r h1]| | |]; try done. simpl in Hrun. destruct Hwp as [HI1 _].
  destruct (run_ops ops h1) as [[rs1 h2]| | |] eqn:Heq; try done. simpl in Hrun. simplify_eq.
  by eapply (IH h1).
Qed.

Lemma bump_heap_Inv b : BInv true ∅ 0 (bump_heap b).
Proof.
  exact (Inv_new ∅ 0 0 (double_of_Z 1) (bump_world b) _ (bump_world_ok b) ltac:(done) (new_heap_eq _)).
Qed.

Lemma after_Inv strict ops b : ops_ok strict ops (bump_heap b) = true -> BInv strict ∅ 0 (after ops b).
Proof.
  intros Hok. assert (BInv strict ∅ 0 (bump_heap b)) as HI.
  { pose proof (bump_heap_Inv b). destruct strict; [done|by eapply Inv_relax]. }
  unfold after. destruct (run_ops ops (bump_heap b)) as [[rs h]| | |] eqn:Heq; try done.
  by eapply run_ops_Inv.
Qed.

(** Four allocations; the first takes a span of three pages. *)
Definition demo_ops : list heap_op := [ONew 3 0; ONew 5 7; ONew 200 0; OAligned 4 4].
Definition demo : PageHeap := after demo_ops false.
Definition demo_span : Z := 1073741920.

Lemma demo_Inv : BInv true ∅ 0 demo.
Proof. apply after_Inv. vm_compute. reflexivity. Qed.

(** ** The theorems at concrete states *)

Lemma World_provides_Env_witness : EnvLaws (World (Sys := BumpOS)).
Proof. exact (World_provides_Env true). Defined.

Lemma metadata_separate_witness :
  world_reach true bump_start false false false (bump_world false) /\
  forall x, paged (bump_world false) x -> ~ chunk (bump_world false) x.
Proof.
  assert (Hr : world_reach true bump_start false false false (bump_world false))
    by (apply reach_init; vm_compute; reflexivity).
  split; [exact Hr|].
  exact (proj2 (proj2 (metadata_separate true bump_start false false false (bump_world false) bump_start_ok Hr))).
Defined.

Definition bump_sys : SysAlloc := mkSysAlloc bump_start false false false 0 0 (false, false) false 0.

Lemma bump_sys_ok : sa_ok bump_sys.
Proof. split; [exact bump_start_ok|by left]. Qed.

Lemma SystemAlloc_region_witness :
  exists r s', SystemAlloc true 100000 8192 bump_sys = Ok (r, s') /\ system_post 100000 8192 bump_sys r s'.
Proof.
  apply (SystemAlloc_region true 100000 8192 13 bump_sys bump_sys_ok).
  - lia.
  - lia.
  - reflexivity.
  - lia.
  - left. unfold sizeof_MemoryAligner. lia.
Defined.

Lemma PageHeap_refines_witness :
  op_pre true (ODelete demo_span) (abs demo) /\
  wp (run_op (free_ := bump_free) (ODelete demo_span))
    (fun r h' => BInv true ∅ 0 h' /\ owner_step (ODelete demo_span) r (abs demo) (abs h')) demo.
Proof.
  assert (op_pre true (ODelete demo_span) (abs demo)) as Hpre by (apply op_preb_ok; vm_compute; reflexivity).
  split; [exact Hpre|]. exact (PageHeap_refines true (ODelete demo_span) demo demo_Inv Hpre).
Defined.

Lemma reachable_safe_witness :
  run_op (free_ := bump_free) (ONew 3 0) (new_heap (bump_world false)) <> Crash.
Proof.
  pose proof (reachable_safe 0 0 (double_of_Z 1) (bump_world false) (new_heap (bump_world false))
    (bump_world_ok false) ltac:(split; reflexivity || discriminate)
    (reach_new _ _ _ _ _ _ (new_heap_eq (bump_world false)))) as [Hop _].
  apply (Hop (ONew 3 0)). apply op_preb_ok. vm_compute. reflexivity.
Defined.

Lemma NewWithSizeClass_spec_witness :
  wp (NewWithSizeClass bump_free 9 5) (fun r h' => r <> 0 -> h'.(spans) !! r <> None) demo.
Proof.
  eapply wp_mono; [apply (NewWithSizeClass_spec true 9 5 demo demo_Inv); split; reflexivity || discriminate|].
  intros r h' (_ & Hr & _) Hne. destruct (Hr Hne) as (st & (_ & _ & s & Hs & _) & _). congruence.
Defined.

Definition demo_fields : Span :=
  match demo.(spans) !! demo_span with Some s => s | None => NewSpan_fields 0 0 end.

Lemma Delete_spec_witness :
  wp (Delete bump_free demo_span) (fun _ h' => abs h' = delete demo_span (abs demo)) demo.
Proof.
  eapply wp_mono.
  - apply (Delete_spec true demo demo_span demo_fields demo_Inv); vm_compute; reflexivity.
  - intros u h' (_ & Habs & _). exact Habs.
Defined.


Lemma CheckExpensive_succeeds_witness : CheckExpensive bump_free demo = Ok true.
Proof. exact (CheckExpensive_succeeds true demo demo_Inv). Defined.

Lemma span_stats_exact_witness :
  demo.(stats_).(unmapped_bytes) + demo.(stats_).(committed_bytes) = demo.(stats_).(system_bytes).
Proof. exact (proj2 (proj2 (proj2 (proj2 (span_stats_exact true demo demo_Inv))))). Defined.

(** ** Two corners *)

(** With aggressive decommit switched on while the free lists hold both kinds of
    spans: deleting a span decommits and absorbs the normal span before it, and stops
    there, next to a span that was returned earlier. *)
Definition switch_ops : list heap_op :=
  [ONew 2 0; ONew 2 0; ONew 1 0; ONew 1 0; ODelete 1073741920; ORelease 1000;
   ODelete 1073741968; OAggressive true; ODelete 1073742016].

Lemma switch_leaves_adjacent_returned :
  ops_ok false switch_ops (bump_heap false) = true /\
  exists s t, (after switch_ops false).(spans) !! 1073741920 = Some s /\
    (after switch_ops false).(spans) !! 1073742016 = Some t /\
    s.(location) = ON_RETURNED_FREELIST /\ t.(location) = ON_RETURNED_FREELIST /\
    s.(start) + s.(length_) = t.(start).
Proof.
  split; [vm_compute; reflexivity|]. eexists _, _. split; [vm_compute; reflexivity|].
  split; [vm_compute; reflexivity|]. by split_and!.
Qed.

(** Asked for nearly 2^64 bytes at a small alignment, [TCMalloc_SystemAlloc] passes its
    overflow check, raises the alignment to 64, rounds the size up to 0 and succeeds
    with a region of 0 bytes. *)
Lemma SystemAlloc_small_alignment :
  exists s', SystemAlloc true (2 ^ 64 - 20) 8 bump_sys = Ok ((bump_base, 0), s').
Proof. eexists. vm_compute. reflexivity. Qed.
