(* ===== verification/CentralFreeList.v ===== *)
(** The central free lists: [src/central_freelist.h] and [src/central_freelist.cc].

    Each size class has lists of spans cut into objects, and a transfer cache of whole
    chains of objects.  The state [Heap] joins what these lists share: the page heap
    with the span descriptors, the words of memory through which free objects are
    linked, and the lists of all classes (a class that grows its transfer cache takes
    a slot from another one).  The functions run under the lock of their list; the
    model runs one operation at a time, so the places where the code lets go of a lock
    and takes it again are not seen. *)
From S2P Require Import Prelude SizeMap LinkedList Span PackedCache PageMap SysEnv PageHeap.

Record CentralFreeList := mkCFL {
  size_class_ : Z;
  num_spans_ : Z;
  counter_ : Z;
  tc_slots_ : gmap Z (Z * Z);     (* [TCEntry]: head and tail *)
  used_slots_ : Z;
  cache_size_ : Z;
  max_cache_size_ : Z
}.

(** Before [Init]. *)
Definition CFL_zero : CentralFreeList := mkCFL 0 0 0 ∅ 0 0 0.

Definition kMaxNumTransferEntries : Z := 64.

(** [sizeof(CentralFreeList)], aligned to a cache line, and the offsets of the two
    list headers in it. *)
Definition sizeof_CentralFreeList : Z := 1216.
Definition offset_empty : Z := 16.
Definition offset_nonempty : Z := 64.

Definition set_num_spans (v : Z) (c : CentralFreeList) : CentralFreeList :=
  mkCFL c.(size_class_) v c.(counter_) c.(tc_slots_) c.(used_slots_) c.(cache_size_) c.(max_cache_size_).
Definition set_counter (v : Z) (c : CentralFreeList) : CentralFreeList :=
  mkCFL c.(size_class_) c.(num_spans_) v c.(tc_slots_) c.(used_slots_) c.(cache_size_) c.(max_cache_size_).
Definition set_tc_slot (i : Z) (e : Z * Z) (c : CentralFreeList) : CentralFreeList :=
  mkCFL c.(size_class_) c.(num_spans_) c.(counter_) (<[i := e]> c.(tc_slots_)) c.(used_slots_)
    c.(cache_size_) c.(max_cache_size_).
Definition set_used_slots (v : Z) (c : CentralFreeList) : CentralFreeList :=
  mkCFL c.(size_class_) c.(num_spans_) c.(counter_) c.(tc_slots_) v c.(cache_size_) c.(max_cache_size_).
Definition set_cache_size (v : Z) (c : CentralFreeList) : CentralFreeList :=
  mkCFL c.(size_class_) c.(num_spans_) c.(counter_) c.(tc_slots_) c.(used_slots_) v c.(max_cache_size_).

Section Central.
Context {W : Type} {E : Env W} {P : PageMap W}.
(** The addresses of [PageHeap::free_] and of [Static::central_cache_], and
    [Static::sizemap()]. *)
Context (free_ central_cache_ : Z) (sm : SizeMap).

Definition empty_ (cl : Z) : Z := central_cache_ + cl * sizeof_CentralFreeList + offset_empty.
Definition nonempty_ (cl : Z) : Z := central_cache_ + cl * sizeof_CentralFreeList + offset_nonempty.

Record Heap := mkHeap {
  pageheap : PageHeap;
  memory : mem;
  central_cache : gmap Z CentralFreeList;
  race_counter : Z      (* of [EvictRandomSizeClass] *)
}.

Definition upd_pageheap (h : PageHeap) (st : Heap) : Heap :=
  mkHeap h st.(memory) st.(central_cache) st.(race_counter).
Definition upd_memory (f : mem -> mem) (st : Heap) : Heap :=
  mkHeap st.(pageheap) (f st.(memory)) st.(central_cache) st.(race_counter).
Definition upd_central (f : gmap Z CentralFreeList -> gmap Z CentralFreeList) (st : Heap) : Heap :=
  mkHeap st.(pageheap) st.(memory) (f st.(central_cache)) st.(race_counter).
Definition upd_race (v : Z) (st : Heap) : Heap :=
  mkHeap st.(pageheap) st.(memory) st.(central_cache) v.

Abbreviation MC := (M Heap).

(** [Static::central_cache()[cl]] *)
Definition cfl (st : Heap) (cl : Z) : CentralFreeList := default CFL_zero (st.(central_cache) !! cl).
Definition upd_cfl (cl : Z) (f : CentralFreeList -> CentralFreeList) : Heap -> Heap := fun st =>
  upd_central (<[cl := f (cfl st cl)]>) st.

(** A call of [Static::pageheap()]. *)
Definition on_heap {A} (m : M PageHeap A) : MC A := fun st =>
  '(a, h) ← m st.(pageheap);
  Ok (a, upd_pageheap h st).

(** The doubly linked lists of spans. *)
Definition on_links (f : links -> links) : MC unit := on_heap (modify (upd_span_links f)).

(** ** [Init] *)

Definition CFL_Init (cl : Z) : MC unit :=
  on_links (fun L => DLL_Init (DLL_Init L (empty_ cl)) (nonempty_ cl)) ;;
  let max_cache_size := kMaxNumTransferEntries in
  let cache_size := 16 in
  if cl >? 0 then
    let bytes := ByteSizeForClass sm cl in
    let objs_to_move := num_objects_to_move sm cl in
    if bytes * objs_to_move =? 0 then crash    (* a division by zero *)
    else
      let max_cache_size := Z.min max_cache_size (Z.max 1 (Z.quot (1024 * 1024) (i32 (bytes * objs_to_move)))) in
      modify (upd_cfl cl (fun c => mkCFL cl 0 0 c.(tc_slots_) 0 (Z.min cache_size max_cache_size) max_cache_size))
  else
    modify (upd_cfl cl (fun c => mkCFL cl 0 0 c.(tc_slots_) 0 cache_size max_cache_size)).

(** ** Returning objects to their spans *)

Definition ReleaseToSpans (cl object : Z) : MC unit :=
  let p := Z.shiftr object kPageShift in
  st ← get_state;
  let span := GetDescriptor st.(pageheap) p in
  s ← on_heap (deref span);
  (if s.(objects) =? 0 then
     on_links (fun L => DLL_Remove L span) ;;
     on_links (fun L => DLL_Prepend L (nonempty_ cl) span)
   else skip) ;;
  modify (upd_cfl cl (fun c => set_counter (u64 (c.(counter_) + 1)) c)) ;;
  on_heap (store span (fun s => set_refcount (s.(refcount) - 1) s)) ;;
  s ← on_heap (deref span);
  if s.(refcount) =? 0 then
    let bytes := ByteSizeForClass sm s.(sizeclass) in
    (if bytes =? 0 then crash else skip) ;;
    modify (upd_cfl cl (fun c => set_counter (u64 (c.(counter_) - bytes_of s.(length_) / bytes)) c)) ;;
    on_links (fun L => DLL_Remove L span) ;;
    modify (upd_cfl cl (fun c => set_num_spans (u64 (c.(num_spans_) - 1)) c)) ;;
    on_heap (Delete free_ span)
  else
    modify (upd_memory (fun m => SLL_SetNext m object s.(objects))) ;;
    on_heap (store span (set_objects object)).

Fixpoint ReleaseList_loop (fuel : nat) (cl start : Z) : MC unit :=
  match fuel with
  | O => no_fuel
  | S fuel =>
      if start =? 0 then skip
      else
        st ← get_state;
        let next := SLL_Next st.(memory) start in
        ReleaseToSpans cl start ;;
        ReleaseList_loop fuel cl next
  end.

(** A chain visits every word of memory at most once. *)
Definition ReleaseListToSpans (cl start : Z) : MC unit :=
  st ← get_state;
  ReleaseList_loop (S (S (size st.(memory)))) cl start.

(** ** The transfer cache *)

Definition ShrinkCache (cl locked_size_class : Z) (force : bool) : MC bool :=
  st ← get_state;
  if (cfl st cl).(cache_size_) =? 0 then mret false
  else if negb force && ((cfl st cl).(used_slots_) =? (cfl st cl).(cache_size_)) then mret false
  else
    (* the lock of [locked_size_class] is released and that of [cl] taken here *)
    st ← get_state;
    if (cfl st cl).(cache_size_) =? 0 then mret false
    else if (cfl st cl).(used_slots_) =? (cfl st cl).(cache_size_) then
      if negb force then mret false
      else
        modify (upd_cfl cl (fun c => set_cache_size (i32 (c.(cache_size_) - 1)) c)) ;;
        modify (upd_cfl cl (fun c => set_used_slots (i32 (c.(used_slots_) - 1)) c)) ;;
        st ← get_state;
        let c := cfl st cl in
        ReleaseListToSpans cl (default (0, 0) (c.(tc_slots_) !! c.(used_slots_))).1 ;;
        mret true
    else
      modify (upd_cfl cl (fun c => set_cache_size (i32 (c.(cache_size_) - 1)) c)) ;;
      mret true.

(** [while (t >= num_size_classes()) t -= num_size_classes();] *)
Fixpoint reduce (fuel : nat) (t n : Z) : result Z :=
  match fuel with
  | O => NoFuel
  | S fuel => if t >=? n then reduce fuel (t - n) n else Ok t
  end.

Definition EvictRandomSizeClass (locked_size_class : Z) (force : bool) : MC bool :=
  st ← get_state;
  let n := num_size_classes sm in
  let t := st.(race_counter) in
  modify (upd_race (i32 (t + 1))) ;;
  t ← (if t >=? n then
         t ← (fun st => r ← reduce (S (Z.to_nat t)) t n; Ok (r, st));
         modify (upd_race t) ;;
         mret t
       else mret t);
  if t =? locked_size_class then mret false
  else ShrinkCache t locked_size_class force.

Definition MakeCacheSpace (cl : Z) : MC bool :=
  st ← get_state;
  if (cfl st cl).(used_slots_) <? (cfl st cl).(cache_size_) then mret true
  else if (cfl st cl).(cache_size_) =? (cfl st cl).(max_cache_size_) then mret false
  else
    evicted ← EvictRandomSizeClass cl false;
    evicted ← (if (evicted : bool) then mret true else EvictRandomSizeClass cl true);
    if (evicted : bool) then
      st ← get_state;
      if (cfl st cl).(cache_size_) <? (cfl st cl).(max_cache_size_) then
        modify (upd_cfl cl (fun c => set_cache_size (i32 (c.(cache_size_) + 1)) c)) ;;
        mret true
      else mret false
    else mret false.

Definition InsertRange (cl start end_ N : Z) : MC unit :=
  room ← (if N =? num_objects_to_move sm cl then MakeCacheSpace cl else mret false);
  if (room : bool) then
    st ← get_state;
    let slot := (cfl st cl).(used_slots_) in
    modify (upd_cfl cl (fun c => set_used_slots (i32 (c.(used_slots_) + 1)) c)) ;;
    modify (upd_cfl cl (set_tc_slot slot (start, end_)))
  else ReleaseListToSpans cl start.

(** ** Fetching objects *)

(** [do { prev = curr; curr = *curr; } while (++result < N && curr != nullptr)]:
    [result], [prev] and [curr] at the end. *)
Fixpoint fetch_loop (fuel : nat) (m : mem) (N result curr : Z) : Prelude.result (Z * Z * Z) :=
  match fuel with
  | O => NoFuel
  | S fuel =>
      let prev := curr in
      let curr := SLL_Next m curr in
      let result := result + 1 in
      if (result <? N) && negb (curr =? 0) then fetch_loop fuel m N result curr
      else Ok (result, prev, curr)
  end.

(** The number of objects fetched, and the ends of their chain. *)
Definition FetchFromOneSpans (cl N : Z) : MC (Z * Z * Z) :=
  st ← get_state;
  if DLL_IsEmpty st.(pageheap).(span_links) (nonempty_ cl) then mret (0, 0, 0)
  else
    let span := lnext st.(pageheap).(span_links) (nonempty_ cl) in
    s ← on_heap (deref span);
    '(result, prev, curr) ← (fun st =>
        r ← fetch_loop (Z.to_nat N + 1) st.(memory) N 0 s.(objects); Ok (r, st));
    (if curr =? 0 then
       on_links (fun L => DLL_Remove L span) ;;
       on_links (fun L => DLL_Prepend L (empty_ cl) span)
     else skip) ;;
    let start := s.(objects) in
    let end_ := prev in
    on_heap (store span (set_objects curr)) ;;
    modify (upd_memory (fun m => SLL_SetNext m end_ 0)) ;;
    on_heap (store span (fun s => set_refcount (s.(refcount) + result) s)) ;;
    modify (upd_cfl cl (fun c => set_counter (u64 (c.(counter_) - result)) c)) ;;
    mret (result, start, end_).

(** [for (int i = 0; i < npages; i++) SetCachedSizeClass(span->start + i, size_class_)] *)
Fixpoint cache_pages (n : nat) (start cl : Z) : M PageHeap unit :=
  match n with
  | O => skip
  | S n => SetCachedSizeClass start cl ;; cache_pages n (start + 1) cl
  end.

(** [*tail = v], where [tail] is [&span->objects] ([None]) or an object. *)
Definition write_tail (span : Z) (tail : option Z) (v : Z) : MC unit :=
  match tail with
  | None => on_heap (store span (set_objects v))
  | Some t => modify (upd_memory (fun m => SLL_SetNext m t v))
  end.

(** The loop that cuts the block into pieces: [tail] and [num] at the end. *)
Fixpoint carve_loop (fuel : nat) (span : Z) (tail : option Z) (ptr limit size num : Z)
    : MC (option Z * Z) :=
  match fuel with
  | O => no_fuel
  | S fuel =>
      let nextptr := u64 (ptr + size) in
      if (nextptr <? ptr) || (nextptr >? limit) then mret (tail, num)
      else
        write_tail span tail ptr ;;
        carve_loop fuel span (Some ptr) nextptr limit size (num + 1)
  end.

Definition Populate (cl : Z) : MC unit :=
  let npages := class_to_pages sm cl in
  span ← on_heap (NewWithSizeClass free_ npages cl);
  if span =? 0 then skip
  else
    s ← on_heap (deref span);
    on_heap (cache_pages (Z.to_nat npages) s.(start) cl) ;;
    let ptr := bytes_of s.(start) in
    let limit := u64 (ptr + bytes_of npages) in
    let size := ByteSizeForClass sm cl in
    '(tail, num) ← carve_loop (Z.to_nat (bytes_of npages / size) + 1) span None ptr limit size 0;
    write_tail span tail 0 ;;
    on_heap (store span (set_refcount 0)) ;;
    on_links (fun L => DLL_Prepend L (nonempty_ cl) span) ;;
    modify (upd_cfl cl (fun c => set_num_spans (u64 (c.(num_spans_) + 1)) c)) ;;
    modify (upd_cfl cl (fun c => set_counter (u64 (c.(counter_) + num)) c)).

Definition FetchFromOneSpansSafe (cl N : Z) : MC (Z * Z * Z) :=
  '(result, start, end_) ← FetchFromOneSpans cl N;
  if result =? 0 then
    Populate cl ;;
    FetchFromOneSpans cl N
  else mret (result, start, end_).

(** [while (result < N)]: every round that goes on fetches at least one object. *)
Fixpoint remove_loop (fuel : nat) (cl N result start : Z) : MC (Z * Z) :=
  match fuel with
  | O => no_fuel
  | S fuel =>
      if result <? N then
        '(n, head, tail) ← FetchFromOneSpans cl (N - result);
        if n =? 0 then mret (result, start)
        else
          st ← get_state;
          let '(m, start) := SLL_PushRange st.(memory) start head tail in
          modify (upd_memory (fun _ => m)) ;;
          remove_loop fuel cl N (result + n) start
      else mret (result, start)
  end.

Definition RemoveRange (cl N : Z) : MC (Z * Z * Z) :=
  st ← get_state;
  if (N =? num_objects_to_move sm cl) && ((cfl st cl).(used_slots_) >? 0) then
    modify (upd_cfl cl (fun c => set_used_slots (i32 (c.(used_slots_) - 1)) c)) ;;
    st ← get_state;
    let c := cfl st cl in
    let '(head, tail) := default (0, 0) (c.(tc_slots_) !! c.(used_slots_)) in
    mret (N, head, tail)
  else
    '(result, start, end_) ← FetchFromOneSpansSafe cl N;
    if result =? 0 then mret (result, start, end_)
    else
      '(result, start) ← remove_loop (Z.to_nat N + 1) cl N result start;
      mret (result, start, end_).

(** ** Statistics *)

Definition CFL_length (st : Heap) (cl : Z) : Z := i32 (cfl st cl).(counter_).
Definition tc_length (st : Heap) (cl : Z) : Z :=
  i32 ((cfl st cl).(used_slots_) * num_objects_to_move sm cl).
Definition OverheadBytes (st : Heap) (cl : Z) : Z :=
  if (cfl st cl).(size_class_) =? 0 then 0
  else
    let overhead_per_span := u64 (class_to_pages sm cl * kPageSize) mod class_to_size sm cl in
    u64 ((cfl st cl).(num_spans_) * overhead_per_span).
End Central.
