(* ===== verification/CentralInv.v ===== *)
(** The invariant of the central free lists, and what a step on one size class leaves
    alone. *)
From S2P Require Import Prelude SizeMap LinkedList Span PackedCache PageMap SysEnv PageHeap SpanStore.
From S2P Require Import PageHeapInv PageHeapOps PageHeapAlloc PageHeapGrow PageHeapNew CentralFreeList.

(** What the lists rely on from the size-class tables. *)
Record size_map_ok (sm : SizeMap) : Prop := {
  smo_num : 1 < num_size_classes sm <= 128;
  smo_size c : 1 <= c < num_size_classes sm -> 8 <= ByteSizeForClass sm c <= kMaxSize;
  smo_pages c : 1 <= c < num_size_classes sm -> 0 < class_to_pages sm c < 2 ^ 31;
  smo_objects c : 1 <= c < num_size_classes sm ->
    0 < class_to_pages sm c * 8192 / ByteSizeForClass sm c < 2 ^ 16;
  smo_move c : 1 <= c < num_size_classes sm -> 0 < num_objects_to_move sm c <= 8192;
  smo_move_bytes c : 1 <= c < num_size_classes sm ->
    num_objects_to_move sm c * ByteSizeForClass sm c < 2 ^ 31;
  smo_multiple c : 1 <= c < num_size_classes sm -> class_to_pages sm c mod min_span_size_in_pages_ sm = 0;
  smo_zero : class_to_size sm 0 = 0;
  smo_align c : 1 <= c < num_size_classes sm ->
    ByteSizeForClass sm c mod 8 = 0 /\ (8 < ByteSizeForClass sm c -> ByteSizeForClass sm c mod 16 = 0)
}.

(** The objects of a span that starts at page [st]: [n] objects of [size] bytes. *)
Definition objs (size n st : Z) : list Z := (fun k => st * 8192 + k * size) <$> seqZ 0 n.

Lemma elem_of_objs size n st x :
  x ∈ objs size n st <-> exists k, 0 <= k < n /\ x = st * 8192 + k * size.
Proof.
  unfold objs. rewrite list_elem_of_fmap. split.
  - intros (k & -> & Hk%elem_of_seqZ). exists k. split; [lia|done].
  - intros (k & Hk & ->). exists k. split; [done|]. apply elem_of_seqZ. lia.
Qed.

Lemma NoDup_objs size n st : 0 < size -> NoDup (objs size n st).
Proof. intros Hs. apply NoDup_fmap_2_strong; [|apply NoDup_seqZ]. intros x y _ _ Heq. nia. Qed.

Lemma length_objs size n st : List.length (objs size n st) = Z.to_nat n.
Proof. unfold objs. by rewrite length_fmap, length_seqZ. Qed.

(** What is known of a class beyond its state: its spans with and without free objects,
    the free objects of each span, the chains in the transfer cache, and the objects
    that are outside. *)
Record ghost := mkGhost {
  g_nonempty : list Z;
  g_empty : list Z;
  g_free : Z -> list Z;
  g_slots : list (list Z);
  g_out : gset Z
}.

Definition g_spans (g : ghost) : list Z := g_nonempty g ++ g_empty g.
Definition g_cached (g : ghost) : list Z := mjoin (g_slots g).
(** Not free in a span. *)
Definition g_held (g : ghost) (x : Z) : Prop := x ∈ g_out g \/ x ∈ g_cached g.
Definition g_count (g : ghost) : Z :=
  foldr (fun p acc => Z.of_nat (List.length (g_free g p)) + acc) 0 (g_spans g).

(** ** Counting *)

Lemma count_perm (f : Z -> Z) (l l' : list Z) : l ≡ₚ l' ->
  foldr (fun p acc => f p + acc) 0 l = foldr (fun p acc => f p + acc) 0 l'.
Proof. induction 1; simpl; lia. Qed.

Lemma count_ext (f f' : Z -> Z) (l : list Z) : (forall q, q ∈ l -> f q = f' q) ->
  foldr (fun p acc => f p + acc) 0 l = foldr (fun p acc => f' p + acc) 0 l.
Proof.
  induction l as [|x l IH]; intros Hf; simpl; [done|].
  rewrite (Hf x) by (by left). rewrite IH; [done|]. intros q Hq. apply Hf. by right.
Qed.

Lemma count_remove (f : Z -> Z) (l l' : list Z) p : NoDup l -> NoDup l' -> p ∈ l ->
  (forall q, q ∈ l' <-> q ∈ l /\ q <> p) ->
  foldr (fun p acc => f p + acc) 0 l = f p + foldr (fun p acc => f p + acc) 0 l'.
Proof.
  intros Hnd Hnd' Hp Hl. apply (count_perm f l (p :: l')). apply NoDup_Permutation; [done| |].
  - constructor; [|done]. intros [_ ?]%Hl. done.
  - intros q. rewrite elem_of_cons, Hl. destruct (decide (q = p)) as [->|]; naive_solver.
Qed.

(** The free objects of one span change. *)
Lemma g_count_update g g' p :
  NoDup (g_spans g) -> NoDup (g_spans g') -> (forall q, q ∈ g_spans g' <-> q ∈ g_spans g) -> p ∈ g_spans g ->
  (forall q, q <> p -> g_free g' q = g_free g q) ->
  g_count g' = g_count g - Z.of_nat (List.length (g_free g p)) + Z.of_nat (List.length (g_free g' p)).
Proof.
  intros Hnd Hnd' Hl Hp HF. unfold g_count.
  rewrite (count_perm _ (g_spans g') (g_spans g)) by (by apply NoDup_Permutation).
  set (l := g_spans g) in *. clearbody l. clear Hl Hnd'.
  induction l as [|x l IH]; [by apply not_elem_of_nil in Hp|]. apply NoDup_cons in Hnd as [Hx Hnd]. simpl.
  destruct (decide (x = p)) as [->|Hne].
  - rewrite (count_ext (fun q => Z.of_nat (List.length (g_free g' q))) (fun q => Z.of_nat (List.length (g_free g q)))).
    + lia.
    + intros q Hq. rewrite HF; [done|]. by intros ->.
  - apply elem_of_cons in Hp as [?|Hp]; [congruence|]. rewrite IH, HF by done. lia.
Qed.

(** A list without repetition inside another one. *)
Lemma NoDup_subset_length (l l' : list Z) : NoDup l -> (forall x, x ∈ l -> x ∈ l') -> (List.length l <= List.length l')%nat.
Proof.
  intros Hnd Hin. apply NoDup_incl_length; [by apply NoDup_ListNoDup|].
  intros x Hx. apply list_elem_of_In, Hin, list_elem_of_In, Hx.
Qed.

Section CentralInv.
Context {W : Type} {E : Env W} {P : PageMap W} {G : EnvGhost W}.
Context {ens : pm_t -> Z -> Prop} {free_ central_cache_ : Z} {sm : SizeMap}.
Context {EL : EnvLaws W} {PL : PageMapLaws MetaDataAlloc P ens} {HLay : HeapLayout free_}.

Implicit Types (st : Heap) (h : PageHeap) (p q : Z) (s t : Span) (g : ghost) (L : links).

Abbreviation Inv := (Inv ens free_).
Abbreviation keeps := (keeps free_).
Abbreviation empty_ := (empty_ central_cache_).
Abbreviation nonempty_ := (nonempty_ central_cache_).
Abbreviation nclasses := (num_size_classes sm).
Abbreviation spans_of st := (st.(pageheap).(spans)).
Abbreviation links_of st := (st.(pageheap).(span_links)).

(** The array [central_cache_] is a static object apart from the page heap. *)
Class CentralLayout : Prop := {
  cl_static cl : 0 <= cl < nclasses -> static_addr (empty_ cl) /\ static_addr (nonempty_ cl);
  cl_apart cl : 0 <= cl < nclasses -> ~ is_header free_ (empty_ cl) /\ ~ is_header free_ (nonempty_ cl)
}.

Definition total (cl : Z) : Z := class_to_pages sm cl * 8192 / ByteSizeForClass sm cl.
Definition span_objs (cl : Z) s : list Z := objs (ByteSizeForClass sm cl) (total cl) s.(start).

(** [p] is a span of class [cl]. *)
Definition in_class (cl : Z) st p s : Prop :=
  spans_of st !! p = Some s /\ s.(location) = IN_USE /\ s.(sizeclass) = cl.

Record span_rep (cl : Z) st g p s : Prop := {
  sr_length : s.(length_) = class_to_pages sm cl;
  sr_list : sll st.(memory) s.(objects) (g_free g p);
  sr_refcount : s.(refcount) = total cl - Z.of_nat (List.length (g_free g p));
  sr_where : g_free g p = [] <-> p ∈ g_empty g;
  sr_free x : x ∈ g_free g p <-> x ∈ span_objs cl s /\ ~ g_held g x
}.

Definition slot_rep (cl : Z) st (i : nat) (os : list Z) : Prop :=
  exists head tail, (cfl st cl).(tc_slots_) !! Z.of_nat i = Some (head, tail) /\
    sll st.(memory) head os /\ last os = Some tail /\ Z.of_nat (List.length os) = num_objects_to_move sm cl.

Record central_rep (cl : Z) g st : Prop := {
  cr_nonempty : dll (links_of st) (nonempty_ cl) (g_nonempty g);
  cr_empty : dll (links_of st) (empty_ cl) (g_empty g);
  cr_nodup : NoDup (g_spans g);
  cr_spans p : p ∈ g_spans g <-> cl <> 0 /\ exists s, in_class cl st p s;
  cr_span p s : cl <> 0 -> in_class cl st p s -> span_rep cl st g p s;
  cr_held x : g_held g x -> cl <> 0 /\ exists p s, in_class cl st p s /\ x ∈ span_objs cl s;
  cr_slots i os : g_slots g !! i = Some os -> slot_rep cl st i os;
  cr_used : (cfl st cl).(used_slots_) = Z.of_nat (List.length (g_slots g));
  cr_cached : NoDup (g_cached g);
  cr_apart x : x ∈ g_out g -> x ∉ g_cached g;
  cr_counter : (cfl st cl).(counter_) = u64 (g_count g);
  cr_num : (cfl st cl).(num_spans_) = u64 (Z.of_nat (List.length (g_spans g)));
  cr_size : (cfl st cl).(used_slots_) <= (cfl st cl).(cache_size_) <= (cfl st cl).(max_cache_size_);
  cr_max : (cfl st cl).(max_cache_size_) <= kMaxNumTransferEntries;
  cr_class : (cfl st cl).(size_class_) = cl
}.

(** The size-class cache never gives a wrong answer about a span in use, and none about
    the page of the null pointer. *)
Definition cache_ok st : Prop := TryGetSizeClass st.(pageheap) 0 = None /\ forall p s, spans_of st !! p = Some s -> s.(location) = IN_USE ->
  (s.(sizeclass) = 0 -> TryGetSizeClass st.(pageheap) s.(start) = None) /\
  (s.(sizeclass) <> 0 -> forall k v, covers s k -> TryGetSizeClass st.(pageheap) k = Some v -> v = s.(sizeclass)).

(** All classes. *)
Record heap_rep (strict : bool) (Gs : Z -> ghost) st : Prop := {
  hr_inv : Inv strict ∅ 0 st.(pageheap);
  hr_central cl : 0 <= cl < nclasses -> central_rep cl (Gs cl) st;
  hr_classes p s : spans_of st !! p = Some s -> s.(location) = IN_USE -> 0 <= s.(sizeclass) < nclasses;
  hr_cache : cache_ok st;
  hr_race : 0 <= st.(race_counter) <= nclasses;
  hr_smallest : st.(pageheap).(smallest_span_size_) = min_span_size_in_pages_ sm
}.

Definition set_ghost (cl : Z) g (Gs : Z -> ghost) : Z -> ghost :=
  fun c => if decide (c = cl) then g else Gs c.

Lemma set_ghost_eq cl g Gs : set_ghost cl g Gs cl = g.
Proof. unfold set_ghost. by rewrite decide_True. Qed.

Lemma set_ghost_ne cl g Gs c : c <> cl -> set_ghost cl g Gs c = Gs c.
Proof. intros. unfold set_ghost. by rewrite decide_False. Qed.

Context (Hsm : size_map_ok sm) {CLay : CentralLayout}.

Lemma headers_inj c c' : c <> c' ->
  empty_ c <> empty_ c' /\ nonempty_ c <> nonempty_ c' /\ empty_ c <> nonempty_ c' /\ nonempty_ c <> empty_ c'.
Proof.
  unfold CentralFreeList.empty_, CentralFreeList.nonempty_, offset_empty, offset_nonempty, sizeof_CentralFreeList. lia.
Qed.

Lemma headers_ne c : empty_ c <> nonempty_ c.
Proof. unfold CentralFreeList.empty_, CentralFreeList.nonempty_, offset_empty, offset_nonempty. lia. Qed.

(** The page of an object is a page of its span. *)
Lemma obj_page cl s x : 1 <= cl < nclasses -> s.(length_) = class_to_pages sm cl -> 0 < s.(start) ->
  x ∈ span_objs cl s -> covers s (x / 8192) /\ 0 < x /\ x + ByteSizeForClass sm cl <= (s.(start) + s.(length_)) * 8192.
Proof.
  intros Hc Hl Hst (k & Hk & ->)%elem_of_objs. destruct (smo_size _ Hsm cl Hc). destruct (smo_pages _ Hsm cl Hc).
  unfold total in Hk. set (b := ByteSizeForClass sm cl) in *. set (n := class_to_pages sm cl) in *.
  assert ((k + 1) * b <= n * 8192).
  { pose proof (Z.mul_div_le (n * 8192) b ltac:(lia)). nia. }
  assert (0 <= k * b < n * 8192) by nia.
  unfold covers. rewrite Hl. split; [|nia]. split.
  - apply Z.div_le_lower_bound; lia.
  - apply Z.div_lt_upper_bound; lia.
Qed.

(** Objects of different spans are different. *)
Lemma objs_disjoint strict h cl cl' p q s t x :
  Inv strict ∅ 0 h -> h.(spans) !! p = Some s -> h.(spans) !! q = Some t ->
  1 <= cl < nclasses -> 1 <= cl' < nclasses -> s.(length_) = class_to_pages sm cl -> t.(length_) = class_to_pages sm cl' ->
  x ∈ span_objs cl s -> x ∈ span_objs cl' t -> p = q.
Proof.
  intros HI Hp Hq Hc Hc' Hl Hl' Hx Hx'.
  destruct (Inv_ok _ _ _ _ _ _ _ _ HI Hp) as [_ _ _ ? _ _ _], (Inv_ok _ _ _ _ _ _ _ _ HI Hq) as [_ _ _ ? _ _ _].
  destruct (obj_page cl s x Hc Hl ltac:(done) Hx) as [H1 _].
  destruct (obj_page cl' t x Hc' Hl' ltac:(done) Hx') as [H2 _].
  by eapply (g_disjoint _ _ _ _ _ _ _ (i_geom _ _ _ _ _ _ HI)).
Qed.

(** A word inside an object that is the first one of an object is its first one. *)
Lemma obj_inside strict h c cl p q s t x a :
  Inv strict ∅ 0 h -> h.(spans) !! p = Some s -> h.(spans) !! q = Some t -> s.(sizeclass) = c -> t.(sizeclass) = cl ->
  1 <= c < nclasses -> 1 <= cl < nclasses -> s.(length_) = class_to_pages sm c -> t.(length_) = class_to_pages sm cl ->
  x ∈ span_objs c s -> a ∈ span_objs cl t -> x <= a < x + ByteSizeForClass sm c -> c = cl /\ a = x.
Proof.
  intros HI Hp Hq Hs Ht Hc Hcl Hl Hl' Hx Ha Hin.
  destruct (Inv_ok _ _ _ _ _ _ _ _ HI Hp) as [_ _ _ Hst _ _ _], (Inv_ok _ _ _ _ _ _ _ _ HI Hq) as [_ _ _ Hst' _ _ _].
  destruct (obj_page c s x Hc Hl Hst Hx) as (Hcx & Hx0 & Hxe). destruct (obj_page cl t a Hcl Hl' Hst' Ha) as (Hca & _ & _).
  assert (Hcs : covers s (a / 8192)).
  { unfold covers in *. pose proof (Z.div_mod x 8192 ltac:(lia)). pose proof (Z.mod_pos_bound x 8192 ltac:(lia)).
    split; [|apply Z.div_lt_upper_bound; lia]. transitivity (x / 8192); [lia|]. apply Z.div_le_mono; lia. }
  assert (p = q) as <- by (by eapply (g_disjoint _ _ _ _ _ _ _ (i_geom _ _ _ _ _ _ HI))). assert (t = s) as -> by congruence.
  assert (cl = c) as -> by congruence. split; [done|].
  apply elem_of_objs in Hx as (k & Hk & ->), Ha as (j & Hj & ->). assert (j = k) as -> by nia. done.
Qed.

(** ** Steps on one class *)

(** What a step on class [cl] that writes only the words of [T] leaves alone. *)
Record local (cl : Z) (T : gset Z) st st' : Prop := {
  lo_span p s : s.(location) = IN_USE -> s.(sizeclass) <> cl -> spans_of st !! p = Some s <-> spans_of st' !! p = Some s;
  lo_link p s : spans_of st !! p = Some s -> s.(location) = IN_USE -> s.(sizeclass) <> cl ->
    links_agree (links_of st) (links_of st') p;
  lo_static a : static_addr a -> ~ is_header free_ a -> a <> empty_ cl -> a <> nonempty_ cl ->
    links_agree (links_of st) (links_of st') a;
  lo_mem x : x ∉ T -> st'.(memory) !! x = st.(memory) !! x;
  lo_cfl c : c <> cl -> cfl st' c = cfl st c;
  lo_race : st'.(race_counter) = st.(race_counter);
  lo_smallest : st'.(pageheap).(smallest_span_size_) = st.(pageheap).(smallest_span_size_)
}.

(** The written words are objects of spans of class [cl]. *)
Definition touches (cl : Z) (T : gset Z) st : Prop :=
  forall x, x ∈ T -> exists p s, in_class cl st p s /\ s.(length_) = class_to_pages sm cl /\ x ∈ span_objs cl s.

Lemma local_in_class cl T st st' c p s : local cl T st st' -> c <> cl -> in_class c st p s <-> in_class c st' p s.
Proof.
  intros Hlo Hc. unfold in_class. split; intros (Hp & Hl & <-); (split_and!; [|done|done]);
    by apply (lo_span _ _ _ _ Hlo p s Hl Hc).
Qed.

Lemma sll_agree m m' a l : (forall x, x ∈ l -> m' !! x = m !! x) -> sll m a l -> sll m' a l.
Proof.
  intros Hm [Hs Hnd]. split; [|done]. clear Hnd. revert a Hs. induction l as [|x l IH]; intros a Hs; [done|].
  destruct Hs as (-> & Hx & Hs). simpl. split_and!; [done|done|].
  unfold SLL_Next in *. rewrite Hm by (by left). apply IH; [|done]. intros y Hy. apply Hm. by right.
Qed.

(** The words another class depends on are its objects. *)
Lemma touches_apart strict cl c T st st' p s x :
  Inv strict ∅ 0 st.(pageheap) -> Inv strict ∅ 0 st'.(pageheap) -> local cl T st st' ->
  (forall x, x ∈ T -> touches cl {[x]} st \/ touches cl {[x]} st') ->
  (T = ∅ \/ 1 <= cl < nclasses) -> 1 <= c < nclasses -> c <> cl ->
  in_class c st p s -> s.(length_) = class_to_pages sm c -> x ∈ span_objs c s -> x ∉ T.
Proof.
  intros HI HI' Hlo HT [->|Hcl] Hc Hne Hp Hl Hx HxT; [by apply not_elem_of_empty in HxT|]. pose proof (proj1 (local_in_class _ _ _ _ c p s Hlo Hne) Hp) as Hp'.
  assert (Hno : forall w q t, Inv strict ∅ 0 w.(pageheap) -> in_class c w p s -> in_class cl w q t ->
    t.(length_) = class_to_pages sm cl -> x ∈ span_objs cl t -> False).
  { intros w q t HIw (Hp1 & _ & Hp2) (Hq1 & _ & Hq2) Hlt Hxt.
    assert (p = q) as <- by exact (objs_disjoint strict w.(pageheap) c cl p q s t x HIw Hp1 Hq1 Hc Hcl Hl Hlt Hx Hxt).
    congruence. }
  destruct (HT x HxT) as [Ht|Ht]; destruct (Ht x ltac:(by apply elem_of_singleton)) as (q & t & Hq & Hlt & Hxt); eauto.
Qed.

(** Everything the invariant of class [c] depends on stays. *)
Lemma central_frame strict cl c T g st st' :
  Inv strict ∅ 0 st.(pageheap) -> Inv strict ∅ 0 st'.(pageheap) -> local cl T st st' ->
  (forall x, x ∈ T -> touches cl {[x]} st \/ touches cl {[x]} st') ->
  (T = ∅ \/ 1 <= cl < nclasses) -> 0 <= c < nclasses -> c <> cl ->
  central_rep c g st -> central_rep c g st'.
Proof.
  intros HI HI' Hlo HT Hcl Hc Hne Hrep. pose proof Hrep as [].
  assert (Hcf : cfl st' c = cfl st c) by (by apply (lo_cfl _ _ _ _ Hlo)).
  assert (Hic : forall p s, in_class c st p s <-> in_class c st' p s) by (intros; by eapply local_in_class).
  destruct (cl_static c Hc) as [Hs1 Hs2]. destruct (cl_apart c Hc) as [Ha1 Ha2].
  destruct (headers_inj c cl Hne) as (? & ? & ? & ?).
  assert (Hlk : forall y, y ∈ g_spans g -> links_agree (links_of st) (links_of st') y).
  { intros y (Hc0 & s & Hp & Hl & Hs)%cr_spans0. eapply (lo_link _ _ _ _ Hlo); [done..|congruence]. }
  assert (Hmem : forall p s x, c <> 0 -> in_class c st p s -> x ∈ span_objs c s -> st'.(memory) !! x = st.(memory) !! x).
  { intros p s x Hc0 Hp Hx. apply (lo_mem _ _ _ _ Hlo). eapply (touches_apart strict cl c T st st' p s); try done; [lia|].
    by apply (cr_span0 p s Hc0 Hp). }
  assert (Hheld : forall x, g_held g x -> st'.(memory) !! x = st.(memory) !! x).
  { intros x Hx. destruct (cr_held0 x Hx) as (Hc0 & p & s & Hp & Hxs). eauto. }
  split; rewrite ?Hcf; try done.
  - eapply dll_agree; [done|]. intros y [->|Hy]%elem_of_cons; [by apply (lo_static _ _ _ _ Hlo)|].
    apply Hlk. unfold g_spans. set_solver.
  - eapply dll_agree; [done|]. intros y [->|Hy]%elem_of_cons; [by apply (lo_static _ _ _ _ Hlo)|].
    apply Hlk. unfold g_spans. set_solver.
  - intros p. rewrite cr_spans0. split; intros (Hc0 & s & Hs); (split; [done|]); exists s; by apply Hic.
  - intros p s Hc0 Hp. apply Hic in Hp. destruct (cr_span0 p s Hc0 Hp). split; try done.
    eapply sll_agree; [|done]. intros x [Hx _]%sr_free0. eauto.
  - intros x Hx. destruct (cr_held0 x Hx) as (Hc0 & p & s & Hp & Hxs). split; [done|]. exists p, s. by rewrite <- Hic.
  - intros i os Hi. destruct (cr_slots0 i os Hi) as (hd & tl & Hsl & Hsll & Hla & Hlen). exists hd, tl.
    rewrite Hcf. split_and!; try done. eapply sll_agree; [|done]. intros x Hx. apply Hheld. right.
    unfold g_cached. apply list_elem_of_join. exists os. split; [done|]. by apply list_elem_of_lookup_2 with i.
Qed.

Lemma heap_rep_local strict cl T g' Gs st st' :
  heap_rep strict Gs st -> Inv strict ∅ 0 st'.(pageheap) -> local cl T st st' ->
  (forall x, x ∈ T -> touches cl {[x]} st \/ touches cl {[x]} st') ->
  1 <= cl < nclasses -> central_rep cl g' st' -> cache_ok st' -> heap_rep strict (set_ghost cl g' Gs) st'.
Proof.
  intros [] HI' Hlo HT Hcl Hrep Hca. split; try done.
  - intros c Hc. destruct (decide (c = cl)) as [->|Hne]; [by rewrite set_ghost_eq|].
    rewrite set_ghost_ne by done. by apply (central_frame strict cl c T (Gs c) st st'); auto.
  - intros p s Hp Hl. destruct (decide (s.(sizeclass) = cl)) as [->|Hne]; [lia|].
    apply (hr_classes0 p); [|done]. by apply (lo_span _ _ _ _ Hlo p s).
  - by rewrite (lo_race _ _ _ _ Hlo).
  - by rewrite (lo_smallest _ _ _ _ Hlo).
Qed.

(** What a client of the central lists sees of a step that takes the objects of [X]
    away from it: large spans, and objects outside, stay as they are. *)
Record visible (X : gset Z) (Gs : Z -> ghost) st st' : Prop := {
  vi_large p s : s.(location) = IN_USE -> s.(sizeclass) = 0 -> spans_of st !! p = Some s <-> spans_of st' !! p = Some s;
  vi_link p s : spans_of st !! p = Some s -> s.(location) = IN_USE -> s.(sizeclass) = 0 ->
    links_agree (links_of st) (links_of st') p;
  vi_static a : static_addr a -> ~ is_header free_ a ->
    (forall c, 0 <= c < nclasses -> a <> empty_ c /\ a <> nonempty_ c) -> links_agree (links_of st) (links_of st') a;
  vi_obj c x a : 0 <= c < nclasses -> x ∈ g_out (Gs c) -> x ∉ X -> x <= a < x + ByteSizeForClass sm c ->
    st'.(memory) !! a = st.(memory) !! a;
  vi_page p s x : spans_of st !! p = Some s -> s.(location) = IN_USE -> s.(sizeclass) = 0 -> covers s (x / 8192) ->
    st'.(memory) !! x = st.(memory) !! x
}.

Lemma vi_first X Gs st st' c x : visible X Gs st st' -> 1 <= c < nclasses -> x ∈ g_out (Gs c) -> x ∉ X ->
  st'.(memory) !! x = st.(memory) !! x.
Proof. intros Hv Hc Hx HX. destruct (smo_size _ Hsm c Hc). apply (vi_obj _ _ _ _ Hv c x x); try done; lia. Qed.

Lemma visible_refl X Gs st : visible X Gs st st.
Proof. by split. Qed.

Lemma visible_mono X Y Gs st st' : visible X Gs st st' -> X ⊆ Y -> visible Y Gs st st'.
Proof. intros [] HXY. split; eauto. Qed.

Lemma visible_trans X Y G1 G2 st1 st2 st3 :
  visible X G1 st1 st2 -> visible Y G2 st2 st3 ->
  (forall c x, 0 <= c < nclasses -> x ∈ g_out (G1 c) -> x ∉ X ∪ Y -> x ∈ g_out (G2 c)) ->
  visible (X ∪ Y) G1 st1 st3.
Proof.
  intros [A1 A2 A3 A4 A5] [B1 B2 B3 B4 B5] Hout. split.
  - intros p s Hl Hc. rewrite A1, B1 by done. done.
  - intros p s Hp Hl Hc. eapply links_agree_trans; [by eapply A2|]. eapply B2; [by apply A1|done..].
  - intros a Ha Hh Hn. eapply links_agree_trans; eauto.
  - intros c x a Hc Hx HX Ha. rewrite (B4 c x a), (A4 c x a); try done; set_solver.
  - intros p s x Hp Hl Hc Hx. rewrite (B5 p s), (A5 p s); try done. by apply A1.
Qed.

(** No object outside has the first word of another object inside. *)
Lemma out_inside strict Gs st c cl x a :
  heap_rep strict Gs st -> 0 <= c < nclasses -> 1 <= cl < nclasses -> x ∈ g_out (Gs c) -> touches cl {[a]} st ->
  x <= a < x + ByteSizeForClass sm c -> c = cl /\ a = x.
Proof.
  intros [] Hc Hcl Hx Ht Ha. destruct (cr_held _ _ _ (hr_central0 c Hc) x) as (Hc0 & p & s & Hp & Hxs); [by left|].
  pose proof (sr_length _ _ _ _ _ (cr_span _ _ _ (hr_central0 c Hc) p s Hc0 Hp)) as Hl.
  destruct (Ht a ltac:(by apply elem_of_singleton)) as (q & t & Hq & Hlt & Hat). destruct Hp as (Hp & _ & Hps), Hq as (Hq & _ & Hqs).
  by apply (obj_inside strict st.(pageheap) c cl p q s t x a); try done; lia.
Qed.

Lemma local_visible strict cl T X Gs st st' :
  heap_rep strict Gs st -> Inv strict ∅ 0 st'.(pageheap) -> local cl T st st' ->
  (forall x, x ∈ T -> touches cl {[x]} st \/ touches cl {[x]} st') ->
  1 <= cl < nclasses ->
  (forall a x, a ∈ T -> x ∈ g_out (Gs cl) -> x <= a < x + ByteSizeForClass sm cl -> x ∈ X) -> visible X Gs st st'.
Proof.
  intros Hrep HI' Hlo HT Hcl HX. pose proof Hrep as []. split.
  - intros p s Hl Hc. apply (lo_span _ _ _ _ Hlo); [done|lia].
  - intros p s Hp Hl Hc. apply (lo_link _ _ _ _ Hlo p s); [done|done|lia].
  - intros a Ha Hh Hn. apply (lo_static _ _ _ _ Hlo a Ha Hh); apply (Hn cl); lia.
  - intros c x a Hc Hx HxX Ha. apply (lo_mem _ _ _ _ Hlo). intros HaT.
    destruct (cr_held _ _ _ (hr_central0 c Hc) x) as (Hc0 & p & s & Hp & Hxs); [by left|].
    pose proof (sr_length _ _ _ _ _ (cr_span _ _ _ (hr_central0 c Hc) p s Hc0 Hp)) as Hl. assert (Hc1 : 1 <= c < nclasses) by lia.
    (* the written word is the first one of an object of [cl] *)
    assert (Hin : forall w q t, Inv strict ∅ 0 w.(pageheap) -> in_class c w p s -> in_class cl w q t ->
      t.(length_) = class_to_pages sm cl -> a ∈ span_objs cl t -> c = cl /\ a = x).
    { intros w q t HIw (Hpw & _ & Hps) (Hqw & _ & Hqs) Hlt Hat. by apply (obj_inside strict w.(pageheap) c cl p q s t x a). }
    destruct (decide (c = cl)) as [->|Hne]; [by apply HxX, (HX a x)|]. apply Hne.
    pose proof (proj1 (local_in_class _ _ _ _ c p s Hlo Hne) Hp) as Hp'.
    destruct (HT a HaT) as [Ht|Ht]; destruct (Ht a ltac:(by apply elem_of_singleton)) as (q & t & Hq & Hlt & Hat);
      [by apply (Hin st q t)|by apply (Hin st' q t)].
  - intros p s x Hp Hl Hc Hx. apply (lo_mem _ _ _ _ Hlo). intros HxT.
    assert (Hno : forall w q t, Inv strict ∅ 0 w.(pageheap) -> spans_of w !! p = Some s -> in_class cl w q t ->
      t.(length_) = class_to_pages sm cl -> x ∈ span_objs cl t -> False).
    { intros w q t HIw Hpw (Hq1 & _ & Hq2) Hlt Hxt.
      destruct (Inv_ok _ _ _ _ _ _ _ _ HIw Hq1) as [_ _ _ ? _ _ _].
      destruct (obj_page cl t x Hcl Hlt ltac:(done) Hxt) as [Hcv _].
      assert (p = q) as <- by (by eapply (g_disjoint _ _ _ _ _ _ _ (i_geom _ _ _ _ _ _ HIw))).
      simplify_eq. lia. }
    pose proof (proj1 (lo_span _ _ _ _ Hlo p s Hl ltac:(lia)) Hp) as Hp'.
    destruct (HT x HxT) as [Ht|Ht]; destruct (Ht x ltac:(by apply elem_of_singleton)) as (q & t & Hq & Hlt & Hxt); eauto.
Qed.

(** ** Changing fields and links of spans in use *)

Lemma Inv_store_in_use strict h p s s' :
  Inv strict ∅ 0 h -> h.(spans) !! p = Some s -> s.(location) = IN_USE ->
  s'.(start) = s.(start) -> s'.(length_) = s.(length_) -> s'.(location) = IN_USE -> s'.(sizeclass) = s.(sizeclass) ->
  Inv strict ∅ 0 (upd_spans (<[p := s']>) h).
Proof.
  intros HI Hp Hl Hst Hln Hl' Hsc.
  assert (HI1 : Inv strict {[p]} 0 h).
  { apply Inv_in_use with ∅; [|done]. intros q t Hq Hlt. split; [set_solver|]. intros ->%elem_of_singleton. congruence. }
  assert (HI2 : Inv strict {[p]} 0 (upd_spans (<[p := s']>) h)).
  { replace 0 with (0 + free_len ON_RETURNED_FREELIST s - free_len ON_RETURNED_FREELIST s').
    - apply Inv_store_detached; try done. by apply elem_of_singleton.
    - unfold free_len. by rewrite Hl, Hl'. }
  apply Inv_in_use with {[p]}; [|done]. simpl. intros q t Hq Hlt. split; [|set_solver].
  intros ->%elem_of_singleton. rewrite lookup_insert_eq in Hq. congruence.
Qed.

Lemma Inv_links strict D e h L' :
  Inv strict D e h -> (forall y, list_node (free_list free_) h.(spans) y -> links_agree h.(span_links) L' y) ->
  Inv strict D e (upd_span_links (fun _ => L') h).
Proof.
  intros [] HL. split; simpl; try done. intros loc Hloc. destruct (i_lists loc Hloc) as [Hsm' Hlg]. split; [|done].
  intros i Hi. eapply small_frame; [by apply Hsm'|done| |].
  - apply HL. left. eauto.
  - intros y (s & Hy & _ & Hl & _). apply HL. right. exists s. split; [done|congruence].
Qed.

(** A step of the page heap alone. *)
Lemma local_keeps st h' : keeps ∅ st.(pageheap) h' -> local (-1) ∅ st (upd_pageheap h' st).
Proof.
  intros []. split; simpl; try done.
  - intros p s Hl _. split; intros Hp; [by eapply k_span|by eapply k_span'].
  - intros p s Hp Hl _. by eapply k_link.
  - intros a Ha Hh _ _. by apply k_static.
  - by destruct k_config as (? & _).
Qed.

Lemma covered_range strict D e h p s k : Inv strict D e h -> h.(spans) !! p = Some s -> covers s k -> 0 <= k < 2 ^ 64.
Proof.
  intros HI Hp Hk. destruct (Inv_ok _ _ _ _ _ _ _ _ HI Hp) as [_ _ _ ? _ Hend _]. unfold covers in Hk.
  assert (page_limit = 2 ^ 35) by done. lia.
Qed.

(** No span more and nothing more in the cache. *)
Lemma cache_ok_shrink strict st st' :
  cache_ok st -> Inv strict ∅ 0 st'.(pageheap) ->
  (forall p s, spans_of st' !! p = Some s -> s.(location) = IN_USE -> spans_of st !! p = Some s) ->
  (forall k v, 0 <= k < 2 ^ 64 -> TryGetSizeClass st'.(pageheap) k = Some v -> TryGetSizeClass st.(pageheap) k = Some v) ->
  cache_ok st'.
Proof.
  intros [Hnull Hok] HI' HS Hc. split.
  { destruct (TryGetSizeClass st'.(pageheap) 0) as [v|] eqn:Hv; [|done]. apply Hc in Hv; [congruence|lia]. }
  intros p s Hp Hl. destruct (Hok p s (HS p s Hp Hl) Hl) as [H0 Hn].
  assert (Hst : covers s s.(start)) by (destruct (Inv_ok _ _ _ _ _ _ _ _ HI' Hp); unfold covers; lia). split.
  - intros H1. destruct (TryGetSizeClass st'.(pageheap) s.(start)) as [v|] eqn:Hv; [|done].
    apply Hc in Hv; [|by apply (covered_range strict ∅ 0 st'.(pageheap) p s)]. rewrite H0 in Hv; done.
  - intros H1 k v Hkc Hv. apply (Hn H1 k v Hkc). apply Hc; [|done]. by apply (covered_range strict ∅ 0 st'.(pageheap) p s).
Qed.

Lemma heap_rep_keeps strict Gs st h' :
  heap_rep strict Gs st -> Inv strict ∅ 0 h' -> keeps ∅ st.(pageheap) h' ->
  heap_rep strict Gs (upd_pageheap h' st) /\ visible ∅ Gs st (upd_pageheap h' st).
Proof.
  intros Hrep HI' Hk. pose proof (local_keeps st h' Hk) as Hlo. pose proof Hrep as []. split.
  - split; try done.
    + intros c Hc. eapply (central_frame strict (-1) c ∅ (Gs c) st); try done; [by left|lia|by apply hr_central0].
    + simpl. intros p s Hp Hl. by apply (hr_classes0 p s (k_span' _ _ _ _ Hk p s Hp Hl (not_elem_of_empty p))).
    + eapply cache_ok_shrink; [apply hr_cache0|done| |by apply (k_cache _ _ _ _ Hk)].
      simpl. intros p s Hp Hl. by apply (k_span' _ _ _ _ Hk p s Hp Hl (not_elem_of_empty p)).
    + simpl. destruct Hk as [_ _ _ _ _ _ (? & _) _]. congruence.
  - destruct Hk. split; simpl; try done.
    + intros p s Hl _. split; intros Hp; [by eapply k_span|by eapply k_span'].
    + intros p s Hp Hl _. by eapply k_link.
    + intros a Ha Hh _. by apply k_static.
Qed.

(** A change of one span [p] of the class. *)
Lemma central_update strict cl g g' st st' p s s' :
  Inv strict ∅ 0 st.(pageheap) -> 1 <= cl < nclasses -> central_rep cl g st -> in_class cl st p s ->
  spans_of st' = <[p := s']> (spans_of st) ->
  s'.(start) = s.(start) -> s'.(location) = IN_USE -> s'.(sizeclass) = cl ->
  (forall x, x ∈ g_cached g -> st'.(memory) !! x = st.(memory) !! x) ->
  (forall x, x ∉ span_objs cl s -> st'.(memory) !! x = st.(memory) !! x) ->
  dll (links_of st') (nonempty_ cl) (g_nonempty g') -> dll (links_of st') (empty_ cl) (g_empty g') ->
  NoDup (g_spans g') -> (forall q, q ∈ g_spans g' <-> q ∈ g_spans g) ->
  (forall q, q <> p -> g_free g' q = g_free g q) -> (forall q, q <> p -> q ∈ g_empty g' <-> q ∈ g_empty g) ->
  span_rep cl st' g' p s' ->
  (forall x, x ∉ span_objs cl s -> g_held g' x <-> g_held g x) ->
  g_slots g' = g_slots g -> (forall x, x ∈ g_out g' -> x ∉ g_cached g) ->
  cfl st' cl = set_counter (u64 (g_count g')) (cfl st cl) ->
  central_rep cl g' st'.
Proof.
  intros HI Hcl Hrep Hp HS Hst Hl' Hsc' Hmc Hmem Hne He Hnd Hls HF Hem Hsr Hheld Hsl Hap Hcf. pose proof Hrep as [].
  assert (Hcl0 : cl <> 0) by lia. pose proof (cr_span0 p s Hcl0 Hp) as Hsr0. pose proof Hp as (Hp1 & Hp2 & Hp3).
  assert (Hic : forall q t, in_class cl st' q t <-> q = p /\ t = s' \/ q <> p /\ in_class cl st q t).
  { intros q t. unfold in_class. rewrite HS. destruct (decide (q = p)) as [->|Hqp].
    - rewrite lookup_insert_eq. split; [|naive_solver]. intros ([= <-] & _). by left.
    - rewrite lookup_insert_ne by done. naive_solver. }
  assert (Hoth : forall q t x, q <> p -> in_class cl st q t -> x ∈ span_objs cl t -> x ∉ span_objs cl s).
  { intros q t x Hqp Hq Hx Hxs. apply Hqp. pose proof Hq as (Hq1 & _ & _).
    apply (objs_disjoint strict st.(pageheap) cl cl q p t s x); try done; [by apply (cr_span0 q t)|by destruct Hsr0]. }
  assert (Hcached : g_cached g' = g_cached g) by (unfold g_cached; by rewrite Hsl).
  split; rewrite ?Hcf, ?Hcached; simpl; try done.
  - intros q. rewrite Hls, cr_spans0. split; intros (_ & t & Ht); (split; [done|]).
    + destruct (decide (q = p)) as [->|Hqp]; [exists s'|exists t]; apply Hic; auto.
    + apply Hic in Ht as [[-> ->]|[_ ?]]; eauto.
  - intros q t _ [[-> ->]|[Hqp Hq]]%Hic; [done|]. destruct (cr_span0 q t Hcl0 Hq).
    assert (Hfree : forall x, x ∈ g_free g q -> x ∉ span_objs cl s) by (intros x [Hx _]%sr_free0; by eapply Hoth).
    split; rewrite ?HF by done; try done.
    + eapply sll_agree; [|done]. intros x Hx. by apply Hmem, Hfree.
    + by rewrite Hem.
    + intros x. rewrite sr_free0. split; intros [Hx Hno]; (split; [done|]); rewrite Hheld in * by (by eapply Hoth); done.
  - intros x Hx. split; [done|]. destruct (decide (x ∈ span_objs cl s)) as [Hxs|Hxs].
    + exists p, s'. split; [apply Hic; by left|]. unfold span_objs in *. by rewrite Hst.
    + rewrite Hheld in Hx by done. destruct (cr_held0 x Hx) as (_ & q & t & Hq & Hxt).
      exists q, t. split; [|done]. apply Hic. right. split; [|done]. intros ->. destruct Hq as (Hq1 & _). congruence.
  - intros i os Hi. rewrite Hsl in Hi. destruct (cr_slots0 i os Hi) as (hd & tl & Hsl' & Hsll & Hla & Hlen).
    exists hd, tl. rewrite Hcf. simpl. split_and!; try done. eapply sll_agree; [|done]. intros x Hx. apply Hmc.
    apply list_elem_of_join. exists os. split; [done|]. by apply list_elem_of_lookup_2 with i.
  - by rewrite Hsl.
  - rewrite cr_num0. f_equal. f_equal. apply Permutation_length. symmetry. by apply NoDup_Permutation.
Qed.
End CentralInv.
