(* ===== verification/CentralTables.v ===== *)
(** The tables [SizeMap::Init] builds are the tables the central free lists need. *)
From S2P Require Import Prelude SizeMap SizeClasses PageMap SysEnv PageHeap SpanStore PageHeapInv CentralFreeList CentralInv.

Lemma init_moves_get flag csize num c :
  1 <= c < num -> arr_get (init_moves flag csize num) c = NumMoveSize flag (arr_get csize c).
Proof.
  intros Hc. unfold init_moves.
  assert (H : forall l m, arr_get (foldl (fun m cl => <[cl := NumMoveSize flag (arr_get csize cl)]> m) m l) c =
    if decide (c ∈ l) then NumMoveSize flag (arr_get csize c) else arr_get m c).
  { induction l as [|d l IH]; intros m; simpl; [done|]. rewrite IH.
    destruct (decide (c ∈ l)); [by rewrite decide_True by (by right)|].
    destruct (decide (c = d)) as [->|Hne].
    - by rewrite decide_True, arr_get_insert_eq by (by left).
    - rewrite decide_False, arr_get_insert_ne by (done || intros [?|?]%elem_of_cons; done). done. }
  rewrite H, decide_True; [done|]. apply elem_of_seqZ. lia.
Qed.

Lemma tables_ok flag native sm :
  0 < flag <= 2 ^ 31 -> 0 < native <= 2 ^ 17 -> Init flag native = Ok sm -> size_map_ok sm.
Proof.
  intros Hf Hn Hi.
  destruct (Init_tables flag native sm ltac:(lia) ltac:(lia) Hi) as (cp & cs & (_ & Hcl & _ & _ & Hz) & Hsc & _ & Ecs & Ecp & Emv & Emin & _).
  destruct (min_span_size_ok native ltac:(lia)) as [[Hm1 _] Hm2].
  assert (Hm3 : min_span_size_of native <= 2 ^ 17).
  { unfold min_span_size_of. destruct (_ && _); consts; lia. }
  unfold class_ok in Hcl. set (m := min_span_size_of native) in *.
  assert (Hrow : forall c, 1 <= c < num_size_classes sm -> exists s n, s = ByteSizeForClass sm c /\ n = class_to_pages sm c /\
    size_ok s /\ s ∈ class_sizes /\ n * 8192 <= 8 * s + 2 * m /\ 0 < n /\ (n * 8192) mod m = 0 /\
    waste_ok s (n * 8192) /\ num_objects_to_move sm c = Z.min flag (Z.max 2 (65536 / s))).
  { intros c Hc. destruct (Hcl c Hc) as (H1 & H2 & H3 & H4 & H5 & H6 & _). eexists _, _. split; [done|]. split; [done|].
    unfold ByteSizeForClass, class_to_pages, num_objects_to_move. rewrite Ecs, Ecp, Emv, init_moves_get by done.
    split_and!; try done. apply NumMoveSize_spec; [done|lia]. }
  clear Hcl. assert (Hk : kPageSize = 8192) by done. assert (Hx : kMaxSize = 262144) by done. split; [lia| | | | | | |unfold class_to_size; by rewrite Ecs|]; intros c Hc;
    destruct (Hrow c Hc) as (s & n & Es & En & (Ha & Hal & Hs) & _ & Hle & Hn0 & Hmul & Hw & Hmv);
    assert (8 <= s) by (clear Hal Hmul Hw Hmv Hrow; Z.div_mod_to_equations; lia); rewrite <- ?Es, <- ?En;
    first [tauto|clear Hal].
  - lia.
  - split.
    + destruct (Z.le_gt_cases s (n * 8192)); [pose proof (Z.div_str_pos (n * 8192) s); lia|].
      unfold waste_ok in Hw. rewrite Z.mod_small, Z.shiftr_div_pow2 in Hw by lia. change (2 ^ 3) with 8 in Hw.
      Z.div_mod_to_equations. lia.
    + apply Z.div_lt_upper_bound; lia.
  - rewrite Hmv. assert (65536 / s <= 65536 / 8) by (apply Z.div_le_compat_l; lia). change (65536 / 8) with 8192 in *. lia.
  - rewrite Hmv. assert (65536 / s * s <= 65536) by (pose proof (Z.mul_div_le 65536 s); lia). nia.
  - rewrite Emin, Hk in *. apply Z.mod_divide in Hmul as [k Hk2]; [|lia].
    apply Z.mod_divide; [apply Z.div_exact in Hm2; lia|]. exists k.
    assert (m = 8192 * (m / 8192)) by (apply Z.div_exact; lia). nia.
Qed.

(** C25: the size-class tables are well-formed: for every transfer limit and every system
    page of at most 128 KiB for which [Init] succeeds, each class has objects of 8 bytes
    to 256 KiB (multiples of 8, and of 16 above 8), spans of whole system pages that hold
    at least one and fewer than 2^16 objects (the width of [Span::refcount]), and batches
    of 1 to 8192 objects whose size in bytes fits an [int]. *)
Theorem Init_size_map_ok flag native sm :
  0 < flag <= 2 ^ 31 -> 0 < native <= 2 ^ 17 -> Init flag native = Ok sm -> size_map_ok sm.
Proof. apply tables_ok. Qed.

Lemma Init_size_map_ok_witness : size_map_ok default_sizemap.
Proof. apply (Init_size_map_ok 32 4096 default_sizemap); [lia|lia|exact Init_default]. Defined.

Lemma default_tables_ok : size_map_ok default_sizemap.
Proof. apply (tables_ok 32 4096); [lia|lia|exact Init_default]. Qed.

(** ** Looking a size up *)

(** The class of a request has objects large enough, and requests above [kMaxSize] have
    none. *)
Record lookup_ok (sm : SizeMap) : Prop := {
  lo_some size cl : 0 <= size -> GetSizeClass sm size = Some cl ->
    1 <= cl < num_size_classes sm /\ size <= ByteSizeForClass sm cl /\ (1 < cl -> ByteSizeForClass sm (cl - 1) < size);
  lo_none size : 0 <= size -> GetSizeClass sm size = None -> kMaxSize < size;
  lo_mono c d : 1 <= c < d -> d < num_size_classes sm -> ByteSizeForClass sm c < ByteSizeForClass sm d
}.

Lemma tables_lookup flag native sm :
  0 <= flag <= 2 ^ 31 -> 0 < native <= 2 ^ 40 -> Init flag native = Ok sm -> lookup_ok sm.
Proof.
  intros Hf Hn Hi. destruct (Init_tables _ _ _ Hf Hn Hi) as (cp & cs & Hinv & Hsc & Ha & Hcs & _).
  split; [intros size cl Hs|intros size Hs|]; rewrite ?GetSizeClass_eq by done; try destruct (Z.leb_spec size kMaxSize) as [Hle|]; try done.
  2: { intros c d Hc Hd. unfold ByteSizeForClass. rewrite Hcs.
       pose proof (csize_mono _ _ _ _ _ _ Hinv c (d - 1) ltac:(lia) ltac:(lia)). destruct Hinv as (_ & _ & Hm & _).
       specialize (Hm (d - 1) ltac:(lia)). replace (d - 1 + 1) with d in Hm by lia. lia. }
  intros [= <-]. unfold SizeClass, ByteSizeForClass. rewrite Ha, Hcs. by apply (tbl_classifies flag (min_span_size_of native) _ cp).
Qed.

Lemma default_lookup_ok : lookup_ok default_sizemap.
Proof. apply (tables_lookup 32 4096); [lia|lia|exact Init_default]. Qed.

(** Multiples of a power of two up to the page size get objects of such a size. *)
Definition natural (sm : SizeMap) : Prop := forall k size cl,
  0 <= k <= kPageShift -> 0 < size -> size mod 2 ^ k = 0 -> GetSizeClass sm size = Some cl -> ByteSizeForClass sm cl mod 2 ^ k = 0.

(** No multiple of [2^k] lies between two classes, unless the upper one is one. *)
Definition naturalb (sm : SizeMap) : bool :=
  forallb (fun c => forallb (fun k =>
    (ByteSizeForClass sm c mod 2 ^ k =? 0) || (ByteSizeForClass sm c / 2 ^ k * 2 ^ k <=? ByteSizeForClass sm (c - 1)))
    (seqZ 0 (kPageShift + 1))) (seqZ 1 (num_size_classes sm - 1)).

Lemma naturalb_ok sm : lookup_ok sm -> ByteSizeForClass sm 0 = 0 -> naturalb sm = true -> natural sm.
Proof.
  intros Hlo H0 Hb k size cl Hk Hs Hmod Hcl. destruct (lo_some _ Hlo size cl ltac:(lia) Hcl) as (Hc & Hle & Hlt).
  unfold naturalb in Hb. rewrite forallb_forall in Hb. specialize (Hb cl). rewrite <- list_elem_of_In, elem_of_seqZ, forallb_forall in Hb.
  specialize (Hb ltac:(lia) k). rewrite <- list_elem_of_In, elem_of_seqZ in Hb. specialize (Hb ltac:(lia)).
  apply orb_prop in Hb as [Hb%Z.eqb_eq|Hb%Z.leb_le]; [done|]. pose proof (Z.pow_pos_nonneg 2 k ltac:(lia) ltac:(lia)) as Hp.
  assert (ByteSizeForClass sm (cl - 1) < size) as Hlt'.
  { destruct (decide (cl = 1)) as [->|]; [change (1 - 1) with 0; by rewrite H0|apply Hlt; lia]. }
  assert (size / 2 ^ k <= ByteSizeForClass sm cl / 2 ^ k) by (by apply Z.div_le_mono).
  pose proof (Z.div_exact size (2 ^ k) ltac:(lia)) as [_ Hx]. specialize (Hx Hmod). nia.
Qed.

Lemma default_natural : natural default_sizemap.
Proof. apply naturalb_ok; [exact default_lookup_ok|by vm_compute|by vm_compute]. Qed.
