(* ===== verification/CentralOps.v ===== *)
(** The operations of the central free lists keep the invariant. *)
From S2P Require Import Prelude SizeMap LinkedList Span PackedCache PageMap SysEnv PageHeap SpanStore.
From S2P Require Import PageHeapInv PageHeapOps PageHeapAlloc PageHeapGrow PageHeapNew CentralFreeList CentralInv.

(** ** Chains *)

Lemma sll_seg_split m a l1 x l2 :
  sll m a (l1 ++ x :: l2) ->
  sll (SLL_SetNext m x 0) a (l1 ++ [x]) /\ sll (SLL_SetNext m x 0) (SLL_Next m x) l2.
Proof.
  intros [Hs Hnd]. apply sll_seg_app in Hs as (c & H1 & -> & Hx & H2).
  apply NoDup_app in Hnd as (Hn1 & Hn12 & Hn2). apply NoDup_cons in Hn2 as [Hx2 Hn2].
  assert (x ∉ l1) by (intros ?; eapply Hn12; [done|by left]). split; split; try done.
  - apply sll_seg_app. exists x. split; [by apply sll_seg_frame|]. simpl. by rewrite SLL_Next_Set_eq.
  - apply NoDup_app. split_and!; [done| |apply NoDup_singleton]. intros y Hy ->%list_elem_of_singleton. done.
  - by apply sll_seg_frame.
Qed.

(** The loop of [FetchFromOneSpans] stops at an object [y] of the list. *)
Lemma fetch_loop_spec fuel : forall m N r curr os,
  sll_seg m curr os 0 -> os <> [] -> r < N -> N - r <= Z.of_nat fuel ->
  exists os1 y os2, os = os1 ++ y :: os2 /\
    fetch_loop fuel m N r curr = Ok (r + Z.of_nat (List.length os1) + 1, y, SLL_Next m y) /\
    r + Z.of_nat (List.length os1) + 1 <= N.
Proof.
  induction fuel as [|fuel IH]; intros m N r curr os Hs Hne Hr Hf; [lia|].
  destruct os as [|x os]; [done|]. destruct Hs as (-> & Hx & Hs). simpl.
  destruct (Z.ltb_spec (r + 1) N) as [Hlt|Hge]; simpl.
  - destruct (Z.eqb_spec (SLL_Next m x) 0) as [H0|Hn0]; simpl.
    + exists [], x, os. split_and!; [done|f_equal; simpl; f_equal; f_equal; lia|simpl; lia].
    + destruct os as [|y os]; [by simpl in Hs|].
      destruct (IH m N (r + 1) (SLL_Next m x) (y :: os) Hs ltac:(done) Hlt ltac:(lia)) as (os1 & z & os2 & -> & -> & Hle).
      exists (x :: os1), z, os2. split_and!; [done|f_equal; simpl; f_equal; f_equal; lia|simpl; lia].
  - exists [], x, os. split_and!; [done|f_equal; simpl; f_equal; f_equal; lia|simpl; lia].
Qed.

Section CentralOps.
Context {W : Type} {E : Env W} {P : PageMap W} {G : EnvGhost W}.
Context {ens : pm_t -> Z -> Prop} {free_ central_cache_ : Z} {sm : SizeMap}.
Context {EL : EnvLaws W} {PL : PageMapLaws MetaDataAlloc P ens} {HLay : HeapLayout free_}.
Context (Hsm : size_map_ok sm) {CLay : CentralLayout (free_ := free_) (central_cache_ := central_cache_) (sm := sm)}.

Implicit Types (st : Heap) (h : PageHeap) (p q : Z) (s t : Span) (g : ghost) (L : links).

Abbreviation Inv := (Inv ens free_).
Abbreviation keeps := (keeps free_).
Abbreviation empty_ := (empty_ central_cache_).
Abbreviation nonempty_ := (nonempty_ central_cache_).
Abbreviation nclasses := (num_size_classes sm).
Abbreviation spans_of st := (st.(pageheap).(spans)).
Abbreviation links_of st := (st.(pageheap).(span_links)).
Abbreviation heap_rep := (heap_rep (ens := ens) (free_ := free_) (central_cache_ := central_cache_) (sm := sm)).
Abbreviation central_rep := (central_rep (central_cache_ := central_cache_) (sm := sm)).
Abbreviation local := (local (free_ := free_) (central_cache_ := central_cache_)).
Abbreviation visible := (visible (free_ := free_) (central_cache_ := central_cache_) (sm := sm)).
Abbreviation touches := (touches (sm := sm)).
Abbreviation span_objs := (span_objs (sm := sm)).
Abbreviation total := (total (sm := sm)).

Lemma wp_on_heap {A} (m : M PageHeap A) Q st :
  wp m (fun a h => Q a (upd_pageheap h st)) st.(pageheap) -> wp (on_heap m) Q st.
Proof. unfold wp, on_heap. simpl. by destruct (m st.(pageheap)) as [[a h]| | |]. Qed.

Lemma wp_on_links f Q st :
  Q tt (upd_pageheap (upd_span_links f st.(pageheap)) st) -> wp (on_links f) Q st.
Proof. intros HQ. apply wp_on_heap, wp_modify, HQ. Qed.

Lemma wp_deref_c p s Q st : spans_of st !! p = Some s -> Q s st -> wp (on_heap (deref p)) Q st.
Proof.
  intros Hp HQ. apply wp_on_heap. apply wp_deref with s; [done|]. by destruct st.
Qed.

Lemma wp_store_c p s f Q st :
  spans_of st !! p = Some s -> Q tt (upd_pageheap (upd_spans (<[p := f s]>) st.(pageheap)) st) ->
  wp (on_heap (store p f)) Q st.
Proof. intros Hp HQ. apply wp_on_heap. by apply wp_store with s. Qed.

Lemma cfl_upd cl f st c : cfl (upd_cfl cl f st) c = if decide (c = cl) then f (cfl st cl) else cfl st c.
Proof.
  unfold cfl, upd_cfl. simpl. destruct (decide (c = cl)) as [->|].
  - by rewrite lookup_insert_eq.
  - by rewrite lookup_insert_ne.
Qed.

Lemma class_span_use strict Gs st cl p :
  heap_rep strict Gs st -> 0 <= cl < nclasses -> p ∈ g_spans (Gs cl) ->
  exists s, in_class cl st p s /\ span_rep (sm := sm) cl st (Gs cl) p s /\ 1 <= cl.
Proof.
  intros Hrep Hcl Hp. pose proof (hr_central _ _ _ Hrep cl Hcl) as Hc.
  apply (cr_spans _ _ _ Hc) in Hp as (H0 & s & Hs). exists s. split_and!; [done|by apply (cr_span _ _ _ Hc)|lia].
Qed.

(** A list node of the page heap is none of the nodes of the central lists. *)
Lemma in_use_not_node strict h y s :
  Inv strict ∅ 0 h -> h.(spans) !! y = Some s -> s.(location) = IN_USE -> ~ list_node (free_list free_) h.(spans) y.
Proof.
  intros HI Hs Hl [(loc & i & Hloc & Hi & ->)|(t & Ht & Hlt)]; [|congruence].
  destruct (Inv_ok _ _ _ _ _ _ _ _ HI Hs) as [_ Hns _ _ _ _ _]. by apply Hns, layout_static.
Qed.

Lemma header_not_node strict h cl y :
  Inv strict ∅ 0 h -> 0 <= cl < nclasses -> y = empty_ cl \/ y = nonempty_ cl -> ~ list_node (free_list free_) h.(spans) y.
Proof.
  intros HI Hcl Hy. destruct (cl_static cl Hcl), (cl_apart cl Hcl). intros [(loc & i & Hloc & Hi & ->)|(s & Hs & _)].
  - destruct Hy as [Hy|Hy]; [apply H1|apply H2]; exists loc, i; by rewrite <- Hy.
  - destruct (Inv_ok _ _ _ _ _ _ _ _ HI Hs) as [_ Hns _ _ _ _ _]. by destruct Hy as [->| ->].
Qed.

Lemma central_node_apart strict Gs st cl y :
  heap_rep strict Gs st -> 0 <= cl < nclasses -> y ∈ empty_ cl :: nonempty_ cl :: g_spans (Gs cl) ->
  ~ list_node (free_list free_) (spans_of st) y.
Proof.
  intros Hrep Hcl Hy. pose proof (hr_inv _ _ _ Hrep) as HI.
  apply elem_of_cons in Hy as [->|[->|Hy]%elem_of_cons]; [eapply header_not_node; eauto..|].
  destruct (class_span_use _ _ _ _ _ Hrep Hcl Hy) as (s & (Hs & Hl & _) & _). by eapply in_use_not_node.
Qed.

(** The links of class [cl] changed, the others not. *)
Definition links_local (cl : Z) g L L' : Prop :=
  forall y, y ∉ empty_ cl :: nonempty_ cl :: g_spans g -> links_agree L L' y.

Lemma Inv_links_local strict Gs st cl L' h' :
  heap_rep strict Gs st -> 0 <= cl < nclasses -> links_local cl (Gs cl) (links_of st) L' ->
  h' = upd_span_links (fun _ => L') st.(pageheap) -> Inv strict ∅ 0 h'.
Proof.
  intros Hrep Hcl Hloc ->. apply Inv_links; [apply Hrep|]. intros y Hy. apply Hloc. intros Hin.
  by eapply central_node_apart.
Qed.

(** Moving a span between the two lists of a class. *)
Lemma move_span L a b la1 p la2 lb :
  dll L a (la1 ++ p :: la2) -> dll L b lb -> a <> b ->
  (forall y, y ∈ la1 ++ p :: la2 -> y <> b /\ y ∉ lb) -> a ∉ lb ->
  let L' := DLL_Prepend (DLL_Remove L p) b p in
  dll L' a (la1 ++ la2) /\ dll L' b (p :: lb) /\
  forall y, y ∉ a :: b :: (la1 ++ p :: la2) ++ lb -> links_agree L L' y.
Proof.
  intros Ha Hb Hab Hdis Halb L'. destruct (DLL_Remove_spec L a la1 p la2 Ha) as (Ha1 & _ & _ & Hfr1).
  assert (Hb1 : dll (DLL_Remove L p) b lb).
  { apply dll_agree with L; [done|]. intros y Hy. apply Hfr1. intros Hin. apply elem_of_cons in Hin as [->|Hin].
    - apply elem_of_cons in Hy as [?|?]; congruence.
    - destruct (Hdis y Hin). apply elem_of_cons in Hy as [?|?]; done. }
  destruct (Hdis p ltac:(set_solver)) as [Hpb Hplb].
  destruct (DLL_Prepend_spec (DLL_Remove L p) b lb p Hb1) as (Hb2 & Hfr2); [by apply not_elem_of_cons|].
  assert (Hnd : NoDup (a :: la1 ++ p :: la2)) by apply Ha.
  assert (Hpa : p ∉ a :: la1 ++ la2).
  { apply NoDup_cons in Hnd as [Hna Hnd]. apply NoDup_app in Hnd as (_ & Hd & Hnd2). apply NoDup_cons in Hnd2 as [Hp2 _].
    intros [->|[Hin|Hin]%elem_of_app]%elem_of_cons; [apply Hna; set_solver|apply (Hd p Hin); by left|done]. }
  split_and!; [|done|].
  - apply dll_agree with (DLL_Remove L p); [done|]. intros y Hy. apply Hfr2. intros Hin.
    apply elem_of_cons in Hin as [->|Hin].
    + apply elem_of_cons in Hy as [?|Hy]; [congruence|]. by destruct (Hdis b ltac:(set_solver)).
    + apply elem_of_cons in Hin as [->|Hin]; [done|]. apply elem_of_cons in Hy as [->|Hy]; [done|].
      by destruct (Hdis y ltac:(set_solver)).
  - intros y Hy. destruct (Hfr1 y ltac:(set_solver)) as [A1 A2], (Hfr2 y ltac:(set_solver)) as [B1 B2].
    unfold L'. split; congruence.
Qed.

Lemma heap_rep_ext strict Gs Gs' st : (forall c, Gs' c = Gs c) -> heap_rep strict Gs st -> heap_rep strict Gs' st.
Proof. intros Heq []. split; try done. intros cl Hcl. rewrite Heq. auto. Qed.

Lemma heap_rep_same strict Gs st cl : heap_rep strict Gs st -> heap_rep strict (set_ghost cl (Gs cl) Gs) st.
Proof.
  apply heap_rep_ext. intros c. unfold set_ghost. by destruct (decide (c = cl)) as [->|].
Qed.

(** A null-terminated chain, as the functions return it: length and both ends. *)
Definition chain st (r : Z * Z * Z) (os : list Z) : Prop :=
  r.1.1 = Z.of_nat (List.length os) /\ sll st.(memory) r.1.2 os /\ r.2 = default 0 (last os).

(** ** [FetchFromOneSpans] *)

(** The lists and the links after a fetch that leaves the objects [os2]. *)
Lemma fetch_lists cl st g p l1 (os2 : list Z) (Lc := links_of st) :
  central_rep cl g st -> g_nonempty g = p :: l1 ->
  let '(ne, em) := match os2 with [] => (l1, p :: g_empty g) | _ => (g_nonempty g, g_empty g) end in
  let L' := match os2 with [] => DLL_Prepend (DLL_Remove Lc p) (empty_ cl) p | _ => Lc end in
  ((empty_ cl ∉ p :: l1) /\ nonempty_ cl ∉ g_empty g) ->
  dll L' (nonempty_ cl) ne /\ dll L' (empty_ cl) em /\ NoDup (ne ++ em) /\
  (forall q, q ∈ ne ++ em <-> q ∈ g_spans g) /\ links_local cl g Lc L' /\
  (forall q, q <> p -> q ∈ em <-> q ∈ g_empty g) /\ (p ∈ em <-> os2 = []).
Proof.
  intros Hrep Hne. pose proof Hrep as [Hn He Hnd _ _ _ _ _ _ _ _ _ _ _ _]. rewrite Hne in Hn.
  unfold g_spans in *. rewrite Hne in Hnd |- *.
  assert (p ∉ g_empty g) as Hpe.
  { intros Hin. apply NoDup_app in Hnd as (_ & Hd & _). apply (Hd p); [by left|done]. }
  destruct os2 as [|z os2]; intros [Hx1 Hx2].
  - pose proof (headers_ne (central_cache_ := central_cache_) cl) as Hhd.
    destruct (move_span Lc (nonempty_ cl) (empty_ cl) [] p l1 (g_empty g) Hn He) as (H1 & H2 & H3); try done.
    + intros y Hy. split; [set_solver|]. apply NoDup_app in Hnd as (_ & Hd & _). intros Hy2. by apply (Hd y).
    + simpl in *. split_and!; try done.
      * apply NoDup_cons in Hnd as [Hp Hnd]. apply NoDup_app in Hnd as (Hl & Hd & Hem).
        apply NoDup_app. split_and!; [done| |by constructor]. intros q Hq [->|Hq2]%elem_of_cons; [apply Hp; set_solver|by apply (Hd q)].
      * intros q. set_solver.
      * intros y Hy. apply H3. unfold g_spans in Hy. rewrite Hne in Hy. set_solver.
      * intros q Hq. rewrite elem_of_cons. naive_solver.
      * split; [done|]. intros _. by left.
  - simpl. split_and!; try done.
Qed.

Lemma span_not_header strict Gs st cl p :
  heap_rep strict Gs st -> 0 <= cl < nclasses -> p ∈ g_spans (Gs cl) -> forall c, 0 <= c < nclasses ->
  p <> empty_ c /\ p <> nonempty_ c.
Proof.
  intros Hrep Hcl Hp c Hc. destruct (class_span_use _ _ _ _ _ Hrep Hcl Hp) as (s & (Hs & _ & _) & _).
  destruct (Inv_ok _ _ _ _ _ _ _ _ (hr_inv _ _ _ Hrep) Hs) as [_ Hns _ _ _ _ _].
  destruct (cl_static c Hc). split; intros ->; done.
Qed.

Lemma headers_out strict Gs st cl :
  heap_rep strict Gs st -> 0 <= cl < nclasses ->
  (empty_ cl ∉ g_nonempty (Gs cl)) /\ nonempty_ cl ∉ g_empty (Gs cl).
Proof.
  intros Hrep Hcl. split; intros Hin; unshelve epose proof (span_not_header _ _ _ _ _ Hrep Hcl _ cl Hcl) as [? ?];
    try (unfold g_spans; apply elem_of_app; eauto); done.
Qed.

Lemma local_change strict cl T Gs st st' p s s' :
  heap_rep strict Gs st -> 0 <= cl < nclasses -> in_class cl st p s ->
  spans_of st' = <[p := s']> (spans_of st) -> s'.(sizeclass) = cl ->
  links_local cl (Gs cl) (links_of st) (links_of st') ->
  (forall x, x ∉ T -> st'.(memory) !! x = st.(memory) !! x) ->
  (forall c, c <> cl -> cfl st' c = cfl st c) -> st'.(race_counter) = st.(race_counter) ->
  st'.(pageheap).(smallest_span_size_) = st.(pageheap).(smallest_span_size_) ->
  local cl T st st'.
Proof.
  intros Hrep Hcl (Hp & Hl & Hsc) HS Hsc' HL Hmem Hcf Hr Hsm'. destruct (cl_static cl Hcl). split; try done.
  - intros q t Hlt Hct. rewrite HS. destruct (decide (q = p)) as [->|Hne].
    + rewrite lookup_insert_eq. split; [congruence|]. intros [= ->]. congruence.
    + by rewrite lookup_insert_ne.
  - intros q t Hq Hlt Hct. apply HL. destruct (Inv_ok _ _ _ _ _ _ _ _ (hr_inv _ _ _ Hrep) Hq) as [_ Hns _ _ _ _ _].
    intros [->|[->|Hin]%elem_of_cons]%elem_of_cons; [done..|].
    destruct (class_span_use _ _ _ _ _ Hrep Hcl Hin) as (u & (Hu & _ & Huc) & _). congruence.
  - intros a Ha Hh H1 H2. apply HL. intros [->|[->|Hin]%elem_of_cons]%elem_of_cons; [done..|].
    destruct (class_span_use _ _ _ _ _ Hrep Hcl Hin) as (u & (Hu & _ & _) & _).
    by destruct (Inv_ok _ _ _ _ _ _ _ _ (hr_inv _ _ _ Hrep) Hu).
Qed.

(** The size-class cache and the set of spans unchanged. *)
Lemma cache_ok_change cl st st' p s s' :
  in_class cl st p s -> spans_of st' = <[p := s']> (spans_of st) ->
  s'.(start) = s.(start) -> s'.(length_) = s.(length_) -> s'.(sizeclass) = s.(sizeclass) ->
  st'.(pageheap).(pagemap_cache_) = st.(pageheap).(pagemap_cache_) -> cache_ok st -> cache_ok st'.
Proof.
  intros (Hp & Hl & Hsc) HS H1 H2 H3 Hca [Hnull Hok]. unfold cache_ok, TryGetSizeClass. rewrite Hca. split; [done|]. intros q t Hq Hlt.
  rewrite HS in Hq. apply lookup_insert_Some in Hq as [[<- <-]|[_ Hq]]; [|by apply (Hok q t)].
  destruct (Hok p s Hp Hl) as [A B]. unfold covers in *. rewrite H1, H2, H3. split; [exact A|exact B].
Qed.

Definition fetched (strict : bool) (cl N : Z) (Gs : Z -> ghost) st (r : Z * Z * Z) st' : Prop :=
  exists os g', heap_rep strict (set_ghost cl g' Gs) st' /\ visible ∅ Gs st st' /\ chain st' r os /\
    Z.of_nat (List.length os) <= N /\ g_out g' = g_out (Gs cl) ∪ list_to_set os /\
    (forall x, x ∈ os -> x ∉ g_out (Gs cl)) /\ g_slots g' = g_slots (Gs cl).

(** The state after a fetch of the objects up to [y] from [p]. *)
Lemma fetch_rep strict Gs st cl N p s l1 os1 y os2 st' :
  heap_rep strict Gs st -> 1 <= cl < nclasses -> g_nonempty (Gs cl) = p :: l1 -> in_class cl st p s ->
  g_free (Gs cl) p = os1 ++ y :: os2 -> Z.of_nat (List.length os1) + 1 <= N ->
  let n := Z.of_nat (List.length os1) + 1 in
  let L' := match os2 with [] => DLL_Prepend (DLL_Remove (links_of st) p) (empty_ cl) p | _ => links_of st end in
  let s' := set_refcount (s.(refcount) + n) (set_objects (SLL_Next st.(memory) y) s) in
  st'.(pageheap) = upd_spans (<[p := s']>) (upd_span_links (fun _ => L') st.(pageheap)) ->
  st'.(memory) = SLL_SetNext st.(memory) y 0 ->
  st'.(race_counter) = st.(race_counter) ->
  (forall c, cfl st' c = if decide (c = cl) then set_counter (u64 ((cfl st cl).(counter_) - n)) (cfl st cl) else cfl st c) ->
  fetched strict cl N Gs st (n, s.(objects), y) st'.
Proof.
  intros Hrep Hcl Hne Hp HF HN n L' s' Hph Hmem Hrc Hcfl. pose proof (hr_central _ _ _ Hrep cl ltac:(lia)) as Hcr.
  set (g := Gs cl) in *. pose proof (cr_span _ _ _ Hcr p s ltac:(lia) Hp) as [Hsl Hsll Hrf Hwh Hfr].
  pose proof Hp as (Hp1 & Hp2 & Hp3). destruct (smo_objects _ Hsm cl Hcl) as [Ht0 Ht1]. fold (total cl) in Ht0, Ht1.
  pose proof (fetch_lists cl st g p l1 os2 Hcr Hne) as Hlists.
  destruct (match os2 with [] => _ | _ => _ end) as [ne em] eqn:Hnm in Hlists.
  destruct (headers_out _ _ _ cl Hrep ltac:(lia)) as [Hh1 Hh2]. fold g in Hh1, Hh2. rewrite Hne in Hh1.
  destruct (Hlists (conj Hh1 Hh2)) as (Hd1 & Hd2 & Hnd & Hls & HLl & Hem & Hpe). fold L' in Hd1, Hd2, HLl.
  rewrite HF in Hsll, Hrf, Hwh, Hfr. destruct (sll_seg_split _ _ _ _ _ Hsll) as [Hc1 Hc2].
  assert (Hlen : Z.of_nat (List.length (os1 ++ y :: os2)) <= total cl).
  { pose proof (NoDup_subset_length (os1 ++ y :: os2) (span_objs cl s)) as Hle. unfold CentralInv.span_objs in Hle.
    rewrite length_objs in Hle. apply inj_le in Hle; [lia|apply Hsll|]. intros x Hx. by apply Hfr. }
  rewrite length_app in Hlen, Hrf. simpl in Hlen, Hrf.
  set (g' := mkGhost ne em (fun q => if decide (q = p) then os2 else g_free g q) (g_slots g)
    (g_out g ∪ list_to_set (os1 ++ [y]))).
  assert (Hnh : forall x, x ∈ os1 ++ [y] -> x ∈ span_objs cl s /\ ~ g_held g x) by (intros x Hx; apply Hfr; set_solver).
  assert (Hheld : forall x, g_held g' x <-> g_held g x \/ x ∈ os1 ++ [y]).
  { intros x. unfold g_held, g', g_cached. simpl. rewrite elem_of_union, elem_of_list_to_set. tauto. }
  assert (HS : spans_of st' = <[p := s']> (spans_of st)) by (by rewrite Hph).
  assert (HL : links_of st' = L') by (by rewrite Hph).
  assert (HI' : Inv strict ∅ 0 st'.(pageheap)).
  { rewrite Hph. eapply Inv_store_in_use with s; try done.
    eapply (Inv_links_local strict Gs st cl L'); [done|lia|done|done]. }
  assert (Hlo : local cl {[y]} st st').
  { apply (local_change strict cl {[y]} Gs st st' p s s'); try done; [lia|by rewrite HL| | |by rewrite Hph].
    - intros x Hx. rewrite Hmem. apply lookup_insert_ne. set_solver.
    - intros c Hc. rewrite Hcfl. by rewrite decide_False. }
  assert (Hyst : touches cl {[y]} st).
  { intros x ->%elem_of_singleton. exists p, s. split_and!; try done. apply (Hnh y). set_solver. }
  assert (Hyt : forall x, x ∈ ({[y]} : gset Z) -> touches cl {[x]} st \/ touches cl {[x]} st').
  { intros x ->%elem_of_singleton. by left. }
  assert (Hcr' : central_rep cl g' st').
  { apply (central_update (ens := ens) (free_ := free_) Hsm strict cl g g' st st' p s s'); try done; [apply Hrep|..].
    - intros x Hx. rewrite Hmem. apply lookup_insert_ne. intros ->. destruct (Hnh x ltac:(set_solver)) as [_ []]. by right.
    - intros x Hx. rewrite Hmem. apply lookup_insert_ne. intros ->. by destruct (Hnh x ltac:(set_solver)).
    - by rewrite HL.
    - by rewrite HL.
    - intros q Hq. simpl. by rewrite decide_False.
    - split; simpl; rewrite ?decide_True by done; try done.
      + by rewrite Hmem.
      + unfold s'. simpl. rewrite u16_small; lia.
      + intros x. rewrite Hheld. destruct Hsll as [_ Hndo].
        rewrite (cons_middle y os1 os2), app_assoc in Hndo. apply NoDup_app in Hndo as (_ & Hd & _). split.
        * intros Hx. destruct (proj1 (Hfr x)) as [Hx1 Hx2]; [set_solver|]. split; [done|]. intros [?|Hin]; [done|].
          by apply (Hd x).
        * intros [Hx Hno]. assert (Hin : x ∈ os1 ++ y :: os2) by (apply Hfr; tauto).
          rewrite (cons_middle y os1 os2), app_assoc in Hin. apply elem_of_app in Hin as [?|?]; tauto.
    - intros x Hx. rewrite Hheld. split; [|tauto]. intros [?|Hin]; [done|]. by destruct (Hnh x Hin).
    - intros x. simpl. rewrite elem_of_union, elem_of_list_to_set. intros [Hx|Hx]; [by apply (cr_apart _ _ _ Hcr)|].
      intros Hc. destruct (Hnh x Hx) as [_ []]. by right.
    - rewrite Hcfl, decide_True by done. f_equal. rewrite (cr_counter _ _ _ Hcr), u64_sub_l. f_equal.
      rewrite (g_count_update g g' p (cr_nodup _ _ _ Hcr) Hnd Hls).
      + rewrite HF. simpl. rewrite decide_True, length_app by done. simpl. unfold n. lia.
      + apply (cr_spans _ _ _ Hcr). split; [lia|]. by exists s.
      + intros q Hq. simpl. by rewrite decide_False. }
  exists (os1 ++ [y]), g'. split_and!.
  - eapply (heap_rep_local Hsm strict cl {[y]} g' Gs st st'); try done.
    eapply (cache_ok_change cl st st' p s s'); try done; [by rewrite Hph|apply Hrep].
  - eapply (local_visible Hsm strict cl {[y]} ∅ Gs st st'); try done.
    intros a x ->%elem_of_singleton Hx Ha. destruct (Hnh y ltac:(set_solver)) as [_ []]. left.
    destruct (out_inside Hsm strict Gs st cl cl x y Hrep) as [_ ->]; try done; lia.
  - split_and!; simpl; [rewrite length_app; simpl; lia|by rewrite Hmem|by rewrite last_snoc].
  - rewrite length_app. simpl. lia.
  - done.
  - intros x Hx Ho. destruct (Hnh x Hx) as [_ []]. by left.
  - done.
Qed.

Lemma upd_links_id st : upd_pageheap (upd_span_links (fun _ => links_of st) st.(pageheap)) st = st.
Proof. by destruct st as [[] ? ? ?]. Qed.

Lemma wp_FetchFromOneSpans strict Gs st cl N :
  heap_rep strict Gs st -> 1 <= cl < nclasses -> 0 < N ->
  wp (FetchFromOneSpans central_cache_ cl N) (fun r st' => fetched strict cl N Gs st r st' /\
    (g_nonempty (Gs cl) <> [] -> r.1.1 <> 0) /\ (r.1.1 = 0 -> st' = st)) st.
Proof.
  intros Hrep Hcl HN. pose proof (hr_central _ _ _ Hrep cl ltac:(lia)) as Hcr.
  unfold FetchFromOneSpans. apply wp_bind, wp_get. rewrite (DLL_IsEmpty_spec _ _ _ (cr_nonempty _ _ _ Hcr)).
  destruct (g_nonempty (Gs cl)) as [|p l1] eqn:Hne.
  { apply wp_ret. split; [|done]. exists [], (Gs cl). split_and!; try done; simpl; try lia.
    - by apply heap_rep_same.
    - split_and!; [done| |done]. split; [done|apply NoDup_nil_2].
    - set_solver.
    - intros x Hx. by apply not_elem_of_nil in Hx. }
  rewrite bool_decide_false by done. pose proof (cr_nonempty _ _ _ Hcr) as [Hds _]. rewrite Hne in Hds.
  destruct Hds as (Hnx & _ & _). rewrite Hnx. clear Hnx.
  destruct (class_span_use _ _ _ cl p Hrep ltac:(lia)) as (s & Hp & Hsr & _); [unfold g_spans; rewrite Hne; set_solver|].
  apply wp_bind, wp_deref_c with s; [apply Hp|]. destruct Hsr as [_ [Hsl _] _ Hwh _].
  destruct (fetch_loop_spec (Z.to_nat N + 1) st.(memory) N 0 s.(objects) (g_free (Gs cl) p)) as (os1 & y & os2 & HF & Hfl & Hle);
    [done| |lia|lia|].
  { intros Hnil%Hwh. pose proof (cr_nodup _ _ _ Hcr) as Hnd. unfold g_spans in Hnd. rewrite Hne in Hnd.
    apply NoDup_app in Hnd as (_ & Hd & _). apply (Hd p); [by left|done]. }
  apply wp_bind. unfold wp at 1. rewrite Hfl. simpl. rewrite HF in Hsl. apply sll_seg_app in Hsl as (c & _ & -> & _ & Hs2).
  set (L' := match os2 with [] => DLL_Prepend (DLL_Remove (links_of st) p) (empty_ cl) p | _ => links_of st end).
  apply wp_bind. apply wp_mono with (fun _ st1 => st1 = upd_pageheap (upd_span_links (fun _ => L') st.(pageheap)) st).
  { destruct os2 as [|z os2].
    - simpl in Hs2. rewrite Hs2. simpl. apply wp_bind, wp_on_links, wp_on_links. done.
    - destruct Hs2 as (Hz & Hz0 & _). destruct (Z.eqb_spec (SLL_Next st.(memory) y) 0); [congruence|].
      apply wp_ret. symmetry. apply upd_links_id. }
  intros _ st1 ->. apply wp_bind, wp_store_c with s; [apply Hp|]. apply wp_bind, wp_modify.
  apply wp_bind. eapply wp_store_c; [by simpl; rewrite lookup_insert_eq|]. apply wp_bind, wp_modify, wp_ret.
  replace (0 + Z.of_nat (List.length os1) + 1) with (Z.of_nat (List.length os1) + 1) in * by lia.
  split; [|split; [simpl; lia|simpl; lia]].
  eapply (fetch_rep strict Gs st cl N p s l1 os1 y os2); try done.
  - simpl. unfold upd_spans. simpl. f_equal. by rewrite insert_insert_eq.
  - intros c. rewrite cfl_upd. done.
Qed.
End CentralOps.
