(* ===== verification/CentralPopulate.v ===== *)
(** [CentralFreeList::Populate]: a new span is cut into a chain of objects. *)
From S2P Require Import Prelude SizeMap LinkedList Span PackedCache PageMap SysEnv PageHeap SpanStore.
From S2P Require Import PageHeapInv PageHeapOps PageHeapAlloc PageHeapGrow PageHeapNew CentralFreeList CentralInv CentralOps.

(** Consecutive objects are linked; the last one need not be. *)
Fixpoint linked (m : mem) (x : Z) (l : list Z) : Prop :=
  match l with
  | [] => True
  | y :: l => SLL_Next m x = y /\ linked m y l
  end.

(** Closing the chain. *)
Lemma linked_sll m x l z :
  linked m x l -> last (x :: l) = Some z -> NoDup (x :: l) -> (forall y, y ∈ x :: l -> y <> 0) ->
  sll (SLL_SetNext m z 0) x (x :: l).
Proof.
  intros Hl Hz Hnd Hnz. split; [|done]. revert x Hl Hz Hnd Hnz. induction l as [|y l IH]; intros x Hl Hz Hnd Hnz.
  - injection Hz as <-. simpl. rewrite SLL_Next_Set_eq. split_and!; try done. apply Hnz. by left.
  - destruct Hl as [Hy Hl]. pose proof Hnd as [Hx Hnd']%NoDup_cons. rewrite last_cons_cons in Hz.
    change (x = x /\ x <> 0 /\ sll_seg (SLL_SetNext m z 0) (SLL_Next (SLL_SetNext m z 0) x) (y :: l) 0).
    split_and!; [done|apply Hnz; by left|]. rewrite SLL_Next_Set_ne, Hy.
    + apply IH; [done..|]. intros w Hw. apply Hnz. by right.
    + intros ->. apply Hx. by apply last_Some_elem_of.
Qed.

Section Populate.
Context {W : Type} {E : Env W} {P : PageMap W} {G : EnvGhost W}.
Context {ens : pm_t -> Z -> Prop} {free_ central_cache_ : Z} {sm : SizeMap}.
Context {EL : EnvLaws W} {PL : PageMapLaws MetaDataAlloc P ens} {HLay : HeapLayout free_}.
Context (Hsm : size_map_ok sm) {CLay : CentralLayout (free_ := free_) (central_cache_ := central_cache_) (sm := sm)}.

Implicit Types (st : Heap) (h : PageHeap) (p q : Z) (s t : Span) (g : ghost) (L : links).

Abbreviation Inv := (Inv ens free_).
Abbreviation keeps := (keeps free_).
Abbreviation empty_ := (empty_ central_cache_).
Abbreviation nonempty_ := (nonempty_ central_cache_).
Abbreviation nclasses := (num_size_classes sm).
Abbreviation spans_of st := (st.(pageheap).(spans)).
Abbreviation links_of st := (st.(pageheap).(span_links)).
Abbreviation heap_rep := (heap_rep (ens := ens) (free_ := free_) (central_cache_ := central_cache_) (sm := sm)).
Abbreviation central_rep := (central_rep (central_cache_ := central_cache_) (sm := sm)).
Abbreviation local := (local (free_ := free_) (central_cache_ := central_cache_)).
Abbreviation visible := (visible (free_ := free_) (central_cache_ := central_cache_) (sm := sm)).
Abbreviation touches := (touches (sm := sm)).
Abbreviation span_objs := (span_objs (sm := sm)).
Abbreviation total := (total (sm := sm)).

(** ** The cache *)

Lemma Inv_cache strict D e h f : Inv strict D e h -> Inv strict D e (upd_pagemap_cache f h).
Proof. intros []. by split. Qed.

(** The cache [c'] knows of the pages [lo .. lo + n - 1] at most the class [cl], and of
    others at most what [c] knew. *)
Definition cached_as (cl lo n : Z) h h' : Prop :=
  (exists c', h' = upd_pagemap_cache (fun _ => c') h) /\
  forall k v, 0 <= k < 2 ^ 64 -> TryGetSizeClass h' k = Some v ->
    (lo <= k < lo + n -> v = cl) /\ (~ lo <= k < lo + n -> TryGetSizeClass h k = Some v).

Lemma wp_cache_pages cl n : forall lo h,
  0 <= cl < 128 -> 0 <= lo -> lo + Z.of_nat n <= 2 ^ 64 ->
  wp (cache_pages n lo cl) (fun _ h' => cached_as cl lo (Z.of_nat n) h h') h.
Proof.
  induction n as [|n IH]; intros lo h Hcl Hlo Hn.
  - apply wp_ret. split; [exists h.(pagemap_cache_); by destruct h|]. intros k v _ Hk. split; [lia|done].
  - simpl. apply wp_bind, wp_modify. set (h1 := upd_pagemap_cache _ h).
    eapply wp_mono; [apply (IH (lo + 1) h1); lia|]. intros _ h2 [[c' ->] Hc].
    split; [exists c'; done|]. intros k v Hk Hget. destruct (Hc k v Hk Hget) as [Hin Hout].
    destruct (decide (lo + 1 <= k < lo + 1 + Z.of_nat n)) as [Hr|Hr]; [split; [|lia]; intros _; by apply Hin|].
    specialize (Hout Hr). unfold TryGetSizeClass in Hout. simpl in Hout. rewrite TryGet_Put in Hout by (done || lia).
    destruct (decide (lo = k)) as [->|Hne]; [split; [|lia]; intros _; congruence|].
    destruct (decide _); [done|]. split; [lia|done].
Qed.

(** ** Cutting the block *)

(** The state after the objects [rest] were linked behind [tail]. *)
Definition cut (span : Z) (tail : option Z) (rest : list Z) st st' : Prop :=
  exists s s', spans_of st !! span = Some s /\
    st'.(pageheap) = upd_spans (<[span := s']>) st.(pageheap) /\
    s' = set_objects s'.(objects) s /\ st'.(central_cache) = st.(central_cache) /\
    st'.(race_counter) = st.(race_counter) /\
    (forall x, tail <> Some x -> x ∉ rest -> st'.(memory) !! x = st.(memory) !! x) /\
    match rest with
    | [] => s' = s /\ st'.(memory) = st.(memory)
    | x :: rest => match tail with
                   | None => s'.(objects) = x
                   | Some y => s' = s /\ SLL_Next st'.(memory) y = x
                   end /\ linked st'.(memory) x rest
    end.

Lemma set_objects_id s : s = set_objects s.(objects) s.
Proof. by destruct s. Qed.

Lemma cut_nil (span : Z) tail st s : spans_of st !! span = Some s -> cut span tail [] st st.
Proof.
  intros Hs. exists s, s. split_and!; try done; [|by destruct s]. destruct st as [[] ? ? ?]. simpl in *.
  unfold upd_spans. simpl. f_equal. by rewrite insert_id.
Qed.

Lemma cut_tail (span : Z) tail x rest st st1 st2 s :
  spans_of st !! span = Some s -> x ∉ rest -> tail <> Some x -> (forall y, tail = Some y -> y ∉ rest) ->
  NoDup rest ->
  (match tail with
   | None => st1 = upd_pageheap (upd_spans (<[span := set_objects x s]>) st.(pageheap)) st
   | Some y => st1 = upd_memory (fun m => SLL_SetNext m y x) st
   end) -> cut span (Some x) rest st1 st2 -> cut span tail (x :: rest) st st2.
Proof.
  intros Hs Hx Htx Htr Hnd Hst1 (u & u' & Hu & Hph & Hset & Hcc & Hrc & Hmem & Hlk).
  assert (Hu' : u' = u) by (destruct rest; [|destruct Hlk as [[? _] _]]; tauto). subst u'.
  exists s, u. destruct tail as [t|].
  - subst st1. simpl in *. rewrite Hs in Hu. injection Hu as <-. split_and!; try done.
    + intros y Hy Hyr. apply not_elem_of_cons in Hyr as [Hyx Hyr]. rewrite Hmem by (congruence || done).
      apply lookup_insert_ne. congruence.
    + unfold SLL_Next. rewrite Hmem; [|congruence|by apply Htr]. unfold SLL_SetNext. by rewrite lookup_insert_eq.
    + destruct rest as [|y rest]; [done|]. destruct Hlk as [[_ Hy] Hlk]. split; done.
  - subst st1. simpl in *. rewrite lookup_insert_eq in Hu. injection Hu as <-. split_and!; try done.
    + rewrite Hph. unfold upd_spans. simpl. f_equal. by rewrite insert_insert_eq.
    + intros y Hy Hyr. apply not_elem_of_cons in Hyr as [Hyx Hyr]. apply Hmem; [congruence|done].
    + destruct rest as [|y rest]; [done|]. destruct Hlk as [[_ Hy] Hlk]. split; done.
Qed.

Lemma wp_carve_loop (span : Z) limit size n : forall fuel tail ptr num st s,
  spans_of st !! span = Some s -> 0 < size -> 0 < ptr ->
  ptr + (Z.of_nat n) * size <= limit < ptr + (Z.of_nat n + 1) * size -> limit + size < 2 ^ 64 ->
  (n < fuel)%nat ->
  let rest := (fun k => ptr + k * size) <$> seqZ 0 (Z.of_nat n) in
  (forall y, tail = Some y -> y < ptr) ->
  wp (carve_loop fuel span tail ptr limit size num) (fun r st' =>
    r = (match last rest with Some x => Some x | None => tail end, num + Z.of_nat n) /\ cut span tail rest st st') st.
Proof.
  induction n as [|n IH]; intros [|fuel] tail ptr num st s Hs Hsz Hptr Hlim Hov Hf rest Htail; try lia; simpl carve_loop.
  - rewrite u64_small by lia. rewrite Z.gtb_ltb.
    destruct (Z.ltb_spec (ptr + size) ptr), (Z.ltb_spec limit (ptr + size)); try lia. simpl. apply wp_ret.
    split; [f_equal; lia|]. by eapply cut_nil.
  - assert (Hrest : rest = ptr :: ((fun k => ptr + size + k * size) <$> seqZ 0 (Z.of_nat n))).
    { unfold rest. rewrite seqZ_cons by lia. simpl. f_equal; [lia|].
      rewrite <- (fmap_add_seqZ 1 0). replace (Z.pred (Z.of_nat (S n))) with (Z.of_nat n) by lia.
      rewrite <- list_fmap_compose. apply list_fmap_ext. intros i x Hx. simpl. lia. }
    clearbody rest. subst rest. set (rest := (fun k => ptr + size + k * size) <$> seqZ 0 (Z.of_nat n)).
    assert (Hge : forall y, y ∈ rest -> ptr < y).
    { unfold rest. intros y (k & -> & Hk%elem_of_seqZ)%list_elem_of_fmap. nia. }
    rewrite u64_small by lia. rewrite Z.gtb_ltb.
    destruct (Z.ltb_spec (ptr + size) ptr), (Z.ltb_spec limit (ptr + size)); try lia. simpl.
    apply wp_bind. unfold write_tail.
    assert (Hgo : forall st1 s1, spans_of st1 !! span = Some s1 ->
      (match tail with
       | None => st1 = upd_pageheap (upd_spans (<[span := set_objects ptr s]>) st.(pageheap)) st
       | Some y => st1 = upd_memory (fun m => SLL_SetNext m y ptr) st
       end) ->
      wp (carve_loop fuel span (Some ptr) (ptr + size) limit size (num + 1)) (fun r st' =>
        r = (match last (ptr :: rest) with Some x => Some x | None => tail end, num + Z.of_nat (S n)) /\
        cut span tail (ptr :: rest) st st') st1).
    { intros st1 s1 Hs1 Hst1. eapply wp_mono; [apply (IH fuel (Some ptr) (ptr + size) (num + 1) st1 s1); try done; lia || (intros t [= <-]; lia)|].
      intros r st2 [-> Hcut]. split.
      - f_equal; [|lia]. fold rest. rewrite last_cons. by destruct (last rest).
      - eapply cut_tail; try done.
        + intros Hin. specialize (Hge _ Hin). lia.
        + intros Heq. specialize (Htail _ Heq). lia.
        + intros t Ht Hin. specialize (Hge _ Hin). specialize (Htail _ Ht). lia.
        + apply NoDup_fmap_2_strong; [|apply NoDup_seqZ]. intros x y _ _ Heq. nia. }
    destruct tail as [t|].
    + apply wp_modify. by eapply Hgo.
    + apply wp_store_c with s; [done|]. eapply Hgo; [|done]. simpl. by rewrite lookup_insert_eq.
Qed.
(** ** A new span of the class *)

Definition add_span (cl r : Z) s g : ghost :=
  mkGhost (r :: g_nonempty g) (g_empty g) (fun q => if decide (q = r) then span_objs cl s else g_free g q)
    (g_slots g) (g_out g).

Lemma central_add strict cl g st st' r s' :
  Inv strict ∅ 0 st'.(pageheap) -> 1 <= cl < nclasses -> central_rep cl g st ->
  (forall q t, in_class cl st' q t <-> q = r /\ t = s' \/ q <> r /\ in_class cl st q t) ->
  (forall t, ~ in_class cl st r t) ->
  s'.(length_) = class_to_pages sm cl -> s'.(refcount) = 0 -> sll st'.(memory) s'.(objects) (span_objs cl s') ->
  (forall x, x ∉ span_objs cl s' -> st'.(memory) !! x = st.(memory) !! x) ->
  dll (links_of st') (nonempty_ cl) (r :: g_nonempty g) -> dll (links_of st') (empty_ cl) (g_empty g) ->
  cfl st' cl = set_counter (u64 ((cfl st cl).(counter_) + total cl))
    (set_num_spans (u64 ((cfl st cl).(num_spans_) + 1)) (cfl st cl)) ->
  central_rep cl (add_span cl r s' g) st'.
Proof.
  intros HI' Hcl Hrep Hic Hnew Hlen Href Hsll Hmem Hne He Hcf. pose proof Hrep as [].
  assert (Hcl0 : cl <> 0) by lia. destruct (smo_objects _ Hsm cl Hcl) as [Ht0 _]. fold (total cl) in Ht0.
  destruct (smo_size _ Hsm cl Hcl) as [Hsz _].
  assert (Hr : r ∉ g_spans g) by (intros (_ & t & Ht)%cr_spans; by apply (Hnew t)).
  assert (Hoth : forall q t x, in_class cl st q t -> x ∈ span_objs cl t -> x ∉ span_objs cl s').
  { intros q t x Hq Hx Hxs. assert (Hqr : q <> r) by (intros ->; by apply (Hnew t)). apply Hqr.
    pose proof (proj2 (Hic q t) (or_intror (conj Hqr Hq))) as (Hq' & _).
    pose proof (proj2 (Hic r s') (or_introl (conj eq_refl eq_refl))) as (Hr' & _).
    apply (objs_disjoint (ens := ens) (free_ := free_) Hsm strict st'.(pageheap) cl cl q r t s' x); try done.
    by apply (cr_span q t). }
  assert (Hheld : forall x, g_held g x -> x ∉ span_objs cl s').
  { intros x Hx. destruct (cr_held x Hx) as (_ & q & t & Hq & Hxt). by eapply Hoth. }
  assert (Hcnt : List.length (span_objs cl s') = Z.to_nat (total cl)) by apply length_objs.
  split; unfold g_spans, g_cached in *; rewrite ?Hcf; simpl; try done.
  - by constructor.
  - intros q. rewrite elem_of_cons, cr_spans. split.
    + intros [->|(_ & t & Ht)]; (split; [done|]); [exists s'; apply Hic; by left|]. exists t. apply Hic. right.
      split; [intros ->; by apply (Hnew t)|done].
    + intros (_ & t & [[-> _]|[_ Ht]]%Hic); [by left|right; eauto].
  - intros q t _ [[-> ->]|[Hqr Hq]]%Hic.
    + split; simpl; rewrite ?decide_True by done; try done; [rewrite Hcnt; lia| |].
      * split; [|set_solver]. intros Hnil. rewrite Hnil in Hcnt. simpl in Hcnt. lia.
      * intros x. split; [|tauto]. intros Hx. split; [done|]. intros Hh. by apply (Hheld x Hh).
    + destruct (cr_span q t Hcl0 Hq). split; simpl; rewrite ?decide_False by done; try done.
      eapply sll_agree; [|done]. intros x [Hx _]%sr_free. by eapply Hmem, Hoth.
  - intros x Hx. destruct (cr_held x Hx) as (_ & q & t & Hq & Hxt). split; [done|]. exists q, t. split; [|done].
    apply Hic. right. split; [|done]. intros ->. by apply (Hnew t).
  - intros i os Hi. destruct (cr_slots i os Hi) as (hd & tl & Hsl' & Hs2 & Hla & Hl2). exists hd, tl. rewrite Hcf. simpl.
    split_and!; try done. eapply sll_agree; [|done]. intros x Hx. apply Hmem, Hheld. right.
    apply list_elem_of_join. exists os. split; [done|]. by apply list_elem_of_lookup_2 with i.
  - rewrite cr_counter, u64_add_l. f_equal. unfold g_count, g_spans. simpl. rewrite decide_True, Hcnt by done.
    rewrite (count_ext (fun q => Z.of_nat (List.length (if decide (q = r) then span_objs cl s' else g_free g q))) (fun q => Z.of_nat (List.length (g_free g q)))); [lia|].
    intros q Hq. rewrite decide_False; [done|]. by intros ->.
  - rewrite cr_num, u64_add_l. f_equal. simpl. lia.
Qed.
(** The lists of the class in the heap that the page heap returns. *)
Lemma populate_lists strict Gs st cl r h1 :
  heap_rep strict Gs st -> 1 <= cl < nclasses -> Inv strict ∅ 0 h1 -> keeps {[r]} st.(pageheap) h1 ->
  r ∉ g_spans (Gs cl) -> (forall c, 0 <= c < nclasses -> r <> empty_ c /\ r <> nonempty_ c) ->
  let L' := DLL_Prepend h1.(span_links) (nonempty_ cl) r in
  dll L' (nonempty_ cl) (r :: g_nonempty (Gs cl)) /\ dll L' (empty_ cl) (g_empty (Gs cl)) /\
  (forall y, y ∉ r :: nonempty_ cl :: g_nonempty (Gs cl) -> links_agree h1.(span_links) L' y).
Proof.
  intros Hrep Hcl HI1 Hk Hr Hrh L'. pose proof (hr_central _ _ _ Hrep cl ltac:(lia)) as Hcr.
  assert (Hcl' : 0 <= cl < nclasses) by lia. destruct (cl_static cl Hcl') as [Hs1 Hs2], (cl_apart cl Hcl') as [Ha1 Ha2].
  assert (Hlk : forall y, y ∈ g_spans (Gs cl) -> links_agree (links_of st) h1.(span_links) y).
  { intros y Hy. destruct (class_span_use _ _ _ cl y Hrep ltac:(lia) Hy) as (t & (Ht & Hl & _) & _).
    eapply (k_link _ _ _ _ Hk); [done..|]. intros ->%elem_of_singleton. done. }
  unfold g_spans in *. apply not_elem_of_app in Hr as [Hrn Hre].
  assert (Hn1 : dll h1.(span_links) (nonempty_ cl) (g_nonempty (Gs cl))).
  { eapply dll_agree; [apply Hcr|]. intros y [->|Hy]%elem_of_cons; [by apply (k_static _ _ _ _ Hk)|apply Hlk; set_solver]. }
  assert (He1 : dll h1.(span_links) (empty_ cl) (g_empty (Gs cl))).
  { eapply dll_agree; [apply Hcr|]. intros y [->|Hy]%elem_of_cons; [by apply (k_static _ _ _ _ Hk)|apply Hlk; set_solver]. }
  destruct (Hrh cl ltac:(lia)) as [Hr1 Hr2].
  destruct (DLL_Prepend_spec _ _ _ r Hn1) as [Hd Hfr]; [by apply not_elem_of_cons|].
  split_and!; [done| |intros y Hy; apply Hfr; set_solver].
  destruct (headers_out _ _ _ cl Hrep ltac:(lia)) as [Hh1 Hh2]. pose proof (headers_ne (central_cache_ := central_cache_) cl).
  pose proof (cr_nodup _ _ _ Hcr) as (_ & Hdis & _)%NoDup_app.
  apply dll_agree with h1.(span_links); [done|]. intros y Hy. apply Hfr.
  apply elem_of_cons in Hy as [->|Hy]; rewrite !not_elem_of_cons; [by split_and!|].
  split_and!; [congruence|congruence|]. intros Hy2. by apply (Hdis y).
Qed.

Lemma populate_inv strict cl Gs st h1 h2 r s1 s' (n := class_to_pages sm cl) :
  heap_rep strict Gs st -> 1 <= cl < nclasses -> Inv strict ∅ 0 h1 -> keeps {[r]} st.(pageheap) h1 ->
  h1.(spans) !! r = Some s1 -> s1.(location) = IN_USE -> s1.(sizeclass) = cl ->
  r ∉ g_spans (Gs cl) -> cached_as cl s1.(start) n h1 h2 ->
  s'.(start) = s1.(start) -> s'.(length_) = s1.(length_) -> s'.(location) = IN_USE -> s'.(sizeclass) = cl ->
  (forall y, y ∉ r :: nonempty_ cl :: g_nonempty (Gs cl) ->
    links_agree h1.(span_links) (DLL_Prepend h1.(span_links) (nonempty_ cl) r) y) ->
  Inv strict ∅ 0 (upd_spans (<[r := s']>) (upd_span_links (fun L => DLL_Prepend L (nonempty_ cl) r) h2)).
Proof.
  intros Hrep Hcl HI1 Hk Hr1 Hl1 Hc1 Hr [[c' ->] _] H1 H2 H3 H4 Hfr.
  eapply (Inv_store_in_use (free_ := free_) strict _ r s1); simpl; try done; [|congruence].
  apply (Inv_links (free_ := free_) strict ∅ 0 (upd_pagemap_cache (fun _ => c') h1)).
  - by apply Inv_cache.
  - simpl. intros y Hy. apply Hfr. intros [->|[->|Hin]%elem_of_cons]%elem_of_cons.
    + by eapply in_use_not_node.
    + eapply header_not_node; [done| |by right|done]. lia.
    + destruct (class_span_use _ _ _ cl y Hrep ltac:(lia)) as (t & (Ht & Hlt & _) & _); [unfold g_spans; set_solver|].
      eapply (in_use_not_node strict h1 y t); try done. apply (k_span _ _ _ _ Hk); [done..|].
      intros ->%elem_of_singleton. apply Hr. unfold g_spans. set_solver.
Qed.

(** A cache that knows about the new span at most its class. *)
Lemma cache_ok_add strict cl st st' h1 h2 r s1 s' (n := class_to_pages sm cl) :
  cache_ok st -> 1 <= cl -> Inv strict ∅ 0 h1 -> keeps {[r]} st.(pageheap) h1 -> h1.(spans) !! r = Some s1 ->
  s1.(length_) = n -> cached_as cl s1.(start) n h1 h2 -> s'.(start) = s1.(start) -> s'.(length_) = n -> s'.(sizeclass) = cl ->
  spans_of st' = <[r := s']> h1.(spans) -> st'.(pageheap).(pagemap_cache_) = h2.(pagemap_cache_) -> cache_ok st'.
Proof.
  intros [Hnull Hok] Hcl HI1 Hk Hr1 Hn1 [_ Hc] H1 H2 H3 HS Hca.
  assert (Hget : forall k, TryGetSizeClass st'.(pageheap) k = TryGetSizeClass h2 k) by (intros k; unfold TryGetSizeClass; by rewrite Hca).
  split.
  { rewrite Hget. destruct (TryGetSizeClass h2 0) as [v|] eqn:Hv; [|done]. rewrite <- Hnull. symmetry. apply (k_cache _ _ _ _ Hk); [lia|].
    apply (Hc 0 v); [lia|done|]. destruct (Inv_ok _ _ _ _ _ _ _ _ HI1 Hr1). lia. }
  intros q t Hq Hl.
  rewrite HS in Hq. apply lookup_insert_Some in Hq as [[<- <-]|[Hne Hq]].
  - split; [lia|]. intros _ k v Hkc. rewrite Hget. intros Hv. rewrite H3. apply (Hc k v); [|done|unfold covers in Hkc; lia].
    eapply (covered_range (free_ := free_) strict ∅ 0 h1 r s1); try done. unfold covers in *. rewrite H1, H2 in Hkc. by rewrite Hn1.
  - assert (Hqr : q ∉ ({[r]} : gset Z)) by (by intros ->%elem_of_singleton).
    destruct (Hok q t (k_span' _ _ _ _ Hk q t Hq Hl Hqr) Hl) as [A B].
    assert (Hback : forall k v, covers t k -> TryGetSizeClass h2 k = Some v -> TryGetSizeClass st.(pageheap) k = Some v).
    { intros k v Hkc Hv. assert (Hkr : 0 <= k < 2 ^ 64) by (by eapply (covered_range (free_ := free_) strict ∅ 0 h1)).
      apply (k_cache _ _ _ _ Hk); [done|]. apply (Hc k v Hkr Hv). intros Hin. apply Hne. symmetry.
      eapply (g_disjoint _ _ _ _ _ _ _ (i_geom _ _ _ _ _ _ HI1) q r t s1 k); try done. unfold covers. by rewrite Hn1. }
    assert (Hst : covers t t.(start)) by (destruct (Inv_ok _ _ _ _ _ _ _ _ HI1 Hq); unfold covers; lia).
    split.
    + intros H0. rewrite Hget. destruct (TryGetSizeClass h2 t.(start)) as [v|] eqn:Hv; [|done].
      apply Hback in Hv; [|done]. rewrite A in Hv; done.
    + intros H0 k v Hkc. rewrite Hget. intros Hv. apply (B H0 k v Hkc). by apply Hback.
Qed.
Lemma populate_local strict cl Gs st st' h1 r s' :
  heap_rep strict Gs st -> 1 <= cl < nclasses -> keeps {[r]} st.(pageheap) h1 ->
  (forall t, spans_of st !! r = Some t -> t.(location) <> IN_USE) -> s'.(sizeclass) = cl ->
  ~ static_addr r -> spans_of st' = <[r := s']> h1.(spans) ->
  (forall y, y ∉ r :: nonempty_ cl :: g_nonempty (Gs cl) -> links_agree h1.(span_links) (links_of st') y) ->
  (forall x, x ∉ span_objs cl s' -> st'.(memory) !! x = st.(memory) !! x) ->
  (forall c, c <> cl -> cfl st' c = cfl st c) -> st'.(race_counter) = st.(race_counter) ->
  st'.(pageheap).(smallest_span_size_) = h1.(smallest_span_size_) ->
  local cl (list_to_set (span_objs cl s')) st st'.
Proof.
  intros Hrep Hcl Hk Hr Hsc Hnst HS HL Hmem Hcf Hrc Hsma.
  assert (Hin : forall y, y ∈ g_nonempty (Gs cl) -> exists t, in_class cl st y t /\ ~ static_addr y).
  { intros y Hy. destruct (class_span_use _ _ _ cl y Hrep ltac:(lia)) as (t & Ht & _); [unfold g_spans; set_solver|].
    exists t. split; [done|]. destruct Ht as (Ht & _). by destruct (Inv_ok _ _ _ _ _ _ _ _ (hr_inv _ _ _ Hrep) Ht). }
  split; try done.
  - intros q t Hl Hc. rewrite HS. destruct (decide (q = r)) as [->|Hne].
    + rewrite lookup_insert_eq. split; [intros Hq; by destruct (Hr t Hq)|congruence].
    + rewrite lookup_insert_ne by done. assert (Hqr : q ∉ ({[r]} : gset Z)) by (by intros ->%elem_of_singleton).
      split; intros Hq; [by eapply (k_span _ _ _ _ Hk)|by eapply (k_span' _ _ _ _ Hk)].
  - intros q t Hq Hl Hc. assert (Hqr : q <> r) by (intros ->; by apply (Hr t)).
    eapply links_agree_trans; [eapply (k_link _ _ _ _ Hk); [done..|by intros ->%elem_of_singleton]|].
    apply HL. rewrite !not_elem_of_cons. split_and!; [done| |].
    + intros ->. destruct (Inv_ok _ _ _ _ _ _ _ _ (hr_inv _ _ _ Hrep) Hq) as [_ Hns _ _ _ _ _].
      assert (Hcl' : 0 <= cl < nclasses) by lia. by destruct (cl_static cl Hcl').
    + intros (u & (Hu & _ & ?) & _)%Hin. congruence.
  - intros a Ha Hh Hae Han. eapply links_agree_trans; [by apply (k_static _ _ _ _ Hk)|]. apply HL.
    rewrite !not_elem_of_cons. split_and!; [congruence|done|]. by intros (u & _ & ?)%Hin.
  - intros x Hx. apply Hmem. by rewrite elem_of_list_to_set in Hx.
  - rewrite Hsma. apply (k_config _ _ _ _ Hk).
Qed.

Lemma populate_rep strict cl Gs st st' h1 h2 r s1 s' (n := class_to_pages sm cl) :
  heap_rep strict Gs st -> 1 <= cl < nclasses -> Inv strict ∅ 0 h1 -> keeps {[r]} st.(pageheap) h1 ->
  (forall t, spans_of st !! r = Some t -> t.(location) <> IN_USE) ->
  h1.(spans) !! r = Some s1 -> s1.(length_) = n -> s1.(location) = IN_USE -> s1.(sizeclass) = cl ->
  cached_as cl s1.(start) n h1 h2 ->
  s'.(start) = s1.(start) -> s'.(length_) = s1.(length_) -> s'.(location) = IN_USE -> s'.(sizeclass) = cl ->
  s'.(refcount) = 0 -> sll st'.(memory) s'.(objects) (span_objs cl s') ->
  (forall x, x ∉ span_objs cl s' -> st'.(memory) !! x = st.(memory) !! x) ->
  st'.(pageheap) = upd_spans (<[r := s']>) (upd_span_links (fun L => DLL_Prepend L (nonempty_ cl) r) h2) ->
  (forall c, cfl st' c = if decide (c = cl) then set_counter (u64 ((cfl st cl).(counter_) + total cl))
    (set_num_spans (u64 ((cfl st cl).(num_spans_) + 1)) (cfl st cl)) else cfl st c) ->
  st'.(race_counter) = st.(race_counter) ->
  heap_rep strict (set_ghost cl (add_span cl r s' (Gs cl)) Gs) st' /\ visible ∅ Gs st st'.
Proof.
  intros Hrep Hcl HI1 Hk Hr Hs1 Hn1 Hl1 Hc1 Hca H1 H2 H3 H4 H5 Hsll Hmem Hph Hcfl Hrc.
  pose proof (hr_central _ _ _ Hrep cl ltac:(lia)) as Hcr.
  assert (Hnin : forall t, ~ in_class cl st r t) by (intros t (Ht & Hlt & _); by apply (Hr t)).
  assert (Hrg : r ∉ g_spans (Gs cl)) by (intros (_ & t & Ht)%(cr_spans _ _ _ Hcr); by apply (Hnin t)).
  destruct (Inv_ok _ _ _ _ _ _ _ _ HI1 Hs1) as [_ Hns _ Hst0 _ _ _].
  destruct (populate_lists strict Gs st cl r h1) as (Hd1 & Hd2 & HL); try done.
  { intros c Hc. destruct (cl_static c Hc). split; intros ->; done. }
  assert (HI' : Inv strict ∅ 0 st'.(pageheap)) by (rewrite Hph; by eapply populate_inv).
  destruct Hca as [[c' ->] Hca']. pose proof (conj (ex_intro _ c' eq_refl) Hca' : cached_as cl s1.(start) n h1 _) as Hca.
  assert (HS : spans_of st' = <[r := s']> h1.(spans)) by (by rewrite Hph).
  assert (HLk : links_of st' = DLL_Prepend h1.(span_links) (nonempty_ cl) r) by (by rewrite Hph).
  assert (Hic : forall q t, in_class cl st' q t <-> q = r /\ t = s' \/ q <> r /\ in_class cl st q t).
  { intros q t. unfold in_class. rewrite HS. destruct (decide (q = r)) as [->|Hqr].
    - rewrite lookup_insert_eq. split; [|naive_solver]. intros ([= <-] & _). by left.
    - rewrite lookup_insert_ne by done. assert (Hqr' : q ∉ ({[r]} : gset Z)) by (by intros ->%elem_of_singleton).
      split; [intros (Hq & Hl & Hc); right|intros [[-> _]|(_ & Hq & Hl & Hc)]; [done|]]; (split_and!; try done);
        [by eapply (k_span' _ _ _ _ Hk)|by eapply (k_span _ _ _ _ Hk)]. }
  assert (Hlo : local cl (list_to_set (span_objs cl s')) st st').
  { eapply (populate_local strict cl Gs st st' h1 r s'); try done; [by rewrite HLk| |by rewrite Hph].
    intros c Hc. rewrite Hcfl. by rewrite decide_False. }
  assert (Hlen' : s'.(length_) = class_to_pages sm cl) by (unfold n in Hn1; congruence).
  assert (HT : forall x, x ∈ (list_to_set (span_objs cl s') : gset Z) -> touches cl {[x]} st \/ touches cl {[x]} st').
  { intros x Hx%elem_of_list_to_set. right. intros y ->%elem_of_singleton. exists r, s'.
    split; [apply Hic; by left|done]. }
  rewrite <- HLk in Hd1, Hd2. split.
  - eapply (heap_rep_local Hsm strict cl); try done.
    + eapply (central_add strict cl (Gs cl) st st' r s'); try done. by rewrite Hcfl, decide_True.
    + eapply (cache_ok_add strict cl st st' h1 _ r s1 s'); try done; [apply Hrep|lia|by rewrite Hph].
  - eapply (local_visible Hsm strict cl); try done. intros a x Ha%elem_of_list_to_set Hxo Hin.
    destruct (cr_held _ _ _ Hcr x) as (_ & q & t & Hq & Hxt); [by left|].
    assert (Hqr : q <> r) by (intros ->; by apply (Hnin t)).
    pose proof (proj2 (Hic q t) (or_intror (conj Hqr Hq))) as (Hq' & _ & Hqc). destruct Hqr.
    pose proof (sr_length _ _ _ _ _ (cr_span _ _ _ Hcr q t ltac:(lia) Hq)) as Hlt.
    assert (Hr' : spans_of st' !! r = Some s') by (by rewrite HS, lookup_insert_eq).
    destruct (proj2 (Hic r s') ltac:(by left)) as (_ & _ & Hrc').
    assert (a = x) as -> by (by apply (obj_inside (ens := ens) (free_ := free_) Hsm strict st'.(pageheap) cl cl q r t s' x a)).
    by apply (objs_disjoint (ens := ens) (free_ := free_) Hsm strict st'.(pageheap) cl cl q r t s' x).
Qed.
(** ** [Populate] *)

Lemma RoundUpSize_multiple strict D e h n :
  Inv strict D e h -> 0 < n < 2 ^ 31 -> n mod h.(smallest_span_size_) = 0 -> RoundUpSize h n = n.
Proof.
  intros HI Hn Hm. destruct (i_round _ _ _ _ _ _ HI) as (k & Hk & Hs). rewrite Hs in Hm.
  rewrite (RoundUpSize_min h k n Hs Hk) by lia. assert (0 < 2 ^ k) by (apply Z.pow_pos_nonneg; lia).
  assert (2 ^ k <= 2 ^ 51) by (apply Z.pow_le_mono_r; lia).
  pose proof (Z.div_mod n (2 ^ k) ltac:(lia)) as Hdiv. rewrite Hm in Hdiv.
  replace ((n + 2 ^ k - 1) / 2 ^ k) with (n / 2 ^ k); [rewrite (Z.mul_comm (n / 2 ^ k)); lia|].
  apply (Z.div_unique_pos _ _ _ (2 ^ k - 1)); lia.
Qed.

(** The block [s] cut into its objects. *)
Definition carved (cl r : Z) s st st' : Prop :=
  exists s', st'.(pageheap) = upd_spans (<[r := s']>) st.(pageheap) /\ s' = set_objects s'.(objects) s /\
    sll st'.(memory) s'.(objects) (span_objs cl s) /\
    (forall x, x ∉ span_objs cl s -> st'.(memory) !! x = st.(memory) !! x) /\
    st'.(central_cache) = st.(central_cache) /\ st'.(race_counter) = st.(race_counter).

Lemma wp_carve cl r s st (n := class_to_pages sm cl) (size := ByteSizeForClass sm cl) (ptr := bytes_of s.(start)) :
  spans_of st !! r = Some s -> 1 <= cl < nclasses -> 0 < s.(start) -> s.(start) + n < 2 ^ 35 ->
  wp (carve_loop (Z.to_nat (bytes_of n / size) + 1) r None ptr (u64 (ptr + bytes_of n)) size 0) (fun res st1 =>
    res.2 = total cl /\ wp (write_tail r res.1 0) (fun _ st' => carved cl r s st st') st1) st.
Proof.
  intros Hs Hcl Hst Hlim. destruct (smo_size _ Hsm cl Hcl) as [Hsz Hmax], (smo_objects _ Hsm cl Hcl) as [Ht0 Ht1],
    (smo_pages _ Hsm cl Hcl) as [Hn0 Hn1]. fold size in Hsz, Hmax. fold n in Hn0, Hn1. fold (total cl) in Ht0, Ht1.
  assert (kMaxSize = 262144) by done.
  assert (Hp : ptr = s.(start) * 8192) by (unfold ptr; rewrite bytes_of_eq; lia).
  rewrite (bytes_of_eq n), Hp, u64_small by lia.
  assert (Htot : total cl = 8192 * n / size) by (unfold CentralInv.total; fold n size; f_equal; lia).
  rewrite <- Htot. pose proof (Z.mul_div_le (8192 * n) size ltac:(lia)). pose proof (Z.mul_succ_div_gt (8192 * n) size ltac:(lia)).
  eapply wp_mono; [apply (wp_carve_loop r _ size (Z.to_nat (total cl)) _ None _ 0 st s)|]; try done; try lia.
  rewrite Z2Nat.id by lia. change ((fun k => s.(start) * 8192 + k * size) <$> seqZ 0 (total cl)) with (span_objs cl s).
  intros res st1 [-> Hcut]. simpl. split; [lia|].
  assert (Hnd : NoDup (span_objs cl s)) by (apply NoDup_objs; lia).
  assert (Hnz : forall x, x ∈ span_objs cl s -> x <> 0) by (intros x (k & Hk & ->)%elem_of_objs; nia).
  assert (Hlen : List.length (span_objs cl s) = Z.to_nat (total cl)) by apply length_objs.
  destruct Hcut as (s0 & s' & Hs0 & Hph & Hset & Hcc & Hrc & Hmem & Hlk). assert (s0 = s) as -> by congruence.
  destruct (last (span_objs cl s)) as [z|] eqn:Hz; [|apply last_None in Hz; rewrite Hz in Hlen; simpl in Hlen; lia].
  apply wp_modify. exists s'. simpl. destruct (span_objs cl s) as [|x rest] eqn:Hobjs; [done|]. destruct Hlk as [Hx Hlk].
  split_and!; try done.
  - rewrite Hx. by apply linked_sll.
  - intros y Hy. unfold SLL_SetNext. rewrite lookup_insert_ne; [by apply Hmem|].
    intros ->. apply Hy. by apply last_Some_elem_of.
Qed.

(** The page heap had no span of [n] pages to give. *)
Definition no_pages (n : Z) h (e : Z) : Prop :=
  (limit_pages h = 0 -> e = ENOMEM) /\ (limit_ok n h = true -> none_free n page_limit h).

Lemma wp_Populate strict Gs st cl :
  heap_rep strict Gs st -> 1 <= cl < nclasses ->
  wp (Populate free_ central_cache_ sm cl) (fun _ st' => exists g',
    heap_rep strict (set_ghost cl g' Gs) st' /\ visible ∅ Gs st st' /\
    g_out g' = g_out (Gs cl) /\ g_slots g' = g_slots (Gs cl) /\
    (g_nonempty g' <> [] \/
     g' = Gs cl /\ no_pages (class_to_pages sm cl) st.(pageheap) st'.(pageheap).(errno))) st.
Proof.
  intros Hrep Hcl. pose proof (hr_inv _ _ _ Hrep) as HI. destruct (smo_pages _ Hsm cl Hcl) as [Hn0 Hn1].
  destruct (smo_num _ Hsm) as [_ Hnum]. unfold Populate. apply wp_bind, wp_on_heap.
  eapply wp_mono; [apply (wp_NewWithSizeClass strict); [done|lia..]|]. intros r h1 [HI1 [Hnew Hnone]].
  rewrite (RoundUpSize_multiple strict ∅ 0) in * by (try done; rewrite (hr_smallest _ _ _ Hrep); by apply (smo_multiple _ Hsm)).
  destruct (Z.eqb_spec r 0) as [->|Hr0].
  { apply wp_ret. destruct (Hnone eq_refl) as (Hk & He & Hno). destruct (heap_rep_keeps Hsm strict Gs st h1 Hrep HI1 Hk).
    exists (Gs cl). split_and!; try done; [by apply heap_rep_same|by right]. }
  destruct (Hnew Hr0) as (start0 & (Hk & Hr & s1 & Hs1 & Hst1 & Hl1 & Hlo1 & Hc1) & _). clear Hnew Hnone.
  destruct (Inv_ok _ _ _ _ _ _ _ _ HI1 Hs1) as [_ _ _ Hst0 _ Hlim _]. assert (Hpl : page_limit = 2 ^ 35) by done.
  apply wp_bind, wp_deref_c with s1; [done|]. apply wp_bind, wp_on_heap. simpl.
  eapply wp_mono; [apply (wp_cache_pages cl); lia|]. intros [] h2 Hca. rewrite Z2Nat.id in Hca by lia.
  assert (Hs2 : h2.(spans) !! r = Some s1) by (destruct (proj1 Hca) as [c' ->]; done).
  apply wp_bind. eapply wp_mono; [apply (wp_carve cl r s1); simpl; try done; lia|].
  intros [tail num] st1 [Hnum1 Hwt]. simpl in Hnum1. subst num. apply wp_bind. eapply wp_mono; [exact Hwt|]. clear Hwt.
  intros _ st2 (s' & Hph & Hset & Hsll & Hmem & Hcc & Hrc). simpl in *.
  apply wp_bind. apply wp_store_c with s'; [by rewrite Hph; simpl; rewrite lookup_insert_eq|].
  apply wp_bind, wp_on_links, wp_bind, wp_modify, wp_modify.
  match goal with |- context [visible ∅ Gs st ?w] => set (st' := w) end.
  destruct (populate_rep strict cl Gs st st' h1 h2 r s1 (set_refcount 0 s')) as [Hrep' Hvis]; try done;
    try (rewrite Hset; done).
  - unfold st'. simpl. rewrite Hph. unfold upd_spans, upd_span_links. simpl. f_equal. by rewrite insert_insert_eq.
  - intros c. unfold st'. rewrite !cfl_upd. unfold cfl. simpl. rewrite Hcc. by case_decide; [rewrite decide_True|].
  - exists (add_span cl r (set_refcount 0 s') (Gs cl)). split_and!; try done. by left.
Qed.
End Populate.
