(* ===== verification/CentralRemove.v ===== *)
(** [CentralFreeList::RemoveRange]: what it hands out are objects nobody has. *)
From S2P Require Import Prelude SizeMap LinkedList Span PackedCache PageMap SysEnv PageHeap SpanStore.
From S2P Require Import PageHeapInv PageHeapOps PageHeapAlloc PageHeapGrow PageHeapNew CentralFreeList CentralInv CentralOps CentralPopulate.

Section Remove.
Context {W : Type} {E : Env W} {P : PageMap W} {G : EnvGhost W}.
Context {ens : pm_t -> Z -> Prop} {free_ central_cache_ : Z} {sm : SizeMap}.
Context {EL : EnvLaws W} {PL : PageMapLaws MetaDataAlloc P ens} {HLay : HeapLayout free_}.
Context (Hsm : size_map_ok sm) {CLay : CentralLayout (free_ := free_) (central_cache_ := central_cache_) (sm := sm)}.

Implicit Types (st : Heap) (h : PageHeap) (p q : Z) (s t : Span) (g : ghost) (L : links).

Abbreviation Inv := (Inv ens free_).
Abbreviation keeps := (keeps free_).
Abbreviation empty_ := (empty_ central_cache_).
Abbreviation nonempty_ := (nonempty_ central_cache_).
Abbreviation nclasses := (num_size_classes sm).
Abbreviation spans_of st := (st.(pageheap).(spans)).
Abbreviation links_of st := (st.(pageheap).(span_links)).
Abbreviation heap_rep := (heap_rep (ens := ens) (free_ := free_) (central_cache_ := central_cache_) (sm := sm)).
Abbreviation central_rep := (central_rep (central_cache_ := central_cache_) (sm := sm)).
Abbreviation local := (local (free_ := free_) (central_cache_ := central_cache_)).
Abbreviation visible := (visible (free_ := free_) (central_cache_ := central_cache_) (sm := sm)).
Abbreviation touches := (touches (sm := sm)).
Abbreviation span_objs := (span_objs (sm := sm)).
Abbreviation total := (total (sm := sm)).

(** ** Writing to objects that are outside *)

Lemma held_class strict Gs st c c' p s x :
  heap_rep strict Gs st -> 0 <= c < nclasses -> 1 <= c' < nclasses -> g_held (Gs c) x ->
  in_class c' st p s -> x ∈ span_objs c' s -> c' = c.
Proof.
  intros Hrep Hc Hc' Hx Hp Hxs. destruct (cr_held _ _ _ (hr_central _ _ _ Hrep c Hc) x Hx) as (Hc0 & q & t & Hq & Hxt).
  pose proof Hp as (Hp1 & _ & <-). pose proof Hq as (Hq1 & _ & <-).
  assert (q = p) as -> by (eapply (objs_disjoint (ens := ens) (free_ := free_) Hsm strict st.(pageheap)
    t.(sizeclass) s.(sizeclass) q p t s x); try done; [apply Hrep|lia|
    by apply (cr_span _ _ _ (hr_central _ _ _ Hrep _ Hc) q t)|
    apply (cr_span _ _ _ (hr_central _ _ _ Hrep (sizeclass s) ltac:(lia)) p s); [lia|done]]).
  congruence.
Qed.

Lemma out_class strict Gs st c c' x :
  heap_rep strict Gs st -> 0 <= c < nclasses -> 0 <= c' < nclasses -> x ∈ g_out (Gs c) -> x ∈ g_out (Gs c') -> c' = c.
Proof.
  intros Hrep Hc Hc' Hx Hx'.
  destruct (cr_held _ _ _ (hr_central _ _ _ Hrep c' Hc') x ltac:(by left)) as (Hc0 & p & s & Hp & Hxs).
  apply (held_class strict Gs st c c' p s x); try done; [lia|by left].
Qed.

(** The state depends on no word outside. *)
Lemma central_memory cl g st (f : mem -> mem) :
  central_rep cl g st ->
  (forall p s x, in_class cl st p s -> cl <> 0 -> x ∈ span_objs cl s -> x ∉ g_out g -> f st.(memory) !! x = st.(memory) !! x) ->
  central_rep cl g (upd_memory f st).
Proof.
  intros [] Hm. split; try done.
  - intros p s Hc0 Hp. destruct (cr_span p s Hc0 Hp). split; try done. simpl.
    eapply sll_agree; [|done]. intros x Hx. apply sr_free in Hx as [Hx Hh]. eapply Hm; [done..|]. intros Ho. apply Hh. by left.
  - intros i os Hi. destruct (cr_slots i os Hi) as (hd & tl & Hsl & Hsll & Hla & Hlen). exists hd, tl. split_and!; try done.
    simpl. eapply sll_agree; [|done]. intros x Hx.
    assert (Hc : x ∈ g_cached g) by (apply list_elem_of_join; exists os; split; [done|by apply list_elem_of_lookup_2 with i]).
    destruct (cr_held x ltac:(by right)) as (Hc0 & p & s & Hp & Hxs). eapply Hm; [done..|].
    intros Ho. by apply (cr_apart x).
Qed.

(** It depends on the first words of objects that are not outside. *)
Lemma heap_rep_words strict Gs st (f : mem -> mem) :
  heap_rep strict Gs st ->
  (forall c p s x, 0 <= c < nclasses -> in_class c st p s -> c <> 0 -> x ∈ span_objs c s -> x ∉ g_out (Gs c) ->
     f st.(memory) !! x = st.(memory) !! x) ->
  heap_rep strict Gs (upd_memory f st).
Proof. intros Hrep Hf. pose proof Hrep as []. split; try done. intros c Hc. apply central_memory; eauto. Qed.

Lemma heap_rep_memory strict Gs st (f : mem -> mem) :
  heap_rep strict Gs st ->
  (forall x, (forall c, 0 <= c < nclasses -> x ∉ g_out (Gs c)) -> f st.(memory) !! x = st.(memory) !! x) ->
  heap_rep strict Gs (upd_memory f st).
Proof.
  intros Hrep Hf. apply heap_rep_words; [done|]. intros c p s y Hc Hp Hc0 Hy Hno. apply Hf. intros c' Hc' Hy'. apply Hno.
  assert (c = c') as -> by (apply (held_class strict Gs st c' c p s y); try done; [lia|by left]). done.
Qed.

(** Objects outside are in no large span. *)
Lemma out_not_large strict Gs st c x p s :
  heap_rep strict Gs st -> 0 <= c < nclasses -> x ∈ g_out (Gs c) ->
  spans_of st !! p = Some s -> s.(sizeclass) = 0 -> ~ covers s (x / 8192).
Proof.
  intros Hrep Hcl Hx Hp Hc Hy. pose proof (hr_central _ _ _ Hrep c Hcl) as Hcr.
  destruct (cr_held _ _ _ Hcr x ltac:(by left)) as (Hc0 & q & t & Hq & Hxt).
  pose proof Hq as (Hq1 & _ & Hq3). pose proof (hr_inv _ _ _ Hrep) as HI.
  destruct (Inv_ok _ _ _ _ _ _ _ _ HI Hq1) as [_ _ _ ? _ _ _].
  destruct (obj_page Hsm c t x ltac:(lia)) as [Hcv _]; [by apply (cr_span _ _ _ Hcr q t)|done..|].
  assert (p = q) as -> by (by eapply (g_disjoint _ _ _ _ _ _ _ (i_geom _ _ _ _ _ _ HI))). congruence.
Qed.

(** The objects outside do not overlap. *)
Lemma out_inside_out strict Gs st c c' x a :
  heap_rep strict Gs st -> 0 <= c < nclasses -> 0 <= c' < nclasses -> x ∈ g_out (Gs c) -> a ∈ g_out (Gs c') ->
  x <= a < x + ByteSizeForClass sm c -> c = c' /\ a = x.
Proof.
  intros Hrep Hc Hc' Hx Ha Hin. destruct (cr_held _ _ _ (hr_central _ _ _ Hrep c' Hc') a) as (Hc0 & q & t & Hq & Hat); [by left|].
  apply (out_inside Hsm strict Gs st c c' x a Hrep); try done; [lia|]. intros y ->%elem_of_singleton. exists q, t. split_and!; try done.
  by apply (cr_span _ _ _ (hr_central _ _ _ Hrep c' Hc') q t).
Qed.

Lemma visible_memory strict X Gs st (f : mem -> mem) :
  heap_rep strict Gs st ->
  (forall x, (forall c, 0 <= c < nclasses -> x ∉ g_out (Gs c)) -> f st.(memory) !! x = st.(memory) !! x) ->
  (forall c x, 0 <= c < nclasses -> x ∈ g_out (Gs c) -> x ∉ X -> f st.(memory) !! x = st.(memory) !! x) ->
  visible X Gs st (upd_memory f st).
Proof.
  intros Hrep Hf HX. split; try done; simpl.
  - intros c x a Hc Hx HxX Ha. destruct (decide (Exists (fun c' => a ∈ g_out (Gs c')) (seqZ 0 nclasses))) as [Hex|Hno].
    + apply Exists_exists in Hex as (c' & Hc'%elem_of_seqZ & Ha'). assert (0 <= c' < nclasses) by lia.
      destruct (out_inside_out strict Gs st c c' x a) as [-> ->]; try done. by apply (HX c').
    + apply Hf. intros c' Hc' Ha'. apply Hno, Exists_exists. exists c'. split; [apply elem_of_seqZ; lia|done].
  - intros p s y Hp Hl Hc Hy. apply Hf. intros c Hcl Hyc. by apply (out_not_large strict Gs st c y p s).
Qed.

Lemma heap_rep_write strict Gs st cl x v :
  heap_rep strict Gs st -> 0 <= cl < nclasses -> x ∈ g_out (Gs cl) ->
  heap_rep strict Gs (upd_memory (fun m => SLL_SetNext m x v) st).
Proof.
  intros Hrep Hcl Hx. apply heap_rep_memory; [done|]. intros y Hy. apply lookup_insert_ne. intros ->. by apply (Hy cl).
Qed.

Lemma visible_write strict Gs st cl x v :
  heap_rep strict Gs st -> 0 <= cl < nclasses -> x ∈ g_out (Gs cl) ->
  visible {[x]} Gs st (upd_memory (fun m => SLL_SetNext m x v) st).
Proof.
  intros Hrep Hcl Hx. apply (visible_memory strict); [done|..].
  - intros y Hy. apply lookup_insert_ne. intros ->. by apply (Hy cl).
  - intros c y Hc _ Hyx. apply lookup_insert_ne. set_solver.
Qed.

(** Words that were not outside do not matter to the client. *)
Lemma visible_drop X Gs st st' :
  visible X Gs st st' -> (forall c x, 0 <= c < nclasses -> x ∈ X -> x ∉ g_out (Gs c)) -> visible ∅ Gs st st'.
Proof. intros [] HX. split; try done. intros c x a Hc Hx _ Ha. apply (vi_obj c x a Hc Hx); [|done]. intros HxX. by apply (HX c x). Qed.

(** ** [FetchFromOneSpansSafe] *)

(** [r] is a chain of at most [N] objects that were not outside before. *)
Definition supplied (strict : bool) (cl N : Z) (Gs : Z -> ghost) st (r : Z * Z * Z) st' : Prop :=
  exists os g', heap_rep strict (set_ghost cl g' Gs) st' /\ visible ∅ Gs st st' /\ chain st' r os /\
    Z.of_nat (List.length os) <= N /\ g_out g' = g_out (Gs cl) ∪ list_to_set os /\
    (forall x, x ∈ os -> x ∉ g_out (Gs cl)).

Abbreviation fetched := (fetched (ens := ens) (free_ := free_) (central_cache_ := central_cache_) (sm := sm)).

Lemma fetched_supplied strict cl N Gs st r st' : fetched strict cl N Gs st r st' -> supplied strict cl N Gs st r st'.
Proof. intros (os & g' & H1 & H2 & H3 & H4 & H5 & H6 & _). by exists os, g'. Qed.

Lemma set_ghost_set cl g g' Gs : forall c, set_ghost cl g (set_ghost cl g' Gs) c = set_ghost cl g Gs c.
Proof. intros c. unfold set_ghost. by case_decide. Qed.

Lemma supplied_after strict cl N g1 Gs st st1 r st' :
  visible ∅ Gs st st1 -> g_out g1 = g_out (Gs cl) -> supplied strict cl N (set_ghost cl g1 Gs) st1 r st' ->
  supplied strict cl N Gs st r st'.
Proof.
  intros Hv1 Ho (os & g' & H1 & H2 & H3 & H4 & H5 & H6). exists os, g'. rewrite set_ghost_eq in H5, H6. rewrite Ho in H5, H6.
  split_and!; try done.
  - eapply heap_rep_ext; [|done]. intros c. by rewrite set_ghost_set.
  - rewrite <- (union_idemp_L ∅). apply (visible_trans (ens := ens) Hsm ∅ ∅ Gs (set_ghost cl g1 Gs) st st1 st'); [done..|]. intros c x Hc Hx _.
    unfold set_ghost. case_decide; [subst; by rewrite Ho|done].
Qed.

Lemma wp_FetchFromOneSpansSafe strict Gs st cl N :
  heap_rep strict Gs st -> 1 <= cl < nclasses -> 0 < N ->
  wp (FetchFromOneSpansSafe free_ central_cache_ sm cl N) (fun r st' => supplied strict cl N Gs st r st' /\
    (r.1.1 = 0 -> no_pages (class_to_pages sm cl) st.(pageheap) st'.(pageheap).(errno))) st.
Proof.
  intros Hrep Hcl HN. unfold FetchFromOneSpansSafe. apply wp_bind.
  eapply wp_mono; [by apply (wp_FetchFromOneSpans Hsm strict Gs)|].
  intros [[n hd] tl] st1 (Hf & _ & Hst). simpl in Hst. destruct (Z.eqb_spec n 0) as [->|Hn].
  - rewrite (Hst eq_refl) in *. apply wp_bind. eapply wp_mono; [by apply (wp_Populate Hsm strict Gs)|].
    intros [] st2 (g1 & Hrep1 & Hv1 & Ho1 & _ & Hne).
    eapply wp_mono; [by apply (wp_FetchFromOneSpans Hsm strict (set_ghost cl g1 Gs))|].
    intros r st3 (Hf3 & Hr3 & Hst3). rewrite set_ghost_eq in Hr3. split.
    + eapply supplied_after; [done..|]. by apply fetched_supplied.
    + intros H0. destruct Hne as [Hne|[_ Hno]]; [by destruct (Hr3 Hne)|]. by rewrite (Hst3 H0).
  - apply wp_ret. split; [by apply fetched_supplied|]. simpl. lia.
Qed.
(** ** [RemoveRange] *)

(** A chain [os] taken so far, and one more in front of it. *)
Lemma supplied_push strict cl N Gs st st1 st2 g1 start e os n hd tl (m := SLL_SetNext st2.(memory) tl start) :
  visible ∅ Gs st st1 -> sll st1.(memory) start os -> last os = Some e ->
  g_out g1 = g_out (Gs cl) ∪ list_to_set os -> (forall x, x ∈ os -> x ∉ g_out (Gs cl)) -> 1 <= cl < nclasses ->
  fetched strict cl (N - Z.of_nat (List.length os)) (set_ghost cl g1 Gs) st1 (n, hd, tl) st2 -> n <> 0 ->
  hd <> 0 /\ exists os' g', heap_rep strict (set_ghost cl g' Gs) (upd_memory (fun _ => m) st2) /\
    visible ∅ Gs st (upd_memory (fun _ => m) st2) /\ sll m hd os' /\ last os' = Some e /\
    Z.of_nat (List.length os') = Z.of_nat (List.length os) + n /\ Z.of_nat (List.length os') <= N /\ 0 < n /\
    g_out g' = g_out (Gs cl) ∪ list_to_set os' /\ (forall x, x ∈ os' -> x ∉ g_out (Gs cl)).
Proof.
  intros Hv1 Hsll Hla Ho Hfr Hcl (new & g' & Hrep2 & Hv2 & (Hn & Hsn & Htl) & HN & Ho2 & Hfr2 & _) Hn0. simpl in Hn, Hsn, Htl.
  rewrite set_ghost_eq, Ho in Ho2, Hfr2. assert (Hnew : new <> []) by (intros ->; simpl in Hn; lia).
  destruct (exists_last Hnew) as (r & z & ->). rewrite last_snoc in Htl. simpl in Htl. subst z.
  assert (Hrep2' : heap_rep strict (set_ghost cl g' Gs) st2).
  { eapply heap_rep_ext; [|exact Hrep2]. intros c. by rewrite set_ghost_set. }
  assert (Htlo : tl ∈ g_out g') by (rewrite Ho2; set_solver).
  assert (Hos2 : sll st2.(memory) start os).
  { eapply sll_agree; [|done]. intros x Hx. apply (vi_first Hsm _ _ _ _ cl _ Hv2); [lia| |set_solver].
    rewrite set_ghost_eq, Ho. set_solver. }
  assert (Hnd : NoDup (r ++ tl :: os)).
  { destruct Hsn as [_ Hnd]. rewrite cons_middle, app_assoc. apply NoDup_app. split_and!; [done| |apply Hsll].
    intros x Hx Hxo. apply (Hfr2 x Hx). set_solver. }
  pose proof (SLL_PushRange_sll _ _ _ _ _ _ Hos2 (proj1 Hsn) Hnd) as Hpush. unfold SLL_PushRange in Hpush.
  assert (Hhd : hd <> 0) by (destruct Hsn as [Hsn _]; destruct r; simpl in Hsn; naive_solver).
  destruct (Z.eqb_spec hd 0) as [|_]; [done|]. fold m in Hpush. split; [done|].
  assert (Hno : forall x, x ∈ r ++ tl :: os -> x ∉ g_out (Gs cl)).
  { intros x Hx. rewrite cons_middle, app_assoc in Hx. apply elem_of_app in Hx as [Hx|Hx]; [|by apply Hfr].
    intros ?. apply (Hfr2 x Hx). set_solver. }
  exists (r ++ tl :: os), g'. split_and!; try done.
  - apply (heap_rep_write strict _ st2 cl tl start); [done|lia|]. by rewrite set_ghost_eq.
  - assert (Hv3 : visible {[tl]} (set_ghost cl g' Gs) st2 (upd_memory (fun _ => m) st2)).
    { apply (visible_write strict _ st2 cl tl start); [done|lia|]. by rewrite set_ghost_eq. }
    assert (Hv12 : visible (∅ ∪ ∅) Gs st st2).
    { apply (visible_trans (ens := ens) Hsm ∅ ∅ Gs (set_ghost cl g1 Gs) st st1 st2); [done..|]. intros c x Hc Hx _.
      unfold set_ghost. case_decide; [subst; rewrite Ho; set_solver|done]. }
    apply (visible_drop (∅ ∪ ∅ ∪ {[tl]})).
    + apply (visible_trans (ens := ens) Hsm _ _ Gs (set_ghost cl g' Gs) st st2); [done..|]. intros c x Hc Hx _.
      unfold set_ghost. case_decide; [subst; rewrite Ho2; set_solver|done].
    + intros c x Hc Hx Hxc. assert (x = tl) as -> by set_solver. destruct (decide (c = cl)) as [->|Hne].
      * apply (Hno tl); [set_solver|done].
      * apply Hne. apply (out_class strict (set_ghost cl g' Gs) st2 cl c tl); try done; [lia|by rewrite set_ghost_eq|].
        by rewrite set_ghost_ne.
  - rewrite last_app_cons. destruct os; [done|]. by rewrite last_cons_cons.
  - rewrite length_app in *. simpl in *. lia.
  - rewrite length_app in *. simpl in *. lia.
  - rewrite length_app in Hn. lia.
  - rewrite Ho2. set_solver.
Qed.

Lemma wp_remove_loop strict cl N Gs st e fuel : forall g1 st1 start os,
  heap_rep strict (set_ghost cl g1 Gs) st1 -> visible ∅ Gs st st1 -> sll st1.(memory) start os -> last os = Some e ->
  g_out g1 = g_out (Gs cl) ∪ list_to_set os -> (forall x, x ∈ os -> x ∉ g_out (Gs cl)) -> 1 <= cl < nclasses ->
  Z.of_nat (List.length os) <= N -> N - Z.of_nat (List.length os) < Z.of_nat fuel ->
  wp (remove_loop central_cache_ fuel cl N (Z.of_nat (List.length os)) start) (fun r st' =>
    supplied strict cl N Gs st (r.1, r.2, e) st' /\ r.1 <> 0) st1.
Proof.
  induction fuel as [|fuel IH]; intros g1 st1 start os Hrep Hv Hsll Hla Ho Hfr Hcl HN Hf; [lia|]. simpl.
  assert (Hdone : supplied strict cl N Gs st (Z.of_nat (List.length os), start, e) st1 /\ Z.of_nat (List.length os) <> 0).
  { split; [|destruct os; [done|simpl; lia]]. exists os, g1. split_and!; try done. split_and!; try done. simpl. by rewrite Hla. }
  destruct (Z.ltb_spec (Z.of_nat (List.length os)) N) as [Hlt|]; [|by apply wp_ret].
  apply wp_bind. eapply wp_mono; [apply (wp_FetchFromOneSpans Hsm strict (set_ghost cl g1 Gs)); [done|done|lia]|].
  intros [[n hd] tl] st2 (Hfe & _ & Hst). simpl in Hst. destruct (Z.eqb_spec n 0) as [->|Hn].
  { rewrite (Hst eq_refl). by apply wp_ret. }
  apply wp_bind, wp_get.
  destruct (supplied_push strict cl N Gs st st1 st2 g1 start e os n hd tl) as (Hhd & os' & g' & R1 & R2 & R3 & R4 & R5 & R6 & Rn & R7 & R8); try done.
  unfold SLL_PushRange. destruct (Z.eqb_spec hd 0); [done|]. apply wp_bind, wp_modify.
  rewrite <- R5. eapply IH; try done. lia.
Qed.

(** The transfer cache of the class changes; what is held stays. *)
Lemma central_recache cl g st (c' : CentralFreeList) slots out (g' := mkGhost (g_nonempty g) (g_empty g) (g_free g) slots out) :
  central_rep cl g st -> (forall x, g_held g' x <-> g_held g x) ->
  (forall i os, slots !! i = Some os -> exists hd tl, c'.(tc_slots_) !! Z.of_nat i = Some (hd, tl) /\
    sll st.(memory) hd os /\ last os = Some tl /\ Z.of_nat (List.length os) = num_objects_to_move sm cl) ->
  c'.(used_slots_) = Z.of_nat (List.length slots) -> NoDup (g_cached g') -> (forall x, x ∈ out -> x ∉ g_cached g') ->
  c'.(counter_) = (cfl st cl).(counter_) -> c'.(num_spans_) = (cfl st cl).(num_spans_) ->
  c'.(size_class_) = (cfl st cl).(size_class_) -> c'.(used_slots_) <= c'.(cache_size_) <= c'.(max_cache_size_) ->
  c'.(max_cache_size_) = (cfl st cl).(max_cache_size_) ->
  central_rep cl g' (upd_cfl cl (fun _ => c') st).
Proof.
  intros [] Hh Hsl Hu Hnd Hap H1 H2 H3 H4 H5. assert (Hc : cfl (upd_cfl cl (fun _ => c') st) cl = c') by (rewrite cfl_upd; by rewrite decide_True).
  split; rewrite ?Hc, ?H1, ?H2, ?H3, ?H5; try done.
  - intros p s Hc0 Hp. destruct (cr_span p s Hc0 Hp). split; try done. intros x. by rewrite Hh.
  - intros x Hx. apply cr_held. by apply Hh.
  - intros i os Hi. unfold slot_rep. rewrite Hc. by apply Hsl.
  - by rewrite <- H5.
Qed.

Lemma heap_rep_recache strict Gs st cl c' g' :
  heap_rep strict Gs st -> 0 <= cl < nclasses -> central_rep cl g' (upd_cfl cl (fun _ => c') st) ->
  heap_rep strict (set_ghost cl g' Gs) (upd_cfl cl (fun _ => c') st) /\ visible ∅ Gs st (upd_cfl cl (fun _ => c') st).
Proof.
  intros Hrep Hcl Hcr. pose proof Hrep as [].
  assert (Hlo : local cl ∅ st (upd_cfl cl (fun _ => c') st)).
  { split; try done. intros c Hc. rewrite cfl_upd. by rewrite decide_False. }
  split; [|by split]. split; try done. intros c Hc. destruct (decide (c = cl)) as [->|Hne]; [by rewrite set_ghost_eq|].
  rewrite set_ghost_ne by done. eapply (central_frame Hsm strict cl c ∅ (Gs c) st); try done; [by left|by apply hr_central].
Qed.

(** The last slot of the transfer cache is emptied: its chain is outside. *)
Lemma drop_slot strict Gs st cl sl os v (n := Z.of_nat (List.length sl)) :
  heap_rep strict Gs st -> 1 <= cl < nclasses -> g_slots (Gs cl) = sl ++ [os] -> n <= v <= (cfl st cl).(max_cache_size_) ->
  let st1 := upd_cfl cl (fun c => set_used_slots n (set_cache_size v c)) st in
  exists hd tl g1, (cfl st cl).(tc_slots_) !! n = Some (hd, tl) /\
    chain st (num_objects_to_move sm cl, hd, tl) os /\ heap_rep strict (set_ghost cl g1 Gs) st1 /\ visible ∅ Gs st st1 /\
    g_out g1 = g_out (Gs cl) ∪ list_to_set os /\ (forall x, x ∈ os -> x ∉ g_out (Gs cl)).
Proof.
  intros Hrep Hcl Hsl Hv st1. pose proof (hr_central _ _ _ Hrep cl ltac:(lia)) as Hcr. pose proof Hcr as [].
  destruct (cr_slots (List.length sl) os) as (hd & tl & Hs & Hsll & Hla & Hlen).
  { rewrite Hsl, lookup_app_r, Nat.sub_diag by lia. done. }
  rewrite Hsl, length_app in cr_used. simpl in cr_used.
  assert (Hca : g_cached (Gs cl) = mjoin sl ++ os) by (unfold g_cached; rewrite Hsl, join_app; simpl; by rewrite app_nil_r).
  rewrite Hca in cr_cached, cr_apart. pose proof cr_cached as (Hnd1 & Hdis & Hnd2)%NoDup_app.
  set (g1 := mkGhost (g_nonempty (Gs cl)) (g_empty (Gs cl)) (g_free (Gs cl)) sl (g_out (Gs cl) ∪ list_to_set os)).
  exists hd, tl, g1. split; [done|]. split; [split_and!; simpl; [lia|done|by rewrite Hla]|].
  destruct (heap_rep_recache strict Gs st cl (set_used_slots n (set_cache_size v (cfl st cl))) g1) as [Hr Hvi]; [done|lia| |].
  { apply (central_recache cl (Gs cl)); simpl; try done; unfold g_held, g_cached in *; simpl.
    - intros x. rewrite Hca, elem_of_union, elem_of_list_to_set, elem_of_app. tauto.
    - intros i os' Hi. apply cr_slots. rewrite Hsl. by apply lookup_app_l_Some.
    - intros x [Hx|Hx%elem_of_list_to_set]%elem_of_union Hx2; [apply (cr_apart x Hx); set_solver|by apply (Hdis x)]. }
  split_and!; try done. intros x Hx Ho. apply (cr_apart x Ho). set_solver.
Qed.

(** It is handed out. *)
Lemma pop_slot strict Gs st cl sl os :
  heap_rep strict Gs st -> 1 <= cl < nclasses -> g_slots (Gs cl) = sl ++ [os] ->
  let st' := upd_cfl cl (fun c => set_used_slots (i32 (c.(used_slots_) - 1)) c) st in
  exists hd tl, (cfl st' cl).(tc_slots_) !! (cfl st' cl).(used_slots_) = Some (hd, tl) /\
    supplied strict cl (num_objects_to_move sm cl) Gs st (num_objects_to_move sm cl, hd, tl) st'.
Proof.
  intros Hrep Hcl Hsl st'. pose proof (hr_central _ _ _ Hrep cl ltac:(lia)) as [].
  rewrite Hsl, length_app in cr_used. simpl in cr_used. assert (kMaxNumTransferEntries = 64) by done.
  set (n := Z.of_nat (List.length sl)) in *.
  assert (Hu : i32 ((cfl st cl).(used_slots_) - 1) = n) by (rewrite i32_small; lia).
  destruct (drop_slot strict Gs st cl sl os (cfl st cl).(cache_size_) Hrep Hcl Hsl ltac:(lia))
    as (hd & tl & g1 & Hs & (Hlen & Hsll & Hla) & Hr & Hv & Ho & Hfr). simpl in Hlen, Hsll, Hla.
  assert (Hst : upd_cfl cl (fun c => set_used_slots n (set_cache_size (cfl st cl).(cache_size_) c)) st = st').
  { unfold st', upd_cfl. rewrite Hu. by destruct (cfl st cl). }
  fold n in Hr, Hv. rewrite Hst in Hr, Hv. exists hd, tl. unfold st' at 1 2. rewrite cfl_upd, decide_True by done. rewrite Hu.
  split; [done|]. exists os, g1. split_and!; try done. lia.
Qed.

(** The part of [RemoveRange] that goes to the spans. *)
Lemma wp_RemoveRange_spans strict Gs st cl N :
  heap_rep strict Gs st -> 1 <= cl < nclasses -> 0 < N ->
  wp ('(result, start, end_) ← FetchFromOneSpansSafe free_ central_cache_ sm cl N;
      if result =? 0 then mret (result, start, end_)
      else
        '(result, start) ← remove_loop central_cache_ (Z.to_nat N + 1) cl N result start;
        mret (result, start, end_)) (fun r st' => supplied strict cl N Gs st r st' /\
    (r.1.1 = 0 -> no_pages (class_to_pages sm cl) st.(pageheap) st'.(pageheap).(errno))) st.
Proof.
  intros Hrep Hcl HN. apply wp_bind. eapply wp_mono; [by apply (wp_FetchFromOneSpansSafe strict Gs)|].
  intros [[n hd] tl] st1 [Hsup Hno]. simpl in Hno. destruct (Z.eqb_spec n 0) as [->|Hn]; [by apply wp_ret|].
  destruct Hsup as (os & g1 & Hrep1 & Hv & (Hl & Hsll & Hla) & HN1 & Ho & Hfr). simpl in Hl, Hsll, Hla.
  destruct (last os) as [e|] eqn:Hlast; [|apply last_None in Hlast; subst os; simpl in Hl; lia]. simpl in Hla. subst n e.
  apply wp_bind. eapply wp_mono; [eapply (wp_remove_loop strict cl N Gs st tl); try done; lia|].
  intros [n hd'] st2 [Hsup Hn0]. apply wp_ret. simpl in *. split; [done|lia].
Qed.

Lemma wp_RemoveRange strict Gs st cl N :
  heap_rep strict Gs st -> 1 <= cl < nclasses -> 0 < N ->
  wp (RemoveRange free_ central_cache_ sm cl N) (fun r st' => supplied strict cl N Gs st r st' /\
    (r.1.1 = 0 -> no_pages (class_to_pages sm cl) st.(pageheap) st'.(pageheap).(errno))) st.
Proof.
  intros Hrep Hcl HN. pose proof (hr_central _ _ _ Hrep cl ltac:(lia)) as Hcr. unfold RemoveRange. apply wp_bind, wp_get.
  destruct ((N =? _) && _) eqn:Hb; [|by apply wp_RemoveRange_spans].
  apply andb_true_iff in Hb as [HNm%Z.eqb_eq Hu%Z.gtb_lt].
  destruct (exists_last (l := g_slots (Gs cl))) as (sl & os & Hsl).
  { intros Hnil. rewrite (cr_used _ _ _ Hcr), Hnil in Hu. done. }
  destruct (pop_slot strict Gs st cl sl os Hrep Hcl Hsl) as (hd & tl & Hslot & Hsup).
  apply wp_bind, wp_modify, wp_bind, wp_get. rewrite Hslot. simpl. apply wp_ret. rewrite HNm. split; [done|]. simpl. lia.
Qed.
End Remove.
