(* ===== verification/CentralRelease.v ===== *)
(** Objects go back: [CentralFreeList::ReleaseToSpans] and [ReleaseListToSpans]. *)
From S2P Require Import Prelude SizeMap LinkedList Span PackedCache PageMap SysEnv PageHeap SpanStore.
From S2P Require Import PageHeapInv PageHeapOps PageHeapAlloc PageHeapGrow PageHeapNew.
From S2P Require Import CentralFreeList CentralInv CentralOps CentralPopulate CentralRemove.

Section Release.
Context {W : Type} {E : Env W} {P : PageMap W} {G : EnvGhost W}.
Context {ens : pm_t -> Z -> Prop} {free_ central_cache_ : Z} {sm : SizeMap}.
Context {EL : EnvLaws W} {PL : PageMapLaws MetaDataAlloc P ens} {HLay : HeapLayout free_}.
Context (Hsm : size_map_ok sm) {CLay : CentralLayout (free_ := free_) (central_cache_ := central_cache_) (sm := sm)}.

Implicit Types (st : Heap) (h : PageHeap) (p q : Z) (s t : Span) (g : ghost) (L : links).

Abbreviation Inv := (Inv ens free_).
Abbreviation keeps := (keeps free_).
Abbreviation empty_ := (empty_ central_cache_).
Abbreviation nonempty_ := (nonempty_ central_cache_).
Abbreviation nclasses := (num_size_classes sm).
Abbreviation spans_of st := (st.(pageheap).(spans)).
Abbreviation links_of st := (st.(pageheap).(span_links)).
Abbreviation heap_rep := (heap_rep (ens := ens) (free_ := free_) (central_cache_ := central_cache_) (sm := sm)).
Abbreviation central_rep := (central_rep (central_cache_ := central_cache_) (sm := sm)).
Abbreviation local := (local (free_ := free_) (central_cache_ := central_cache_)).
Abbreviation visible := (visible (free_ := free_) (central_cache_ := central_cache_) (sm := sm)).
Abbreviation touches := (touches (sm := sm)).
Abbreviation span_objs := (span_objs (sm := sm)).
Abbreviation total := (total (sm := sm)).

(** An object that is outside, its span and what is free there. *)
Lemma out_span strict Gs st cl x :
  heap_rep strict Gs st -> 1 <= cl < nclasses -> x ∈ g_out (Gs cl) ->
  exists p s, in_class cl st p s /\ span_rep (sm := sm) cl st (Gs cl) p s /\ x ∈ span_objs cl s /\ p ∈ g_spans (Gs cl) /\
    (x ∉ g_free (Gs cl) p) /\ 0 < x /\ GetDescriptor st.(pageheap) (Z.shiftr x kPageShift) = p /\
    Z.of_nat (List.length (g_free (Gs cl) p)) + 1 <= total cl < 2 ^ 16.
Proof.
  intros Hrep Hcl Hx. pose proof (hr_central _ _ _ Hrep cl ltac:(lia)) as Hcr.
  destruct (cr_held _ _ _ Hcr x ltac:(by left)) as (Hc0 & p & s & Hp & Hxs). exists p, s.
  pose proof (cr_span _ _ _ Hcr p s Hc0 Hp) as Hsr. pose proof Hp as (Hp1 & Hp2 & Hp3).
  destruct (Inv_ok _ _ _ _ _ _ _ _ (hr_inv _ _ _ Hrep) Hp1) as [_ _ _ Hst _ _ _].
  destruct (obj_page Hsm cl s x Hcl (sr_length _ _ _ _ _ Hsr) Hst Hxs) as (Hcv & Hx0 & _).
  destruct (smo_objects _ Hsm cl Hcl) as [Ht0 Ht1]. fold (total cl) in Ht0, Ht1.
  assert (Hxf : x ∉ g_free (Gs cl) p) by (intros [_ Hh]%(sr_free _ _ _ _ _ Hsr); apply Hh; by left).
  assert (Hlen : (List.length (x :: g_free (Gs cl) p) <= List.length (span_objs cl s))%nat).
  { apply NoDup_subset_length; [constructor; [done|apply (sr_list _ _ _ _ _ Hsr)]|].
    intros y [->|Hy]%elem_of_cons; [done|]. by apply (sr_free _ _ _ _ _ Hsr). }
  unfold CentralInv.span_objs in Hlen. rewrite length_objs in Hlen. simpl in Hlen.
  split_and!; try done; [|unfold GetDescriptor|lia].
  - apply (cr_spans _ _ _ Hcr). split; [done|]. by exists s.
  - rewrite Z.shiftr_div_pow2 by done. change (2 ^ kPageShift) with 8192.
    destruct (g_mapped _ _ _ _ _ _ _ (i_geom _ _ _ _ _ _ (hr_inv _ _ _ Hrep)) p s Hp1) as [_ _ Hcls].
    apply Hcls; [congruence|done].
Qed.

(** The lists and the links once the span has a free object. *)
Lemma release_lists strict Gs st cl p (g := Gs cl) (Lc := links_of st) :
  heap_rep strict Gs st -> 1 <= cl < nclasses -> p ∈ g_spans g ->
  let L1 := if decide (p ∈ g_empty g) then DLL_Prepend (DLL_Remove Lc p) (nonempty_ cl) p else Lc in
  exists n1 n2 em, dll L1 (nonempty_ cl) (n1 ++ p :: n2) /\ dll L1 (empty_ cl) em /\ NoDup ((n1 ++ p :: n2) ++ em) /\
    (forall q, q ∈ (n1 ++ p :: n2) ++ em <-> q ∈ g_spans g) /\ links_local (central_cache_ := central_cache_) cl g Lc L1 /\
    (forall q, q <> p -> q ∈ em <-> q ∈ g_empty g) /\ (p ∉ em).
Proof.
  intros Hrep Hcl Hp L1. pose proof (hr_central _ _ _ Hrep cl ltac:(lia)) as Hcr. destruct Hcr as [Hn He Hnd _ _ _ _ _ _ _ _ _ _ _ _].
  fold g in Hn, He, Hnd. destruct (headers_out _ _ _ cl Hrep ltac:(lia)) as [Hh1 Hh2]. fold g in Hh1, Hh2.
  unfold g_spans in *. pose proof Hnd as (Hnd1 & Hdis & Hnd2)%NoDup_app. unfold L1. destruct (decide (p ∈ g_empty g)) as [Hpe|Hpe].
  - apply list_elem_of_split in Hpe as (e1 & e2 & Heq). rewrite Heq in *.
    pose proof (headers_ne (central_cache_ := central_cache_) cl) as Hhd.
    destruct (move_span Hsm Lc (empty_ cl) (nonempty_ cl) e1 p e2 (g_nonempty g) He Hn) as (H1 & H2 & H3); [done| |done|].
    { intros y Hy. split; [by intros ->|]. intros Hy2. by apply (Hdis y). }
    exists [], (g_nonempty g), (e1 ++ e2). simpl.
    assert (Hperm : (p :: g_nonempty g ++ e1 ++ e2) ≡ₚ g_nonempty g ++ e1 ++ p :: e2).
    { rewrite !app_assoc. symmetry. by rewrite <- Permutation_middle. }
    split_and!; try done.
    + by rewrite Hperm.
    + intros q. by rewrite Hperm.
    + intros y Hy. apply H3. unfold g_spans in Hy. rewrite Heq in Hy. set_solver.
    + intros q Hq. set_solver.
    + rewrite <- Hperm in Hnd. apply NoDup_cons in Hnd as [Hnd _]. set_solver.
  - assert (Hpn : p ∈ g_nonempty g) by set_solver. apply list_elem_of_split in Hpn as (n1 & n2 & Heq).
    exists n1, n2, (g_empty g). rewrite <- Heq. split_and!; try done.
Qed.

Definition released (strict : bool) (cl x : Z) (Gs : Z -> ghost) st st' : Prop :=
  exists g', heap_rep strict (set_ghost cl g' Gs) st' /\ visible {[x]} Gs st st' /\
    g_out g' = g_out (Gs cl) ∖ {[x]} /\ g_slots g' = g_slots (Gs cl).

(** The object is pushed on the list of its span. *)
Lemma release_push strict Gs st st' cl x p s (Lc := links_of st)
    (L1 := if decide (p ∈ g_empty (Gs cl)) then DLL_Prepend (DLL_Remove Lc p) (nonempty_ cl) p else Lc)
    (s' := set_objects x (set_refcount (s.(refcount) - 1) s)) :
  heap_rep strict Gs st -> 1 <= cl < nclasses -> x ∈ g_out (Gs cl) -> in_class cl st p s -> x ∈ span_objs cl s ->
  st'.(pageheap) = upd_spans (<[p := s']>) (upd_span_links (fun _ => L1) st.(pageheap)) ->
  st'.(memory) = SLL_SetNext st.(memory) x s.(objects) -> st'.(race_counter) = st.(race_counter) ->
  (forall c, cfl st' c = if decide (c = cl) then set_counter (u64 ((cfl st cl).(counter_) + 1)) (cfl st cl) else cfl st c) ->
  released strict cl x Gs st st'.
Proof.
  intros Hrep Hcl Hx Hp Hxs Hph Hmem Hrc Hcfl. pose proof (hr_central _ _ _ Hrep cl ltac:(lia)) as Hcr.
  destruct (out_span strict Gs st cl x Hrep Hcl Hx) as (p' & s0 & Hp' & Hsr & Hxs' & Hpg & Hxf & Hx0 & _ & Hlen).
  pose proof Hp as (Hp1 & Hp2 & Hp3). pose proof Hp' as (Hp1' & _ & _).
  pose proof (cr_span _ _ _ Hcr p s ltac:(lia) Hp) as Hsr0.
  assert (p' = p) as -> by (apply (objs_disjoint (ens := ens) (free_ := free_) Hsm strict st.(pageheap) cl cl p' p s0 s x); try done;
    [apply Hrep|apply Hsr|apply Hsr0]).
  assert (s0 = s) as -> by congruence. clear Hsr0 Hp1' Hp' Hxs'.
  destruct (release_lists strict Gs st cl p Hrep Hcl Hpg) as (n1 & n2 & em & Hd1 & Hd2 & Hnd & Hls & HLl & Hem & Hpe).
  fold Lc L1 in Hd1, Hd2, HLl. destruct Hsr as [Hsl Hsll Hrf Hwh Hfr].
  set (g := Gs cl) in *.
  set (g' := mkGhost (n1 ++ p :: n2) em (fun q => if decide (q = p) then x :: g_free g p else g_free g q) (g_slots g)
    (g_out g ∖ {[x]})).
  assert (Hheld : forall y, g_held g' y <-> g_held g y /\ y <> x).
  { intros y. unfold g_held, g', g_cached. simpl. rewrite elem_of_difference, elem_of_singleton.
    pose proof (cr_apart _ _ _ Hcr x Hx) as Hxc. unfold g_cached in Hxc. fold g in Hxc. split; [|tauto].
    intros [?|Hc]; [tauto|]. split; [by right|]. by intros ->. }
  assert (HS : spans_of st' = <[p := s']> (spans_of st)) by (by rewrite Hph).
  assert (HL : links_of st' = L1) by (by rewrite Hph).
  assert (HI' : Inv strict ∅ 0 st'.(pageheap)).
  { rewrite Hph. eapply Inv_store_in_use with s; try done.
    eapply (Inv_links_local strict Gs st cl L1); [done|lia|done|done]. }
  assert (Hlo : local cl {[x]} st st').
  { eapply (local_change (ens := ens) strict cl {[x]} Gs st st' p s s'); try done; [lia|by rewrite HL| | |by rewrite Hph].
    - intros y Hy. rewrite Hmem. apply lookup_insert_ne. set_solver.
    - intros c Hc. rewrite Hcfl. by rewrite decide_False. }
  assert (Hxst : touches cl {[x]} st) by (intros y ->%elem_of_singleton; by exists p, s).
  assert (HT : forall y, y ∈ ({[x]} : gset Z) -> touches cl {[y]} st \/ touches cl {[y]} st').
  { intros y ->%elem_of_singleton. by left. }
  assert (Hcr' : central_rep cl g' st').
  { apply (central_update (ens := ens) (free_ := free_) Hsm strict cl g g' st st' p s s'); try done; [apply Hrep|..].
    - intros y Hy. rewrite Hmem. apply lookup_insert_ne. intros ->. by apply (cr_apart _ _ _ Hcr y).
    - intros y Hy. rewrite Hmem. apply lookup_insert_ne. by intros ->.
    - by rewrite HL.
    - by rewrite HL.
    - intros q Hq. simpl. by rewrite decide_False.
    - split; simpl; rewrite ?decide_True by done; try done.
      + rewrite Hmem. split; [|constructor; [done|apply Hsll]]. simpl. rewrite SLL_Next_Set_eq. split_and!; [done|lia|].
        by apply sll_seg_frame; [|apply Hsll].
      + rewrite u16_small; simpl; lia.
      + intros y. rewrite Hheld, elem_of_cons, Hfr. fold (g_held g y). destruct (decide (y = x)) as [->|]; naive_solver.
    - intros y Hy. rewrite Hheld. split; [tauto|]. intros Hh. split; [done|]. by intros ->.
    - intros y. simpl. intros [Hy _]%elem_of_difference. by apply (cr_apart _ _ _ Hcr).
    - rewrite Hcfl, decide_True by done. f_equal. rewrite (cr_counter _ _ _ Hcr), u64_add_l. f_equal.
      rewrite (g_count_update g g' p (cr_nodup _ _ _ Hcr) Hnd Hls Hpg).
      + simpl. rewrite decide_True by done. simpl. unfold g. lia.
      + intros q Hq. simpl. by rewrite decide_False. }
  exists g'. split_and!; try done.
  - eapply (heap_rep_local Hsm strict cl {[x]} g' Gs st st'); try done.
    eapply (cache_ok_change cl st st' p s s'); try done; [by rewrite Hph|apply Hrep].
  - eapply (local_visible Hsm strict cl {[x]} {[x]} Gs st st'); try done. intros a y ->%elem_of_singleton Hy Ha.
    destruct (out_inside Hsm strict Gs st cl cl y x Hrep) as [_ ->]; try done; [lia|]. by apply elem_of_singleton.
Qed.
(** ** A span of the class goes *)

Definition drop_span (ne em : list Z) x g : ghost := mkGhost ne em (g_free g) (g_slots g) (g_out g ∖ {[x]}).

Lemma central_drop cl g st st' p s x ne em :
  1 <= cl < nclasses -> central_rep cl g st -> in_class cl st p s ->
  (forall q t, in_class cl st' q t <-> q <> p /\ in_class cl st q t) -> st'.(memory) = st.(memory) ->
  x ∈ g_out g -> x ∈ span_objs cl s -> (forall y, g_held g y -> y ∈ span_objs cl s -> y = x) ->
  (forall q t y, q <> p -> in_class cl st q t -> y ∈ span_objs cl t -> y ∉ span_objs cl s) ->
  dll (links_of st') (nonempty_ cl) ne -> dll (links_of st') (empty_ cl) em -> NoDup (ne ++ em) ->
  (forall q, q ∈ ne ++ em <-> q ∈ g_spans g /\ q <> p) -> (forall q, q <> p -> q ∈ em <-> q ∈ g_empty g) ->
  cfl st' cl = set_num_spans (u64 ((cfl st cl).(num_spans_) - 1))
    (set_counter (u64 ((cfl st cl).(counter_) - Z.of_nat (List.length (g_free g p)))) (cfl st cl)) ->
  central_rep cl (drop_span ne em x g) st'.
Proof.
  intros Hcl Hrep Hp Hic Hmem Hx Hxs Hheld Hoth Hne He Hnd Hls Hem Hcf. pose proof Hrep as [].
  assert (Hcl0 : cl <> 0) by lia. assert (Hpg : p ∈ g_spans g) by (apply cr_spans; eauto).
  assert (Hxq : forall q t, q <> p -> in_class cl st q t -> x ∉ span_objs cl t).
  { intros q t Hq Ht Hxt. by apply (Hoth q t x). }
  assert (Hh : forall y, g_held (drop_span ne em x g) y <-> g_held g y /\ y <> x).
  { intros y. unfold g_held, drop_span, g_cached. simpl. rewrite elem_of_difference, elem_of_singleton.
    pose proof (cr_apart x Hx) as Hxc. unfold g_cached in Hxc. split; [|tauto].
    intros [?|Hc]; [tauto|]. split; [by right|]. by intros ->. }
  assert (Hperm : g_spans g ≡ₚ p :: ne ++ em).
  { apply NoDup_Permutation; [done|constructor; [by intros [_ ?]%Hls|done]|]. intros q. rewrite elem_of_cons, Hls.
    destruct (decide (q = p)) as [->|]; naive_solver. }
  split; rewrite ?Hcf, ?Hmem; simpl; try done.
  - unfold g_spans. simpl. intros q. rewrite Hls, cr_spans. split.
    + intros [(_ & t & Ht) Hq]. split; [done|]. exists t. by apply Hic.
    + intros (_ & t & [Hq Ht]%Hic). eauto.
  - intros q t _ [Hq Ht]%Hic. destruct (cr_span q t Hcl0 Ht). split; simpl; rewrite ?Hmem; try done; [by rewrite Hem|].
    intros y. rewrite sr_free, Hh. split; [tauto|]. intros [Hy Hno]. split; [done|]. intros Hgh. apply Hno. split; [done|].
    intros ->. by apply (Hxq q t).
  - intros y [Hy Hyx]%Hh. split; [done|]. destruct (cr_held y Hy) as (_ & q & t & Hq & Hyt). exists q, t. split; [|done].
    apply Hic. split; [|done]. intros ->. apply Hyx. destruct Hq as (Hq & _). destruct Hp as (Hp & _).
    apply Hheld; [done|]. congruence.
  - intros i os Hi. destruct (cr_slots i os Hi) as (hd & tl & Hsl' & Hs2 & Hla & Hl2). exists hd, tl. rewrite Hcf, Hmem. done.
  - intros y [Hy _]%elem_of_difference. by apply cr_apart.
  - rewrite cr_counter, u64_sub_l. f_equal. unfold g_count. rewrite (count_perm _ _ _ Hperm). unfold g_spans. simpl. lia.
  - rewrite cr_num, u64_sub_l, (Permutation_length Hperm). f_equal. unfold g_spans. simpl. lia.
Qed.

(** The last object of a span comes back: no other object of it is held. *)
Lemma last_held strict Gs st cl p s x y :
  heap_rep strict Gs st -> 1 <= cl < nclasses -> in_class cl st p s -> x ∈ g_out (Gs cl) -> x ∈ span_objs cl s ->
  total cl - Z.of_nat (List.length (g_free (Gs cl) p)) = 1 -> g_held (Gs cl) y -> y ∈ span_objs cl s -> y = x.
Proof.
  intros Hrep Hcl Hp Hx Hxs Hone Hy Hys. destruct (decide (y = x)) as [|Hne]; [done|exfalso].
  destruct (cr_span _ _ _ (hr_central _ _ _ Hrep cl ltac:(lia)) p s ltac:(lia) Hp) as [_ [_ Hnd] _ _ Hfr].
  destruct (smo_objects _ Hsm cl Hcl) as [Ht0 _]. fold (total cl) in Ht0.
  assert (Hlen : (List.length (y :: x :: g_free (Gs cl) p) <= List.length (span_objs cl s))%nat).
  { apply NoDup_subset_length.
    - constructor; [|constructor; [|done]].
      + intros [?|Hin]%elem_of_cons; [done|]. by apply Hfr in Hin as [_ ?].
      + intros Hin. apply Hfr in Hin as [_ Hno]. apply Hno. by left.
    - intros z [->|[->|Hz]%elem_of_cons]%elem_of_cons; [done..|]. by apply Hfr. }
  unfold CentralInv.span_objs in Hlen. rewrite length_objs in Hlen. simpl in Hlen. lia.
Qed.
(** The lists and the links without the span. *)
Lemma drop_lists strict Gs st cl p (g := Gs cl) (Lc := links_of st)
    (L1 := if decide (p ∈ g_empty g) then DLL_Prepend (DLL_Remove Lc p) (nonempty_ cl) p else Lc) (L2 := DLL_Remove L1 p) :
  heap_rep strict Gs st -> 1 <= cl < nclasses -> p ∈ g_spans g ->
  exists ne em, dll L2 (nonempty_ cl) ne /\ dll L2 (empty_ cl) em /\ NoDup (ne ++ em) /\
    (forall q, q ∈ ne ++ em <-> q ∈ g_spans g /\ q <> p) /\ links_local (central_cache_ := central_cache_) cl g Lc L2 /\
    (forall q, q <> p -> q ∈ em <-> q ∈ g_empty g).
Proof.
  intros Hrep Hcl Hp. destruct (release_lists strict Gs st cl p Hrep Hcl Hp) as (n1 & n2 & em & Hd1 & Hd2 & Hnd & Hls & HLl & Hem & Hpe).
  fold g Lc L1 in Hd1, Hd2, Hls, HLl, Hem. destruct (DLL_Remove_spec L1 _ n1 p n2 Hd1) as (Hr1 & _ & _ & Hfr). fold L2 in Hr1, Hfr.
  assert (Hperm : (n1 ++ p :: n2) ++ em ≡ₚ p :: (n1 ++ n2) ++ em) by (by rewrite <- Permutation_middle).
  assert (Hhd : empty_ cl ∉ n1 ++ p :: n2).
  { intros Hin. destruct (span_not_header strict Gs st cl (empty_ cl) Hrep ltac:(lia)) with (c := cl) as [Hx _]; [|lia|done].
    apply Hls. set_solver. }
  assert (Hnn : forall q, q ∈ em -> q <> nonempty_ cl).
  { intros q Hq. apply (span_not_header strict Gs st cl q Hrep ltac:(lia)); [apply Hls; set_solver|lia]. }
  pose proof Hnd as (_ & Hdis & _)%NoDup_app. rewrite Hperm in Hnd. apply NoDup_cons in Hnd as [Hpn Hnd].
  exists (n1 ++ n2), em. split_and!; try done.
  - apply dll_agree with L1; [done|]. intros y Hy. apply Hfr. apply elem_of_cons in Hy as [->|Hy]; apply not_elem_of_cons.
    + split; [apply headers_ne|done].
    + split; [by apply Hnn|]. intros Hy2. by apply (Hdis y).
  - intros q. rewrite <- Hls, Hperm, elem_of_cons. split; [|naive_solver]. intros Hq. split; [by right|]. by intros ->.
  - intros y Hy. eapply links_agree_trans; [by apply HLl|]. apply Hfr. intros [->|Hin]%elem_of_cons; [set_solver|].
    apply Hy. apply elem_of_cons. right. apply elem_of_cons. right. apply Hls. set_solver.
Qed.

Lemma drop_local strict cl Gs st st' p L2 :
  heap_rep strict Gs st -> 1 <= cl < nclasses -> p ∈ g_spans (Gs cl) ->
  links_local (central_cache_ := central_cache_) cl (Gs cl) (links_of st) L2 ->
  (forall q t, t.(location) = IN_USE -> t.(sizeclass) <> cl -> spans_of st !! q = Some t <-> spans_of st' !! q = Some t) ->
  (forall q t, spans_of st !! q = Some t -> t.(location) = IN_USE -> t.(sizeclass) <> cl -> links_agree L2 (links_of st') q) ->
  (forall a, static_addr a -> ~ is_header free_ a -> links_agree L2 (links_of st') a) ->
  st'.(memory) = st.(memory) -> (forall c, c <> cl -> cfl st' c = cfl st c) -> st'.(race_counter) = st.(race_counter) ->
  st'.(pageheap).(smallest_span_size_) = st.(pageheap).(smallest_span_size_) -> local cl ∅ st st'.
Proof.
  intros Hrep Hcl Hp HLl HS HL1 HL2 Hmem Hcf Hrc Hsma. assert (Hcl' : 0 <= cl < nclasses) by lia.
  destruct (cl_static cl Hcl') as [Hs1 Hs2]. split; try done.
  - intros q t Hq Hl Hc. eapply links_agree_trans; [|by apply (HL1 q t)]. apply HLl.
    destruct (Inv_ok _ _ _ _ _ _ _ _ (hr_inv _ _ _ Hrep) Hq) as [_ Hns _ _ _ _ _].
    intros [->|[->|Hin]%elem_of_cons]%elem_of_cons; [done..|].
    destruct (class_span_use _ _ _ cl q Hrep Hcl' Hin) as (u & (Hu & _ & Huc) & _). congruence.
  - intros a Ha Hh Hae Han. eapply links_agree_trans; [|by apply HL2]. apply HLl.
    intros [->|[->|Hin]%elem_of_cons]%elem_of_cons; [done..|].
    destruct (class_span_use _ _ _ cl a Hrep Hcl' Hin) as (u & (Hu & _ & _) & _).
    by destruct (Inv_ok _ _ _ _ _ _ _ _ (hr_inv _ _ _ Hrep) Hu).
  - intros y _. by rewrite Hmem.
Qed.

(** The last object is back and the span goes to the page heap. *)
Lemma release_delete strict Gs st st' cl x p s h1 (Lc := links_of st)
    (L1 := if decide (p ∈ g_empty (Gs cl)) then DLL_Prepend (DLL_Remove Lc p) (nonempty_ cl) p else Lc)
    (s1 := set_refcount (s.(refcount) - 1) s) :
  heap_rep strict Gs st -> 1 <= cl < nclasses -> x ∈ g_out (Gs cl) -> in_class cl st p s -> x ∈ span_objs cl s ->
  p ∈ g_spans (Gs cl) -> total cl - Z.of_nat (List.length (g_free (Gs cl) p)) = 1 ->
  h1 = upd_spans (<[p := s1]>) (upd_span_links (fun _ => DLL_Remove L1 p) st.(pageheap)) ->
  Inv strict ∅ 0 st'.(pageheap) -> deleted (free_ := free_) p s1 h1 st'.(pageheap) ->
  st'.(memory) = st.(memory) -> st'.(race_counter) = st.(race_counter) ->
  (forall c, cfl st' c = if decide (c = cl) then set_num_spans (u64 ((cfl st cl).(num_spans_) - 1))
    (set_counter (u64 ((cfl st cl).(counter_) - Z.of_nat (List.length (g_free (Gs cl) p)))) (cfl st cl)) else cfl st c) ->
  released strict cl x Gs st st'.
Proof.
  intros Hrep Hcl Hx Hp Hxs Hpg Hone Hh1 HI' (Hk & _ & Hno & _) Hmem Hrc Hcfl.
  pose proof (hr_central _ _ _ Hrep cl ltac:(lia)) as Hcr. pose proof Hp as (Hp1 & Hp2 & Hp3).
  destruct (drop_lists strict Gs st cl p Hrep Hcl Hpg) as (ne & em & Hd1 & Hd2 & Hnd & Hls & HLl & Hem).
  fold Lc L1 in Hd1, Hd2, HLl. set (L2 := DLL_Remove L1 p) in *. subst h1.
  assert (Hsp : forall q t, q <> p -> t.(location) = IN_USE -> spans_of st !! q = Some t <-> spans_of st' !! q = Some t).
  { intros q t Hq Hl. assert (Hqp : q ∉ ({[p]} : gset Z)) by (by intros ->%elem_of_singleton). split; intros Ht.
    - apply (k_span _ _ _ _ Hk); [|done..]. simpl. by rewrite lookup_insert_ne.
    - apply (k_span' _ _ _ _ Hk) in Ht; [|done..]. simpl in Ht. by rewrite lookup_insert_ne in Ht. }
  assert (Hin : forall q, q ∈ ne ++ em -> exists t, in_class cl st q t /\ q <> p).
  { intros q [Hq Hqp]%Hls. destruct (class_span_use _ _ _ cl q Hrep ltac:(lia) Hq) as (t & Ht & _). eauto. }
  assert (HLk : forall y, y ∈ ne ++ em -> links_agree L2 (links_of st') y).
  { intros y (t & (Ht & Hl & _) & Hyp)%Hin. apply (k_link _ _ _ _ Hk y t); [|done|by intros ->%elem_of_singleton].
    simpl. by rewrite lookup_insert_ne. }
  assert (Hic : forall q t, in_class cl st' q t <-> q <> p /\ in_class cl st q t).
  { intros q t. unfold in_class. destruct (decide (q = p)) as [->|Hqp].
    - split; [intros (Ht & Hl & _); by destruct (Hno t Ht)|tauto].
    - split; [intros (Ht & Hl & Hc)|intros (_ & Ht & Hl & Hc)]; (split_and!; [..|done|done]); [done|by apply Hsp..]. }
  assert (Hlo : local cl ∅ st st').
  { eapply (drop_local strict cl Gs st st' p L2); try done.
    - intros q t Hl Hc. destruct (decide (q = p)) as [->|Hqp]; [|by apply Hsp].
      split; intros Ht; [congruence|by destruct (Hno t Ht)].
    - intros q t Hq Hl Hc. apply (k_link _ _ _ _ Hk q t); [|done|intros ->%elem_of_singleton; congruence].
      simpl. rewrite lookup_insert_ne; [done|congruence].
    - intros a Ha Hh. by apply (k_static _ _ _ _ Hk).
    - intros c Hc. rewrite Hcfl. by rewrite decide_False.
    - apply (k_config _ _ _ _ Hk). }
  assert (Hcl' : 0 <= cl < nclasses) by lia. destruct (cl_static cl Hcl') as [Hs1 Hs2], (cl_apart cl Hcl') as [Ha1 Ha2].
  assert (Hcr' : central_rep cl (drop_span ne em x (Gs cl)) st').
  { apply (central_drop cl (Gs cl) st st' p s x ne em); try done.
    - intros y. by apply (last_held strict Gs st cl p s x y).
    - intros q t y Hq Ht Hy Hys. apply Hq. pose proof Ht as (Ht1 & _).
      apply (objs_disjoint (ens := ens) (free_ := free_) Hsm strict st.(pageheap) cl cl q p t s y); try done;
        [apply Hrep|by apply (cr_span _ _ _ Hcr q t ltac:(lia))|by apply (cr_span _ _ _ Hcr p s ltac:(lia))].
    - apply dll_agree with L2; [done|]. intros y [->|Hy]%elem_of_cons; [by apply (k_static _ _ _ _ Hk)|apply HLk; set_solver].
    - apply dll_agree with L2; [done|]. intros y [->|Hy]%elem_of_cons; [by apply (k_static _ _ _ _ Hk)|apply HLk; set_solver].
    - by rewrite Hcfl, decide_True. }
  exists (drop_span ne em x (Gs cl)). split_and!; try done.
  - eapply (heap_rep_local Hsm strict cl ∅); try done.
    eapply (cache_ok_shrink (free_ := free_) strict st); [apply Hrep|done| |exact (k_cache _ _ _ _ Hk)].
    intros q t Hq Hl. apply Hsp; [|done..]. intros ->. by destruct (Hno t Hq).
  - by eapply (local_visible Hsm strict cl ∅ {[x]} Gs st st').
Qed.

(** ** [ReleaseToSpans] *)

Lemma wp_ReleaseToSpans strict Gs st cl x :
  heap_rep strict Gs st -> 1 <= cl < nclasses -> x ∈ g_out (Gs cl) ->
  wp (ReleaseToSpans free_ central_cache_ sm cl x) (fun _ st' => released strict cl x Gs st st') st.
Proof.
  intros Hrep Hcl Hx. destruct (out_span strict Gs st cl x Hrep Hcl Hx) as (p & s & Hp & Hsr & Hxs & Hpg & Hxf & Hx0 & Hd & Hlen).
  pose proof Hsr as [Hsl Hsll Hrf Hwh Hfr]. pose proof Hp as (Hp1 & Hp2 & Hp3).
  unfold ReleaseToSpans. apply wp_bind, wp_get. rewrite Hd. apply wp_bind, wp_deref_c with s; [done|].
  set (L1 := if decide (p ∈ g_empty (Gs cl)) then DLL_Prepend (DLL_Remove (links_of st) p) (nonempty_ cl) p else links_of st).
  apply wp_bind. apply wp_mono with (fun _ st1 => st1 = upd_pageheap (upd_span_links (fun _ => L1) st.(pageheap)) st).
  { unfold L1. destruct (decide (p ∈ g_empty (Gs cl))) as [Hpe|Hpe].
    - apply Hwh, (sll_nil_iff _ _ _ Hsll) in Hpe. rewrite Hpe. simpl. by apply wp_bind, wp_on_links, wp_on_links.
    - destruct (Z.eqb_spec s.(objects) 0) as [H0|_]; [by apply (sll_nil_iff _ _ _ Hsll), Hwh in H0|].
      apply wp_ret. symmetry. apply upd_links_id. }
  intros [] st1 ->. apply wp_bind, wp_modify, wp_bind, wp_store_c with s; [done|].
  apply wp_bind. eapply wp_deref_c; [by simpl; rewrite lookup_insert_eq|]. simpl.
  rewrite u16_small by lia. destruct (Z.eqb_spec (s.(refcount) - 1) 0) as [H1|H1].
  - destruct (smo_size _ Hsm cl Hcl) as [Hsz _]. destruct (smo_pages _ Hsm cl Hcl).
    rewrite Hp3, Hsl. destruct (Z.eqb_spec (ByteSizeForClass sm cl) 0) as [|_]; [lia|].
    apply wp_bind, wp_ret, wp_bind, wp_modify, wp_bind, wp_on_links, wp_bind, wp_modify, wp_on_heap. simpl.
    match goal with |- wp _ _ ?w => set (h1 := w) end.
    assert (Hh1 : h1 = upd_spans (<[p := set_refcount (s.(refcount) - 1) s]>) (upd_span_links (fun _ => DLL_Remove L1 p) st.(pageheap))) by done.
    eapply wp_mono; [apply (wp_DeleteLocked strict h1 p (set_refcount (s.(refcount) - 1) s))|].
    + rewrite Hh1. eapply Inv_store_in_use with s; try done.
      destruct (drop_lists strict Gs st cl p Hrep Hcl Hpg) as (ne & em & _ & _ & _ & _ & HLl & _).
      eapply (Inv_links_local strict Gs st cl); [done|lia|exact HLl|done].
    + rewrite Hh1. simpl. by rewrite lookup_insert_eq.
    + done.
    + intros [] h' [HI' Hdel]. eapply (release_delete strict Gs st _ cl x p s h1); try done; [lia|].
      intros c. transitivity (cfl (upd_cfl cl (fun c => set_num_spans (u64 (c.(num_spans_) - 1)) c)
        (upd_cfl cl (fun c => set_counter (u64 (c.(counter_) - bytes_of (class_to_pages sm cl) / ByteSizeForClass sm cl)) c)
        (upd_cfl cl (fun c => set_counter (u64 (c.(counter_) + 1)) c) st))) c); [done|].
      rewrite !cfl_upd. case_decide; [|done]. rewrite !decide_True by done. unfold set_num_spans, set_counter. simpl. f_equal.
      rewrite u64_sub_l, bytes_of_eq by lia. f_equal.
      unfold CentralInv.total in *. rewrite (Z.mul_comm 8192). lia.
  - apply wp_bind, wp_modify. eapply wp_store_c; [by simpl; rewrite lookup_insert_eq|].
    eapply (release_push strict Gs st _ cl x p s); try done.
    + simpl. unfold upd_spans. simpl. f_equal. by rewrite insert_insert_eq.
    + intros c. exact (cfl_upd cl (fun c => set_counter (u64 (c.(counter_) + 1)) c) st c).
Qed.
(** ** [ReleaseListToSpans] *)

(** Every object of a chain but the last is a word that was written. *)
Lemma sll_size m a l : sll m a l -> (List.length l <= S (size m))%nat.
Proof.
  intros [Hs Hnd]. assert (Hd : forall l1 x l2, l = l1 ++ x :: l2 -> l2 <> [] -> x ∈ dom m).
  { intros l1 x l2 -> Hne. apply sll_seg_app in Hs as (c & _ & -> & _ & Hs). destruct l2 as [|y l2]; [done|].
    destruct Hs as (Hy & Hy0 & _). apply elem_of_dom. unfold SLL_Next in Hy. destruct (m !! x); [eauto|]. simpl in Hy. congruence. }
  destruct (decide (l = [])) as [->|Hne]; [simpl; lia|]. destruct (exists_last Hne) as (l1 & z & ->).
  apply NoDup_app in Hnd as (Hnd & _ & _). rewrite length_app. simpl.
  assert (Hle : (size (list_to_set l1 : gset Z) <= size (dom m))%nat).
  { apply subseteq_size. intros x Hx%elem_of_list_to_set. apply list_elem_of_split in Hx as (l2 & l3 & ->).
    apply (Hd l2 x (l3 ++ [z])); [by rewrite <- app_assoc|by destruct l3]. }
  rewrite size_list_to_set, size_dom in Hle by done. lia.
Qed.

Definition released_list (strict : bool) (cl : Z) (os : list Z) (Gs : Z -> ghost) st st' : Prop :=
  exists g', heap_rep strict (set_ghost cl g' Gs) st' /\ visible (list_to_set os) Gs st st' /\
    g_out g' = g_out (Gs cl) ∖ list_to_set os /\ g_slots g' = g_slots (Gs cl).

Lemma wp_ReleaseList_loop strict cl fuel : forall Gs st start os,
  heap_rep strict Gs st -> 1 <= cl < nclasses -> sll st.(memory) start os -> (forall x, x ∈ os -> x ∈ g_out (Gs cl)) ->
  (List.length os < fuel)%nat ->
  wp (ReleaseList_loop free_ central_cache_ sm fuel cl start) (fun _ st' => released_list strict cl os Gs st st') st.
Proof.
  induction fuel as [|fuel IH]; intros Gs st start os Hrep Hcl Hsll Hos Hf; [lia|]. simpl.
  destruct os as [|x os].
  { assert (start = 0) as -> by (by apply (sll_nil_iff _ _ _ Hsll)). simpl. apply wp_ret. exists (Gs cl).
    split; [by apply heap_rep_same|]. split; [apply visible_refl|]. split; [set_solver|done]. }
  destruct Hsll as [(-> & Hx0 & Hs) Hnd]. apply NoDup_cons in Hnd as [Hxos Hnd].
  destruct (Z.eqb_spec x 0) as [|_]; [done|]. apply wp_bind, wp_get, wp_bind.
  eapply wp_mono; [apply (wp_ReleaseToSpans strict Gs st cl x Hrep Hcl); apply Hos; by left|].
  intros [] st1 (g1 & Hrep1 & Hv1 & Ho1 & Hsl1).
  eapply wp_mono; [apply (IH (set_ghost cl g1 Gs) st1 _ os); try done; [|rewrite set_ghost_eq, Ho1; set_solver|simpl in Hf; lia]|].
  { apply sll_agree with st.(memory); [|done]. intros y Hy. apply (vi_first Hsm _ _ _ _ cl _ Hv1); [lia|apply Hos; by right|].
    intros ->%elem_of_singleton. done. }
  intros [] st2 (g2 & Hrep2 & Hv2 & Ho2 & Hsl2). rewrite set_ghost_eq in Ho2, Hsl2. exists g2. split_and!.
  - eapply heap_rep_ext; [|exact Hrep2]. intros c. by rewrite set_ghost_set.
  - change (list_to_set (x :: os) : gset Z) with ({[x]} ∪ list_to_set os : gset Z).
    apply (visible_trans (ens := ens) Hsm _ _ Gs (set_ghost cl g1 Gs) st st1 st2); [done..|]. intros c y Hc Hy Hno.
    unfold set_ghost. case_decide; [subst; rewrite Ho1; set_solver|done].
  - rewrite Ho2, Ho1. set_solver.
  - congruence.
Qed.

Lemma wp_ReleaseListToSpans strict Gs st cl start os :
  heap_rep strict Gs st -> 1 <= cl < nclasses -> sll st.(memory) start os -> (forall x, x ∈ os -> x ∈ g_out (Gs cl)) ->
  wp (ReleaseListToSpans free_ central_cache_ sm cl start) (fun _ st' => released_list strict cl os Gs st st') st.
Proof.
  intros Hrep Hcl Hsll Hos. unfold ReleaseListToSpans. apply wp_bind, wp_get. apply wp_ReleaseList_loop; try done.
  pose proof (sll_size _ _ _ Hsll). lia.
Qed.
End Release.
