(* ===== verification/CentralInsert.v ===== *)
(** The transfer cache: [CentralFreeList::MakeCacheSpace] and what it calls, and
    [CentralFreeList::InsertRange]. *)
From S2P Require Import Prelude SizeMap LinkedList Span PackedCache PageMap SysEnv PageHeap SpanStore.
From S2P Require Import PageHeapInv PageHeapOps PageHeapAlloc PageHeapGrow PageHeapNew.
From S2P Require Import CentralFreeList CentralInv CentralOps CentralPopulate CentralRemove CentralRelease.

Section Insert.
Context {W : Type} {E : Env W} {P : PageMap W} {G : EnvGhost W}.
Context {ens : pm_t -> Z -> Prop} {free_ central_cache_ : Z} {sm : SizeMap}.
Context {EL : EnvLaws W} {PL : PageMapLaws MetaDataAlloc P ens} {HLay : HeapLayout free_}.
Context (Hsm : size_map_ok sm) {CLay : CentralLayout (free_ := free_) (central_cache_ := central_cache_) (sm := sm)}.

Implicit Types (st : Heap) (h : PageHeap) (p q : Z) (s t : Span) (g : ghost) (L : links).

Abbreviation Inv := (Inv ens free_).
Abbreviation keeps := (keeps free_).
Abbreviation empty_ := (empty_ central_cache_).
Abbreviation nonempty_ := (nonempty_ central_cache_).
Abbreviation nclasses := (num_size_classes sm).
Abbreviation spans_of st := (st.(pageheap).(spans)).
Abbreviation links_of st := (st.(pageheap).(span_links)).
Abbreviation heap_rep := (heap_rep (ens := ens) (free_ := free_) (central_cache_ := central_cache_) (sm := sm)).
Abbreviation central_rep := (central_rep (central_cache_ := central_cache_) (sm := sm)).
Abbreviation local := (local (free_ := free_) (central_cache_ := central_cache_)).
Abbreviation visible := (visible (free_ := free_) (central_cache_ := central_cache_) (sm := sm)).
Abbreviation touches := (touches (sm := sm)).
Abbreviation span_objs := (span_objs (sm := sm)).
Abbreviation total := (total (sm := sm)).

(** A step that changes neither what is outside nor what the client sees. *)
Definition recached (strict : bool) (Gs : Z -> ghost) st st' : Prop :=
  exists Gs', heap_rep strict Gs' st' /\ visible ∅ Gs st st' /\ forall c, g_out (Gs' c) = g_out (Gs c).

Lemma recached_refl strict Gs st : heap_rep strict Gs st -> recached strict Gs st st.
Proof. intros Hrep. exists Gs. split_and!; [done|apply visible_refl|done]. Qed.

Lemma recached_step strict Gs Gs1 st st1 st2 :
  visible ∅ Gs st st1 -> (forall c, g_out (Gs1 c) = g_out (Gs c)) -> recached strict Gs1 st1 st2 -> recached strict Gs st st2.
Proof.
  intros Hv Ho (Gs2 & Hrep & Hv2 & Ho2). exists Gs2. split_and!; [done| |intros c; by rewrite Ho2].
  rewrite <- (union_idemp_L ∅). eapply (visible_trans (ens := ens) Hsm ∅ ∅ Gs Gs1 st st1 st2); [done..|].
  intros c x _ Hx _. by rewrite Ho.
Qed.

Lemma heap_rep_race strict Gs st v : heap_rep strict Gs st -> 0 <= v <= nclasses -> heap_rep strict Gs (upd_race v st).
Proof.
  intros [] Hv. split; try done. intros c Hc. destruct (hr_central c Hc). split; try done.
  intros p s Hc0 Hp. by destruct (cr_span p s Hc0 Hp).
Qed.

(** [cache_size_] changes. *)
Lemma resize strict Gs st cl v :
  heap_rep strict Gs st -> 0 <= cl < nclasses -> (cfl st cl).(used_slots_) <= v <= (cfl st cl).(max_cache_size_) ->
  recached strict Gs st (upd_cfl cl (set_cache_size v) st).
Proof.
  intros Hrep Hcl Hv. pose proof (hr_central _ _ _ Hrep cl Hcl) as Hcr.
  destruct (heap_rep_recache Hsm strict Gs st cl (set_cache_size v (cfl st cl)) (Gs cl)) as [Hr Hvi]; [done..| |].
  - pose proof (central_recache cl (Gs cl) st (set_cache_size v (cfl st cl)) (g_slots (Gs cl)) (g_out (Gs cl)) Hcr) as Hc.
    destruct (Gs cl). destruct Hcr. apply Hc; done.
  - exists (set_ghost cl (Gs cl) Gs). split_and!; [done|done|]. intros c. unfold set_ghost. by case_decide; [subst|].
Qed.

Abbreviation MCS := (MakeCacheSpace free_ central_cache_ sm).

Lemma upd_cfl_upd cl f f' st : upd_cfl cl f (upd_cfl cl f' st) = upd_cfl cl (fun c => f (f' c)) st.
Proof. unfold upd_cfl, upd_central. simpl. rewrite insert_insert_eq. unfold cfl. simpl. by rewrite lookup_insert_eq. Qed.

(** Class 0 has no objects. *)
Lemma no_slots Gs strict st : heap_rep strict Gs st -> (cfl st 0).(used_slots_) = 0.
Proof.
  intros Hrep. destruct (hr_central _ _ _ Hrep 0) as []; [pose proof (smo_num _ Hsm); lia|].
  destruct (g_slots (Gs 0)) as [|os l] eqn:Hsl; [done|].
  destruct (cr_slots O os) as (hd & tl & _ & _ & Hla & _); [done|].
  apply last_Some_elem_of in Hla. destruct (cr_held tl) as [? _]; [|done].
  right. unfold g_cached. rewrite Hsl. simpl. apply elem_of_app. by left.
Qed.

(** ** [ShrinkCache] *)

Lemma wp_shrink_full strict Gs st cl :
  heap_rep strict Gs st -> 0 <= cl < nclasses -> (cfl st cl).(cache_size_) <> 0 ->
  (cfl st cl).(used_slots_) = (cfl st cl).(cache_size_) ->
  wp (modify (upd_cfl cl (fun c => set_cache_size (i32 (c.(cache_size_) - 1)) c)) ;;
      modify (upd_cfl cl (fun c => set_used_slots (i32 (c.(used_slots_) - 1)) c)) ;;
      st ← get_state;
      let c := cfl st cl in
      ReleaseListToSpans free_ central_cache_ sm cl (default (0, 0) (c.(tc_slots_) !! c.(used_slots_))).1 ;;
      mret true) (fun _ st' => recached strict Gs st st') st.
Proof.
  intros Hrep Hcl Hc0 Huc. pose proof (hr_central _ _ _ Hrep cl Hcl) as [].
  assert (kMaxNumTransferEntries = 64) by done.
  assert (Hcl1 : 1 <= cl < nclasses).
  { destruct (decide (cl = 0)) as [->|]; [|lia]. rewrite (no_slots Gs strict st Hrep) in Huc. lia. }
  destruct (exists_last (l := g_slots (Gs cl))) as (sl & os & Hsl).
  { intros Hnil. rewrite Hnil in cr_used. simpl in cr_used. lia. }
  rewrite Hsl, length_app in cr_used. simpl in cr_used. set (n := Z.of_nat (List.length sl)) in *.
  destruct (drop_slot Hsm strict Gs st cl sl os n Hrep Hcl1 Hsl ltac:(lia))
    as (hd & tl & g1 & Hs & (Hlen & Hsll & Hla) & Hr & Hv & Ho & Hfr). simpl in Hsll. fold n in Hs, Hr, Hv.
  apply wp_bind, wp_modify, wp_bind, wp_modify, wp_bind, wp_get.
  match goal with |- wp _ _ ?w => assert (Hst : w = upd_cfl cl (fun c => set_used_slots n (set_cache_size n c)) st) end.
  { rewrite upd_cfl_upd. unfold upd_cfl. simpl. rewrite !i32_small by lia.
    replace ((cfl st cl).(cache_size_) - 1) with n by lia. by replace ((cfl st cl).(used_slots_) - 1) with n by lia. }
  rewrite Hst. set (st1 := upd_cfl cl _ st) in *.
  assert (Hc1 : cfl st1 cl = set_used_slots n (set_cache_size n (cfl st cl))) by (unfold st1; rewrite cfl_upd; by rewrite decide_True).
  rewrite Hc1. simpl. rewrite Hs. simpl. apply wp_bind.
  eapply wp_mono; [apply (wp_ReleaseListToSpans Hsm strict (set_ghost cl g1 Gs) st1 cl hd os); try done|].
  { intros x Hx. rewrite set_ghost_eq, Ho. set_solver. }
  intros [] st2 (g2 & Hr2 & Hv2 & Ho2 & _). apply wp_ret. rewrite set_ghost_eq, Ho in Ho2.
  assert (Ho3 : g_out g2 = g_out (Gs cl)) by (rewrite Ho2; apply leibniz_equiv; intros x; rewrite elem_of_difference, elem_of_union, elem_of_list_to_set; naive_solver).
  exists (set_ghost cl g2 Gs). split_and!.
  - eapply heap_rep_ext; [|exact Hr2]. intros c. by rewrite set_ghost_set.
  - apply (visible_drop (∅ ∪ list_to_set os)).
    + apply (visible_trans (ens := ens) Hsm _ _ Gs (set_ghost cl g1 Gs) st st1 st2); [done..|]. intros c x _ Hx _.
      unfold set_ghost. case_decide; [subst; rewrite Ho; set_solver|done].
    + intros c x Hc [Hx|Hx%elem_of_list_to_set]%elem_of_union Hxc; [by apply not_elem_of_empty in Hx|].
      destruct (decide (c = cl)) as [->|Hne]; [by apply (Hfr x)|]. apply Hne.
      apply (out_class Hsm strict (set_ghost cl g1 Gs) st1 cl c x Hr); try done; [rewrite set_ghost_eq, Ho; set_solver|by rewrite set_ghost_ne].
  - intros c. unfold set_ghost. by case_decide; [subst|].
Qed.

Lemma wp_ShrinkCache strict Gs st cl locked force :
  heap_rep strict Gs st -> 0 <= cl < nclasses ->
  wp (ShrinkCache free_ central_cache_ sm cl locked force) (fun _ st' => recached strict Gs st st') st.
Proof.
  intros Hrep Hcl. pose proof (recached_refl strict Gs st Hrep) as Hrefl. unfold ShrinkCache. apply wp_bind, wp_get.
  destruct (Z.eqb_spec (cfl st cl).(cache_size_) 0) as [|Hc0]; [by apply wp_ret|].
  destruct (negb force && _); [by apply wp_ret|]. apply wp_bind, wp_get.
  destruct (Z.eqb_spec (cfl st cl).(cache_size_) 0) as [|_]; [by apply wp_ret|].
  destruct (Z.eqb_spec (cfl st cl).(used_slots_) (cfl st cl).(cache_size_)) as [Huc|Huc].
  - destruct (negb force); [by apply wp_ret|]. by apply wp_shrink_full.
  - pose proof (hr_central _ _ _ Hrep cl Hcl) as []. assert (kMaxNumTransferEntries = 64) by done.
    apply wp_bind, wp_modify, wp_ret.
    apply (resize strict Gs st cl (i32 ((cfl st cl).(cache_size_) - 1))); [done..|]. rewrite i32_small; lia.
Qed.

Lemma wp_Evict strict Gs st locked force :
  heap_rep strict Gs st ->
  wp (EvictRandomSizeClass free_ central_cache_ sm locked force) (fun _ st' => recached strict Gs st st') st.
Proof.
  intros Hrep. pose proof (hr_race _ _ _ Hrep) as Hra. pose proof (smo_num _ Hsm) as Hn.
  unfold EvictRandomSizeClass. apply wp_bind, wp_get, wp_bind, wp_modify, wp_bind.
  apply wp_mono with (fun (t : Z) st' => 0 <= t < nclasses /\ exists v, st' = upd_race v st /\ 0 <= v <= nclasses).
  - rewrite Z.geb_leb. destruct (Z.leb_spec nclasses st.(race_counter)) as [Hge|Hlt].
    + assert (Heq : st.(race_counter) = nclasses) by lia. rewrite Heq.
      apply wp_bind. unfold wp at 1. destruct (Z.to_nat nclasses) as [|k] eqn:Hk; [lia|]. simpl. rewrite Z.geb_leb.
      destruct (Z.leb_spec nclasses nclasses); [|lia]. rewrite Z.geb_leb, Z.sub_diag. destruct (Z.leb_spec nclasses 0); [lia|]. simpl.
      apply wp_bind, wp_modify, wp_ret. split; [lia|]. exists 0. split; [done|lia].
    + apply wp_ret. split; [lia|]. exists (i32 (st.(race_counter) + 1)). split; [done|]. rewrite i32_small; lia.
  - intros t st1 [Ht (v & -> & Hv)]. pose proof (heap_rep_race strict Gs st v Hrep Hv) as Hrep1.
    eapply wp_mono with (fun _ st' => recached strict Gs (upd_race v st) st').
    + destruct (t =? locked); [apply wp_ret; by apply recached_refl|]. by apply wp_ShrinkCache.
    + intros _ st2 Hrc. eapply recached_step; [|done|exact Hrc]. by split.
Qed.

(** ** [MakeCacheSpace] *)

Lemma wp_MakeCacheSpace strict Gs st cl :
  heap_rep strict Gs st -> 0 <= cl < nclasses ->
  wp (MCS cl) (fun room st' => recached strict Gs st st' /\
    (room = true -> (cfl st' cl).(used_slots_) < (cfl st' cl).(cache_size_))) st.
Proof.
  intros Hrep Hcl. unfold MakeCacheSpace. apply wp_bind, wp_get.
  destruct (Z.ltb_spec (cfl st cl).(used_slots_) (cfl st cl).(cache_size_)) as [Hlt|_].
  { apply wp_ret. split; [by apply recached_refl|done]. }
  destruct (Z.eqb_spec (cfl st cl).(cache_size_) (cfl st cl).(max_cache_size_)) as [_|_].
  { apply wp_ret. split; [by apply recached_refl|done]. }
  apply wp_bind. eapply wp_mono; [by apply wp_Evict|]. intros ev st1 (Gs1 & Hrep1 & Hv1 & Ho1).
  apply wp_bind. apply wp_mono with (fun _ st' => recached strict Gs st st').
  { destruct ev; [apply wp_ret; by exists Gs1|]. eapply wp_mono; [by apply wp_Evict|]. intros ? st2. by apply recached_step. }
  intros ev' st2 (Gs2 & Hrep2 & Hv2 & Ho2). assert (Hrec : recached strict Gs st st2) by (by exists Gs2).
  destruct ev'; [|by apply wp_ret]. apply wp_bind, wp_get.
  destruct (Z.ltb_spec (cfl st2 cl).(cache_size_) (cfl st2 cl).(max_cache_size_)) as [Hlt|]; [|by apply wp_ret].
  pose proof (hr_central _ _ _ Hrep2 cl Hcl) as []. assert (kMaxNumTransferEntries = 64) by done.
  assert (Hi : i32 ((cfl st2 cl).(cache_size_) + 1) = (cfl st2 cl).(cache_size_) + 1) by (rewrite i32_small; lia).
  apply wp_bind, wp_modify, wp_ret. split.
  - eapply recached_step; [exact Hv2|exact Ho2|].
    apply (resize strict Gs2 st2 cl (i32 ((cfl st2 cl).(cache_size_) + 1))); [done..|]. rewrite Hi. lia.
  - intros _. rewrite cfl_upd, decide_True by done. simpl. rewrite Hi. lia.
Qed.
(** ** [InsertRange] *)

(** The objects of [os] are not outside any more. *)
Definition inserted (strict : bool) (cl : Z) (os : list Z) (Gs : Z -> ghost) st st' : Prop :=
  exists Gs', heap_rep strict Gs' st' /\ visible (list_to_set os) Gs st st' /\
    g_out (Gs' cl) = g_out (Gs cl) ∖ list_to_set os /\ forall c, c <> cl -> g_out (Gs' c) = g_out (Gs c).

(** A chain goes into the next slot. *)
Lemma push_slot strict Gs st cl start end_ os :
  heap_rep strict Gs st -> 1 <= cl < nclasses -> chain st (num_objects_to_move sm cl, start, end_) os ->
  (forall x, x ∈ os -> x ∈ g_out (Gs cl)) -> (cfl st cl).(used_slots_) < (cfl st cl).(cache_size_) ->
  inserted strict cl os Gs st (upd_cfl cl (fun c => set_tc_slot (cfl st cl).(used_slots_) (start, end_)
    (set_used_slots (i32 (c.(used_slots_) + 1)) c)) st).
Proof.
  intros Hrep Hcl (Hlen & Hsll & Hla) Hos Hroom. simpl in Hlen, Hsll, Hla.
  pose proof (hr_central _ _ _ Hrep cl ltac:(lia)) as Hcr. pose proof Hcr as []. assert (kMaxNumTransferEntries = 64) by done.
  assert (Hi : i32 ((cfl st cl).(used_slots_) + 1) = (cfl st cl).(used_slots_) + 1) by (rewrite i32_small; lia).
  destruct (smo_move _ Hsm cl Hcl) as [Hmv _].
  assert (Hlast : last os = Some end_).
  { destruct (last os) as [z|] eqn:Hz; [simpl in Hla; congruence|]. apply last_None in Hz. subst os. simpl in Hlen. lia. }
  set (g1 := mkGhost (g_nonempty (Gs cl)) (g_empty (Gs cl)) (g_free (Gs cl)) (g_slots (Gs cl) ++ [os]) (g_out (Gs cl) ∖ list_to_set os)).
  assert (Hca : g_cached g1 = g_cached (Gs cl) ++ os) by (unfold g_cached; simpl; rewrite join_app; simpl; by rewrite app_nil_r).
  assert (Hnc : forall x, x ∈ os -> x ∉ g_cached (Gs cl)) by (intros x Hx; by apply cr_apart, Hos).
  set (c' := set_tc_slot (cfl st cl).(used_slots_) (start, end_) (set_used_slots ((cfl st cl).(used_slots_) + 1) (cfl st cl))).
  destruct (heap_rep_recache Hsm strict Gs st cl c' g1) as [Hr Hv]; [done|lia| |].
  { apply (central_recache cl (Gs cl)); fold g1; try done.
    - intros x. unfold g_held. rewrite Hca, elem_of_app. simpl. rewrite elem_of_difference, elem_of_list_to_set.
      destruct (decide (x ∈ os)); naive_solver.
    - intros i os' [Hi'|[Hge Hi']]%lookup_app_Some.
      + destruct (cr_slots i os' Hi') as (hd & tl & Hs & ?). exists hd, tl. split; [|done]. unfold c'. simpl.
        apply lookup_lt_Some in Hi'. rewrite lookup_insert_ne; [done|lia].
      + apply list_lookup_singleton_Some in Hi' as [Hi' <-]. exists start, end_. split; [|done]. unfold c'. simpl.
        replace (Z.of_nat i) with (cfl st cl).(used_slots_) by lia. by rewrite lookup_insert_eq.
    - unfold c'. simpl. rewrite length_app. simpl. lia.
    - rewrite Hca. apply NoDup_app. split_and!; [done| |apply Hsll]. intros x Hx Hx2. by apply (Hnc x).
    - intros x [Hx Hno]%elem_of_difference. rewrite Hca, elem_of_app. intros [?|?]; [by apply (cr_apart x)|]. set_solver.
    - unfold c'. simpl. lia. }
  replace (upd_cfl cl _ st) with (upd_cfl cl (fun _ => c') st) by (unfold upd_cfl, c'; by rewrite Hi).
  exists (set_ghost cl g1 Gs). split_and!; [done|by eapply visible_mono|by rewrite set_ghost_eq|].
  intros c Hc. by rewrite set_ghost_ne.
Qed.

Lemma wp_InsertRange strict Gs st cl start end_ N os :
  heap_rep strict Gs st -> 1 <= cl < nclasses -> chain st (N, start, end_) os ->
  (forall x, x ∈ os -> x ∈ g_out (Gs cl)) ->
  wp (InsertRange free_ central_cache_ sm cl start end_ N) (fun _ st' => inserted strict cl os Gs st st') st.
Proof.
  intros Hrep Hcl Hch Hos. unfold InsertRange. apply wp_bind.
  apply wp_mono with (fun room st' => recached strict Gs st st' /\ (room = true -> N = num_objects_to_move sm cl /\
    (cfl st' cl).(used_slots_) < (cfl st' cl).(cache_size_))).
  { destruct (Z.eqb_spec N (num_objects_to_move sm cl)) as [->|_].
    - eapply wp_mono; [apply (wp_MakeCacheSpace strict Gs); [done|lia]|]. intros room st1 [? ?]. split; [done|]. naive_solver.
    - apply wp_ret. split; [by apply recached_refl|done]. }
  intros room st1 [(Gs1 & Hrep1 & Hv1 & Ho1) Hroom].
  assert (Hos1 : forall x, x ∈ os -> x ∈ g_out (Gs1 cl)) by (intros x Hx; rewrite Ho1; by apply Hos).
  assert (Hch1 : chain st1 (N, start, end_) os).
  { destruct Hch as (H1 & H2 & H3). split_and!; try done. eapply sll_agree; [|done]. intros x Hx.
    apply (vi_first Hsm _ _ _ _ cl _ Hv1); [lia|by apply Hos|apply not_elem_of_empty]. }
  apply wp_mono with (fun _ st' => inserted strict cl os Gs1 st1 st').
  - destruct room.
    + destruct (Hroom eq_refl) as [-> Hlt]. apply wp_bind, wp_get, wp_bind, wp_modify, wp_modify. rewrite upd_cfl_upd.
      by apply push_slot.
    + eapply wp_mono; [apply (wp_ReleaseListToSpans Hsm strict Gs1 st1 cl start os); try done; apply Hch1|].
      intros [] st2 (g2 & Hr2 & Hv2 & Ho2 & _). exists (set_ghost cl g2 Gs1). split_and!; [done|done|by rewrite set_ghost_eq|].
      intros c Hc. by rewrite set_ghost_ne.
  - intros [] st2 (Gs2 & Hr2 & Hv2 & Ho2 & Hoth). exists Gs2. split_and!; [done| |by rewrite Ho2, Ho1|].
    + rewrite <- (union_empty_l_L (list_to_set os)). apply (visible_trans (ens := ens) Hsm _ _ Gs Gs1 st st1 st2); [done..|].
      intros c x _ Hx _. by rewrite Ho1.
    + intros c Hc. by rewrite Hoth, Ho1.
Qed.
End Insert.
