(* ===== verification/StaticVars.v ===== *)
(** [Static::InitStaticVars] of [src/static_vars.cc]: the state every other operation
    starts from. *)
From Stdlib Require Import Floats.SpecFloat.
From S2P Require Import Prelude SizeMap LinkedList Span PackedCache PageMap SysEnv PageHeap SpanStore.
From S2P Require Import PageHeapInv PageHeapOps PageHeapAlloc PageHeapGrow PageHeapNew PageHeapSpec.
From S2P Require Import CentralFreeList CentralInv CentralOps.

Section StaticVars.
Context {W : Type} {E : Env W} {P : PageMap W}.
(** The addresses of the static objects, and [sizemap_] after its [Init]. *)
Context (free_ central_cache_ sampled_objects_ : Z) (sm : SizeMap).

(** The storage of the page heap before its constructor runs: only the links of
    static objects matter. *)
Definition PageHeap_storage (w : W) : PageHeap :=
  mkPageHeap 0 Clear pm_init [] [] Stats_zero 0 0 false 0 ∅ ∅ [] 0 0 (double_of_Z 0) w.

(** [for (int i = 0; i < num_size_classes(); ++i) central_cache_[i].Init(i)] *)
Fixpoint init_central (classes : list Z) : M Heap unit :=
  match classes with
  | [] => skip
  | i :: classes => CFL_Init central_cache_ sm i ;; init_central classes
  end.

(** From the loop over [central_cache_] on; [limit_mb], [rate] and [aggressive] come
    from the environment, [m] is what memory held. *)
Definition InitStaticVars (limit_mb : Z) (rate : spec_float) (aggressive : bool) (m : mem) (w : W)
    : result Heap :=
  '(_, st) ← init_central (seqZ 0 (num_size_classes sm)) (mkHeap (PageHeap_storage w) m ∅ 0);
  h ← PageHeap_new free_ st.(pageheap).(span_links) (min_span_size_in_pages_ sm) limit_mb rate w;
  '(_, h) ← SetAggressiveDecommit aggressive h;
  Ok (upd_pageheap (upd_span_links (fun L => DLL_Init L sampled_objects_) h) st).
End StaticVars.

Section StaticVarsInv.
Context {W : Type} {E : Env W} {P : PageMap W} {G : EnvGhost W}.
Context {ens : pm_t -> Z -> Prop} {free_ central_cache_ : Z} {sm : SizeMap}.
Context {EL : EnvLaws W} {PL : PageMapLaws MetaDataAlloc P ens} {HLay : HeapLayout free_}.
Context (Hsm : size_map_ok sm) {CLay : CentralLayout (free_ := free_) (central_cache_ := central_cache_) (sm := sm)}.

Implicit Types (st : Heap) (h : PageHeap) (L : links).

Abbreviation Inv := (Inv ens free_).
Abbreviation empty_ := (empty_ central_cache_).
Abbreviation nonempty_ := (nonempty_ central_cache_).
Abbreviation nclasses := (num_size_classes sm).
Abbreviation links_of st := (st.(pageheap).(span_links)).
Abbreviation heap_rep := (heap_rep (ens := ens) (free_ := free_) (central_cache_ := central_cache_) (sm := sm)).

(** Nothing was handed out. *)
Definition no_ghost : ghost := mkGhost [] [] (fun _ => []) [] ∅.

(** A list after its [Init]. *)
Record fresh_class st (c : Z) : Prop := {
  fc_links : self_linked (links_of st) (empty_ c) /\ self_linked (links_of st) (nonempty_ c);
  fc_class : (cfl st c).(size_class_) = c;
  fc_zero : (cfl st c).(num_spans_) = 0 /\ (cfl st c).(counter_) = 0 /\ (cfl st c).(used_slots_) = 0;
  fc_size : 0 <= (cfl st c).(cache_size_) <= (cfl st c).(max_cache_size_);
  fc_max : (cfl st c).(max_cache_size_) <= kMaxNumTransferEntries
}.

Lemma wp_CFL_Init c st :
  0 <= c < nclasses ->
  wp (CFL_Init central_cache_ sm c) (fun _ st' => fresh_class st' c /\
    (forall c', c' <> c -> fresh_class st c' -> fresh_class st' c') /\
    st'.(memory) = st.(memory) /\ st'.(race_counter) = st.(race_counter)) st.
Proof.
  intros Hc. unfold CFL_Init. apply wp_bind, wp_on_links. set (st1 := upd_pageheap _ st).
  assert (Hl : forall a, self_linked (links_of st1) a <-> a = nonempty_ c \/ a = empty_ c \/ self_linked (links_of st) a).
  { intros a. unfold st1. simpl. rewrite !DLL_Init_self. naive_solver. }
  assert (Hgo : forall v, v.(size_class_) = c -> v.(num_spans_) = 0 -> v.(counter_) = 0 -> v.(used_slots_) = 0 ->
    0 <= v.(cache_size_) <= v.(max_cache_size_) -> v.(max_cache_size_) <= kMaxNumTransferEntries ->
    let st' := upd_cfl c (fun _ => v) st1 in fresh_class st' c /\
    (forall c', c' <> c -> fresh_class st c' -> fresh_class st' c') /\
    st'.(memory) = st.(memory) /\ st'.(race_counter) = st.(race_counter)).
  { intros v H1 H2 H3 H4 H5 H6 st'. split_and!; [|intros c' Hne [Hfl Hfc Hfz Hfs Hfm]|done|done].
    - split; unfold st'; rewrite ?cfl_upd, ?decide_True by done; try done. split; apply Hl; auto.
    - split; unfold st'; rewrite ?cfl_upd, ?decide_False by done; try done. split; apply Hl; naive_solver. }
  assert (HkM : kMaxNumTransferEntries = 64) by done.
  rewrite Z.gtb_ltb. destruct (Z.ltb_spec 0 c).
  - destruct (smo_size _ Hsm c ltac:(lia)) as [Hs _], (smo_move _ Hsm c ltac:(lia)) as [Hm _].
    pose proof (smo_move_bytes _ Hsm c ltac:(lia)) as Hmb.
    destruct (Z.eqb_spec (ByteSizeForClass sm c * num_objects_to_move sm c) 0) as [|_]; [nia|].
    apply wp_modify. apply (Hgo (mkCFL c 0 0 _ 0 _ _)); try done; simpl; lia.
  - apply wp_modify. apply (Hgo (mkCFL c 0 0 _ 0 16 kMaxNumTransferEntries)); try done.
Qed.

Lemma wp_init_central l : forall st,
  (forall c, c ∈ l -> 0 <= c < nclasses) ->
  wp (init_central central_cache_ sm l) (fun _ st' => (forall c, c ∈ l \/ fresh_class st c -> fresh_class st' c) /\
    st'.(memory) = st.(memory) /\ st'.(race_counter) = st.(race_counter)) st.
Proof.
  induction l as [|c l IH]; intros st Hl; simpl.
  - apply wp_ret. split_and!; try done. by intros c [Hc%not_elem_of_nil|].
  - apply wp_bind. eapply wp_mono; [apply (wp_CFL_Init c st); apply Hl; by left|].
    intros [] st1 (Hf & Hk & Hm1 & Hr1). eapply wp_mono; [apply (IH st1); intros c' Hc'; apply Hl; by right|].
    intros [] st2 (Hf2 & Hm2 & Hr2). split_and!; [|congruence..]. intros c' Hc'. apply Hf2.
    destruct (decide (c' = c)) as [->|Hne]; [by right|]. destruct Hc' as [[?|?]%elem_of_cons|?]; [done|by left|right; auto].
Qed.

Lemma init_free_lists_keep L a : self_linked L a -> self_linked (init_free_lists free_ L) a.
Proof.
  unfold init_free_lists. generalize (seqZ 0 kMaxPages). intros l. revert L.
  induction l as [|i l IH]; intros L Ha; simpl; [done|]. apply IH. rewrite !DLL_Init_self. auto.
Qed.

Lemma fresh_rep c st : 0 <= c -> fresh_class st c -> (forall p s, ~ in_class c st p s) ->
  central_rep (central_cache_ := central_cache_) (sm := sm) c no_ghost st.
Proof.
  intros Hc [[H1 H2] H3 (H4 & H5 & H6) H7 H8] Hno. assert (kMaxNumTransferEntries = 64) by done.
  split; simpl; rewrite ?H4, ?H5, ?H6; try done; try lia.
  - split; [exact H2|apply NoDup_singleton].
  - split; [exact H1|apply NoDup_singleton].
  - constructor.
  - intros p. split; [by intros ?%not_elem_of_nil|]. intros (_ & s & Hs). by destruct (Hno p s).
  - intros p s _ Hp. by destruct (Hno p s).
  - intros x [Hx|Hx]; [by apply not_elem_of_empty in Hx|by apply not_elem_of_nil in Hx].
  - constructor.
Qed.

Lemma DLL_Init_agree L a y : y <> a -> links_agree L (DLL_Init L a) y.
Proof.
  intros Hne. unfold links_agree, DLL_Init, set_next, set_prev, lnext, lprev. by rewrite !lookup_insert_ne.
Qed.

Lemma no_oom_init_central l : no_oom (init_central central_cache_ sm l).
Proof.
  assert (Hl : forall f, no_oom (on_links f)) by (intros f s; done).
  induction l as [|c l IH]; simpl; [solve_no_oom|]. apply no_oom_bind; [|done]. unfold CFL_Init. solve_no_oom.
Qed.

(** The page heap is new. *)
Lemma InitStaticVars_new sampled limit_mb rate aggressive m w st :
  InitStaticVars free_ central_cache_ sampled sm limit_mb rate aggressive m w = Ok st ->
  st.(pageheap).(world) = w /\ st.(pageheap).(spans) = ∅.
Proof.
  unfold InitStaticVars. destruct (init_central central_cache_ sm _ _) as [[[] st1]| | |]; [|done..]. cbn [mbind result_bind].
  unfold PageHeap_new. destruct (_ =? 0); cbn; [|done]. by intros [= <-].
Qed.

Lemma InitStaticVars_ok sampled k limit_mb rate aggressive m w :
  env_ok w -> 0 <= k < 51 -> min_span_size_in_pages_ sm = 2 ^ k -> static_addr sampled -> ~ is_header free_ sampled ->
  exists st, InitStaticVars free_ central_cache_ sampled sm limit_mb rate aggressive m w = Ok st /\
    heap_rep (negb aggressive) (fun _ => no_ghost) st /\ st.(memory) = m /\ self_linked (links_of st) sampled.
Proof.
  intros Hw Hk Hmin Hst Hnh. unfold InitStaticVars.
  set (st0 := mkHeap (PageHeap_storage w) m ∅ 0).
  assert (Hin : forall c, c ∈ seqZ 0 nclasses -> 0 <= c < nclasses) by (intros c Hc%elem_of_seqZ; lia).
  destruct (wp_total _ _ _ (no_oom_init_central (seqZ 0 nclasses)) (wp_init_central (seqZ 0 nclasses) st0 Hin))
    as ([] & st1 & -> & Hfr & Hm & Hr). cbn [mbind result_bind].
  set (h := mkPageHeap (2 ^ k) Clear pm_init [] [] Stats_zero 0 kMaxPages false 0 ∅
    (init_free_lists free_ (links_of st1)) [] 0 limit_mb rate w).
  assert (Hnew : PageHeap_new free_ (links_of st1) (2 ^ k) limit_mb rate w = Ok h).
  { unfold PageHeap_new. replace (Z.land (2 ^ k) (2 ^ k - 1)) with 0; [done|].
    rewrite Z.sub_1_r, <- Z.ones_equiv, Z.land_ones by lia. symmetry. apply Z.mod_same. lia. }
  rewrite Hmin, Hnew. cbn [mbind result_bind SetAggressiveDecommit modify].
  eexists. split; [reflexivity|].
  assert (HI : Inv (negb aggressive) ∅ 0 (upd_span_links (fun L => DLL_Init L sampled) (upd_aggressive_decommit (fun _ => aggressive) h))).
  { apply (Inv_links (free_ := free_) _ _ _ (upd_aggressive_decommit (fun _ => aggressive) h)).
    - pose proof (Inv_new _ k limit_mb rate w h Hw Hk Hnew) as HI. destruct aggressive; [|exact HI].
      apply Inv_aggressive. destruct HI. by split.
    - intros y [(loc & i & Hloc & Hi & ->)|(s & Hs & _)]; [|simpl in Hs; by rewrite lookup_empty in Hs].
      apply DLL_Init_agree. intros Heq. apply Hnh. by exists loc, i. }
  split_and!; [|done|apply DLL_Init_self; by left]. split; simpl; try done.
  - intros c Hc. apply fresh_rep; [lia| |intros p s (Hs & _); simpl in Hs; by rewrite lookup_empty in Hs].
    destruct (Hfr c) as [[H1 H2] H3 H4 H5 H6]; [left; apply elem_of_seqZ; lia|]. split; try done. simpl.
    split; apply DLL_Init_self; right; by apply init_free_lists_keep.
  - rewrite Hr. simpl. pose proof (smo_num _ Hsm). lia.
Qed.
End StaticVarsInv.
