(* ===== verification/CentralSpec.v ===== *)
(** The central free lists as their clients see them. *)
From S2P Require Import Prelude SizeMap LinkedList Span PackedCache PageMap SysEnv PageHeap SpanStore.
From S2P Require Import PageHeapInv PageHeapOps PageHeapAlloc PageHeapGrow PageHeapNew.
From S2P Require Import CentralFreeList CentralInv CentralOps CentralPopulate CentralRemove CentralRelease CentralInsert.

(** ** Joining lists *)

Lemma NoDup_join_fmap {A} (f : A -> list Z) (l : list A) :
  NoDup l -> (forall x, x ∈ l -> NoDup (f x)) ->
  (forall x y z, x ∈ l -> y ∈ l -> z ∈ f x -> z ∈ f y -> x = y) -> NoDup (mjoin (f <$> l)).
Proof.
  induction l as [|x l IH]; intros Hnd Hf Hd; simpl; [constructor|]. apply NoDup_cons in Hnd as [Hx Hnd].
  apply NoDup_app. split_and!; [apply Hf; by left| |apply IH; [done| |]].
  - intros z Hz Hin. apply list_elem_of_join in Hin as (k & Hzk & Hk). apply list_elem_of_fmap in Hk as (y & -> & Hy).
    apply Hx. rewrite (Hd x y z); [done|by left|by right|done..].
  - intros y Hy. apply Hf. by right.
  - intros y y' z Hy Hy'. apply Hd; by right.
Qed.

Lemma elem_of_join_fmap {A} (f : A -> list Z) (l : list A) z : z ∈ mjoin (f <$> l) <-> exists x, x ∈ l /\ z ∈ f x.
Proof.
  rewrite list_elem_of_join. split.
  - intros (k & Hz & Hk). apply list_elem_of_fmap in Hk as (x & -> & Hx). eauto.
  - intros (x & Hx & Hz). exists (f x). split; [done|]. apply list_elem_of_fmap. eauto.
Qed.

Lemma length_join_fmap {A} (f : A -> list Z) (l : list A) :
  Z.of_nat (List.length (mjoin (f <$> l))) = foldr (fun x acc => Z.of_nat (List.length (f x)) + acc) 0 l.
Proof.
  induction l as [|x l IH]; [done|]. change (mjoin (f <$> x :: l)) with (f x ++ mjoin (f <$> l)).
  rewrite length_app, Nat2Z.inj_add, IH. done.
Qed.

Lemma length_join_const (n : Z) (l : list (list Z)) :
  (forall k, k ∈ l -> Z.of_nat (List.length k) = n) -> Z.of_nat (List.length (mjoin l)) = Z.of_nat (List.length l) * n.
Proof.
  induction l as [|k l IH]; intros Hl; [done|]. change (mjoin (k :: l)) with (k ++ mjoin l). rewrite length_app.
  specialize (IH ltac:(intros; apply Hl; by right)). pose proof (Hl k ltac:(by left)). rewrite Nat2Z.inj_add, IH. simpl. lia.
Qed.

Section CentralSpec.
Context {W : Type} {E : Env W} {P : PageMap W} {G : EnvGhost W}.
Context {ens : pm_t -> Z -> Prop} {free_ central_cache_ : Z} {sm : SizeMap}.
Context {EL : EnvLaws W} {PL : PageMapLaws MetaDataAlloc P ens} {HLay : HeapLayout free_}.
Context (Hsm : size_map_ok sm) {CLay : CentralLayout (free_ := free_) (central_cache_ := central_cache_) (sm := sm)}.

Implicit Types (st : Heap) (h : PageHeap) (p q : Z) (s t : Span) (g : ghost) (L : links).

Abbreviation Inv := (Inv ens free_).
Abbreviation keeps := (keeps free_).
Abbreviation empty_ := (empty_ central_cache_).
Abbreviation nonempty_ := (nonempty_ central_cache_).
Abbreviation nclasses := (num_size_classes sm).
Abbreviation spans_of st := (st.(pageheap).(spans)).
Abbreviation links_of st := (st.(pageheap).(span_links)).
Abbreviation heap_rep := (heap_rep (ens := ens) (free_ := free_) (central_cache_ := central_cache_) (sm := sm)).
Abbreviation central_rep := (central_rep (central_cache_ := central_cache_) (sm := sm)).
Abbreviation local := (local (free_ := free_) (central_cache_ := central_cache_)).
Abbreviation visible := (visible (free_ := free_) (central_cache_ := central_cache_) (sm := sm)).
Abbreviation touches := (touches (sm := sm)).
Abbreviation span_objs := (span_objs (sm := sm)).
Abbreviation total := (total (sm := sm)).

(** ** Counting objects *)

(** The objects of the span [p]. *)
Definition objs_of (cl : Z) st p : list Z := default [] (span_objs cl <$> spans_of st !! p).

Lemma class_objs_disjoint strict Gs st cl p q x :
  heap_rep strict Gs st -> 1 <= cl < nclasses -> p ∈ g_spans (Gs cl) -> q ∈ g_spans (Gs cl) ->
  x ∈ objs_of cl st p -> x ∈ objs_of cl st q -> p = q.
Proof.
  intros Hrep Hcl Hp Hq. unfold objs_of.
  destruct (class_span_use _ _ _ cl p Hrep ltac:(lia) Hp) as (s & (Hs & _) & [Hls _ _ _ _] & _).
  destruct (class_span_use _ _ _ cl q Hrep ltac:(lia) Hq) as (t & (Ht & _) & [Hlt _ _ _ _] & _).
  rewrite Hs, Ht. simpl. intros Hx Hx'.
  by apply (objs_disjoint (ens := ens) (free_ := free_) Hsm strict st.(pageheap) cl cl p q s t x (hr_inv _ _ _ Hrep)).
Qed.

(** Every object of the class is free in its span, in the transfer cache, or outside. *)
Lemma objects_partition strict Gs st cl (g := Gs cl) :
  heap_rep strict Gs st -> 1 <= cl < nclasses ->
  mjoin (objs_of cl st <$> g_spans g) ≡ₚ mjoin (g_free g <$> g_spans g) ++ g_cached g ++ elements (g_out g).
Proof.
  intros Hrep Hcl. pose proof (hr_central _ _ _ Hrep cl ltac:(lia)) as Hcr. fold g in Hcr.
  destruct (smo_size _ Hsm cl Hcl) as [Hsz _].
  assert (Huse : forall p, p ∈ g_spans g -> exists s, spans_of st !! p = Some s /\ span_rep (sm := sm) cl st g p s).
  { intros p Hp. destruct (class_span_use _ _ _ cl p Hrep ltac:(lia) Hp) as (s & (Hs & _) & Hsr & _). eauto. }
  assert (Hfree : forall p x, p ∈ g_spans g -> x ∈ g_free g p <-> x ∈ objs_of cl st p /\ ~ g_held g x).
  { intros p x Hp. destruct (Huse p Hp) as (s & Hs & [_ _ _ _ Hf]). unfold objs_of. rewrite Hs. apply Hf. }
  apply NoDup_Permutation.
  - apply NoDup_join_fmap; [apply Hcr| |intros p q x; by apply (class_objs_disjoint strict Gs)].
    intros p Hp. destruct (Huse p Hp) as (s & Hs & _). unfold objs_of. rewrite Hs. apply NoDup_objs. lia.
  - apply NoDup_app. split_and!; [| |apply NoDup_app; split_and!; [apply Hcr| |apply NoDup_elements]].
    + apply NoDup_join_fmap; [apply Hcr| |].
      * intros p Hp. destruct (Huse p Hp) as (s & _ & [_ [_ Hnd] _ _ _]). done.
      * intros p q x Hp Hq Hxp%Hfree Hxq%Hfree; [|done..]. by apply (class_objs_disjoint strict Gs st cl p q x); try tauto.
    + intros x (p & Hp & [_ Hno]%Hfree)%elem_of_join_fmap; [|done]. intros [Hx|Hx%elem_of_elements]%elem_of_app;
        apply Hno; [by right|by left].
    + intros x Hx Hx2%elem_of_elements. by apply (cr_apart _ _ _ Hcr x).
  - intros x. rewrite !elem_of_app, !elem_of_join_fmap, elem_of_elements.
    assert (Hh : x ∈ g_cached g \/ x ∈ g_out g <-> g_held g x) by (unfold g_held; tauto). rewrite Hh. split.
    + intros (p & Hp & Hx). assert (Hd : Decision (g_held g x)) by (unfold g_held; apply _).
      destruct (decide (g_held g x)); [by right|left]. exists p. split; [done|]. by apply Hfree.
    + intros [(p & Hp & [Hx _]%Hfree)|Hx]; [by exists p|done|].
      destruct (cr_held _ _ _ Hcr x Hx) as (Hc0 & p & s & Hp & Hxs). exists p.
      split; [apply (cr_spans _ _ _ Hcr); eauto|]. unfold objs_of. destruct Hp as (-> & _). done.
Qed.

(** There are at most as many spans as pages. *)
Lemma spans_bound strict Gs st cl :
  heap_rep strict Gs st -> 1 <= cl < nclasses -> Z.of_nat (List.length (g_spans (Gs cl))) <= 2 ^ 35.
Proof.
  intros Hrep Hcl. pose proof (hr_inv _ _ _ Hrep) as HI. pose proof (hr_central _ _ _ Hrep cl ltac:(lia)) as Hcr.
  assert (Hst : forall p, p ∈ g_spans (Gs cl) -> exists s, spans_of st !! p = Some s /\ starts (spans_of st) p = s.(start)).
  { intros p Hp. destruct (class_span_use _ _ _ cl p Hrep ltac:(lia) Hp) as (s & (Hs & _) & _). exists s.
    unfold starts. by rewrite Hs. }
  assert (Hle : (List.length (starts (spans_of st) <$> g_spans (Gs cl)) <= List.length (seqZ 0 (2 ^ 35)))%nat).
  { apply NoDup_subset_length.
    - apply NoDup_fmap_2_strong; [|apply Hcr]. intros p q Hp Hq Heq.
      destruct (Hst p Hp) as (s & Hs & Es), (Hst q Hq) as (t & Ht & Et).
      destruct (Inv_ok _ _ _ _ _ _ _ _ HI Hs) as [_ _ _ ? ? _ _], (Inv_ok _ _ _ _ _ _ _ _ HI Ht) as [_ _ _ ? ? _ _].
      apply (g_disjoint _ _ _ _ _ _ _ (i_geom _ _ _ _ _ _ HI) p q s t s.(start)); try done; unfold covers; lia.
    - intros k Hk. apply list_elem_of_fmap in Hk as (p & -> & Hp). destruct (Hst p Hp) as (s & Hs & ->).
      destruct (Inv_ok _ _ _ _ _ _ _ _ HI Hs) as [_ _ _ ? ? Hlim _]. assert (page_limit = 2 ^ 35) by done.
      apply elem_of_seqZ. lia. }
  rewrite length_fmap, length_seqZ in Hle. lia.
Qed.

Lemma objects_count strict Gs st cl :
  heap_rep strict Gs st -> 1 <= cl < nclasses ->
  (cfl st cl).(num_spans_) * (class_to_pages sm cl * 8192 / ByteSizeForClass sm cl) =
    (cfl st cl).(counter_) + (cfl st cl).(used_slots_) * num_objects_to_move sm cl +
    Z.of_nat (size (g_out (Gs cl))) /\
  (cfl st cl).(num_spans_) <= 2 ^ 35 /\ 0 <= (cfl st cl).(counter_) < 2 ^ 51.
Proof.
  intros Hrep Hcl. pose proof (hr_central _ _ _ Hrep cl ltac:(lia)) as Hcr. fold (total cl).
  destruct (smo_objects _ Hsm cl Hcl) as [Ht0 Ht1]. fold (total cl) in Ht0, Ht1.
  pose proof (Permutation_length (objects_partition strict Gs st cl Hrep Hcl)) as Hlen.
  pose proof (spans_bound strict Gs st cl Hrep Hcl) as Hb.
  rewrite !length_app in Hlen. apply (f_equal Z.of_nat) in Hlen. rewrite !Nat2Z.inj_add in Hlen.
  rewrite (length_join_const (total cl)), length_fmap in Hlen.
  2:{ intros k Hk. apply list_elem_of_fmap in Hk as (p & -> & Hp).
      destruct (class_span_use _ _ _ cl p Hrep ltac:(lia) Hp) as (s & (Hs & _) & _). unfold objs_of. rewrite Hs. simpl.
      unfold CentralInv.span_objs. rewrite length_objs. lia. }
  rewrite length_join_fmap in Hlen. fold (g_count (Gs cl)) in Hlen. unfold g_cached in Hlen.
  rewrite (length_join_const (num_objects_to_move sm cl)) in Hlen.
  2:{ intros os Hos. apply list_elem_of_lookup_1 in Hos as (i & Hi).
      by destruct (cr_slots _ _ _ Hcr i os Hi) as (? & ? & _ & _ & _ & ?). }
  change (List.length (elements (g_out (Gs cl)))) with (size (g_out (Gs cl))) in Hlen.
  rewrite <- (cr_used _ _ _ Hcr) in Hlen. pose proof (cr_used _ _ _ Hcr). destruct (smo_move _ Hsm cl Hcl).
  assert (0 <= g_count (Gs cl) < 2 ^ 51) by (unfold g_count in *; pose proof (length_join_fmap (g_free (Gs cl)) (g_spans (Gs cl))); nia).
  rewrite (cr_counter _ _ _ Hcr), (cr_num _ _ _ Hcr), !u64_small by lia. split_and!; lia.
Qed.


(** ** Objects outside *)

(** Where an object that is outside lies. *)
Lemma object_place strict Gs st c x :
  heap_rep strict Gs st -> 0 <= c < nclasses -> x ∈ g_out (Gs c) ->
  let b := ByteSizeForClass sm c in
  exists p s k, 1 <= c /\ in_class c st p s /\ GetDescriptor st.(pageheap) (Z.shiftr x kPageShift) = p /\
    x = s.(start) * 8192 + k * b /\ 0 <= k /\ x + b <= (s.(start) + s.(length_)) * 8192 /\ 8 <= b /\
    covers s (Z.shiftr x kPageShift).
Proof.
  intros Hrep Hc Hx b. pose proof (hr_central _ _ _ Hrep c Hc) as Hcr.
  destruct (cr_held _ _ _ Hcr x ltac:(by left)) as (Hc0 & _). assert (Hc1 : 1 <= c < nclasses) by lia.
  destruct (out_span Hsm strict Gs st c x Hrep Hc1 Hx) as (p & s & Hp & [Hl _ _ _ _] & Hxs & _ & _ & _ & Hd & _).
  destruct (Inv_ok _ _ _ _ _ _ _ _ (hr_inv _ _ _ Hrep) (proj1 Hp)) as [_ _ _ Hst _ _ _].
  destruct (obj_page Hsm c s x Hc1 Hl Hst Hxs) as (Hcv & _ & Hend). destruct (smo_size _ Hsm c Hc1) as [Hb _].
  apply elem_of_objs in Hxs as (k & Hk & Hxk). exists p, s, k.
  rewrite Z.shiftr_div_pow2 in * by done. change (2 ^ kPageShift) with 8192 in *. split_and!; try done; [lia|apply Hp..|lia].
Qed.

(** C11: objects handed out never overlap: two objects outside, of the same class or of
    different ones, have no byte in common; each lies in one span in use of its class,
    the page map leads from its first page to that span, and the size-class cache never
    gives another class for it. *)
Theorem outside_safe strict Gs st c c' x y :
  heap_rep strict Gs st -> 0 <= c < nclasses -> 0 <= c' < nclasses ->
  x ∈ g_out (Gs c) -> y ∈ g_out (Gs c') ->
  (x <> y -> x + ByteSizeForClass sm c <= y \/ y + ByteSizeForClass sm c' <= x) /\
  (x = y -> c = c') /\
  exists s, spans_of st !! GetDescriptor st.(pageheap) (Z.shiftr x kPageShift) = Some s /\
    s.(location) = IN_USE /\ s.(sizeclass) = c /\
    s.(start) * 8192 <= x /\ x + ByteSizeForClass sm c <= (s.(start) + s.(length_)) * 8192 /\
    forall v, TryGetSizeClass st.(pageheap) (Z.shiftr x kPageShift) = Some v -> v = c.
Proof.
  intros Hrep Hc Hc' Hx Hy.
  destruct (object_place strict Gs st c x Hrep Hc Hx) as (p & s & k & Hc1 & Hp & Hd & Hxk & Hk & Hxe & Hb & Hcv).
  destruct (object_place strict Gs st c' y Hrep Hc' Hy) as (q & t & j & Hc2 & Hq & _ & Hyj & Hj & Hye & Hb' & _).
  pose proof Hp as (Hp1 & Hp2 & Hp3). pose proof Hq as (Hq1 & Hq2 & Hq3). split_and!.
  - intros Hne. destruct (decide (p = q)) as [<-|Hpq].
    + assert (t = s) as -> by congruence. assert (c' = c) as -> by congruence.
      assert (k < j \/ j < k) as [Hlt|Hlt] by nia; [left|right]; nia.
    + assert (Hdis : forall z, covers s z -> covers t z -> False).
      { intros z H1 H2. apply Hpq. by eapply (g_disjoint _ _ _ _ _ _ _ (i_geom _ _ _ _ _ _ (hr_inv _ _ _ Hrep))). }
      destruct (Inv_ok _ _ _ _ _ _ _ _ (hr_inv _ _ _ Hrep) Hp1) as [_ _ _ _ ? _ _].
      destruct (Inv_ok _ _ _ _ _ _ _ _ (hr_inv _ _ _ Hrep) Hq1) as [_ _ _ _ ? _ _]. unfold covers in Hdis.
      destruct (decide (s.(start) < t.(start))); [left|right].
      * assert (s.(start) + s.(length_) <= t.(start)) by (destruct (decide (s.(start) + s.(length_) <= t.(start))); [done|];
          destruct (Hdis t.(start)); lia). nia.
      * assert (t.(start) + t.(length_) <= s.(start)) by (destruct (decide (t.(start) + t.(length_) <= s.(start))); [done|];
          destruct (Hdis s.(start)); lia). nia.
  - intros ->. symmetry. by apply (out_class Hsm strict Gs st c c' y Hrep).
  - rewrite Hd. exists s. split_and!; try done; [nia|]. intros v Hv.
    destruct (proj2 (hr_cache _ _ _ Hrep) p s Hp1 Hp2) as [_ Hcache]. rewrite <- Hp3. by eapply Hcache; [lia| |exact Hv].
Qed.

(** C9: [RemoveRange] never fails: it returns a chain of at most [N] objects of the class,
    none of which was outside before; objects outside, large spans and their contents
    are left alone.  It returns none only when the page heap has no span left to give;
    then [errno] says so, unless a limit on the heap is set. *)
Theorem RemoveRange_spec strict Gs st cl N :
  heap_rep strict Gs st -> 1 <= cl < nclasses -> 0 < N ->
  wp (RemoveRange free_ central_cache_ sm cl N) (fun r st' => exists os g',
    r.1.1 = Z.of_nat (List.length os) /\ sll st'.(memory) r.1.2 os /\ r.2 = default 0 (last os) /\ r.1.1 <= N /\
    (forall x c, x ∈ os -> 0 <= c < nclasses -> x ∉ g_out (Gs c)) /\
    heap_rep strict (set_ghost cl g' Gs) st' /\ g_out g' = g_out (Gs cl) ∪ list_to_set os /\ visible ∅ Gs st st' /\
    (r.1.1 = 0 -> (limit_pages st.(pageheap) = 0 -> st'.(pageheap).(errno) = ENOMEM) /\
       (limit_ok (class_to_pages sm cl) st.(pageheap) = true -> none_free (class_to_pages sm cl) page_limit st.(pageheap)))) st.
Proof.
  intros Hrep Hcl HN. eapply wp_mono; [by apply (wp_RemoveRange Hsm strict Gs)|].
  intros r st' [(os & g' & Hr & Hv & (H1 & H2 & H3) & H4 & H5 & H6) Hno]. exists os, g'. split_and!; try done; [lia|..].
  - intros x c Hx Hc Hxc. destruct (decide (c = cl)) as [->|Hne]; [by apply (H6 x)|]. apply Hne.
    apply (out_class Hsm strict _ _ cl c x Hr); try done; [lia|rewrite set_ghost_eq, H5; set_solver|by rewrite set_ghost_ne].
Qed.

End CentralSpec.
