(* ===== verification/CentralScenario.v ===== *)
(** The central free lists over the system of [BumpOS.v], with the default size-class
    tables: a run of [InitStaticVars], a batch of objects taken out, and the theorems of
    the central free lists at those states. *)
From S2P Require Import Prelude SizeMap SizeClasses LinkedList Span PackedCache PageMap SystemAlloc SysEnv MetaData BumpOS.
From S2P Require Import PageHeap SpanStore PageHeapInv PageHeapScenario.
From S2P Require Import CentralFreeList CentralInv CentralTables CentralRemove CentralInsert StaticVars CentralSpec.

(** The addresses of [Static::central_cache_] and [Static::sampled_objects_]. *)
Definition bump_central : Z := 2 ^ 21.
Definition bump_sampled : Z := 2 ^ 22.

Lemma default_classes : num_size_classes default_sizemap <= 128.
Proof. apply default_tables_ok. Qed.

#[export] Instance bump_central_layout :
  CentralLayout (free_ := bump_free) (central_cache_ := bump_central) (sm := default_sizemap).
Proof.
  pose proof default_classes. assert (Hk : kMaxPages = 128) by done. split; intros cl Hcl.
  - simpl. unfold empty_, nonempty_, bump_central, bump_base, sizeof_CentralFreeList, offset_empty, offset_nonempty. lia.
  - split; intros (loc & i & _ & Hi & Heq); revert Heq;
      unfold empty_, nonempty_, bump_central, sizeof_CentralFreeList, offset_empty, offset_nonempty, free_list, bump_free;
      destruct loc; simpl; unfold free_normal, free_returned, sizeof_Span; lia.
Qed.

Definition bump_static : result Heap :=
  InitStaticVars bump_free bump_central bump_sampled default_sizemap 0 (double_of_Z 1) false ∅ (bump_world false).

Definition static_heap : Heap (W := BW) := ok_or (mkHeap (PageHeap_storage (bump_world false)) ∅ ∅ 0) bump_static.

Abbreviation bump_rep := (heap_rep (P := bump_pagemap) (ens := PageMap2.ensured2 35) (free_ := bump_free) (central_cache_ := bump_central) (sm := default_sizemap)).

Lemma default_min_span : min_span_size_in_pages_ default_sizemap = 2 ^ 0.
Proof. vm_compute. reflexivity. Qed.

Lemma bump_sampled_apart : ~ is_header bump_free bump_sampled.
Proof.
  assert (Hk : kMaxPages = 128) by done. intros (loc & i & _ & Hi & Heq). revert Heq. unfold bump_sampled, free_list, bump_free.
  destruct loc; simpl; unfold free_normal, free_returned, sizeof_Span; lia.
Qed.

Lemma static_heap_rep : bump_rep true (fun _ => no_ghost) static_heap.
Proof.
  destruct (InitStaticVars_ok (P := bump_pagemap) (ens := PageMap2.ensured2 35) (free_ := bump_free) (central_cache_ := bump_central)
    default_tables_ok bump_sampled 0 0 (double_of_Z 1) false ∅ (bump_world false)
    (bump_world_ok false) ltac:(lia) default_min_span ltac:(split; reflexivity) bump_sampled_apart) as (st & Hst & Hrep & _).
  unfold static_heap, bump_static. by rewrite Hst.
Qed.

(** A batch of five objects of class 7 taken out of the heap. *)
Definition batch_run : result (Z * Z * Z * Heap (W := BW)) := RemoveRange (W := BW) bump_free bump_central default_sizemap 7 5 static_heap.
Definition batch_run_ok : Z * Z * Z * Heap := ok_or (0, 0, 0, static_heap) batch_run.
Definition batch_first : Z := batch_run_ok.1.1.2.
Definition batch_last : Z := batch_run_ok.1.2.
Definition batch_heap : Heap := batch_run_ok.2.

Lemma batch_run_eq : batch_run = Ok (5, batch_first, batch_last, batch_heap).
Proof.
  assert (H : is_ok batch_run && (batch_run_ok.1.1.1 =? 5) = true) by (vm_compute; reflexivity).
  apply andb_prop in H as [H1 H2]. unfold batch_first, batch_last, batch_heap, batch_run_ok in *.
  destruct batch_run as [r| | |]; [|discriminate H1..]. destruct r as [[[n a] b] st]. apply Z.eqb_eq in H2. cbn in *. by rewrite H2.
Qed.
#[global] Opaque batch_first batch_last batch_heap.

Lemma default_class_7 : 1 <= 7 < num_size_classes default_sizemap.
Proof. split; [lia|]. vm_compute. reflexivity. Qed.

Lemma batch_rep : exists os g', bump_rep true (set_ghost 7 g' (fun _ => no_ghost)) batch_heap /\
  sll batch_heap.(memory) batch_first os /\ batch_last = default 0 (last os) /\ List.length os = 5%nat /\
  g_out g' = list_to_set os.
Proof.
  pose proof (wp_RemoveRange default_tables_ok true (fun _ => no_ghost) static_heap 7 5 static_heap_rep default_class_7 ltac:(lia)) as H.
  pose proof (wp_Ok _ _ _ _ _ H batch_run_eq) as [(os & g' & Hr & _ & (H1 & H2 & H3) & _ & H5 & _) _]. exists os, g'. cbn [fst snd] in *.
  refine (conj Hr (conj H2 (conj H3 (conj _ _)))); [lia|]. rewrite H5. cbn [g_out no_ghost]. apply union_empty_l_L.
Qed.

(** ** The theorems at these states *)

Lemma RemoveRange_spec_witness :
  wp (RemoveRange bump_free bump_central default_sizemap 7 5) (fun r st' => exists os, sll st'.(memory) r.1.2 os) static_heap.
Proof.
  eapply wp_mono; [apply (RemoveRange_spec default_tables_ok true (fun _ => no_ghost) static_heap 7 5 static_heap_rep default_class_7); lia|].
  intros r st' (os & _ & _ & Hs & _). exists os. exact Hs.
Defined.



Lemma outside_safe_witness : exists x y, x <> y /\
  (x + ByteSizeForClass default_sizemap 7 <= y \/ y + ByteSizeForClass default_sizemap 7 <= x).
Proof.
  destruct batch_rep as ([|x [|y os]] & g' & Hrep & [_ Hnd] & _ & Hlen & Hout); [discriminate..|].
  apply NoDup_cons in Hnd as [Hx _]. assert (Hne : x <> y) by (intros ->; apply Hx; by left).
  exists x, y. split; [exact Hne|]. assert (H0 : 0 <= 7 < num_size_classes default_sizemap) by (destruct default_class_7; lia).
  refine (proj1 (outside_safe default_tables_ok true _ batch_heap 7 7 x y Hrep H0 H0 _ _) Hne); rewrite set_ghost_eq, Hout;
    apply elem_of_list_to_set; [left|right; left].
Defined.
