(* ===== verification/ThreadCache.v ===== *)
(** The thread caches: [src/thread_cache.h] and [src/thread_cache.cc].

    A cache has one list of free objects per size class.  The state [Caches] joins the
    caches of all threads with the central lists; the model runs one operation at a
    time. *)
From Stdlib Require Import Floats.SpecFloat.
From S2P Require Import Prelude SizeMap Sampler LinkedList Span PackedCache PageMap SysEnv PageHeap CentralFreeList.

Definition kMaxThreadCacheSize : Z := Z.shiftl 4 20.
Definition kDefaultOverallThreadCacheSize : Z := 8 * kMaxThreadCacheSize.
Definition kMinThreadCacheSize : Z := kMaxSize * 2.
Definition kStealAmount : Z := Z.shiftl 1 16.
Definition kMaxOverages : Z := 3.
Definition kMaxDynamicFreeListLength : Z := 8192.

(** ** [ThreadCache::FreeList] *)

Record FreeList := mkFreeList {
  fl_list : Z;
  fl_length : Z;
  fl_lowater : Z;
  fl_max_length : Z;
  fl_length_overages : Z;
  fl_size : Z
}.

Definition FL_Init (size : Z) : FreeList := mkFreeList 0 0 0 1 0 (i32 size).

Definition set_max_length (v : Z) (l : FreeList) : FreeList :=
  mkFreeList l.(fl_list) l.(fl_length) l.(fl_lowater) (u32 v) l.(fl_length_overages) l.(fl_size).
Definition set_length_overages (v : Z) (l : FreeList) : FreeList :=
  mkFreeList l.(fl_list) l.(fl_length) l.(fl_lowater) l.(fl_max_length) (u32 v) l.(fl_size).
Definition clear_lowwatermark (l : FreeList) : FreeList :=
  mkFreeList l.(fl_list) l.(fl_length) l.(fl_length) l.(fl_max_length) l.(fl_length_overages) l.(fl_size).

(** The list and its length; the low-water mark follows the length down. *)
Definition set_list (head length : Z) (l : FreeList) : FreeList :=
  mkFreeList head length (if length <? l.(fl_lowater) then length else l.(fl_lowater))
    l.(fl_max_length) l.(fl_length_overages) l.(fl_size).

Definition FL_Push (m : mem) (l : FreeList) (ptr : Z) : mem * FreeList :=
  let length := u32 (l.(fl_length) + 1) in
  let '(m, head) := SLL_Push m l.(fl_list) ptr in
  (m, mkFreeList head length l.(fl_lowater) l.(fl_max_length) l.(fl_length_overages) l.(fl_size)).

Definition FL_TryPop (m : mem) (l : FreeList) : option (Z * FreeList) :=
  match SLL_TryPop m l.(fl_list) with
  | Some (rv, head) => Some (rv, set_list head (u32 (l.(fl_length) - 1)) l)
  | None => None
  end.

Definition FL_PushRange (m : mem) (l : FreeList) (N start end_ : Z) : mem * FreeList :=
  let '(m, head) := SLL_PushRange m l.(fl_list) start end_ in
  (m, mkFreeList head (u32 (l.(fl_length) + N)) l.(fl_lowater) l.(fl_max_length)
        l.(fl_length_overages) l.(fl_size)).

(** The new memory and list, and the ends of the range. *)
Definition FL_PopRange (m : mem) (l : FreeList) (N : Z) : mem * FreeList * Z * Z :=
  let '(m, head, start, end_) := SLL_PopRange m l.(fl_list) N in
  (m, set_list head (u32 (l.(fl_length) - N)) l, start, end_).

(** ** [ThreadCache] *)

Record ThreadCache := mkThreadCache {
  list_ : gmap Z FreeList;
  size_ : Z;
  max_size_ : Z;
  sampler_ : Sampler;
  next_ : Z;
  prev_ : Z
}.

Definition upd_list (cl : Z) (l : FreeList) (c : ThreadCache) : ThreadCache :=
  mkThreadCache (<[cl := l]> c.(list_)) c.(size_) c.(max_size_) c.(sampler_) c.(next_) c.(prev_).
Definition set_size (v : Z) (c : ThreadCache) : ThreadCache :=
  mkThreadCache c.(list_) (i32 v) c.(max_size_) c.(sampler_) c.(next_) c.(prev_).
Definition SetMaxSize (v : Z) (c : ThreadCache) : ThreadCache :=
  mkThreadCache c.(list_) c.(size_) (i32 v) c.(sampler_) c.(next_) c.(prev_).
Definition set_sampler (v : Sampler) (c : ThreadCache) : ThreadCache :=
  mkThreadCache c.(list_) c.(size_) c.(max_size_) v c.(next_) c.(prev_).
Definition set_tc_next (v : Z) (c : ThreadCache) : ThreadCache :=
  mkThreadCache c.(list_) c.(size_) c.(max_size_) c.(sampler_) v c.(prev_).
Definition set_tc_prev (v : Z) (c : ThreadCache) : ThreadCache :=
  mkThreadCache c.(list_) c.(size_) c.(max_size_) c.(sampler_) c.(next_) v.

(** [list_[cl]] *)
Definition list_at (c : ThreadCache) (cl : Z) : FreeList := default (mkFreeList 0 0 0 0 0 0) (c.(list_) !! cl).
Definition freelist_length (c : ThreadCache) (cl : Z) : Z := i32 (list_at c cl).(fl_length).

Section Caches.
Context {W : Type} {E : Env W} {P : PageMap W} {C : CacheEnv W}.
Context (free_ central_cache_ : Z) (sm : SizeMap).
(** [FLAGS_tcmalloc_sample_parameter], and the logarithms of the C library. *)
Context (sample_parameter : Z) (log2 : spec_float -> spec_float) (log_2 : spec_float).

(** The static members of [ThreadCache]. *)
Record Caches := mkCaches {
  heap : Heap;
  tcs : gmap Z ThreadCache;
  thread_heaps_ : Z;
  thread_heap_count_ : Z;
  next_memory_steal_ : Z;
  min_per_thread_cache_size_ : Z;
  overall_thread_cache_size_ : Z;
  per_thread_cache_size_ : Z;
  unclaimed_cache_space_ : Z
}.

Definition upd_heap (h : Heap) (c : Caches) : Caches :=
  mkCaches h c.(tcs) c.(thread_heaps_) c.(thread_heap_count_) c.(next_memory_steal_)
    c.(min_per_thread_cache_size_) c.(overall_thread_cache_size_) c.(per_thread_cache_size_) c.(unclaimed_cache_space_).
Definition upd_tcs (f : gmap Z ThreadCache -> gmap Z ThreadCache) (c : Caches) : Caches :=
  mkCaches c.(heap) (f c.(tcs)) c.(thread_heaps_) c.(thread_heap_count_) c.(next_memory_steal_)
    c.(min_per_thread_cache_size_) c.(overall_thread_cache_size_) c.(per_thread_cache_size_) c.(unclaimed_cache_space_).
Definition set_thread_heaps (v n : Z) (c : Caches) : Caches :=
  mkCaches c.(heap) c.(tcs) v n c.(next_memory_steal_)
    c.(min_per_thread_cache_size_) c.(overall_thread_cache_size_) c.(per_thread_cache_size_) c.(unclaimed_cache_space_).
Definition set_next_memory_steal (v : Z) (c : Caches) : Caches :=
  mkCaches c.(heap) c.(tcs) c.(thread_heaps_) c.(thread_heap_count_) v
    c.(min_per_thread_cache_size_) c.(overall_thread_cache_size_) c.(per_thread_cache_size_) c.(unclaimed_cache_space_).
Definition set_min_per_thread_cache_size (v : Z) (c : Caches) : Caches :=
  mkCaches c.(heap) c.(tcs) c.(thread_heaps_) c.(thread_heap_count_) c.(next_memory_steal_)
    v c.(overall_thread_cache_size_) c.(per_thread_cache_size_) c.(unclaimed_cache_space_).
Definition set_overall (v : Z) (c : Caches) : Caches :=
  mkCaches c.(heap) c.(tcs) c.(thread_heaps_) c.(thread_heap_count_) c.(next_memory_steal_)
    c.(min_per_thread_cache_size_) v c.(per_thread_cache_size_) c.(unclaimed_cache_space_).
Definition set_per_thread (v : Z) (c : Caches) : Caches :=
  mkCaches c.(heap) c.(tcs) c.(thread_heaps_) c.(thread_heap_count_) c.(next_memory_steal_)
    c.(min_per_thread_cache_size_) c.(overall_thread_cache_size_) v c.(unclaimed_cache_space_).
Definition set_unclaimed (v : Z) (c : Caches) : Caches :=
  mkCaches c.(heap) c.(tcs) c.(thread_heaps_) c.(thread_heap_count_) c.(next_memory_steal_)
    c.(min_per_thread_cache_size_) c.(overall_thread_cache_size_) c.(per_thread_cache_size_) (i64 v).

Abbreviation MT := (M Caches).

(** A call of the central lists. *)
Definition on_central {A} (m : M Heap A) : MT A := fun c =>
  '(a, h) ← m c.(heap);
  Ok (a, upd_heap h c).

(** The cache behind a pointer; following a null pointer crashes. *)
Definition deref_tc (p : Z) : MT ThreadCache := fun c =>
  match c.(tcs) !! p with
  | Some t => Ok (t, c)
  | None => Crash
  end.
Definition store_tc (p : Z) (f : ThreadCache -> ThreadCache) : MT unit := fun c =>
  match c.(tcs) !! p with
  | Some t => Ok (tt, upd_tcs (<[p := f t]>) c)
  | None => Crash
  end.

Definition modify_mem (m : mem) : MT unit := on_central (modify (upd_memory (fun _ => m))).

(** ** To the central lists and back *)

(** [src->PopRange(N, &head, &tail)] and [InsertRange(head, tail, N)] *)
Definition release_range (self cl N : Z) : MT unit :=
  t ← deref_tc self;
  st ← get_state;
  let '(m, l, head, tail) := FL_PopRange st.(heap).(memory) (list_at t cl) N in
  modify_mem m ;;
  store_tc self (upd_list cl l) ;;
  on_central (InsertRange free_ central_cache_ sm cl head tail N).

(** [while (N > batch_size)]: what is left of [N]. *)
Fixpoint release_batches (fuel : nat) (self cl N batch_size : Z) : MT Z :=
  match fuel with
  | O => no_fuel
  | S fuel =>
      if N >? batch_size then
        release_range self cl batch_size ;;
        release_batches fuel self cl (N - batch_size) batch_size
      else mret N
  end.

Definition ReleaseToCentralCache (self cl N : Z) : MT unit :=
  t ← deref_tc self;
  let src := list_at t cl in
  let N := if u64 N >? src.(fl_length) then i32 src.(fl_length) else N in
  let delta_bytes := u64 (i32 (N * ByteSizeForClass sm cl)) in
  let batch_size := num_objects_to_move sm cl in
  N ← release_batches (Z.to_nat N + 1) self cl N batch_size;
  release_range self cl N ;;
  store_tc self (fun t => set_size (t.(size_) - delta_bytes) t).

(** The object, or [inr n] for the tail call [oom_handler(n)] when the central list has
    nothing. *)
Definition FetchFromCentralCache (self cl byte_size : Z) : MT (Z + Z) :=
  t ← deref_tc self;
  let batch_size := num_objects_to_move sm cl in
  let num_to_move := Z.min (i32 (list_at t cl).(fl_max_length)) batch_size in
  '(fetch_count, start, end_) ← on_central (RemoveRange free_ central_cache_ sm cl num_to_move);
  if fetch_count =? 0 then mret (inr byte_size)
  else
    let fetch_count := i32 (fetch_count - 1) in
    (if fetch_count >=? 0 then
       store_tc self (fun t => set_size (t.(size_) + i32 (byte_size * fetch_count)) t) ;;
       t ← deref_tc self;
       st ← get_state;
       let '(m, l) := FL_PushRange st.(heap).(memory) (list_at t cl) fetch_count
                        (SLL_Next st.(heap).(memory) start) end_ in
       modify_mem m ;;
       store_tc self (upd_list cl l)
     else skip) ;;
    t ← deref_tc self;
    let list := list_at t cl in
    (if list.(fl_max_length) <? batch_size then
       store_tc self (upd_list cl (set_max_length (list.(fl_max_length) + 1) list))
     else
       let new_length := Z.min (i32 (list.(fl_max_length) + batch_size)) kMaxDynamicFreeListLength in
       if batch_size =? 0 then crash
       else
         let new_length := new_length - Z.rem new_length batch_size in
         store_tc self (upd_list cl (set_max_length new_length list))) ;;
    mret (inl start).

(** ** Limits *)

(** The round-robin over the other caches: [for (int i = 0; i < 10; ...)]. *)
Fixpoint steal_loop (n : nat) (self : Z) : MT unit :=
  match n with
  | O => skip
  | S n =>
      st ← get_state;
      (if st.(next_memory_steal_) =? 0 then modify (set_next_memory_steal st.(thread_heaps_)) else skip) ;;
      st ← get_state;
      let victim := st.(next_memory_steal_) in
      v ← deref_tc victim;
      if (victim =? self) || (u64 v.(max_size_) <=? st.(min_per_thread_cache_size_)) then
        modify (set_next_memory_steal v.(next_)) ;;
        steal_loop n self
      else
        store_tc victim (SetMaxSize (v.(max_size_) - kStealAmount)) ;;
        t ← deref_tc self;
        store_tc self (SetMaxSize (t.(max_size_) + kStealAmount)) ;;
        v ← deref_tc victim;
        modify (set_next_memory_steal v.(next_))
  end.

Definition IncreaseCacheLimitLocked (self : Z) : MT unit :=
  st ← get_state;
  if st.(unclaimed_cache_space_) >? 0 then
    modify (set_unclaimed (st.(unclaimed_cache_space_) - kStealAmount)) ;;
    t ← deref_tc self;
    store_tc self (SetMaxSize (t.(max_size_) + kStealAmount))
  else steal_loop 10 self.

(** Under the lock of the page heap. *)
Definition IncreaseCacheLimit (self : Z) : MT unit := IncreaseCacheLimitLocked self.

(** ** [Scavenge] *)

Definition scavenge_class (self cl : Z) : MT unit :=
  t ← deref_tc self;
  let lowmark := i32 (list_at t cl).(fl_lowater) in
  (if lowmark >? 0 then
     let drop := if lowmark >? 1 then Z.quot lowmark 2 else 1 in
     ReleaseToCentralCache self cl drop ;;
     t ← deref_tc self;
     let list := list_at t cl in
     let batch_size := num_objects_to_move sm cl in
     if list.(fl_max_length) >? batch_size then
       store_tc self (upd_list cl (set_max_length
         (Z.max (i32 (list.(fl_max_length) - batch_size)) batch_size) list))
     else skip
   else skip) ;;
  store_tc self (fun t => upd_list cl (clear_lowwatermark (list_at t cl)) t).

Fixpoint scavenge_loop (classes : list Z) (self : Z) : MT unit :=
  match classes with
  | [] => skip
  | cl :: classes => scavenge_class self cl ;; scavenge_loop classes self
  end.

Definition Scavenge (self : Z) : MT unit :=
  scavenge_loop (seqZ 0 (num_size_classes sm)) self ;;
  IncreaseCacheLimit self.

Definition ListTooLong (self cl : Z) : MT unit :=
  store_tc self (fun t => set_size (t.(size_) + (list_at t cl).(fl_size)) t) ;;
  let batch_size := num_objects_to_move sm cl in
  ReleaseToCentralCache self cl batch_size ;;
  t ← deref_tc self;
  let list := list_at t cl in
  (if list.(fl_max_length) <? batch_size then
     store_tc self (upd_list cl (set_max_length (list.(fl_max_length) + 1) list))
   else if list.(fl_max_length) >? batch_size then
     let list := set_length_overages (list.(fl_length_overages) + 1) list in
     store_tc self (upd_list cl list) ;;
     if list.(fl_length_overages) >? kMaxOverages then
       store_tc self (upd_list cl (set_length_overages 0 (set_max_length (list.(fl_max_length) - batch_size) list)))
     else skip
   else skip) ;;
  t ← deref_tc self;
  if t.(size_) >? t.(max_size_) then Scavenge self else skip.

(** ** [Allocate] and [Deallocate] *)

Definition Allocate (self size cl : Z) : MT (Z + Z) :=
  t ← deref_tc self;
  st ← get_state;
  match FL_TryPop st.(heap).(memory) (list_at t cl) with
  | None => FetchFromCentralCache self cl (i32 size)
  | Some (rv, l) =>
      store_tc self (fun t => set_size (t.(size_) - size) (upd_list cl l t)) ;;
      mret (inl rv)
  end.

Definition Deallocate (self ptr cl : Z) : MT unit :=
  t ← deref_tc self;
  st ← get_state;
  let '(m, l) := FL_Push st.(heap).(memory) (list_at t cl) ptr in
  modify_mem m ;;
  store_tc self (upd_list cl l) ;;
  if l.(fl_length) >? l.(fl_max_length) then ListTooLong self cl
  else
    store_tc self (fun t => set_size (t.(size_) + l.(fl_size)) t) ;;
    t ← deref_tc self;
    if t.(size_) >? t.(max_size_) then Scavenge self else skip.

(** ** Sampling *)

Definition on_sampler (self : Z) (f : Sampler -> result (bool * Sampler)) : MT bool :=
  t ← deref_tc self;
  '(b, s) ← (fun st => r ← f t.(sampler_); Ok (r, st));
  store_tc self (set_sampler s) ;;
  mret b.

Definition SampleAllocation (self k : Z) : MT bool :=
  b ← on_sampler self (RecordAllocation sample_parameter log2 log_2 self k);
  mret (negb b).
Definition TC_TryRecordAllocationFast (self k : Z) : MT bool :=
  on_sampler self (fun s => Ok (TryRecordAllocationFast k s)).

(** ** New and dead threads *)

(** The constructor, on the storage [self].  [seed] is the address of a variable on the
    stack. *)
Definition ThreadCache_new (self seed : Z) : MT unit :=
  modify (upd_tcs (<[self := mkThreadCache ∅ 0 0 Sampler_new 0 0]>)) ;;
  IncreaseCacheLimitLocked self ;;
  t ← deref_tc self;
  (if t.(max_size_) =? 0 then
     st ← get_state;
     let min_size := st.(min_per_thread_cache_size_) in
     store_tc self (SetMaxSize min_size) ;;
     modify (set_unclaimed (st.(unclaimed_cache_space_) - min_size))
   else skip) ;;
  store_tc self (fun t => set_tc_prev 0 (set_tc_next 0 t)) ;;
  store_tc self (fun t => mkThreadCache
    (list_to_map ((fun cl => (cl, FL_Init (class_to_size sm cl))) <$> seqZ 0 (num_size_classes sm)))
    t.(size_) t.(max_size_) t.(sampler_) t.(next_) t.(prev_)) ;;
  t ← deref_tc self;
  s ← (fun st => s ← Sampler_Init sample_parameter log2 log_2 seed t.(sampler_); Ok (s, st));
  store_tc self (set_sampler s).

(** The allocator of the surroundings. *)
Definition on_world {A} (f : W -> result (A * W)) : MT A := on_central (on_heap (call f)).

Definition NewHeap (seed : Z) : MT Z :=
  self ← on_world threadcache_New;
  ThreadCache_new self seed ;;
  st ← get_state;
  store_tc self (fun t => set_tc_prev 0 (set_tc_next st.(thread_heaps_) t)) ;;
  (if negb (st.(thread_heaps_) =? 0) then store_tc st.(thread_heaps_) (set_tc_prev self)
   else modify (set_next_memory_steal self)) ;;
  modify (fun st => set_thread_heaps self (i32 (st.(thread_heap_count_) + 1)) st) ;;
  mret self.

(** The destructor. *)
Fixpoint release_all (classes : list Z) (self : Z) : MT unit :=
  match classes with
  | [] => skip
  | cl :: classes =>
      t ← deref_tc self;
      let length := (list_at t cl).(fl_length) in
      (if length >? 0 then ReleaseToCentralCache self cl (i32 length) else skip) ;;
      release_all classes self
  end.

Definition DeleteCache (self : Z) : MT unit :=
  release_all (seqZ 0 (num_size_classes sm)) self ;;
  t ← deref_tc self;
  (if negb (t.(next_) =? 0) then store_tc t.(next_) (set_tc_prev t.(prev_)) else skip) ;;
  (if negb (t.(prev_) =? 0) then store_tc t.(prev_) (set_tc_next t.(next_)) else skip) ;;
  modify (fun st => set_thread_heaps (if st.(thread_heaps_) =? self then t.(next_) else st.(thread_heaps_))
                      (i32 (st.(thread_heap_count_) - 1)) st) ;;
  modify (fun st => if st.(next_memory_steal_) =? self then set_next_memory_steal t.(next_) st else st) ;;
  modify (fun st => if st.(next_memory_steal_) =? 0 then set_next_memory_steal st.(thread_heaps_) st else st) ;;
  modify (fun st => set_unclaimed (st.(unclaimed_cache_space_) + t.(max_size_)) st) ;;
  modify (upd_tcs (delete self)) ;;
  on_world (fun w => Ok (tt, threadcache_Delete self w)).

(** ** The overall limit *)

(** The loop over the caches: what they claim. *)
Fixpoint recompute_loop (fuel : nat) (h : Z) (ratio : spec_float) (claimed : Z) : MT Z :=
  match fuel with
  | O => no_fuel
  | S fuel =>
      if h =? 0 then mret claimed
      else
        t ← deref_tc h;
        (if SFltb ratio (double_of_Z 1) then
           store_tc h (SetMaxSize (int_of_double (SFmul 53 1024 (double_of_Z t.(max_size_)) ratio)))
         else skip) ;;
        t ← deref_tc h;
        recompute_loop fuel t.(next_) ratio (u64 (claimed + t.(max_size_)))
  end.

Definition RecomputePerThreadCacheSize : MT unit :=
  st ← get_state;
  let n := if st.(thread_heap_count_) >? 0 then st.(thread_heap_count_) else 1 in
  let space := st.(overall_thread_cache_size_) / n in
  let min_size := st.(min_per_thread_cache_size_) in
  let space := if space <? min_size then min_size else space in
  let space := if space >? kMaxThreadCacheSize then kMaxThreadCacheSize else space in
  let per := double_of_Z st.(per_thread_cache_size_) in
  let ratio := SFdiv 53 1024 (double_of_Z space)
                 (if SFltb (double_of_Z 1) per then per else double_of_Z 1) in
  claimed ← recompute_loop (S (size st.(tcs))) st.(thread_heaps_) ratio 0;
  modify (fun st => set_unclaimed (st.(overall_thread_cache_size_) - claimed) st) ;;
  modify (set_per_thread space).

Definition set_overall_thread_cache_size (new_size : Z) : MT unit :=
  st ← get_state;
  let min_size := st.(min_per_thread_cache_size_) in
  let new_size := if new_size <? min_size then min_size else new_size in
  let new_size := if new_size >? Z.shiftl 1 30 then Z.shiftl 1 30 else new_size in
  modify (set_overall new_size) ;;
  RecomputePerThreadCacheSize.

(** ** Statistics *)

(** Bytes, and objects of each class, in the caches from [h] on. *)
Fixpoint stats_loop (fuel : nat) (tcs : gmap Z ThreadCache) (h total : Z) (count : Z -> Z) : result (Z * (Z -> Z)) :=
  match fuel with
  | O => NoFuel
  | S fuel =>
      if h =? 0 then Ok (total, count)
      else
        match tcs !! h with
        | Some t => stats_loop fuel tcs t.(next_) (u64 (total + u64 t.(size_)))
                      (fun cl => u64 (count cl + u64 (freelist_length t cl)))
        | None => Crash
        end
  end.
Definition GetThreadStats (st : Caches) (total : Z) (count : Z -> Z) : result (Z * (Z -> Z)) :=
  stats_loop (S (size st.(tcs))) st.(tcs) st.(thread_heaps_) total count.

(** The static members before the first thread. *)
Definition Caches_new (h : Heap) : Caches :=
  mkCaches h ∅ 0 0 0 kMinThreadCacheSize kDefaultOverallThreadCacheSize kMaxThreadCacheSize
    kDefaultOverallThreadCacheSize.
End Caches.
