(* ===== verification/CachePtr.v ===== *)
(** How a thread finds its cache: [src/thread_cache_ptr.h] and [src/thread_cache_ptr.cc],
    in a build with fast thread-local storage and without emergency malloc.

    A thread's cache is in its [fast_path_cache] once the storage key exists; before, and
    while the key is being set, it is in the hash table of [SlowTLS].  The functions run
    in an initialised process ([InitModule] has returned), so the calls of [InitModule]
    return at once.  [SetTlsValue] of the C library is taken not to call [malloc]. *)
From Stdlib Require Import Floats.SpecFloat.
From S2P Require Import Prelude SizeMap Sampler MallocHook LinkedList Span PackedCache PageMap SysEnv PageHeap CentralFreeList ThreadCache.

(** A thread: the address of its [tls_data_], which identifies it, and the addresses of
    two local variables. *)
Record Thread := mkThread { tls_data : Z; seed_addr : Z; registration_addr : Z }.

(** [SlowTLS::Entry] at [e_addr]. *)
Record Entry := mkEntry {
  e_addr : Z;
  e_cache : Z;
  emergency_malloc : bool;
  was_allocated : bool;
  thread_id : Z
}.

Definition kTableSize : Z := 257.
Definition sizeof_Entry : Z := 40.

(** What a hook, a new handler and the application are told. *)
Inductive event :=
| NewHookCall (hook p size : Z)
| DeleteHookCall (hook p : Z)
| HandlerCall.

(** A [StackTrace] object: its requested size and its frames. *)
Record StackTrace := mkStackTrace { st_size : Z; st_stack : list Z }.

Section CachePtr.
Context {W : Type} {E : Env W} {P : PageMap W} {C : CacheEnv W}.
Context (free_ central_cache_ : Z) (sm : SizeMap).
Context (sample_parameter : Z) (log2 : spec_float -> spec_float) (log_2 : spec_float).
(** [std::hash<uintptr_t>] *)
Context (hash : Z -> Z).

(** The state of the allocator: the caches, the thread-local variables, the hash table
    of [SlowTLS], and the static variables of [tcmalloc.cc]. *)
Record Front := mkFront {
  thread_caches : Caches;
  key_ready : bool;
  fast_path_cache : gmap Z Z;
  tls_value : gmap Z Z;
  hash_table_ : gmap Z (list Entry);
  tc_new_mode : Z;
  new_hooks_ : HookList;
  delete_hooks_ : HookList;
  stack_traces : gmap Z StackTrace;
  extra_bytes_released_ : Z;
  tc_pagesize : Z;
  trace : list event
}.

Definition upd_caches (f : Caches -> Caches) (st : Front) : Front :=
  mkFront (f st.(thread_caches)) st.(key_ready) st.(fast_path_cache) st.(tls_value) st.(hash_table_) st.(tc_new_mode)
    st.(new_hooks_) st.(delete_hooks_) st.(stack_traces) st.(extra_bytes_released_) st.(tc_pagesize) st.(trace).
Definition upd_tls (f g : gmap Z Z -> gmap Z Z) (st : Front) : Front :=
  mkFront st.(thread_caches) st.(key_ready) (f st.(fast_path_cache)) (g st.(tls_value)) st.(hash_table_) st.(tc_new_mode)
    st.(new_hooks_) st.(delete_hooks_) st.(stack_traces) st.(extra_bytes_released_) st.(tc_pagesize) st.(trace).
Definition upd_hash_table (f : gmap Z (list Entry) -> gmap Z (list Entry)) (st : Front) : Front :=
  mkFront st.(thread_caches) st.(key_ready) st.(fast_path_cache) st.(tls_value) (f st.(hash_table_)) st.(tc_new_mode)
    st.(new_hooks_) st.(delete_hooks_) st.(stack_traces) st.(extra_bytes_released_) st.(tc_pagesize) st.(trace).
Definition set_key_ready (st : Front) : Front :=
  mkFront st.(thread_caches) true st.(fast_path_cache) st.(tls_value) st.(hash_table_) st.(tc_new_mode)
    st.(new_hooks_) st.(delete_hooks_) st.(stack_traces) st.(extra_bytes_released_) st.(tc_pagesize) st.(trace).

Abbreviation MF := (M Front).

(** A call of the thread caches. *)
Definition on_caches {A} (m : M Caches A) : MF A := fun st =>
  '(a, c) ← m st.(thread_caches);
  Ok (a, upd_caches (fun _ => c) st).

(** ** [SlowTLS] *)

Definition ht_place (th : Thread) : Z := hash th.(tls_data) mod kTableSize.
Definition bucket (st : Front) (place : Z) : list Entry := default [] (st.(hash_table_) !! place).

(** [for (Entry* entry = *ht_place; entry != nullptr; entry = entry->next)] *)
Fixpoint lookup_entry (id : Z) (l : list Entry) : option Entry :=
  match l with
  | [] => None
  | e :: l => if e.(thread_id) =? id then Some e else lookup_entry id l
  end.
Definition Lookup (th : Thread) (st : Front) : option Entry :=
  lookup_entry th.(tls_data) (bucket st (ht_place th)).

Definition RegisterEntry (th : Thread) (e : Entry) : MF unit :=
  modify (upd_hash_table (fun t => <[ht_place th := e :: default [] (t !! ht_place th)]> t)).
Definition UnregisterEntry (th : Thread) (addr : Z) : MF unit :=
  modify (upd_hash_table (fun t =>
    <[ht_place th := filter (fun e => e.(e_addr) <> addr) (default [] (t !! ht_place th))]> t)).

(** The cache of the entry when it can move to the thread-local variables, or 0. *)
Definition TryToReleaseCacheFromAllocation (th : Thread) (e : Entry) : MF Z :=
  st ← get_state;
  if e.(was_allocated) && st.(key_ready) then
    UnregisterEntry th e.(e_addr) ;;
    mret e.(e_cache)
  else mret 0.

(** ** [ThreadCachePtr] *)

Definition GetIfPresent (th : Thread) (st : Front) : Z := default 0 (st.(fast_path_cache) !! th.(tls_data)).

(** [ThreadCache::NewHeap()] *)
Definition new_cache (th : Thread) : MF Z :=
  on_caches (NewHeap sm sample_parameter log2 log_2 th.(seed_addr)).

(** The cache, and whether emergency malloc is on. *)
Definition GetReallySlow (th : Thread) : MF (Z * bool) :=
  st ← get_state;
  match Lookup th st with
  | Some e => mret (e.(e_cache), e.(emergency_malloc))
  | None =>
      cache ← new_cache th;
      memory ← on_caches (on_world (MetaDataAlloc sizeof_Entry));
      if memory =? 0 then crash   (* the constructor writes to it *)
      else
        RegisterEntry th (mkEntry memory cache false true th.(tls_data)) ;;
        mret (cache, false)
  end.

(** From [SlowTLS::Entry registration{cache}] on. *)
Definition set_thread_cache (th : Thread) (cache : Z) : MF (Z * bool) :=
  RegisterEntry th (mkEntry th.(registration_addr) cache false false th.(tls_data)) ;;
  modify (upd_tls (fun f => f) (<[th.(tls_data) := cache]>)) ;;
  UnregisterEntry th th.(registration_addr) ;;
  modify (upd_tls (<[th.(tls_data) := cache]>) (fun v => v)) ;;
  mret (cache, false).

Definition GetSlow (th : Thread) : MF (Z * bool) :=
  st ← get_state;
  match Lookup th st with
  | Some e =>
      if e.(emergency_malloc) then mret (0, true)
      else
        cache ← TryToReleaseCacheFromAllocation th e;
        if cache =? 0 then mret (e.(e_cache), false)
        else set_thread_cache th cache
  | None =>
      if negb st.(key_ready) then GetReallySlow th
      else
        cache ← new_cache th;
        set_thread_cache th cache
  end.

Definition Grab (th : Thread) : MF (Z * bool) :=
  st ← get_state;
  let cache := GetIfPresent th st in
  if negb (cache =? 0) then mret (cache, false) else GetSlow th.

(** [ClearCacheTLS] and [SetTlsValue(tls_key_, nullptr)] *)
Definition ClearCacheTLS (th : Thread) : MF unit := modify (upd_tls (delete th.(tls_data)) (fun v => v)).

Definition ReleaseAndClear (th : Thread) : MF Z :=
  st ← get_state;
  let cache := GetIfPresent th st in
  (if negb (cache =? 0) then
     ClearCacheTLS th ;;
     modify (upd_tls (fun f => f) (delete th.(tls_data)))
   else skip) ;;
  mret cache.

(** [CreateTlsKey] succeeds. *)
Definition InitThreadCachePtrLate : MF unit := modify set_key_ready.

(** The end of a thread: the C library clears the value of the key and, unless it was
    null, calls the destructor of the key on it. *)
Definition thread_exit (th : Thread) : MF unit :=
  st ← get_state;
  let ptr := default 0 (st.(tls_value) !! th.(tls_data)) in
  modify (upd_tls (fun f => f) (delete th.(tls_data))) ;;
  if negb (ptr =? 0) then
    ClearCacheTLS th ;;
    on_caches (DeleteCache free_ central_cache_ sm ptr)
  else skip.
End CachePtr.
