(* ===== verification/FrontEnd.v ===== *)
(** The allocation functions: [src/tcmalloc.cc], in the default build (sampling compiled
    in, no debug assertions, no report of large allocations, no emergency malloc).

    The functions run in an initialised process; a function that an exception can leave
    returns an [outcome] (for a function declared [PERFTOOLS_NOTHROW], [Throw] is the end
    of the process by [std::terminate]). *)
From Stdlib Require Import Floats.SpecFloat.
From S2P Require Import Prelude SizeMap Sampler MallocHook LinkedList Bytes Span PackedCache PageMap SysEnv PageHeap.
From S2P Require Import CentralFreeList ThreadCache CachePtr.

Definition EINVAL : Z := 22.

Inductive exn := bad_alloc | other_exception.
Inductive outcome := Ret (p : Z) | Throw (e : exn).

(** How a call of the new handler ends. *)
Inductive handler_end := handler_returns | handler_throws (e : exn).

(** The handlers the templates are instantiated with. *)
Inductive oom_handler := cpp_throw_oom | cpp_nothrow_oom | malloc_oom.

(** ** Sizes *)

Section Sizes.
Context {W : Type} {P : PageMap W} (sm : SizeMap).

Definition align_size_up (size align : Z) : Z :=
  let new_size := Z.land (u64 (size + align - 1)) (u64 (Z.lnot (align - 1))) in
  if new_size =? 0 then (if size =? 0 then align else size) else new_size.

Definition size_class_with_alignment (size align : Z) : option Z :=
  if align >? kPageSize then None
  else GetSizeClass sm (align_size_up size align).

Definition nallocx_slow (h : PageHeap) (size flags : Z) : Z :=
  let align := u64 (Z.shiftl 1 (Z.land flags 63)) in
  match size_class_with_alignment size align with
  | Some cl => ByteSizeForClass sm cl
  | None => u64 (Z.shiftl (RoundUpSize h (pages size)) kPageShift)
  end.

Definition tc_nallocx (h : PageHeap) (size flags : Z) : Z :=
  if negb (flags =? 0) then nallocx_slow h size flags
  else
    match GetSizeClass sm size with
    | Some cl => if negb (cl =? 0) then ByteSizeForClass sm cl else nallocx_slow h size 0
    | None => nallocx_slow h size 0
    end.
End Sizes.

Section FrontEnd.
Context {W : Type} {E : Env W} {P : PageMap W} {C : CacheEnv W}.
(** The addresses of [PageHeap::free_], [Static::central_cache_] and
    [Static::sampled_objects_], and the size map. *)
Context (free_ central_cache_ sampled_objects_ : Z) (sm : SizeMap).
Context (sample_parameter : Z) (log2 : spec_float -> spec_float) (log_2 : spec_float).
Context (hash : Z -> Z).
(** [tcmalloc::GrabBacktrace] in a thread. *)
Context (GrabBacktrace : Thread -> list Z).
(** [std::get_new_handler()]: none, or what the handler does. *)
Context (get_new_handler : Front -> option (M Front handler_end)).
(** The rounds [handle_oom] may take. *)
Context (fuel : nat).

Abbreviation MF := (M Front).
Abbreviation Grab := (Grab sm sample_parameter log2 log_2 hash).

(** The parts of the state. *)
Definition heap_of (st : Front) : PageHeap := st.(thread_caches).(heap).(pageheap).
Definition memory_of (st : Front) : mem := st.(thread_caches).(heap).(memory).
Definition on_pageheap {A} (m : M PageHeap A) : MF A := on_caches (on_central (on_heap m)).
Definition set_memory (m : mem) : MF unit := on_caches (modify_mem m).
Definition set_errno (v : Z) : MF unit := on_pageheap (modify (upd_errno (fun _ => v))).

Definition upd_stack_traces (f : gmap Z StackTrace -> gmap Z StackTrace) (st : Front) : Front :=
  mkFront st.(thread_caches) st.(key_ready) st.(fast_path_cache) st.(tls_value) st.(hash_table_) st.(tc_new_mode)
    st.(new_hooks_) st.(delete_hooks_) (f st.(stack_traces)) st.(extra_bytes_released_) st.(tc_pagesize) st.(trace).
Definition upd_new_mode (v : Z) (st : Front) : Front :=
  mkFront st.(thread_caches) st.(key_ready) st.(fast_path_cache) st.(tls_value) st.(hash_table_) v
    st.(new_hooks_) st.(delete_hooks_) st.(stack_traces) st.(extra_bytes_released_) st.(tc_pagesize) st.(trace).
Definition upd_tc_pagesize (v : Z) (st : Front) : Front :=
  mkFront st.(thread_caches) st.(key_ready) st.(fast_path_cache) st.(tls_value) st.(hash_table_) st.(tc_new_mode)
    st.(new_hooks_) st.(delete_hooks_) st.(stack_traces) st.(extra_bytes_released_) v st.(trace).
Definition add_events (l : list event) (st : Front) : Front :=
  mkFront st.(thread_caches) st.(key_ready) st.(fast_path_cache) st.(tls_value) st.(hash_table_) st.(tc_new_mode)
    st.(new_hooks_) st.(delete_hooks_) st.(stack_traces) st.(extra_bytes_released_) st.(tc_pagesize) (st.(trace) ++ l).

(** ** Hooks *)

Definition InvokeNewHook (p size : Z) : MF unit :=
  st ← get_state;
  if negb (hooks_empty st.(new_hooks_)) then
    modify (add_events ((fun hook => NewHookCall hook p size) <$> invoked_hooks st.(new_hooks_)))
  else skip.
Definition InvokeDeleteHook (p : Z) : MF unit :=
  st ← get_state;
  if negb (hooks_empty st.(delete_hooks_)) then
    modify (add_events ((fun hook => DeleteHookCall hook p) <$> invoked_hooks st.(delete_hooks_)))
  else skip.

(** The hook runs only where no exception passes. *)
Definition hooked_result (r : outcome) (size : Z) : MF outcome :=
  match r with
  | Ret p => InvokeNewHook p size ;; mret (Ret p)
  | Throw e => mret (Throw e)
  end.

(** ** Spans as results *)

Definition SpanToMallocResult (span : Z) : MF Z :=
  s ← on_pageheap (deref span);
  mret (u64 (Z.shiftl s.(start) kPageShift)).

Definition DoSampledAllocation (th : Thread) (size : Z) : MF Z :=
  let tmp := mkStackTrace size (GrabBacktrace th) in
  span ← on_pageheap (New free_ (pages (if size =? 0 then 1 else size)));
  if span =? 0 then mret 0
  else
    stack ← on_pageheap (call stacktrace_New);
    (if negb (stack =? 0) then
       modify (upd_stack_traces (<[stack := tmp]>)) ;;
       on_pageheap (store span (fun s => set_objects stack (set_sample true s))) ;;
       on_pageheap (modify (upd_span_links (fun L => DLL_Prepend L sampled_objects_ span)))
     else skip) ;;
    SpanToMallocResult span.

(** ** Running out of memory *)

(** [for (;;)]: [retry] is [retry_fn(retry_arg)]. *)
Fixpoint oom_loop (n : nat) (retry : MF Z) (nothrow : bool) : MF outcome :=
  match n with
  | O => no_fuel
  | S n =>
      st ← get_state;
      match get_new_handler st with
      | None => mret (if nothrow then Ret 0 else Throw bad_alloc)
      | Some nh =>
          modify (add_events [HandlerCall]) ;;
          e ← nh;
          match e with
          | handler_throws bad_alloc => mret (if nothrow then Ret 0 else Throw bad_alloc)
          | handler_throws e => mret (Throw e)
          | handler_returns =>
              rv ← retry;
              if negb (rv =? 0) then mret (Ret rv) else oom_loop n retry nothrow
          end
      end
  end.

Definition handle_oom (retry : MF Z) (from_operator nothrow : bool) : MF outcome :=
  set_errno ENOMEM ;;
  st ← get_state;
  if negb from_operator && (st.(tc_new_mode) =? 0) then mret (Ret 0)
  else oom_loop fuel retry nothrow.

(** ** [malloc] *)

Definition sample_allocation (cache k : Z) : MF bool :=
  on_caches (SampleAllocation sample_parameter log2 log_2 cache k).
Definition record_allocation_fast (cache k : Z) : MF bool := on_caches (TC_TryRecordAllocationFast cache k).
Definition cache_allocate (cache size cl : Z) : MF (Z + Z) :=
  on_caches (Allocate free_ central_cache_ sm cache size cl).

Definition do_malloc_pages (th : Thread) (heap size : Z) : MF Z :=
  let num_pages := pages size in
  sampled ← sample_allocation heap size;
  if (sampled : bool) then DoSampledAllocation th size
  else
    span ← on_pageheap (New free_ num_pages);
    if span =? 0 then mret 0 else SpanToMallocResult span.

(** With [nop_oom_handler]. *)
Definition do_malloc (th : Thread) (size : Z) : MF Z :=
  cache_ptr ← Grab th;
  let cache := cache_ptr.1 in
  match GetSizeClass sm size with
  | None => do_malloc_pages th cache size
  | Some cl =>
      let allocated_size := class_to_size sm cl in
      sampled ← sample_allocation cache allocated_size;
      if (sampled : bool) then DoSampledAllocation th size
      else
        r ← cache_allocate cache allocated_size cl;
        match r with
        | inl p => mret p
        | inr _ => mret 0
        end
  end.

Definition do_malloc_or_cpp_alloc (th : Thread) (size : Z) : MF outcome :=
  rv ← do_malloc th size;
  if negb (rv =? 0) then mret (Ret rv)
  else handle_oom (do_malloc th size) false true.

Definition run_oom (th : Thread) (oom : oom_handler) (size : Z) : MF outcome :=
  match oom with
  | cpp_throw_oom => handle_oom (do_malloc th size) true false
  | cpp_nothrow_oom => handle_oom (do_malloc th size) true true
  | malloc_oom => handle_oom (do_malloc th size) false true
  end.

Definition do_allocate_full (th : Thread) (oom : oom_handler) (size : Z) : MF outcome :=
  p ← do_malloc th size;
  r ← (if p =? 0 then run_oom th oom size else mret (Ret p));
  hooked_result r size.

Definition malloc_fast_path (th : Thread) (oom : oom_handler) (size : Z) : MF outcome :=
  st ← get_state;
  if negb (hooks_empty st.(new_hooks_)) then do_allocate_full th oom size
  else
    let cache := GetIfPresent th st in
    if cache =? 0 then do_allocate_full th oom size
    else
      match GetSizeClass sm size with
      | None => do_allocate_full th oom size
      | Some cl =>
          let allocated_size := ByteSizeForClass sm cl in
          recorded ← record_allocation_fast cache allocated_size;
          if negb recorded then do_allocate_full th oom size
          else
            r ← cache_allocate cache allocated_size cl;
            match r with
            | inl p => mret (Ret p)
            | inr n => run_oom th oom n
            end
      end.

(** ** [calloc] *)

Definition do_calloc (th : Thread) (n elem_size : Z) : MF outcome :=
  let size := u64 (n * elem_size) in
  if negb (elem_size =? 0) && negb (size / elem_size =? n) then mret (Ret 0)
  else
    r ← do_malloc_or_cpp_alloc th size;
    match r with
    | Ret result =>
        (if negb (result =? 0) then
           st ← get_state;
           let total_size := tc_nallocx sm (heap_of st) size 0 in
           set_memory (memset (memory_of st) result 0 total_size)
         else skip) ;;
        mret (Ret result)
    | Throw e => mret (Throw e)
    end.

(** ** [free] *)

Definition InvalidFree (ptr : Z) : MF unit := crash.
Definition free_null_or_invalid (ptr : Z) (invalid_free_fn : Z -> MF unit) : MF unit :=
  if negb (ptr =? 0) then invalid_free_fn ptr else skip.

Definition do_free_pages (span ptr : Z) : MF unit :=
  s ← on_pageheap (deref span);
  (fun st => check (bool_decide (s.(location) = IN_USE)) ;; Ok (tt, st)) ;;
  (fun st => check (u64 (Z.shiftl s.(start) kPageShift) =? ptr) ;; Ok (tt, st)) ;;
  (if s.(sample) then
     on_pageheap (modify (upd_span_links (fun L => DLL_Remove L span))) ;;
     on_pageheap (call (fun w => Ok (tt, stacktrace_Delete s.(objects) w))) ;;
     modify (upd_stack_traces (delete s.(objects))) ;;
     on_pageheap (store span (set_objects 0))
   else skip) ;;
  on_pageheap (DeleteLocked free_ span).

Definition do_free_with_callback (th : Thread) (ptr : Z) (invalid_free_fn : Z -> MF unit)
    (use_hint : bool) (size_hint : Z) : MF unit :=
  st ← get_state;
  let heap := GetIfPresent th st in
  let p := Z.shiftr ptr kPageShift in
  let finish cl :=
    if negb (heap =? 0) then on_caches (Deallocate free_ central_cache_ sm heap ptr cl)
    else
      st ← get_state;
      set_memory (SLL_SetNext (memory_of st) ptr 0) ;;
      on_caches (on_central (InsertRange free_ central_cache_ sm cl ptr ptr 1)) in
  match (if use_hint then GetSizeClass sm size_hint else None) with
  | Some cl => finish cl
  | None =>
      match (if use_hint then None else TryGetSizeClass (heap_of st) p) with
      | Some cl => finish cl
      | None =>
          let span := GetDescriptor (heap_of st) p in
          if span =? 0 then free_null_or_invalid ptr invalid_free_fn
          else
            s ← on_pageheap (deref span);
            let cl := s.(sizeclass) in
            if cl =? 0 then do_free_pages span ptr
            else
              (if negb use_hint then on_pageheap (SetCachedSizeClass p cl) else skip) ;;
              finish cl
      end
  end.

Definition do_free (th : Thread) (ptr : Z) : MF unit := do_free_with_callback th ptr InvalidFree false 0.

(** ** The size of a block *)

Definition GetSizeWithCallback (ptr : Z) (invalid_getsize_fn : Z -> MF Z) : MF Z :=
  if ptr =? 0 then mret 0
  else
    st ← get_state;
    let p := Z.shiftr ptr kPageShift in
    match TryGetSizeClass (heap_of st) p with
    | Some cl => mret (ByteSizeForClass sm cl)
    | None =>
        let span := GetDescriptor (heap_of st) p in
        if span =? 0 then invalid_getsize_fn ptr
        else
          s ← on_pageheap (deref span);
          if negb (s.(sizeclass) =? 0) then mret (ByteSizeForClass sm s.(sizeclass))
          else if s.(sample) then
            match st.(stack_traces) !! s.(objects) with
            | Some t => mret (tc_nallocx sm (heap_of st) t.(st_size) 0)
            | None => crash
            end
          else mret (u64 (Z.shiftl s.(length_) kPageShift))
    end.

Definition InvalidGetAllocatedSize (ptr : Z) : MF Z := crash.

(** ** [realloc] *)

Definition do_realloc_with_callback (th : Thread) (old_ptr new_size : Z) (invalid_free_fn : Z -> MF unit)
    (invalid_get_size_fn : Z -> MF Z) : MF outcome :=
  currently_usable ← GetSizeWithCallback old_ptr (fun _ => mret 0);
  st ← get_state;
  if tc_nallocx sm (heap_of st) new_size 0 =? currently_usable then
    InvokeDeleteHook old_ptr ;;
    InvokeNewHook old_ptr new_size ;;
    mret (Ret old_ptr)
  else
    r ← do_malloc_or_cpp_alloc th new_size;
    match r with
    | Throw e => mret (Throw e)
    | Ret new_ptr =>
        if new_ptr =? 0 then mret (Ret 0)
        else
          currently_usable ← (if currently_usable =? 0 then invalid_get_size_fn old_ptr else mret currently_usable);
          InvokeNewHook new_ptr new_size ;;
          st ← get_state;
          set_memory (memcpy (memory_of st) new_ptr old_ptr (Z.min currently_usable new_size)) ;;
          InvokeDeleteHook old_ptr ;;
          do_free_with_callback th old_ptr invalid_free_fn false 0 ;;
          mret (Ret new_ptr)
    end.

(** ** Aligned blocks *)

Definition do_memalign_pages (align size : Z) : MF Z :=
  if u64 (size + align) <? size then mret 0
  else
    let size := if size =? 0 then 1 else size in
    span ← on_pageheap (NewAligned free_ (pages size) (pages align));
    if span =? 0 then mret 0 else SpanToMallocResult span.

Definition memalign_pages (align size : Z) (from_operator nothrow : bool) : MF outcome :=
  rv ← do_memalign_pages align size;
  r ← (if rv =? 0 then handle_oom (do_memalign_pages align size) from_operator nothrow else mret (Ret rv));
  hooked_result r size.

Definition memalign_fast_path (th : Thread) (oom : oom_handler) (align size : Z) : MF outcome :=
  if align >? kPageSize then
    match oom with
    | cpp_throw_oom => memalign_pages align size true false
    | cpp_nothrow_oom => memalign_pages align size true true
    | malloc_oom => memalign_pages align size false true
    end
  else malloc_fast_path th oom (align_size_up size align).

(** ** Exported functions *)

Definition tc_set_new_mode (flag : Z) : MF Z :=
  st ← get_state;
  modify (upd_new_mode flag) ;;
  mret st.(tc_new_mode).
Definition tc_query_new_mode : MF Z := st ← get_state; mret st.(tc_new_mode).

Definition invoke_hooks_and_free (th : Thread) (ptr : Z) : MF unit :=
  InvokeDeleteHook ptr ;;
  do_free th ptr.
Definition free_fast_path (th : Thread) (ptr : Z) : MF unit :=
  st ← get_state;
  if negb (hooks_empty st.(delete_hooks_)) then invoke_hooks_and_free th ptr else do_free th ptr.

Definition tc_malloc (th : Thread) (size : Z) : MF outcome := malloc_fast_path th malloc_oom size.
Definition tc_free (th : Thread) (ptr : Z) : MF unit := free_fast_path th ptr.
Definition tc_free_sized (th : Thread) (ptr size : Z) : MF unit :=
  st ← get_state;
  if negb (hooks_empty st.(delete_hooks_)) then invoke_hooks_and_free th ptr
  else if Z.land ptr (kPageSize - 1) =? 0 then tc_free th ptr
  else do_free_with_callback th ptr InvalidFree true size.
Definition tc_calloc (th : Thread) (n elem_size : Z) : MF outcome :=
  r ← do_calloc th n elem_size;
  hooked_result r (u64 (n * elem_size)).
Definition tc_realloc (th : Thread) (old_ptr new_size : Z) : MF outcome :=
  if old_ptr =? 0 then
    r ← do_malloc_or_cpp_alloc th new_size;
    hooked_result r new_size
  else if new_size =? 0 then
    InvokeDeleteHook old_ptr ;;
    do_free th old_ptr ;;
    mret (Ret 0)
  else do_realloc_with_callback th old_ptr new_size InvalidFree (fun _ => crash).
Definition tc_new (th : Thread) (size : Z) : MF outcome := malloc_fast_path th cpp_throw_oom size.
Definition tc_new_nothrow (th : Thread) (size : Z) : MF outcome := malloc_fast_path th cpp_nothrow_oom size.
Definition tc_delete_nothrow (th : Thread) (p : Z) : MF unit :=
  st ← get_state;
  if negb (hooks_empty st.(delete_hooks_)) then invoke_hooks_and_free th p else do_free th p.
Definition tc_memalign (th : Thread) (align size : Z) : MF outcome := memalign_fast_path th malloc_oom align size.

(** The error number, and what is stored through [result_ptr]. *)
Definition tc_posix_memalign (th : Thread) (align size : Z) : MF (Z * option Z + exn) :=
  if negb (align mod 8 =? 0) || negb (Z.land align (align - 1) =? 0) || (align =? 0) then mret (inl (EINVAL, None))
  else
    r ← tc_memalign th align size;
    match r with
    | Throw e => mret (inr e)
    | Ret result => if result =? 0 then mret (inl (ENOMEM, None)) else mret (inl (0, Some result))
    end.
Definition tc_new_aligned (th : Thread) (size align : Z) : MF outcome := memalign_fast_path th cpp_throw_oom align size.
Definition tc_new_aligned_nothrow (th : Thread) (size align : Z) : MF outcome :=
  memalign_fast_path th cpp_nothrow_oom align size.
Definition tc_delete_aligned (th : Thread) (p : Z) : MF unit := free_fast_path th p.

(** [getpagesize()] of the system. *)
Context (getpagesize : Z).
Definition init_pagesize : MF unit :=
  st ← get_state;
  if st.(tc_pagesize) =? 0 then modify (upd_tc_pagesize getpagesize) else skip.
Definition tc_valloc (th : Thread) (size : Z) : MF outcome :=
  init_pagesize ;;
  st ← get_state;
  tc_memalign th st.(tc_pagesize) size.
Definition tc_pvalloc (th : Thread) (size : Z) : MF outcome :=
  init_pagesize ;;
  st ← get_state;
  let size := if size =? 0 then st.(tc_pagesize) else size in
  let size := Z.land (u64 (size + st.(tc_pagesize) - 1)) (u64 (Z.lnot (st.(tc_pagesize) - 1))) in
  tc_memalign th st.(tc_pagesize) size.
Definition tc_malloc_skip_new_handler (th : Thread) (size : Z) : MF Z :=
  result ← do_malloc th size;
  InvokeNewHook result size ;;
  mret result.
Definition tc_malloc_size (ptr : Z) : MF Z :=
  if ptr =? 0 then mret 0 else GetSizeWithCallback ptr InvalidGetAllocatedSize.
End FrontEnd.
