(* ===== verification/MallocExt.v ===== *)
(** The inspection and tuning functions: [ExtractStats], [IterateOverRanges],
    [TCMallocImplementation] and [do_mallinfo] of [src/tcmalloc.cc].

    The flag [FLAGS_tcmalloc_sample_parameter] is an argument of the model, so the function
    that sets it returns its new value. *)
From Stdlib Require Import Floats.SpecFloat Strings.String.
From S2P Require Import Prelude SizeMap Sampler MallocHook LinkedList Bytes Span PackedCache PageMap SysEnv PageHeap.
From S2P Require Import CentralFreeList ThreadCache CachePtr FrontEnd.

(** [tcmalloc::metadata_system_bytes()] of the surroundings. *)
Class MetaStats (W : Type) := metadata_system_bytes : W -> Z.

Record TCMallocStats := mkTCMallocStats {
  thread_bytes : Z;
  central_bytes : Z;
  transfer_bytes : Z;
  metadata_bytes : Z;
  stats_pageheap : Stats
}.

(** [struct mallinfo]: the fields that are filled in. *)
Record Mallinfo := mkMallinfo { arena : Z; fsmblks : Z; fordblks : Z; uordblks : Z }.

(** [MallocExtension::FreeListInfo] *)
Record FreeListInfo := mkFreeListInfo {
  min_object_size : Z;
  max_object_size : Z;
  total_bytes_free : Z;
  fli_type : string
}.

Inductive Ownership := kOwned | kNotOwned.

Definition kNumRanges : nat := 16.

Section MallocExt.
Context {W : Type} {E : Env W} {P : PageMap W} {C : CacheEnv W} {MS : MetaStats W}.
Context (free_ central_cache_ sampled_objects_ : Z) (sm : SizeMap).
Context (sample_parameter : Z) (log2 : spec_float -> spec_float) (log_2 : spec_float).
Context (hash : Z -> Z) (GrabBacktrace : Thread -> list Z).

Abbreviation MF := (M Front).

Definition stats_of (st : Front) : Stats := (heap_of st).(stats_).
Definition central_of (st : Front) : Heap := st.(thread_caches).(heap).

(** ** Statistics *)

(** [for (int cl = 0; cl < Static::num_size_classes(); ++cl)] *)
Fixpoint extract_classes (classes : list Z) (h : Heap) (central transfer : Z) (count : Z -> Z) : Z * Z * (Z -> Z) :=
  match classes with
  | [] => (central, transfer, count)
  | cl :: classes =>
      let length := CFL_length h cl in
      let tc_length := tc_length sm h cl in
      let cache_overhead := OverheadBytes sm h cl in
      let size := ByteSizeForClass sm cl in
      extract_classes classes h (u64 (central + (size * u64 length + cache_overhead)))
        (u64 (transfer + size * u64 tc_length))
        (fun c => if c =? cl then u64 (i32 (length + tc_length)) else count c)
  end.

(** The statistics and [class_count]. *)
Definition ExtractStats (st : Front) : result (TCMallocStats * (Z -> Z)) :=
  let '(central, transfer, count) :=
    extract_classes (seqZ 0 (num_size_classes sm)) (central_of st) 0 0 (fun _ => 0) in
  '(threads, count) ← GetThreadStats st.(thread_caches) 0 count;
  Ok (mkTCMallocStats threads central transfer (metadata_system_bytes (heap_of st).(world)) (stats_of st), count).

(** [system_bytes - thread_bytes - central_bytes - transfer_bytes - free_bytes - unmapped_bytes] *)
Definition allocated_bytes (s : TCMallocStats) : Z :=
  let p := s.(stats_pageheap) in
  u64 (p.(system_bytes) - s.(thread_bytes) - s.(central_bytes) - s.(transfer_bytes) - p.(free_bytes) - p.(unmapped_bytes)).

(** [conv] is the conversion to the type of the fields: [int] or [size_t]. *)
Definition do_mallinfo (conv : Z -> Z) (st : Front) : result Mallinfo :=
  '(s, _) ← ExtractStats st;
  let p := s.(stats_pageheap) in
  Ok (mkMallinfo (conv p.(system_bytes)) (conv (u64 (s.(thread_bytes) + s.(central_bytes) + s.(transfer_bytes))))
        (conv (u64 (p.(free_bytes) + p.(unmapped_bytes)))) (conv (allocated_bytes s))).
Definition tc_mallinfo : Front -> result Mallinfo := do_mallinfo i32.
Definition tc_mallinfo2 : Front -> result Mallinfo := do_mallinfo u64.

Definition extracted (f : TCMallocStats -> Z) (st : Front) : result (option Z) :=
  '(s, _) ← ExtractStats st;
  Ok (Some (f s)).

Definition GetNumericProperty (name : string) (st : Front) : result (option Z) :=
  let named (s : string) := String.eqb name s in
  let p := stats_of st in
  if named "generic.current_allocated_bytes"%string then extracted allocated_bytes st
  else if named "generic.heap_size"%string then extracted (fun s => s.(stats_pageheap).(system_bytes)) st
  else if named "generic.total_physical_bytes"%string then
    extracted (fun s => u64 (s.(stats_pageheap).(system_bytes) + s.(metadata_bytes) - s.(stats_pageheap).(unmapped_bytes))) st
  else if named "tcmalloc.slack_bytes"%string then Ok (Some (u64 (p.(free_bytes) + p.(unmapped_bytes))))
  else if named "tcmalloc.central_cache_free_bytes"%string then extracted central_bytes st
  else if named "tcmalloc.transfer_cache_free_bytes"%string then extracted transfer_bytes st
  else if named "tcmalloc.thread_cache_free_bytes"%string then extracted thread_bytes st
  else if named "tcmalloc.pageheap_free_bytes"%string then Ok (Some p.(free_bytes))
  else if named "tcmalloc.pageheap_unmapped_bytes"%string then Ok (Some p.(unmapped_bytes))
  else if named "tcmalloc.pageheap_committed_bytes"%string then Ok (Some p.(committed_bytes))
  else if named "tcmalloc.pageheap_scavenge_count"%string then Ok (Some p.(scavenge_count))
  else if named "tcmalloc.pageheap_commit_count"%string then Ok (Some p.(commit_count))
  else if named "tcmalloc.pageheap_total_commit_bytes"%string then Ok (Some p.(total_commit_bytes))
  else if named "tcmalloc.pageheap_decommit_count"%string then Ok (Some p.(decommit_count))
  else if named "tcmalloc.pageheap_total_decommit_bytes"%string then Ok (Some p.(total_decommit_bytes))
  else if named "tcmalloc.pageheap_reserve_count"%string then Ok (Some p.(reserve_count))
  else if named "tcmalloc.pageheap_total_reserve_bytes"%string then Ok (Some p.(total_reserve_bytes))
  else if named "tcmalloc.max_total_thread_cache_bytes"%string then Ok (Some st.(thread_caches).(overall_thread_cache_size_))
  else if named "tcmalloc.min_per_thread_cache_bytes"%string then Ok (Some st.(thread_caches).(min_per_thread_cache_size_))
  else if named "tcmalloc.current_total_thread_cache_bytes"%string then extracted thread_bytes st
  else if named "tcmalloc.aggressive_memory_decommit"%string then
    Ok (Some (if (heap_of st).(aggressive_decommit_) then 1 else 0))
  else if named "tcmalloc.heap_limit_mb"%string then Ok (Some (u64 (heap_of st).(heap_limit_mb)))
  else if named "tcmalloc.impl.thread_cache_count"%string then Ok (Some (u64 st.(thread_caches).(thread_heap_count_)))
  else if named "tcmalloc.sample_parameter"%string then Ok (Some (u64 sample_parameter))
  else if named "tcmalloc.impl.testing-portal"%string then Ok (Some 1)
  else Ok None.

Definition GetThreadCacheSize (th : Thread) (st : Front) : result Z :=
  let tc := GetIfPresent th st in
  if tc =? 0 then Ok 0
  else
    match st.(thread_caches).(tcs) !! tc with
    | Some t => Ok (u64 t.(size_))
    | None => Crash
    end.

Definition GetFreeListSizes (st : Front) : result (list FreeListInfo) :=
  let bytes cl := ByteSizeForClass sm cl in
  let prev cl := if cl =? 1 then 0 else bytes (cl - 1) in
  let classes := seqZ 1 (num_size_classes sm - 1) in
  let info cl n ty := mkFreeListInfo (u64 (prev cl + 1)) (bytes cl) (u64 (u64 n * bytes cl)) ty in
  let central := (fun cl => [info cl (CFL_length (central_of st) cl) "tcmalloc.central"%string;
                             info cl (tc_length sm (central_of st) cl) "tcmalloc.transfer"%string]) <$> classes in
  '(_, class_count) ← GetThreadStats st.(thread_caches) 0 (fun _ => 0);
  let thread := (fun cl => info cl (class_count cl) "tcmalloc.thread"%string) <$> classes in
  small ← GetSmallSpanStatsLocked free_ (heap_of st);
  let '(_, normal_pages, returned_pages) := GetLargeSpanStatsLocked (heap_of st) in
  let large ty n := mkFreeListInfo (u64 (Z.shiftl kMaxPages kPageShift)) (2 ^ 64 - 1) (u64 (Z.shiftl n kPageShift)) ty in
  let span s ty n := mkFreeListInfo (Z.shiftl (s - 1) kPageShift) (Z.shiftl s kPageShift) (u64 (Z.shiftl s kPageShift * n)) ty in
  let spans := (fun '(s, (n, r)) => [span s "tcmalloc.page"%string n; span s "tcmalloc.page_unmapped"%string r])
                 <$> zip (seqZ 1 kMaxPages) small in
  Ok (mjoin central ++ thread ++
      [large "tcmalloc.large"%string normal_pages; large "tcmalloc.large_unmapped"%string returned_pages] ++ mjoin spans).

(** ** Ranges *)

(** [while (n < kNumRanges)]: the ranges read, the next page, and [done]. *)
Fixpoint read_ranges (n : nat) (h : PageHeap) (page : Z) : result (list MallocRange * Z * bool) :=
  match n with
  | O => Ok ([], page, false)
  | S n =>
      r ← GetNextRange sm h page;
      match r with
      | None => Ok ([], page, true)
      | Some r =>
          let limit := u64 (r.(range_address) + r.(range_length)) in
          '(l, page, done) ← read_ranges n h (Z.shiftr (u64 (limit + kPageSize - 1)) kPageShift);
          Ok (r :: l, page, done)
      end
  end.

(** The ranges [func] is called with, in order, when it leaves the page heap alone. *)
Fixpoint ranges_loop (fuel : nat) (h : PageHeap) (page : Z) : result (list MallocRange) :=
  match fuel with
  | O => NoFuel
  | S fuel =>
      '(l, page, done) ← read_ranges kNumRanges h page;
      if (done : bool) then Ok l
      else
        l' ← ranges_loop fuel h page;
        Ok (l ++ l')
  end.
Definition IterateOverRanges (st : Front) : result (list MallocRange) :=
  ranges_loop (S (size (heap_of st).(spans))) (heap_of st) 1.

(** ** Pointers *)

Definition GetOwnership (ptr : Z) (st : Front) : Ownership :=
  let p := Z.shiftr ptr kPageShift in
  if Z.shiftr p (kAddressBits - kPageShift) >? 0 then kNotOwned
  else
    match TryGetSizeClass (heap_of st) p with
    | Some _ => kOwned
    | None => if negb (GetDescriptor (heap_of st) p =? 0) then kOwned else kNotOwned
    end.

Definition GetEstimatedAllocatedSize (size : Z) (st : Front) : Z := tc_nallocx sm (heap_of st) size 0.

(** ** Tuning *)

Definition MarkThreadIdle (th : Thread) : MF unit :=
  cache ← ReleaseAndClear th;
  if negb (cache =? 0) then on_caches (DeleteCache free_ central_cache_ sm cache) else skip.
Definition MarkThreadTemporarilyIdle : Thread -> MF unit := MarkThreadIdle.

Definition MarkThreadBusy (th : Thread) : MF unit :=
  p ← do_malloc free_ central_cache_ sampled_objects_ sm sample_parameter log2 log_2 hash GrabBacktrace th 0;
  do_free free_ central_cache_ sm th p.

Definition upd_extra_bytes_released (v : Z) (st : Front) : Front :=
  mkFront st.(thread_caches) st.(key_ready) st.(fast_path_cache) st.(tls_value) st.(hash_table_) st.(tc_new_mode)
    st.(new_hooks_) st.(delete_hooks_) st.(stack_traces) v st.(tc_pagesize) st.(trace).

Definition ReleaseToSystem (num_bytes : Z) : MF unit :=
  st ← get_state;
  if num_bytes <=? st.(extra_bytes_released_) then
    modify (upd_extra_bytes_released (st.(extra_bytes_released_) - num_bytes))
  else
    let num_bytes := num_bytes - st.(extra_bytes_released_) in
    let num_pages := Z.max (Z.shiftr num_bytes kPageShift) 1 in
    released ← on_pageheap (ReleaseAtLeastNPages free_ num_pages);
    let bytes_released := u64 (Z.shiftl released kPageShift) in
    modify (upd_extra_bytes_released (if bytes_released >? num_bytes then bytes_released - num_bytes else 0)).

Definition SetMemoryReleaseRate (rate : spec_float) : MF unit := on_pageheap (modify (upd_release_rate (fun _ => rate))).

(** Whether the property exists, and the new value of [FLAGS_tcmalloc_sample_parameter]. *)
Definition SetNumericProperty (th : Thread) (name : string) (value : Z) : MF (bool * Z) :=
  let named (s : string) := String.eqb name s in
  if named "tcmalloc.max_total_thread_cache_bytes"%string then
    on_caches (set_overall_thread_cache_size value) ;; mret (true, sample_parameter)
  else if named "tcmalloc.min_per_thread_cache_bytes"%string then
    on_caches (modify (set_min_per_thread_cache_size value)) ;; mret (true, sample_parameter)
  else if named "tcmalloc.aggressive_memory_decommit"%string then
    on_pageheap (SetAggressiveDecommit (negb (value =? 0))) ;; mret (true, sample_parameter)
  else if named "tcmalloc.heap_limit_mb"%string then
    on_pageheap (modify (upd_heap_limit_mb (fun _ => i64 value))) ;; mret (true, sample_parameter)
  else if named "tcmalloc.sample_parameter"%string then
    MarkThreadIdle th ;; mret (true, i64 value)
  else mret (false, sample_parameter).
End MallocExt.
