(* ===== verification/Unsampled.v ===== *)
(** Spans are marked as sampled by the front end alone: no operation of the page heap,
    the central lists or the thread caches marks one. *)
From Stdlib Require Import Floats.SpecFloat.
From S2P Require Import Prelude SizeMap Sampler LinkedList Span PackedCache PageMap SysEnv PageHeap CentralFreeList ThreadCache.

(** [steady I m]: the computation [m] keeps [I]. *)
Definition steady {S A} (I : S -> Prop) (m : M S A) : Prop := forall s a s', I s -> m s = Ok (a, s') -> I s'.

Lemma wp_steady {S A} (I : S -> Prop) (m : M S A) Q s :
  steady I m -> I s -> wp m Q s -> wp m (fun a s' => Q a s' /\ I s') s.
Proof. unfold wp, steady. intros Hm Hs. specialize (Hm s). destruct (m s) as [[a s']| | |]; eauto. Qed.

Lemma steady_ret {S A} (I : S -> Prop) (a : A) : steady I (mret a).
Proof. intros s b s' Hs [= _ <-]. done. Qed.
Lemma steady_skip {S} (I : S -> Prop) : steady I skip.
Proof. apply steady_ret. Qed.
Lemma steady_get {S} (I : S -> Prop) : steady I get_state.
Proof. intros s b s' Hs [= _ <-]. done. Qed.
Lemma steady_crash {S A} (I : S -> Prop) : steady I (crash (A := A)).
Proof. intros s b s' Hs [=]. Qed.
Lemma steady_no_fuel {S A} (I : S -> Prop) : steady I (no_fuel (A := A)).
Proof. intros s b s' Hs [=]. Qed.
Lemma steady_modify {S} (I : S -> Prop) f : (forall s, I s -> I (f s)) -> steady I (modify f).
Proof. intros Hf s b s' Hs [= _ <-]. auto. Qed.
Lemma steady_pure {S A} (I : S -> Prop) (r : S -> result A) : steady I (fun s => a ← r s; Ok (a, s)).
Proof. intros s b s' Hs. simpl. destruct (r s); try done. by intros [= _ <-]. Qed.
Lemma steady_bind {S A B} (I : S -> Prop) (m : M S A) (f : A -> M S B) :
  steady I m -> (forall a, steady I (f a)) -> steady I (m ≫= f).
Proof.
  intros Hm Hf s b s' Hs. unfold mbind, M_bind, mbind, result_bind. specialize (Hm s).
  destruct (m s) as [[a s1]| | |]; try done. apply Hf. eauto.
Qed.

Create HintDb steady.
#[export] Hint Resolve steady_ret steady_skip steady_get steady_crash steady_no_fuel : steady.

Ltac solve_steady :=
  repeat first
    [ solve [auto 2 with steady]
    | match goal with |- steady _ (fun _ => _) => apply steady_pure end
    | apply steady_bind; [|intros ?]
    | progress cbv zeta
    | apply steady_modify; intros ? ?; assumption
    | match goal with |- steady _ (if ?b then _ else _) => destruct b end
    | match goal with |- steady _ (match ?x with _ => _ end) => destruct x end ].

Section Unsampled.
Context {W : Type} {E : Env W} {P : PageMap W} {C : CacheEnv W}.
Context (free_ central_cache_ : Z) (sm : SizeMap).

(** No span is marked as sampled. *)
Definition plain (h : PageHeap) : Prop := forall p s, h.(spans) !! p = Some s -> s.(sample) = false.

Lemma steady_deref p : steady plain (deref p).
Proof. intros h a h' Hh. unfold deref. destruct (h.(spans) !! p); [|done]. by intros [= _ <-]. Qed.

Lemma steady_store p f : (forall s, s.(sample) = false -> (f s).(sample) = false) -> steady plain (store p f).
Proof.
  intros Hf h a h' Hh. unfold store. destruct (h.(spans) !! p) as [s|] eqn:Hs; [|done]. intros [= _ <-] q t. simpl.
  intros [[<- <-]|[_ Hq]]%lookup_insert_Some; eauto.
Qed.

Lemma steady_call {A} (f : W -> result (A * W)) : steady plain (call f).
Proof. intros h a h' Hh. unfold call. simpl. destruct (f h.(world)) as [[b w]| | |]; try done. by intros [= _ <-]. Qed.

Lemma steady_pagemap_set k v : steady plain (pagemap_set k v).
Proof. intros h a h' Hh. unfold pagemap_set. simpl. destruct (pm_set h.(pagemap_) k v); try done. by intros [= _ <-]. Qed.

Lemma steady_upd_spans f : (forall m, (forall p s, m !! p = Some s -> s.(sample) = false) ->
  forall p s, f m !! p = Some s -> s.(sample) = false) -> steady plain (modify (upd_spans f)).
Proof. intros Hf. apply steady_modify. intros h Hh p s. simpl. by apply Hf. Qed.

#[local] Hint Resolve steady_deref steady_call steady_pagemap_set : steady.
#[local] Hint Extern 1 (steady plain (store _ _)) => (apply steady_store; intros; assumption) : steady.

Lemma steady_NewSpan p len : steady plain (NewSpan p len).
Proof.
  unfold NewSpan. apply steady_bind; [solve_steady|intros r]. apply steady_bind; [|intros; solve_steady].
  apply steady_upd_spans. intros m Hm q s [[_ <-]|[_ Hq]]%lookup_insert_Some; [done|eauto].
Qed.

Lemma steady_DeleteSpan span : steady plain (DeleteSpan span).
Proof.
  unfold DeleteSpan. apply steady_bind; [solve_steady|intros _]. apply steady_bind; [|intros; solve_steady].
  apply steady_upd_spans. intros m Hm q s [_ Hq]%lookup_delete_Some; eauto.
Qed.
#[local] Hint Resolve steady_NewSpan steady_DeleteSpan : steady.

Lemma steady_RemoveFromFreeList span : steady plain (RemoveFromFreeList span).
Proof. unfold RemoveFromFreeList, large_erase. solve_steady. Qed.
Lemma steady_PrependToFreeList span : steady plain (PrependToFreeList free_ span).
Proof. unfold PrependToFreeList, large_insert. solve_steady. Qed.
Lemma steady_DecommitSpan span : steady plain (DecommitSpan span).
Proof. unfold DecommitSpan. solve_steady. Qed.
Lemma steady_CommitSpan span : steady plain (CommitSpan span).
Proof. unfold CommitSpan. solve_steady. Qed.
Lemma steady_RecordSpan span : steady plain (RecordSpan span).
Proof. unfold RecordSpan. solve_steady. Qed.
#[local] Hint Resolve steady_RemoveFromFreeList steady_PrependToFreeList steady_DecommitSpan steady_CommitSpan
  steady_RecordSpan : steady.

Lemma steady_MergeIntoFreeList span : steady plain (MergeIntoFreeList free_ span).
Proof. unfold MergeIntoFreeList, merge_prev, merge_next, CheckAndHandlePreMerge. solve_steady. Qed.
#[local] Hint Resolve steady_MergeIntoFreeList : steady.

Lemma steady_ReleaseSpan span : steady plain (ReleaseSpan free_ span).
Proof. unfold ReleaseSpan. solve_steady. Qed.
#[local] Hint Resolve steady_ReleaseSpan : steady.

Lemma steady_release_round k : forall n r, steady plain (release_round free_ k n r).
Proof. induction k; intros; cbn [release_round]; solve_steady. Qed.
#[local] Hint Resolve steady_release_round : steady.

Lemma steady_release_loop fuel : forall n r, steady plain (release_loop free_ fuel n r).
Proof. induction fuel; intros; cbn [release_loop]; solve_steady. Qed.
#[local] Hint Resolve steady_release_loop : steady.

Lemma steady_ReleaseAtLeastNPages n : steady plain (ReleaseAtLeastNPages free_ n).
Proof. unfold ReleaseAtLeastNPages. solve_steady. Qed.
#[local] Hint Resolve steady_ReleaseAtLeastNPages : steady.

Lemma steady_EnsureLimit n b : steady plain (EnsureLimit free_ n b).
Proof. unfold EnsureLimit. solve_steady. Qed.
Lemma steady_Carve span n : steady plain (Carve free_ span n).
Proof. unfold Carve. solve_steady. Qed.
Lemma steady_Split span n : steady plain (Split span n).
Proof. unfold Split. solve_steady. Qed.
Lemma steady_DeleteLocked span : steady plain (DeleteLocked free_ span).
Proof.
  unfold DeleteLocked, IncrementalScavenge. apply steady_bind; [solve_steady|intros s]. apply steady_bind; [|intros; solve_steady].
  by apply steady_store.
Qed.
#[local] Hint Resolve steady_EnsureLimit steady_Carve steady_Split steady_DeleteLocked : steady.

Lemma steady_AllocLarge n : steady plain (AllocLarge free_ n).
Proof.
  assert (H : forall fuel n, steady plain (AllocLarge_loop free_ fuel n)) by (intros fuel; induction fuel; intros; cbn [AllocLarge_loop]; solve_steady).
  unfold AllocLarge. solve_steady.
Qed.
#[local] Hint Resolve steady_AllocLarge : steady.

Lemma steady_SearchFreeAndLargeLists n : steady plain (SearchFreeAndLargeLists free_ n).
Proof.
  assert (H : forall k s n, steady plain (search_small free_ k s n)) by (intros k; induction k; intros; cbn [search_small]; solve_steady).
  unfold SearchFreeAndLargeLists. solve_steady.
Qed.
#[local] Hint Resolve steady_SearchFreeAndLargeLists : steady.

Lemma steady_GrowHeap n : steady plain (GrowHeap free_ n).
Proof. unfold GrowHeap, grow_alloc. solve_steady. Qed.
#[local] Hint Resolve steady_GrowHeap : steady.

Lemma steady_NewLocked n : steady plain (NewLocked free_ n).
Proof. unfold NewLocked. solve_steady. Qed.
#[local] Hint Resolve steady_NewLocked : steady.

Lemma steady_HandleUnlock : steady plain HandleUnlock.
Proof. unfold HandleUnlock. solve_steady. Qed.
#[local] Hint Resolve steady_HandleUnlock : steady.

Lemma steady_NewWithSizeClass n sc : steady plain (NewWithSizeClass free_ n sc).
Proof.
  assert (H : forall k span st i, steady plain (register_pages k span st i)) by (intros k; induction k; intros; cbn [register_pages]; solve_steady).
  unfold NewWithSizeClass, LockingContext, RegisterSizeClass, InvalidateCachedSizeClass. solve_steady.
Qed.
#[local] Hint Resolve steady_NewWithSizeClass : steady.

Lemma steady_NewAligned n a : steady plain (NewAligned free_ n a).
Proof. unfold NewAligned, New, LockingContext, InvalidateCachedSizeClass. solve_steady. Qed.
#[local] Hint Resolve steady_NewAligned : steady.

(** ** The central lists *)

Definition plain_heap (st : Heap) : Prop := plain st.(pageheap).

Lemma steady_on_heap {A} (m : M PageHeap A) : steady plain m -> steady plain_heap (on_heap m).
Proof.
  intros Hm st a st' Hst. unfold on_heap. simpl. specialize (Hm st.(pageheap)).
  destruct (m st.(pageheap)) as [[b h]| | |]; try done. intros [= <- <-]. unfold plain_heap in *. simpl. by eapply Hm.
Qed.
#[local] Hint Extern 1 (steady plain_heap (on_heap _)) => (apply steady_on_heap; solve [auto 2 with steady]) : steady.

Lemma steady_on_links f : steady plain_heap (on_links f).
Proof. apply steady_on_heap. by apply steady_modify. Qed.
#[local] Hint Resolve steady_on_links : steady.

Lemma steady_ReleaseToSpans cl x : steady plain_heap (ReleaseToSpans free_ central_cache_ sm cl x).
Proof. unfold ReleaseToSpans, Delete. solve_steady. Qed.
#[local] Hint Resolve steady_ReleaseToSpans : steady.

Lemma steady_ReleaseListToSpans cl x : steady plain_heap (ReleaseListToSpans free_ central_cache_ sm cl x).
Proof.
  assert (H : forall fuel cl x, steady plain_heap (ReleaseList_loop free_ central_cache_ sm fuel cl x))
    by (intros fuel; induction fuel; intros; cbn [ReleaseList_loop]; solve_steady).
  unfold ReleaseListToSpans. solve_steady.
Qed.
#[local] Hint Resolve steady_ReleaseListToSpans : steady.

Lemma steady_InsertRange cl s e n : steady plain_heap (InsertRange free_ central_cache_ sm cl s e n).
Proof. unfold InsertRange, MakeCacheSpace, EvictRandomSizeClass, ShrinkCache. solve_steady. Qed.

Lemma steady_FetchFromOneSpans cl n : steady plain_heap (FetchFromOneSpans central_cache_ cl n).
Proof. unfold FetchFromOneSpans. solve_steady. Qed.
#[local] Hint Resolve steady_InsertRange steady_FetchFromOneSpans : steady.

Lemma steady_Populate cl : steady plain_heap (Populate free_ central_cache_ sm cl).
Proof.
  assert (H1 : forall n s c, steady plain (cache_pages n s c))
    by (intros n; induction n; intros; cbn [cache_pages]; unfold SetCachedSizeClass; solve_steady).
  assert (H2 : forall span tail v, steady plain_heap (write_tail span tail v)) by (intros span [t'|] v; simpl; solve_steady).
  assert (H3 : forall fuel span tail p l s n, steady plain_heap (carve_loop fuel span tail p l s n))
    by (intros fuel; induction fuel; intros; cbn [carve_loop]; solve_steady).
  unfold Populate. solve_steady.
Qed.
#[local] Hint Resolve steady_Populate : steady.

Lemma steady_RemoveRange cl n : steady plain_heap (RemoveRange free_ central_cache_ sm cl n).
Proof.
  assert (H : forall fuel cl n r s, steady plain_heap (remove_loop central_cache_ fuel cl n r s))
    by (intros fuel; induction fuel; intros; cbn [remove_loop]; solve_steady).
  unfold RemoveRange, FetchFromOneSpansSafe. solve_steady.
Qed.
#[local] Hint Resolve steady_RemoveRange : steady.

(** ** The thread caches *)

Definition plain_caches (st : Caches) : Prop := plain st.(heap).(pageheap).

Lemma steady_on_central {A} (m : M Heap A) : steady plain_heap m -> steady plain_caches (on_central m).
Proof.
  intros Hm st a st' Hst. unfold on_central. simpl. specialize (Hm st.(heap)).
  destruct (m st.(heap)) as [[b h]| | |]; try done. intros [= <- <-]. unfold plain_caches in *. simpl. by eapply Hm.
Qed.
#[local] Hint Extern 1 (steady plain_caches (on_central _)) => (apply steady_on_central; solve [auto 2 with steady]) : steady.

Lemma steady_on_world {A} (f : W -> result (A * W)) : steady plain_caches (on_world f).
Proof. apply steady_on_central, steady_on_heap, steady_call. Qed.
Lemma steady_deref_tc p : steady plain_caches (deref_tc p).
Proof. intros st a st' Hst. unfold deref_tc. destruct (st.(tcs) !! p); [|done]. by intros [= _ <-]. Qed.
Lemma steady_store_tc p f : steady plain_caches (store_tc p f).
Proof. intros st a st' Hst. unfold store_tc. destruct (st.(tcs) !! p); [|done]. by intros [= _ <-]. Qed.
Lemma steady_modify_mem m : steady plain_caches (modify_mem m).
Proof. apply steady_on_central. by apply steady_modify. Qed.
#[local] Hint Resolve steady_on_world steady_deref_tc steady_store_tc steady_modify_mem : steady.

Lemma steady_ReleaseToCentralCache self cl n : steady plain_caches (ReleaseToCentralCache free_ central_cache_ sm self cl n).
Proof.
  assert (H1 : forall self cl n, steady plain_caches (release_range free_ central_cache_ sm self cl n)) by (intros; unfold release_range; solve_steady).
  assert (H2 : forall fuel self cl n b, steady plain_caches (release_batches free_ central_cache_ sm fuel self cl n b))
    by (intros fuel; induction fuel; intros; cbn [release_batches]; solve_steady).
  unfold ReleaseToCentralCache. solve_steady.
Qed.
#[local] Hint Resolve steady_ReleaseToCentralCache : steady.

Lemma steady_Allocate self size cl : steady plain_caches (Allocate free_ central_cache_ sm self size cl).
Proof. unfold Allocate, FetchFromCentralCache. solve_steady. Qed.

Lemma steady_IncreaseCacheLimitLocked self : steady plain_caches (IncreaseCacheLimitLocked self).
Proof.
  assert (H : forall n self, steady plain_caches (steal_loop n self)) by (intros n; induction n; intros; cbn [steal_loop]; solve_steady).
  unfold IncreaseCacheLimitLocked. solve_steady.
Qed.
#[local] Hint Resolve steady_IncreaseCacheLimitLocked : steady.

Lemma steady_Scavenge self : steady plain_caches (Scavenge free_ central_cache_ sm self).
Proof.
  assert (H : forall l self, steady plain_caches (scavenge_loop free_ central_cache_ sm l self))
    by (intros l; induction l; intros; cbn [scavenge_loop]; unfold scavenge_class; solve_steady).
  unfold Scavenge, IncreaseCacheLimit. solve_steady.
Qed.
#[local] Hint Resolve steady_Scavenge : steady.

Lemma steady_Deallocate self ptr cl : steady plain_caches (Deallocate free_ central_cache_ sm self ptr cl).
Proof. unfold Deallocate, ListTooLong. solve_steady. Qed.

Lemma steady_NewHeap sample_parameter log2 log_2 seed : steady plain_caches (NewHeap sm sample_parameter log2 log_2 seed).
Proof. unfold NewHeap, ThreadCache_new. solve_steady. Qed.

Lemma steady_DeleteCache self : steady plain_caches (DeleteCache free_ central_cache_ sm self).
Proof.
  assert (H : forall l self, steady plain_caches (release_all free_ central_cache_ sm l self))
    by (intros l; induction l; intros; cbn [release_all]; solve_steady).
  unfold DeleteCache. solve_steady; apply steady_modify; intros st Hst; by destruct (_ =? _).
Qed.
End Unsampled.

(** ** A new cache takes no pages *)

Section SamePages.
Context {W : Type} {E : Env W} {P : PageMap W} {C : CacheEnv W} (sm : SizeMap).

(** The spans, the counters and the limit are those of [h]. *)
Definition same_pages (h : PageHeap) (st : Caches) : Prop :=
  st.(heap).(pageheap).(spans) = h.(spans) /\ st.(heap).(pageheap).(stats_) = h.(stats_) /\
  st.(heap).(pageheap).(heap_limit_mb) = h.(heap_limit_mb) /\ st.(heap).(pageheap).(smallest_span_size_) = h.(smallest_span_size_).

Lemma pages_on_world {A} h (f : W -> result (A * W)) : steady (same_pages h) (on_world f).
Proof.
  intros st a st' Hst. unfold on_world, on_central, on_heap, call. simpl.
  destruct (f st.(heap).(pageheap).(world)) as [[b w]| | |]; try done. by intros [= <- <-].
Qed.
Lemma pages_deref_tc h p : steady (same_pages h) (deref_tc p).
Proof. intros st a st' Hst. unfold deref_tc. destruct (st.(tcs) !! p); [|done]. by intros [= _ <-]. Qed.
Lemma pages_store_tc h p f : steady (same_pages h) (store_tc p f).
Proof. intros st a st' Hst. unfold store_tc. destruct (st.(tcs) !! p); [|done]. by intros [= _ <-]. Qed.
#[local] Hint Resolve pages_on_world pages_deref_tc pages_store_tc : steady.

Lemma pages_NewHeap h sample_parameter log2 log_2 seed : steady (same_pages h) (NewHeap sm sample_parameter log2 log_2 seed).
Proof.
  assert (H : forall n self, steady (same_pages h) (steal_loop n self)) by (intros n; induction n; intros; cbn [steal_loop]; solve_steady).
  unfold NewHeap, ThreadCache_new, IncreaseCacheLimitLocked. solve_steady.
Qed.
End SamePages.
