(* ===== verification/CacheInv.v ===== *)
(** The invariant of the thread caches and the steps they are made of. *)
From S2P Require Import Prelude SizeMap Sampler LinkedList Span PackedCache PageMap SysEnv PageHeap SpanStore.
From S2P Require Import PageHeapInv PageHeapOps PageHeapAlloc PageHeapGrow PageHeapNew.
From S2P Require Import CentralFreeList CentralInv CentralOps CentralPopulate CentralRemove CentralRelease CentralInsert ThreadCache.

Lemma i32_cong a b : (exists k, a = b + k * 2 ^ 32) -> i32 a = i32 b.
Proof. intros (k & ->). unfold i32, swrap. by rewrite Z_mod_plus_full. Qed.

Lemma i32_i32 a b : i32 (i32 a + b) = i32 (a + b).
Proof.
  apply i32_cong. unfold i32, swrap. pose proof (Z.div_mod a (2 ^ 32) ltac:(lia)).
  destruct (a mod 2 ^ 32 <? 2 ^ (32 - 1)); [exists (- (a / 2 ^ 32))|exists (- (a / 2 ^ 32) - 1)]; lia.
Qed.

Lemma i32_mod a : exists k, i32 a = a + k * 2 ^ 32.
Proof.
  unfold i32, swrap. pose proof (Z.div_mod a (2 ^ 32) ltac:(lia)).
  destruct (a mod 2 ^ 32 <? 2 ^ (32 - 1)); [exists (- (a / 2 ^ 32))|exists (- (a / 2 ^ 32) - 1)]; lia.
Qed.

Lemma u64_mod32 a : exists k, u64 a = a + k * 2 ^ 32.
Proof.
  unfold u64. pose proof (Z.div_mod a 18446744073709551616 ltac:(lia)) as Hd.
  exists (- (a / 18446744073709551616) * 2 ^ 32). lia.
Qed.

Lemma i32_sub_bytes a b : i32 (a - u64 (i32 b)) = i32 (a - b).
Proof.
  apply i32_cong. destruct (u64_mod32 (i32 b)) as [k ->], (i32_mod b) as [j ->]. exists (- j - k). lia.
Qed.

(** ** Lists of classes *)

(** Bytes in the lists of a cache. *)
Definition lists_bytes (sm : SizeMap) (ls : Z -> list Z) : Z :=
  foldr (fun cl acc => Z.of_nat (List.length (ls cl)) * class_to_size sm cl + acc) 0 (seqZ 0 (num_size_classes sm)).

Definition set_app (cl : Z) (X : gset Z) (app : Z -> gset Z) : Z -> gset Z :=
  fun c => if decide (c = cl) then X else app c.
Definition set_ls (p cl : Z) (os : list Z) (Ls : Z -> Z -> list Z) : Z -> Z -> list Z :=
  fun q c => if decide (q = p /\ c = cl) then os else Ls q c.

Lemma set_ls_eq p cl os Ls : set_ls p cl os Ls p cl = os.
Proof. unfold set_ls. by rewrite decide_True. Qed.

Lemma set_ls_ne p cl os Ls q c : q <> p \/ c <> cl -> set_ls p cl os Ls q c = Ls q c.
Proof. intros Hne. unfold set_ls. rewrite decide_False; [done|]. intros [-> ->]. tauto. Qed.

Lemma lists_bytes_set sm p cl os Ls q :
  0 <= cl < (num_size_classes sm) ->
  lists_bytes sm (set_ls p cl os Ls q) = lists_bytes sm (Ls q) +
    if decide (q = p) then (Z.of_nat (List.length os) - Z.of_nat (List.length (Ls q cl))) * class_to_size sm cl else 0.
Proof.
  intros Hcl. unfold lists_bytes. case_decide as Hq.
  - subst q. assert (Hin : cl ∈ seqZ 0 (num_size_classes sm)) by (apply elem_of_seqZ; lia). pose proof (NoDup_seqZ 0 (num_size_classes sm)) as Hnd.
    revert Hin Hnd. generalize (seqZ 0 (num_size_classes sm)). intros l. induction l as [|c l IH]; intros Hin Hnd; [by apply not_elem_of_nil in Hin|].
    apply NoDup_cons in Hnd as [Hc Hnd]. simpl. destruct (decide (c = cl)) as [->|Hne].
    + rewrite set_ls_eq. clear IH Hin Hnd. replace (foldr _ 0 l) with
        (foldr (fun cl acc => Z.of_nat (List.length (Ls p cl)) * class_to_size sm cl + acc) 0 l); [lia|].
      revert Hc. induction l as [|c l IH]; intros Hc; simpl; [done|]. apply not_elem_of_cons in Hc as [Hcc Hc].
      rewrite set_ls_ne by (right; congruence). by rewrite IH.
    + rewrite set_ls_ne by (by right). apply elem_of_cons in Hin as [?|Hin]; [congruence|]. rewrite (IH Hin Hnd). lia.
  - rewrite Z.add_0_r. generalize (seqZ 0 (num_size_classes sm)). intros l. induction l as [|c l IH]; simpl; [done|].
    rewrite set_ls_ne by (by left). by rewrite IH.
Qed.

Section CacheInv.
Context {W : Type} {E : Env W} {P : PageMap W} {G : EnvGhost W} {C : CacheEnv W}.
Context {ens : pm_t -> Z -> Prop} {free_ central_cache_ : Z} {sm : SizeMap}.
Context {EL : EnvLaws W} {CL : CacheEnvLaws W} {PL : PageMapLaws MetaDataAlloc P ens} {HLay : HeapLayout free_}.
Context (Hsm : size_map_ok sm) {CLay : CentralLayout (free_ := free_) (central_cache_ := central_cache_) (sm := sm)}.

Implicit Types (st : Caches) (p q cl : Z) (t : ThreadCache) (T : gset Z).

Abbreviation nclasses := (num_size_classes sm).
Abbreviation Inv := (Inv ens free_).
Abbreviation lists_bytes := (lists_bytes sm).

#[local] Instance pinned_EL T : @EnvLaws W E (pinned T) := pinned_laws T.
#[local] Instance pinned_HLay T : HeapLayout (G := pinned T) free_.
Proof. destruct HLay. by split. Qed.
#[local] Instance pinned_CLay T :
  CentralLayout (G := pinned T) (free_ := free_) (central_cache_ := central_cache_) (sm := sm).
Proof. destruct CLay. by split. Qed.

(** The central lists while the thread caches are those of [T]. *)
Definition central_ok (strict : bool) T (Gs : Z -> ghost) (h : Heap) : Prop :=
  CentralInv.heap_rep (G := pinned T) (ens := ens) (free_ := free_) (central_cache_ := central_cache_) (sm := sm) strict Gs h.
Abbreviation visible T := (CentralInv.visible (G := pinned T) (free_ := free_) (central_cache_ := central_cache_) (sm := sm)).

(** The list of one class in a cache. *)
Record list_rep (m : mem) t cl (os : list Z) : Prop := {
  lr_list : sll m (list_at t cl).(fl_list) os;
  lr_length : (list_at t cl).(fl_length) = Z.of_nat (List.length os);
  lr_low : 0 <= (list_at t cl).(fl_lowater) <= Z.of_nat (List.length os);
  lr_max : 1 <= (list_at t cl).(fl_max_length) <= kMaxDynamicFreeListLength;
  lr_over : 0 <= (list_at t cl).(fl_length_overages) <= kMaxOverages;
  lr_size : (list_at t cl).(fl_size) = class_to_size sm cl
}.

(** [app cl]: the objects of class [cl] that are neither in the central list nor in a
    cache.  [Ls p cl]: the list of class [cl] in the cache [p].  The byte count of the
    cache [self] is off by [e]. *)
Record crep (strict : bool) T (app : Z -> gset Z) (Ls : Z -> Z -> list Z) (self e : Z) st : Prop := {
  cs_heap : exists Gs, central_ok strict T Gs st.(heap) /\
    forall cl x, 0 <= cl < nclasses -> x ∈ g_out (Gs cl) <-> x ∈ app cl \/ exists p, p ∈ T /\ x ∈ Ls p cl;
  cs_dom : dom st.(tcs) = T;
  cs_list p t cl : st.(tcs) !! p = Some t -> 0 <= cl < nclasses -> list_rep st.(heap).(memory) t cl (Ls p cl);
  cs_bound p cl : p ∈ T -> 0 <= cl < nclasses -> Z.of_nat (List.length (Ls p cl)) <= kMaxDynamicFreeListLength + 1;
  cs_app p cl x : p ∈ T -> 0 <= cl < nclasses -> x ∈ Ls p cl -> x ∉ app cl;
  cs_apart p q cl x : p ∈ T -> q ∈ T -> 0 <= cl < nclasses -> x ∈ Ls p cl -> x ∈ Ls q cl -> p = q;
  cs_size p t : st.(tcs) !! p = Some t -> t.(size_) = i32 (lists_bytes (Ls p) + if decide (p = self) then e else 0)
}.

(** Everything but the lists stays: the links of the caches and the limits. *)
Record same_limits st st' : Prop := {
  sl_heaps : st'.(thread_heaps_) = st.(thread_heaps_);
  sl_count : st'.(thread_heap_count_) = st.(thread_heap_count_);
  sl_steal : st'.(next_memory_steal_) = st.(next_memory_steal_);
  sl_min : st'.(min_per_thread_cache_size_) = st.(min_per_thread_cache_size_);
  sl_overall : st'.(overall_thread_cache_size_) = st.(overall_thread_cache_size_);
  sl_per : st'.(per_thread_cache_size_) = st.(per_thread_cache_size_);
  sl_unclaimed : st'.(unclaimed_cache_space_) = st.(unclaimed_cache_space_);
  sl_tcs p : (fun t => (t.(max_size_), t.(next_), t.(prev_))) <$> st'.(tcs) !! p =
    (fun t => (t.(max_size_), t.(next_), t.(prev_))) <$> st.(tcs) !! p
}.

Lemma same_limits_refl st : same_limits st st.
Proof. by split. Qed.

Lemma same_limits_trans st1 st2 st3 : same_limits st1 st2 -> same_limits st2 st3 -> same_limits st1 st3.
Proof. intros [] []. split; intros; etrans; eauto. Qed.

(** What the owner of the objects outside the caches sees; [X] are the words it gave up. *)
Definition app_ghost (app : Z -> gset Z) : Z -> ghost := fun cl => mkGhost [] [] (fun _ => []) [] (app cl).
Definition client_keeps T (X : gset Z) (app : Z -> gset Z) st st' : Prop :=
  visible T X (app_ghost app) st.(heap) st'.(heap).

Lemma visible_sub T X G1 G2 (h h' : Heap) :
  visible T X G1 h h' -> (forall cl x, 0 <= cl < nclasses -> x ∈ g_out (G2 cl) -> x ∈ g_out (G1 cl)) -> visible T X G2 h h'.
Proof. intros [] Hsub. split; eauto. Qed.

Lemma client_keeps_refl T X app st : client_keeps T X app st st.
Proof. apply visible_refl. Qed.

Lemma client_keeps_trans T X Y app app' st1 st2 st3 :
  client_keeps T X app st1 st2 -> client_keeps T Y app' st2 st3 ->
  (forall cl x, 0 <= cl < nclasses -> x ∈ app cl -> x ∉ X ∪ Y -> x ∈ app' cl) -> client_keeps T (X ∪ Y) app st1 st3.
Proof. intros H1 H2 Hsub. by eapply (visible_trans (G := pinned T) (ens := ens) Hsm). Qed.

(** ** Steps *)

Lemma wp_on_central {A} (m : M Heap A) Q st :
  wp m (fun a h => Q a (upd_heap h st)) st.(heap) -> wp (on_central m) Q st.
Proof. unfold wp, on_central. simpl. by destruct (m st.(heap)) as [[a h]| | |]. Qed.

Lemma wp_deref_tc p t Q st : st.(tcs) !! p = Some t -> Q t st -> wp (deref_tc p) Q st.
Proof. intros Hp HQ. unfold wp, deref_tc. by rewrite Hp. Qed.

Lemma wp_store_tc p t f Q st : st.(tcs) !! p = Some t -> Q tt (upd_tcs (<[p := f t]>) st) -> wp (store_tc p f) Q st.
Proof. intros Hp HQ. unfold wp, store_tc. by rewrite Hp. Qed.

Lemma wp_modify_mem m Q st : Q tt (upd_heap (upd_memory (fun _ => m) st.(heap)) st) -> wp (modify_mem m) Q st.
Proof. intros HQ. by apply wp_on_central, wp_modify. Qed.

Lemma list_at_upd c l t cl : list_at (upd_list c l t) cl = if decide (cl = c) then l else list_at t cl.
Proof.
  unfold list_at, upd_list. simpl. case_decide; [subst; by rewrite lookup_insert_eq|by rewrite lookup_insert_ne].
Qed.

(** A step of the central lists that leaves the objects in the caches alone. *)
Lemma crep_central strict T app app' Ls self e st h' Gs Gs' X :
  crep strict T app Ls self e st -> central_ok strict T Gs st.(heap) ->
  (forall cl x, 0 <= cl < nclasses -> x ∈ g_out (Gs cl) <-> x ∈ app cl \/ exists p, p ∈ T /\ x ∈ Ls p cl) ->
  central_ok strict T Gs' h' -> visible T X Gs st.(heap) h' ->
  (forall cl x, 0 <= cl < nclasses -> x ∈ g_out (Gs' cl) <-> x ∈ app' cl \/ exists p, p ∈ T /\ x ∈ Ls p cl) ->
  (forall cl p x, 0 <= cl < nclasses -> p ∈ T -> x ∈ Ls p cl -> (x ∉ app' cl) /\ x ∉ X) ->
  crep strict T app' Ls self e (upd_heap h' st) /\ same_limits st (upd_heap h' st).
Proof.
  intros [] HG Heq HG' Hv Heq' Hdis. split; [|by split]. split; simpl; try done.
  - by exists Gs'.
  - intros p t cl Hp Hcl. assert (HpT : p ∈ T) by (rewrite <- cs_dom0; by eapply elem_of_dom_2).
    destruct (cs_list0 p t cl Hp Hcl). split; try done. eapply sll_agree; [|done]. intros x Hx.
    assert (Hxo : x ∈ g_out (Gs cl)) by (apply Heq; eauto). destruct (cr_held _ _ _ (hr_central _ _ _ HG cl Hcl) x ltac:(by left)) as [Hc0 _].
    apply (vi_first (G := pinned T) Hsm _ _ _ _ cl _ Hv); [lia|done|]. by apply (Hdis cl p x).
  - intros p cl x HpT Hcl Hx. by apply (Hdis cl p x).
Qed.

(** One list changes, and the words of its objects. *)
Lemma crep_relist strict T app Ls self e e' st m' cl t t' os' X :
  crep strict T app Ls self e st -> st.(tcs) !! self = Some t -> 0 <= cl < nclasses ->
  (forall x, x ∉ app cl -> x ∉ Ls self cl -> m' !! x = st.(heap).(memory) !! x) ->
  list_rep m' t' cl os' -> (forall c, c <> cl -> list_at t' c = list_at t c) ->
  t'.(size_) = i32 (lists_bytes (set_ls self cl os' Ls self) + e') ->
  t'.(max_size_) = t.(max_size_) -> t'.(next_) = t.(next_) -> t'.(prev_) = t.(prev_) ->
  (forall x, x ∈ X \/ x ∈ os' <-> x ∈ app cl \/ x ∈ Ls self cl) -> (forall x, x ∈ os' -> x ∉ X) ->
  Z.of_nat (List.length os') <= kMaxDynamicFreeListLength + 1 ->
  let st' := upd_tcs (<[self := t']>) (upd_heap (upd_memory (fun _ => m') st.(heap)) st) in
  crep strict T (set_app cl X app) (set_ls self cl os' Ls) self e' st' /\ same_limits st st' /\
  forall Y, (forall x, x ∈ app cl -> x ∉ Y -> m' !! x = st.(heap).(memory) !! x) -> client_keeps T Y app st st'.
Proof.
  intros Hrep Ht Hcl Hm Hl Hoth Hsz Hmx Hnx Hpv Hown Hdis Hlen st'. pose proof Hrep as [(Gs & HG & Heq) Hdom Hls Hb Hap Hsep Hsize].
  assert (HsT : self ∈ T) by (rewrite <- Hdom; by eapply elem_of_dom_2).
  assert (Hout : forall x, x ∈ app cl \/ x ∈ Ls self cl -> x ∈ g_out (Gs cl)) by (intros x Hx; apply Heq; [done|]; naive_solver).
  assert (Hm' : forall x, (forall c, 0 <= c < nclasses -> x ∉ g_out (Gs c)) -> m' !! x = st.(heap).(memory) !! x).
  { intros x Hx. apply Hm; intros ?; apply (Hx cl Hcl); auto. }
  (* the words of other lists stay *)
  assert (Hkeep : forall p c x, p ∈ T -> 0 <= c < nclasses -> p <> self \/ c <> cl -> x ∈ Ls p c -> m' !! x = st.(heap).(memory) !! x).
  { intros p c x Hp Hc Hne Hx. destruct (decide (c = cl)) as [->|Hcc].
    - apply Hm; [by apply (Hap p)|]. intros Hx'. destruct Hne as [Hne|]; [|done]. apply Hne. by apply (Hsep p self cl x).
    - assert (Hxc : x ∈ g_out (Gs c)) by (apply Heq; eauto).
      apply Hm; intros Hx'; apply Hcc; apply (out_class (G := pinned T) Hsm strict Gs st.(heap) cl c x HG); auto. }
  split_and!.
  - split; simpl.
    + exists Gs. split.
      { apply (heap_rep_memory (G := pinned T) Hsm strict Gs st.(heap)); done. }
      intros c x Hc. rewrite Heq by done. unfold set_app. case_decide as Hcc.
      * subst c. split.
        -- intros [Hx|(p & Hp & Hx)].
           ++ destruct (proj2 (Hown x) (or_introl Hx)); [by left|right]. exists self. by rewrite set_ls_eq.
           ++ destruct (decide (p = self)) as [->|Hne]; [|right; exists p; rewrite set_ls_ne by (by left); done].
              destruct (proj2 (Hown x) (or_intror Hx)); [by left|right]. exists self. by rewrite set_ls_eq.
        -- intros [Hx|(p & Hp & Hx)].
           ++ destruct (proj1 (Hown x) (or_introl Hx)); [by left|right; eauto].
           ++ destruct (decide (p = self)) as [->|Hne].
              ** rewrite set_ls_eq in Hx. destruct (proj1 (Hown x) (or_intror Hx)); [by left|right; eauto].
              ** rewrite set_ls_ne in Hx by (by left). right; eauto.
      * split; (intros [?|(p & Hp & Hx)]; [by left|right; exists p]); rewrite ?set_ls_ne in * by (by right); done.
    + rewrite dom_insert_L, Hdom. set_solver.
    + intros p u c Hp Hc. apply lookup_insert_Some in Hp as [[<- <-]|[Hne Hp]].
      * destruct (decide (c = cl)) as [->|Hcc]; [by rewrite set_ls_eq|]. rewrite set_ls_ne by (by right).
        destruct (Hls self t c Ht Hc). split; rewrite ?Hoth by done; try done. eapply sll_agree; [|done].
        intros x Hx. by apply (Hkeep self c); [..|right|].
      * rewrite set_ls_ne by (by left). destruct (Hls p u c Hp Hc). split; try done. eapply sll_agree; [|done].
        intros x Hx. apply (Hkeep p c); [rewrite <- Hdom; by eapply elem_of_dom_2|done|by left|done].
    + intros p c Hp Hc. unfold set_ls. case_decide; [done|auto].
    + intros p c x Hp Hc Hx. unfold set_app, set_ls in *. destruct (decide (p = self /\ c = cl)) as [[-> ->]|Hd].
      * rewrite decide_True by done. by apply Hdis.
      * destruct (decide (c = cl)) as [->|Hcc]; [|by apply (Hap p)]. intros HX.
        assert (Hps : p <> self) by (intros ->; by apply Hd).
        destruct (proj1 (Hown x) (or_introl HX)) as [?|?]; [by apply (Hap p cl x)|by apply Hps, (Hsep p self cl x)].
    + intros p q c x Hp Hq Hc Hx Hx'. destruct (decide (p = q)) as [|Hpq]; [done|].
      assert (Hback : forall r, r ∈ T -> x ∈ set_ls self cl os' Ls r c -> x ∈ Ls r c \/ r = self /\ c = cl /\ x ∈ app cl).
      { intros r Hr Hxr. unfold set_ls in Hxr. case_decide as Hd; [|by left]. destruct Hd as [-> ->].
        destruct (proj1 (Hown x) (or_intror Hxr)); [by right|by left]. }
      destruct (Hback p Hp Hx) as [H1|(Ep & Ec & H1)], (Hback q Hq Hx') as [H2|(Eq & Ec' & H2)].
      * by apply (Hsep p q c x).
      * exfalso. apply (Hap p c x); [done..|]. by rewrite Ec'.
      * exfalso. apply (Hap q c x); [done..|]. by rewrite Ec.
      * congruence.
    + intros p u Hp. apply lookup_insert_Some in Hp as [[<- <-]|[Hne Hp]].
      * by rewrite decide_True.
      * rewrite decide_False by done. rewrite (Hsize p u Hp), decide_False, lists_bytes_set, decide_False by done. f_equal. lia.
  - split; try done. intros p. simpl. destruct (decide (p = self)) as [->|Hne].
    + rewrite lookup_insert_eq, Ht. simpl. by rewrite Hmx, Hnx, Hpv.
    + by rewrite lookup_insert_ne.
  - intros Y HY. split; simpl; try done.
    + intros c x a Hc Hx HxY Ha. assert (Hxc : x ∈ g_out (Gs c)) by (apply Heq; [done|by left]).
      assert (Hin : a ∈ g_out (Gs cl) -> c = cl /\ a = x).
      { intros Hao. by apply (out_inside_out (G := pinned T) Hsm strict Gs st.(heap) c cl x a HG). }
      destruct (decide (a = x /\ c = cl)) as [[-> ->]|Hne]; [by apply HY|].
      apply Hm; intros Ha'; destruct Hin as [-> ->]; auto; apply Hne; auto.
    + intros p s x Hp Hlo Hc Hx. apply Hm'. intros c Hc' Hxc.
      by apply (out_not_large (G := pinned T) Hsm strict Gs st.(heap) c x p s HG).
Qed.
End CacheInv.
