(* ===== verification/CacheLimits.v ===== *)
(** The list of the thread caches and the budget they share. *)
From S2P Require Import Prelude SizeMap Sampler LinkedList Span PackedCache PageMap SysEnv PageHeap SpanStore.
From S2P Require Import PageHeapInv PageHeapOps PageHeapAlloc PageHeapGrow PageHeapNew.
From S2P Require Import CentralFreeList CentralInv ThreadCache CacheInv.

(** The doubly linked list of the caches. *)
Fixpoint tchain (m : gmap Z ThreadCache) (prev hd : Z) (heaps : list Z) : Prop :=
  match heaps with
  | [] => hd = 0
  | p :: heaps => hd = p /\ p <> 0 /\ exists t, m !! p = Some t /\ t.(prev_) = prev /\ tchain m p t.(next_) heaps
  end.

(** What the caches claim together. *)
Definition claimed (m : gmap Z ThreadCache) : Z := msum (fun _ t => t.(max_size_)) m.

Section CacheLimits.
Context {W : Type} {P : PageMap W}.
Implicit Types (st : Caches) (p q : Z) (t : ThreadCache) (m : gmap Z ThreadCache) (heaps : list Z).

(** [heaps]: the caches in the list.  [Caches] may hold a cache that is not in the list
    yet, while it is made. *)
Record budget heaps st : Prop := {
  bu_nodup : NoDup heaps;
  bu_chain : tchain st.(tcs) 0 st.(thread_heaps_) heaps;
  bu_count : st.(thread_heap_count_) = Z.of_nat (List.length heaps);
  bu_steal : st.(next_memory_steal_) = 0 \/ st.(next_memory_steal_) ∈ heaps;
  bu_min : kStealAmount <= st.(min_per_thread_cache_size_) < 2 ^ 31;
  bu_overall : 0 < st.(overall_thread_cache_size_) <= 2 ^ 30;
  bu_max p t : st.(tcs) !! p = Some t -> 0 <= t.(max_size_);
  bu_small : claimed st.(tcs) < 2 ^ 31;
  bu_sum : st.(unclaimed_cache_space_) = st.(overall_thread_cache_size_) - claimed st.(tcs)
}.

(** Lists and byte counts stay, only limits and links change. *)
Record tuned st st' : Prop := {
  tu_heap : st'.(heap) = st.(heap);
  tu_heaps : st'.(thread_heaps_) = st.(thread_heaps_);
  tu_count : st'.(thread_heap_count_) = st.(thread_heap_count_);
  tu_min : st'.(min_per_thread_cache_size_) = st.(min_per_thread_cache_size_);
  tu_overall : st'.(overall_thread_cache_size_) = st.(overall_thread_cache_size_);
  tu_tcs p : (fun t => (t.(list_), t.(size_))) <$> st'.(tcs) !! p = (fun t => (t.(list_), t.(size_))) <$> st.(tcs) !! p
}.

Lemma claimed_ext (m m' : gmap Z ThreadCache) :
  (forall p, max_size_ <$> m' !! p = max_size_ <$> m !! p) -> claimed m' = claimed m.
Proof.
  intros Hm. assert (Hf : forall m : gmap Z ThreadCache, claimed m = msum (fun _ v => v) (max_size_ <$> m)).
  { intros m0. unfold claimed, msum. by rewrite map_fold_fmap. }
  rewrite !Hf. f_equal. apply map_eq. intros p. by rewrite !lookup_fmap.
Qed.

Lemma tuned_refl st : tuned st st.
Proof. by split. Qed.

Lemma tuned_trans st1 st2 st3 : tuned st1 st2 -> tuned st2 st3 -> tuned st1 st3.
Proof. intros [] []. split; intros; etrans; eauto. Qed.

Lemma tchain_elem m prev hd heaps p : tchain m prev hd heaps -> p ∈ heaps -> p <> 0 /\ exists t, m !! p = Some t.
Proof.
  revert prev hd. induction heaps as [|q heaps IH]; intros prev hd Hc Hp; [by apply not_elem_of_nil in Hp|].
  destruct Hc as (_ & Hq & t & Ht & _ & Hc). apply elem_of_cons in Hp as [->|Hp]; eauto.
Qed.

Lemma tchain_next m prev hd heaps p t : tchain m prev hd heaps -> p ∈ heaps -> m !! p = Some t -> t.(next_) = 0 \/ t.(next_) ∈ heaps.
Proof.
  revert prev hd. induction heaps as [|q heaps IH]; intros prev hd Hc Hp Ht; [by apply not_elem_of_nil in Hp|].
  destruct Hc as (_ & Hq & u & Hu & _ & Hc). apply elem_of_cons in Hp as [->|Hp].
  - rewrite Ht in Hu. injection Hu as <-. destruct heaps as [|r heaps]; [by left|]. destruct Hc as (-> & _). right. right. by left.
  - destruct (IH _ _ Hc Hp Ht); [by left|right; by right].
Qed.

(** The chain reads the links only. *)
Lemma tchain_links m m' prev hd heaps :
  (forall p, p ∈ heaps -> (fun t => (t.(next_), t.(prev_))) <$> m' !! p = (fun t => (t.(next_), t.(prev_))) <$> m !! p) ->
  tchain m prev hd heaps -> tchain m' prev hd heaps.
Proof.
  revert prev hd. induction heaps as [|p heaps IH]; intros prev hd Hm; [done|]. intros (-> & Hp & t & Ht & <- & Hc).
  pose proof (Hm p ltac:(by left)) as Hp'. rewrite Ht in Hp'. destruct (m' !! p) as [t'|] eqn:Ht'; [|done]. injection Hp' as Hn Hpv.
  split; [done|]. split; [done|]. exists t'. split; [done|]. split; [done|]. rewrite Hn. apply IH; [|done].
  intros q Hq. apply Hm. by right.
Qed.

Lemma links_insert m p t t' q : m !! p = Some t -> t'.(next_) = t.(next_) -> t'.(prev_) = t.(prev_) ->
  (fun t => (t.(next_), t.(prev_))) <$> <[p := t']> m !! q = (fun t => (t.(next_), t.(prev_))) <$> m !! q.
Proof.
  intros Ht Hn Hp. destruct (decide (q = p)) as [->|Hne]; [|by rewrite lookup_insert_ne].
  rewrite lookup_insert_eq, Ht. simpl. by rewrite Hn, Hp.
Qed.

Lemma claimed_elem heaps st p t : budget heaps st -> st.(tcs) !! p = Some t -> 0 <= t.(max_size_) <= claimed st.(tcs).
Proof.
  intros [] Ht. split; [by eapply bu_max0|]. unfold claimed. by apply (msum_elem (fun _ t => t.(max_size_)) _ p t); eauto.
Qed.

(** A step that changes one limit and the unclaimed space with it. *)
Lemma budget_claim heaps st p t v :
  budget heaps st -> st.(tcs) !! p = Some t -> 0 <= v -> claimed st.(tcs) - t.(max_size_) + v < 2 ^ 31 ->
  let st' := upd_tcs (<[p := SetMaxSize v t]>) (set_unclaimed (st.(unclaimed_cache_space_) - (v - t.(max_size_))) st) in
  budget heaps st' /\ tuned st st'.
Proof.
  intros Hbu Ht Hv Hlt st'. pose proof (claimed_elem _ _ _ _ Hbu Ht) as Hm. pose proof Hbu as [].
  assert (Hc : claimed (<[p := SetMaxSize v t]> st.(tcs)) = claimed st.(tcs) - t.(max_size_) + v).
  { unfold claimed. rewrite (msum_update _ _ p t) by done. simpl. rewrite i32_small; lia. }
  split.
  - split; simpl; try done.
    + eapply tchain_links; [|done]. intros q _. by apply (links_insert _ _ t).
    + intros q u [[<- <-]|[_ Hq]]%lookup_insert_Some; [simpl; rewrite i32_small; lia|eauto].
    + lia.
    + rewrite Hc, bu_sum0, i64_small; lia.
  - split; simpl; try done. intros q. destruct (decide (q = p)) as [->|Hne]; [by rewrite lookup_insert_eq, Ht|by rewrite lookup_insert_ne].
Qed.

Lemma budget_steal heaps st v : budget heaps st -> v = 0 \/ v ∈ heaps -> budget heaps (set_next_memory_steal v st).
Proof. intros [] Hv. by split. Qed.

(** The limits of two caches are balanced. *)
Lemma budget_move heaps st p q t u d :
  budget heaps st -> p <> q -> st.(tcs) !! p = Some t -> st.(tcs) !! q = Some u -> 0 <= d <= t.(max_size_) ->
  let st' := upd_tcs (<[q := SetMaxSize (u.(max_size_) + d) u]>) (upd_tcs (<[p := SetMaxSize (t.(max_size_) - d) t]>) st) in
  budget heaps st' /\ tuned st st'.
Proof.
  intros Hbu Hpq Ht Hu Hd st'. pose proof Hbu as []. set (t' := SetMaxSize (t.(max_size_) - d) t). set (u' := SetMaxSize (u.(max_size_) + d) u).
  assert (Huq : <[p := t']> st.(tcs) !! q = Some u) by (by rewrite lookup_insert_ne).
  assert (Hc2 : t.(max_size_) + u.(max_size_) <= claimed st.(tcs)).
  { unfold claimed. rewrite (msum_delete _ _ p t Ht). apply Z.add_le_mono_l.
    apply (msum_elem (fun _ t => t.(max_size_)) _ q u); [by rewrite lookup_delete_ne|]. intros ? ? [_ ?]%lookup_delete_Some. eauto. }
  pose proof (bu_max0 _ _ Hu). assert (Hc : claimed (<[q := u']> (<[p := t']> st.(tcs))) = claimed st.(tcs)).
  { unfold claimed. rewrite (msum_update _ _ q u), (msum_update _ _ p t) by done. simpl. rewrite !i32_small; lia. }
  subst st'. fold t' u'. split.
  - split; simpl; try done; rewrite ?Hc; try done.
    + eapply tchain_links; [|done]. intros r _. etrans; [by apply (links_insert _ _ u)|]. by apply (links_insert _ _ t).
    + intros r v [[<- <-]|[_ [[<- <-]|[_ Hr]]%lookup_insert_Some]]%lookup_insert_Some; [..|eauto]; simpl; rewrite i32_small; lia.
  - split; simpl; try done. intros r. destruct (decide (r = q)) as [->|Hq]; [by rewrite lookup_insert_eq, Hu|rewrite lookup_insert_ne by done].
    destruct (decide (r = p)) as [->|Hp]; [by rewrite lookup_insert_eq, Ht|by rewrite lookup_insert_ne].
Qed.

Lemma wp_steal_loop heaps self n : forall st,
  budget heaps st -> heaps <> [] -> is_Some (st.(tcs) !! self) ->
  wp (steal_loop n self) (fun _ st' => budget heaps st' /\ tuned st st' /\
    st'.(unclaimed_cache_space_) = st.(unclaimed_cache_space_)) st.
Proof.
  assert (HkS : kStealAmount = 65536) by done.
  induction n as [|n IH]; intros st Hbu Hne Hs; [by apply wp_ret; split_and!; [|apply tuned_refl|]|]. simpl.
  apply wp_bind, wp_get, wp_bind.
  (* the pointer is at a cache of the list *)
  assert (Hnorm : wp (if st.(next_memory_steal_) =? 0 then modify (set_next_memory_steal st.(thread_heaps_)) else skip)
    (fun _ st1 => budget heaps st1 /\ tuned st st1 /\ st1.(tcs) = st.(tcs) /\
      st1.(unclaimed_cache_space_) = st.(unclaimed_cache_space_) /\ st1.(next_memory_steal_) ∈ heaps) st).
  { pose proof Hbu as []. destruct (Z.eqb_spec st.(next_memory_steal_) 0) as [Hz|Hnz].
    - apply wp_modify. destruct heaps as [|p heaps]; [done|]. destruct bu_chain0 as (Hhd & _). rewrite Hhd.
      split_and!; [apply budget_steal; [done|right; by left]|by split|done|done|simpl; by left].
    - apply wp_ret. split_and!; [done|apply tuned_refl|done|done|]. by destruct bu_steal0. }
  eapply wp_mono; [exact Hnorm|]. intros [] st1 (Hbu1 & Htu1 & Htcs & Hun & Hin). apply wp_bind, wp_get.
  destruct (tchain_elem _ _ _ _ _ (bu_chain _ _ Hbu1) Hin) as (_ & v & Hv).
  pose proof (tchain_next _ _ _ _ _ _ (bu_chain _ _ Hbu1) Hin Hv) as Hnx. pose proof (claimed_elem _ _ _ _ Hbu1 Hv) as Hvm.
  pose proof (bu_small _ _ Hbu1). pose proof (bu_min _ _ Hbu1).
  apply wp_bind, wp_deref_tc with v; [done|]. rewrite u64_small by lia. set (victim := st1.(next_memory_steal_)) in *.
  destruct (Z.eqb_spec victim self) as [Hvs|Hvs]; simpl.
  { apply wp_bind, wp_modify. eapply wp_mono; [apply IH; [by apply budget_steal|done|simpl; by rewrite Htcs]|].
    intros [] st2 (Hb2 & Ht2 & Hu2). split_and!; [done| |by rewrite Hu2]. eapply tuned_trans; [exact Htu1|]. by destruct Ht2; split. }
  destruct (Z.leb_spec v.(max_size_) st1.(min_per_thread_cache_size_)) as [Hle|Hgt].
  { apply wp_bind, wp_modify. eapply wp_mono; [apply IH; [by apply budget_steal|done|simpl; by rewrite Htcs]|].
    intros [] st2 (Hb2 & Ht2 & Hu2). split_and!; [done| |by rewrite Hu2]. eapply tuned_trans; [exact Htu1|]. by destruct Ht2; split. }
  apply wp_bind, wp_store_tc with v; [done|]. destruct Hs as [t Ht]. rewrite <- Htcs in Ht.
  assert (Ht' : <[victim := SetMaxSize (v.(max_size_) - kStealAmount) v]> st1.(tcs) !! self = Some t) by (by rewrite lookup_insert_ne).
  apply wp_bind, wp_deref_tc with t; [done|]. apply wp_bind, wp_store_tc with t; [done|].
  destruct (budget_move heaps st1 victim self v t kStealAmount Hbu1 Hvs Hv Ht ltac:(lia)) as [Hb2 Ht2].
  apply wp_bind, wp_deref_tc with (SetMaxSize (v.(max_size_) - kStealAmount) v);
    [simpl; by rewrite lookup_insert_ne, lookup_insert_eq|].
  apply wp_modify. split_and!; [by apply budget_steal| |done]. eapply tuned_trans; [exact Htu1|]. by destruct Ht2; split.
Qed.

Lemma wp_IncreaseCacheLimit heaps self st :
  budget heaps st -> (heaps = [] -> claimed st.(tcs) < st.(overall_thread_cache_size_)) -> is_Some (st.(tcs) !! self) ->
  wp (IncreaseCacheLimit self) (fun _ st' => budget heaps st' /\ tuned st st' /\
    (st'.(unclaimed_cache_space_) = st.(unclaimed_cache_space_) \/ exists t, st'.(tcs) !! self = Some t /\ 0 < t.(max_size_))) st.
Proof.
  intros Hbu Hne [t Ht]. assert (HkS : kStealAmount = 65536) by done. pose proof Hbu as [].
  unfold IncreaseCacheLimit, IncreaseCacheLimitLocked. apply wp_bind, wp_get. rewrite Z.gtb_ltb.
  destruct (Z.ltb_spec 0 st.(unclaimed_cache_space_)).
  - apply wp_bind, wp_modify, wp_bind, wp_deref_tc with t; [done|]. apply wp_store_tc with t; [done|].
    pose proof (claimed_elem _ _ _ _ Hbu Ht).
    destruct (budget_claim heaps st self t (t.(max_size_) + kStealAmount) Hbu Ht ltac:(lia) ltac:(lia)) as [Hb Htu].
    replace (t.(max_size_) + kStealAmount - t.(max_size_)) with kStealAmount in Hb, Htu by lia.
    split_and!; [done|done|right]. eexists. split; [apply lookup_insert_eq|]. simpl. rewrite i32_small; lia.
  - eapply wp_mono; [apply (wp_steal_loop heaps); [done| |by exists t]|].
    + intros ->. specialize (Hne eq_refl). lia.
    + intros [] st' (? & ? & ?). auto.
Qed.

(** A cache outside the list comes or changes. *)
Lemma tchain_other m prev hd heaps p t : p ∉ heaps -> tchain m prev hd heaps -> tchain (<[p := t]> m) prev hd heaps.
Proof. intros Hp. apply tchain_links. intros q Hq. rewrite lookup_insert_ne; [done|]. by intros ->. Qed.

Lemma budget_add heaps st p t :
  budget heaps st -> st.(tcs) !! p = None -> t.(max_size_) = 0 -> budget heaps (upd_tcs (<[p := t]>) st).
Proof.
  intros [] Hp Ht. assert (Hc : claimed (<[p := t]> st.(tcs)) = claimed st.(tcs)) by (unfold claimed; rewrite msum_insert by done; lia).
  split; simpl; rewrite ?Hc; try done.
  - apply tchain_other; [|done]. intros Hin. destruct (tchain_elem _ _ _ _ _ bu_chain0 Hin) as (_ & u & Hu). congruence.
  - intros q u [[<- <-]|[_ Hq]]%lookup_insert_Some; [lia|eauto].
Qed.

Lemma budget_other heaps st p t t' :
  budget heaps st -> p ∉ heaps -> st.(tcs) !! p = Some t -> t'.(max_size_) = t.(max_size_) -> budget heaps (upd_tcs (<[p := t']>) st).
Proof.
  intros [] Hp Ht Hm. assert (Hc : claimed (<[p := t']> st.(tcs)) = claimed st.(tcs)) by (unfold claimed; rewrite (msum_update _ _ p t) by done; lia).
  split; simpl; rewrite ?Hc; try done.
  - by apply tchain_other.
  - intros q u [[<- <-]|[_ Hq]]%lookup_insert_Some; [rewrite Hm|]; eauto.
Qed.

(** The list gets a new head. *)
Lemma budget_cons heaps st p t :
  budget heaps st -> p ∉ heaps -> 0 < p -> st.(tcs) !! p = Some t -> t.(next_) = st.(thread_heaps_) -> t.(prev_) = 0 ->
  st.(thread_heap_count_) + 1 < 2 ^ 31 ->
  wp (if negb (st.(thread_heaps_) =? 0) then store_tc st.(thread_heaps_) (set_tc_prev p)
      else modify (set_next_memory_steal p))
    (fun _ st1 => budget (p :: heaps) (set_thread_heaps p (i32 (st1.(thread_heap_count_) + 1)) st1) /\
       st1.(heap) = st.(heap) /\ st1.(tcs) !! p = Some t /\
       forall q, (fun t => (t.(list_), t.(size_))) <$> st1.(tcs) !! q = (fun t => (t.(list_), t.(size_))) <$> st.(tcs) !! q) st.
Proof.
  intros Hbu Hp Hp0 Ht Hnx Hpv Hcn. pose proof Hbu as []. rewrite bu_count0 in Hcn.
  destruct (Z.eqb_spec st.(thread_heaps_) 0) as [Hz|Hnz]; simpl.
  - assert (heaps = []) as ->. { destruct heaps as [|q heaps]; [done|]. destruct bu_chain0 as (? & ? & _). lia. }
    apply wp_modify. split_and!; try done. simpl in *. rewrite bu_count0. split; simpl; try done.
    + by repeat constructor; apply not_elem_of_nil.
    + split_and!; [done|lia|]. exists t. split_and!; try done. by rewrite Hnx.
    + right. by left.
  - destruct heaps as [|q heaps]; [by destruct bu_chain0|]. destruct bu_chain0 as (Hq & Hq0 & u & Hu & Hup & Hch).
    apply NoDup_cons in bu_nodup0 as [Hqh Hnd]. apply not_elem_of_cons in Hp as [Hpq Hph]. rewrite Hq in *. apply wp_store_tc with u; [done|].
    assert (Hc : claimed (<[q := set_tc_prev p u]> st.(tcs)) = claimed st.(tcs)) by (unfold claimed; rewrite (msum_update _ _ q u) by done; simpl; lia).
    split_and!; [|done|simpl; by rewrite lookup_insert_ne|].
    + simpl in *. rewrite bu_count0. split; simpl; rewrite ?Hc; try done.
      * apply NoDup_cons. split; [by apply not_elem_of_cons|]. by apply NoDup_cons.
      * split_and!; [done|lia|]. exists t. rewrite lookup_insert_ne by done. split_and!; [done|done|done|done|].
        exists (set_tc_prev p u). rewrite lookup_insert_eq. split_and!; [done|done|]. simpl. by apply tchain_other.
      * rewrite i32_small; lia.
      * destruct bu_steal0; [by left|right; by right].
      * intros r v [[<- <-]|[_ Hr]]%lookup_insert_Some; [simpl|]; eauto.
    + intros r. simpl. destruct (decide (r = q)) as [->|Hr]; [by rewrite lookup_insert_eq, Hu|by rewrite lookup_insert_ne].
Qed.

Lemma tchain_not_self m p t heaps : forall prev hd,
  NoDup heaps -> tchain m prev hd heaps -> m !! p = Some t -> p ∈ heaps -> t.(next_) <> p.
Proof.
  induction heaps as [|q heaps IH]; intros prev hd Hnd Hc Ht Hp; [by apply not_elem_of_nil in Hp|].
  apply NoDup_cons in Hnd as [Hq Hnd]. destruct Hc as (_ & Hq0 & u & Hu & _ & Hc).
  apply elem_of_cons in Hp as [->|Hp]; [|eauto]. rewrite Ht in Hu. injection Hu as <-.
  destruct heaps as [|r heaps]; simpl in Hc; [congruence|]. destruct Hc as (-> & _). set_solver.
Qed.


Lemma tchain_prev m p t heaps : forall prev hd,
  tchain m prev hd heaps -> p ∈ heaps -> m !! p = Some t -> t.(prev_) = prev \/ t.(prev_) ∈ heaps.
Proof.
  induction heaps as [|q heaps IH]; intros prev hd Hc Hp Ht; [by apply not_elem_of_nil in Hp|].
  destruct Hc as (_ & Hq & u & Hu & Hup & Hc). apply elem_of_cons in Hp as [->|Hp].
  - rewrite Ht in Hu. injection Hu as <-. by left.
  - right. destruct (IH _ _ Hc Hp Ht) as [->|?]; [by left|by right].
Qed.

(** ** A cache leaves the list *)

Definition unlink_next t m : gmap Z ThreadCache :=
  if t.(next_) =? 0 then m else alter (set_tc_prev t.(prev_)) t.(next_) m.
Definition unlink_prev t m : gmap Z ThreadCache :=
  if t.(prev_) =? 0 then m else alter (set_tc_next t.(next_)) t.(prev_) m.

Lemma tchain_start m prev hd heaps : tchain m prev hd heaps -> hd = default 0 (head heaps).
Proof. destruct heaps; [done|]. by intros (-> & _). Qed.

Lemma unlink_next_ne t m q : q = 0 \/ q <> t.(next_) -> unlink_next t m !! q = m !! q.
Proof.
  intros Hq. unfold unlink_next. destruct (Z.eqb_spec t.(next_) 0); [done|]. apply lookup_alter_ne. intros Hn. rewrite <- Hn in Hq. naive_solver.
Qed.

(** The rest of the list after [p]. *)
Lemma tchain_unlink_next m p t heaps : NoDup heaps ->
  tchain m p t.(next_) heaps -> tchain (unlink_next t m) t.(prev_) t.(next_) heaps.
Proof.
  intros Hnd Hc. unfold unlink_next. destruct heaps as [|q heaps]; simpl in *; [by rewrite Hc|]. apply NoDup_cons in Hnd as [Hq _].
  destruct Hc as (-> & Hq0 & u & Hu & _ & Hc). destruct (Z.eqb_spec q 0); [done|]. split_and!; try done.
  exists (set_tc_prev t.(prev_) u). rewrite lookup_alter_eq, Hu. split_and!; try done.
  eapply tchain_links; [|exact Hc]. intros r Hr. rewrite lookup_alter_ne; [done|]. by intros ->.
Qed.

Lemma tchain_unlink m p t q l2 l1 : forall prev hd,
  NoDup (l1 ++ q :: p :: l2) -> tchain m prev hd (l1 ++ q :: p :: l2) -> m !! p = Some t ->
  t.(prev_) = q /\ tchain (unlink_prev t (unlink_next t m)) prev hd (l1 ++ q :: l2).
Proof.
  induction l1 as [|a l1 IH]; intros prev hd Hnd Hc Ht; simpl in *.
  - destruct Hc as (-> & Hq0 & u & Hu & Hup & Hun & Hp0 & t' & Ht' & Htp & Hc). rewrite Ht in Ht'. injection Ht' as <-.
    apply NoDup_cons in Hnd as [Hq Hnd]. apply NoDup_cons in Hnd as [Hp Hnd].
    split; [done|]. split_and!; try done. pose proof (tchain_start _ _ _ _ Hc) as Hst.
    assert (Hqn : q <> t.(next_)). { rewrite Hst. destruct l2; simpl; [done|]. set_solver. }
    exists (set_tc_next t.(next_) u). unfold unlink_prev. rewrite Htp. destruct (Z.eqb_spec q 0); [done|].
    rewrite lookup_alter_eq, unlink_next_ne, Hu by auto. split_and!; try done. simpl.
    pose proof (tchain_unlink_next m p t l2 Hnd Hc) as Hc'. rewrite Htp in Hc'.
    eapply tchain_links; [|exact Hc']. intros r Hr. rewrite lookup_alter_ne; [done|]. intros <-. set_solver.
  - destruct Hc as (-> & Ha0 & u & Hu & Hup & Hc). apply NoDup_cons in Hnd as [Ha Hnd].
    destruct (IH _ _ Hnd Hc Ht) as [Htp Hc']. split; [done|]. split_and!; try done. exists u. split_and!; try done.
    assert (Han : a <> t.(next_)).
    { assert (Hpin : p ∈ l1 ++ q :: p :: l2) by set_solver. destruct (tchain_next _ _ _ _ _ _ Hc Hpin Ht) as [->|Hin]; [done|]. set_solver. }
    unfold unlink_prev. rewrite Htp. destruct (Z.eqb_spec q 0); [by rewrite unlink_next_ne by auto|].
    rewrite lookup_alter_ne by set_solver. by rewrite unlink_next_ne by auto.
Qed.

Lemma alter_same {A} (f : ThreadCache -> A) g k m q :
  (forall t, f (g t) = f t) -> f <$> alter g k m !! q = f <$> m !! q.
Proof.
  intros Hg. destruct (decide (k = q)) as [->|Hne]; [|by rewrite lookup_alter_ne].
  rewrite lookup_alter_eq. destruct (m !! q); simpl; by rewrite ?Hg.
Qed.

Lemma unlink_same {A} (f : ThreadCache -> A) t m q :
  (forall v t, f (set_tc_prev v t) = f t) -> (forall v t, f (set_tc_next v t) = f t) ->
  f <$> unlink_prev t (unlink_next t m) !! q = f <$> m !! q.
Proof.
  intros H1 H2. unfold unlink_prev, unlink_next. destruct (t.(prev_) =? 0), (t.(next_) =? 0); rewrite ?alter_same; auto.
Qed.

Lemma budget_remove l1 l2 p t st st' :
  budget (l1 ++ p :: l2) st -> st.(tcs) !! p = Some t ->
  st'.(tcs) = delete p (unlink_prev t (unlink_next t st.(tcs))) ->
  st'.(thread_heaps_) = (if st.(thread_heaps_) =? p then t.(next_) else st.(thread_heaps_)) ->
  st'.(thread_heap_count_) = i32 (st.(thread_heap_count_) - 1) ->
  st'.(next_memory_steal_) =
    (let s := if st.(next_memory_steal_) =? p then t.(next_) else st.(next_memory_steal_) in
     if s =? 0 then st'.(thread_heaps_) else s) ->
  st'.(min_per_thread_cache_size_) = st.(min_per_thread_cache_size_) ->
  st'.(overall_thread_cache_size_) = st.(overall_thread_cache_size_) ->
  st'.(unclaimed_cache_space_) = i64 (st.(unclaimed_cache_space_) + t.(max_size_)) ->
  0 <= st.(thread_heap_count_) < 2 ^ 31 ->
  budget (l1 ++ l2) st'.
Proof.
  intros Hbu Ht E1 E2 E3 E4 E5 E6 E7 Hcn. pose proof (claimed_elem _ _ _ _ Hbu Ht) as Hmx. pose proof Hbu as [].
  assert (Hpin : p ∈ l1 ++ p :: l2) by set_solver.
  pose proof (tchain_next _ _ _ _ _ _ bu_chain0 Hpin Ht) as Hnx.
  assert (Hnd : NoDup (l1 ++ l2) /\ p ∉ l1 ++ l2).
  { rewrite <- Permutation_middle in bu_nodup0. apply NoDup_cons in bu_nodup0 as [? ?]. done. }
  destruct Hnd as [Hnd Hpn].
  assert (Hchain : tchain st'.(tcs) 0 st'.(thread_heaps_) (l1 ++ l2) /\ (t.(next_) <> p)).
  { rewrite E1, E2. destruct l1 as [|a l1 _] using rev_ind.
    - simpl in *. destruct bu_chain0 as (Hhd & Hp0 & t' & Ht' & Hpv & Hc). rewrite Ht in Ht'. injection Ht' as <-.
      rewrite Hhd. destruct (Z.eqb_spec p p); [|done]. pose proof (tchain_unlink_next st.(tcs) p t l2 Hnd Hc) as Hc'.
      unfold unlink_prev. rewrite Hpv in *. simpl. split.
      + eapply tchain_links; [|exact Hc']. intros r Hr. rewrite lookup_delete_ne; [done|]. by intros ->.
      + rewrite (tchain_start _ _ _ _ Hc). destruct l2; simpl; [lia|set_solver].
    - rewrite <- app_assoc in *. simpl in *. destruct (tchain_unlink _ _ _ _ _ _ _ _ bu_nodup0 bu_chain0 Ht) as [Hpv Hc].
      pose proof (tchain_start _ _ _ _ bu_chain0) as Hhd. split.
      + assert (Hhp : st.(thread_heaps_) <> p).
        { rewrite Hhd. destruct l1; simpl in *; intros ->; set_solver. }
        destruct (Z.eqb_spec st.(thread_heaps_) p); [done|]. eapply tchain_links; [|exact Hc].
        intros r Hr. rewrite lookup_delete_ne; [done|]. by intros ->.
      + apply (tchain_not_self _ _ _ _ _ _ bu_nodup0 bu_chain0 Ht). set_solver. }
  destruct Hchain as [Hchain Hnp].
  assert (Hin : forall x, x = 0 \/ x ∈ l1 ++ p :: l2 -> x <> p -> x = 0 \/ x ∈ l1 ++ l2) by set_solver.
  assert (Hcl : claimed st'.(tcs) = claimed st.(tcs) - t.(max_size_)).
  { rewrite <- (claimed_ext st.(tcs) (unlink_prev t (unlink_next t st.(tcs)))) by (intros q; by apply unlink_same).
    unfold claimed. pose proof (unlink_same max_size_ t st.(tcs) p ltac:(done) ltac:(done)) as Hp. rewrite Ht in Hp.
    destruct (unlink_prev t (unlink_next t st.(tcs)) !! p) as [u|] eqn:Hu; [|done]. injection Hp as Hu'.
    rewrite E1, (msum_delete _ (unlink_prev _ _) p u) by done. rewrite Hu'. lia. }
  split; try done; rewrite ?E5, ?E6; try done.
  - rewrite E3, bu_count0, length_app, i32_small; rewrite bu_count0, length_app in Hcn; simpl in *; rewrite ?length_app; simpl; lia.
  - rewrite E4. cbv zeta. pose proof (tchain_start _ _ _ _ Hchain) as Hst'.
    assert (Hh : st'.(thread_heaps_) = 0 \/ st'.(thread_heaps_) ∈ l1 ++ l2).
    { rewrite Hst'. destruct (l1 ++ l2); simpl; [by left|right; by left]. }
    destruct (Z.eqb_spec st.(next_memory_steal_) p);
      [destruct (Z.eqb_spec t.(next_) 0)|destruct (Z.eqb_spec st.(next_memory_steal_) 0)]; auto.
  - rewrite E1. intros q u [_ Hq]%lookup_delete_Some. pose proof (unlink_same max_size_ t st.(tcs) q ltac:(done) ltac:(done)) as Hm.
    rewrite Hq in Hm. destruct (st.(tcs) !! q) as [v|] eqn:Hv; [|done]. injection Hm as ->. eauto.
  - lia.
  - rewrite E7, bu_sum0, Hcl, i64_small; lia.
Qed.
End CacheLimits.
