(* ===== verification/CacheOps.v ===== *)
(** The operations of a thread cache on its lists. *)
From S2P Require Import Prelude SizeMap Sampler LinkedList Span PackedCache PageMap SysEnv PageHeap SpanStore.
From S2P Require Import PageHeapInv PageHeapOps PageHeapAlloc PageHeapGrow PageHeapNew.
From S2P Require Import CentralFreeList CentralInv CentralOps CentralPopulate CentralRemove CentralRelease CentralInsert.
From S2P Require Import ThreadCache CacheInv.

Section CacheOps.
Context {W : Type} {E : Env W} {P : PageMap W} {G : EnvGhost W} {C : CacheEnv W}.
Context {ens : pm_t -> Z -> Prop} {free_ central_cache_ : Z} {sm : SizeMap}.
Context {EL : EnvLaws W} {CL : CacheEnvLaws W} {PL : PageMapLaws MetaDataAlloc P ens} {HLay : HeapLayout free_}.
Context (Hsm : size_map_ok sm) {CLay : CentralLayout (free_ := free_) (central_cache_ := central_cache_) (sm := sm)}.

Implicit Types (st : Caches) (p q cl : Z) (t : ThreadCache) (T : gset Z).

Abbreviation nclasses := (num_size_classes sm).
Abbreviation Inv := (Inv ens free_).

#[local] Existing Instance pinned_EL.
#[local] Existing Instance pinned_HLay.
#[local] Existing Instance pinned_CLay.
Abbreviation central_ok := (central_ok (ens := ens) (free_ := free_) (central_cache_ := central_cache_) (sm := sm)).
Abbreviation visible T := (CentralInv.visible (G := pinned T) (free_ := free_) (central_cache_ := central_cache_) (sm := sm)).
Abbreviation crep := (crep (ens := ens) (free_ := free_) (central_cache_ := central_cache_) (sm := sm)).
Abbreviation client_keeps := (client_keeps (free_ := free_) (central_cache_ := central_cache_) (sm := sm)).
Abbreviation lists_bytes := (lists_bytes sm).
Abbreviation list_rep := (list_rep (sm := sm)).

Lemma crep_ext strict T app app' Ls Ls' self e st :
  (forall cl x, 0 <= cl < nclasses -> x ∈ app' cl <-> x ∈ app cl) ->
  (forall p cl, p ∈ T -> 0 <= cl < nclasses -> Ls' p cl = Ls p cl) ->
  crep strict T app Ls self e st -> crep strict T app' Ls' self e st.
Proof.
  intros Ha HL [(Gs & HG & Heq) Hdom Hls Hb Hap Hsep Hsize].
  assert (HT : forall p t, st.(tcs) !! p = Some t -> p ∈ T) by (intros p t Hp; rewrite <- Hdom; by eapply elem_of_dom_2).
  split; try done.
  - exists Gs. split; [done|]. intros cl x Hcl. rewrite Heq, Ha by done. split; (intros [?|(p & Hp & Hx)]; [by left|right; exists p]);
      rewrite HL in * by done; done.
  - intros p t cl Hp Hcl. rewrite HL by eauto. by apply Hls.
  - intros p cl Hp Hcl. rewrite HL by done. by apply Hb.
  - intros p cl x Hp Hcl. rewrite HL, Ha by done. by apply Hap.
  - intros p q cl x Hp Hq Hcl. rewrite !HL by done. by apply Hsep.
  - intros p t Hp. rewrite (Hsize p t Hp). f_equal. f_equal. unfold CacheInv.lists_bytes.
    assert (Hin : forall cl, cl ∈ seqZ 0 nclasses -> 0 <= cl < nclasses) by (intros cl Hc%elem_of_seqZ; lia).
    revert Hin. generalize (seqZ 0 nclasses). intros l. induction l as [|c l IH]; intros Hin; simpl; [done|].
    rewrite IH, HL; [done|by eapply HT|apply Hin; by left|]. intros c' Hc'. apply Hin. by right.
Qed.

(** Where the cache is. *)
Lemma crep_cache strict T app Ls self e st p : crep strict T app Ls self e st -> p ∈ T -> exists t, st.(tcs) !! p = Some t.
Proof. intros [] Hp. rewrite <- cs_dom in Hp. by apply elem_of_dom in Hp as [t Ht]; exists t. Qed.

(** Class 0 has no objects. *)
Lemma crep_class strict T app Ls self e st p cl x :
  crep strict T app Ls self e st -> p ∈ T -> 0 <= cl < nclasses -> x ∈ Ls p cl -> 1 <= cl < nclasses.
Proof.
  intros [(Gs & HG & Heq) _ _ _ _ _ _] Hp Hcl Hx.
  destruct (cr_held _ _ _ (hr_central _ _ _ HG cl Hcl) x) as [Hc0 _]; [left; apply Heq; eauto|]. lia.
Qed.

(** An object in a list is in nobody else's hands, of whatever class. *)
Lemma crep_not_app strict T app Ls self e st p cl c x :
  crep strict T app Ls self e st -> p ∈ T -> 0 <= cl < nclasses -> 0 <= c < nclasses -> x ∈ Ls p cl -> x ∉ app c.
Proof.
  intros [(Gs & HG & Heq) _ _ _ Hap _ _] Hp Hcl Hc Hx Hxa.
  assert (c = cl) as ->; [|by apply (Hap p cl x)].
  apply (out_class (G := pinned T) Hsm strict Gs st.(heap) cl c x HG); try done; apply Heq; eauto.
Qed.

(** ** From and to the central lists *)

Lemma wp_cache_remove strict T app Ls self e st cl N :
  crep strict T app Ls self e st -> 1 <= cl < nclasses -> 0 < N ->
  wp (on_central (RemoveRange free_ central_cache_ sm cl N)) (fun r st' => exists os,
    chain st'.(heap) r os /\ Z.of_nat (List.length os) <= N /\
    (forall x, x ∈ os -> (x ∉ app cl) /\ forall p, p ∈ T -> x ∉ Ls p cl) /\
    crep strict T (set_app cl (app cl ∪ list_to_set os) app) Ls self e st' /\ same_limits st st' /\
    client_keeps T ∅ app st st' /\ st'.(tcs) = st.(tcs) /\
    (r.1.1 = 0 -> no_pages (class_to_pages sm cl) st.(heap).(pageheap) st'.(heap).(pageheap).(errno))) st.
Proof.
  intros Hrep Hcl HN. pose proof Hrep as [(Gs & HG & Heq) Hdom Hls Hb Hap Hsep Hsize]. apply wp_on_central.
  eapply wp_mono; [by apply (wp_RemoveRange (G := pinned T) Hsm strict Gs)|].
  intros r h' [(os & g' & HG' & Hv & Hch & HN' & Ho & Hfr) Hno]. exists os. split; [done|]. split; [done|].
  assert (Hnew : forall x, x ∈ os -> (x ∉ app cl) /\ forall p, p ∈ T -> x ∉ Ls p cl).
  { intros x Hx. split; [intros Hxa|intros p Hp Hxp]; apply (Hfr x Hx), Heq; [lia|by left|lia|eauto]. }
  split; [done|].
  destruct (crep_central Hsm strict T app (set_app cl (app cl ∪ list_to_set os) app) Ls self e st h' Gs (set_ghost cl g' Gs) ∅ Hrep HG)
    as [Hc Hl]; try done.
  - intros c x Hc. unfold set_ghost, set_app. case_decide; [subst c|by apply Heq].
    rewrite Ho, !elem_of_union, (Heq cl x Hc), elem_of_list_to_set. tauto.
  - intros c p x Hc Hp Hx. split; [|apply not_elem_of_empty]. unfold set_app. case_decide; [subst c|by apply (Hap p)].
    intros [?|Hin%elem_of_list_to_set]%elem_of_union; [by apply (Hap p cl x)|by apply (Hnew x Hin) in Hx].
  - split_and!; try done. eapply visible_sub; [exact Hv|]. simpl. intros c x Hc0 Hx. apply Heq; [done|by left].
Qed.

Lemma wp_cache_insert strict T app Ls self e st cl start end_ N os :
  crep strict T app Ls self e st -> 1 <= cl < nclasses -> chain st.(heap) (N, start, end_) os ->
  (forall x, x ∈ os -> x ∈ app cl) ->
  wp (on_central (InsertRange free_ central_cache_ sm cl start end_ N)) (fun _ st' =>
    crep strict T (set_app cl (app cl ∖ list_to_set os) app) Ls self e st' /\ same_limits st st' /\
    client_keeps T (list_to_set os) app st st' /\ st'.(tcs) = st.(tcs)) st.
Proof.
  intros Hrep Hcl Hch Hos. pose proof Hrep as [(Gs & HG & Heq) Hdom Hls Hb Hap Hsep Hsize]. apply wp_on_central.
  eapply wp_mono; [apply (wp_InsertRange (G := pinned T) Hsm strict Gs); try done; intros x Hx; apply Heq; [lia|left; auto]|].
  intros [] h' (Gs' & HG' & Hv & Ho & Hoth).
  destruct (crep_central Hsm strict T app (set_app cl (app cl ∖ list_to_set os) app) Ls self e st h' Gs Gs' (list_to_set os) Hrep HG)
    as [Hc Hl]; try done.
  - intros c x Hc. unfold set_app. case_decide; [subst c|by rewrite Hoth; [apply Heq|]].
    rewrite Ho, !elem_of_difference, (Heq cl x Hc), elem_of_list_to_set. split; [tauto|].
    intros [?|(p & Hp & Hx)]; [tauto|]. split; [eauto|]. intros Hin. by apply (Hap p cl x); [..|apply Hos].
  - intros c p x Hc Hp Hx. assert (Hxo : x ∉ os).
    { intros Hin. assert (Hcc : c = cl); [|subst; by apply (Hap p cl x); [..|apply Hos]].
      apply (out_class (G := pinned T) Hsm strict Gs st.(heap) cl c x HG); [lia|done|apply Heq; [lia|left; auto]|apply Heq; eauto]. }
    split; [|by rewrite elem_of_list_to_set]. unfold set_app. case_decide; [subst c|by apply (Hap p)].
    intros [? _]%elem_of_difference. by apply (Hap p cl x).
  - split_and!; try done. eapply visible_sub; [exact Hv|]. simpl. intros c x Hc0 Hx. apply Heq; [done|by left].
Qed.
(** ** Lists *)

Lemma class_to_size_eq cl : class_to_size sm cl = ByteSizeForClass sm cl.
Proof. done. Qed.

(** A range is cut off the front of a list. *)
Lemma pop_range_step strict T app Ls self e st cl t os1 os2 (N := Z.of_nat (List.length os1)) :
  crep strict T app Ls self e st -> st.(tcs) !! self = Some t -> 0 <= cl < nclasses ->
  Ls self cl = os1 ++ os2 -> os1 <> [] ->
  let '(m, l, head, tail) := FL_PopRange st.(heap).(memory) (list_at t cl) N in
  let st' := upd_tcs (<[self := upd_list cl l t]>) (upd_heap (upd_memory (fun _ => m) st.(heap)) st) in
  chain st'.(heap) (N, head, tail) os1 /\
  crep strict T (set_app cl (app cl ∪ list_to_set os1) app) (set_ls self cl os2 Ls) self (e + N * class_to_size sm cl) st' /\
  same_limits st st' /\ client_keeps T ∅ app st st'.
Proof.
  intros Hrep Ht Hcl HLs Hne. destruct (exists_last Hne) as (l1 & x & ->).
  assert (HsT : self ∈ T) by (rewrite <- (cs_dom _ _ _ _ _ _ _ Hrep); by eapply elem_of_dom_2).
  pose proof (cs_list _ _ _ _ _ _ _ Hrep self t cl Ht Hcl) as Hlr. pose proof Hlr as [Hl Hlen Hlow Hmax Hov Hsz].
  pose proof (cs_bound _ _ _ _ _ _ _ Hrep self cl HsT Hcl) as Hb. assert (kMaxDynamicFreeListLength = 8192) by done.
  assert (HN : N = Z.of_nat (List.length l1) + 1) by (unfold N; rewrite length_app; simpl; lia).
  rewrite HLs in *. assert (Hall : Z.of_nat (List.length ((l1 ++ [x]) ++ os2)) = N + Z.of_nat (List.length os2)) by (unfold N; rewrite length_app; lia).
  rewrite <- app_assoc in Hl. simpl in Hl. pose proof (SLL_PopRange_cut _ _ _ _ _ Hl) as Hcut. rewrite <- HN in Hcut.
  unfold FL_PopRange. destruct (SLL_PopRange st.(heap).(memory) (list_at t cl).(fl_list) N) as [[[m hd] start] end_].
  destruct Hcut as (Hc1 & -> & Hc2 & Hfr). rewrite u32_small by lia.
  set (l := set_list hd _ _). set (st' := upd_tcs _ _).
  assert (Hnd : NoDup ((l1 ++ [x]) ++ os2)) by (rewrite <- app_assoc; apply Hl). apply NoDup_app in Hnd as (_ & Hd & _).
  assert (HL : list_rep m (upd_list cl l t) cl os2).
  { split; rewrite list_at_upd, decide_True by done; unfold l, set_list; simpl; try done; [lia|].
    destruct (Z.ltb_spec ((list_at t cl).(fl_length) - N) (list_at t cl).(fl_lowater)); lia. }
  destruct (crep_relist Hsm strict T app Ls self e (e + N * class_to_size sm cl) st m cl t (upd_list cl l t) os2
    (app cl ∪ list_to_set (l1 ++ [x])) Hrep Ht Hcl) as (R1 & R2 & R3); try done.
  - intros y _ Hy. apply Hfr. rewrite HLs in Hy. set_solver.
  - intros c Hc. by rewrite list_at_upd, decide_False.
  - simpl. rewrite (cs_size _ _ _ _ _ _ _ Hrep self t Ht), lists_bytes_set, !decide_True, HLs, Hall by done. f_equal. lia.
  - intros y. rewrite HLs, elem_of_union, elem_of_list_to_set, (elem_of_app (l1 ++ [x])). tauto.
  - intros y Hy [Hya|Hyo%elem_of_list_to_set]%elem_of_union; [|by apply (Hd y)].
    apply (cs_app _ _ _ _ _ _ _ Hrep self cl y); try done. rewrite HLs. set_solver.
  - lia.
  - split_and!; [| |done|].
    + split_and!; simpl; [done|done|by rewrite last_snoc].
    + exact R1.
    + apply R3. intros y Hy _. apply Hfr. intros Hin. apply (cs_app _ _ _ _ _ _ _ Hrep self cl y); try done. rewrite HLs. set_solver.
Qed.

(** The range goes to the central list. *)
Lemma wp_release_range strict T app Ls self e st cl os1 os2 (N := Z.of_nat (List.length os1)) :
  crep strict T app Ls self e st -> self ∈ T -> 1 <= cl < nclasses -> Ls self cl = os1 ++ os2 -> os1 <> [] ->
  wp (release_range free_ central_cache_ sm self cl N) (fun _ st' =>
    crep strict T app (set_ls self cl os2 Ls) self (e + N * class_to_size sm cl) st' /\ same_limits st st' /\
    client_keeps T ∅ app st st') st.
Proof.
  intros Hrep Hs Hcl HLs Hne. destruct (crep_cache _ _ _ _ _ _ _ self Hrep Hs) as [t Ht].
  unfold release_range. apply wp_bind, wp_deref_tc with t; [done|]. apply wp_bind, wp_get.
  pose proof (pop_range_step strict T app Ls self e st cl t os1 os2 Hrep Ht ltac:(lia) HLs Hne) as Hpop. fold N in Hpop.
  destruct (FL_PopRange _ _ _) as [[[m l] hd] tl]. destruct Hpop as (Hch & Hrep1 & Hl1 & Hk1).
  apply wp_bind, wp_modify_mem, wp_bind, wp_store_tc with t; [done|].
  match goal with |- wp _ _ ?w => set (st1 := w) in * end.
  eapply wp_mono; [apply (wp_cache_insert strict T _ _ self _ st1 cl hd tl N os1 Hrep1 Hcl Hch)|].
  { intros x Hx. unfold set_app. rewrite decide_True by done. set_solver. }
  intros [] st2 (Hrep2 & Hl2 & Hk2 & _). split_and!.
  - eapply crep_ext; [| |exact Hrep2]; [|done]. intros c x Hc. unfold set_app. case_decide; [subst c|done].
    rewrite decide_True, elem_of_difference, elem_of_union, elem_of_list_to_set by done. split; [|tauto].
    intros Hx. split; [by left|]. intros Hin. apply (crep_not_app _ _ _ _ _ _ _ self cl cl x Hrep); try done.
    rewrite HLs. set_solver.
  - by eapply same_limits_trans.
  - assert (Hk : client_keeps T (∅ ∪ list_to_set os1) app st st2).
    { eapply (client_keeps_trans (ens := ens) Hsm); [exact Hk1|exact Hk2|]. intros c x Hc Hx _. unfold set_app.
      case_decide; [subst c; set_solver|done]. }
    eapply visible_drop; [exact Hk|]. simpl. intros c x Hc Hx Hxa. rewrite union_empty_l_L, elem_of_list_to_set in Hx.
    apply (crep_not_app _ _ _ _ _ _ _ self cl c x Hrep); try done; [lia|]. rewrite HLs. set_solver.
Qed.
(** The byte count changes. *)
Lemma crep_size strict T app Ls self e d st t t' :
  crep strict T app Ls self e st -> st.(tcs) !! self = Some t -> t'.(list_) = t.(list_) ->
  t'.(size_) = i32 (t.(size_) + d) -> t'.(max_size_) = t.(max_size_) -> t'.(next_) = t.(next_) -> t'.(prev_) = t.(prev_) ->
  let st' := upd_tcs (<[self := t']>) st in
  crep strict T app Ls self (e + d) st' /\ same_limits st st' /\ client_keeps T ∅ app st st'.
Proof.
  intros [(Gs & HG & Heq) Hdom Hls Hb Hap Hsep Hsize] Ht Hl Hsz Hmx Hnx Hpv st'. split_and!; [|split; try done|apply visible_refl].
  - split; simpl; try done.
    + by exists Gs.
    + rewrite dom_insert_L, Hdom. assert (self ∈ T) by (rewrite <- Hdom; by eapply elem_of_dom_2). set_solver.
    + intros p u cl Hp Hcl. apply lookup_insert_Some in Hp as [[<- <-]|[_ Hp]]; [|by apply Hls].
      destruct (Hls self t cl Ht Hcl). by split; unfold list_at in *; rewrite Hl.
    + intros p u Hp. apply lookup_insert_Some in Hp as [[<- <-]|[Hne Hp]].
      * rewrite Hsz, (Hsize self t Ht), !decide_True, i32_i32 by done. f_equal. lia.
      * rewrite (Hsize p u Hp), !decide_False by done. done.
  - simpl. intros p. destruct (decide (p = self)) as [->|Hne].
    + rewrite lookup_insert_eq, Ht. simpl. by rewrite Hmx, Hnx, Hpv.
    + by rewrite lookup_insert_ne.
Qed.

Lemma set_ls_set p cl os os' Ls q c : set_ls p cl os (set_ls p cl os' Ls) q c = set_ls p cl os Ls q c.
Proof. unfold set_ls. by case_decide. Qed.

Lemma set_ls_id p cl Ls q c : set_ls p cl (Ls p cl) Ls q c = Ls q c.
Proof. unfold set_ls. case_decide as Hd; [|done]. by destruct Hd as [-> ->]. Qed.

Lemma client_trans T app st1 st2 st3 : client_keeps T ∅ app st1 st2 -> client_keeps T ∅ app st2 st3 -> client_keeps T ∅ app st1 st3.
Proof.
  intros H1 H2. pose proof (client_keeps_trans (ens := ens) (sm := sm) Hsm T ∅ ∅ app app st1 st2 st3 H1 H2) as H.
  rewrite union_idemp_L in H. apply H. done.
Qed.

Lemma wp_cache_release_loop strict T app self cl batch fuel : forall Ls e st os1 os2,
  crep strict T app Ls self e st -> self ∈ T -> 1 <= cl < nclasses -> 0 < batch ->
  Ls self cl = os1 ++ os2 -> os1 <> [] -> (List.length os1 < fuel)%nat ->
  wp (release_batches free_ central_cache_ sm fuel self cl (Z.of_nat (List.length os1)) batch) (fun N' st' => exists osb,
    N' = Z.of_nat (List.length osb) /\ osb <> [] /\
    crep strict T app (set_ls self cl (osb ++ os2) Ls) self
      (e + (Z.of_nat (List.length os1) - N') * class_to_size sm cl) st' /\ same_limits st st' /\ client_keeps T ∅ app st st') st.
Proof.
  induction fuel as [|fuel IH]; intros Ls e st os1 os2 Hrep Hs Hcl Hba HLs Hne Hf; [lia|]. simpl.
  rewrite Z.gtb_ltb. destruct (Z.ltb_spec batch (Z.of_nat (List.length os1))) as [Hlt|Hge].
  - set (osa := take (Z.to_nat batch) os1). set (osb := drop (Z.to_nat batch) os1).
    assert (Hab : os1 = osa ++ osb) by (symmetry; apply take_drop).
    assert (Hla : Z.of_nat (List.length osa) = batch) by (unfold osa; rewrite length_take; lia).
    assert (Hlb : Z.of_nat (List.length osb) = Z.of_nat (List.length os1) - batch) by (unfold osb; rewrite length_drop; lia).
    rewrite <- Hla at 1. apply wp_bind. eapply wp_mono.
    { apply (wp_release_range strict T app Ls self e st cl osa (osb ++ os2)); try done; [by rewrite HLs, Hab, app_assoc|].
      intros Hnil. rewrite Hnil in Hla. simpl in Hla. lia. }
    intros [] st1 (Hrep1 & Hl1 & Hk1). rewrite <- Hlb. eapply wp_mono.
    { apply (IH (set_ls self cl (osb ++ os2) Ls) _ st1 osb os2 Hrep1); try done; [by rewrite set_ls_eq| |lia].
      intros Hnil. rewrite Hnil in Hlb. simpl in Hlb. lia. }
    intros N' st2 (os' & -> & Hne' & Hrep2 & Hl2 & Hk2). exists os'. split; [done|]. split; [done|].
    split; [|split; [by eapply same_limits_trans|by eapply client_trans]].
    eapply crep_ext; [done|intros; symmetry; apply set_ls_set|].
    replace (e + _) with (e + Z.of_nat (List.length osa) * class_to_size sm cl +
      (Z.of_nat (List.length osb) - Z.of_nat (List.length os')) * class_to_size sm cl) by lia. done.
  - apply wp_ret. exists os1. split; [done|]. split; [done|]. split_and!; [|apply same_limits_refl|apply client_keeps_refl].
    rewrite Z.sub_diag, Z.mul_0_l, Z.add_0_r. eapply crep_ext; [done| |exact Hrep]. intros p c _ _. rewrite <- HLs.
    apply set_ls_id.
Qed.

Lemma wp_ReleaseToCentralCache strict T app Ls self e st cl N :
  crep strict T app Ls self e st -> self ∈ T -> 0 <= cl < nclasses -> Ls self cl <> [] -> 0 < N < 2 ^ 31 ->
  wp (ReleaseToCentralCache free_ central_cache_ sm self cl N) (fun _ st' => exists os1 os2, Ls self cl = os1 ++ os2 /\
    Z.of_nat (List.length os1) = Z.min N (Z.of_nat (List.length (Ls self cl))) /\
    crep strict T app (set_ls self cl os2 Ls) self e st' /\ same_limits st st' /\ client_keeps T ∅ app st st') st.
Proof.
  intros Hrep Hs Hcl0 Hne HN. destruct (Ls self cl) as [|x0 r0] eqn:HLs; [done|].
  assert (Hcl : 1 <= cl < nclasses) by (apply (crep_class _ _ _ _ _ _ _ self cl x0 Hrep Hs Hcl0); rewrite HLs; by left).
  rewrite <- HLs in *. clear HLs x0 r0. destruct (crep_cache _ _ _ _ _ _ _ self Hrep Hs) as [t Ht].
  pose proof (lr_length _ _ _ _ (cs_list _ _ _ _ _ _ _ Hrep self t cl Ht ltac:(lia))) as Hlen.
  pose proof (cs_bound _ _ _ _ _ _ _ Hrep self cl Hs Hcl0) as Hb. assert (kMaxDynamicFreeListLength = 8192) by done.
  unfold ReleaseToCentralCache. apply wp_bind, wp_deref_tc with t; [done|].
  rewrite Hlen, (u64_small N), Z.gtb_ltb by lia. set (k := Z.min N (Z.of_nat (List.length (Ls self cl)))).
  assert (Hk : (if Z.of_nat (List.length (Ls self cl)) <? N then i32 (Z.of_nat (List.length (Ls self cl))) else N) = k).
  { destruct (Z.ltb_spec (Z.of_nat (List.length (Ls self cl))) N); rewrite ?i32_small; unfold k; lia. }
  rewrite Hk. clear Hk. set (os1 := take (Z.to_nat k) (Ls self cl)). set (os2 := drop (Z.to_nat k) (Ls self cl)).
  assert (H12 : Ls self cl = os1 ++ os2) by (symmetry; apply take_drop).
  assert (0 < Z.of_nat (List.length (Ls self cl))) by (destruct (Ls self cl); [done|simpl; lia]).
  assert (Hl1 : Z.of_nat (List.length os1) = k) by (unfold os1; rewrite length_take; unfold k in *; lia).
  destruct (smo_move _ Hsm cl Hcl) as [Hmv _]. apply wp_bind. rewrite <- Hl1 at 1 2. eapply wp_mono.
  { apply (wp_cache_release_loop strict T app self cl _ _ Ls e st os1 os2 Hrep Hs Hcl Hmv H12); [|lia].
    intros Hnil. rewrite Hnil in Hl1. simpl in Hl1. unfold k in *. lia. }
  intros N' st1 (osb & -> & Hnb & Hrep1 & Hli1 & Hk1). apply wp_bind. eapply wp_mono.
  { apply (wp_release_range strict T app _ self _ st1 cl osb os2 Hrep1 Hs Hcl); [by rewrite set_ls_eq|done]. }
  intros [] st2 (Hrep2 & Hli2 & Hk2). destruct (crep_cache _ _ _ _ _ _ _ self Hrep2 Hs) as [t2 Ht2].
  apply wp_store_tc with t2; [done|].
  destruct (crep_size strict T app _ self _ (- (k * class_to_size sm cl)) st2 t2
    (set_size (t2.(size_) - u64 (i32 (k * ByteSizeForClass sm cl))) t2) Hrep2 Ht2) as (Hrep3 & Hli3 & Hk3); try done.
  { simpl. rewrite i32_sub_bytes. done. }
  exists os1, os2. split; [done|]. split; [done|]. split_and!.
  - eapply crep_ext; [done|intros; symmetry; apply set_ls_set|].
    replace e with (e + (Z.of_nat (List.length os1) - Z.of_nat (List.length osb)) * class_to_size sm cl +
      Z.of_nat (List.length osb) * class_to_size sm cl + - (k * class_to_size sm cl)) at 1 by lia. done.
  - eapply same_limits_trans; [done|]. by eapply same_limits_trans.
  - eapply client_trans; [done|]. by eapply client_trans.
Qed.
(** Between operations no list is longer than the maximum. *)
Definition short T (Ls : Z -> Z -> list Z) : Prop :=
  forall p cl, p ∈ T -> 0 <= cl < nclasses -> Z.of_nat (List.length (Ls p cl)) <= kMaxDynamicFreeListLength.

(** The parameters of a list change. *)
Lemma crep_tune strict T app Ls self e st cl t l' :
  crep strict T app Ls self e st -> st.(tcs) !! self = Some t -> 0 <= cl < nclasses ->
  l'.(fl_list) = (list_at t cl).(fl_list) -> l'.(fl_length) = (list_at t cl).(fl_length) ->
  l'.(fl_size) = (list_at t cl).(fl_size) -> 0 <= l'.(fl_lowater) <= l'.(fl_length) ->
  1 <= l'.(fl_max_length) <= kMaxDynamicFreeListLength -> 0 <= l'.(fl_length_overages) <= kMaxOverages ->
  let st' := upd_tcs (<[self := upd_list cl l' t]>) st in
  crep strict T app Ls self e st' /\ same_limits st st' /\ client_keeps T ∅ app st st'.
Proof.
  intros Hrep Ht Hcl H1 H2 H3 H4 H5 H6 st'. pose proof (cs_list _ _ _ _ _ _ _ Hrep self t cl Ht Hcl) as [Hl Hlen Hlow Hmax Hov Hsz].
  assert (HsT : self ∈ T) by (rewrite <- (cs_dom _ _ _ _ _ _ _ Hrep); by eapply elem_of_dom_2).
  destruct (crep_relist Hsm strict T app Ls self e e st st.(heap).(memory) cl t (upd_list cl l' t) (Ls self cl)
    (app cl) Hrep Ht Hcl) as (R1 & R2 & R3); try done.
  - split; rewrite list_at_upd, decide_True by done; try congruence; rewrite ?H1; try done; lia.
  - intros c Hc. by rewrite list_at_upd, decide_False.
  - simpl. rewrite (cs_size _ _ _ _ _ _ _ Hrep self t Ht), lists_bytes_set, !decide_True by done. f_equal. lia.
  - intros x Hx. by apply (cs_app _ _ _ _ _ _ _ Hrep self cl x).
  - by apply (cs_bound _ _ _ _ _ _ _ Hrep).
  - assert (Hst : st' = upd_tcs (<[self := upd_list cl l' t]>) (upd_heap (upd_memory (fun _ => st.(heap).(memory)) st.(heap)) st)).
    { unfold st'. by destruct st as [[] ? ? ? ? ? ? ? ?]. }
    rewrite Hst. split_and!; [|done|by apply R3]. eapply crep_ext; [|intros; symmetry; apply set_ls_id|exact R1].
    intros c x Hc. unfold set_app. by case_decide; [subst c|].
Qed.
End CacheOps.
