(* ===== verification/CacheAlloc.v ===== *)
(** Allocation from a thread cache. *)
From S2P Require Import Prelude SizeMap Sampler LinkedList Span PackedCache PageMap SysEnv PageHeap SpanStore.
From S2P Require Import PageHeapInv PageHeapOps PageHeapAlloc PageHeapGrow PageHeapNew.
From S2P Require Import CentralFreeList CentralInv CentralOps CentralPopulate CentralRemove CentralRelease CentralInsert.
From S2P Require Import ThreadCache CacheInv CacheOps.

Section CacheAlloc.
Context {W : Type} {E : Env W} {P : PageMap W} {G : EnvGhost W} {C : CacheEnv W}.
Context {ens : pm_t -> Z -> Prop} {free_ central_cache_ : Z} {sm : SizeMap}.
Context {EL : EnvLaws W} {CL : CacheEnvLaws W} {PL : PageMapLaws MetaDataAlloc P ens} {HLay : HeapLayout free_}.
Context (Hsm : size_map_ok sm) {CLay : CentralLayout (free_ := free_) (central_cache_ := central_cache_) (sm := sm)}.

Implicit Types (st : Caches) (p q cl : Z) (t : ThreadCache) (T : gset Z).

Abbreviation nclasses := (num_size_classes sm).

#[local] Existing Instance pinned_EL.
#[local] Existing Instance pinned_HLay.
#[local] Existing Instance pinned_CLay.
Abbreviation crep := (crep (ens := ens) (free_ := free_) (central_cache_ := central_cache_) (sm := sm)).
Abbreviation client_keeps := (client_keeps (free_ := free_) (central_cache_ := central_cache_) (sm := sm)).
Abbreviation lists_bytes := (lists_bytes sm).
Abbreviation list_rep := (list_rep (sm := sm)).

(** Objects the caller owns go to the front of a list: [m] and [hd] are the memory and the
    head afterwards. *)
Lemma push_step strict T app Ls self e st cl t m hd os (N := Z.of_nat (List.length os)) :
  crep strict T app Ls self e st -> st.(tcs) !! self = Some t -> 0 <= cl < nclasses ->
  sll m hd (os ++ Ls self cl) -> (forall x, x ∉ os -> m !! x = st.(heap).(memory) !! x) -> (forall x, x ∈ os -> x ∈ app cl) ->
  N + Z.of_nat (List.length (Ls self cl)) <= kMaxDynamicFreeListLength + 1 ->
  let ol := list_at t cl in
  let l := mkFreeList hd (u32 (ol.(fl_length) + N)) ol.(fl_lowater) ol.(fl_max_length) ol.(fl_length_overages) ol.(fl_size) in
  let st' := upd_tcs (<[self := upd_list cl l t]>) (upd_heap (upd_memory (fun _ => m) st.(heap)) st) in
  l.(fl_length) = N + Z.of_nat (List.length (Ls self cl)) /\
  crep strict T (set_app cl (app cl ∖ list_to_set os) app) (set_ls self cl (os ++ Ls self cl) Ls) self
    (e - N * class_to_size sm cl) st' /\
  same_limits st st' /\ client_keeps T (list_to_set os) app st st'.
Proof.
  intros Hrep Ht Hcl Hsll Hfr Hos Hb ol l. assert (kMaxDynamicFreeListLength = 8192) by done.
  assert (HsT : self ∈ T) by (rewrite <- (cs_dom _ _ _ _ _ _ _ Hrep); by eapply elem_of_dom_2).
  pose proof (cs_list _ _ _ _ _ _ _ Hrep self t cl Ht Hcl) as [Hl Hlen Hlow Hmax Hov Hsz].
  assert (Hll : l.(fl_length) = N + Z.of_nat (List.length (Ls self cl))).
  { unfold l, ol. simpl. rewrite Hlen, u32_small; lia. }
  split; [done|].
  assert (HL : list_rep m (upd_list cl l t) cl (os ++ Ls self cl)).
  { split; rewrite list_at_upd, decide_True by done; try done; rewrite ?Hll, length_app; unfold l, ol; simpl; lia. }
  destruct (crep_relist Hsm strict T app Ls self e (e - N * class_to_size sm cl) st m cl t (upd_list cl l t) (os ++ Ls self cl)
    (app cl ∖ list_to_set os) Hrep Ht Hcl) as (R1 & R2 & R3); try done.
  - intros x Hx _. apply Hfr. auto.
  - intros c Hc. by rewrite list_at_upd, decide_False.
  - simpl. rewrite (cs_size _ _ _ _ _ _ _ Hrep self t Ht), lists_bytes_set, !decide_True, length_app by done. f_equal. lia.
  - intros x. rewrite elem_of_difference, elem_of_app, elem_of_list_to_set. destruct (decide (x ∈ os)); naive_solver.
  - intros x [Hx|Hx]%elem_of_app; rewrite elem_of_difference, elem_of_list_to_set; [tauto|]. intros [? _].
    by apply (cs_app _ _ _ _ _ _ _ Hrep self cl x).
  - rewrite length_app. lia.
  - split_and!; [done|done|]. apply R3. intros x Hx HxY. apply Hfr. by rewrite elem_of_list_to_set in HxY.
Qed.

Lemma push_fresh strict T app Ls self e st cl os :
  crep strict T app Ls self e st -> self ∈ T -> 0 <= cl < nclasses -> NoDup os -> NoDup (Ls self cl) ->
  (forall x, x ∈ os -> x ∈ app cl) -> NoDup (os ++ Ls self cl).
Proof.
  intros Hrep Hs Hcl Hnd Hnd' Hos. apply NoDup_app. split_and!; try done.
  intros x Hx Hx'. apply (cs_app _ _ _ _ _ _ _ Hrep self cl x); auto.
Qed.

(** [PushRange] *)
Lemma push_range_step strict T app Ls self e st cl t start os (N := Z.of_nat (List.length os)) :
  crep strict T app Ls self e st -> st.(tcs) !! self = Some t -> 0 <= cl < nclasses ->
  sll st.(heap).(memory) start os -> (forall x, x ∈ os -> x ∈ app cl) ->
  N + Z.of_nat (List.length (Ls self cl)) <= kMaxDynamicFreeListLength + 1 ->
  let '(m, l) := FL_PushRange st.(heap).(memory) (list_at t cl) N start (default 0 (last os)) in
  let st' := upd_tcs (<[self := upd_list cl l t]>) (upd_heap (upd_memory (fun _ => m) st.(heap)) st) in
  crep strict T (set_app cl (app cl ∖ list_to_set os) app) (set_ls self cl (os ++ Ls self cl) Ls) self
    (e - N * class_to_size sm cl) st' /\
  same_limits st st' /\ client_keeps T (list_to_set os) app st st'.
Proof.
  intros Hrep Ht Hcl Hs Hos Hb.
  assert (HsT : self ∈ T) by (rewrite <- (cs_dom _ _ _ _ _ _ _ Hrep); by eapply elem_of_dom_2).
  pose proof (cs_list _ _ _ _ _ _ _ Hrep self t cl Ht Hcl) as [Hl _ _ _ _ _].
  pose proof (push_fresh _ _ _ _ _ _ _ _ _ Hrep HsT Hcl (proj2 Hs) (proj2 Hl) Hos) as Hnd.
  unfold FL_PushRange.
  assert (Hpush : let '(m', head') := SLL_PushRange st.(heap).(memory) (list_at t cl).(fl_list) start (default 0 (last os)) in
     sll m' head' (os ++ Ls self cl) /\ forall x, x ∉ os -> m' !! x = st.(heap).(memory) !! x).
  { destruct (decide (os = [])) as [->|Hne].
    - simpl in *. destruct Hs as [-> _]. by split.
    - destruct (exists_last Hne) as (r & z & ->). rewrite last_snoc. simpl.
      pose proof (SLL_PushRange_sll _ _ (Ls self cl) start z r Hl (proj1 Hs)) as Hp. rewrite <- app_assoc in Hnd. specialize (Hp Hnd).
      rewrite <- app_assoc. unfold SLL_PushRange, SLL_SetNext in *. destruct (start =? 0); split; try done.
      intros x Hx. rewrite lookup_insert_ne; [done|]. set_solver. }
  destruct (SLL_PushRange _ _ _ _) as [m hd]. destruct Hpush as [Hsll Hfr].
  by apply (push_step strict T app Ls self e st cl t m hd os).
Qed.

Lemma crep_app_class strict T app Ls self e st c1 c2 x :
  crep strict T app Ls self e st -> 0 <= c1 < nclasses -> 0 <= c2 < nclasses -> x ∈ app c1 -> x ∈ app c2 -> c1 = c2.
Proof.
  intros [(Gs & HG & Heq) _ _ _ _ _ _] H1 H2 Hx1 Hx2. symmetry.
  apply (out_class (G := pinned T) Hsm strict Gs st.(heap) c1 c2 x HG); try done; apply Heq; auto.
Qed.

Lemma i32_add_i32 a b : i32 (a + i32 b) = i32 (a + b).
Proof. rewrite Z.add_comm, i32_i32. f_equal. lia. Qed.

(** The length limit of a list after a fetch. *)
Lemma wp_grow_limit strict T app Ls self e st cl t (batch := num_objects_to_move sm cl) :
  crep strict T app Ls self e st -> st.(tcs) !! self = Some t -> 1 <= cl < nclasses ->
  wp (let list := list_at t cl in
      if list.(fl_max_length) <? batch then
        store_tc self (upd_list cl (set_max_length (list.(fl_max_length) + 1) list))
      else
        let new_length := Z.min (i32 (list.(fl_max_length) + batch)) kMaxDynamicFreeListLength in
        if batch =? 0 then crash
        else
          let new_length := new_length - Z.rem new_length batch in
          store_tc self (upd_list cl (set_max_length new_length list)))
    (fun _ st' => crep strict T app Ls self e st' /\ same_limits st st' /\ client_keeps T ∅ app st st') st.
Proof.
  intros Hrep Ht Hcl.
  assert (kMaxDynamicFreeListLength = 8192) by done.
  pose proof (cs_list _ _ _ _ _ _ _ Hrep self t cl Ht ltac:(lia)) as [Hl Hlen Hlow Hmax Hov Hsz].
  pose proof (smo_move _ Hsm cl Hcl) as Hmv. fold batch in Hmv. cbv zeta.
  destruct (Z.ltb_spec (list_at t cl).(fl_max_length) batch).
  - apply wp_store_tc with t; [done|]. apply (crep_tune Hsm); try done; try lia; simpl; rewrite ?u32_small; lia.
  - destruct (Z.eqb_spec batch 0) as [|_]; [lia|]. apply wp_store_tc with t; [done|]. rewrite i32_small by lia.
    set (n := Z.min _ _). assert (batch <= n <= 8192) by (unfold n; lia).
    pose proof (Z.rem_bound_pos n batch ltac:(lia) ltac:(lia)) as Hr.
    apply (crep_tune Hsm); try done; try lia; simpl; rewrite ?u32_small; try lia.
Qed.

(** The outcome of an allocation: a call of [oom_handler] with unchanged caches, or a
    fresh object. *)
Definition allocated strict T app Ls self cl (Q : Z + Z -> Caches -> Prop) st : Prop :=
  (forall st', crep strict T app Ls self 0 st' -> same_limits st st' -> client_keeps T ∅ app st st' ->
    no_pages (class_to_pages sm cl) st.(heap).(pageheap) st'.(heap).(pageheap).(errno) -> Q (inr (class_to_size sm cl)) st') /\
  (forall x os st', x ∉ app cl ->
    crep strict T (set_app cl (app cl ∪ {[x]}) app) (set_ls self cl os Ls) self 0 st' ->
    same_limits st st' -> client_keeps T ∅ app st st' ->
    Z.of_nat (List.length os) <= kMaxDynamicFreeListLength -> Q (inl x) st').

Lemma wp_FetchFromCentralCache strict T app Ls self st cl Q :
  crep strict T app Ls self 0 st -> self ∈ T -> 1 <= cl < nclasses -> Ls self cl = [] ->
  allocated strict T app Ls self cl Q st ->
  wp (FetchFromCentralCache free_ central_cache_ sm self cl (class_to_size sm cl)) Q st.
Proof.
  intros Hrep Hs Hcl HLs [Hoom Hok]. destruct (crep_cache _ _ _ _ _ _ _ self Hrep Hs) as [t Ht].
  pose proof (smo_move _ Hsm cl Hcl) as Hmv. assert (Hk : kMaxDynamicFreeListLength = 8192) by done.
  pose proof (cs_list _ _ _ _ _ _ _ Hrep self t cl Ht ltac:(lia)) as [Hl Hlen Hlow Hmax Hov Hsz].
  unfold FetchFromCentralCache. apply wp_bind, wp_deref_tc with t; [done|]. rewrite i32_small by lia.
  apply wp_bind. eapply wp_mono; [apply (wp_cache_remove Hsm strict T app Ls self 0 st cl _ Hrep Hcl); lia|].
  intros [[n start] end_] st1 (os & (Hn & Hsll & Hend) & Hle & Hfr & Hrep1 & Hl1 & Hk1 & Htcs & Hno). simpl in *.
  destruct (Z.eqb_spec n 0) as [Hz|Hnz].
  { destruct os as [|]; [|simpl in Hn; lia]. apply wp_ret, Hoom; auto. eapply crep_ext; [| |exact Hrep1]; [|done].
    intros c x Hc. unfold set_app. case_decide; [subst c; set_solver|done]. }
  destruct os as [|x rest]; [simpl in Hn; lia|]. destruct Hsll as [(-> & Hx0 & Hseg) Hnd]. apply NoDup_cons in Hnd as [Hxr Hnd].
  set (app1 := set_app cl _ app) in *. assert (Happ1 : app1 cl = app cl ∪ list_to_set (x :: rest)) by (unfold app1, set_app; by rewrite decide_True).
  simpl in Hn, Hle. assert (Hn1 : i32 (n - 1) = Z.of_nat (List.length rest)) by (rewrite i32_small; lia). rewrite Hn1.
  destruct (Z.geb_spec (Z.of_nat (List.length rest)) 0); [|lia].
  rewrite <- Htcs in Ht. apply wp_bind, wp_bind, wp_store_tc with t; [done|]. set (t1 := set_size _ t). set (st2 := upd_tcs _ st1).
  destruct (crep_size Hsm strict T app1 Ls self 0 (class_to_size sm cl * Z.of_nat (List.length rest)) st1 t t1 Hrep1 Ht)
    as (Hrep2 & Hl2 & Hk2); try done.
  { unfold t1. simpl. apply i32_add_i32. }
  assert (Ht2 : st2.(tcs) !! self = Some t1) by apply lookup_insert_eq.
  apply wp_bind, wp_deref_tc with t1; [done|]. apply wp_bind, wp_get.
  pose proof (push_range_step strict T app1 Ls self _ st2 cl t1 (SLL_Next st1.(heap).(memory) x) rest Hrep2 Ht2 ltac:(lia)) as Hpush.
  assert (Hpe : FL_PushRange st2.(heap).(memory) (list_at t1 cl) (Z.of_nat (List.length rest)) (SLL_Next st2.(heap).(memory) x) end_ =
    FL_PushRange st2.(heap).(memory) (list_at t1 cl) (Z.of_nat (List.length rest)) (SLL_Next st1.(heap).(memory) x) (default 0 (last rest))).
  { change (SLL_Next st2.(heap).(memory) x) with (SLL_Next st1.(heap).(memory) x). destruct rest as [|y r]; [simpl in Hseg; by rewrite Hseg|].
    by rewrite Hend. }
  rewrite Hpe. clear Hpe. destruct (FL_PushRange _ _ _ _ _) as [m l].
  destruct Hpush as (Hrep3 & Hl3 & Hk3); [by split| |rewrite HLs; simpl; lia|].
  { intros y Hy. rewrite Happ1. set_solver. }
  apply wp_bind, wp_modify_mem, wp_store_tc with t1; [done|].
  match goal with |- wp _ _ ?w => set (st3 := w) in * end. rewrite HLs, app_nil_r in Hrep3.
  apply wp_bind, wp_deref_tc with (upd_list cl l t1); [apply lookup_insert_eq|]. apply wp_bind. eapply wp_mono.
  { eapply wp_grow_limit; [exact Hrep3|apply lookup_insert_eq|done]. }
  intros [] st4 (Hrep4 & Hl4 & Hk4). apply wp_ret. apply (Hok x rest); [by apply (Hfr x); left| | | |lia].
  - replace 0 with (0 + class_to_size sm cl * Z.of_nat (List.length rest) - Z.of_nat (List.length rest) * class_to_size sm cl) by lia.
    eapply crep_ext; [| |exact Hrep4]; [|done]. intros c y Hc. unfold set_app at 1 2. case_decide; [subst c|].
    + rewrite Happ1. assert (y ∈ rest -> y ∉ app cl) by (intros Hy; apply Hfr; by right). set_solver.
    + unfold app1, set_app. by rewrite decide_False.
  - eapply same_limits_trans; [exact Hl1|]. eapply same_limits_trans; [exact Hl2|]. by eapply same_limits_trans.
  - assert (Hka : client_keeps T (∅ ∪ list_to_set rest) app1 st1 st3).
    { eapply (client_keeps_trans (ens := ens) Hsm); [exact Hk2|exact Hk3|done]. }
    assert (Hkb : client_keeps T (list_to_set rest) app1 st1 st4).
    { rewrite union_empty_l_L in Hka. rewrite <- (union_empty_r_L (list_to_set rest)).
      eapply (client_keeps_trans (ens := ens) Hsm); [exact Hka|exact Hk4|]. intros c y Hc Hy HyX. unfold set_app at 1.
      case_decide; [subst c; set_solver|done]. }
    eapply visible_drop with (X := ∅ ∪ list_to_set rest).
    { eapply (client_keeps_trans (ens := ens) Hsm); [exact Hk1|exact Hkb|]. intros c y Hc Hy _. unfold app1, set_app.
      case_decide; [subst c; set_solver|done]. }
    simpl. intros c y Hc Hy Hya. rewrite union_empty_l_L, elem_of_list_to_set in Hy.
    assert (c = cl) as ->; [|by apply (Hfr y); [right|]].
    apply (crep_app_class strict T app1 Ls self 0 st1 c cl y Hrep1); [done|lia| |rewrite Happ1; set_solver].
    unfold app1, set_app. case_decide; [subst c; set_solver|done].
Qed.

Lemma wp_Allocate strict T app Ls self st cl Q :
  crep strict T app Ls self 0 st -> self ∈ T -> 1 <= cl < nclasses -> 0 <= class_to_size sm cl < 2 ^ 31 ->
  Z.of_nat (List.length (Ls self cl)) <= kMaxDynamicFreeListLength ->
  allocated strict T app Ls self cl Q st ->
  wp (Allocate free_ central_cache_ sm self (class_to_size sm cl) cl) Q st.
Proof.
  intros Hrep Hs Hcl Hsize Hb Hall. destruct (crep_cache _ _ _ _ _ _ _ self Hrep Hs) as [t Ht].
  assert (Hk : kMaxDynamicFreeListLength = 8192) by done.
  pose proof (cs_list _ _ _ _ _ _ _ Hrep self t cl Ht ltac:(lia)) as [Hl Hlen Hlow Hmax Hov Hsz].
  unfold Allocate. apply wp_bind, wp_deref_tc with t; [done|]. apply wp_bind, wp_get. unfold FL_TryPop.
  pose proof (SLL_TryPop_sll _ _ _ Hl) as Hpop. destruct (Ls self cl) as [|x os] eqn:HLs.
  { rewrite Hpop, i32_small by lia. by apply (wp_FetchFromCentralCache strict T app Ls). }
  destruct Hpop as [-> Hl']. destruct Hall as [_ Hok]. apply wp_bind, wp_store_tc with t; [done|].
  assert (Hnd : x ∉ os) by (destruct Hl as [_ Hnd]; by apply NoDup_cons in Hnd as [? _]).
  assert (Hxa : x ∉ app cl) by (apply (cs_app _ _ _ _ _ _ _ Hrep self cl x); [done|lia|rewrite HLs; by left]).
  simpl in Hlen, Hlow, Hb. rewrite u32_small by lia. set (l := set_list _ _ _). set (t' := set_size _ _).
  destruct (crep_relist Hsm strict T app Ls self 0 0 st st.(heap).(memory) cl t t' os (app cl ∪ {[x]}) Hrep Ht ltac:(lia))
    as (R1 & R2 & R3); try done.
  - split; unfold t'; change (list_at (set_size ?a ?b)) with (list_at b); rewrite list_at_upd, decide_True by done;
      unfold l, set_list; simpl; try done; [lia|]. destruct (Z.ltb_spec ((list_at t cl).(fl_length) - 1) (list_at t cl).(fl_lowater)); lia.
  - intros c Hc. unfold t'. change (list_at (set_size ?a ?b)) with (list_at b). by rewrite list_at_upd, decide_False.
  - simpl. rewrite (cs_size _ _ _ _ _ _ _ Hrep self t Ht), lists_bytes_set, !decide_True, HLs by (done || lia). simpl.
    rewrite <- Z.add_opp_r, i32_i32. f_equal. lia.
  - intros y. rewrite HLs. set_solver.
  - intros y Hy [Hya|Hyx%elem_of_singleton]%elem_of_union; [|by subst].
    apply (cs_app _ _ _ _ _ _ _ Hrep self cl y); [done|lia| |done]. rewrite HLs. by right.
  - lia.
  - apply wp_ret. assert (Hst : upd_tcs (<[self := t']>) st =
      upd_tcs (<[self := t']>) (upd_heap (upd_memory (fun _ => st.(heap).(memory)) st.(heap)) st)) by (by destruct st as [[] ? ? ? ? ? ? ? ?]).
    apply (Hok x os); rewrite ?Hst; try done; try lia; by apply R3.
Qed.
End CacheAlloc.
