(* ===== verification/CacheFree.v ===== *)
(** Deallocation into a thread cache, and its garbage collection. *)
From S2P Require Import Prelude SizeMap Sampler LinkedList Span PackedCache PageMap SysEnv PageHeap SpanStore.
From S2P Require Import PageHeapInv PageHeapOps PageHeapAlloc PageHeapGrow PageHeapNew.
From S2P Require Import CentralFreeList CentralInv CentralOps CentralPopulate CentralRemove CentralRelease CentralInsert.
From S2P Require Import ThreadCache CacheInv CacheLimits CacheOps CacheAlloc.

Section CacheFree.
Context {W : Type} {E : Env W} {P : PageMap W} {G : EnvGhost W} {C : CacheEnv W}.
Context {ens : pm_t -> Z -> Prop} {free_ central_cache_ : Z} {sm : SizeMap}.
Context {EL : EnvLaws W} {CL : CacheEnvLaws W} {PL : PageMapLaws MetaDataAlloc P ens} {HLay : HeapLayout free_}.
Context (Hsm : size_map_ok sm) {CLay : CentralLayout (free_ := free_) (central_cache_ := central_cache_) (sm := sm)}.

Implicit Types (st : Caches) (p q cl : Z) (t : ThreadCache) (T : gset Z).

Abbreviation nclasses := (num_size_classes sm).

#[local] Existing Instance pinned_EL.
#[local] Existing Instance pinned_HLay.
#[local] Existing Instance pinned_CLay.
Abbreviation crep := (crep (ens := ens) (free_ := free_) (central_cache_ := central_cache_) (sm := sm)).
Abbreviation client_keeps := (client_keeps (free_ := free_) (central_cache_ := central_cache_) (sm := sm)).
Abbreviation lists_bytes := (lists_bytes sm).
Abbreviation list_rep := (list_rep (sm := sm)).

Abbreviation short := (short (sm := sm)).

Lemma budget_same heaps st st' : same_limits st st' -> budget heaps st -> budget heaps st'.
Proof.
  intros [H1 H2 H3 H4 H5 H6 H7 Ht] [].
  assert (Hfst : forall p, max_size_ <$> st'.(tcs) !! p = max_size_ <$> st.(tcs) !! p).
  { intros p. specialize (Ht p). destruct (st'.(tcs) !! p), (st.(tcs) !! p); simpl in *; congruence. }
  split; rewrite ?H1, ?H2, ?H3, ?H4, ?H5, ?H7, ?(claimed_ext _ _ Hfst); try done.
  - eapply tchain_links; [|done]. intros p _. specialize (Ht p). destruct (st'.(tcs) !! p), (st.(tcs) !! p); simpl in *; congruence.
  - intros p t Hp. specialize (Hfst p). rewrite Hp in Hfst. destruct (st.(tcs) !! p) as [u|] eqn:Hu; [|done].
    injection Hfst as ->. eauto.
Qed.

Lemma crep_tuned strict T app Ls self e st st' : crep strict T app Ls self e st -> tuned st st' ->
  crep strict T app Ls self e st' /\ client_keeps T ∅ app st st'.
Proof.
  intros [Hh Hdom Hls Hb Hap Hsep Hsize] [Hheap _ _ _ _ Ht].
  assert (Hback : forall p t', st'.(tcs) !! p = Some t' -> exists t, st.(tcs) !! p = Some t /\ t'.(list_) = t.(list_) /\ t'.(size_) = t.(size_)).
  { intros p t' Hp. specialize (Ht p). rewrite Hp in Ht. destruct (st.(tcs) !! p) as [t|]; [|done]. injection Ht as ? ?. by exists t. }
  split; [|unfold CacheInv.client_keeps; rewrite Hheap; apply visible_refl].
  split; rewrite ?Hheap; try done.
  - rewrite <- Hdom. apply set_eq. intros p. rewrite !elem_of_dom. specialize (Ht p).
    destruct (st'.(tcs) !! p), (st.(tcs) !! p); simpl in *; try done.
  - intros p t' cl Hp Hcl. destruct (Hback p t' Hp) as (t & Hpt & El & _). destruct (Hls p t cl Hpt Hcl).
    by split; unfold list_at in *; rewrite El.
  - intros p t' Hp. destruct (Hback p t' Hp) as (t & Hpt & _ & ->). by apply Hsize.
Qed.

(** No list grows. *)
Definition shrunk (Ls Ls' : Z -> Z -> list Z) : Prop := forall p c, (List.length (Ls' p c) <= List.length (Ls p c))%nat.

Lemma shrunk_refl Ls : shrunk Ls Ls.
Proof. intros p c. lia. Qed.

Lemma short_shrunk T Ls Ls' : shrunk Ls Ls' -> short T Ls -> short T Ls'.
Proof. intros Hsh HS p c Hp Hc. specialize (Hsh p c). specialize (HS p c Hp Hc). lia. Qed.

Lemma shrunk_set p c os Ls : (List.length os <= List.length (Ls p c))%nat -> shrunk Ls (set_ls p c os Ls).
Proof. intros Hl q d. unfold set_ls. case_decide as Hd; [by destruct Hd as [-> ->]|lia]. Qed.

(** Steps on the lists of [self] that the owners of objects do not see. *)
Definition quiet strict T app Ls self e st Ls' st' : Prop :=
  crep strict T app Ls' self e st' /\ same_limits st st' /\ client_keeps T ∅ app st st' /\ shrunk Ls Ls'.

Lemma quiet_refl strict T app Ls self e st : crep strict T app Ls self e st -> quiet strict T app Ls self e st Ls st.
Proof. intros H. split_and!; [done|apply same_limits_refl|apply client_keeps_refl|apply shrunk_refl]. Qed.

Lemma quiet_trans strict T app Ls self e st1 Ls2 st2 Ls3 st3 :
  quiet strict T app Ls self e st1 Ls2 st2 -> quiet strict T app Ls2 self e st2 Ls3 st3 -> quiet strict T app Ls self e st1 Ls3 st3.
Proof.
  intros (H1 & H2 & H3 & H4) (H5 & H6 & H7 & H8). split_and!; [done|by eapply same_limits_trans|by eapply (client_trans (ens := ens) Hsm)|].
  intros p c. specialize (H4 p c). specialize (H8 p c). lia.
Qed.

Lemma wp_scavenge_class strict T app Ls self e st cl :
  crep strict T app Ls self e st -> self ∈ T -> 0 <= cl < nclasses ->
  wp (scavenge_class free_ central_cache_ sm self cl) (fun _ st' => exists Ls', quiet strict T app Ls self e st Ls' st') st.
Proof.
  intros Hrep Hs Hcl. destruct (crep_cache _ _ _ _ _ _ _ self Hrep Hs) as [t Ht].
  assert (Hk : kMaxDynamicFreeListLength = 8192) by done. pose proof (cs_bound _ _ _ _ _ _ _ Hrep self cl Hs Hcl) as Hb.
  pose proof (cs_list _ _ _ _ _ _ _ Hrep self t cl Ht ltac:(lia)) as [Hl Hlen Hlow Hmax Hov Hsz].
  unfold scavenge_class. apply wp_bind, wp_deref_tc with t; [done|]. rewrite i32_small by lia. apply wp_bind.
  apply wp_mono with (Q := fun _ st1 => exists Ls', quiet strict T app Ls self e st Ls' st1).
  - rewrite Z.gtb_ltb. destruct (Z.ltb_spec 0 (list_at t cl).(fl_lowater)) as [Hlo|]; [|apply wp_ret; exists Ls; by apply quiet_refl].
    assert (Hne : Ls self cl <> []) by (intros Hn; rewrite Hn in Hlow; simpl in Hlow; lia).
    assert (Hcl1 : 1 <= cl < nclasses).
    { destruct (Ls self cl) as [|x0 r0] eqn:HLs; [done|]. apply (crep_class _ _ _ _ _ _ _ self cl x0 Hrep Hs Hcl). rewrite HLs. by left. }
    set (n := if _ >? 1 then _ else 1). assert (Hn : 0 < n < 2 ^ 31).
    { unfold n. rewrite Z.gtb_ltb. destruct (Z.ltb_spec 1 (list_at t cl).(fl_lowater)); [|lia]. rewrite Z.quot_div_nonneg by lia.
      pose proof (Z.div_mod (list_at t cl).(fl_lowater) 2 ltac:(lia)). pose proof (Z.mod_pos_bound (list_at t cl).(fl_lowater) 2 ltac:(lia)). lia. }
    apply wp_bind. eapply wp_mono; [by apply (wp_ReleaseToCentralCache Hsm strict T app Ls self e st cl n)|].
    intros [] st1 (os1 & os2 & HLs & _ & Hrep1 & Hl1 & Hk1). set (Ls1 := set_ls self cl os2 Ls) in *.
    assert (Hq1 : quiet strict T app Ls self e st Ls1 st1).
    { split_and!; try done. apply shrunk_set. rewrite HLs, length_app. lia. }
    destruct (crep_cache _ _ _ _ _ _ _ self Hrep1 Hs) as [t1 Ht1]. apply wp_bind, wp_deref_tc with t1; [done|].
    pose proof (cs_list _ _ _ _ _ _ _ Hrep1 self t1 cl Ht1 ltac:(lia)) as [Hl' Hlen' Hlow' Hmax' Hov' Hsz'].
    pose proof (smo_move _ Hsm cl Hcl1) as Hmv. cbv zeta. rewrite Z.gtb_ltb.
    destruct (Z.ltb_spec (num_objects_to_move sm cl) (list_at t1 cl).(fl_max_length)); [|apply wp_ret; by exists Ls1].
    apply wp_store_tc with t1; [done|]. exists Ls1. eapply quiet_trans; [exact Hq1|].
    destruct (crep_tune Hsm strict T app Ls1 self e st1 cl t1 (set_max_length
      (Z.max (i32 ((list_at t1 cl).(fl_max_length) - num_objects_to_move sm cl)) (num_objects_to_move sm cl)) (list_at t1 cl)) Hrep1 Ht1 Hcl)
      as (R1 & R2 & R3); try done; simpl; [lia|rewrite i32_small, u32_small; lia|].
    by split_and!; [..|apply shrunk_refl].
  - intros [] st1 (Ls1 & Hq1). pose proof Hq1 as (Hrep1 & _). destruct (crep_cache _ _ _ _ _ _ _ self Hrep1 Hs) as [t1 Ht1].
    apply wp_store_tc with t1; [done|]. exists Ls1. eapply quiet_trans; [exact Hq1|].
    pose proof (cs_list _ _ _ _ _ _ _ Hrep1 self t1 cl Ht1 ltac:(lia)) as [Hl' Hlen' Hlow' Hmax' Hov' Hsz'].
    destruct (crep_tune Hsm strict T app Ls1 self e st1 cl t1 (clear_lowwatermark (list_at t1 cl)) Hrep1 Ht1 Hcl)
      as (R1 & R2 & R3); try done; simpl; [lia|]. by split_and!; [..|apply shrunk_refl].
Qed.

Lemma wp_scavenge_loop strict T app self e classes : forall Ls st,
  crep strict T app Ls self e st -> self ∈ T -> (forall cl, cl ∈ classes -> 0 <= cl < nclasses) ->
  wp (scavenge_loop free_ central_cache_ sm classes self) (fun _ st' => exists Ls', quiet strict T app Ls self e st Ls' st') st.
Proof.
  induction classes as [|cl classes IH]; intros Ls st Hrep Hs Hin; simpl; [apply wp_ret; exists Ls; by apply quiet_refl|].
  apply wp_bind. eapply wp_mono; [apply (wp_scavenge_class strict T app Ls self e st cl Hrep Hs); apply Hin; by left|].
  intros [] st1 (Ls1 & Hq1). eapply wp_mono; [apply (IH Ls1 st1); [apply Hq1|done|intros; apply Hin; by right]|].
  intros [] st2 (Ls2 & Hq2). exists Ls2. by eapply quiet_trans.
Qed.

(** A garbage collection of the cache [self]. *)
Definition collected strict T app Ls self heaps st Ls' st' : Prop :=
  crep strict T app Ls' self 0 st' /\ budget heaps st' /\ client_keeps T ∅ app st st' /\ shrunk Ls Ls'.

Lemma quiet_collected strict T app Ls self heaps st Ls1 st1 Ls2 st2 :
  quiet strict T app Ls self 0 st Ls1 st1 -> collected strict T app Ls1 self heaps st1 Ls2 st2 ->
  collected strict T app Ls self heaps st Ls2 st2.
Proof.
  intros (H1 & H2 & H3 & H4) (H5 & H6 & H7 & H8). split_and!; [done|done|by eapply (client_trans (ens := ens) Hsm)|].
  intros p c. specialize (H4 p c). specialize (H8 p c). lia.
Qed.

Lemma wp_Scavenge strict T app Ls self heaps st :
  crep strict T app Ls self 0 st -> self ∈ T -> budget heaps st -> heaps <> [] ->
  wp (Scavenge free_ central_cache_ sm self) (fun _ st' => exists Ls', collected strict T app Ls self heaps st Ls' st') st.
Proof.
  intros Hrep Hs Hbu Hne. unfold Scavenge. apply wp_bind.
  eapply wp_mono; [apply (wp_scavenge_loop strict T app self 0 _ Ls st Hrep Hs); intros cl Hcl%elem_of_seqZ; lia|].
  intros [] st1 (Ls1 & Hq1). pose proof Hq1 as (Hrep1 & Hl1 & _). destruct (crep_cache _ _ _ _ _ _ _ self Hrep1 Hs) as [t1 Ht1].
  eapply wp_mono; [apply (wp_IncreaseCacheLimit heaps); [by eapply budget_same|done|by exists t1]|].
  intros [] st2 (Hbu2 & Htu & _). exists Ls1. eapply quiet_collected; [exact Hq1|].
  destruct (crep_tuned _ _ _ _ _ _ _ _ Hrep1 Htu) as [Hrep2 Hk2]. split_and!; [done|done|done|apply shrunk_refl].
Qed.

(** [if (size_ > max_size_) Scavenge();] *)
Lemma wp_check_size strict T app Ls self heaps st :
  crep strict T app Ls self 0 st -> self ∈ T -> budget heaps st -> heaps <> [] ->
  wp (t ← deref_tc self; if t.(size_) >? t.(max_size_) then Scavenge free_ central_cache_ sm self else skip)
    (fun _ st' => exists Ls', collected strict T app Ls self heaps st Ls' st') st.
Proof.
  intros Hrep Hs Hbu Hne. destruct (crep_cache _ _ _ _ _ _ _ self Hrep Hs) as [t Ht]. apply wp_bind, wp_deref_tc with t; [done|].
  destruct (_ >? _); [by apply wp_Scavenge|]. apply wp_ret. exists Ls. split_and!; [done|done|apply client_keeps_refl|apply shrunk_refl].
Qed.

Lemma upd_list_twice self cl l l' t st :
  upd_tcs (<[self := upd_list cl l' (upd_list cl l t)]>) (upd_tcs (<[self := upd_list cl l t]>) st) =
  upd_tcs (<[self := upd_list cl l' t]>) st.
Proof. unfold upd_tcs, upd_list. simpl. by rewrite !insert_insert_eq. Qed.

(** The length limit of a list that was too long. *)
Lemma wp_adapt_limit strict T app Ls self st cl t (batch := num_objects_to_move sm cl) :
  crep strict T app Ls self 0 st -> st.(tcs) !! self = Some t -> 1 <= cl < nclasses ->
  wp (let list := list_at t cl in
      if list.(fl_max_length) <? batch then
        store_tc self (upd_list cl (set_max_length (list.(fl_max_length) + 1) list))
      else if list.(fl_max_length) >? batch then
        let list := set_length_overages (list.(fl_length_overages) + 1) list in
        store_tc self (upd_list cl list) ;;
        if list.(fl_length_overages) >? kMaxOverages then
          store_tc self (upd_list cl (set_length_overages 0 (set_max_length (list.(fl_max_length) - batch) list)))
        else skip
      else skip) (fun _ st' => quiet strict T app Ls self 0 st Ls st') st.
Proof.
  intros Hrep Ht Hcl. assert (Hk : kMaxDynamicFreeListLength = 8192) by done. assert (Ho : kMaxOverages = 3) by done.
  pose proof (cs_list _ _ _ _ _ _ _ Hrep self t cl Ht ltac:(lia)) as [Hl Hlen Hlow Hmax Hov Hsz].
  pose proof (smo_move _ Hsm cl Hcl) as Hmv. fold batch in Hmv. cbv zeta. set (list := list_at t cl) in *.
  assert (Htune : forall l', l'.(fl_list) = list.(fl_list) -> l'.(fl_length) = list.(fl_length) -> l'.(fl_size) = list.(fl_size) ->
    l'.(fl_lowater) = list.(fl_lowater) -> 1 <= l'.(fl_max_length) <= 8192 -> 0 <= l'.(fl_length_overages) <= 3 ->
    quiet strict T app Ls self 0 st Ls (upd_tcs (<[self := upd_list cl l' t]>) st)).
  { intros l' E1 E2 E3 E4 E5 E6. destruct (crep_tune Hsm strict T app Ls self 0 st cl t l' Hrep Ht ltac:(lia)) as (R1 & R2 & R3);
      try done; [rewrite E4, E2; lia|]. by split_and!; [..|apply shrunk_refl]. }
  destruct (Z.ltb_spec list.(fl_max_length) batch).
  { apply wp_store_tc with t; [done|]. apply Htune; try done; simpl; rewrite ?u32_small; lia. }
  rewrite Z.gtb_ltb. destruct (Z.ltb_spec batch list.(fl_max_length)); [|apply wp_ret; by apply quiet_refl].
  apply wp_bind, wp_store_tc with t; [done|]. simpl. rewrite u32_small, Z.gtb_ltb by lia.
  destruct (Z.ltb_spec kMaxOverages (list.(fl_length_overages) + 1)).
  - eapply wp_store_tc; [apply lookup_insert_eq|]. rewrite upd_list_twice. apply Htune; try done; simpl; rewrite ?u32_small; lia.
  - apply wp_ret. apply Htune; try done; simpl; rewrite ?u32_small; lia.
Qed.

Lemma wp_ListTooLong strict T app Ls self heaps st cl :
  crep strict T app Ls self (- class_to_size sm cl) st -> self ∈ T -> budget heaps st -> heaps <> [] ->
  1 <= cl < nclasses -> Ls self cl <> [] ->
  wp (ListTooLong free_ central_cache_ sm self cl) (fun _ st' => exists Ls', collected strict T app Ls self heaps st Ls' st' /\
    (List.length (Ls' self cl) < List.length (Ls self cl))%nat) st.
Proof.
  intros Hrep Hs Hbu Hne Hcl HLne. destruct (crep_cache _ _ _ _ _ _ _ self Hrep Hs) as [t Ht].
  pose proof (lr_size _ _ _ _ (cs_list _ _ _ _ _ _ _ Hrep self t cl Ht ltac:(lia))) as Hsz.
  pose proof (smo_move _ Hsm cl Hcl) as Hmv. unfold ListTooLong. apply wp_bind, wp_store_tc with t; [done|].
  destruct (crep_size Hsm strict T app Ls self _ (class_to_size sm cl) st t (set_size (t.(size_) + (list_at t cl).(fl_size)) t) Hrep Ht)
    as (Hrep1 & Hl1 & Hk1); try done.
  { simpl. by rewrite Hsz. }
  rewrite Z.add_opp_diag_l in Hrep1. set (st1 := upd_tcs _ st) in *. apply wp_bind.
  eapply wp_mono; [apply (wp_ReleaseToCentralCache Hsm strict T app Ls self 0 st1 cl _ Hrep1 Hs ltac:(lia) HLne); lia|].
  intros [] st2 (os1 & os2 & HLs & Hos1 & Hrep2 & Hl2 & Hk2). set (Ls2 := set_ls self cl os2 Ls) in *.
  assert (Hlt : (List.length os2 < List.length (Ls self cl))%nat).
  { rewrite HLs, length_app. assert (0 < Z.of_nat (List.length os1)); [|lia]. rewrite Hos1.
    destruct (Ls self cl); [done|]. simpl. lia. }
  destruct (crep_cache _ _ _ _ _ _ _ self Hrep2 Hs) as [t2 Ht2]. apply wp_bind, wp_deref_tc with t2; [done|]. cbv zeta. apply wp_bind.
  eapply wp_mono; [by apply (wp_adapt_limit strict T app Ls2 self st2 cl t2)|]. intros [] st3 Hq3.
  assert (Hq : quiet strict T app Ls self 0 st Ls2 st3).
  { eapply quiet_trans; [|exact Hq3]. split_and!; [done|by eapply same_limits_trans|by eapply (client_trans (ens := ens) Hsm)|].
    apply shrunk_set. lia. }
  pose proof Hq3 as (Hrep3 & Hl3 & _). eapply wp_mono; [apply (wp_check_size strict T app Ls2 self heaps st3 Hrep3 Hs); [|done]|].
  { eapply budget_same; [|exact Hbu]. apply Hq. }
  intros [] st4 (Ls4 & Hc4). exists Ls4. split; [by eapply quiet_collected|].
  destruct Hc4 as (_ & _ & _ & Hsh). specialize (Hsh self cl). unfold Ls2 in Hsh. rewrite set_ls_eq in Hsh. lia.
Qed.

Lemma crep_app_facts strict T app Ls self e st cl x :
  crep strict T app Ls self e st -> 0 <= cl < nclasses -> x ∈ app cl -> 1 <= cl < nclasses /\ x <> 0.
Proof.
  intros [(Gs & HG & Heq) _ _ _ _ _ _] Hcl Hx.
  assert (Hxo : x ∈ g_out (Gs cl)) by (apply Heq; auto).
  destruct (cr_held _ _ _ (hr_central _ _ _ HG cl Hcl) x) as [Hc0 _]; [by left|]. assert (Hcl1 : 1 <= cl < nclasses) by lia.
  split; [done|]. destruct (out_span (G := pinned T) Hsm strict Gs st.(heap) cl x HG Hcl1 Hxo) as (_ & _ & _ & _ & _ & _ & _ & H0 & _).
  lia.
Qed.

(** What [Deallocate] leaves: the object belongs to the cache or to the central list. *)
Lemma wp_Deallocate strict T app Ls self heaps st ptr cl :
  crep strict T app Ls self 0 st -> self ∈ T -> short T Ls -> budget heaps st -> heaps <> [] ->
  0 <= cl < nclasses -> ptr ∈ app cl ->
  wp (Deallocate free_ central_cache_ sm self ptr cl) (fun _ st' => exists Ls',
    crep strict T (set_app cl (app cl ∖ {[ptr]}) app) Ls' self 0 st' /\ short T Ls' /\ budget heaps st' /\
    client_keeps T {[ptr]} app st st') st.
Proof.
  intros Hrep Hs Hsh Hbu Hne Hcl Hp. destruct (crep_cache _ _ _ _ _ _ _ self Hrep Hs) as [t Ht].
  destruct (crep_app_facts _ _ _ _ _ _ _ _ _ Hrep Hcl Hp) as [Hcl1 Hp0].
  pose proof (cs_list _ _ _ _ _ _ _ Hrep self t cl Ht ltac:(lia)) as [Hl Hlen Hlow Hmax Hov Hsz].
  assert (Hk : kMaxDynamicFreeListLength = 8192) by done. pose proof (Hsh self cl Hs Hcl) as Hb.
  assert (Hpn : ptr ∉ Ls self cl) by (intros Hin; by apply (cs_app _ _ _ _ _ _ _ Hrep self cl ptr)).
  unfold Deallocate. apply wp_bind, wp_deref_tc with t; [done|]. apply wp_bind, wp_get. unfold FL_Push.
  pose proof (SLL_Push_sll _ _ _ ptr Hl Hp0 Hpn) as Hpush. destruct (SLL_Push _ _ ptr) as [m hd] eqn:Em.
  destruct (push_step Hsm strict T app Ls self 0 st cl t m hd [ptr] Hrep Ht Hcl) as (Hll & Hrep1 & Hl1 & Hk1); try done.
  { intros x Hx. injection Em as <- <-. apply lookup_insert_ne. intros ->. apply Hx. by left. }
  { intros x ->%list_elem_of_singleton. done. }
  { simpl. lia. }
  cbv zeta in Hrep1, Hll, Hl1, Hk1. set (l := mkFreeList hd _ _ _ _ _) in *. simpl List.length in Hrep1, Hll.
  change (list_to_set [ptr] : gset Z) with ({[ptr]} ∪ ∅ : gset Z) in Hrep1, Hk1. rewrite union_empty_r_L in Hrep1, Hk1.
  apply wp_bind, wp_modify_mem, wp_bind, wp_store_tc with t; [done|]. set (st1 := upd_tcs _ _) in *.
  replace (0 - Z.of_nat 1 * class_to_size sm cl) with (- class_to_size sm cl) in Hrep1 by lia.
  set (app' := set_app cl _ app) in *. set (Ls1 := set_ls self cl _ Ls) in *.
  assert (HLs1 : Ls1 self cl = ptr :: Ls self cl) by (unfold Ls1; by rewrite set_ls_eq).
  assert (Hbu1 : budget heaps st1) by (by eapply budget_same).
  (* the outcome of both branches *)
  assert (Hfin : forall st' Ls', collected strict T app' Ls1 self heaps st1 Ls' st' ->
    Z.of_nat (List.length (Ls' self cl)) <= kMaxDynamicFreeListLength ->
    crep strict T app' Ls' self 0 st' /\ short T Ls' /\ budget heaps st' /\ client_keeps T {[ptr]} app st st').
  { intros st' Ls' (C1 & C2 & C3 & C4) Hlen'. split_and!; try done.
    - intros p c Hpt Hc. destruct (decide (p = self /\ c = cl)) as [[-> ->]|Hd]; [done|]. specialize (C4 p c). unfold Ls1, set_ls in C4.
      rewrite decide_False in C4 by done. specialize (Hsh p c Hpt Hc). lia.
    - rewrite <- (union_empty_r_L {[ptr]}). eapply (client_keeps_trans (ens := ens) Hsm); [exact Hk1|exact C3|].
      intros c x Hc Hx HxX. unfold app', set_app. case_decide; [subst c; set_solver|done]. }
  rewrite Z.gtb_ltb. destruct (Z.ltb_spec l.(fl_max_length) l.(fl_length)).
  - eapply wp_mono; [apply (wp_ListTooLong strict T app' Ls1 self heaps st1 cl); try done; by rewrite HLs1|].
    intros [] st' (Ls' & Hc & Hlt). exists Ls'. apply Hfin; [done|]. rewrite HLs1 in Hlt. simpl in Hlt. lia.
  - apply wp_bind. eapply wp_store_tc; [apply lookup_insert_eq|].
    destruct (crep_size Hsm strict T app' Ls1 self _ (class_to_size sm cl) st1 (upd_list cl l t)
      (set_size ((upd_list cl l t).(size_) + l.(fl_size)) (upd_list cl l t)) Hrep1) as (Hrep2 & Hl2 & Hk2); try done.
    { apply lookup_insert_eq. }
    { simpl. by rewrite Hsz. }
    rewrite Z.add_opp_diag_l in Hrep2.
    eapply wp_mono; [apply (wp_check_size strict T app' Ls1 self heaps _ Hrep2 Hs); [by eapply budget_same|done]|].
    intros [] st' (Ls' & Hc). exists Ls'. apply Hfin.
    + eapply quiet_collected; [|exact Hc]. split_and!; [done|done|done|apply shrunk_refl].
    + destruct Hc as (_ & _ & _ & Hc). specialize (Hc self cl). rewrite HLs1 in Hc. unfold l in *. simpl in *. lia.
Qed.
End CacheFree.
