(* ===== verification/CacheThreads.v ===== *)
(** Thread caches come and go: [NewHeap] and [DeleteCache]. *)
From Stdlib Require Import Floats.SpecFloat.
From S2P Require Import Prelude SizeMap Sampler LinkedList Span PackedCache PageMap SysEnv PageHeap SpanStore.
From S2P Require Import PageHeapInv PageHeapOps PageHeapAlloc PageHeapGrow PageHeapNew.
From S2P Require Import CentralFreeList CentralInv CentralOps CentralPopulate CentralRemove CentralRelease CentralInsert.
From S2P Require Import ThreadCache CacheInv CacheLimits CacheOps CacheAlloc CacheFree.

Section CacheThreads.
Context {W : Type} {E : Env W} {P : PageMap W} {G : EnvGhost W} {C : CacheEnv W}.
Context {ens : pm_t -> Z -> Prop} {free_ central_cache_ : Z} {sm : SizeMap}.
Context {EL : EnvLaws W} {CL : CacheEnvLaws W} {PL : PageMapLaws MetaDataAlloc P ens} {HLay : HeapLayout free_}.
Context (Hsm : size_map_ok sm) {CLay : CentralLayout (free_ := free_) (central_cache_ := central_cache_) (sm := sm)}.

Implicit Types (st : Caches) (p q cl : Z) (t : ThreadCache) (T : gset Z).

Abbreviation nclasses := (num_size_classes sm).

#[local] Existing Instance pinned_EL.
#[local] Existing Instance pinned_HLay.
#[local] Existing Instance pinned_CLay.
Abbreviation crep := (crep (ens := ens) (free_ := free_) (central_cache_ := central_cache_) (sm := sm)).
Abbreviation client_keeps := (client_keeps (free_ := free_) (central_cache_ := central_cache_) (sm := sm)).
Abbreviation lists_bytes := (lists_bytes sm).
Abbreviation list_rep := (list_rep (sm := sm)).

Abbreviation short := (short (sm := sm)).
Abbreviation quiet := (CacheFree.quiet (ens := ens) (free_ := free_) (central_cache_ := central_cache_) (sm := sm)).

(** ** The surroundings *)

Lemma central_unpin strict T Gs h : central_ok (free_ := free_) (central_cache_ := central_cache_) (sm := sm) (ens := ens) strict T Gs h ->
  CentralInv.heap_rep (ens := ens) (free_ := free_) (central_cache_ := central_cache_) (sm := sm) strict Gs h /\
  caches h.(pageheap).(world) = T.
Proof. intros [[[Hok Hc]] ? ? ? ? ?]. by split; [split; [split|..]|]. Qed.

Lemma central_pin strict T Gs h :
  CentralInv.heap_rep (ens := ens) (free_ := free_) (central_cache_ := central_cache_) (sm := sm) strict Gs h ->
  caches h.(pageheap).(world) = T ->
  central_ok (free_ := free_) (central_cache_ := central_cache_) (sm := sm) (ens := ens) strict T Gs h.
Proof. intros [[] ? ? ? ? ?] Hc. by split; [split; [split|..]|..]. Qed.

(** The surroundings change, and with them the set of the caches. *)
Lemma central_world strict T T' Gs h w' (h' := upd_pageheap (upd_world (fun _ => w') h.(pageheap)) h) :
  central_ok (free_ := free_) (central_cache_ := central_cache_) (sm := sm) (ens := ens) strict T Gs h ->
  env_step h.(pageheap).(world) w' -> caches w' = T' ->
  central_ok (free_ := free_) (central_cache_ := central_cache_) (sm := sm) (ens := ens) strict T' Gs h' /\
  forall S X, CentralInv.visible (G := pinned S) (free_ := free_) (central_cache_ := central_cache_) (sm := sm) X Gs h h'.
Proof.
  intros [Hrep _]%central_unpin Hw Hc. pose proof (quiet_world h.(pageheap) w' Hw) as Hq. pose proof Hrep as [HI _ _ _ _ _].
  destruct (heap_rep_keeps Hsm strict Gs h (upd_world (fun _ => w') h.(pageheap)) Hrep) as [Hrep' [Hv1 Hv2 Hv3 Hv4 Hv5]].
  - by eapply quiet_same.
  - by eapply quiet_keeps.
  - split; [by apply central_pin|]. intros S X. split; try done.
Qed.

(** ** A new cache *)

Definition fresh_lists : gmap Z FreeList :=
  list_to_map ((fun cl => (cl, FL_Init (class_to_size sm cl))) <$> seqZ 0 nclasses).

Lemma fresh_list t cl : t.(list_) = fresh_lists -> 0 <= cl < nclasses -> list_at t cl = FL_Init (class_to_size sm cl).
Proof.
  intros Ht Hcl. unfold list_at. rewrite Ht. unfold fresh_lists.
  erewrite (elem_of_list_to_map_1 _ cl); [done| |].
  - rewrite <- list_fmap_compose. simpl. rewrite list_fmap_id. apply NoDup_seqZ.
  - apply list_elem_of_fmap. exists cl. split; [done|]. apply elem_of_seqZ. lia.
Qed.

(** The lists of a new cache are empty. *)
Definition add_ls p (Ls : Z -> Z -> list Z) : Z -> Z -> list Z := fun q c => if decide (q = p) then [] else Ls q c.

Lemma lists_bytes_nil f : (forall c, f c = []) -> lists_bytes f = 0.
Proof.
  intros Hf. unfold CacheInv.lists_bytes. generalize (seqZ 0 nclasses). intros l. induction l as [|c l IH]; simpl; [done|].
  rewrite Hf, IH. done.
Qed.

Lemma lists_bytes_ext f g : (forall c, f c = g c) -> lists_bytes f = lists_bytes g.
Proof.
  intros Hf. unfold CacheInv.lists_bytes. generalize (seqZ 0 nclasses). intros l. induction l as [|c l IH]; simpl; [done|].
  by rewrite Hf, IH.
Qed.

Lemma crep_new strict T app Ls self p st st' w' t :
  crep strict T app Ls self 0 st -> p ∉ T -> (forall c, 0 <= c < nclasses -> 0 <= class_to_size sm c < 2 ^ 31) ->
  st'.(heap) = upd_pageheap (upd_world (fun _ => w') st.(heap).(pageheap)) st.(heap) ->
  env_step st.(heap).(pageheap).(world) w' -> caches w' = {[p]} ∪ T ->
  (forall q, q <> p -> (fun t => (t.(list_), t.(size_))) <$> st'.(tcs) !! q = (fun t => (t.(list_), t.(size_))) <$> st.(tcs) !! q) ->
  st'.(tcs) !! p = Some t -> t.(list_) = fresh_lists -> t.(size_) = 0 ->
  crep strict ({[p]} ∪ T) app (add_ls p Ls) p 0 st' /\ forall S, client_keeps S ∅ app st st'.
Proof.
  intros [(Gs & HG & Heq) Hdom Hls Hb Hap Hsep Hsize] HpT Hcs Hheap Hw Hca Htc Hp Hfl Hsz.
  destruct (central_world strict T ({[p]} ∪ T) Gs st.(heap) w' HG Hw Hca) as [HG' Hv]. rewrite <- Hheap in HG', Hv.
  assert (Hmem : st'.(heap).(memory) = st.(heap).(memory)) by (by rewrite Hheap).
  assert (Hne : forall q, q ∈ T -> q <> p) by (by intros q Hq ->).
  assert (HaddT : forall q c, q ∈ T -> add_ls p Ls q c = Ls q c) by (intros q c Hq; unfold add_ls; rewrite decide_False; auto).
  assert (Haddp : forall c, add_ls p Ls p c = []) by (intros c; unfold add_ls; by rewrite decide_True).
  assert (Hback : forall q t', st'.(tcs) !! q = Some t' -> q = p /\ t' = t \/
    q ∈ T /\ exists u, st.(tcs) !! q = Some u /\ t'.(list_) = u.(list_) /\ t'.(size_) = u.(size_)).
  { intros q t' Hq. destruct (decide (q = p)) as [->|Hqp]; [left; split; congruence|right]. specialize (Htc q Hqp). rewrite Hq in Htc.
    destruct (st.(tcs) !! q) as [u|] eqn:Hu; [|done]. injection Htc as E1 E2. split; [|by exists u]. rewrite <- Hdom. by eapply elem_of_dom_2. }
  split; [|intros S; eapply visible_sub; [apply Hv|]; intros c x Hc Hx; apply Heq; auto].
  split.
  - exists Gs. split; [done|]. intros cl x Hcl. rewrite Heq by done. split; (intros [?|(q & Hq & Hx)]; [by left|right]).
    + exists q. rewrite HaddT by done. set_solver.
    + apply elem_of_union in Hq as [->%elem_of_singleton|Hq]; [rewrite Haddp in Hx; by apply not_elem_of_nil in Hx|].
      exists q. by rewrite HaddT in Hx.
  - apply set_eq. intros q. rewrite elem_of_dom, elem_of_union, elem_of_singleton. split.
    + intros [t' Hq]. destruct (Hback q t' Hq) as [[-> _]|[? _]]; auto.
    + intros [->|Hq]; [by exists t|]. specialize (Htc q (Hne q Hq)). rewrite <- Hdom in Hq. apply elem_of_dom in Hq as [u Hu].
      rewrite Hu in Htc. destruct (st'.(tcs) !! q); [by eexists|done].
  - intros q t' cl Hq Hcl. rewrite Hmem. destruct (Hback q t' Hq) as [[-> ->]|(HqT & u & Hu & El & _)].
    + rewrite Haddp. specialize (Hcs cl Hcl). split; rewrite (fresh_list t cl Hfl Hcl); simpl; try done; [split; [done|apply NoDup_nil_2]|rewrite i32_small; lia].
    + rewrite HaddT by done. destruct (Hls q u cl Hu Hcl). by split; unfold list_at in *; rewrite El.
  - intros q cl Hq Hcl. apply elem_of_union in Hq as [->%elem_of_singleton|Hq]; [by rewrite Haddp|]. rewrite HaddT by done. by apply Hb.
  - intros q cl x Hq Hcl. apply elem_of_union in Hq as [->%elem_of_singleton|Hq]; [rewrite Haddp; by intros ?%not_elem_of_nil|].
    rewrite HaddT by done. by apply Hap.
  - intros q r cl x Hq Hr Hcl Hx Hy. apply elem_of_union in Hq as [->%elem_of_singleton|Hq]; [rewrite Haddp in Hx; by apply not_elem_of_nil in Hx|].
    apply elem_of_union in Hr as [->%elem_of_singleton|Hr]; [rewrite Haddp in Hy; by apply not_elem_of_nil in Hy|].
    rewrite HaddT in Hx, Hy by done. by apply (Hsep q r cl x).
  - intros q t' Hq. destruct (Hback q t' Hq) as [[-> ->]|(HqT & u & Hu & _ & Es)].
    + rewrite Hsz, lists_bytes_nil by done. by case_decide.
    + rewrite Es, (Hsize q u Hu), (lists_bytes_ext (add_ls p Ls q) (Ls q)) by (intros c; by apply HaddT).
      by repeat case_decide.
Qed.

Section New.
Context (sample_parameter : Z) (log2 : spec_float -> spec_float) (log_2 : spec_float).
(** The logarithm gives a sampling point that fits its type. *)
Context (Hpick : forall s, exists v s', PickNextSamplingPoint sample_parameter log2 log_2 s = Ok (v, s')).

(** Everything but the cache [self] stays, up to limits. *)
Record built self st st' : Prop := {
  bt_heap : st'.(heap) = st.(heap);
  bt_heaps : st'.(thread_heaps_) = st.(thread_heaps_);
  bt_count : st'.(thread_heap_count_) = st.(thread_heap_count_);
  bt_tcs q : q <> self -> (fun t => (t.(list_), t.(size_))) <$> st'.(tcs) !! q = (fun t => (t.(list_), t.(size_))) <$> st.(tcs) !! q
}.

Lemma built_store self st st' t : built self st st' -> built self st (upd_tcs (<[self := t]>) st').
Proof. intros []. split; try done. intros q Hq. simpl. rewrite lookup_insert_ne by done. auto. Qed.

Lemma wp_ThreadCache_new heaps self seed st :
  budget heaps st -> st.(tcs) !! self = None -> claimed st.(tcs) + st.(min_per_thread_cache_size_) < 2 ^ 31 ->
  (heaps = [] -> claimed st.(tcs) < st.(overall_thread_cache_size_)) ->
  wp (ThreadCache_new sm sample_parameter log2 log_2 self seed) (fun _ st' =>
    budget heaps st' /\ built self st st' /\ exists t, st'.(tcs) !! self = Some t /\ t.(list_) = fresh_lists /\ t.(size_) = 0) st.
Proof.
  intros Hbu Hnew Hsum Hemp. set (t0 := mkThreadCache ∅ 0 0 Sampler_new 0 0). set (st1 := upd_tcs (<[self := t0]>) st).
  assert (Hin : self ∉ heaps).
  { intros Hin. destruct (tchain_elem _ _ _ _ _ (bu_chain _ _ Hbu) Hin) as (_ & u & Hu). congruence. }
  assert (Hbu1 : budget heaps st1) by (by apply budget_add).
  assert (Hcl1 : claimed st1.(tcs) = claimed st.(tcs)) by (unfold claimed, st1; simpl; by rewrite msum_insert).
  assert (Hb1 : built self st st1) by (apply built_store; by split).
  unfold ThreadCache_new. apply wp_bind, wp_modify, wp_bind. eapply wp_mono.
  { apply (wp_IncreaseCacheLimit heaps self st1 Hbu1); [by rewrite Hcl1|]. exists t0. apply lookup_insert_eq. }
  intros [] st2 (Hbu2 & Htu2 & Hcase). pose proof Htu2 as [Hh2 Hhd2 Hc2 Hm2 Ho2 Ht2]. pose proof (Ht2 self) as Ht2s.
  unfold st1 in Ht2s. simpl in Ht2s. rewrite lookup_insert_eq in Ht2s. destruct (st2.(tcs) !! self) as [t2|] eqn:Et2; [|done]. injection Ht2s as El Es.
  assert (Hb2 : built self st st2).
  { destruct Hb1. split; try congruence. intros q Hq. by rewrite Ht2, bt_tcs0. }
  apply wp_bind, wp_deref_tc with t2; [done|]. apply wp_bind.
  apply wp_mono with (Q := fun _ st3 => budget heaps st3 /\ built self st st3 /\ exists t3, st3.(tcs) !! self = Some t3 /\ t3.(size_) = 0).
  { destruct (Z.eqb_spec t2.(max_size_) 0) as [Hz|Hnz]; [|apply wp_ret; eauto]. apply wp_bind, wp_get, wp_bind, wp_store_tc with t2; [done|].
    assert (Hcl2 : claimed st2.(tcs) = claimed st.(tcs)).
    { destruct Hcase as [Hu|(t & Ht & Hpos)]; [|injection Ht as <-; lia].
      pose proof (bu_sum _ _ Hbu1). pose proof (bu_sum _ _ Hbu2). lia. }
    pose proof (bu_min _ _ Hbu2) as Hmin. assert (0 <= kStealAmount) by done.
    assert (Hm : st2.(min_per_thread_cache_size_) = st.(min_per_thread_cache_size_)) by done.
    destruct (budget_claim heaps st2 self t2 st2.(min_per_thread_cache_size_) Hbu2 Et2) as [Hbu3 Htu3]; [lia|lia|].
    apply wp_modify. rewrite Hz, Z.sub_0_r in Hbu3, Htu3. split_and!; [exact Hbu3| |].
    - destruct Hb2. split; try done. intros q Hq. simpl. rewrite lookup_insert_ne by done. auto.
    - exists (SetMaxSize st2.(min_per_thread_cache_size_) t2). split; [apply lookup_insert_eq|done]. }
  intros [] st3 (Hbu3 & Hb3 & t3 & Et3 & Es3). apply wp_bind, wp_store_tc with t3; [done|].
  apply wp_bind. eapply wp_store_tc; [apply lookup_insert_eq|]. apply wp_bind. eapply wp_deref_tc; [apply lookup_insert_eq|].
  apply wp_bind. simpl. unfold wp at 1. unfold Sampler_Init.
  destruct (Hpick (set_rnd (Nat.iter 20 NextRandom seed) t3.(sampler_))) as (v & s' & Hs'). rewrite Hs'. simpl.
  eapply wp_store_tc; [apply lookup_insert_eq|].
  set (st4 := upd_tcs _ st3). assert (Hbu4 : budget heaps st4) by (by eapply budget_other).
  set (st5 := upd_tcs _ st4). assert (Hbu5 : budget heaps st5) by (eapply budget_other; [done|done|apply lookup_insert_eq|done]).
  split_and!.
  - eapply budget_other; [exact Hbu5|done|apply lookup_insert_eq|done].
  - by do 3 apply built_store.
  - eexists. split; [apply lookup_insert_eq|]. done.
Qed.

Lemma wp_NewHeap strict T app Ls self heaps seed st :
  crep strict T app Ls self 0 st -> T = list_to_set heaps -> budget heaps st ->
  (forall c, 0 <= c < nclasses -> 0 <= class_to_size sm c < 2 ^ 31) ->
  claimed st.(tcs) + st.(min_per_thread_cache_size_) < 2 ^ 31 -> st.(thread_heap_count_) + 1 < 2 ^ 31 ->
  wp (NewHeap sm sample_parameter log2 log_2 seed) (fun p st' => (p ∉ T) /\ 0 < p /\
    crep strict ({[p]} ∪ T) app (add_ls p Ls) p 0 st' /\ budget (p :: heaps) st' /\ forall S, client_keeps S ∅ app st st') st.
Proof.
  intros Hrep HT Hbu Hcs Hsum Hcn. pose proof Hrep as [(Gs & HG & _) Hdom _ _ _ _ _].
  destruct (central_unpin _ _ _ _ HG) as [HG' Hca]. pose proof (i_env _ _ _ _ _ _ (hr_inv _ _ _ HG')) as Hok.
  assert (Hemp : heaps = [] -> claimed st.(tcs) < st.(overall_thread_cache_size_)).
  { intros ->. rewrite HT in Hdom. apply dom_empty_inv_L in Hdom. rewrite Hdom. pose proof (bu_overall _ _ Hbu). unfold claimed. rewrite msum_empty. lia. }
  unfold NewHeap. apply wp_bind, wp_on_central.
  destruct (threadcache_New_ok st.(heap).(pageheap).(world) Hok) as [Hoom|(p & w' & Heq & Hw & Hp0 & Hpn & Hca')].
  { unfold wp, on_heap, call. simpl. by rewrite Hoom. }
  unfold wp at 1, on_heap, call. simpl. rewrite Heq. simpl. rewrite Hca in Hpn, Hca'.
  set (st0 := upd_heap _ st). change (wp _ _ _) with (wp
    (ThreadCache_new sm sample_parameter log2 log_2 p seed ;;
     st ← get_state;
     store_tc p (fun t => set_tc_prev 0 (set_tc_next st.(thread_heaps_) t)) ;;
     (if negb (st.(thread_heaps_) =? 0) then store_tc st.(thread_heaps_) (set_tc_prev p)
      else modify (set_next_memory_steal p)) ;;
     modify (fun st => set_thread_heaps p (i32 (st.(thread_heap_count_) + 1)) st) ;;
     mret p) (fun p st' => (p ∉ T) /\ 0 < p /\
    crep strict ({[p]} ∪ T) app (add_ls p Ls) p 0 st' /\ budget (p :: heaps) st' /\ forall S, client_keeps S ∅ app st st') st0).
  assert (Hnone : st0.(tcs) !! p = None) by (apply not_elem_of_dom; simpl; by rewrite Hdom).
  assert (Hbu0 : budget heaps st0) by (by destruct Hbu; split).
  assert (Hin : p ∉ heaps) by (intros Hin; apply Hpn; rewrite HT; by apply elem_of_list_to_set).
  apply wp_bind. eapply wp_mono; [by apply (wp_ThreadCache_new heaps p seed st0)|].
  intros [] st1 (Hbu1 & Hb1 & t1 & Et1 & El & Es). apply wp_bind, wp_get, wp_bind, wp_store_tc with t1; [done|].
  set (t2 := set_tc_prev _ _). set (st2 := upd_tcs _ st1). assert (Hbu2 : budget heaps st2) by (by eapply budget_other).
  pose proof (built_store p st0 st1 t2 Hb1) as Hb2. change (upd_tcs (<[p := t2]>) st1) with st2 in Hb2.
  change (thread_heaps_ st1) with (thread_heaps_ st2). apply wp_bind. eapply wp_mono.
  { apply (budget_cons heaps st2 p t2 Hbu2 Hin Hp0); [apply lookup_insert_eq|done|done|]. by rewrite (bt_count _ _ _ Hb2). }
  intros [] st3 (Hbu3 & Hh3 & Ht3 & Htc3). apply wp_bind, wp_modify, wp_ret. split; [done|]. split; [done|].
  destruct (crep_new strict T app Ls self p st (set_thread_heaps p (i32 (st3.(thread_heap_count_) + 1)) st3) w' t2 Hrep Hpn Hcs) as [Hrep' Hk']; try done.
  - simpl. by rewrite Hh3, (bt_heap _ _ _ Hb2).
  - intros q Hq. simpl. by rewrite Htc3, (bt_tcs _ _ _ Hb2 q Hq).
Qed.
End New.

(** ** The end of a cache *)

Lemma wp_release_all strict T app self classes : forall Ls st,
  crep strict T app Ls self 0 st -> self ∈ T -> (forall cl, cl ∈ classes -> 0 <= cl < nclasses) ->
  wp (release_all free_ central_cache_ sm classes self) (fun _ st' => exists Ls',
    quiet strict T app Ls self 0 st Ls' st' /\ forall cl, cl ∈ classes -> Ls' self cl = []) st.
Proof.
  induction classes as [|cl classes IH]; intros Ls st Hrep Hs Hin; simpl.
  { apply wp_ret. exists Ls. split; [by apply quiet_refl|]. by intros cl ?%not_elem_of_nil. }
  assert (Hcl : 0 <= cl < nclasses) by (apply Hin; by left). destruct (crep_cache _ _ _ _ _ _ _ self Hrep Hs) as [t Ht].
  pose proof (lr_length _ _ _ _ (cs_list _ _ _ _ _ _ _ Hrep self t cl Ht Hcl)) as Hlen.
  pose proof (cs_bound _ _ _ _ _ _ _ Hrep self cl Hs Hcl) as Hb. assert (Hk : kMaxDynamicFreeListLength = 8192) by done.
  apply wp_bind, wp_deref_tc with t; [done|]. apply wp_bind.
  apply wp_mono with (Q := fun _ st1 => exists Ls1, quiet strict T app Ls self 0 st Ls1 st1 /\ Ls1 self cl = []).
  - rewrite Hlen, Z.gtb_ltb. destruct (Z.ltb_spec 0 (Z.of_nat (List.length (Ls self cl)))) as [Hlt|Hge].
    + assert (Hne : Ls self cl <> []) by (intros Hn; rewrite Hn in Hlt; simpl in Hlt; lia).
      eapply wp_mono; [apply (wp_ReleaseToCentralCache Hsm strict T app Ls self 0 st cl); [done..|rewrite i32_small; lia]|].
      intros [] st1 (os1 & os2 & HLs & Hos1 & Hrep1 & Hl1 & Hk1). exists (set_ls self cl os2 Ls). rewrite set_ls_eq.
      rewrite i32_small, Z.min_id, HLs, length_app in Hos1 by lia. assert (os2 = []) as -> by (destruct os2; [done|simpl in Hos1; lia]).
      split; [|done]. split_and!; try done. apply shrunk_set. simpl. lia.
    + apply wp_ret. exists Ls. split; [by apply quiet_refl|]. destruct (Ls self cl); [done|simpl in Hge; lia].
  - intros [] st1 (Ls1 & Hq1 & Hnil). eapply wp_mono; [apply (IH Ls1 st1); [apply Hq1|done|intros; apply Hin; by right]|].
    intros [] st2 (Ls2 & Hq2 & Hall). exists Ls2. split; [by eapply (quiet_trans Hsm)|].
    intros c [->|Hc]%elem_of_cons; [|auto]. destruct Hq2 as (_ & _ & _ & Hsh). specialize (Hsh self cl). rewrite Hnil in Hsh.
    destruct (Ls2 self cl); [done|simpl in Hsh; lia].
Qed.

Lemma crep_del strict T app Ls self p st st' w' :
  crep strict T app Ls self 0 st -> (forall c, 0 <= c < nclasses -> Ls p c = []) ->
  st'.(heap) = upd_pageheap (upd_world (fun _ => w') st.(heap).(pageheap)) st.(heap) ->
  env_step st.(heap).(pageheap).(world) w' -> caches w' = T ∖ {[p]} ->
  (forall q, q <> p -> (fun t => (t.(list_), t.(size_))) <$> st'.(tcs) !! q = (fun t => (t.(list_), t.(size_))) <$> st.(tcs) !! q) ->
  st'.(tcs) !! p = None ->
  crep strict (T ∖ {[p]}) app Ls self 0 st' /\ forall S, client_keeps S ∅ app st st'.
Proof.
  intros [(Gs & HG & Heq) Hdom Hls Hb Hap Hsep Hsize] Hnil Hheap Hw Hca Htc Hp.
  destruct (central_world strict T (T ∖ {[p]}) Gs st.(heap) w' HG Hw Hca) as [HG' Hv]. rewrite <- Hheap in HG', Hv.
  assert (Hback : forall q t', st'.(tcs) !! q = Some t' -> exists u, st.(tcs) !! q = Some u /\ t'.(list_) = u.(list_) /\ t'.(size_) = u.(size_)).
  { intros q t' Hq. assert (Hqp : q <> p) by (intros ->; congruence). specialize (Htc q Hqp). rewrite Hq in Htc.
    destruct (st.(tcs) !! q) as [u|] eqn:Hu; [|done]. injection Htc as E1 E2. by exists u. }
  split; [|intros S; eapply visible_sub; [apply Hv|]; intros c x Hc Hx; apply Heq; auto].
  split; rewrite ?Hheap; simpl.
  - exists Gs. rewrite Hheap in HG'. split; [done|]. intros cl x Hcl. rewrite Heq by done. split; (intros [?|(q & Hq & Hx)]; [by left|right]).
    + exists q. split; [|done]. apply elem_of_difference. split; [done|]. intros ->%elem_of_singleton. rewrite Hnil in Hx by done. by apply not_elem_of_nil in Hx.
    + exists q. set_solver.
  - apply set_eq. intros q. rewrite elem_of_difference, elem_of_singleton, elem_of_dom. split.
    + intros [t' Hq]. destruct (Hback q t' Hq) as (u & Hu & _). split; [rewrite <- Hdom; by eapply elem_of_dom_2|]. intros ->. congruence.
    + intros [Hq Hqp]. specialize (Htc q Hqp). rewrite <- Hdom in Hq. apply elem_of_dom in Hq as [u Hu]. rewrite Hu in Htc.
      destruct (st'.(tcs) !! q); [by eexists|done].
  - intros q t' cl Hq Hcl. destruct (Hback q t' Hq) as (u & Hu & El & _). destruct (Hls q u cl Hu Hcl).
    by split; unfold list_at in *; rewrite El.
  - intros q cl [Hq _]%elem_of_difference. auto.
  - intros q cl x [Hq _]%elem_of_difference. eauto.
  - intros q r cl x [Hq _]%elem_of_difference [Hr _]%elem_of_difference. eauto.
  - intros q t' Hq. destruct (Hback q t' Hq) as (u & Hu & _ & Es). rewrite Es. eauto.
Qed.

Lemma wp_store_alter p f Q st : is_Some (st.(tcs) !! p) -> Q tt (upd_tcs (alter f p) st) -> wp (store_tc p f) Q st.
Proof.
  intros [t Ht] HQ. apply wp_store_tc with t; [done|]. assert (Heq : upd_tcs (<[p := f t]>) st = upd_tcs (alter f p) st); [|by rewrite Heq].
  unfold upd_tcs. f_equal. apply map_eq. intros q. destruct (decide (q = p)) as [->|Hne].
  - by rewrite lookup_insert_eq, lookup_alter_eq, Ht.
  - by rewrite lookup_insert_ne, lookup_alter_ne.
Qed.

Lemma upd_tcs_id st : upd_tcs (fun m => m) st = st.
Proof. by destruct st. Qed.

Lemma wp_DeleteCache strict T app Ls self l1 l2 st :
  crep strict T app Ls self 0 st -> T = list_to_set (l1 ++ self :: l2) -> budget (l1 ++ self :: l2) st -> st.(thread_heap_count_) < 2 ^ 31 ->
  wp (DeleteCache free_ central_cache_ sm self) (fun _ st' => exists Ls',
    crep strict (T ∖ {[self]}) app Ls' self 0 st' /\ shrunk Ls Ls' /\ budget (l1 ++ l2) st' /\ client_keeps T ∅ app st st') st.
Proof.
  intros Hrep HT Hbu Hcn. assert (Hs : self ∈ T) by (rewrite HT, elem_of_list_to_set; set_solver).
  unfold DeleteCache. apply wp_bind. eapply wp_mono; [apply (wp_release_all strict T app self _ Ls st Hrep Hs); intros cl Hcl%elem_of_seqZ; lia|].
  intros [] st1 (Ls1 & (Hrep1 & Hl1 & Hk1 & Hsh1) & Hnil). assert (Hbu1 : budget (l1 ++ self :: l2) st1) by (by eapply budget_same).
  rewrite <- (sl_count _ _ Hl1) in Hcn. clear Hrep Hbu Hl1.
  destruct (crep_cache _ _ _ _ _ _ _ self Hrep1 Hs) as [t Ht]. apply wp_bind, wp_deref_tc with t; [done|]. apply wp_bind.
  pose proof (bu_chain _ _ Hbu1) as Hc. assert (Hin : self ∈ l1 ++ self :: l2) by set_solver.
  apply wp_mono with (Q := fun _ st2 => st2 = upd_tcs (unlink_next t) st1).
  { unfold unlink_next. destruct (Z.eqb_spec t.(next_) 0) as [|Hn]; simpl; [apply wp_ret; symmetry; apply upd_tcs_id|].
    apply wp_store_alter; [|done]. destruct (tchain_next _ _ _ _ _ _ Hc Hin Ht) as [|Hn']; [done|]. by apply (tchain_elem _ _ _ _ _ Hc). }
  intros [] st2 ->. apply wp_bind.
  apply wp_mono with (Q := fun _ st3 => st3 = upd_tcs (fun m => unlink_prev t (unlink_next t m)) st1).
  { unfold unlink_prev. destruct (Z.eqb_spec t.(prev_) 0) as [|Hn]; simpl; [by apply wp_ret|].
    apply wp_store_alter; [|done]. simpl. destruct (tchain_prev _ _ _ _ _ _ Hc Hin Ht) as [|Hn']; [done|].
    destruct (tchain_elem _ _ _ _ _ Hc Hn') as (_ & u & Hu). unfold unlink_next. destruct (t.(next_) =? 0); [by exists u|].
    apply lookup_alter_is_Some. by exists u. }
  intros [] st3 ->. do 4 apply wp_bind, wp_modify. apply wp_bind, wp_modify. apply wp_on_central.
  match goal with |- wp _ _ (heap ?s) => set (stF := s) end.
  pose proof Hrep1 as [(Gs & HG & _) _ _ _ _ _ _]. destruct (central_unpin _ _ _ _ HG) as [HG' Hca].
  pose proof (i_env _ _ _ _ _ _ (hr_inv _ _ _ HG')) as Hok. set (w := st1.(heap).(pageheap).(world)) in *.
  destruct (threadcache_Delete_ok self w Hok) as [Hw Hca']; [by rewrite Hca|]. rewrite Hca in Hca'.
  assert (HhF : stF.(heap) = st1.(heap)) by (unfold stF; simpl; by repeat case_match).
  assert (HtF : stF.(tcs) = delete self (unlink_prev t (unlink_next t st1.(tcs)))) by (unfold stF; simpl; by repeat case_match).
  apply wp_on_heap. eapply wp_call; [done|]. rewrite HhF. fold w. set (stE := upd_heap _ stF).
  destruct (crep_del strict T app Ls1 self self st1 stE (threadcache_Delete self w) Hrep1) as [Hrep' Hk']; try done.
  - intros c Hcl. apply Hnil, elem_of_seqZ. lia.
  - intros q Hq. change (tcs stE) with (tcs stF). rewrite HtF, lookup_delete_ne by done. by apply unlink_same.
  - change (tcs stE) with (tcs stF). rewrite HtF. apply lookup_delete_eq.
  - exists Ls1. split_and!; [done|done| |].
    + eapply (budget_remove l1 l2 self t st1 stE); try done.
      all: unfold stE, stF; simpl; try (by destruct (next_memory_steal_ st1 =? self); simpl; case_match).
      * rewrite (bu_count _ _ Hbu1) in *. lia.
    + eapply (client_trans (ens := ens) Hsm); [exact Hk1|apply Hk'].
Qed.
End CacheThreads.
