(* ===== verification/FrontBlocks.v ===== *)
(** The blocks the allocator has handed out: objects of the size classes and large spans.
    What the operations of the lower components do to them. *)
From Stdlib Require Import Floats.SpecFloat.
From S2P Require Import Prelude SizeMap Sampler LinkedList Bytes Span PackedCache PageMap SysEnv PageHeap SpanStore.
From S2P Require Import PageHeapInv PageHeapOps PageHeapAlloc PageHeapGrow PageHeapNew.
From S2P Require Import CentralFreeList CentralInv CentralOps CentralPopulate CentralRemove CentralRelease CentralInsert.
From S2P Require Import ThreadCache Unsampled CacheInv CacheLimits CacheOps CacheAlloc CacheFree CacheThreads.

(** ** Large spans come and go under the central lists *)

Section Large.
Context {W : Type} {E : Env W} {P : PageMap W} {G : EnvGhost W}.
Context {ens : pm_t -> Z -> Prop} {free_ central_cache_ : Z} {sm : SizeMap}.
Context {EL : EnvLaws W} {PL : PageMapLaws MetaDataAlloc P ens} {HLay : HeapLayout free_}.
Context (Hsm : size_map_ok sm) {CLay : CentralLayout (free_ := free_) (central_cache_ := central_cache_) (sm := sm)}.

Abbreviation Inv := (Inv ens free_).
Abbreviation keeps := (keeps free_).
Abbreviation nclasses := (num_size_classes sm).
Abbreviation heap_rep := (heap_rep (ens := ens) (free_ := free_) (central_cache_ := central_cache_) (sm := sm)).
Abbreviation local := (local (free_ := free_) (central_cache_ := central_cache_)).

Lemma local_large (st : Heap) h' p :
  keeps {[p]} st.(pageheap) h' ->
  (forall s, st.(pageheap).(spans) !! p = Some s -> s.(location) = IN_USE -> s.(sizeclass) = 0) ->
  (forall s, h'.(spans) !! p = Some s -> s.(location) = IN_USE -> s.(sizeclass) = 0) ->
  local 0 ∅ st (upd_pageheap h' st).
Proof.
  intros [K1 K2 K3 K4 K5 K6 K7 K8] Hp Hp'. split; simpl; try done.
  - intros q s Hl Hc. split; intros Hq.
    + apply (K1 q s Hq Hl). intros ->%elem_of_singleton. by apply Hc, Hp.
    + apply (K2 q s Hq Hl). intros ->%elem_of_singleton. by apply Hc, Hp'.
  - intros q s Hq Hl Hc. apply (K4 q s Hq Hl). intros ->%elem_of_singleton. by apply Hc, Hp.
  - intros a Ha Hh _ _. by apply K5.
  - by destruct K7 as (? & _).
Qed.

(** Class 0 has no spans, so that only its headers count. *)
Lemma central_zero strict Gs (st : Heap) h' p :
  heap_rep strict Gs st -> keeps {[p]} st.(pageheap) h' ->
  central_rep (central_cache_ := central_cache_) (sm := sm) 0 (Gs 0) (upd_pageheap h' st).
Proof.
  intros Hrep Hk. pose proof (smo_num _ Hsm) as Hn. destruct (hr_central _ _ _ Hrep 0 ltac:(lia)).
  assert (H0 : 0 <= 0 < nclasses) by lia. destruct (cl_static 0 H0) as [Hs1 Hs2], (cl_apart 0 H0) as [Ha1 Ha2].
  assert (Hno : forall y, y ∈ g_spans (Gs 0) -> False) by (intros y Hy; by apply cr_spans in Hy as [? _]).
  assert (Hheld : forall x, ~ g_held (Gs 0) x) by (intros x Hx; by destruct (cr_held x Hx) as [? _]).
  split; try done.
  - eapply dll_agree; [done|]. intros y [->|Hy]%elem_of_cons; [by apply (k_static _ _ _ _ Hk)|].
    destruct (Hno y). unfold g_spans. set_solver.
  - eapply dll_agree; [done|]. intros y [->|Hy]%elem_of_cons; [by apply (k_static _ _ _ _ Hk)|].
    destruct (Hno y). unfold g_spans. set_solver.
  - intros q. split; [by intros ?%Hno|by intros [? _]].
  - intros x Hx. by destruct (Hheld x).
Qed.

Lemma heap_rep_large strict Gs (st : Heap) h' p :
  heap_rep strict Gs st -> Inv strict ∅ 0 h' -> keeps {[p]} st.(pageheap) h' ->
  (forall s, st.(pageheap).(spans) !! p = Some s -> s.(location) = IN_USE -> s.(sizeclass) = 0) ->
  (forall s, h'.(spans) !! p = Some s -> s.(location) = IN_USE -> s.(sizeclass) = 0 /\ TryGetSizeClass h' s.(start) = None) ->
  heap_rep strict Gs (upd_pageheap h' st).
Proof.
  intros Hrep HI' Hk Hp Hp'. pose proof (local_large st h' p Hk Hp ltac:(intros; by apply Hp')) as Hlo.
  pose proof Hrep as [HI Hcen Hcls Hca Hra Hsm0]. pose proof (smo_num _ Hsm). split; try done.
  - intros c Hc. destruct (decide (c = 0)) as [->|Hne]; [by apply (central_zero strict Gs st h' p)|].
    eapply (central_frame Hsm strict 0 c ∅ (Gs c) st); try done; [by left|by apply Hcen].
  - simpl. intros q s Hq Hl. destruct (decide (q = p)) as [->|Hne]; [rewrite (proj1 (Hp' s Hq Hl)); lia|].
    apply (Hcls q s); [|done]. apply (k_span' _ _ _ _ Hk q s Hq Hl). set_solver.
  - destruct Hca as [Hnull Hca]. split; simpl.
    { destruct (TryGetSizeClass h' 0) as [v|] eqn:Hv; [|done]. apply (k_cache _ _ _ _ Hk) in Hv; [congruence|lia]. }
    intros q s Hq Hl. destruct (decide (q = p)) as [->|Hne].
    { destruct (Hp' s Hq Hl) as [Hc Hn]. split; [done|]. intros Hc'. by destruct Hc'. }
    pose proof (k_span' _ _ _ _ Hk q s Hq Hl ltac:(set_solver)) as Hq0. destruct (Hca q s Hq0 Hl) as [H0 H1].
    assert (Hst : covers s s.(start)) by (destruct (Inv_ok _ _ _ _ _ _ _ _ HI' Hq); unfold covers; lia).
    assert (Hc : forall k v, covers s k -> TryGetSizeClass h' k = Some v -> TryGetSizeClass st.(pageheap) k = Some v).
    { intros k v Hcv. apply (k_cache _ _ _ _ Hk). exact (covered_range strict ∅ 0 h' q s k HI' Hq Hcv). }
    split; simpl.
    + intros Hz. destruct (TryGetSizeClass h' s.(start)) as [v|] eqn:Hv; [|done]. apply Hc in Hv; [|done]. by rewrite H0 in Hv.
    + intros Hz k v Hcv Hv. apply (H1 Hz k v Hcv). by apply Hc.
  - simpl. by rewrite (proj1 (k_config _ _ _ _ Hk)).
Qed.
End Large.

Section Blocks.
Context {W : Type} {E : Env W} {P : PageMap W} {G : EnvGhost W} {C : CacheEnv W}.
Context {ens : pm_t -> Z -> Prop} {free_ central_cache_ : Z} {sm : SizeMap}.
Context {EL : EnvLaws W} {CL : CacheEnvLaws W} {PL : PageMapLaws MetaDataAlloc P ens} {HLay : HeapLayout free_}.
Context (Hsm : size_map_ok sm) {CLay : CentralLayout (free_ := free_) (central_cache_ := central_cache_) (sm := sm)}.

Implicit Types (st : Caches) (p q cl : Z) (T : gset Z) (app : Z -> gset Z) (A : gmap Z Z).

Abbreviation nclasses := (num_size_classes sm).

#[local] Existing Instance pinned_EL.
#[local] Existing Instance pinned_HLay.
#[local] Existing Instance pinned_CLay.
Abbreviation crep := (crep (ens := ens) (free_ := free_) (central_cache_ := central_cache_) (sm := sm)).
Abbreviation client_keeps := (client_keeps (free_ := free_) (central_cache_ := central_cache_) (sm := sm)).
Abbreviation short := (short (sm := sm)).
Abbreviation spans_of st := (st.(heap).(pageheap).(spans)).
Abbreviation mem_of st := (st.(heap).(memory)).

(** An object of a size class, and a large span, as blocks: address and bytes. *)
Definition small_block app a n : Prop := exists cl, 1 <= cl < nclasses /\ a ∈ app cl /\ n = ByteSizeForClass sm cl.
Definition large_block st a n : Prop := exists p s, spans_of st !! p = Some s /\ s.(location) = IN_USE /\
  s.(sizeclass) = 0 /\ a = s.(start) * 8192 /\ n = s.(length_) * 8192.

(** [A]: the blocks handed out. *)
Definition shows app st A : Prop := forall a n, A !! a = Some n <-> small_block app a n \/ large_block st a n.

(** The words of the blocks of [A], except those at an address of [X], are the same. *)
Definition contents A (X : gset Z) (m m' : mem) : Prop :=
  forall a n x, A !! a = Some n -> a ∉ X -> a <= x < a + n -> m' !! x = m !! x.

Lemma contents_refl A X m : contents A X m m.
Proof. done. Qed.

Lemma contents_trans A A' X m1 m2 m3 : contents A X m1 m2 -> contents A' X m2 m3 ->
  (forall a n, A !! a = Some n -> a ∉ X -> A' !! a = Some n) -> contents A X m1 m3.
Proof. intros H1 H2 HA a n x Ha HX Hx. rewrite (H2 a n x), (H1 a n x); auto. Qed.

Lemma contents_mono A X Y m m' : contents A X m m' -> X ⊆ Y -> contents A Y m m'.
Proof. intros H HXY a n x Ha HY. apply (H a n x Ha). set_solver. Qed.

(** The state of the caches, with the blocks in the hands of the application. *)
Definition cache_inv strict (heaps : list Z) app st : Prop :=
  (exists Ls, crep strict (list_to_set heaps) app Ls 0 0 st /\ short (list_to_set heaps) Ls) /\
  budget heaps st /\ plain_caches st.

Lemma crep_self strict T app Ls self self' st : crep strict T app Ls self 0 st -> crep strict T app Ls self' 0 st.
Proof. intros []. split; try done. intros p t Hp. rewrite (cs_size p t Hp). f_equal. by repeat case_decide. Qed.

(** ** Where blocks are *)

Lemma app_class strict T app Ls self e st cl cl' x :
  crep strict T app Ls self e st -> 0 <= cl < nclasses -> 0 <= cl' < nclasses -> x ∈ app cl -> x ∈ app cl' -> cl = cl'.
Proof.
  intros [(Gs & HG & Heq) _ _ _ _ _ _] Hcl Hcl' Hx Hx'. symmetry.
  apply (out_class (G := pinned T) Hsm strict Gs st.(heap) cl cl' x HG); [done..| |]; apply Heq; auto.
Qed.

Lemma app_nonzero strict T app Ls self e st cl x : crep strict T app Ls self e st -> 0 <= cl < nclasses -> x ∈ app cl -> 1 <= cl < nclasses.
Proof.
  intros [(Gs & HG & Heq) _ _ _ _ _ _] Hcl Hx. assert (Hg : x ∈ g_out (Gs cl)) by (apply Heq; auto).
  destruct (cr_held _ _ _ (hr_central _ _ _ HG cl Hcl) x ltac:(by left)). lia.
Qed.

(** The span of an object: its class, and what the page map and the cache say. *)
Lemma app_span strict T app Ls self e st cl x :
  crep strict T app Ls self e st -> 0 <= cl < nclasses -> x ∈ app cl ->
  exists p s k, spans_of st !! p = Some s /\ s.(location) = IN_USE /\ s.(sizeclass) = cl /\
    GetDescriptor st.(heap).(pageheap) (x / 8192) = p /\ covers s (x / 8192) /\ 0 < x /\ x + ByteSizeForClass sm cl < 2 ^ 48 /\
    x = s.(start) * 8192 + k * ByteSizeForClass sm cl /\ 0 <= k /\ x + ByteSizeForClass sm cl <= (s.(start) + s.(length_)) * 8192 /\
    forall v, TryGetSizeClass st.(heap).(pageheap) (x / 8192) = Some v -> v = cl.
Proof.
  intros Hrep Hcl Hx. pose proof (app_nonzero _ _ _ _ _ _ _ _ _ Hrep Hcl Hx) as Hc1.
  destruct Hrep as [(Gs & HG & Heq) _ _ _ _ _ _]. assert (Hg : x ∈ g_out (Gs cl)) by (apply Heq; auto).
  destruct (out_span (G := pinned T) Hsm strict Gs st.(heap) cl x HG Hc1 Hg) as (p & s & Hp & [Hl _ _ _ _] & Hxs & _ & _ & _ & Hd & _).
  pose proof Hp as (Hp1 & Hp2 & Hp3).
  destruct (Inv_ok _ _ _ _ _ _ _ _ (hr_inv _ _ _ HG) Hp1) as [_ _ _ Hst Hlen Hlim _].
  destruct (obj_page Hsm cl s x Hc1 Hl Hst Hxs) as (Hcv & Hx0 & Hend). destruct (smo_size _ Hsm cl Hc1) as [Hb _].
  assert (Hpl : page_limit = 2 ^ 35) by done.
  apply elem_of_objs in Hxs as (k & Hk & Hxk). exists p, s, k. rewrite Z.shiftr_div_pow2 in Hd by done. change (2 ^ kPageShift) with 8192 in Hd.
  rewrite Hpl in Hlim. split_and!; try done; try lia.
  - intros v Hv. rewrite <- Hp3. destruct (proj2 (hr_cache _ _ _ HG) p s Hp1 Hp2) as [_ Hca]. apply (Hca ltac:(lia) (x / 8192)); done.
Qed.

Lemma large_span strict T app Ls self e st a n :
  crep strict T app Ls self e st -> large_block st a n -> exists p s, spans_of st !! p = Some s /\ s.(location) = IN_USE /\
    s.(sizeclass) = 0 /\ a = s.(start) * 8192 /\ n = s.(length_) * 8192 /\ a / 8192 = s.(start) /\
    GetDescriptor st.(heap).(pageheap) s.(start) = p /\ p <> 0 /\ TryGetSizeClass st.(heap).(pageheap) s.(start) = None /\
    0 < s.(start) /\ 0 < s.(length_) /\ s.(start) + s.(length_) < 2 ^ 35.
Proof.
  intros [(Gs & HG & Heq) _ _ _ _ _ _] (p & s & Hp & Hl & Hc & -> & ->). pose proof (hr_inv _ _ _ HG) as HI.
  destruct (Inv_ok _ _ _ _ _ _ _ _ HI Hp) as [Hp0 _ _ Hst Hlen Hlim _]. assert (page_limit = 2 ^ 35) by done.
  destruct (g_mapped _ _ _ _ _ _ _ (i_geom _ _ _ _ _ _ HI) p s Hp) as [Hf _ _].
  destruct (proj2 (hr_cache _ _ _ HG) p s Hp Hl) as [Hca _].
  exists p, s. split_and!; try done; try lia; [by apply Z.div_mul|auto].
Qed.

(** Objects of the classes are not inside large spans. *)
Lemma app_not_large strict T app Ls self e st cl x p s :
  crep strict T app Ls self e st -> 0 <= cl < nclasses -> x ∈ app cl ->
  spans_of st !! p = Some s -> s.(location) = IN_USE -> s.(sizeclass) = 0 -> ~ covers s (x / 8192).
Proof.
  intros [(Gs & HG & Heq) _ _ _ _ _ _] Hcl Hx Hp Hl Hc Hcv. assert (Hg : x ∈ g_out (Gs cl)) by (apply Heq; auto).
  by apply (out_not_large (G := pinned T) Hsm strict Gs st.(heap) cl x p s HG).
Qed.

(** Every block lies in a span in use. *)
Lemma block_span strict T app Ls self e st A a n :
  crep strict T app Ls self e st -> shows app st A -> A !! a = Some n ->
  exists p s, spans_of st !! p = Some s /\ s.(location) = IN_USE /\ 0 < s.(start) /\ s.(start) * 8192 <= a /\
    a + n <= (s.(start) + s.(length_)) * 8192 /\ s.(start) + s.(length_) < 2 ^ 35 /\ 8 <= n /\ n mod 8 = 0 /\ a mod 8 = 0 /\
    (8 < n -> a mod 16 = 0) /\
    ((s.(sizeclass) = 0 /\ a = s.(start) * 8192 /\ n = s.(length_) * 8192) \/
     exists k, 0 <= k /\ n = ByteSizeForClass sm s.(sizeclass) /\ a = s.(start) * 8192 + k * n /\ a ∈ app s.(sizeclass) /\ 1 <= s.(sizeclass) < nclasses).
Proof.
  intros Hrep HA Ha. apply HA in Ha as [(cl & Hcl & Ha & ->)|Hlg].
  - assert (Hc0 : 0 <= cl < nclasses) by lia. destruct (app_span _ _ _ _ _ _ _ _ _ Hrep Hc0 Ha) as (p & s & k & Hp & Hl & <- & Hd & Hcv & H0 & H48 & Hk & Hk0 & Hend & _).
    exists p, s. destruct (smo_size _ Hsm _ Hcl) as [Hb _], (smo_align _ Hsm _ Hcl) as [Hb8 Hb16].
    set (b := ByteSizeForClass sm s.(sizeclass)) in *. destruct Hrep as [(Gs & HG & _) _ _ _ _ _ _].
    destruct (Inv_ok _ _ _ _ _ _ _ _ (hr_inv _ _ _ HG) Hp) as [_ _ _ Hst Hlen Hlim _]. assert (page_limit = 2 ^ 35) by done.
    split_and!; try done; try lia.
    + apply Z.mod_divide in Hb8 as [z Hz]; [|lia]. replace a with ((s.(start) * 1024 + k * z) * 8) by lia. by apply Z.mod_mul.
    + intros H8. apply Hb16 in H8. apply Z.mod_divide in H8 as [z Hz]; [|lia].
      replace a with ((s.(start) * 512 + k * z) * 16) by lia. by apply Z.mod_mul.
    + right. exists k. split_and!; done || lia.
  - destruct (large_span _ _ _ _ _ _ _ _ _ Hrep Hlg) as (p & s & Hp & Hl & Hc & -> & -> & _ & _ & _ & _ & Hst & Hlen & Hlim).
    exists p, s. change 8192 with (1024 * 8). rewrite !Z.mul_assoc, !Z.mod_mul by lia. split_and!; try done; try lia.
    + intros _. replace (s.(start) * 1024 * 8) with (s.(start) * 512 * 16) by lia. by apply Z.mod_mul.
Qed.

Lemma blocks_disjoint strict T app Ls self e st A a n b m :
  crep strict T app Ls self e st -> shows app st A -> A !! a = Some n -> A !! b = Some m -> a <> b -> a + n <= b \/ b + m <= a.
Proof.
  intros Hrep HA Ha Hb Hne.
  destruct (block_span _ _ _ _ _ _ _ _ _ _ Hrep HA Ha) as (p & s & Hp & Hl & Hs0 & Ha1 & Ha2 & _ & Hn & _ & _ & _ & Hcs).
  destruct (block_span _ _ _ _ _ _ _ _ _ _ Hrep HA Hb) as (q & t & Hq & Hlq & Ht0 & Hb1 & Hb2 & _ & Hm & _ & _ & _ & Hct).
  destruct (decide (p = q)) as [<-|Hpq].
  - assert (t = s) as -> by congruence. destruct Hcs as [(Hz & -> & ->)|(k & Hk & En & Ea & _ & Hz)], Hct as [(Hz' & -> & ->)|(j & Hj & Em & Eb & _ & Hz')]; try lia.
    assert (m = n) as -> by congruence. assert (k < j \/ j < k) as [Hlt|Hlt] by nia; [left|right]; nia.
  - destruct Hrep as [(Gs & HG & _) _ _ _ _ _ _].
    assert (Hdis : forall z, covers s z -> covers t z -> False).
    { intros z H1 H2. apply Hpq. by eapply (g_disjoint _ _ _ _ _ _ _ (i_geom _ _ _ _ _ _ (hr_inv _ _ _ HG))). }
    unfold covers in Hdis. destruct (decide (s.(start) < t.(start))); [left|right].
    + assert (s.(start) + s.(length_) <= t.(start)) by (destruct (decide (s.(start) + s.(length_) <= t.(start))); [done|];
        destruct (Hdis t.(start)); lia). lia.
    + assert (t.(start) + t.(length_) <= s.(start)) by (destruct (decide (t.(start) + t.(length_) <= s.(start))); [done|];
        destruct (Hdis s.(start)); lia). lia.
Qed.

(** ** The effect of steps on the blocks *)

Lemma client_shows T X app st st' A : client_keeps T X app st st' -> shows app st A -> shows app st' A.
Proof.
  intros Hk HA a n. rewrite (HA a n). assert (Hl : large_block st a n <-> large_block st' a n); [|tauto].
  split; intros (p & s & Hp & Hl & Hc & Ha & Hn); exists p, s; (split; [by apply (vi_large _ _ _ _ Hk p s Hl Hc)|done]).
Qed.

Lemma client_contents T X app st st' A : client_keeps T X app st st' -> shows app st A -> contents A X (mem_of st) (mem_of st').
Proof.
  intros Hk HA a n x Ha HX Hx. apply HA in Ha as [(cl & Hcl & Ha & ->)|(p & s & Hp & Hl & Hc & -> & ->)].
  - apply (vi_obj _ _ _ _ Hk cl a x); try done. lia.
  - apply (vi_page _ _ _ _ Hk p s x); try done. unfold covers. split.
    + apply Z.div_le_lower_bound; lia.
    + apply Z.div_lt_upper_bound; lia.
Qed.

(** An object goes to the application. *)
Lemma shows_add strict T app Ls self e st A cl x (app' := set_app cl (app cl ∪ {[x]}) app) :
  crep strict T app' Ls self e st -> 1 <= cl < nclasses -> x ∉ app cl -> shows app st A ->
  A !! x = None /\ shows app' st (<[x := ByteSizeForClass sm cl]> A).
Proof.
  intros Hrep Hcl Hx HA. assert (Hxa : x ∈ app' cl) by (unfold app', set_app; rewrite decide_True by done; set_solver).
  assert (Hin : forall c y, 0 <= c < nclasses -> y ∈ app c -> y ∈ app' c).
  { intros c y _ Hy. unfold app', set_app. case_decide; [subst c; set_solver|done]. }
  assert (Hno : forall n, ~ small_block app x n /\ ~ large_block st x n).
  { intros n. split.
    - intros (c & Hc & Hy & _). assert (c = cl) as ->; [|done].
      apply (app_class strict T app' Ls self e st c cl x Hrep); [lia|lia|apply Hin; [lia|done]|done].
    - intros (p & s & Hp & Hl & Hc & -> & _). apply (app_not_large strict T app' Ls self e st cl (s.(start) * 8192) p s); try done; [lia|].
      rewrite Z.div_mul by lia. destruct Hrep as [(Gs & HG & _) _ _ _ _ _ _].
      destruct (Inv_ok _ _ _ _ _ _ _ _ (hr_inv _ _ _ HG) Hp). unfold covers. lia. }
  split.
  - destruct (A !! x) as [n|] eqn:Hn; [|done]. apply HA in Hn. destruct (Hno n). tauto.
  - intros a n. rewrite lookup_insert_Some, (HA a n). split.
    + intros [[<- <-]|[Hne [(c & Hc & Ha & ->)|?]]]; [left; by exists cl|left|by right].
      exists c. split; [done|]. split; [|done]. apply Hin; [lia|done].
    + intros [(c & Hc & Ha & ->)|Hl]; [|right; split; [intros ->; by destruct (Hno n)|by right]].
      unfold app', set_app in Ha. destruct (decide (c = cl)) as [->|Hne].
      * apply elem_of_union in Ha as [Ha|Hax%elem_of_singleton]; [right|subst a; by left].
        split; [intros ->; done|]. left. by exists cl.
      * right. split; [intros ->; destruct (Hno (ByteSizeForClass sm c)) as [H _]; apply H; by exists c|]. left. by exists c.
Qed.

(** An object is taken back. *)
Lemma shows_del strict T app Ls self e st A cl x (app' := set_app cl (app cl ∖ {[x]}) app) :
  crep strict T app Ls self e st -> 1 <= cl < nclasses -> x ∈ app cl -> shows app st A -> shows app' st (delete x A).
Proof.
  intros Hrep Hcl Hx HA a n. rewrite lookup_delete_Some, (HA a n).
  assert (Hno : forall n, ~ large_block st x n).
  { intros m (p & s & Hp & Hl & Hc & -> & _). apply (app_not_large strict T app Ls self e st cl (s.(start) * 8192) p s); try done; [lia|].
    rewrite Z.div_mul by lia. destruct Hrep as [(Gs & HG & _) _ _ _ _ _ _].
    destruct (Inv_ok _ _ _ _ _ _ _ _ (hr_inv _ _ _ HG) Hp). unfold covers. lia. }
  assert (Happ : forall c y, y ∈ app' c <-> y ∈ app c /\ (c = cl -> y <> x)).
  { intros c y. unfold app', set_app. case_decide; [subst c; set_solver|]. tauto. }
  split.
  - intros [Hne [(c & Hc & Ha & ->)|Hl]]; [left; exists c|by right]. split; [done|]. split; [|done]. apply Happ. split; [done|]. by intros _ ->.
  - intros [(c & Hc & Ha & ->)|Hl]; [|split; [intros ->; by apply (Hno n)|by right]].
    apply Happ in Ha as [Ha Hne]. split; [|left; by exists c]. intros ->. apply Hne; [|done].
    apply (app_class strict T app Ls self e st c cl a); done || lia.
Qed.

(** ** Steps of the page heap *)

Abbreviation Inv T := (PageHeapInv.Inv (G := pinned T) ens free_).
Abbreviation keeps T := (PageHeapInv.keeps (G := pinned T) free_).

(** The page heap changes one large span. *)
Lemma crep_large strict T app Ls self e st h' p (st' := upd_heap (upd_pageheap h' st.(heap)) st) :
  crep strict T app Ls self e st -> Inv T strict ∅ 0 h' -> keeps T {[p]} st.(heap).(pageheap) h' ->
  (forall s, spans_of st !! p = Some s -> s.(location) = IN_USE -> s.(sizeclass) = 0) ->
  (forall s, h'.(spans) !! p = Some s -> s.(location) = IN_USE -> s.(sizeclass) = 0 /\ TryGetSizeClass h' s.(start) = None) ->
  crep strict T app Ls self e st' /\ same_limits st st'.
Proof.
  intros [(Gs & HG & Heq) Hdom Hls Hb Hap Hsep Hsize] HI Hk Hp Hp'. split; [|by split]. split; try done.
  exists Gs. split; [|done]. by apply (heap_rep_large (G := pinned T) Hsm strict Gs st.(heap) h' p).
Qed.

(** The large blocks other than [p] stay. *)
Lemma keeps_large T X st h' a n (st' := upd_heap (upd_pageheap h' st.(heap)) st) :
  keeps T X st.(heap).(pageheap) h' -> (exists p s, (p ∉ X) /\ spans_of st !! p = Some s /\ s.(location) = IN_USE /\
    s.(sizeclass) = 0 /\ a = s.(start) * 8192 /\ n = s.(length_) * 8192) <->
  (exists p s, (p ∉ X) /\ spans_of st' !! p = Some s /\ s.(location) = IN_USE /\
    s.(sizeclass) = 0 /\ a = s.(start) * 8192 /\ n = s.(length_) * 8192).
Proof.
  intros Hk. split; intros (p & s & HX & Hp & Hl & Hc); exists p, s; (split_and!; try tauto).
  - by apply (k_span _ _ _ _ Hk p s).
  - by apply (k_span' _ _ _ _ Hk p s).
Qed.

Lemma crep_Inv strict T app Ls self e st : crep strict T app Ls self e st -> Inv T strict ∅ 0 st.(heap).(pageheap).
Proof. intros [(Gs & HG & _) _ _ _ _ _ _]. apply (hr_inv _ _ _ HG). Qed.

(** A span becomes a block. *)
Lemma shows_new strict T app Ls self e st h' p s A (st' := upd_heap (upd_pageheap h' st.(heap)) st) :
  crep strict T app Ls self e st' -> shows app st A -> keeps T {[p]} st.(heap).(pageheap) h' ->
  (forall s, spans_of st !! p = Some s -> s.(location) <> IN_USE) ->
  h'.(spans) !! p = Some s -> s.(location) = IN_USE -> s.(sizeclass) = 0 ->
  A !! (s.(start) * 8192) = None /\ shows app st' (<[s.(start) * 8192 := s.(length_) * 8192]> A).
Proof.
  intros Hrep HA Hk Hold Hp Hl Hc. pose proof (crep_Inv _ _ _ _ _ _ _ Hrep) as HI.
  destruct (Inv_ok _ _ _ _ _ _ _ _ HI Hp) as [_ _ _ Hst Hlen _ _].
  assert (Hlg : forall a n, large_block st' a n <-> a = s.(start) * 8192 /\ n = s.(length_) * 8192 \/ large_block st a n).
  { intros a n. pose proof (keeps_large T {[p]} st h' a n Hk) as Hkl. split.
    - intros (q & t & Hq & Hrest). destruct (decide (q = p)) as [->|Hne].
      + left. simpl in Hq. assert (t = s) as -> by congruence. tauto.
      + right. destruct (proj2 Hkl) as (q' & t' & _ & H'); [exists q, t; split; [set_solver|done]|]. by exists q', t'.
    - intros [[-> ->]|(q & t & Hq & Hrest)]; [by exists p, s|].
      assert (q <> p) by (intros ->; apply (Hold t Hq); tauto).
      destruct (proj1 Hkl) as (q' & t' & _ & H'); [exists q, t; split; [set_solver|done]|]. by exists q', t'. }
  assert (Hno : forall n, ~ small_block app (s.(start) * 8192) n /\ ~ large_block st (s.(start) * 8192) n).
  { intros n. split.
    - intros (c & Hcc & Ha & _). apply (app_not_large strict T app Ls self e st' c (s.(start) * 8192) p s); try done; [lia|].
      rewrite Z.div_mul by lia. unfold covers. lia.
    - intros Hb. assert (Hb2 := Hb). destruct Hb as (q & t & Hq & Hlq & Hcq & Heq & _).
      assert (Hne : q <> p) by (intros ->; by apply (Hold t Hq)). apply Hne.
      assert (Hq' : h'.(spans) !! q = Some t) by (apply (k_span _ _ _ _ Hk q t Hq Hlq); set_solver).
      destruct (Inv_ok _ _ _ _ _ _ _ _ HI Hq') as [_ _ _ _ Hlq' _ _].
      apply (g_disjoint _ _ _ _ _ _ _ (i_geom _ _ _ _ _ _ HI) q p t s s.(start)); try done; unfold covers; lia. }
  split.
  - destruct (A !! _) as [n|] eqn:Hn; [|done]. apply HA in Hn. destruct (Hno n). tauto.
  - intros a n. rewrite lookup_insert_Some, (HA a n), (Hlg a n). split.
    + intros [[<- <-]|[Hne [?|?]]]; [right; by left|by left|right; by right].
    + intros [Hs|[[-> ->]|Hs]]; [right|by left|right]; (split; [intros <-; destruct (Hno n); tauto|tauto]).
Qed.

(** A block that was a span is gone. *)
Lemma shows_gone strict T app Ls self e st h' p s A (st' := upd_heap (upd_pageheap h' st.(heap)) st) :
  crep strict T app Ls self e st -> shows app st A -> keeps T {[p]} st.(heap).(pageheap) h' ->
  spans_of st !! p = Some s -> s.(location) = IN_USE -> s.(sizeclass) = 0 ->
  (forall s, h'.(spans) !! p = Some s -> s.(location) <> IN_USE) ->
  shows app st' (delete (s.(start) * 8192) A).
Proof.
  intros Hrep HA Hk Hp Hl Hc Hnew a n. rewrite lookup_delete_Some, (HA a n).
  pose proof (crep_Inv _ _ _ _ _ _ _ Hrep) as HI. destruct (Inv_ok _ _ _ _ _ _ _ _ HI Hp) as [_ _ _ Hst Hlen _ _].
  pose proof (keeps_large T {[p]} st h' a n Hk) as Hkl. split.
  - intros [Hne [Hs|(q & t & Hq & Hlq & Hcq & -> & ->)]]; [by left|right].
    assert (q <> p) by (intros ->; assert (t = s) as -> by congruence; done).
    destruct (proj1 Hkl) as (q' & t' & _ & H'); [exists q, t; split_and!; try done; set_solver|]. by exists q', t'.
  - intros [Hs|(q & t & Hq & Hlq & Hcq & -> & ->)].
    + split; [|by left]. intros <-. destruct Hs as (c & Hcc & Ha & _).
      apply (app_not_large strict T app Ls self e st c (s.(start) * 8192) p s); try done; [lia|].
      rewrite Z.div_mul by lia. unfold covers. lia.
    + assert (q <> p) as Hne by (intros ->; by apply (Hnew t Hq)).
      assert (Hq0 : spans_of st !! q = Some t) by (apply (k_span' _ _ _ _ Hk q t Hq Hlq); set_solver).
      split; [|right; by exists q, t]. intros Heq. apply Hne.
      destruct (Inv_ok _ _ _ _ _ _ _ _ HI Hq0) as [_ _ _ _ Hlq' _ _].
      apply (g_disjoint _ _ _ _ _ _ _ (i_geom _ _ _ _ _ _ HI) q p t s s.(start)); try done; unfold covers; lia.
Qed.

(** ** The operations on blocks *)

Definition blocks_inv strict heaps st A : Prop := exists app, cache_inv strict heaps app st /\ shows app st A.

(** A new span of [n] pages, [req] or more, as a block, or none. *)
Definition span_block strict heaps A st r st' (req n : Z) (nothing : Prop) : Prop :=
  mem_of st' = mem_of st /\ same_limits st st' /\
  (r = 0 -> blocks_inv strict heaps st' A /\ nothing) /\
  (r <> 0 -> exists s, spans_of st' !! r = Some s /\ s.(length_) = n /\ req <= n /\ 0 < s.(start) /\ s.(start) + s.(length_) < 2 ^ 35 /\
     A !! (s.(start) * 8192) = None /\ blocks_inv strict heaps st' (<[s.(start) * 8192 := n * 8192]> A)).

Lemma owned_block strict heaps A st r h' b n :
  blocks_inv strict heaps st A -> Inv (list_to_set heaps) strict ∅ 0 h' -> plain h' ->
  owned (G := pinned (list_to_set heaps)) (free_ := free_) b n 0 r st.(heap).(pageheap) h' -> TryGetSizeClass h' b = None ->
  let st' := upd_heap (upd_pageheap h' st.(heap)) st in
  same_limits st st' /\ exists s, spans_of st' !! r = Some s /\ s.(start) = b /\ s.(length_) = n /\ 0 < s.(start) /\ s.(start) + s.(length_) < 2 ^ 35 /\
     A !! (b * 8192) = None /\ blocks_inv strict heaps st' (<[b * 8192 := n * 8192]> A).
Proof.
  intros (app & ((Ls & Hrep & Hsh) & Hbu & Hpl) & HA) HI Hpl' (Hk & Hold & s & Hs & Hb & Hn & Hl & Hc) Hcache st'.
  destruct (crep_large strict (list_to_set heaps) app Ls 0 0 st h' r Hrep HI Hk) as [Hrep' Hl'].
  { intros t Ht Hlt. by destruct (Hold t Ht). }
  { intros t Ht _. assert (t = s) as -> by congruence. rewrite Hb. done. }
  destruct (shows_new strict _ app Ls 0 0 st h' r s A Hrep' HA Hk Hold Hs Hl Hc) as [Hnone Hsh'].
  destruct (Inv_ok _ _ _ _ _ _ _ _ HI Hs) as [_ _ _ ? ? Hlim _]. assert (page_limit = 2 ^ 35) by done.
  split; [done|]. exists s. subst b n. split_and!; try done; try lia. exists app. split; [|done]. split; [by exists Ls|].
  split; [by eapply budget_same|done].
Qed.

Lemma keeps_block strict heaps A st h' :
  blocks_inv strict heaps st A -> Inv (list_to_set heaps) strict ∅ 0 h' -> plain h' ->
  keeps (list_to_set heaps) ∅ st.(heap).(pageheap) h' ->
  let st' := upd_heap (upd_pageheap h' st.(heap)) st in same_limits st st' /\ blocks_inv strict heaps st' A.
Proof.
  intros (app & ((Ls & Hrep & Hsh) & Hbu & Hpl) & HA) HI Hpl' Hk st'. pose proof Hrep as [(Gs & HG & Heq) _ _ _ _ _ _].
  destruct (heap_rep_keeps (G := pinned (list_to_set heaps)) Hsm strict Gs st.(heap) h' HG HI Hk) as [HG' Hv].
  destruct (crep_central Hsm strict _ app app Ls 0 0 st (upd_pageheap h' st.(heap)) Gs Gs ∅ Hrep HG Heq HG' Hv Heq) as [Hrep' Hl'].
  { intros c p x Hc Hp Hx. split; [by apply (cs_app _ _ _ _ _ _ _ Hrep p c x)|set_solver]. }
  split; [done|]. exists app. split; [split; [by exists Ls|split; [by eapply budget_same|done]]|].
  apply (client_shows (list_to_set heaps) ∅ app st); [|done]. eapply visible_sub; [exact Hv|]. intros c x Hc Hx. apply Heq; auto.
Qed.

Lemma blocks_Inv strict heaps st A : blocks_inv strict heaps st A -> Inv (list_to_set heaps) strict ∅ 0 st.(heap).(pageheap).
Proof. intros (app & ((Ls & Hrep & _) & _) & _). by eapply crep_Inv. Qed.

Lemma blocks_plain strict heaps st A : blocks_inv strict heaps st A -> plain st.(heap).(pageheap).
Proof. by intros (app & (_ & _ & Hpl) & _). Qed.

Lemma wp_block_New strict heaps st A n :
  blocks_inv strict heaps st A -> 0 < n < 2 ^ 64 ->
  let len := RoundUpSize st.(heap).(pageheap) n in
  wp (on_central (on_heap (New free_ n))) (fun r st' => span_block strict heaps A st r st' n len
    (limit_ok len st.(heap).(pageheap) = true -> none_free len page_limit st.(heap).(pageheap))) st.
Proof.
  intros HB Hn len. pose proof (blocks_Inv _ _ _ _ HB) as HI. apply wp_on_central, wp_on_heap. unfold New.
  eapply wp_mono; [apply (wp_steady plain); [apply steady_NewWithSizeClass|by eapply blocks_plain|]|].
  { apply (wp_NewWithSizeClass (G := pinned (list_to_set heaps)) strict n 0 _ HI); lia. }
  intros r h' [[HI' [Hr Hr0]] Hpl]. unfold span_block. split; [done|]. destruct (decide (r = 0)) as [->|Hne].
  - destruct (Hr0 eq_refl) as (Hk & _ & Hno). destruct (keeps_block strict heaps A st h' HB HI' Hpl Hk) as [Hl' HB']. by split_and!.
  - destruct (Hr Hne) as (b & Ho & Hc). destruct (owned_block strict heaps A st r h' b len HB HI' Hpl Ho Hc) as [Hl' (s & Hs & <- & Hlen & H1 & H2 & Hno & HB')].
    pose proof (RoundUpSize_owned (G := pinned (list_to_set heaps)) strict _ s.(start) n 0 r _ h' HI HI' Hn Ho) as [Hle _].
    split_and!; [done|done|]. intros _. exists s. by split_and!.
Qed.

Lemma wp_block_NewAligned strict heaps st A n a :
  blocks_inv strict heaps st A -> 0 < n < 2 ^ 64 -> 0 <= a < 64 ->
  let len := RoundUpSize st.(heap).(pageheap) n in
  wp (on_central (on_heap (NewAligned free_ n (2 ^ a)))) (fun r st' => span_block strict heaps A st r st' n len True /\
    forall s, spans_of st' !! r = Some s -> r <> 0 -> s.(start) mod 2 ^ a = 0) st.
Proof.
  intros HB Hn Ha len. pose proof (blocks_Inv _ _ _ _ HB) as HI. apply wp_on_central, wp_on_heap.
  eapply wp_mono; [apply (wp_steady plain); [apply steady_NewAligned|by eapply blocks_plain|]|].
  { by apply (wp_NewAligned (G := pinned (list_to_set heaps)) strict n a _ HI). }
  intros r h' [[HI' [Hr Hr0]] Hpl]. unfold span_block. destruct (decide (r = 0)) as [->|Hne].
  - destruct (Hr0 eq_refl) as (Hk & _). destruct (keeps_block strict heaps A st h' HB HI' Hpl Hk) as [Hl' HB']. by split_and!.
  - destruct (Hr Hne) as (b & Ho & Hal & Hc). destruct (owned_block strict heaps A st r h' b len HB HI' Hpl Ho Hc) as [Hl' (s & Hs & <- & Hlen & H1 & H2 & Hno & HB')].
    pose proof (RoundUpSize_owned (G := pinned (list_to_set heaps)) strict _ s.(start) n 0 r _ h' HI HI' Hn Ho) as [Hle _].
    split_and!; [done|done|done| |].
    + intros _. exists s. by split_and!.
    + intros t Ht _. assert (t = s) as -> by congruence. done.
Qed.

Lemma wp_block_Delete strict heaps st A p s :
  blocks_inv strict heaps st A -> spans_of st !! p = Some s -> s.(location) = IN_USE -> s.(sizeclass) = 0 ->
  wp (on_central (on_heap (DeleteLocked free_ p))) (fun _ st' => mem_of st' = mem_of st /\ same_limits st st' /\
    blocks_inv strict heaps st' (delete (s.(start) * 8192) A)) st.
Proof.
  intros HB Hp Hl Hc. pose proof (blocks_Inv _ _ _ _ HB) as HI. apply wp_on_central, wp_on_heap.
  eapply wp_mono; [apply (wp_steady plain); [apply steady_DeleteLocked|by eapply blocks_plain|]|].
  { by apply (wp_DeleteLocked (G := pinned (list_to_set heaps)) strict _ p s HI). }
  intros _ h' [[HI' (Hk & _ & Hgone & _)] Hpl]. destruct HB as (app & ((Ls & Hrep & Hsh) & Hbu & _) & HA).
  destruct (crep_large strict (list_to_set heaps) app Ls 0 0 st h' p Hrep HI' Hk) as [Hrep' Hl'].
  { intros t Ht _. by assert (t = s) as -> by congruence. }
  { intros t Ht Hlt. by destruct (Hgone t Ht). }
  split_and!; try done. exists app. split; [split; [by exists Ls|split; [by eapply budget_same|done]]|].
  by apply (shows_gone strict (list_to_set heaps) app Ls 0 0 st h' p s A).
Qed.

(** ** Objects of the classes *)

Lemma class_size_ok c : 0 <= c < nclasses -> 0 <= class_to_size sm c < 2 ^ 31.
Proof.
  intros Hc. destruct (decide (c = 0)) as [->|Hne]; [rewrite (smo_zero _ Hsm); lia|].
  destruct (smo_size _ Hsm c ltac:(lia)) as [H1 H2]. change (ByteSizeForClass sm c) with (class_to_size sm c) in *.
  assert (kMaxSize = 262144) by done. lia.
Qed.

Lemma elem_heaps (self : Z) heaps : self ∈ heaps -> self ∈ (list_to_set heaps : gset Z).
Proof. by rewrite elem_of_list_to_set. Qed.

Lemma wp_block_Allocate strict heaps st A self cl :
  blocks_inv strict heaps st A -> self ∈ heaps -> 1 <= cl < nclasses ->
  wp (Allocate free_ central_cache_ sm self (class_to_size sm cl) cl) (fun r st' => same_limits st st' /\
    contents A ∅ (mem_of st) (mem_of st') /\
    match r with
    | inl x => x <> 0 /\ A !! x = None /\ blocks_inv strict heaps st' (<[x := ByteSizeForClass sm cl]> A)
    | inr n => n = class_to_size sm cl /\ blocks_inv strict heaps st' A /\
        no_pages (class_to_pages sm cl) st.(heap).(pageheap) st'.(heap).(pageheap).(errno)
    end) st.
Proof.
  intros (app & ((Ls & Hrep & Hsh) & Hbu & Hpl) & HA) Hs%elem_heaps Hcl.
  eapply wp_mono; [apply (wp_steady plain_caches); [apply steady_Allocate|exact Hpl|]|].
  - apply (wp_Allocate Hsm strict (list_to_set heaps) app Ls self st cl (fun r st' => same_limits st st' /\ contents A ∅ (mem_of st) (mem_of st') /\
      match r with
      | inl x => x <> 0 /\ A !! x = None /\ exists app', (exists Ls', crep strict (list_to_set heaps) app' Ls' 0 0 st' /\ short (list_to_set heaps) Ls') /\
          shows app' st' (<[x := ByteSizeForClass sm cl]> A)
      | inr n => n = class_to_size sm cl /\ (exists app', (exists Ls', crep strict (list_to_set heaps) app' Ls' 0 0 st' /\ short (list_to_set heaps) Ls') /\
          shows app' st' A) /\ no_pages (class_to_pages sm cl) st.(heap).(pageheap) st'.(heap).(pageheap).(errno)
      end)); [by apply (crep_self _ _ _ _ 0 self)|done|done|apply class_size_ok; lia|apply Hsh; [done|lia]|]. split.
    + intros st' Hrep' Hl' Hk Hno. split_and!; try done; [by eapply client_contents|]. exists app.
      split; [exists Ls; split; [by eapply crep_self|done]|by eapply client_shows].
    + intros x os st' Hx Hrep' Hl' Hk Hos. pose proof (client_shows _ _ _ _ _ _ Hk HA) as HA'.
      destruct (shows_add strict _ app _ self 0 st' A cl x Hrep' Hcl Hx HA') as [Hnone HA2].
      split_and!; try done; [by eapply client_contents| |].
      * destruct (app_span strict _ _ _ _ _ st' cl x Hrep' ltac:(lia)) as (_ & _ & _ & _ & _ & _ & _ & _ & Hpos & _); [|lia].
        unfold set_app. rewrite decide_True by done. set_solver.
      * eexists. split; [|exact HA2]. eexists. split; [by eapply crep_self|]. intros p c Hp Hc. unfold set_ls. case_decide; [done|by apply Hsh].
  - intros r st' [(Hl' & Hct & Hr) Hpl']. split_and!; try done. destruct r as [x|n].
    + destruct Hr as (Hx0 & Hnone & app' & HLs' & HA'). split_and!; try done. exists app'. split; [|done]. split; [done|]. split; [by eapply budget_same|done].
    + destruct Hr as (Hn & (app' & HLs' & HA') & Hno). split_and!; try done. exists app'. split; [|done]. split; [done|]. split; [by eapply budget_same|done].
Qed.

Lemma wp_block_Deallocate strict heaps st A app self ptr cl :
  cache_inv strict heaps app st -> shows app st A -> self ∈ heaps -> 1 <= cl < nclasses -> ptr ∈ app cl ->
  wp (Deallocate free_ central_cache_ sm self ptr cl) (fun _ st' => blocks_inv strict heaps st' (delete ptr A) /\
    contents A {[ptr]} (mem_of st) (mem_of st')) st.
Proof.
  intros ((Ls & Hrep & Hsh) & Hbu & Hpl) HA Hs Hcl Hptr.
  eapply wp_mono; [apply (wp_steady plain_caches); [apply steady_Deallocate|exact Hpl|]|].
  - apply (wp_Deallocate Hsm strict (list_to_set heaps) app Ls self heaps st ptr cl (crep_self _ _ _ _ _ self _ Hrep) (elem_heaps _ _ Hs) Hsh Hbu); [|lia|done].
    intros ->. by apply not_elem_of_nil in Hs.
  - intros [] st' [(Ls' & Hrep' & Hsh' & Hbu' & Hk) Hpl']. split; [|by eapply client_contents].
    exists (set_app cl (app cl ∖ {[ptr]}) app). split; [split; [exists Ls'; split; [by eapply crep_self|done]|done]|].
    apply (client_shows (list_to_set heaps) {[ptr]} _ st); [|by apply (shows_del strict (list_to_set heaps) app Ls 0 0)].
    eapply visible_sub; [exact Hk|]. intros c x Hc Hx. simpl in *. unfold set_app in Hx. case_decide; [subst c; set_solver|done].
Qed.

(** ** Writes of the application into its blocks *)

(** The first word of an object inside a block is the first of the block. *)
Lemma block_first strict T app Ls self e st Gs A a n c p s x :
  crep strict T app Ls self e st -> shows app st A -> central_ok (ens := ens) (free_ := free_) (central_cache_ := central_cache_) (sm := sm) strict T Gs st.(heap) ->
  A !! a = Some n -> a <= x < a + n -> 1 <= c < nclasses -> in_class c st.(heap) p s -> s.(length_) = class_to_pages sm c ->
  x ∈ span_objs (sm := sm) c s -> x ∈ app c.
Proof.
  intros Hrep HA HG Ha Hx Hc (Hp & Hl & Hsc) Hlen Hxs. pose proof (hr_inv _ _ _ HG) as HI.
  destruct (Inv_ok _ _ _ _ _ _ _ _ HI Hp) as [_ _ _ Hst _ _ _]. destruct (obj_page Hsm c s x Hc Hlen Hst Hxs) as (Hcv & _).
  apply HA in Ha as [(cl & Hcl & Ha & ->)|(q & t & Hq & Hlq & Hcq & -> & ->)].
  - pose proof Hrep as [(Gs' & HG' & Heq) _ _ _ _ _ _].
    destruct (out_inside (G := pinned T) Hsm strict Gs' st.(heap) cl c a x HG') as [-> ->]; try done; [lia|apply Heq; [lia|by left]|].
    intros y ->%elem_of_singleton. by exists p, s.
  - destruct (Inv_ok _ _ _ _ _ _ _ _ HI Hq) as [_ _ _ Hst' Hlen' _ _].
    assert (Hcv' : covers t (x / 8192)).
    { unfold covers. split; [apply Z.div_le_lower_bound|apply Z.div_lt_upper_bound]; lia. }
    assert (q = p) as -> by (by eapply (g_disjoint _ _ _ _ _ _ _ (i_geom _ _ _ _ _ _ HI))). assert (t = s) as -> by congruence. lia.
Qed.

Lemma blocks_write_app strict heaps st A app m' :
  cache_inv strict heaps app st -> shows app st A ->
  (forall x, (forall a n, A !! a = Some n -> ~ a <= x < a + n) -> m' !! x = mem_of st !! x) ->
  cache_inv strict heaps app (upd_heap (upd_memory (fun _ => m') st.(heap)) st).
Proof.
  intros ((Ls & Hrep & Hsh) & Hbu & Hpl) HA Hm.
  split; [|split; [by apply (budget_same heaps st)|exact Hpl]]. exists Ls. split; [|done]. pose proof Hrep as [(Gs & HG & Heq) Hdom Hls Hb Hap Hsep Hsize].
  assert (Hw : forall c p s x, 0 <= c < nclasses -> in_class c st.(heap) p s -> c <> 0 -> x ∈ span_objs (sm := sm) c s -> x ∉ app c ->
    m' !! x = mem_of st !! x).
  { intros c p s x Hc Hp Hc0 Hx Hno. apply Hm. intros a n Ha Hin. apply Hno.
    eapply (block_first strict _ app Ls 0 0 st Gs A a n c p s x Hrep HA HG Ha Hin); [lia|done| |done].
    apply (cr_span _ _ _ (hr_central _ _ _ HG c Hc) p s Hc0 Hp). }
  split; try done.
  - exists Gs. split; [|done]. apply (heap_rep_words (G := pinned (list_to_set heaps)) strict Gs st.(heap)); [done|].
    intros c p s x Hc Hp Hc0 Hx Hno. apply (Hw c p s x); try done. intros Hxa. apply Hno, Heq; auto.
  - intros p t cl Hp Hcl. assert (HpT : p ∈ (list_to_set heaps : gset Z)) by (rewrite <- Hdom; by eapply elem_of_dom_2).
    destruct (Hls p t cl Hp Hcl). split; try done. eapply sll_agree; [|done]. intros x Hx.
    assert (Hxo : x ∈ g_out (Gs cl)) by (apply Heq; eauto).
    destruct (cr_held _ _ _ (hr_central _ _ _ HG cl Hcl) x ltac:(by left)) as (Hc0 & q & s & Hq & Hxs).
    apply (Hw cl q s x); try done. by apply (Hap p).
Qed.

Lemma blocks_write strict heaps st A m' (st' := upd_heap (upd_memory (fun _ => m') st.(heap)) st) :
  blocks_inv strict heaps st A ->
  (forall x, (forall a n, A !! a = Some n -> ~ a <= x < a + n) -> m' !! x = mem_of st !! x) ->
  blocks_inv strict heaps st' A.
Proof. intros (app & HC & HA) Hm. exists app. split; [by eapply blocks_write_app|done]. Qed.

(** ** The size-class cache *)

Lemma blocks_cached_app strict heaps st app p s k (h' := upd_pagemap_cache (fun c => Put (kAddressBits - kPageShift) c k s.(sizeclass)) st.(heap).(pageheap)) :
  cache_inv strict heaps app st -> spans_of st !! p = Some s -> s.(location) = IN_USE -> s.(sizeclass) <> 0 -> covers s k ->
  cache_inv strict heaps app (upd_heap (upd_pageheap h' st.(heap)) st).
Proof.
  intros ((Ls & Hrep & Hsh) & Hbu & Hpl) Hp Hl Hc Hk.
  split; [|split; [by apply (budget_same heaps st)|exact Hpl]]. exists Ls. split; [|done]. destruct Hrep as [(Gs & HG & Heq) Hdom Hls Hb Hap Hsep Hsize].
  split; try done. exists Gs. split; [|done]. pose proof (smo_num _ Hsm). destruct HG as [HI Hcen Hcls Hca Hra Hsmall].
  pose proof (Hcls p s Hp Hl) as Hcr. pose proof (covered_range strict ∅ 0 _ p s k HI Hp Hk) as Hk64.
  assert (Hcov : forall q t k', h'.(spans) !! q = Some t -> covers t k' -> 0 <= k' < 2 ^ 64).
  { intros q t k' Hq Hcv. by apply (covered_range strict ∅ 0 _ q t k' HI). }
  split; try done.
  - destruct HI. by split.
  - intros c Hcc. destruct (Hcen c Hcc) as [? ? ? ? Hspn]. split; try done. intros q t Hc0 Hq. by destruct (Hspn q t Hc0 Hq).
  - destruct Hca as [Hnull Hca]. split.
    { unfold TryGetSizeClass in *. change (pagemap_cache_ _) with (Put (kAddressBits - kPageShift) st.(heap).(pageheap).(pagemap_cache_) k s.(sizeclass)).
      destruct (Inv_ok _ _ _ _ _ _ _ _ HI Hp). unfold covers in Hk.
      rewrite TryGet_Put by (done || lia). rewrite decide_False by lia. by case_decide. }
    intros q t Hq Hlt. simpl in Hq. destruct (Hca q t Hq Hlt) as [H0 H1].
    assert (Hst : covers t t.(start)) by (destruct (Inv_ok _ _ _ _ _ _ _ _ HI Hq); unfold covers; lia).
    unfold TryGetSizeClass in *.
    change (pagemap_cache_ _) with (Put (kAddressBits - kPageShift) st.(heap).(pageheap).(pagemap_cache_) k s.(sizeclass)).
    split; [intros Hz|intros Hz k' v Hcv]; rewrite TryGet_Put by (done || lia || by apply (Hcov q t)).
    + rewrite decide_False; [case_decide; [done|auto]|]. intros ->. apply Hc.
      assert (q = p) as -> by (by eapply (g_disjoint _ _ _ _ _ _ _ (i_geom _ _ _ _ _ _ HI))). congruence.
    + case_decide as Hkk; [|case_decide; [done|by apply H1]]. intros [= <-]. subst k'.
      assert (q = p) as -> by (by eapply (g_disjoint _ _ _ _ _ _ _ (i_geom _ _ _ _ _ _ HI))). congruence.
Qed.

(** ** An object without a thread cache *)

(** [SLL_SetNext(ptr, nullptr); Static::central_cache()[cl].InsertRange(ptr, ptr, 1)] *)
Lemma wp_block_insert strict heaps st A app ptr cl :
  cache_inv strict heaps app st -> shows app st A -> 1 <= cl < nclasses -> ptr ∈ app cl ->
  wp (modify_mem (SLL_SetNext (mem_of st) ptr 0) ;; on_central (InsertRange free_ central_cache_ sm cl ptr ptr 1)) (fun _ st' =>
    blocks_inv strict heaps st' (delete ptr A) /\ contents A {[ptr]} (mem_of st) (mem_of st')) st.
Proof.
  intros HC HA Hcl Hptr. apply wp_bind, wp_modify_mem. set (st1 := upd_heap _ st).
  assert (Hb : A !! ptr = Some (ByteSizeForClass sm cl)) by (apply HA; left; by exists cl).
  destruct (smo_size _ Hsm cl Hcl) as [Hsz _].
  assert (HC1 : cache_inv strict heaps app st1).
  { apply (blocks_write_app strict heaps st A app); [done..|]. intros x Hx. unfold SLL_SetNext. rewrite lookup_insert_ne; [done|].
    intros <-. apply (Hx _ _ Hb). lia. }
  destruct HC1 as ((Ls & Hrep & Hsh) & Hbu & Hpl).
  assert (Hp0 : ptr <> 0).
  { destruct (app_span strict _ _ _ _ _ st1 cl ptr Hrep ltac:(lia) Hptr) as (_ & _ & _ & _ & _ & _ & _ & _ & Hpos & _). lia. }
  eapply wp_mono; [apply (wp_steady plain_caches); [apply steady_on_central, steady_InsertRange|exact Hpl|]|].
  - apply (wp_cache_insert Hsm strict (list_to_set heaps) app Ls 0 0 st1 cl ptr ptr 1 [ptr] Hrep Hcl).
    + split; [done|]. split; [|done]. split; [|apply NoDup_singleton]. simpl. by rewrite SLL_Next_Set_eq.
    + by intros x ->%list_elem_of_singleton.
  - intros [] st' [(Hrep' & Hl' & Hk & _) Hpl']. replace (list_to_set [ptr] : gset Z) with ({[ptr]} : gset Z) in * by set_solver. split.
    + exists (set_app cl (app cl ∖ {[ptr]}) app). split; [split; [by exists Ls|split; [by eapply budget_same|done]]|].
      apply (client_shows (list_to_set heaps) {[ptr]} _ st1); [|by apply (shows_del strict (list_to_set heaps) app Ls 0 0)].
      eapply visible_sub; [exact Hk|]. intros c x Hc Hx. simpl in *. unfold set_app in Hx. case_decide; [subst c; set_solver|done].
    + intros a n x Ha Hax Hx. rewrite (client_contents _ _ _ _ _ A Hk HA a n x Ha Hax Hx). simpl. unfold SLL_SetNext.
      rewrite lookup_insert_ne; [done|]. intros <-.
      destruct (blocks_disjoint strict _ app Ls 0 0 st1 A a n ptr (ByteSizeForClass sm cl) Hrep HA Ha Hb); set_solver by lia.
Qed.

(** ** Samplers *)

Lemma wp_block_sampler strict heaps st A self (f : Sampler -> result (bool * Sampler)) Q :
  blocks_inv strict heaps st A -> self ∈ heaps -> (forall s, exists b s', f s = Ok (b, s') /\ Q b) ->
  wp (on_sampler self f) (fun b st' => blocks_inv strict heaps st' A /\ same_limits st st' /\ st'.(heap) = st.(heap) /\ Q b) st.
Proof.
  intros (app & ((Ls & Hrep & Hsh) & Hbu & Hpl) & HA) Hs%elem_heaps Hf. destruct (crep_cache _ _ _ _ _ _ _ self Hrep Hs) as [t Ht].
  unfold on_sampler. apply wp_bind, wp_deref_tc with t; [done|]. destruct (Hf t.(sampler_)) as (b & s' & Hfs & HQ).
  apply wp_bind. unfold wp at 1. rewrite Hfs. simpl. change (wp (store_tc self (set_sampler s') ;; mret b) (fun b st' =>
    blocks_inv strict heaps st' A /\ same_limits st st' /\ st'.(heap) = st.(heap) /\ Q b) st).
  apply wp_bind, wp_store_tc with t; [done|]. apply wp_ret. set (st' := upd_tcs _ st).
  assert (Hsame : forall {B} (g : ThreadCache -> B) q, g (set_sampler s' t) = g t -> g <$> st'.(tcs) !! q = g <$> st.(tcs) !! q).
  { intros B g q Hg. subst st'. simpl. destruct (decide (q = self)) as [->|Hne]; [by rewrite lookup_insert_eq, Ht; simpl; f_equal|by rewrite lookup_insert_ne]. }
  assert (Hl : same_limits st st') by (split; try done; intros q; by apply Hsame).
  destruct (crep_tuned strict (list_to_set heaps) app Ls 0 0 st st' Hrep) as [Hrep' _].
  { split; try done. intros q. by apply Hsame. }
  split_and!; try done. exists app. split; [|done]. split; [by exists Ls|]. split; [by eapply budget_same|done].
Qed.

(** ** Threads *)

Lemma wp_block_NewHeap strict heaps st A sample_parameter log2 log_2 seed :
  (forall s, exists v s', PickNextSamplingPoint sample_parameter log2 log_2 s = Ok (v, s')) ->
  blocks_inv strict heaps st A ->
  st.(overall_thread_cache_size_) - st.(unclaimed_cache_space_) + st.(min_per_thread_cache_size_) < 2 ^ 31 ->
  Z.of_nat (List.length heaps) + 1 < 2 ^ 31 ->
  wp (NewHeap sm sample_parameter log2 log_2 seed) (fun p st' => (p ∉ heaps) /\ 0 < p /\ blocks_inv strict (p :: heaps) st' A /\
    contents A ∅ (mem_of st) (mem_of st')) st.
Proof.
  intros Hpick (app & ((Ls & Hrep & Hsh) & Hbu & Hpl) & HA) Hroom Hcnt.
  eapply wp_mono; [apply (wp_steady plain_caches); [apply steady_NewHeap|exact Hpl|]|].
  - apply (wp_NewHeap Hsm sample_parameter log2 log_2 Hpick strict (list_to_set heaps) app Ls 0 heaps seed st Hrep eq_refl Hbu).
    + intros c Hc. by apply class_size_ok.
    + rewrite (bu_sum _ _ Hbu) in Hroom. lia.
    + rewrite (bu_count _ _ Hbu). lia.
  - intros p st' [(Hp & Hp0 & Hrep' & Hbu' & Hk) Hpl']. split_and!; try done; [by rewrite elem_of_list_to_set in Hp| |by eapply (client_contents ∅)].
    exists app. split; [|by eapply (client_shows ∅)]. split; [|done]. exists (add_ls p Ls).
    split; [by apply (crep_self _ _ _ _ p 0)|]. intros q c Hq Hc. unfold add_ls. case_decide; [by simpl|]. apply Hsh; set_solver.
Qed.

Lemma wp_block_DeleteCache strict l1 self l2 st A :
  blocks_inv strict (l1 ++ self :: l2) st A -> Z.of_nat (List.length (l1 ++ self :: l2)) < 2 ^ 31 ->
  wp (DeleteCache free_ central_cache_ sm self) (fun _ st' => blocks_inv strict (l1 ++ l2) st' A /\ contents A ∅ (mem_of st) (mem_of st')) st.
Proof.
  intros (app & ((Ls & Hrep & Hsh) & Hbu & Hpl) & HA) Hcnt.
  eapply wp_mono; [apply (wp_steady plain_caches); [apply steady_DeleteCache|exact Hpl|]|].
  - apply (wp_DeleteCache Hsm strict _ app Ls self l1 l2 st (crep_self _ _ _ _ _ _ _ Hrep) eq_refl Hbu). by rewrite (bu_count _ _ Hbu).
  - intros [] st' [(Ls' & Hrep' & Hsh' & Hbu' & Hk) Hpl']. split; [|by eapply client_contents].
    exists app. split; [|by eapply client_shows]. split; [|done]. exists Ls'.
    assert (Heq : list_to_set (l1 ++ self :: l2) ∖ {[self]} = (list_to_set (l1 ++ l2) : gset Z)).
    { pose proof (bu_nodup _ _ Hbu) as (_ & Hno & Hnd)%NoDup_app. apply NoDup_cons in Hnd as [Hn2 _].
      rewrite !list_to_set_app_L, list_to_set_cons. apply set_eq. intros x. rewrite elem_of_difference, !elem_of_union, !elem_of_list_to_set, !elem_of_singleton.
      split; [tauto|]. intros Hx. split; [tauto|]. intros ->. destruct Hx as [Hx|Hx]; [|done]. apply (Hno self Hx). set_solver. }
    rewrite <- Heq. split; [by eapply crep_self|]. intros q c Hq Hc. apply (short_shrunk _ _ _ Hsh' Hsh); [set_solver|done].
Qed.

(** ** The error number *)

Lemma blocks_errno strict heaps st A v :
  blocks_inv strict heaps st A -> blocks_inv strict heaps (upd_heap (upd_pageheap (upd_errno (fun _ => v) st.(heap).(pageheap)) st.(heap)) st) A.
Proof.
  intros HB. pose proof (blocks_Inv _ _ _ _ HB) as HI. set (h' := upd_errno _ _).
  assert (Hq : PageHeapInv.quiet (G := pinned (list_to_set heaps)) st.(heap).(pageheap) h') by (split; try done; apply env_step_refl, HI).
  apply (keeps_block strict heaps A st h' HB); [by apply (quiet_same (G := pinned (list_to_set heaps)) strict ∅ 0 st.(heap).(pageheap))| |].
  - by apply (blocks_plain _ _ _ _ HB).
  - by apply quiet_keeps.
Qed.
End Blocks.
