(* ===== verification/FrontInv.v ===== *)
(** What holds between calls of the allocation functions: the threads have caches of
    their own, and the blocks in the hands of the application are [A].  How a thread
    gets its cache and what its end does. *)
From Stdlib Require Import Floats.SpecFloat.
From S2P Require Import Prelude SizeMap Sampler MallocHook LinkedList Bytes Span PackedCache PageMap SysEnv PageHeap SpanStore.
From S2P Require Import PageHeapInv PageHeapOps PageHeapAlloc PageHeapGrow PageHeapNew.
From S2P Require Import CentralFreeList CentralInv CentralTables CentralOps CentralPopulate CentralRemove CentralRelease CentralInsert.
From S2P Require Import ThreadCache CachePtr FrontEnd Unsampled CacheInv CacheLimits CacheOps CacheAlloc CacheFree CacheThreads FrontBlocks.

Section FrontInv.
Context {W : Type} {E : Env W} {P : PageMap W} {G : EnvGhost W} {C : CacheEnv W}.
Context {ens : pm_t -> Z -> Prop} {free_ central_cache_ : Z} {sm : SizeMap}.
Context {EL : EnvLaws W} {CL : CacheEnvLaws W} {PL : PageMapLaws MetaDataAlloc P ens} {HLay : HeapLayout free_}.
Context (Hsm : size_map_ok sm) {CLay : CentralLayout (free_ := free_) (central_cache_ := central_cache_) (sm := sm)}.
(** Sampling is off, as it is by default. *)
Context (sample_parameter : Z) (log2 : spec_float -> spec_float) (log_2 : spec_float) (Hsample : sample_parameter <= 0).
Context (hash : Z -> Z).

Implicit Types (st : Front) (a c : Z) (A : gmap Z Z) (th : Thread) (e : Entry).

Abbreviation blocks_inv := (blocks_inv (ens := ens) (free_ := free_) (central_cache_ := central_cache_) (sm := sm)).

(** ** Threads *)

Definition place_of (a : Z) : Z := hash a mod kTableSize.

(** The thread [a] has the cache [c]. *)
Definition owns st a c : Prop := st.(tls_value) !! a = Some c \/
  exists e, e ∈ bucket st (place_of a) /\ e.(thread_id) = a /\ e.(e_cache) = c.

Record threads_ok (heaps : list Z) st : Prop := {
  to_key : st.(key_ready) = true;
  to_fast : st.(fast_path_cache) = st.(tls_value);
  to_cache a c : owns st a c -> c ∈ heaps;
  to_inj a b c : owns st a c -> owns st b c -> a = b;
  to_one a c e : st.(tls_value) !! a = Some c -> e ∈ bucket st (place_of a) -> e.(thread_id) <> a;
  to_ids k : NoDup (thread_id <$> bucket st k);
  to_plain k e : e ∈ bucket st k -> e.(emergency_malloc) = false /\ e.(was_allocated) = true
}.

(** Everything but the caches and the threads. *)
Definition settings st := (st.(tc_new_mode), st.(new_hooks_), st.(delete_hooks_), st.(stack_traces), st.(tc_pagesize), st.(trace)).

Definition front_rep strict heaps A st : Prop := blocks_inv strict heaps st.(thread_caches) A /\ threads_ok heaps st.
Definition front_inv strict A st : Prop := exists heaps, front_rep strict heaps A st.

(** One more cache leaves the counters in their ranges. *)
Definition room st : Prop :=
  st.(thread_caches).(overall_thread_cache_size_) - st.(thread_caches).(unclaimed_cache_space_) +
    st.(thread_caches).(min_per_thread_cache_size_) < 2 ^ 31 /\
  st.(thread_caches).(thread_heap_count_) + 1 < 2 ^ 31.

(** The thread has a cache or can get one. *)
Definition ready th st : Prop := (exists c, owns st th.(tls_data) c) \/ room st.

Lemma wp_on_caches {B} (m : M Caches B) Q st :
  wp m (fun b cs => Q b (upd_caches (fun _ => cs) st)) st.(thread_caches) -> wp (on_caches m) Q st.
Proof. unfold wp, on_caches. simpl. by destruct (m st.(thread_caches)) as [[b cs]| | |]. Qed.

Lemma threads_same heaps st st' :
  st'.(key_ready) = st.(key_ready) -> st'.(fast_path_cache) = st.(fast_path_cache) -> st'.(tls_value) = st.(tls_value) ->
  st'.(hash_table_) = st.(hash_table_) -> threads_ok heaps st -> threads_ok heaps st'.
Proof.
  intros H1 H2 H3 H4 []. assert (Ho : forall a c, owns st' a c -> owns st a c) by (intros a c; unfold owns, bucket; by rewrite H3, H4).
  assert (Hb : forall k, bucket st' k = bucket st k) by (intros k; unfold bucket; by rewrite H4).
  split; rewrite ?H1, ?H2, ?H3; eauto; setoid_rewrite Hb; eauto.
Qed.

Lemma owns_nonzero strict heaps A st a c : front_rep strict heaps A st -> owns st a c -> c <> 0.
Proof.
  intros [(app & (_ & Hbu & _) & _) Hth] Ho. by destruct (tchain_elem _ _ _ _ c (bu_chain _ _ Hbu) (to_cache _ _ Hth a c Ho)).
Qed.

Lemma rep_count strict heaps A st : front_rep strict heaps A st -> st.(thread_caches).(thread_heap_count_) = Z.of_nat (List.length heaps).
Proof. intros [(app & (_ & Hbu & _) & _) _]. apply (bu_count _ _ Hbu). Qed.

(** [GetIfPresent] *)
Lemma present_owns strict heaps A st th :
  front_rep strict heaps A st -> GetIfPresent th st <> 0 -> st.(tls_value) !! th.(tls_data) = Some (GetIfPresent th st) /\ GetIfPresent th st ∈ heaps.
Proof.
  intros [_ Hth] Hp. unfold GetIfPresent in *. rewrite (to_fast _ _ Hth) in *.
  destruct (st.(tls_value) !! th.(tls_data)) as [c|] eqn:Hc; [|done]. split; [done|]. apply (to_cache _ _ Hth th.(tls_data)). by left.
Qed.

Lemma absent_owns strict heaps A st th :
  front_rep strict heaps A st -> GetIfPresent th st = 0 -> st.(tls_value) !! th.(tls_data) = None.
Proof.
  intros Hrep Hp. pose proof Hrep as [_ Hth]. unfold GetIfPresent in *. rewrite (to_fast _ _ Hth) in *.
  destruct (st.(tls_value) !! th.(tls_data)) as [c|] eqn:Hc; [|done]. simpl in Hp. subst c.
  destruct (owns_nonzero _ _ _ _ th.(tls_data) 0 Hrep); [by left|done].
Qed.

(** ** The hash table *)

Lemma lookup_entry_Some id l e : lookup_entry id l = Some e -> e ∈ l /\ e.(thread_id) = id.
Proof.
  induction l as [|e' l IH]; simpl; [done|]. destruct (Z.eqb_spec e'.(thread_id) id); [intros [= ->]; split; [by left|done]|].
  intros H%IH. split; [right|]; tauto.
Qed.

Lemma lookup_entry_None id l : lookup_entry id l = None -> forall e, e ∈ l -> e.(thread_id) <> id.
Proof.
  induction l as [|e' l IH]; simpl; [by intros _ e ?%not_elem_of_nil|]. destruct (Z.eqb_spec e'.(thread_id) id); [done|].
  intros H e [->|He]%elem_of_cons; [done|by apply IH].
Qed.

Lemma bucket_insert st k l j : bucket (upd_hash_table (<[k := l]>) st) j = if decide (j = k) then l else bucket st j.
Proof.
  unfold bucket. simpl. case_decide as Hj; [subst; by rewrite lookup_insert_eq|by rewrite lookup_insert_ne].
Qed.

(** Entries go away. *)
Lemma threads_shrink heaps st st' :
  threads_ok heaps st -> st'.(key_ready) = st.(key_ready) -> st'.(fast_path_cache) = st.(fast_path_cache) -> st'.(tls_value) = st.(tls_value) ->
  (forall k, bucket st' k `sublist_of` bucket st k) -> threads_ok heaps st'.
Proof.
  intros [] H1 H2 H3 Hsub.
  assert (Hin : forall k e, e ∈ bucket st' k -> e ∈ bucket st k) by (intros k e He; by eapply elem_of_sublist).
  assert (Ho : forall a c, owns st' a c -> owns st a c).
  { intros a c [Ha|(e & He & ?)]; [left; by rewrite <- H3|right; eauto]. }
  split; rewrite ?H1, ?H2, ?H3; eauto. intros k. eapply sublist_NoDup; [eauto|by apply fmap_sublist].
Qed.

(** The thread [a] takes the cache [c]. *)
Lemma threads_take heaps st st' a c :
  threads_ok heaps st -> c ∈ heaps -> (forall b, owns st b c -> b = a) -> (forall e, e ∈ bucket st (place_of a) -> e.(thread_id) <> a) ->
  st'.(key_ready) = st.(key_ready) -> st'.(fast_path_cache) = <[a := c]> st.(fast_path_cache) -> st'.(tls_value) = <[a := c]> st.(tls_value) ->
  (forall k, bucket st' k `sublist_of` bucket st k) -> threads_ok heaps st'.
Proof.
  intros [] Hc Hfree Hno H1 H2 H3 Hsub.
  assert (Hin : forall k e, e ∈ bucket st' k -> e ∈ bucket st k) by (intros k e He; by eapply elem_of_sublist).
  assert (Ho : forall b d, owns st' b d -> b = a /\ d = c \/ b <> a /\ owns st b d).
  { intros b d [Hb|(e & He & Hid & Hcc)].
    - rewrite H3 in Hb. apply lookup_insert_Some in Hb as [[-> ->]|[? ?]]; [by left|right; split; [done|by left]].
    - right. split; [intros ->; by apply (Hno e (Hin _ _ He))|]. right. eauto. }
  split; rewrite ?H1, ?H2; try done.
  - congruence.
  - intros b d [[_ ->]|[_ ?]]%Ho; eauto.
  - intros x y d [[-> ->]|[Hx Hx']]%Ho [[-> Hd]|[Hy Hy']]%Ho; try done; [|..]; subst; eauto; by (symmetry; apply Hfree) || by apply Hfree.
  - intros b d e. rewrite H3, lookup_insert_Some. intros [[-> _]|[_ Hb]] He; eauto.
  - intros k. eapply sublist_NoDup; [eauto|by apply fmap_sublist].
  - eauto.
Qed.

(** ** The cache of a thread *)

Lemma pick_off s : exists v s', PickNextSamplingPoint sample_parameter log2 log_2 s = Ok (v, s').
Proof. unfold PickNextSamplingPoint. destruct (Z.leb_spec sample_parameter 0); [by eexists _, _|lia]. Qed.

(** What a call that hands out no block leaves: the blocks with their contents. *)
Definition undisturbed A st st' : Prop :=
  contents A ∅ (memory_of st) (memory_of st') /\ settings st' = settings st /\ same_pages (heap_of st) st'.(thread_caches).

Lemma undisturbed_refl A st : undisturbed A st st.
Proof. by split. Qed.

(** [th] has the cache [c] in its thread-local variables. *)
Definition has_cache th st c : Prop := GetIfPresent th st = c /\ c <> 0.

Lemma wp_set_thread_cache strict heaps A th c st :
  front_rep strict heaps A st -> c ∈ heaps -> c <> 0 -> (forall b, owns st b c -> b = th.(tls_data)) ->
  (forall e, e ∈ bucket st (place_of th.(tls_data)) -> e.(thread_id) <> th.(tls_data)) ->
  wp (set_thread_cache hash th c) (fun r st' => r = (c, false) /\ front_rep strict heaps A st' /\ has_cache th st' c /\
    st'.(thread_caches) = st.(thread_caches) /\ settings st' = settings st) st.
Proof.
  intros [HB Hth] Hc Hc0 Hfree Hno. unfold set_thread_cache, RegisterEntry, UnregisterEntry.
  do 4 apply wp_bind, wp_modify. apply wp_ret. set (st' := upd_tls _ _ _). split; [done|]. split; [|split; [split; [|done]|done]].
  - split; [done|]. eapply (threads_take heaps st st' th.(tls_data) c); try done.
    intros k. unfold st', bucket. simpl. change (ht_place hash th) with (place_of th.(tls_data)). rewrite lookup_insert_eq. simpl.
    destruct (decide (k = place_of th.(tls_data))) as [->|Hk]; [|by rewrite !lookup_insert_ne by done].
    rewrite lookup_insert_eq. simpl. rewrite filter_cons, decide_False by (simpl; tauto). apply sublist_filter.
  - unfold GetIfPresent, st'. simpl. by rewrite lookup_insert_eq.
Qed.

(** The thread takes the cache of its allocated entry. *)
Lemma threads_release heaps st e a :
  threads_ok heaps st -> e ∈ bucket st (place_of a) -> e.(thread_id) = a ->
  let l := filter (fun e' => e'.(e_addr) <> e.(e_addr)) (bucket st (place_of a)) in
  let st' := upd_hash_table (<[place_of a := l]>) st in
  threads_ok heaps st' /\ (forall e', e' ∈ bucket st' (place_of a) -> e'.(thread_id) <> a) /\
  (forall b c, owns st' b c -> owns st b c).
Proof.
  intros Hth He Hid l st'. assert (Hsub : forall k, bucket st' k `sublist_of` bucket st k).
  { intros k. unfold st'. rewrite bucket_insert. case_decide as Hk; [subst k; apply sublist_filter|done]. }
  split; [by eapply threads_shrink|]. split.
  - intros e' He' Hid'. unfold st' in He'. rewrite bucket_insert, decide_True in He' by done.
    apply list_elem_of_filter in He' as [Hne He']. apply Hne. f_equal.
    pose proof (to_ids _ _ Hth (place_of a)) as Hnd. apply list_elem_of_lookup in He as [i Hi], He' as [j Hj].
    assert (i = j) as ->; [|congruence]. apply (NoDup_lookup _ _ _ a Hnd); rewrite list_lookup_fmap, ?Hi, ?Hj; simpl; congruence.
  - intros b c [Hb|(e' & He' & ?)]; [by left|right]. exists e'. split; [by eapply elem_of_sublist|done].
Qed.

Lemma wp_new_cache strict heaps A th st :
  front_rep strict heaps A st -> room st ->
  wp (new_cache sm sample_parameter log2 log_2 th) (fun c st' => (c ∉ heaps) /\ c <> 0 /\ front_rep strict (c :: heaps) A st' /\
    undisturbed A st st' /\ st'.(tls_value) = st.(tls_value) /\ st'.(hash_table_) = st.(hash_table_)) st.
Proof.
  intros Hrep [Hroom Hcnt]. rewrite (rep_count _ _ _ _ Hrep) in Hcnt. destruct Hrep as [HB Hth]. apply wp_on_caches.
  eapply wp_mono; [apply (wp_steady (same_pages (heap_of st))); [apply pages_NewHeap|done|]|].
  { apply (wp_block_NewHeap Hsm strict heaps _ A); [apply pick_off|done|done|lia]. }
  intros c cs [(Hc & Hc0 & HB' & Hct) Hsp]. split_and!; try done; [lia|].
  split; [done|]. apply (threads_same _ st); try done. destruct Hth. split; try done. intros a d Ho. right. eauto.
Qed.

Lemma wp_GetSlow strict heaps A th st :
  front_rep strict heaps A st -> GetIfPresent th st = 0 -> ready th st ->
  wp (GetSlow sm sample_parameter log2 log_2 hash th) (fun r st' => r.2 = false /\ has_cache th st' r.1 /\ undisturbed A st st' /\
    exists heaps', front_rep strict heaps' A st') st.
Proof.
  intros Hrep Hab Hready. pose proof (absent_owns _ _ _ _ _ Hrep Hab) as Hnone. pose proof Hrep as [HB Hth].
  unfold GetSlow. apply wp_bind, wp_get. unfold Lookup. change (ht_place hash th) with (place_of th.(tls_data)).
  destruct (lookup_entry _ _) as [e|] eqn:Hl.
  - apply lookup_entry_Some in Hl as [He Hid]. destruct (to_plain _ _ Hth _ _ He) as [Hem Hwas]. rewrite Hem.
    assert (Ho : owns st th.(tls_data) e.(e_cache)) by (right; eauto). pose proof (owns_nonzero _ _ _ _ _ _ Hrep Ho) as Hc0.
    apply wp_bind. unfold TryToReleaseCacheFromAllocation. apply wp_bind, wp_get. rewrite Hwas, (to_key _ _ Hth). cbv beta iota delta [andb].
    apply wp_bind, wp_modify, wp_ret. destruct (Z.eqb_spec e.(e_cache) 0); [done|].
    destruct (threads_release heaps st e th.(tls_data) Hth He Hid) as (Hth1 & Hno & Hback). set (st1 := upd_hash_table _ st) in *.
    eapply wp_mono; [apply (wp_set_thread_cache strict heaps A th e.(e_cache) st1); try done|].
    + by apply (to_cache _ _ Hth th.(tls_data)).
    + intros b Hb%Hback. by apply (to_inj _ _ Hth b _ e.(e_cache)).
    + intros r st' (-> & Hrep' & Hhas & Hcs & Hset). split_and!; try done; [|by exists heaps].
      split_and!; [|done|]; unfold memory_of; by rewrite Hcs.
  - pose proof (lookup_entry_None _ _ Hl) as Hno. rewrite (to_key _ _ Hth). cbv beta iota delta [negb].
    destruct Hready as [(c & [Hc|(e & He & Hid & _)])|Hroom]; [congruence|by destruct (Hno e He)|].
    apply wp_bind. eapply wp_mono; [by apply (wp_new_cache strict heaps A th st)|].
    intros c st1 (Hc & Hc0 & Hrep1 & Hun & Htls & Hht).
    assert (Howns : forall b d, owns st1 b d -> owns st b d) by (intros b d; unfold owns, bucket; by rewrite Htls, Hht).
    eapply wp_mono; [apply (wp_set_thread_cache strict (c :: heaps) A th c st1); try done|].
    + by left.
    + intros b Hb%Howns. by apply (to_cache _ _ Hth) in Hb.
    + intros e. unfold bucket. rewrite Hht. apply Hno.
    + intros r st' (-> & Hrep' & Hhas & Hcs & Hset). split_and!; try done; [|by exists (c :: heaps)].
      destruct Hun as (H1 & H2 & H3). split_and!; [|congruence|]; unfold memory_of; by rewrite Hcs.
Qed.

Lemma wp_Grab strict heaps A th st :
  front_rep strict heaps A st -> ready th st ->
  wp (Grab sm sample_parameter log2 log_2 hash th) (fun r st' => r.2 = false /\ has_cache th st' r.1 /\ undisturbed A st st' /\
    exists heaps', front_rep strict heaps' A st') st.
Proof.
  intros Hrep Hready. unfold Grab. apply wp_bind, wp_get. destruct (Z.eqb_spec (GetIfPresent th st) 0) as [Hab|Hp].
  - by apply (wp_GetSlow strict heaps).
  - apply wp_ret. split; [done|]. split; [by split|]. split; [apply undisturbed_refl|by exists heaps].
Qed.

(** ** The end of a thread *)

Lemma wp_thread_exit strict heaps A th st :
  front_rep strict heaps A st -> st.(thread_caches).(thread_heap_count_) < 2 ^ 31 ->
  wp (thread_exit free_ central_cache_ sm th) (fun _ st' => contents A ∅ (memory_of st) (memory_of st') /\ settings st' = settings st /\
    st'.(tls_value) = delete th.(tls_data) st.(tls_value) /\ exists heaps', front_rep strict heaps' A st') st.
Proof.
  intros Hrep Hcnt. rewrite (rep_count _ _ _ _ Hrep) in Hcnt. pose proof Hrep as [HB Hth]. unfold thread_exit. apply wp_bind, wp_get.
  apply wp_bind, wp_modify. destruct (st.(tls_value) !! th.(tls_data)) as [c|] eqn:Hc; cbn [default from_option]; cbv [id].
  - assert (Ho : owns st th.(tls_data) c) by (by left). pose proof (owns_nonzero _ _ _ _ _ _ Hrep Ho) as Hc0.
    destruct (Z.eqb_spec c 0); [done|]. cbn [negb]. apply wp_bind, wp_modify, wp_on_caches.
    pose proof (to_cache _ _ Hth _ _ Ho) as Hin. apply list_elem_of_split in Hin as (l1 & l2 & ->).
    eapply wp_mono; [by apply (wp_block_DeleteCache Hsm strict l1 c l2 _ A)|].
    intros [] cs [HB' Hct]. split; [done|]. split; [done|]. split; [done|]. exists (l1 ++ l2). split; [done|]. destruct Hth. set (st' := upd_caches _ _).
    assert (Hback : forall a d, owns st' a d -> a <> th.(tls_data) /\ owns st a d).
    { intros a d [Ha|(e & He & Hid & Hd)].
      - simpl in Ha. apply lookup_delete_Some in Ha as [Hne Ha]. split; [done|by left].
      - change (bucket st' (place_of a)) with (bucket st (place_of a)) in He. split; [intros ->; by eapply to_one0|right; eauto]. }
    split; try done.
    + simpl. by rewrite to_fast0.
    + intros a d [Hne Ha]%Hback. pose proof (to_cache0 a d Ha) as Hd. assert (d <> c) by (intros ->; by apply Hne, (to_inj0 a _ c)).
      set_solver.
    + intros a b d [_ Ha]%Hback [_ Hb]%Hback. eauto.
    + intros a d e Ha. simpl in Ha. apply lookup_delete_Some in Ha as [_ Ha]. by apply (to_one0 a d).
  - cbn. apply wp_ret. split; [done|]. split; [done|]. split; [done|]. exists heaps. split; [done|]. apply (threads_same heaps st); try done.
    simpl. by apply delete_id.
Qed.

(** ** Sampling is off *)

Lemma wp_front_sampler strict heaps A c (f : Sampler -> result (bool * Sampler)) st (Q : bool -> Prop) :
  front_rep strict heaps A st -> c ∈ heaps -> (forall s, exists b s', f s = Ok (b, s') /\ Q b) ->
  wp (on_caches (on_sampler c f)) (fun b st' => Q b /\ front_rep strict heaps A st' /\ undisturbed A st st' /\
    st'.(fast_path_cache) = st.(fast_path_cache)) st.
Proof.
  intros [HB Hth] Hc Hf. apply wp_on_caches. eapply wp_mono; [by apply (wp_block_sampler strict heaps _ A c f Q HB Hc)|].
  intros b cs (HB' & Hl & Hh & HQ). split; [done|]. split; [split; [done|by apply (threads_same heaps st)]|].
  split; [|done]. unfold undisturbed, same_pages, memory_of, heap_of. cbn [upd_caches thread_caches]. by rewrite Hh.
Qed.

Lemma wp_sample_allocation strict heaps A c k st :
  front_rep strict heaps A st -> c ∈ heaps ->
  wp (sample_allocation sample_parameter log2 log_2 c k) (fun b st' => b = false /\ front_rep strict heaps A st' /\ undisturbed A st st' /\
    st'.(fast_path_cache) = st.(fast_path_cache)) st.
Proof.
  intros Hrep Hc. unfold sample_allocation, SampleAllocation.
  pose proof (wp_front_sampler strict heaps A c (RecordAllocation sample_parameter log2 log_2 c k) st (fun b => b = true) Hrep Hc) as H.
  assert (Hpos : (sample_parameter <=? 0) = true) by lia.
  assert (Hp : forall s, exists b s', RecordAllocation sample_parameter log2 log_2 c k s = Ok (b, s') /\ b = true).
  { intros s. unfold RecordAllocation, RecordAllocationSlow, Sampler_Init, PickNextSamplingPoint. rewrite Hpos.
    destruct (_ <? _); [|by eexists _, _]. destruct (initialized_ s); simpl; [by eexists _, _|]. destruct (_ >=? _); by eexists _, _. }
  specialize (H Hp). unfold on_caches, wp in *. simpl in *. unfold SampleAllocation, mbind, M_bind in *. simpl in *.
  destruct (on_sampler c _ _) as [[b cs]| | |]; try done. destruct H as (-> & H). done.
Qed.
End FrontInv.
