(* ===== verification/FrontInit.v ===== *)
(** The start of the process: [ThreadCache::InitModule] of [src/thread_cache.cc] and
    [ThreadCachePtr::InitThreadCachePtrLate] of [src/thread_cache_ptr.cc], and that the
    invariant of the allocation functions holds from there on. *)
From Stdlib Require Import Floats.SpecFloat.
From S2P Require Import Prelude SizeMap Sampler MallocHook LinkedList Bytes Span PackedCache PageMap SysEnv PageHeap SpanStore.
From S2P Require Import PageHeapInv CentralFreeList CentralInv CentralTables StaticVars.
From S2P Require Import ThreadCache CachePtr FrontEnd Unsampled CacheInv CacheLimits CacheThreads FrontBlocks FrontInv.

Section FrontInit.
Context {W : Type} {E : Env W} {P : PageMap W} {C : CacheEnv W}.
Context (free_ central_cache_ sampled_objects_ : Z) (sm : SizeMap).

(** The static variables before anything runs. *)
Definition Front_zero (h : Heap) : Front :=
  mkFront (Caches_new h) false ∅ ∅ ∅ 0 HookList_new HookList_new ∅ 0 0 [].

(** [tcb] is the value of [TCMALLOC_MAX_TOTAL_THREAD_CACHE_BYTES]; the settings of the page
    heap come from the environment too.  The metadata allocators of [w] are initialised,
    and [m] is what memory held. *)
Definition InitModule (tcb : option Z) (limit_mb : Z) (rate : spec_float) (aggressive : bool) (m : mem) (w : W) : result Front :=
  let st := Front_zero (mkHeap (PageHeap_storage w) m ∅ 0) in
  '(_, st) ← match tcb with
             | Some n => on_caches (set_overall_thread_cache_size n) st
             | None => Ok (tt, st)
             end;
  h ← InitStaticVars free_ central_cache_ sampled_objects_ sm limit_mb rate aggressive m w;
  Ok (upd_caches (upd_heap h) st).

(** The constructor of the module: the thread-local storage key is created last. *)
Definition start_process (tcb : option Z) (limit_mb : Z) (rate : spec_float) (aggressive : bool) (m : mem) (w : W) : result Front :=
  st ← InitModule tcb limit_mb rate aggressive m w;
  '(_, st) ← InitThreadCachePtrLate st;
  Ok st.
End FrontInit.

Section FrontInitOk.
Context {W : Type} {E : Env W} {P : PageMap W} {G : EnvGhost W} {C : CacheEnv W}.
Context {ens : pm_t -> Z -> Prop} {free_ central_cache_ : Z} {sm : SizeMap}.
Context {EL : EnvLaws W} {CL : CacheEnvLaws W} {PL : PageMapLaws MetaDataAlloc P ens} {HLay : HeapLayout free_}.
Context (Hsm : size_map_ok sm) {CLay : CentralLayout (free_ := free_) (central_cache_ := central_cache_) (sm := sm)}.
Context (hash : Z -> Z).

Abbreviation front_inv := (front_inv (ens := ens) (free_ := free_) (central_cache_ := central_cache_) (sm := sm) hash).

(** No caches, and limits in their ranges. *)
Definition no_caches (cs : Caches) : Prop :=
  cs.(tcs) = ∅ /\ cs.(thread_heaps_) = 0 /\ cs.(thread_heap_count_) = 0 /\ cs.(next_memory_steal_) = 0 /\
  cs.(min_per_thread_cache_size_) = kMinThreadCacheSize /\ 0 < cs.(overall_thread_cache_size_) <= 2 ^ 30 /\
  cs.(unclaimed_cache_space_) = cs.(overall_thread_cache_size_).

Lemma set_overall_run n h : exists cs, set_overall_thread_cache_size n (Caches_new h) = Ok (tt, cs) /\ no_caches cs.
Proof.
  assert (Hk : kMinThreadCacheSize = 524288) by done.
  unfold set_overall_thread_cache_size. erewrite bind_run by reflexivity. cbv zeta. erewrite bind_run by reflexivity.
  unfold RecomputePerThreadCacheSize. erewrite bind_run by reflexivity. cbv zeta. cbn [tcs set_overall Caches_new thread_heaps_].
  rewrite map_size_empty. cbn [recompute_loop]. erewrite bind_run by reflexivity. erewrite bind_run by reflexivity.
  eexists. split; [reflexivity|]. unfold no_caches. cbn. change (Z.shiftl 1 30) with (2 ^ 30).
  split_and!; try done; rewrite ?Z.gtb_ltb; repeat case_if; propify; rewrite ?i64_small; lia.
Qed.

(** The caches before the first thread has one. *)
Lemma blocks_start strict cs :
  no_caches cs -> heap_rep (ens := ens) (free_ := free_) (central_cache_ := central_cache_) (sm := sm) strict (fun _ => no_ghost) cs.(heap) ->
  caches cs.(heap).(pageheap).(world) = ∅ -> cs.(heap).(pageheap).(spans) = ∅ ->
  blocks_inv (ens := ens) (free_ := free_) (central_cache_ := central_cache_) (sm := sm) strict [] cs ∅.
Proof.
  intros (H1 & H2 & H3 & H4 & H5 & H6 & H7) Hrep Hc Hsp. exists (fun _ => ∅).
  assert (Hk : kMinThreadCacheSize = 524288) by done. assert (Hk2 : kStealAmount = 65536) by done.
  split; [split; [|split]|].
  - exists (fun _ _ => []). split; [|by intros p c Hp%elem_of_empty].
    split; rewrite ?H1; try (by intros; simplify_map_eq); try (by intros p q Hp%elem_of_empty); try set_solver.
    exists (fun _ => no_ghost). split; [by apply central_pin|]. intros cl x _. cbn [g_out no_ghost]. set_solver.
  - split; rewrite ?H1, ?H2, ?H3, ?H4, ?H5, ?H7; try done; try lia; try apply NoDup_nil_2; try (by left).
    unfold claimed. rewrite msum_empty. lia.
  - intros p s Hp. by rewrite Hsp in Hp.
  - intros a n. split; [by rewrite lookup_empty|]. intros [(cl & _ & Hx & _)|(p & s & Hp & _)]; [set_solver|by rewrite Hsp in Hp].
Qed.

Lemma start_ok sampled k tcb limit_mb rate aggressive m w :
  env_ok w -> caches w = ∅ -> 0 <= k < 51 -> min_span_size_in_pages_ sm = 2 ^ k -> static_addr sampled -> ~ is_header free_ sampled ->
  exists st, start_process free_ central_cache_ sampled sm tcb limit_mb rate aggressive m w = Ok st /\
    front_inv (negb aggressive) ∅ st /\ room st /\ st.(tc_new_mode) = 0 /\ st.(new_hooks_) = HookList_new /\ st.(delete_hooks_) = HookList_new.
Proof.
  intros Hw Hc Hk Hmin Hst Hnh.
  destruct (InitStaticVars_ok (central_cache_ := central_cache_) Hsm sampled k limit_mb rate aggressive m w Hw Hk Hmin Hst Hnh) as (h & Hrun & Hrep & _).
  assert (Hh : h.(pageheap).(world) = w /\ h.(pageheap).(spans) = ∅) by exact (InitStaticVars_new sampled limit_mb rate aggressive m w h Hrun).
  assert (Hcs : exists cs, match tcb with
      | Some n => on_caches (set_overall_thread_cache_size n) (Front_zero (mkHeap (PageHeap_storage w) m ∅ 0))
      | None => Ok (tt, Front_zero (mkHeap (PageHeap_storage w) m ∅ 0))
      end = Ok (tt, upd_caches (fun _ => cs) (Front_zero (mkHeap (PageHeap_storage w) m ∅ 0))) /\ no_caches cs).
  { destruct tcb as [n|]; [|eexists; split; [reflexivity|by split_and!]].
    destruct (set_overall_run n (mkHeap (PageHeap_storage w) m ∅ 0)) as (cs & Hcs & Hno). exists cs. split; [|done].
    unfold on_caches. cbn [thread_caches Front_zero]. by rewrite Hcs. }
  destruct Hcs as (cs & Hcs & Hno). unfold start_process, InitModule. cbv zeta. rewrite Hcs. cbn [mbind result_bind]. rewrite Hrun. cbn [mbind result_bind].
  eexists. split; [reflexivity|]. assert (Hno' : no_caches (upd_heap h cs)) by exact Hno. split; [|split; [|done]].
  - exists []. split; [apply blocks_start; simpl; try tauto; by rewrite (proj1 Hh)|].
    split; try done; simpl.
    + intros a c [Ha|(e & He & _)]; simpl in *; [by rewrite lookup_empty in Ha|by apply not_elem_of_nil in He].
    + intros a b c [Ha|(e & He & _)]; simpl in *; [by rewrite lookup_empty in Ha|by apply not_elem_of_nil in He].
    + intros j. apply NoDup_nil_2.
    + intros j e He. by apply not_elem_of_nil in He.
  - destruct Hno as (_ & _ & H3 & _ & H5 & H6 & H7). unfold room. cbn. rewrite H3, H5, H7. assert (kMinThreadCacheSize = 524288) by done. lia.
Qed.
End FrontInitOk.
