(* ===== verification/FrontOps.v ===== *)
(** What the allocation functions of [tcmalloc.cc] do to the blocks of the application. *)
From Stdlib Require Import Floats.SpecFloat.
From S2P Require Import Prelude SizeMap Sampler MallocHook LinkedList Bytes Span PackedCache PageMap SysEnv PageHeap SpanStore.
From S2P Require Import PageHeapInv PageHeapOps PageHeapAlloc PageHeapGrow PageHeapNew.
From S2P Require Import CentralFreeList CentralInv CentralTables CentralOps CentralPopulate CentralRemove CentralRelease CentralInsert.
From S2P Require Import ThreadCache CachePtr FrontEnd Unsampled CacheInv CacheLimits CacheOps CacheAlloc CacheFree CacheThreads FrontBlocks FrontInv.

(** ** Sizes *)

Section Sizes.
Context {W : Type} {P : PageMap W} (sm : SizeMap) (Hlo : lookup_ok sm).

Lemma align_size_up_one size : 0 <= size < 2 ^ 64 -> align_size_up size 1 = Z.max 1 size.
Proof.
  intros Hs. unfold align_size_up. change (u64 (Z.lnot (1 - 1))) with (Z.ones 64). rewrite Z.land_ones, u64_small by lia.
  rewrite Z.mod_small by lia. destruct (Z.eqb_spec (size + 1 - 1) 0), (Z.eqb_spec size 0); lia.
Qed.

Lemma nallocx_small (h : PageHeap) size cl : 0 <= size -> GetSizeClass sm size = Some cl -> tc_nallocx sm h size 0 = ByteSizeForClass sm cl.
Proof.
  intros Hs Hc. destruct (lo_some _ Hlo size cl Hs Hc) as (Hcl & _). unfold tc_nallocx. simpl. rewrite Hc.
  by destruct (Z.eqb_spec cl 0); [lia|].
Qed.

Lemma nallocx_large (h : PageHeap) size : 0 <= size < 2 ^ 64 -> GetSizeClass sm size = None ->
  tc_nallocx sm h size 0 = u64 (RoundUpSize h (pages size) * 8192).
Proof.
  intros Hs Hc. assert (Hx : kMaxSize = 262144) by done. pose proof (lo_none _ Hlo size ltac:(lia) Hc) as Hbig.
  unfold tc_nallocx. simpl. rewrite Hc. unfold nallocx_slow, size_class_with_alignment. simpl.
  rewrite align_size_up_one, Z.max_r, Hc, Z.shiftl_mul_pow2 by (done || lia). done.
Qed.
End Sizes.

Section FrontOps.
Context {W : Type} {E : Env W} {P : PageMap W} {G : EnvGhost W} {C : CacheEnv W}.
Context {ens : pm_t -> Z -> Prop} {free_ central_cache_ : Z} {sm : SizeMap}.
Context {EL : EnvLaws W} {CL : CacheEnvLaws W} {PL : PageMapLaws MetaDataAlloc P ens} {HLay : HeapLayout free_}.
Context (Hsm : size_map_ok sm) (Hlo : lookup_ok sm).
Context {CLay : CentralLayout (free_ := free_) (central_cache_ := central_cache_) (sm := sm)}.
Context (sampled_objects_ : Z) (sample_parameter : Z) (log2 : spec_float -> spec_float) (log_2 : spec_float) (Hsample : sample_parameter <= 0).
Context (hash : Z -> Z) (GrabBacktrace : Thread -> list Z) (get_new_handler : Front -> option (M Front handler_end)) (fuel : nat).

Implicit Types (st : Front) (a c : Z) (A : gmap Z Z) (th : Thread).

#[local] Existing Instance pinned_EL.
#[local] Existing Instance pinned_HLay.
#[local] Existing Instance pinned_CLay.
Abbreviation blocks_inv := (blocks_inv (ens := ens) (free_ := free_) (central_cache_ := central_cache_) (sm := sm)).
Abbreviation front_rep := (front_rep (ens := ens) (free_ := free_) (central_cache_ := central_cache_) (sm := sm) hash).
Abbreviation front_inv := (front_inv (ens := ens) (free_ := free_) (central_cache_ := central_cache_) (sm := sm) hash).
Abbreviation Grab := (Grab sm sample_parameter log2 log_2 hash).
Abbreviation do_malloc := (do_malloc free_ central_cache_ sampled_objects_ sm sample_parameter log2 log_2 hash GrabBacktrace).

(** The pages a request may need. *)
Definition request_pages st size : Z :=
  match GetSizeClass sm size with
  | Some cl => class_to_pages sm cl
  | None => RoundUpSize (heap_of st) (pages size)
  end.

(** Without a heap limit, only the lack of a free span long enough is a reason to refuse
    a request. *)
Definition unavailable st size : Prop :=
  limit_pages (heap_of st) = 0 -> none_free (request_pages st size) page_limit (heap_of st).

(** The block [p] of [n] bytes is new. *)
Definition new_block strict A p n st' : Prop := A !! p = None /\ front_inv strict (<[p := n]> A) st'.

Definition malloc_post strict A th size p st st' : Prop :=
  contents A ∅ (memory_of st) (memory_of st') /\ settings st' = settings st /\ (exists c, has_cache th st' c) /\
  if decide (p = 0) then front_inv strict A st' /\ unavailable st size
  else let n := tc_nallocx sm (heap_of st) size 0 in size <= n /\ new_block strict A p n st'.

Lemma unavailable_pages st st' size : same_pages (heap_of st) st'.(thread_caches) -> unavailable st' size -> unavailable st size.
Proof.
  intros (H1 & H2 & H3 & H4) Hu Hlim. unfold unavailable, request_pages, none_free, limit_pages, RoundUpSize, heap_of in *.
  rewrite H1, H3, H4 in Hu. by apply Hu.
Qed.

Lemma nallocx_pages st st' size : same_pages (heap_of st) st'.(thread_caches) -> tc_nallocx sm (heap_of st') size 0 = tc_nallocx sm (heap_of st) size 0.
Proof.
  intros (H1 & H2 & H3 & H4). unfold tc_nallocx, nallocx_slow, RoundUpSize, heap_of in *. by rewrite H4.
Qed.

(** A call of the caches, without the threads. *)
Lemma front_caches strict heaps A A' st cs : front_rep strict heaps A st -> blocks_inv strict heaps cs A' -> front_rep strict heaps A' (upd_caches (fun _ => cs) st).
Proof. intros [_ Hth] HB. split; [done|]. by apply (threads_same hash heaps st). Qed.

Lemma front_smallest strict A st : front_inv strict A st -> (heap_of st).(smallest_span_size_) = min_span_size_in_pages_ sm.
Proof. intros [heaps [(app & ((Ls & [(Gs & HG & _) _ _ _ _ _ _] & _) & _) & _) _]]. apply (hr_smallest _ _ _ HG). Qed.

Lemma front_Inv strict heaps A st : front_rep strict heaps A st -> Inv (G := pinned (list_to_set heaps)) ens free_ strict ∅ 0 (heap_of st).
Proof. intros [HB _]. exact (blocks_Inv strict heaps _ A HB). Qed.

(** The size the block would have is at least the request, unless it wraps to 0. *)
Lemma nallocx_le strict A st size : front_inv strict A st -> 0 <= size < 2 ^ 64 ->
  tc_nallocx sm (heap_of st) size 0 = 0 \/ size <= tc_nallocx sm (heap_of st) size 0.
Proof.
  intros [heaps Hrep] Hs. destruct (GetSizeClass sm size) as [cl|] eqn:Hcl.
  { right. rewrite (nallocx_small sm Hlo _ size cl) by (done || lia). by destruct (lo_some _ Hlo size cl ltac:(lia) Hcl) as (_ & ? & _). }
  rewrite (nallocx_large sm Hlo) by done. destruct (pages_bounds size Hs) as [[_ Hp1] Hp2]. replace (kMaxValidPages + 1) with (2 ^ 51) in Hp2 by done.
  assert (Hk : kPageSize = 8192) by done. assert (Hx : kMaxSize = 262144) by done. pose proof (lo_none _ Hlo size ltac:(lia) Hcl) as Hbig. 
  destruct (i_round _ _ _ _ _ _ (front_Inv _ _ _ _ Hrep)) as (k & Hk51 & Hsz). rewrite (RoundUpSize_min _ k) by (done || lia).
  assert (0 < 2 ^ k <= 2 ^ 51) as Hpk by (split; [apply Z.pow_pos_nonneg|apply Z.pow_le_mono_r]; lia).
  assert (H51 : 2 ^ 51 = 2 ^ (51 - k) * 2 ^ k) by (rewrite <- Z.pow_add_r by lia; f_equal; lia).
  pose proof (Z.div_mod (pages size + 2 ^ k - 1) (2 ^ k) ltac:(lia)) as Hdm. pose proof (Z.mod_pos_bound (pages size + 2 ^ k - 1) (2 ^ k) ltac:(lia)).
  assert (Hq : (pages size + 2 ^ k - 1) / 2 ^ k <= 2 ^ (51 - k)) by (apply Z.lt_succ_r, Z.div_lt_upper_bound; lia).
  set (q := (pages size + 2 ^ k - 1) / 2 ^ k) in *. assert (Hr : pages size <= q * 2 ^ k <= 2 ^ 51) by nia. rewrite Z.min_l by lia.
  destruct (decide (q * 2 ^ k = 2 ^ 51)) as [->|Hne]; [by left|]. right. rewrite u64_small by lia. lia.
Qed.

(** ** Blocks from the cache and from the page heap *)

Lemma wp_front_Allocate strict heaps A c cl st :
  front_rep strict heaps A st -> c ∈ heaps -> 1 <= cl < num_size_classes sm ->
  wp (cache_allocate free_ central_cache_ sm c (class_to_size sm cl) cl) (fun r st' =>
    contents A ∅ (memory_of st) (memory_of st') /\ settings st' = settings st /\ st'.(fast_path_cache) = st.(fast_path_cache) /\
    match r with
    | inl x => x <> 0 /\ A !! x = None /\ front_rep strict heaps (<[x := ByteSizeForClass sm cl]> A) st'
    | inr n => n = class_to_size sm cl /\ front_rep strict heaps A st' /\ no_pages (class_to_pages sm cl) (heap_of st) (heap_of st').(errno)
    end) st.
Proof.
  intros Hrep Hc Hcl. apply wp_on_caches. eapply wp_mono; [by apply (wp_block_Allocate Hsm strict heaps _ A c cl (proj1 Hrep))|].
  intros r cs (_ & Hct & Hr). split_and!; try done. destruct r as [x|n].
  - destruct Hr as (Hx & Hno & HB). split_and!; try done. by apply (front_caches strict heaps A).
  - destruct Hr as (Hn & HB & Hno). split_and!; try done. by apply (front_caches strict heaps A).
Qed.

Lemma wp_front_deref p s Q st : (heap_of st).(spans) !! p = Some s -> Q s st -> wp (on_pageheap (deref p)) Q st.
Proof.
  intros Hs HQ. unfold wp, on_pageheap, on_caches, on_central, on_heap, deref, heap_of in *. simpl in *. rewrite Hs. simpl.
  by destruct st as [[[] ? ? ? ? ? ? ? ?] ? ? ? ? ? ? ? ? ? ? ?].
Qed.

(** A span of [len] pages as the result of an allocation function. *)
Definition pages_post strict heaps A len p st st' : Prop :=
  contents A ∅ (memory_of st) (memory_of st') /\ settings st' = settings st /\ st'.(fast_path_cache) = st.(fast_path_cache) /\
  (p = 0 -> front_rep strict heaps A st') /\
  (p <> 0 -> A !! p = None /\ p mod 8192 = 0 /\ len < 2 ^ 35 /\ front_rep strict heaps (<[p := len * 8192]> A) st').

(** [SpanToMallocResult] of a new span. *)
Lemma wp_front_result strict heaps A st req len nothing span (st1 : Caches) :
  front_rep strict heaps A st -> 0 < len ->
  span_block (ens := ens) (free_ := free_) (central_cache_ := central_cache_) (sm := sm) strict heaps A st.(thread_caches) span st1 req len nothing ->
  let st' := upd_caches (fun _ => st1) st in
  wp (if span =? 0 then mret 0 else SpanToMallocResult span) (fun p st2 => st2 = st' /\ pages_post strict heaps A len p st st' /\
    (p = 0 -> span = 0 /\ nothing) /\ (p <> 0 -> span <> 0 /\ req <= len /\
      forall s, st1.(heap).(pageheap).(spans) !! span = Some s -> p = s.(start) * 8192)) st'.
Proof.
  intros Hrep Hlen (Hm & Hl & H0 & H1) st'. destruct (Z.eqb_spec span 0) as [->|Hne].
  - destruct (H0 eq_refl) as [HB Hno]. apply wp_ret. split_and!; try done. unfold pages_post, memory_of. simpl. rewrite Hm. split_and!; try done.
    intros _. by apply (front_caches strict heaps A).
  - destruct (H1 Hne) as (s & Hs & Hln & Hle & Hst & Hend & Hno & HB). unfold SpanToMallocResult.
    apply wp_bind, wp_front_deref with s; [done|]. apply wp_ret.
    rewrite Z.shiftl_mul_pow2 by done. change (2 ^ kPageShift) with 8192. rewrite u64_small by lia.
    split; [done|]. split; [|split; [lia|]].
    + unfold pages_post, memory_of. simpl. rewrite Hm. split_and!; try done; [lia|]. intros _. split_and!; try done; [by apply Z.mod_mul|lia|].
      by apply (front_caches strict heaps A).
    + intros _. split_and!; try done. intros t Ht. congruence.
Qed.

Lemma wp_front_New strict heaps A n st :
  front_rep strict heaps A st -> 0 < n < 2 ^ 64 ->
  let len := RoundUpSize (heap_of st) n in
  wp (span ← on_pageheap (New free_ n); if span =? 0 then mret 0 else SpanToMallocResult span) (fun p st' =>
    pages_post strict heaps A len p st st' /\ (p = 0 -> limit_ok len (heap_of st) = true -> none_free len page_limit (heap_of st)) /\ (p <> 0 -> n <= len)) st.
Proof.
  intros Hrep Hn len. apply wp_bind, wp_on_caches.
  pose proof (RoundUpSize_pos (G := pinned (list_to_set heaps)) strict ∅ 0 _ n (blocks_Inv strict heaps _ A (proj1 Hrep)) Hn) as Hpos.
  eapply wp_mono; [apply (wp_block_New Hsm strict heaps _ A n (proj1 Hrep) Hn)|]. intros span st1 Hsb.
  eapply wp_mono; [apply (wp_front_result strict heaps A st n len _ span st1 Hrep (proj1 Hpos) Hsb)|].
  intros p st' (-> & Hpost & H0 & H1). split_and!; [done|intros Hp; by apply H0|intros Hp; by apply H1].
Qed.

(** ** [do_malloc] *)

Lemma has_cache_elem strict heaps A th st c : front_rep strict heaps A st -> has_cache th st c -> c ∈ heaps.
Proof. intros Hrep [<- Hc]. by apply (present_owns hash strict heaps A st th Hrep). Qed.

Lemma has_cache_same th st st' c : st'.(fast_path_cache) = st.(fast_path_cache) -> has_cache th st c -> has_cache th st' c.
Proof. unfold has_cache, GetIfPresent. by intros ->. Qed.

(** Steps before the allocation do not matter. *)
Lemma malloc_post_before strict A th size p st st1 st' :
  undisturbed A st st1 -> malloc_post strict A th size p st1 st' -> malloc_post strict A th size p st st'.
Proof.
  intros (H1 & H2 & H3) (P1 & P2 & P3 & P4). split; [by eapply contents_trans|]. split; [congruence|]. split; [done|].
  rewrite (nallocx_pages _ _ size H3) in P4. revert P4. destruct (decide (p = 0)); [|done].
  intros [HI Hu]. split; [done|]. by apply (unavailable_pages st st1).
Qed.

(** The request of a class. *)
Lemma wp_malloc_class strict heaps A th c size cl st :
  front_rep strict heaps A st -> has_cache th st c -> 0 <= size -> GetSizeClass sm size = Some cl ->
  wp (cache_allocate free_ central_cache_ sm c (class_to_size sm cl) cl) (fun r st' =>
    malloc_post strict A th size (match r with inl p => p | inr _ => 0 end) st st' /\
    match r with inl p => p <> 0 | inr n => n = class_to_size sm cl end) st.
Proof.
  intros Hrep Hc Hs Hcl. destruct (lo_some _ Hlo size cl Hs Hcl) as (Hcl1 & Hle & _).
  eapply wp_mono; [apply (wp_front_Allocate strict heaps A c cl st Hrep); [by eapply has_cache_elem|done]|].
  intros r st' (Hct & Hset & Hfast & Hr). pose proof (has_cache_same th st st' c Hfast Hc) as Hc'. unfold malloc_post.
  destruct r as [x|n].
  - destruct Hr as (Hx & Hno & HB). split; [|done]. rewrite decide_False by done. split; [done|]. split; [done|]. split; [by exists c|].
    rewrite (nallocx_small sm Hlo _ size cl) by done. split; [done|]. split; [done|by exists heaps].
  - destruct Hr as (-> & HB & Hno). split; [|done]. rewrite decide_True by done. split; [done|]. split; [done|]. split; [by exists c|]. split; [by exists heaps|].
    intros Hlim. unfold request_pages. rewrite Hcl. apply Hno. unfold limit_ok. by rewrite Hlim.
Qed.

(** The request of whole pages. *)
Lemma wp_malloc_pages strict heaps A th c size st :
  front_rep strict heaps A st -> has_cache th st c -> 0 <= size < 2 ^ 64 -> GetSizeClass sm size = None ->
  wp (span ← on_pageheap (New free_ (pages size)); if span =? 0 then mret 0 else SpanToMallocResult span) (fun p st' =>
    malloc_post strict A th size p st st') st.
Proof.
  intros Hrep Hc Hs Hcl. destruct (pages_bounds size Hs) as [[_ Hp1] Hp2]. replace (kMaxValidPages + 1) with (2 ^ 51) in Hp2 by done.
  assert (Hk : kPageSize = 8192) by done. assert (Hx : kMaxSize = 262144) by done. pose proof (lo_none _ Hlo size ltac:(lia) Hcl) as Hbig. assert (0 < pages size) by lia.
  eapply wp_mono; [apply (wp_front_New strict heaps A (pages size) st Hrep); lia|].
  intros p st' ((Hct & Hset & Hfast & H0 & H1) & Hno & Hle). split; [done|]. split; [done|].
  split; [exists c; by eapply has_cache_same|]. case_decide as Hp.
  - split; [exists heaps; auto|]. intros Hlim. unfold request_pages. rewrite Hcl. apply Hno; [done|]. unfold limit_ok. by rewrite Hlim.
  - destruct (H1 Hp) as (Hnone & _ & Hlim & HB). specialize (Hle Hp). rewrite (nallocx_large sm Hlo) by done. rewrite u64_small by lia.
    split; [lia|]. split; [done|by exists heaps].
Qed.

Lemma wp_do_malloc strict A th size st :
  front_inv strict A st -> ready hash th st -> 0 <= size < 2 ^ 64 ->
  wp (do_malloc th size) (fun p st' => malloc_post strict A th size p st st') st.
Proof.
  intros [heaps Hrep] Hready Hs. unfold FrontEnd.do_malloc. apply wp_bind.
  eapply wp_mono; [by apply (wp_Grab Hsm sample_parameter log2 log_2 Hsample hash strict heaps A th st Hrep)|].
  intros [c em] st1 (_ & Hc & Hun & heaps1 & Hrep1). cbn [fst snd] in *. pose proof (has_cache_elem _ _ _ _ _ _ Hrep1 Hc) as Hin.
  eapply wp_mono; [|intros p st'; apply (malloc_post_before strict A th size p st st1 st' Hun)].
  destruct (GetSizeClass sm size) as [cl|] eqn:Hcl; cbv zeta.
  - apply wp_bind. eapply wp_mono; [by apply (wp_sample_allocation sample_parameter log2 log_2 Hsample hash strict heaps1 A c _ st1 Hrep1)|].
    intros b st2 (-> & Hrep2 & Hun2 & Hf). apply wp_bind.
    eapply wp_mono; [apply (wp_malloc_class strict heaps1 A th c size cl st2 Hrep2); [by eapply has_cache_same|lia|done]|].
    intros r st' [Hpost _]. destruct r; apply wp_ret; by eapply malloc_post_before.
  - unfold do_malloc_pages. cbv zeta. apply wp_bind. eapply wp_mono; [by apply (wp_sample_allocation sample_parameter log2 log_2 Hsample hash strict heaps1 A c _ st1 Hrep1)|].
    intros b st2 (-> & Hrep2 & Hun2 & Hf).
    eapply wp_mono; [apply (wp_malloc_pages strict heaps1 A th c size st2 Hrep2); [by eapply has_cache_same|done|done]|].
    intros p st'. by apply malloc_post_before.
Qed.

(** ** Running out of memory *)

Definition with_errno v st : Front := upd_caches (fun cs => upd_heap (upd_pageheap (upd_errno (fun _ => v) cs.(heap).(pageheap)) cs.(heap)) cs) st.

Lemma front_errno strict A st v : front_inv strict A st -> front_inv strict A (with_errno v st).
Proof. intros [heaps [HB Hth]]. exists heaps. split; [by apply blocks_errno|by apply (threads_same hash heaps st)]. Qed.

Abbreviation run_oom := (run_oom free_ central_cache_ sampled_objects_ sm sample_parameter log2 log_2 hash GrabBacktrace get_new_handler fuel).
Abbreviation handle_oom := (handle_oom get_new_handler fuel).

(** No new handler is called: for [malloc] in the default mode, for the others when none
    is installed. *)
Definition no_handler (from_operator : bool) st : Prop :=
  (from_operator = false /\ st.(tc_new_mode) = 0) \/ ((forall st, get_new_handler st = None) /\ (0 < fuel)%nat).
Definition from_op (oom : oom_handler) : bool := match oom with malloc_oom => false | _ => true end.
(** What the function returns then. *)
Definition failure (oom : oom_handler) : outcome := match oom with cpp_throw_oom => Throw bad_alloc | _ => Ret 0 end.

Lemma handle_oom_run retry from_operator nothrow st :
  no_handler from_operator st -> (from_operator = false -> nothrow = true) ->
  handle_oom retry from_operator nothrow st = Ok (if nothrow then Ret 0 else Throw bad_alloc, with_errno ENOMEM st).
Proof.
  intros Hno Hn. unfold FrontEnd.handle_oom. erewrite bind_run by reflexivity. erewrite bind_run by reflexivity.
  change (tc_new_mode (upd_caches _ st)) with st.(tc_new_mode). destruct Hno as [[-> Hm]|[Hh Hf]].
  - rewrite Hm, Hn by done. done.
  - destruct (negb from_operator && (st.(tc_new_mode) =? 0)) eqn:Hb.
    + apply andb_true_iff in Hb as [Hb _]. destruct from_operator; [done|]. by rewrite Hn.
    + destruct fuel as [|n]; [lia|]. cbn [oom_loop]. erewrite bind_run by reflexivity. by rewrite Hh.
Qed.

Lemma run_oom_run th oom size st :
  no_handler (from_op oom) st -> run_oom th oom size st = Ok (failure oom, with_errno ENOMEM st).
Proof. intros Hno. by destruct oom; unfold FrontEnd.run_oom; rewrite handle_oom_run by done. Qed.

(** ** [malloc], [new] *)

(** The calls of the new hooks. *)
Definition new_events st (r : outcome) size : list event :=
  match r with
  | Ret p => if hooks_empty st.(new_hooks_) then [] else (fun hook => NewHookCall hook p size) <$> invoked_hooks st.(new_hooks_)
  | Throw _ => []
  end.

(** The settings with the events [l] added to the trace. *)
Definition logged (l : list event) st st' : Prop := settings st' = settings (add_events l st).

(** An allocation of [n] bytes, [size] or more, returned a new block or failed. *)
Definition alloc_post strict A size n fail (nothing : Prop) st r st' : Prop :=
  contents A ∅ (memory_of st) (memory_of st') /\
  ((exists p, p <> 0 /\ r = Ret p /\ size <= n /\ new_block strict A p n st') \/
   (r = fail /\ front_inv strict A st' /\ (heap_of st').(errno) = ENOMEM /\ nothing)).

Lemma logged_nil st st' : settings st' = settings st -> logged [] st st'.
Proof. intros H. unfold logged. rewrite H. unfold settings. simpl. by rewrite app_nil_r. Qed.

Lemma hooked_run r size st : hooked_result r size st = Ok (r, add_events (new_events st r size) st) \/
  hooked_result r size st = Ok (r, st) /\ new_events st r size = [].
Proof.
  destruct r as [p|e]; [|by right]. unfold hooked_result, InvokeNewHook, new_events. 
  destruct (hooks_empty st.(new_hooks_)) eqn:He; [right|left]; unfold mbind, M_bind, get_state; simpl; by rewrite He.
Qed.

Lemma wp_hooked r size st Q : (forall st', settings st' = settings (add_events (new_events st r size) st) -> st'.(thread_caches) = st.(thread_caches) ->
    st'.(key_ready) = st.(key_ready) -> st'.(fast_path_cache) = st.(fast_path_cache) -> st'.(tls_value) = st.(tls_value) ->
    st'.(hash_table_) = st.(hash_table_) -> Q r st') -> wp (hooked_result r size) Q st.
Proof.
  intros HQ. unfold wp. destruct (hooked_run r size st) as [->|[-> Hn]]; [by apply HQ|]. apply HQ; try done. symmetry. rewrite Hn. symmetry. by apply logged_nil.
Qed.

(** Only the caches and the threads count. *)
Lemma front_same strict A st st' : st'.(thread_caches) = st.(thread_caches) -> st'.(key_ready) = st.(key_ready) ->
  st'.(fast_path_cache) = st.(fast_path_cache) -> st'.(tls_value) = st.(tls_value) -> st'.(hash_table_) = st.(hash_table_) ->
  front_inv strict A st -> front_inv strict A st'.
Proof. intros Hc H1 H2 H3 H4 [heaps [HB Hth]]. exists heaps. split; [by rewrite Hc|by apply (threads_same hash heaps st)]. Qed.

Lemma malloc_alloc strict A th size p st st' fail :
  malloc_post strict A th size p st st' -> p <> 0 -> alloc_post strict A size (tc_nallocx sm (heap_of st) size 0) fail (unavailable st size) st (Ret p) st'.
Proof. intros (H1 & H2 & H3 & H4) Hp. rewrite decide_False in H4 by done. split; [done|]. left. exists p. destruct H4 as [? ?]. by split_and!. Qed.

Lemma malloc_fails strict A th size st st' fail :
  malloc_post strict A th size 0 st st' -> alloc_post strict A size (tc_nallocx sm (heap_of st) size 0) fail (unavailable st size) st fail (with_errno ENOMEM st').
Proof.
  intros (H1 & H2 & H3 & H4). rewrite decide_True in H4 by done. destruct H4 as [HI Hu]. split; [done|]. right.
  split; [done|]. split; [by apply front_errno|done].
Qed.

Lemma alloc_hooked strict A size n fail nothing st r st1 st' :
  alloc_post strict A size n fail nothing st r st1 -> st'.(thread_caches) = st1.(thread_caches) -> st'.(key_ready) = st1.(key_ready) ->
  st'.(fast_path_cache) = st1.(fast_path_cache) -> st'.(tls_value) = st1.(tls_value) -> st'.(hash_table_) = st1.(hash_table_) ->
  alloc_post strict A size n fail nothing st r st'.
Proof.
  intros [Hct Hp] Hcs H1 H2 H3 H4. split; [unfold memory_of; by rewrite Hcs|].
  destruct Hp as [(p & Hp & -> & Hs & Hno & HI)|(-> & HI & He & Hn)]; [left|right].
  - exists p. split_and!; try done. split; [done|]. by eapply front_same.
  - split_and!; try done; [by eapply front_same|]. unfold heap_of. by rewrite Hcs.
Qed.

Lemma has_cache_ready th st c : has_cache th st c -> st.(fast_path_cache) = st.(tls_value) -> ready hash th st.
Proof.
  intros [Hc Hc0] Hf. left. exists c. left. unfold GetIfPresent in Hc. rewrite Hf in Hc. by destruct (_ !! _) as [d|]; simpl in Hc; subst.
Qed.

Abbreviation malloc_fast_path := (malloc_fast_path free_ central_cache_ sampled_objects_ sm sample_parameter log2 log_2 hash GrabBacktrace get_new_handler fuel).
Abbreviation do_allocate_full := (do_allocate_full free_ central_cache_ sampled_objects_ sm sample_parameter log2 log_2 hash GrabBacktrace get_new_handler fuel).

(** Settings that differ in the trace only. *)
Lemma settings_mode st st' : settings st' = settings st -> st'.(tc_new_mode) = st.(tc_new_mode) /\ st'.(new_hooks_) = st.(new_hooks_) /\
  st'.(delete_hooks_) = st.(delete_hooks_) /\ st'.(trace) = st.(trace).
Proof. unfold settings. intros [= -> -> -> _ _ ->]. done. Qed.

Lemma no_handler_same b st st' : settings st' = settings st -> no_handler b st -> no_handler b st'.
Proof. intros (H & _)%settings_mode. unfold no_handler. by rewrite H. Qed.

Lemma logged_same l st st1 st' : settings st1 = settings st -> logged l st1 st' -> logged l st st'.
Proof. unfold logged, settings. simpl. intros [= -> -> -> -> -> ->]. done. Qed.

Lemma new_events_same st st' r size : settings st' = settings st -> new_events st' r size = new_events st r size.
Proof. intros (_ & H & _)%settings_mode. unfold new_events. by rewrite H. Qed.

Lemma wp_allocate_full strict A th oom size st :
  front_inv strict A st -> ready hash th st -> 0 <= size < 2 ^ 64 -> no_handler (from_op oom) st ->
  wp (do_allocate_full th oom size) (fun r st' =>
    alloc_post strict A size (tc_nallocx sm (heap_of st) size 0) (failure oom) (unavailable st size) st r st' /\ logged (new_events st r size) st st') st.
Proof.
  intros HI Hready Hs Hno. unfold FrontEnd.do_allocate_full. apply wp_bind. eapply wp_mono; [by apply wp_do_malloc|].
  intros p st1 Hpost. pose proof Hpost as (_ & Hset & _).
  assert (Hend : forall r st2, settings st2 = settings st1 ->
    alloc_post strict A size (tc_nallocx sm (heap_of st) size 0) (failure oom) (unavailable st size) st r st2 ->
    wp (hooked_result r size) (fun r st' => alloc_post strict A size (tc_nallocx sm (heap_of st) size 0) (failure oom) (unavailable st size) st r st' /\
      logged (new_events st r size) st st') st2).
  { intros r st2 Hset2 Hal. apply wp_hooked. intros st' Hlog Hcs H1 H2 H3 H4. split; [by eapply alloc_hooked|].
    eapply logged_same; [|rewrite <- (new_events_same st st2) by congruence; exact Hlog]. congruence. }
  apply wp_bind. destruct (Z.eqb_spec p 0) as [->|Hp].
  - unfold wp at 1. rewrite run_oom_run by (by eapply no_handler_same). apply Hend; [done|]. by eapply malloc_fails.
  - apply wp_ret, Hend; [done|]. by apply (malloc_alloc strict A th).
Qed.

Lemma wp_malloc_fast_path strict A th oom size st :
  front_inv strict A st -> ready hash th st -> 0 <= size < 2 ^ 64 -> no_handler (from_op oom) st ->
  wp (malloc_fast_path th oom size) (fun r st' =>
    alloc_post strict A size (tc_nallocx sm (heap_of st) size 0) (failure oom) (unavailable st size) st r st' /\ logged (new_events st r size) st st') st.
Proof.
  intros HI Hready Hs Hno. pose proof (wp_allocate_full strict A th oom size st HI Hready Hs Hno) as Hfull.
  unfold FrontEnd.malloc_fast_path. apply wp_bind, wp_get. destruct (hooks_empty st.(new_hooks_)) eqn:Hhk; [cbn [negb]|done].
  cbv zeta. destruct (Z.eqb_spec (GetIfPresent th st) 0) as [|Hc]; [done|]. destruct (GetSizeClass sm size) as [cl|] eqn:Hcl; [|done].
  pose proof HI as [heaps Hrep]. assert (Hin : has_cache th st (GetIfPresent th st)) by done.
  destruct (present_owns hash strict heaps A st th Hrep Hc) as [_ Helem]. apply wp_bind.
  eapply wp_mono; [apply (wp_front_sampler hash strict heaps A (GetIfPresent th st) _ st (fun _ => True) Hrep Helem)|].
  { intros s. destruct (TryRecordAllocationFast (ByteSizeForClass sm cl) s) as [b s'] eqn:Hb. exists b, s'. by rewrite <- Hb. }
  intros b st1 (_ & Hrep1 & Hun & Hf). pose proof (has_cache_same th st st1 _ Hf Hin) as Hc1. destruct Hun as (Hct & Hset & Hsp).
  assert (Hev : forall r, new_events st r size = []) by (intros [p|e]; [|done]; unfold new_events; by rewrite Hhk).
  assert (Hback : forall r st', alloc_post strict A size (tc_nallocx sm (heap_of st1) size 0) (failure oom) (unavailable st1 size) st1 r st' ->
    alloc_post strict A size (tc_nallocx sm (heap_of st) size 0) (failure oom) (unavailable st size) st r st').
  { intros r st' [H1 H2]. split; [by eapply contents_trans|]. rewrite <- (nallocx_pages st st1 size Hsp).
    destruct H2 as [?|(? & ? & ? & ?)]; [by left|right]. split_and!; try done. by eapply unavailable_pages. }
  destruct b; cbn [negb].
  - apply wp_bind. eapply wp_mono; [apply (wp_malloc_class strict heaps A th (GetIfPresent th st) size cl st1 Hrep1 Hc1); [lia|done]|].
    intros r st2 [Hpost Hr]. pose proof Hpost as (_ & Hset2 & _). destruct r as [p|n].
    + apply wp_ret. split; [by eapply Hback, malloc_alloc|]. rewrite Hev. apply logged_nil. congruence.
    + unfold wp. rewrite run_oom_run by (eapply no_handler_same; [|done]; congruence). split; [by eapply Hback, malloc_fails|].
      rewrite Hev. apply logged_nil. rewrite <- Hset, <- Hset2. done.
  - eapply wp_mono; [apply (wp_allocate_full strict A th oom size st1); [by exists heaps|by eapply has_cache_ready, Hrep1|done|by eapply no_handler_same]|].
    intros r st' [Hal Hlog]. split; [by apply Hback|]. rewrite (new_events_same st st1) in Hlog by done. by eapply logged_same.
Qed.

(** ** [free] *)

Abbreviation do_free_with_callback := (do_free_with_callback free_ central_cache_ sm).

(** The block [ptr] is free again. *)
Definition free_post strict A ptr st st' : Prop :=
  front_inv strict (delete ptr A) st' /\ contents A {[ptr]} (memory_of st) (memory_of st') /\ settings st' = settings st.

(** The end of [do_free_with_callback] for an object of class [cl]. *)
Lemma wp_free_object strict heaps app A th ptr cl st0 st :
  cache_inv (ens := ens) (free_ := free_) (central_cache_ := central_cache_) (sm := sm) strict heaps app st.(thread_caches) ->
  shows (sm := sm) app st.(thread_caches) A -> threads_ok hash heaps st -> 1 <= cl < num_size_classes sm -> ptr ∈ app cl ->
  st0.(fast_path_cache) = st.(fast_path_cache) ->
  wp (if negb (GetIfPresent th st0 =? 0) then on_caches (Deallocate free_ central_cache_ sm (GetIfPresent th st0) ptr cl)
      else
        st ← get_state;
        set_memory (SLL_SetNext (memory_of st) ptr 0) ;;
        on_caches (on_central (InsertRange free_ central_cache_ sm cl ptr ptr 1)))
    (fun _ st' => free_post strict A ptr st st') st.
Proof.
  intros HC HA Hth Hcl Hptr Hf. assert (Hrep : front_rep strict heaps A st) by (split; [by exists app|done]).
  replace (GetIfPresent th st0) with (GetIfPresent th st) by (unfold GetIfPresent; by rewrite Hf).
  assert (Hend : forall cs, blocks_inv strict heaps cs (delete ptr A) -> contents A {[ptr]} (memory_of st) cs.(heap).(memory) ->
    free_post strict A ptr st (upd_caches (fun _ => cs) st)).
  { intros cs HB Hct. split; [|done]. exists heaps. by apply (front_caches strict heaps A). }
  destruct (Z.eqb_spec (GetIfPresent th st) 0) as [|Hc]; cbn [negb].
  - apply wp_bind, wp_get. unfold set_memory. pose proof (wp_block_insert Hsm strict heaps st.(thread_caches) A app ptr cl HC HA Hcl Hptr) as H.
    unfold wp, mbind, M_bind, on_caches in *. simpl in *. destruct (on_central (InsertRange _ _ _ _ _ _ _) _) as [[[] cs]| | |]; try done.
    destruct H as [HB Hct]. by apply (Hend cs).
  - destruct (present_owns hash strict heaps A st th Hrep Hc) as [_ Hin]. apply wp_on_caches.
    eapply wp_mono; [by apply (wp_block_Deallocate Hsm strict heaps _ A app)|]. intros [] cs [HB Hct]. by apply Hend.
Qed.

Lemma wp_do_free strict A th ptr n invalid st :
  front_inv strict A st -> A !! ptr = Some n ->
  wp (do_free_with_callback th ptr invalid false 0) (fun _ st' => free_post strict A ptr st st') st.
Proof.
  intros [heaps Hrep] Hptr. pose proof Hrep as [(app & HC & HA) Hth]. pose proof HC as ((Ls & Hcr & _) & _ & Hpl).
  unfold FrontEnd.do_free_with_callback. apply wp_bind, wp_get. cbv zeta. cbn [negb].
  rewrite Z.shiftr_div_pow2 by done. change (2 ^ kPageShift) with 8192.
  pose proof Hptr as Hblk. apply HA in Hblk as [(cl & Hcl & Hin & ->)|Hlg].
  - destruct (app_span Hsm strict _ app Ls 0 0 _ cl ptr Hcr ltac:(lia) Hin) as (p & s & k & Hp & Hl & Hsc & Hd & Hcv & H0 & _ & _ & _ & _ & Hca).
    unfold heap_of. destruct (TryGetSizeClass _ _) as [v|] eqn:Hv.
    + rewrite (Hca v eq_refl). by apply (wp_free_object strict heaps app).
    + rewrite Hd. assert (Hp0 : 0 < p) by (by destruct (Inv_ok _ _ _ _ _ _ _ _ (crep_Inv strict _ app Ls 0 0 _ Hcr) Hp)).
      destruct (Z.eqb_spec p 0); [lia|]. apply wp_bind, wp_front_deref with s; [done|]. rewrite Hsc. destruct (Z.eqb_spec cl 0); [lia|].
      apply wp_bind. unfold SetCachedSizeClass. unfold wp at 1, on_pageheap, on_caches, on_central, on_heap. simpl. rewrite <- Hsc.
      eapply wp_mono; [apply (wp_free_object strict heaps app A th ptr s.(sizeclass) st (upd_caches _ st)); try done; [|by apply (threads_same hash heaps st)|congruence..]|done].
      by apply (blocks_cached_app Hsm strict heaps st.(thread_caches) app p); [..|lia|].
  - destruct (large_span strict _ app Ls 0 0 _ ptr n Hcr Hlg) as (p & s & Hp & Hl & Hsc & Hst & Hln & Hdiv & Hd & Hp0 & Hca & H0 & Hlen & Hlim).
    unfold heap_of. rewrite Hdiv, Hca, Hd. destruct (Z.eqb_spec p 0); [done|]. apply wp_bind, wp_front_deref with s; [done|]. rewrite Hsc. cbn [Z.eqb].
    unfold do_free_pages. apply wp_bind, wp_front_deref with s; [done|]. rewrite Z.shiftl_mul_pow2 by done. change (2 ^ kPageShift) with 8192.
    rewrite u64_small by lia. rewrite (bool_decide_eq_true_2 _ Hl), <- Hst, Z.eqb_refl, (Hpl p s Hp).
    apply wp_bind, wp_ret, wp_bind, wp_ret, wp_bind, wp_ret, wp_on_caches.
    eapply wp_mono; [by apply (wp_block_Delete Hsm strict heaps _ A p s (proj1 Hrep))|].
    intros [] cs (Hm & _ & HB). rewrite <- Hst in HB. split; [exists heaps; by apply (front_caches strict heaps A)|]. split; [|done].
    unfold memory_of. simpl. rewrite Hm. done.
Qed.

(** ** The size of a block *)

Abbreviation GetSizeWithCallback := (GetSizeWithCallback sm).

Lemma get_size_run strict A ptr n f st :
  front_inv strict A st -> A !! ptr = Some n -> GetSizeWithCallback ptr f st = Ok (n, st).
Proof.
  intros [heaps [(app & ((Ls & Hcr & _) & _ & Hpl) & HA) _]] Hptr. unfold FrontEnd.GetSizeWithCallback.
  assert (Hderef : forall p s, (heap_of st).(spans) !! p = Some s -> on_pageheap (deref p) st = Ok (s, st)).
  { intros p s Hs. unfold on_pageheap, on_caches, on_central, on_heap, deref, heap_of in *. simpl in *. rewrite Hs. simpl.
    by destruct st as [[[] ? ? ? ? ? ? ? ?] ? ? ? ? ? ? ? ? ? ? ?]. }
  pose proof Hptr as Hblk. apply HA in Hblk as [(cl & Hcl & Hin & ->)|Hlg].
  - destruct (app_span Hsm strict _ app Ls 0 0 _ cl ptr Hcr ltac:(lia) Hin) as (p & s & k & Hp & Hl & Hsc & Hd & Hcv & H0 & _ & _ & _ & _ & Hca).
    destruct (Z.eqb_spec ptr 0); [lia|]. erewrite bind_run by reflexivity. rewrite Z.shiftr_div_pow2 by done. change (2 ^ kPageShift) with 8192.
    unfold heap_of in *. destruct (TryGetSizeClass _ _) as [v|] eqn:Hv; [by rewrite (Hca v eq_refl)|].
    rewrite Hd. assert (Hp0 : 0 < p) by (by destruct (Inv_ok _ _ _ _ _ _ _ _ (crep_Inv strict _ app Ls 0 0 _ Hcr) Hp)).
    destruct (Z.eqb_spec p 0); [lia|]. erewrite bind_run by (by apply Hderef). rewrite Hsc. by destruct (Z.eqb_spec cl 0); [lia|].
  - destruct (large_span strict _ app Ls 0 0 _ ptr n Hcr Hlg) as (p & s & Hp & Hl & Hsc & Hst & Hln & Hdiv & Hd & Hp0 & Hca & H0 & Hlen & Hlim).
    destruct (Z.eqb_spec ptr 0); [lia|]. erewrite bind_run by reflexivity. rewrite Z.shiftr_div_pow2 by done. change (2 ^ kPageShift) with 8192.
    unfold heap_of in *. rewrite Hdiv, Hca, Hd. destruct (Z.eqb_spec p 0); [done|]. erewrite bind_run by (by apply Hderef). rewrite Hsc, (Hpl p s Hp). cbn [Z.eqb negb].
    rewrite Z.shiftl_mul_pow2 by done. change (2 ^ kPageShift) with 8192. by rewrite u64_small, Hln by lia.
Qed.

(** ** Blocks *)

(** Where blocks are, for the application. *)
Lemma front_block strict A st a n :
  front_inv strict A st -> A !! a = Some n ->
  0 < a /\ a + n < 2 ^ 48 /\ 8 <= n /\ n mod 8 = 0 /\ a mod 8 = 0 /\ (8 < n -> a mod 16 = 0) /\
  forall k, 0 <= k <= 13 -> n mod 2 ^ k = 0 -> a mod 2 ^ k = 0.
Proof.
  intros [heaps [(app & ((Ls & Hcr & _) & _ & _) & HA) _]] Ha.
  destruct (block_span Hsm strict _ app Ls 0 0 _ A a n Hcr HA Ha) as (p & s & _ & _ & H0 & H1 & H2 & H3 & H4 & H5 & H6 & H7 & H8).
  split_and!; try done; try lia. intros k Hk Hmod.
  assert (H13 : 8192 = 2 ^ (13 - k) * 2 ^ k) by (rewrite <- Z.pow_add_r by lia; by replace (13 - k + k) with 13 by lia).
  pose proof (Z.pow_pos_nonneg 2 k ltac:(lia) ltac:(lia)) as Hpos.
  destruct H8 as [(_ & -> & _)|(j & _ & _ & -> & _)]; [rewrite H13, Z.mul_assoc; apply Z.mod_mul; lia|].
  apply Z.mod_divide in Hmod as [z ->]; [|lia]. rewrite H13. replace (_ + _) with ((s.(start) * 2 ^ (13 - k) + j * z) * 2 ^ k) by lia. apply Z.mod_mul. lia.
Qed.

Lemma front_disjoint strict A st a n b m :
  front_inv strict A st -> A !! a = Some n -> A !! b = Some m -> a <> b -> a + n <= b \/ b + m <= a.
Proof. intros [heaps [(app & ((Ls & Hcr & _) & _ & _) & HA) _]]. by apply (blocks_disjoint Hsm strict _ app Ls 0 0 st.(thread_caches) A a n b m Hcr HA). Qed.

(** A write of words into a block. *)
Definition with_memory (m : mem) st : Front := upd_caches (fun cs => upd_heap (upd_memory (fun _ => m) cs.(heap)) cs) st.

Lemma set_memory_run m st : set_memory m st = Ok (tt, with_memory m st).
Proof. done. Qed.

Lemma front_write strict A st m :
  front_inv strict A st -> (forall x, (forall a n, A !! a = Some n -> ~ a <= x < a + n) -> m !! x = memory_of st !! x) ->
  front_inv strict A (with_memory m st).
Proof.
  intros [heaps [HB Hth]] Hm. exists heaps. split; [by apply (blocks_write Hsm strict heaps st.(thread_caches) A)|by apply (threads_same hash heaps st)].
Qed.

(** Bytes of a block are in words of the block. *)
Lemma block_word strict A st a n x : front_inv strict A st -> A !! a = Some n -> a <= x < a + n -> a <= word_addr x < a + n.
Proof.
  intros HI Ha Hx. destruct (front_block _ _ _ _ _ HI Ha) as (_ & _ & _ & Hn & Ha8 & _). unfold word_addr.
  apply Z.mod_divide in Hn as [z ->], Ha8 as [y ->]; [|lia..].
  assert (y <= x / 8) by (apply Z.div_le_lower_bound; lia). pose proof (Z.mul_div_le x 8). lia.
Qed.

Lemma contents_byte strict A X st m m' a n x :
  front_inv strict A st -> contents A X m m' -> A !! a = Some n -> a ∉ X -> a <= x < a + n -> get_byte m' x = get_byte m x.
Proof. intros HI Hct Ha HX Hx. apply get_byte_word. apply (Hct a n); try done. by eapply block_word. Qed.

(** ** [calloc] *)

Abbreviation do_malloc_or_cpp_alloc := (do_malloc_or_cpp_alloc free_ central_cache_ sampled_objects_ sm sample_parameter log2 log_2 hash GrabBacktrace get_new_handler fuel).
Abbreviation do_calloc := (do_calloc free_ central_cache_ sampled_objects_ sm sample_parameter log2 log_2 hash GrabBacktrace get_new_handler fuel).

Lemma wp_malloc_or_cpp_alloc strict A th size st :
  front_inv strict A st -> ready hash th st -> 0 <= size < 2 ^ 64 -> no_handler false st ->
  wp (do_malloc_or_cpp_alloc th size) (fun r st' =>
    alloc_post strict A size (tc_nallocx sm (heap_of st) size 0) (Ret 0) (unavailable st size) st r st' /\ settings st' = settings st /\
    (heap_of st').(smallest_span_size_) = (heap_of st).(smallest_span_size_)) st.
Proof.
  intros HI Hready Hs Hno. unfold FrontEnd.do_malloc_or_cpp_alloc. apply wp_bind.
  eapply wp_mono; [by apply wp_do_malloc|]. intros p st1 Hpost. pose proof Hpost as (_ & Hset & _).
  assert (Hsz : forall A' st', front_inv strict A' st' -> (heap_of st').(smallest_span_size_) = (heap_of st).(smallest_span_size_)).
  { intros A' st' HI'. by rewrite (front_smallest _ _ _ HI), (front_smallest _ _ _ HI'). }
  destruct (Z.eqb_spec p 0) as [->|Hp]; cbn [negb].
  - unfold wp. rewrite handle_oom_run by (by eapply no_handler_same || done). pose proof (malloc_fails strict A th size st st1 (Ret 0) Hpost) as Hal.
    split; [done|]. split; [done|]. destruct Hal as [_ [(q & Hq & Hr & _)|(_ & HI' & _)]]; [by injection Hr as <-|by eapply Hsz].
  - apply wp_ret. pose proof (malloc_alloc strict A th size p st st1 (Ret 0) Hpost Hp) as Hal. split; [done|]. split; [done|].
    destruct Hal as [_ [(q & _ & _ & _ & _ & HI')|(_ & HI' & _)]]; by eapply Hsz.
Qed.

Lemma mul_overflow n e : 0 <= n < 2 ^ 64 -> 0 < e -> (u64 (n * e) / e = n <-> n * e < 2 ^ 64).
Proof.
  intros Hn He. split; intros H.
  - destruct (Z.lt_ge_cases (n * e) (2 ^ 64)) as [|Hge]; [done|]. exfalso. pose proof (Z.mul_div_le (u64 (n * e)) e He). rewrite H in *.
    unfold u64 in *. change 18446744073709551616 with (2 ^ 64) in *. pose proof (Z.mod_pos_bound (n * e) (2 ^ 64)). lia.
  - rewrite u64_small by nia. by apply Z.div_mul; lia.
Qed.

(** The block [p] holds zeros. *)
Definition zeroed (n p : Z) st' : Prop := forall i, 0 <= i < n -> get_byte (memory_of st') (p + i) = 0.

Lemma zero_block strict A p n st :
  new_block strict A p n st ->
  let st' := with_memory (memset (memory_of st) p 0 n) st in
  new_block strict A p n st' /\ zeroed n p st' /\ contents A ∅ (memory_of st) (memory_of st').
Proof.
  intros [Hno HI] st'. assert (Hp : (<[p := n]> A) !! p = Some n) by (by rewrite lookup_insert_eq).
  destruct (front_block _ _ _ _ _ HI Hp) as (Hp0 & _ & Hn & _).
  assert (Hout : forall x, ~ p <= x < p + n -> memset (memory_of st) p 0 n !! x = memory_of st !! x).
  { intros x Hx. apply memset_word. intros a Ha <-. apply Hx. eapply block_word; [exact HI|exact Hp|lia]. }
  split; [split; [done|]|split].
  - apply front_write; [done|]. intros x Hx. apply Hout. by apply Hx.
  - intros i Hi. unfold st', memory_of. simpl. unfold memset. rewrite memset_bytes, decide_True by lia. done.
  - intros a m x Ha _ Hx. apply Hout. assert (Hap : a <> p) by congruence.
    destruct (front_disjoint _ _ _ a m p n HI); [by rewrite lookup_insert_ne|done|done|lia|lia].
Qed.

Lemma wp_do_calloc strict A th n elem_size st (size := n * elem_size) :
  front_inv strict A st -> ready hash th st -> 0 <= n < 2 ^ 64 -> 0 <= elem_size < 2 ^ 64 -> no_handler false st ->
  wp (do_calloc th n elem_size) (fun r st' => settings st' = settings st /\
    if decide (size < 2 ^ 64)
    then alloc_post strict A size (tc_nallocx sm (heap_of st) size 0) (Ret 0) (unavailable st size) st r st' /\
      forall p, r = Ret p -> p <> 0 -> zeroed (tc_nallocx sm (heap_of st) size 0) p st'
    else r = Ret 0 /\ st' = st) st.
Proof.
  intros HI Hready Hn He Hno. unfold FrontEnd.do_calloc. cbv zeta. fold size.
  destruct (negb (elem_size =? 0) && negb (u64 size / elem_size =? n)) eqn:Hov.
  - apply wp_ret. split; [done|]. apply andb_prop in Hov as [He0 Hq]. apply negb_true_iff in He0, Hq. apply Z.eqb_neq in He0, Hq.
    rewrite decide_False; [done|]. intros Hlt. apply Hq, mul_overflow; [done|lia|done].
  - assert (Hs : 0 <= size < 2 ^ 64).
    { split; [unfold size; nia|]. apply andb_false_iff in Hov as [Hz|Hz]; apply negb_false_iff, Z.eqb_eq in Hz; [subst; unfold size; lia|].
      destruct (decide (elem_size = 0)) as [->|]; [unfold size; lia|]. apply mul_overflow; [done|lia|done]. }
    destruct (decide (size < 2 ^ 64)); [|lia]. rewrite u64_small by done. apply wp_bind.
    eapply wp_mono; [by apply (wp_malloc_or_cpp_alloc strict A th size st)|]. intros r st1 (Hal & Hset & Hsz).
    destruct Hal as [Hct [(p & Hp & -> & Hle & Hnew)|(-> & Hfail)]].
    + apply wp_bind. destruct (Z.eqb_spec p 0); [done|]. cbn [negb]. apply wp_bind, wp_get. unfold wp at 1. rewrite set_memory_run. apply wp_ret.
      replace (tc_nallocx sm (heap_of st1) size 0) with (tc_nallocx sm (heap_of st) size 0) by (by unfold tc_nallocx, nallocx_slow, RoundUpSize; rewrite Hsz).
      destruct (zero_block strict A p _ st1 Hnew) as (Hnew' & Hz & Hct'). split; [done|]. split; [|by intros q [= <-]].
      split; [by eapply contents_trans|]. left. by exists p.
    + apply wp_bind, wp_ret, wp_ret. split; [done|]. split; [split; [done|by right]|]. by intros q [= <-].
Qed.

(** ** [realloc] *)

Abbreviation do_realloc_with_callback := (do_realloc_with_callback free_ central_cache_ sampled_objects_ sm sample_parameter log2 log_2 hash GrabBacktrace get_new_handler fuel).

(** The calls of the delete hooks. *)
Definition delete_events st p : list event :=
  if hooks_empty st.(delete_hooks_) then [] else (fun hook => DeleteHookCall hook p) <$> invoked_hooks st.(delete_hooks_).

(** [st'] is [st] with another trace. *)
Definition traced (l : list event) st st' : Prop := st' = add_events l st.

Lemma add_events_nil st : add_events [] st = st.
Proof. destruct st. unfold add_events. simpl. by rewrite app_nil_r. Qed.

Lemma new_hook_run p size st : InvokeNewHook p size st = Ok (tt, add_events (new_events st (Ret p) size) st).
Proof.
  unfold InvokeNewHook, new_events. erewrite bind_run by reflexivity. destruct (hooks_empty _); [cbn [negb]; by rewrite add_events_nil|done].
Qed.

Lemma delete_hook_run p st : InvokeDeleteHook p st = Ok (tt, add_events (delete_events st p) st).
Proof.
  unfold InvokeDeleteHook, delete_events. erewrite bind_run by reflexivity. destruct (hooks_empty _); [cbn [negb]; by rewrite add_events_nil|done].
Qed.

Lemma front_events strict A l st : front_inv strict A st -> front_inv strict A (add_events l st).
Proof. by apply front_same. Qed.

(** The block [old] of [n0] bytes became [p] of [n] bytes, and its bytes moved. *)
Definition moved_post strict A old n0 size n st r st' : Prop :=
  exists p, r = Ret p /\ p <> 0 /\ size <= n /\ (p = old \/ A !! p = None) /\ front_inv strict (<[p := n]> (delete old A)) st' /\
    contents A {[old]} (memory_of st) (memory_of st') /\
    forall i, 0 <= i < Z.min n0 size -> get_byte (memory_of st') (p + i) = get_byte (memory_of st) (old + i).

(** The copy, and the end of the old block. *)
Lemma wp_move strict A th old n0 size n p invalid st0 st :
  front_inv strict A st0 -> A !! old = Some n0 -> 0 <= size <= n -> new_block strict A p n st -> p <> 0 ->
  contents A ∅ (memory_of st0) (memory_of st) -> 0 <= n0 ->
  wp (InvokeNewHook p size ;;
      st ← get_state;
      set_memory (memcpy (memory_of st) p old (Z.min n0 size)) ;;
      InvokeDeleteHook old ;;
      do_free_with_callback th old invalid false 0 ;;
      mret (Ret p))
    (fun r st' => moved_post strict A old n0 size n st0 r st' /\ logged (new_events st (Ret p) size ++ delete_events st old) st st') st.
Proof.
  intros HI0 Hold Hs [Hno HI] Hp Hct Hn0. set (A1 := <[p := n]> A). assert (Hpo : p <> old) by congruence.
  assert (Hp1 : A1 !! p = Some n) by (unfold A1; by rewrite lookup_insert_eq).
  assert (Ho1 : A1 !! old = Some n0) by (unfold A1; by rewrite lookup_insert_ne).
  pose proof (front_disjoint _ _ _ p n old n0 HI Hp1 Ho1 Hpo) as Hdis.
  assert (Hmin : 0 <= Z.min n0 size) by lia. set (len := Z.min n0 size) in *.
  apply wp_bind. unfold wp at 1. rewrite new_hook_run. apply wp_bind, wp_get, wp_bind. unfold wp at 1. rewrite set_memory_run.
  apply wp_bind. unfold wp at 1. rewrite delete_hook_run. set (l1 := new_events st (Ret p) size). set (m := memcpy _ _ _ _).
  change (delete_events (with_memory m (add_events l1 st)) old) with (delete_events st old). set (l2 := delete_events st old).
  set (st2 := add_events l2 _).
  assert (Hout : forall x, ~ p <= x < p + n -> m !! x = memory_of st !! x).
  { intros x Hx. apply memcpy_word. intros a Ha <-. apply Hx. eapply (block_word strict A1); [exact HI|exact Hp1|lia]. }
  assert (HI2 : front_inv strict A1 st2).
  { apply front_events, front_write; [by apply front_events|]. intros x Hx. apply Hout. by apply Hx. }
  apply wp_bind. eapply wp_mono; [by apply (wp_do_free strict A1 th old n0 invalid st2 HI2)|].
  intros [] st' (HI' & Hct' & Hset'). apply wp_ret.
  assert (Hdel : delete old A1 = <[p := n]> (delete old A)) by (unfold A1; by rewrite delete_insert_ne).
  split.
  - exists p. split_and!; try done; [lia|by right|by rewrite <- Hdel| |].
    + intros a k x Ha HX Hx. assert (Hap : a <> p) by congruence. assert (Ha1 : A1 !! a = Some k) by (unfold A1; by rewrite lookup_insert_ne).
      rewrite (Hct' a k x Ha1 HX Hx). change (memory_of st2) with m. rewrite Hout, (Hct a k x); try done.
      destruct (front_disjoint _ _ _ a k p n HI Ha1 Hp1 Hap); lia.
    + intros i Hi. rewrite (contents_byte strict A1 {[old]} st (memory_of st2) (memory_of st') p n (p + i) HI Hct' Hp1); [|set_solver|lia].
      change (memory_of st2) with m. unfold m, memcpy. rewrite memcpy_bytes, decide_True by lia. rewrite get_byte_mod. simpl.
      replace (old + (p + i - p)) with (old + i) by lia.
      by apply (contents_byte strict A ∅ st0 _ _ old n0 (old + i) HI0 Hct Hold); [|lia].
  - unfold logged. rewrite Hset'. unfold settings. simpl. by rewrite <- app_assoc.
Qed.

Lemma wp_do_realloc strict A th old n0 size invalid invalid_size st :
  front_inv strict A st -> A !! old = Some n0 -> ready hash th st -> 0 <= size < 2 ^ 64 -> no_handler false st ->
  let n := tc_nallocx sm (heap_of st) size 0 in
  wp (do_realloc_with_callback th old size invalid invalid_size) (fun r st' =>
    moved_post strict A old n0 size n st r st' \/
    (r = Ret 0 /\ front_inv strict A st' /\ contents A ∅ (memory_of st) (memory_of st') /\ (heap_of st').(errno) = ENOMEM /\ unavailable st size)) st.
Proof.
  intros HI Hold Hready Hs Hno n. destruct (front_block _ _ _ _ _ HI Hold) as (Ho0 & _ & Hn0 & _).
  unfold FrontEnd.do_realloc_with_callback. apply wp_bind. unfold wp at 1. rewrite (get_size_run strict A old n0) by done.
  apply wp_bind, wp_get. fold n. destruct (Z.eqb_spec n n0) as [Heq|Hne].
  - apply wp_bind. unfold wp at 1. rewrite delete_hook_run. apply wp_bind. unfold wp at 1. rewrite new_hook_run. apply wp_ret. left. exists old.
    assert (size <= n) by (destruct (nallocx_le strict A st size HI Hs); unfold n; lia). rewrite insert_delete_eq, insert_id by congruence.
    split_and!; try done; [lia|by left|by apply front_events, front_events].
  - apply wp_bind. eapply wp_mono; [by apply (wp_malloc_or_cpp_alloc strict A th size st)|]. intros r st1 (Hal & Hset & _).
    destruct Hal as [Hct [(p & Hp & -> & Hle & Hnew)|(-> & HI1 & He & Hu)]].
    + destruct (Z.eqb_spec p 0); [done|]. destruct (Z.eqb_spec n0 0); [lia|]. apply wp_bind, wp_ret.
      eapply wp_mono; [apply (wp_move strict A th old n0 size n p invalid st st1 HI Hold); try done; lia|]. intros r st' [Hm _]. by left.
    + cbn. apply wp_ret. by right.
Qed.

(** ** Aligned blocks *)

Abbreviation memalign_fast_path := (memalign_fast_path free_ central_cache_ sampled_objects_ sm sample_parameter log2 log_2 hash GrabBacktrace get_new_handler fuel).
Abbreviation memalign_pages := (memalign_pages free_ get_new_handler fuel).

Lemma pages_pow k : 13 <= k < 64 -> pages (2 ^ k) = 2 ^ (k - 13).
Proof.
  intros Hk. unfold pages. rewrite land_page_mask, Z.shiftr_div_pow2 by done. change kPageSize with (2 ^ 13). change kPageShift with 13.
  assert (H : 2 ^ k = 2 ^ (k - 13) * 2 ^ 13) by (rewrite <- Z.pow_add_r by lia; f_equal; lia).
  rewrite H, Z.mod_mul, Z.div_mul by lia. simpl. lia.
Qed.

(** A span for an aligned request. *)
Lemma wp_do_memalign_pages strict heaps A k size st :
  front_rep strict heaps A st -> 13 <= k < 64 -> 0 <= size < 2 ^ 64 ->
  wp (do_memalign_pages free_ (2 ^ k) size) (fun p st' => contents A ∅ (memory_of st) (memory_of st') /\ settings st' = settings st /\
    (p = 0 -> front_rep strict heaps A st') /\
    (p <> 0 -> p mod 2 ^ k = 0 /\ exists n, size <= n /\ A !! p = None /\ front_rep strict heaps (<[p := n]> A) st')) st.
Proof.
  intros Hrep Hk Hs. unfold do_memalign_pages. destruct (Z.ltb_spec (u64 (size + 2 ^ k)) size); [by apply wp_ret|].
  set (sz := if size =? 0 then 1 else size). assert (Hsz : size <= sz /\ 0 < sz < 2 ^ 64) by (unfold sz; destruct (Z.eqb_spec size 0); lia).
  destruct (pages_bounds sz ltac:(lia)) as [[_ Hp1] Hp2]. replace (kMaxValidPages + 1) with (2 ^ 51) in Hp2 by done. assert (Hpk : kPageSize = 8192) by done.
  rewrite pages_pow by done. apply wp_bind, wp_on_caches.
  assert (Hn : 0 < pages sz < 2 ^ 64) by lia.
  pose proof (RoundUpSize_pos (G := pinned (list_to_set heaps)) strict ∅ 0 _ (pages sz) (front_Inv _ _ _ _ Hrep) Hn) as Hpos.
  eapply wp_mono; [apply (wp_block_NewAligned Hsm strict heaps _ A (pages sz) (k - 13) (proj1 Hrep) Hn); lia|]. intros span st1 [Hsb Hal].
  eapply wp_mono; [apply (wp_front_result strict heaps A st (pages sz) _ _ span st1 Hrep (proj1 Hpos) Hsb)|].
  intros p st' (-> & (Hct & Hset & Hf & H0 & H1) & H2 & H3). split; [done|]. split; [done|]. split; [done|]. intros Hp.
  destruct (H1 Hp) as (Hno & _ & Hlen & HB), (H3 Hp) as (Hspan & Hle & Hst). destruct Hsb as (_ & _ & _ & Hsb). destruct (Hsb Hspan) as (s & Hs1 & _).
  rewrite (Hst s Hs1). split; [|eexists; split; [|rewrite <- (Hst s Hs1); done]; unfold heap_of in Hle; lia].
  replace (2 ^ k) with (2 ^ (k - 13) * 8192) by (change 8192 with (2 ^ 13); rewrite <- Z.pow_add_r by lia; f_equal; lia).
  rewrite Z.mul_mod_distr_r by (try lia; apply Z.pow_nonzero; lia). by rewrite (Hal s Hs1 Hspan).
Qed.

(** Rounding a size up to an alignment. *)
Lemma align_size_up_spec size k : 0 <= size < 2 ^ 64 -> 0 <= k <= 13 ->
  let s := align_size_up size (2 ^ k) in size <= s < 2 ^ 64 /\ 0 < s /\ (s mod 2 ^ k = 0 \/ kMaxSize < s).
Proof.
  intros Hs Hk. unfold align_size_up. assert (Hp : 0 < 2 ^ k <= 8192) by (split; [apply Z.pow_pos_nonneg|change 8192 with (2 ^ 13); apply Z.pow_le_mono_r]; lia).
  replace (u64 (Z.lnot (2 ^ k - 1))) with (u64 (Z.lnot (u64 (2 ^ k - 1)))) by (by rewrite (u64_small (2 ^ k - 1)) by lia).
  rewrite land_high_mask by (apply u64_range || lia). assert (Hx : kMaxSize = 262144) by done.
  assert (Hmul : forall x, (x * 2 ^ k) mod 2 ^ k = 0) by (intros; apply Z.mod_mul; lia).
  destruct (Z.lt_ge_cases (size + 2 ^ k - 1) (2 ^ 64)) as [Hlt|Hge].
  - rewrite u64_small by lia. pose proof (Z.div_mod (size + 2 ^ k - 1) (2 ^ k) ltac:(lia)). pose proof (Z.mod_pos_bound (size + 2 ^ k - 1) (2 ^ k) ltac:(lia)).
    destruct (Z.eqb_spec ((size + 2 ^ k - 1) / 2 ^ k * 2 ^ k) 0) as [Hz|Hz].
    + destruct (Z.eqb_spec size 0) as [->|]; [|lia]. rewrite Z.mod_same by lia. lia.
    + pose proof (Z.div_pos (size + 2 ^ k - 1) (2 ^ k) ltac:(lia) ltac:(lia)). split; [lia|]. split; [lia|left; apply Hmul].
  - assert (Hu : u64 (size + 2 ^ k - 1) = size + 2 ^ k - 1 - 2 ^ 64).
    { rewrite <- (u64_small (size + 2 ^ k - 1 - 2 ^ 64)) by lia. apply u64_eq. exists 1. lia. }
    rewrite Hu, (Z.div_small (size + 2 ^ k - 1 - 2 ^ 64)) by lia. simpl. destruct (Z.eqb_spec size 0); lia.
Qed.

(** The object for a rounded size is aligned. *)
Lemma nallocx_aligned (Hnat : natural sm) (h : PageHeap) size k : 0 < size < 2 ^ 64 -> 0 <= k <= 13 -> size mod 2 ^ k = 0 \/ kMaxSize < size ->
  tc_nallocx sm h size 0 mod 2 ^ k = 0.
Proof.
  intros Hs Hk Hmod. destruct (GetSizeClass sm size) as [cl|] eqn:Hcl.
  - rewrite (nallocx_small sm Hlo _ size cl) by (done || lia). apply (Hnat k size cl); [done|lia| |done].
    destruct Hmod as [|Hbig]; [done|]. rewrite SizeClasses.GetSizeClass_eq in Hcl by lia. by destruct (Z.leb_spec size kMaxSize); [lia|].
  - rewrite (nallocx_large sm Hlo) by (done || lia). unfold u64. change 18446744073709551616 with (2 ^ 64).
    assert (H13 : 8192 = 2 ^ (13 - k) * 2 ^ k) by (rewrite <- Z.pow_add_r by lia; by replace (13 - k + k) with 13 by lia).
    assert (H64 : 2 ^ 64 = 2 ^ (64 - k) * 2 ^ k) by (rewrite <- Z.pow_add_r by lia; f_equal; lia).
    pose proof (Z.pow_pos_nonneg 2 k ltac:(lia) ltac:(lia)). pose proof (Z.pow_pos_nonneg 2 (64 - k) ltac:(lia) ltac:(lia)).
    rewrite H13, H64, Z.mul_assoc, Z.mul_mod_distr_r by lia. apply Z.mod_mul. lia.
Qed.

(** An aligned allocation. *)
Definition aligned_alloc strict A align size fail st r st' : Prop :=
  exists n, alloc_post strict A size n fail True st r st' /\ forall p, r = Ret p -> p <> 0 -> p mod align = 0.

Lemma wp_memalign (Hnat : natural sm) strict A th oom k size st :
  front_inv strict A st -> ready hash th st -> 0 <= k < 64 -> 0 <= size < 2 ^ 64 -> no_handler (from_op oom) st ->
  wp (memalign_fast_path th oom (2 ^ k) size) (fun r st' => aligned_alloc strict A (2 ^ k) size (failure oom) st r st') st.
Proof.
  intros HI Hready Hk Hs Hno. unfold FrontEnd.memalign_fast_path. destruct (Z.gtb_spec (2 ^ k) kPageSize) as [Hgt|Hle].
  - assert (Hk13 : 13 <= k) by (destruct (Z.lt_ge_cases k 13) as [Hlt|]; [|done]; change kPageSize with (2 ^ 13) in Hgt; apply Z.pow_lt_mono_r_iff in Hgt; lia).
    pose proof HI as [heaps Hrep].
    assert (Hgen : forall b nt, no_handler b st -> (b = false -> nt = true) ->
      wp (memalign_pages (2 ^ k) size b nt) (fun r st' => aligned_alloc strict A (2 ^ k) size (if nt then Ret 0 else Throw bad_alloc) st r st') st);
      [|destruct oom; by apply Hgen].
    intros b nt Hnb Hbn. unfold FrontEnd.memalign_pages. apply wp_bind. eapply wp_mono; [apply (wp_do_memalign_pages strict heaps A k size st Hrep); lia|].
    intros p st1 (Hct & Hset & H0 & H1). apply wp_bind. destruct (Z.eqb_spec p 0) as [->|Hp].
    + unfold wp at 1. rewrite handle_oom_run by (by eapply no_handler_same || done). apply wp_hooked. intros st' _ Hcs F1 F2 F3 F4. exists 0.
      split; [|intros p; destruct nt; [by intros [= <-]|done]]. split; [unfold memory_of; by rewrite Hcs|]. right.
      split; [done|]. split; [|split; [unfold heap_of; by rewrite Hcs|done]]. eapply front_same; [done..|]. apply front_errno. exists heaps. auto.
    + apply wp_ret, wp_hooked. intros st' _ Hcs F1 F2 F3 F4. destruct (H1 Hp) as (Hal & n & Hn & Hnone & HB). exists n.
      split; [|by intros q [= <-]]. split; [unfold memory_of; by rewrite Hcs|]. left. exists p. split_and!; try done. split; [done|].
      eapply front_same; [done..|]. by exists heaps.
  - assert (Hk13 : k <= 13) by (destruct (Z.lt_ge_cases 13 k) as [Hlt|]; [|done]; change kPageSize with (2 ^ 13) in Hle; apply (Z.pow_lt_mono_r 2) in Hlt; lia).
    destruct (align_size_up_spec size k Hs ltac:(lia)) as (Hup & Hpos & Hmod). set (s := align_size_up size (2 ^ k)) in *.
    eapply wp_mono; [by apply (wp_malloc_fast_path strict A th oom s st); [..|lia|]|]. intros r st' [[Hct Hal] _].
    exists (tc_nallocx sm (heap_of st) s 0). destruct Hal as [(p & Hp & -> & Hle2 & Hno2 & HI2)|(-> & HI2 & He & _)].
    + split; [split; [done|left; exists p; split_and!; [done|done|lia|done]]|]. intros q [= <-] _.
      destruct (front_block strict _ st' p (tc_nallocx sm (heap_of st) s 0) HI2) as (_ & _ & _ & _ & _ & _ & Hf); [by rewrite lookup_insert_eq|].
      apply Hf; [lia|]. apply nallocx_aligned; try done; lia.
    + split; [split; [done|by right]|]. intros q Hq. destruct oom; simpl in Hq; [done|by injection Hq as <-..].
Qed.

(** ** [free] with the size *)

Lemma class_inj c d : 1 <= c < num_size_classes sm -> 1 <= d < num_size_classes sm -> ByteSizeForClass sm c = ByteSizeForClass sm d -> c = d.
Proof.
  intros Hc Hd Heq. destruct (Z.lt_total c d) as [Hlt|[|Hlt]]; [|done|]; [pose proof (lo_mono _ Hlo c d)|pose proof (lo_mono _ Hlo d c)]; lia.
Qed.

(** The hint is a size for which the block could have been requested; large blocks take
    the other way. *)
Lemma wp_free_hint strict A th ptr size invalid st :
  front_inv strict A st -> A !! ptr = Some (tc_nallocx sm (heap_of st) size 0) -> 0 <= size < 2 ^ 64 -> ptr mod 8192 <> 0 ->
  wp (do_free_with_callback th ptr invalid true size) (fun _ st' => free_post strict A ptr st st') st.
Proof.
  intros HI Hptr Hs Hpage. pose proof HI as [heaps Hrep]. pose proof Hrep as [(app & HC & HA) Hth].
  pose proof Hptr as Hblk. apply HA in Hblk as [(c & Hc1 & Hin & Heq)|(p & s & _ & _ & _ & -> & _)]; [|by destruct Hpage; apply Z.mod_mul].
  unfold FrontEnd.do_free_with_callback. apply wp_bind, wp_get. cbv zeta. destruct (GetSizeClass sm size) as [cl|] eqn:Hcl.
  - rewrite (nallocx_small sm Hlo _ size cl) in Heq by (done || lia). destruct (lo_some _ Hlo size cl ltac:(lia) Hcl) as (Hc & _).
    apply (class_inj cl c Hc Hc1) in Heq as <-. by apply (wp_free_object strict heaps app).
  - pose proof (lo_none _ Hlo size ltac:(lia) Hcl). destruct (smo_size _ Hsm c Hc1) as [? ?].
    destruct (nallocx_le strict A st size HI Hs); lia.
Qed.

(** A page that the page heap knows nothing about. *)
Definition unknown_page st k : Prop :=
  (forall p s, (heap_of st).(spans) !! p = Some s -> ~ covers s k) /\ TryGetSizeClass (heap_of st) k = None.

Lemma null_page strict A st : front_inv strict A st -> unknown_page st 0.
Proof.
  intros [heaps [(app & ((Ls & Hcr & _) & _) & _) _]]. pose proof Hcr as [(Gs & HG & _) _ _ _ _ _ _]. split; [|apply (hr_cache _ _ _ HG)].
  intros p s Hp. destruct (Inv_ok _ _ _ _ _ _ _ _ (hr_inv _ _ _ HG) Hp). unfold covers. lia.
Qed.

Lemma unknown_descriptor strict A st k : front_inv strict A st -> unknown_page st k -> 0 <= k -> GetDescriptor (heap_of st) k = 0.
Proof.
  intros [heaps [(app & ((Ls & [(Gs & HG & _) _ _ _ _ _ _] & _) & _) & _) _]] [Hno _] Hk.
  destruct (decide (GetDescriptor (heap_of st) k = 0)) as [|Hd]; [done|].
  destruct (g_cover _ _ _ _ _ _ _ (i_geom _ _ _ _ _ _ (hr_inv _ _ _ HG)) k Hk Hd) as (p & s & Hp & Hcv). by destruct (Hno p s Hp).
Qed.

Lemma do_free_unknown strict A th ptr st :
  front_inv strict A st -> unknown_page st (ptr / 8192) -> 0 <= ptr ->
  do_free free_ central_cache_ sm th ptr st = if ptr =? 0 then Ok (tt, st) else Crash.
Proof.
  intros HI Hun Hp. unfold do_free, FrontEnd.do_free_with_callback. erewrite bind_run by reflexivity. cbv zeta.
  rewrite Z.shiftr_div_pow2 by done. change (2 ^ kPageShift) with 8192. destruct Hun as [Hno Hca].
  rewrite Hca, (unknown_descriptor strict A st) by (done || by apply Z.div_pos). simpl. unfold free_null_or_invalid, InvalidFree. by destruct (Z.eqb_spec ptr 0).
Qed.

End FrontOps.
