(* ===== verification/MallocExtSpec.v ===== *)
(** What the inspection and tuning functions promise. *)
From Stdlib Require Import Floats.SpecFloat Strings.String Sorting.Sorted.
From stdpp Require Import sorting.
From S2P Require Import Prelude SizeMap Sampler MallocHook LinkedList Bytes Span PackedCache PageMap SysEnv PageHeap SpanStore.
From S2P Require Import PageHeapInv PageHeapOps PageHeapAlloc PageHeapGrow PageHeapNew PageHeapSpec PageHeapCheck.
From S2P Require Import CentralFreeList CentralInv CentralTables CentralOps CentralPopulate CentralRemove CentralRelease CentralInsert CentralSpec.
From S2P Require Import ThreadCache CachePtr FrontEnd Unsampled CacheInv CacheLimits CacheOps CacheAlloc CacheFree CacheThreads FrontBlocks FrontInv FrontInit FrontOps MallocExt.

(** ** Sums *)

Definition lsum {A} (f : A -> Z) (l : list A) : Z := foldr (fun x acc => f x + acc) 0 l.

Lemma lsum_ext {A} (f g : A -> Z) l : (forall x, x ∈ l -> f x = g x) -> lsum f l = lsum g l.
Proof.
  induction l as [|x l IH]; intros Hf; [done|]. unfold lsum in *. simpl. rewrite (Hf x) by (by left). f_equal. apply IH. intros y Hy. apply Hf. by right.
Qed.

Lemma lsum_add {A} (f g : A -> Z) l : lsum (fun x => f x + g x) l = lsum f l + lsum g l.
Proof. induction l as [|x l IH]; [done|]. unfold lsum in *. simpl. rewrite IH. lia. Qed.

Lemma lsum_mul {A} (f : A -> Z) c l : lsum (fun x => c * f x) l = c * lsum f l.
Proof. induction l as [|x l IH]; unfold lsum in *; simpl; lia. Qed.

Lemma lsum_zero {A} (f : A -> Z) l : (forall x, x ∈ l -> f x = 0) -> lsum f l = 0.
Proof. intros Hf. rewrite (lsum_ext f (fun _ => 0 * 0)) by (intros; by rewrite Hf). by rewrite (lsum_mul (fun _ => 0) 0). Qed.

Lemma lsum_app {A} (f : A -> Z) l k : lsum f (l ++ k) = lsum f l + lsum f k.
Proof. induction l as [|x l IH]; unfold lsum in *; simpl; lia. Qed.

Lemma lsum_fmap {A B} (f : B -> Z) (g : A -> B) l : lsum f (g <$> l) = lsum (fun x => f (g x)) l.
Proof. induction l as [|x l IH]; [done|]. change (lsum f (g <$> x :: l)) with (f (g x) + lsum f (g <$> l)). by rewrite IH. Qed.

Lemma lsum_join {A} (f : A -> Z) (l : list (list A)) : lsum f (mjoin l) = lsum (lsum f) l.
Proof. induction l as [|k l IH]; [done|]. change (mjoin (k :: l)) with (k ++ mjoin l). rewrite lsum_app, IH. done. Qed.

Lemma lsum_const {A} (c : Z) (l : list A) : lsum (fun _ => c) l = Z.of_nat (List.length l) * c.
Proof. induction l as [|x l IH]; unfold lsum in *; [done|]. cbn [foldr List.length]. lia. Qed.

Lemma lsum_swap {A B} (f : A -> B -> Z) l k : lsum (fun x => lsum (f x) k) l = lsum (fun y => lsum (fun x => f x y) l) k.
Proof.
  induction l as [|x l IH]; [by rewrite (lsum_zero _ k)|]. change (lsum (fun x => lsum (f x) k) (x :: l)) with (lsum (f x) k + lsum (fun x => lsum (f x) k) l).
  rewrite IH, <- lsum_add. done.
Qed.

Lemma lsum_nonneg {A} (f : A -> Z) l : (forall x, x ∈ l -> 0 <= f x) -> 0 <= lsum f l.
Proof.
  induction l as [|x l IH]; intros Hf; unfold lsum in *; simpl; [done|]. pose proof (Hf x ltac:(by left)).
  assert (0 <= foldr (fun x acc => f x + acc) 0 l) by (apply IH; intros y Hy; apply Hf; by right). lia.
Qed.

Lemma lsum_one {A} `{!EqDecision A} (c : A) v l : NoDup l -> c ∈ l -> lsum (fun x => if decide (c = x) then v else 0) l = v.
Proof.
  induction l as [|x l IH]; intros Hnd Hc; [by apply not_elem_of_nil in Hc|]. apply NoDup_cons in Hnd as [Hx Hnd].
  unfold lsum in *. simpl. case_decide as Hcx.
  - subst x. assert (lsum (fun x => if decide (c = x) then v else 0) l = 0) as H0; [|unfold lsum in H0; lia].
    apply lsum_zero. intros y Hy. rewrite decide_False; [done|]. by intros ->.
  - apply elem_of_cons in Hc as [|Hc]; [done|]. rewrite IH by done. lia.
Qed.

(** The sum over a map, class by class. *)
Lemma msum_classes {A} (f : Z -> A -> Z) (cls : A -> Z) (l : list Z) (m : gmap Z A) :
  NoDup l -> (forall k x, m !! k = Some x -> f k x <> 0 -> cls x ∈ l) ->
  msum f m = lsum (fun c => msum (fun k x => if decide (cls x = c) then f k x else 0) m) l.
Proof.
  intros Hnd. induction m as [|k x m Hk IH] using map_ind; intros Hc.
  { symmetry. apply lsum_zero. intros c _. apply msum_empty. }
  rewrite msum_insert by done. rewrite (lsum_ext _ (fun c => (if decide (cls x = c) then f k x else 0) + msum (fun k x => if decide (cls x = c) then f k x else 0) m)).
  2:{ intros c _. by rewrite msum_insert. }
  rewrite lsum_add, <- IH.
  2:{ intros j y Hj. apply (Hc j). rewrite lookup_insert_ne; [done|]. intros ->. congruence. }
  f_equal. destruct (decide (f k x = 0)) as [Hz|Hz].
  - rewrite Hz. symmetry. apply lsum_zero. intros c _. by case_decide.
  - symmetry. apply lsum_one; [done|]. apply (Hc k); [|done]. by rewrite lookup_insert_eq.
Qed.

Lemma msum_scale {A} (f : Z -> A -> Z) c (m : gmap Z A) : msum (fun k x => c * f k x) m = c * msum f m.
Proof. induction m as [|k x m Hk IH] using map_ind; [rewrite !msum_empty; lia|]. rewrite !msum_insert by done. lia. Qed.

Lemma msum_filter {A} (f : A -> Z) (Q : A -> Prop) `{!forall x, Decision (Q x)} (m : gmap Z A) :
  msum (fun _ x => if decide (Q x) then f x else 0) m = lsum (fun '(_, x) => f x) (filter (fun kx => Q kx.2) (map_to_list m)).
Proof.
  unfold msum. rewrite map_fold_foldr. generalize (map_to_list m). intros l. induction l as [|[k x] l IH]; [done|].
  cbn [foldr]. rewrite IH, filter_cons. simpl. by destruct (decide (Q x)).
Qed.

(** Congruence modulo the word size. *)
Lemma u64_shift a : exists k, u64 a = a + k * 2 ^ 64.
Proof. exists (- (a / 2 ^ 64)). unfold u64. change 18446744073709551616 with (2 ^ 64). pose proof (Z.div_mod a (2 ^ 64) ltac:(lia)). lia. Qed.

(** ** The traversal of all ranges *)

Section Ranges.
Context {W : Type} {E : Env W} {P : PageMap W} {G : EnvGhost W}.
Context {ens : pm_t -> Z -> Prop} {free_ : Z} (sm : SizeMap).
Context {EL : EnvLaws W} {PL : PageMapLaws MetaDataAlloc P ens} {HLay : HeapLayout free_}.
Context (strict : bool) (h : PageHeap) (HI : Inv ens free_ strict ∅ 0 h).

(** A range and the span it stands for. *)
Definition describes (r : MallocRange) (s : Span) : Prop :=
  range_address r = 8192 * s.(start) /\ range_length r = 8192 * s.(length_) /\ range_type r = range_of s.(location).
Definition earlier (s t : Span) : Prop := s.(start) < t.(start).

(** The spans that start in [page .. page' - 1], in order. *)
Record between (page page' : Z) (ss : list Span) : Prop := {
  bt_sorted : StronglySorted earlier ss;
  bt_elem s : s ∈ ss <-> exists p, h.(spans) !! p = Some s /\ page <= s.(start) < page'
}.

(** The spans from [page] on. *)
Definition remaining (page : Z) : Z := msum (fun _ s => if decide (page <= s.(start)) then 1 else 0) h.(spans).

Lemma remaining_less page p s : h.(spans) !! p = Some s -> page <= s.(start) -> remaining (s.(start) + s.(length_)) < remaining page.
Proof.
  intros Hp Hle. unfold remaining. rewrite !(msum_delete _ h.(spans) p s) by done.
  destruct (Inv_ok _ _ _ _ _ _ _ _ HI Hp) as [_ _ _ _ Hlen _ _]. rewrite (decide_True _ _ Hle), decide_False by lia.
  enough (msum (fun _ t => if decide (s.(start) + s.(length_) <= t.(start)) then 1 else 0) (delete p h.(spans)) <=
    msum (fun _ t => if decide (page <= t.(start)) then 1 else 0) (delete p h.(spans))) by lia.
  apply msum_le. intros q t _. repeat case_decide; lia.
Qed.

Lemma remaining_bound page : 0 <= remaining page <= Z.of_nat (size h.(spans)).
Proof.
  unfold remaining. generalize h.(spans). intros S. induction S as [|p s S Hp IH] using map_ind; [done|].
  rewrite msum_insert, map_size_insert_None by done. case_decide; lia.
Qed.

Lemma between_cons page page' p s ss :
  h.(spans) !! p = Some s -> page <= s.(start) -> (forall q t, h.(spans) !! q = Some t -> page <= t.(start) -> s.(start) <= t.(start)) ->
  s.(start) + s.(length_) <= page' -> between (s.(start) + s.(length_)) page' ss -> between page page' (s :: ss).
Proof.
  intros Hp Hle Hfirst Hpage [Hs He]. destruct (Inv_ok _ _ _ _ _ _ _ _ HI Hp) as [_ _ _ _ Hlen _ _]. split.
  - constructor; [done|]. apply Forall_forall. intros t (q & Hq & Ht)%He. unfold earlier. lia.
  - intros t. rewrite elem_of_cons, He. split.
    + intros [->|(q & Hq & Ht)]; [exists p|exists q]; split; done || lia.
    + intros (q & Hq & Ht). destruct (decide (q = p)) as [->|Hne]; [left; congruence|right]. exists q. split; [done|]. split; [|lia].
      pose proof (Hfirst q t Hq ltac:(lia)). destruct (Z.le_gt_cases (s.(start) + s.(length_)) t.(start)); [done|]. destruct Hne.
      apply (g_disjoint _ _ _ _ _ _ _ (i_geom _ _ _ _ _ _ HI) q p t s t.(start)); [done..| |]; unfold covers; [|lia].
      destruct (Inv_ok _ _ _ _ _ _ _ _ HI Hq); lia.
Qed.

Lemma between_nil page page' : (forall p s, h.(spans) !! p = Some s -> ~ page <= s.(start) < page') -> between page page' [].
Proof. intros Hno. split; [constructor|]. intros s. split; [by intros ?%not_elem_of_nil|]. intros (p & Hp & Hs). by destruct (Hno p s Hp). Qed.

(** One batch. *)
Lemma read_ranges_spec n : forall page, 0 <= page -> boundary h page ->
  exists l page' done ss, read_ranges sm n h page = Ok (l, page', done) /\ Forall2 describes l ss /\ between page page' ss /\
    page <= page' /\ boundary h page' /\ remaining page' + Z.of_nat (List.length l) <= remaining page /\
    if (done : bool) then forall p s, h.(spans) !! p = Some s -> s.(start) < page' else List.length l = n.
Proof.
  induction n as [|n IH]; intros page H0 Hb; cbn [read_ranges].
  { exists [], page, false, []. split; [done|]. split; [constructor|]. split; [apply between_nil; lia|]. split; [lia|]. split; [done|]. split; [simpl; lia|done]. }
  destruct (GetNextRange_next strict h sm page HI H0 Hb) as ([r|] & -> & Hr); simpl.
  - destruct Hr as (p & s & Hp & Hle & Hfirst & Ha & Hl & Hty & Hb').
    destruct (Inv_ok _ _ _ _ _ _ _ _ HI Hp) as [_ _ _ Hst Hlen Hlim _]. assert (page_limit = 2 ^ 35) by done.
    assert (Hnext : Z.shiftr (u64 (u64 (range_address r + range_length r) + kPageSize - 1)) kPageShift = s.(start) + s.(length_)).
    { rewrite Ha, Hl, Z.shiftr_div_pow2 by done. change kPageSize with 8192. change (2 ^ kPageShift) with 8192.
      rewrite (u64_small (8192 * s.(start) + 8192 * s.(length_))) by lia. rewrite u64_small by lia. replace (8192 * s.(start) + 8192 * s.(length_) + 8192 - 1) with ((s.(start) + s.(length_)) * 8192 + 8191) by lia.
      rewrite Z.div_add_l, (Z.div_small 8191); lia. }
    rewrite Hnext. destruct (IH (s.(start) + s.(length_)) ltac:(lia) Hb') as (l & page' & done & ss & -> & Hd & Hbt & Hpp & Hb2 & Hrem & Hend). simpl.
    exists (r :: l), page', done, (s :: ss). pose proof (remaining_less page p s Hp Hle). split; [done|]. split; [by constructor|].
    split; [by apply (between_cons page page' p)|]. split; [lia|]. split; [done|]. split; [cbn [List.length]; lia|].
    destruct done; [done|]. simpl. by rewrite Hend.
  - exists [], page, true, []. split; [done|]. split; [constructor|]. split; [apply between_nil; lia|]. split; [lia|]. split; [done|]. split; [simpl; lia|done].
Qed.

Lemma between_app page page1 page2 ss ss' : page <= page1 -> page1 <= page2 -> between page page1 ss -> between page1 page2 ss' -> between page page2 (ss ++ ss').
Proof.
  intros H1 H2 [Hs He] [Hs' He']. split.
  - apply StronglySorted_app_2; try done. intros s t (p & _ & ?)%He (q & _ & ?)%He'. unfold earlier. lia.
  - intros s. rewrite elem_of_app, He, He'. split.
    + intros [(p & Hp & ?)|(p & Hp & ?)]; exists p; split; done || lia.
    + intros (p & Hp & ?). destruct (Z.lt_ge_cases s.(start) page1); [left|right]; exists p; split; done || lia.
Qed.

Lemma ranges_loop_spec fuel : forall page, 0 <= page -> boundary h page -> remaining page < Z.of_nat fuel ->
  exists l ss page', ranges_loop sm fuel h page = Ok l /\ Forall2 describes l ss /\ between page page' ss /\ page <= page' /\
    forall p s, h.(spans) !! p = Some s -> s.(start) < page'.
Proof.
  induction fuel as [|fuel IH]; intros page H0 Hb Hf; [pose proof (remaining_bound page); lia|]. cbn [ranges_loop].
  destruct (read_ranges_spec kNumRanges page H0 Hb) as (l & page' & done & ss & Hrun & Hd & Hbt & Hpp & Hb' & Hrem & Hend). unfold mbind, result_bind in *. rewrite Hrun.
  destruct done; [by exists l, ss, page'|]. rewrite Hend in Hrem. unfold kNumRanges in Hrem.
  destruct (IH page' ltac:(lia) Hb' ltac:(lia)) as (l' & ss' & page2 & Hrun' & Hd' & Hbt' & Hpp' & Hall). rewrite Hrun'.
  exists (l ++ l'), (ss ++ ss'), page2. split; [done|]. split; [by apply Forall2_app|]. split; [by eapply between_app|]. split; [lia|done].
Qed.
End Ranges.

Section MallocExtSpec.
Context {W : Type} {E : Env W} {P : PageMap W} {G : EnvGhost W} {C : CacheEnv W} {MS : MetaStats W}.
Context {ens : pm_t -> Z -> Prop} {free_ central_cache_ : Z} {sm : SizeMap}.
Context {EL : EnvLaws W} {CL : CacheEnvLaws W} {PL : PageMapLaws MetaDataAlloc P ens} {HLay : HeapLayout free_}.
Context (Hsm : size_map_ok sm) {CLay : CentralLayout (free_ := free_) (central_cache_ := central_cache_) (sm := sm)}.
Context (hash : Z -> Z).

Implicit Types (st : Front) (cs : Caches) (a c : Z) (A : gmap Z Z) (th : Thread).

Abbreviation nclasses := (num_size_classes sm).
Abbreviation bytes := (ByteSizeForClass sm).
Abbreviation front_inv := (front_inv (ens := ens) (free_ := free_) (central_cache_ := central_cache_) (sm := sm) hash).
Abbreviation crep := (crep (ens := ens) (free_ := free_) (central_cache_ := central_cache_) (sm := sm)).
Abbreviation central_ok := (central_ok (ens := ens) (free_ := free_) (central_cache_ := central_cache_) (sm := sm)).
#[local] Existing Instance pinned_EL.
#[local] Existing Instance pinned_HLay.
#[local] Existing Instance pinned_CLay.
Abbreviation spans_of cs := (cs.(heap).(pageheap).(spans)).

(** ** Bytes, class by class *)

Definition classes : list Z := seqZ 0 nclasses.

(** The pages of a kind of span in use. *)
Definition class_pages (c : Z) (S : gmap Z Span) : Z :=
  msum (fun _ s => if decide (s.(location) = IN_USE /\ s.(sizeclass) = c) then s.(length_) else 0) S.

Lemma total_split strict T Gs (h : Heap) :
  central_ok strict T Gs h ->
  span_total h.(pageheap).(spans) = span_free ∅ ON_NORMAL_FREELIST h.(pageheap).(spans) +
    span_free ∅ ON_RETURNED_FREELIST h.(pageheap).(spans) + lsum (fun c => class_pages c h.(pageheap).(spans)) classes.
Proof.
  intros HG. set (S := h.(pageheap).(spans)).
  assert (Hc : msum (fun _ s => if decide (s.(location) = IN_USE) then s.(length_) else 0) S = lsum (fun c => class_pages c S) classes).
  { rewrite (msum_classes _ sizeclass classes); [|apply NoDup_seqZ|].
    - apply lsum_ext. intros c _. apply msum_ext. intros p s _. by repeat case_decide; try tauto.
    - intros p s Hp Hn. case_decide as Hl; [|done]. pose proof (hr_classes _ _ _ HG p s Hp Hl). apply elem_of_seqZ. lia. }
  rewrite <- Hc. unfold span_total, span_free. rewrite <- !msum_add. apply msum_ext. intros p s _. unfold len_of, free_of.
  destruct (s.(location)); repeat case_decide; try done; try lia; set_solver.
Qed.

(** The spans of a class. *)
Lemma class_pages_eq strict T Gs (h : Heap) c :
  central_ok strict T Gs h -> 1 <= c < nclasses ->
  class_pages c h.(pageheap).(spans) = Z.of_nat (List.length (g_spans (Gs c))) * class_to_pages sm c.
Proof.
  intros HG Hc. pose proof (hr_central _ _ _ HG c ltac:(lia)) as Hcr. unfold class_pages.
  rewrite (msum_list _ (fun _ => class_to_pages sm c) (fun p => p) (g_spans (Gs c))).
  - apply (lsum_const (class_to_pages sm c)).
  - rewrite list_fmap_id. apply Hcr.
  - intros p Hp. destruct (proj1 (cr_spans _ _ _ Hcr p) Hp) as (Hc0 & s & Hs). exists s. split; [apply Hs|].
    rewrite decide_True by (split; apply Hs). apply (sr_length _ _ _ _ _ (cr_span _ _ _ Hcr p s Hc0 Hs)).
  - intros p s Hp. rewrite list_fmap_id. intros Hno. rewrite decide_False; [done|]. intros [Hl Hcl]. apply Hno.
    apply (cr_spans _ _ _ Hcr). split; [lia|]. by exists s.
Qed.

(** The bytes of a class: free in spans or in the transfer cache, lost at the ends of spans, or outside. *)
Lemma class_bytes strict T Gs (h : Heap) c :
  central_ok strict T Gs h -> 1 <= c < nclasses -> (cfl h c).(counter_) < 2 ^ 31 ->
  8192 * class_pages c h.(pageheap).(spans) =
    (bytes c * CFL_length h c + OverheadBytes sm h c) + bytes c * tc_length sm h c + bytes c * Z.of_nat (size (g_out (Gs c))) /\
  0 <= CFL_length h c < 2 ^ 31 /\ 0 <= tc_length sm h c < 2 ^ 31.
Proof.
  intros HG Hc Hcnt. pose proof (hr_central _ _ _ HG c ltac:(lia)) as Hcr.
  destruct (objects_count (G := pinned T) Hsm strict Gs h c HG Hc) as (Hn & Hsp & Hct). rewrite (class_pages_eq strict T Gs h c HG Hc).
  destruct (smo_size _ Hsm c Hc) as [Hb Hb2], (smo_pages _ Hsm c Hc) as [Hp Hp2], (smo_move _ Hsm c Hc) as [Hm Hm2].
  pose proof (cr_used _ _ _ Hcr). pose proof (cr_size _ _ _ Hcr). pose proof (cr_max _ _ _ Hcr) as Hmax. unfold kMaxNumTransferEntries in Hmax.
  pose proof (cr_class _ _ _ Hcr) as Hcl. pose proof (cr_num _ _ _ Hcr) as Hnum.
  assert (Hlen : Z.of_nat (List.length (g_spans (Gs c))) = (cfl h c).(num_spans_)).
  { rewrite Hnum, u64_small; [done|]. pose proof (spans_bound (G := pinned T) strict Gs h c HG Hc). lia. }
  assert (Ht : tc_length sm h c = (cfl h c).(used_slots_) * num_objects_to_move sm c) by (unfold tc_length; apply i32_small; nia).
  assert (Hl : CFL_length h c = (cfl h c).(counter_)) by (unfold CFL_length; apply i32_small; lia).
  rewrite Ht, Hl, Hlen. split; [|split; [lia|nia]].
  unfold OverheadBytes. rewrite Hcl. destruct (Z.eqb_spec c 0); [lia|]. cbv zeta.
  rewrite (u64_small (class_to_pages sm c * kPageSize)) by (unfold kPageSize; consts; lia).
  change (class_to_size sm c) with (bytes c). unfold kPageSize. change (Z.shiftl 1 kPageShift) with 8192.
  pose proof (Z.div_mod (class_to_pages sm c * 8192) (bytes c) ltac:(lia)). pose proof (Z.mod_pos_bound (class_to_pages sm c * 8192) (bytes c) ltac:(lia)).
  assert (Hk : kMaxSize = 262144) by done. rewrite Hk in *. set (r := (class_to_pages sm c * 8192) mod bytes c) in *.
  rewrite u64_small by (split; [nia|]; transitivity (2 ^ 35 * 262144); [nia|lia]). nia.
Qed.
(** ** Objects in the caches *)

Definition in_caches (heaps : list Z) (Ls : Z -> Z -> list Z) (c : Z) : list Z := mjoin ((fun p => Ls p c) <$> heaps).

Lemma NoDup_in_caches strict (heaps : list Z) app Ls cs c :
  crep strict (list_to_set heaps) app Ls 0 0 cs -> NoDup heaps -> 0 <= c < nclasses -> NoDup (in_caches heaps Ls c).
Proof.
  intros Hrep Hnd Hc. apply NoDup_join_fmap; [done| |].
  - intros p Hp. assert (HpT : p ∈ dom cs.(tcs)) by (rewrite (cs_dom _ _ _ _ _ _ _ Hrep); set_solver).
    apply elem_of_dom in HpT as [t Ht]. by destruct (lr_list _ _ _ _ (cs_list _ _ _ _ _ _ _ Hrep p t c Ht Hc)) as [_ Hl].
  - intros p q x Hp Hq. apply (cs_apart _ _ _ _ _ _ _ Hrep p q c x); set_solver.
Qed.

(** What is outside the central list is in a cache or with the application. *)
Lemma out_split strict (heaps : list Z) app Ls cs Gs c :
  crep strict (list_to_set heaps) app Ls 0 0 cs -> NoDup heaps -> 0 <= c < nclasses ->
  (forall x, x ∈ g_out (Gs c) <-> x ∈ app c \/ exists p, p ∈ (list_to_set heaps : gset Z) /\ x ∈ Ls p c) ->
  Z.of_nat (size (g_out (Gs c))) = Z.of_nat (size (app c)) + lsum (fun p => Z.of_nat (List.length (Ls p c))) heaps.
Proof.
  intros Hrep Hnd Hc Hout. pose proof (NoDup_in_caches _ _ _ _ _ _ Hrep Hnd Hc) as Hl.
  assert (Heq : g_out (Gs c) = app c ∪ list_to_set (in_caches heaps Ls c)).
  { apply set_eq. intros x. rewrite Hout, elem_of_union, elem_of_list_to_set. unfold in_caches. rewrite elem_of_join_fmap.
    setoid_rewrite elem_of_list_to_set. done. }
  rewrite Heq, size_union, Nat2Z.inj_add.
  - rewrite size_list_to_set by done. unfold in_caches. by rewrite length_join_fmap.
  - intros x Hx Hin. apply elem_of_list_to_set, elem_of_join_fmap in Hin as (p & Hp & Hxp).
    apply (cs_app _ _ _ _ _ _ _ Hrep p c x); try done. set_solver.
Qed.

(** The bytes a cache holds. *)
Definition cache_bytes (t : ThreadCache) : Z := lsum (fun c => (list_at t c).(fl_length) * bytes c) classes.

Lemma cache_bytes_eq strict T app Ls cs p t :
  crep strict T app Ls 0 0 cs -> cs.(tcs) !! p = Some t -> cache_bytes t = lsum (fun c => Z.of_nat (List.length (Ls p c)) * bytes c) classes.
Proof.
  intros Hrep Ht. apply lsum_ext. intros c Hc%elem_of_seqZ. f_equal. apply (lr_length _ _ _ _ (cs_list _ _ _ _ _ _ _ Hrep p t c Ht ltac:(lia))).
Qed.

Lemma size_eq strict T app Ls cs p t :
  crep strict T app Ls 0 0 cs -> cs.(tcs) !! p = Some t -> cache_bytes t < 2 ^ 31 -> t.(size_) = cache_bytes t /\ 0 <= cache_bytes t.
Proof.
  intros Hrep Ht Hb. pose proof (cache_bytes_eq _ _ _ _ _ _ _ Hrep Ht) as Heq.
  assert (H0 : 0 <= cache_bytes t).
  { rewrite Heq. apply lsum_nonneg. intros c Hc%elem_of_seqZ. destruct (decide (c = 0)) as [->|].
    - change (bytes 0) with (class_to_size sm 0). rewrite (smo_zero _ Hsm). lia.
    - destruct (smo_size _ Hsm c ltac:(lia)). nia. }
  split; [|done]. rewrite (cs_size _ _ _ _ _ _ _ Hrep p t Ht).
  change (lists_bytes sm (Ls p)) with (lsum (fun c => Z.of_nat (List.length (Ls p c)) * bytes c) classes). rewrite <- Heq.
  replace (if decide (p = 0) then 0 else 0) with 0 by (by case_decide). rewrite Z.add_0_r. apply i32_small. lia.
Qed.

(** The walk over the caches. *)
Lemma stats_loop_eq (m : gmap Z ThreadCache) (f : Z -> Z) (heaps : list Z) : forall prev hd fuel total count,
  tchain m prev hd heaps -> (List.length heaps < fuel)%nat -> 0 <= total -> total + lsum f heaps < 2 ^ 64 ->
  (forall p t, p ∈ heaps -> m !! p = Some t -> t.(size_) = f p /\ 0 <= f p) ->
  exists count', stats_loop fuel m hd total count = Ok (total + lsum f heaps, count').
Proof.
  induction heaps as [|p heaps IH]; intros prev hd fuel total count Hch Hf H0 Hlt Hsz; (destruct fuel as [|fuel]; [simpl in Hf; lia|]); cbn [stats_loop].
  - simpl in Hch. subst hd. simpl. eexists. unfold lsum. simpl. by rewrite Z.add_0_r.
  - destruct Hch as (-> & Hp0 & t & Ht & _ & Hch). destruct (Z.eqb_spec p 0); [done|]. rewrite Ht.
    destruct (Hsz p t ltac:(by left) Ht) as [Hs Hb]. change (lsum f (p :: heaps)) with (f p + lsum f heaps) in *.
    assert (Hrest : 0 <= lsum f heaps).
    { apply lsum_nonneg. intros q Hq. destruct (tchain_elem _ _ _ _ q Hch Hq) as (_ & u & Hu). by destruct (Hsz q u ltac:(by right) Hu). }
    rewrite Hs, (u64_small (f p)), (u64_small (total + f p)), Z.add_assoc by lia.
    apply (IH p); [done|simpl in Hf; lia|lia|lia|]. intros q u Hq. apply Hsz. by right.
Qed.

Lemma extract_classes_eq (h : Heap) (f g : Z -> Z) l : forall central transfer count,
  (forall c, c ∈ l -> bytes c * u64 (CFL_length h c) + OverheadBytes sm h c = f c /\ bytes c * u64 (tc_length sm h c) = g c /\ 0 <= f c /\ 0 <= g c) ->
  0 <= central -> central + lsum f l < 2 ^ 64 -> 0 <= transfer -> transfer + lsum g l < 2 ^ 64 ->
  exists count', extract_classes sm l h central transfer count = (central + lsum f l, transfer + lsum g l, count').
Proof.
  induction l as [|c l IH]; intros central transfer count Hf H0 H1 H2 H3; cbn [extract_classes].
  - eexists. unfold lsum. simpl. by rewrite !Z.add_0_r.
  - destruct (Hf c ltac:(by left)) as (Hfc & Hgc & Hf0 & Hg0). cbv zeta. change (lsum ?f (c :: l)) with (f c + lsum f l) in *.
    assert (0 <= lsum f l /\ 0 <= lsum g l) as [? ?] by (split; apply lsum_nonneg; intros d Hd; apply (Hf d); by right).
    rewrite Hfc, Hgc, !u64_small, !Z.add_assoc by lia. apply IH; try lia. intros d Hd. apply Hf. by right.
Qed.

(** ** Blocks *)

Definition blocks_bytes A : Z := msum (fun _ n => n) A.

Definition large_spans (S : gmap Z Span) : list (Z * Span) :=
  filter (fun ps => ps.2.(location) = IN_USE /\ ps.2.(sizeclass) = 0) (map_to_list S).
Definition block_list (app : Z -> gset Z) (S : gmap Z Span) : list (Z * Z) :=
  mjoin ((fun c => (fun x => (x, bytes c)) <$> elements (app c)) <$> seqZ 1 (nclasses - 1)) ++
  ((fun ps => (ps.2.(start) * 8192, ps.2.(length_) * 8192)) <$> large_spans S).

Lemma elem_of_large S p s : (p, s) ∈ large_spans S <-> S !! p = Some s /\ s.(location) = IN_USE /\ s.(sizeclass) = 0.
Proof. unfold large_spans. rewrite list_elem_of_filter, elem_of_map_to_list. simpl. tauto. Qed.

Lemma elem_of_block_list app cs a n : (a, n) ∈ block_list app (spans_of cs) <-> small_block (sm := sm) app a n \/ large_block cs a n.
Proof.
  unfold block_list. rewrite elem_of_app, list_elem_of_join. f_equiv.
  - split.
    + intros (l & Hx & Hl). apply list_elem_of_fmap in Hl as (c & -> & Hc%elem_of_seqZ). apply list_elem_of_fmap in Hx as (x & [= -> ->] & Hx%elem_of_elements).
      exists c. split_and!; done || lia.
    + intros (c & Hc & Ha & ->). exists ((fun x => (x, bytes c)) <$> elements (app c)). split.
      * apply list_elem_of_fmap. exists a. split; [done|by apply elem_of_elements].
      * apply list_elem_of_fmap. exists c. split; [done|]. apply elem_of_seqZ. lia.
  - rewrite list_elem_of_fmap. split.
    + intros ([p s] & [= -> ->] & (Hp & Hl & Hc)%elem_of_large). exists p, s. done.
    + intros (p & s & Hp & Hl & Hc & -> & ->). exists (p, s). split; [done|]. by apply elem_of_large.
Qed.

Lemma fmap_join_fmap {X Y B} (f : Y -> B) (g : X -> list Y) l : f <$> mjoin (g <$> l) = mjoin ((fun x => f <$> g x) <$> l).
Proof.
  induction l as [|x l IH]; [done|]. change (mjoin (g <$> x :: l)) with (g x ++ mjoin (g <$> l)). rewrite fmap_app, IH. done.
Qed.

Lemma fst_pairs {X} (b : X) (l : list Z) : ((fun x => (x, b)) <$> l).*1 = l.
Proof. induction l as [|x l IH]; [done|]. cbn. by rewrite IH. Qed.

Lemma NoDup_block_list strict T app Ls cs : crep strict T app Ls 0 0 cs -> NoDup ((block_list app (spans_of cs)).*1).
Proof.
  intros Hrep. unfold block_list. rewrite fmap_app. apply NoDup_app. split_and!.
  - rewrite fmap_join_fmap. apply NoDup_join_fmap; [apply NoDup_seqZ| |].
    + intros c _. rewrite fst_pairs. apply NoDup_elements.
    + intros c d x Hc%elem_of_seqZ Hd%elem_of_seqZ. rewrite !fst_pairs, !elem_of_elements.
      apply (app_class Hsm _ _ _ _ _ _ _ _ _ _ Hrep); lia.
  - intros x Hx Hy. apply list_elem_of_fmap in Hx as ([x1 n] & -> & Hx), Hy as ([x2 m] & Heq & Hy). simpl in Heq. subst x2.
    apply list_elem_of_join in Hx as (l & Hx & Hl). apply list_elem_of_fmap in Hl as (c & -> & Hc%elem_of_seqZ).
    apply list_elem_of_fmap in Hx as (x & [= -> ->] & Hx%elem_of_elements). apply list_elem_of_fmap in Hy as ([p s] & [= -> ->] & (Hp & Hl & Hz)%elem_of_large).
    apply (app_not_large Hsm _ _ _ _ _ _ _ c (s.(start) * 8192) p s Hrep ltac:(lia) Hx Hp Hl Hz). rewrite Z.div_mul by lia.
    destruct (Inv_ok _ _ _ _ _ _ _ _ (crep_Inv _ _ _ _ _ _ _ Hrep) Hp) as [_ _ _ ? ? _ _]. unfold covers. lia.
  - rewrite <- list_fmap_compose. apply NoDup_fmap_2_strong.
    + intros [p s] [q t] (Hp & _)%elem_of_large (Hq & _)%elem_of_large. unfold compose. simpl. intros Heq.
      assert (p = q) as <-; [|congruence]. apply (geom_start_inj _ _ _ _ _ _ _ p q s t (i_geom _ _ _ _ _ _ (crep_Inv _ _ _ _ _ _ _ Hrep))); done || lia.
    + unfold large_spans. apply NoDup_filter, NoDup_map_to_list.
Qed.

(** The bytes of the blocks: the objects of each class, and the large spans. *)
Lemma blocks_bytes_eq strict T app Ls cs A : crep strict T app Ls 0 0 cs -> shows (sm := sm) app cs A ->
  blocks_bytes A = lsum (fun c => Z.of_nat (size (app c)) * bytes c) (seqZ 1 (nclasses - 1)) + 8192 * class_pages 0 (spans_of cs).
Proof.
  intros Hrep HA. unfold blocks_bytes. rewrite (msum_list _ snd fst (block_list app (spans_of cs))).
  - change (foldr _ 0 ?l) with (lsum snd l). unfold block_list. rewrite lsum_app, lsum_join, !lsum_fmap. f_equal.
    + apply lsum_ext. intros c _. rewrite lsum_fmap. simpl. apply lsum_const.
    + unfold class_pages. rewrite (msum_filter length_ (fun s => s.(location) = IN_USE /\ s.(sizeclass) = 0)), <- lsum_mul. simpl. apply lsum_ext.
      intros [p s] _. simpl. lia.
  - by apply (NoDup_block_list strict T app Ls).
  - intros [a n] Ha%elem_of_block_list. exists n. split; [by apply HA|done].
  - intros a n Ha Hno. destruct Hno. apply list_elem_of_fmap. exists (a, n). split; [done|]. by apply elem_of_block_list, HA.
Qed.

(** ** The books balance *)

(** The counters of type [int] have not wrapped: no cache holds 2 GiB and no class has
    [2^31] free objects. *)
Definition small_counts st : Prop :=
  (forall p t, st.(thread_caches).(tcs) !! p = Some t -> cache_bytes t < 2 ^ 31) /\
  (forall c, 1 <= c < nclasses -> (cfl (central_of st) c).(counter_) < 2 ^ 31).

Definition counts_small st : bool :=
  forallb (fun pt => cache_bytes pt.2 <? 2 ^ 31) (map_to_list st.(thread_caches).(tcs)) &&
  forallb (fun c => (cfl (central_of st) c).(counter_) <? 2 ^ 31) (seqZ 1 (nclasses - 1)).

Lemma counts_small_ok st : small_counts st <-> counts_small st = true.
Proof.
  unfold small_counts, counts_small. rewrite andb_true_iff, !forallb_forall. f_equiv.
  - split.
    + intros H [p t] Ht%list_elem_of_In%elem_of_map_to_list. by apply Z.ltb_lt, (H p).
    + intros H p t Ht. apply Z.ltb_lt, (H (p, t)). by apply list_elem_of_In, elem_of_map_to_list.
  - split.
    + intros H c Hc%list_elem_of_In%elem_of_seqZ. apply Z.ltb_lt, H. lia.
    + intros H c Hc. apply Z.ltb_lt, H, list_elem_of_In, elem_of_seqZ. lia.
Qed.

(** Pages that came from the system and belong to no span: the page map had no memory for
    them. *)
Definition leaked st (lk : gset Z) : Prop :=
  lk ⊆ taken (heap_of st).(world) /\ forall p s k, (heap_of st).(spans) !! p = Some s -> covers s k -> k ∉ lk.

Definition books st A (s : TCMallocStats) (lk : gset Z) : Prop :=
  s.(stats_pageheap) = stats_of st /\ 0 <= s.(thread_bytes) /\ 0 <= s.(central_bytes) /\ 0 <= s.(transfer_bytes) /\
  0 <= (stats_of st).(free_bytes) /\ 0 <= (stats_of st).(unmapped_bytes) /\ 0 <= blocks_bytes A /\
  (stats_of st).(system_bytes) < 2 ^ 48 /\
  (stats_of st).(system_bytes) = s.(thread_bytes) + s.(central_bytes) + s.(transfer_bytes) +
    (stats_of st).(free_bytes) + (stats_of st).(unmapped_bytes) + blocks_bytes A + 8192 * Z.of_nat (size lk).

(** All bytes of the classes. *)
Lemma classes_balance strict (heaps : list Z) app Ls cs A Gs (h := cs.(heap)) :
  crep strict (list_to_set heaps) app Ls 0 0 cs -> NoDup heaps -> central_ok strict (list_to_set heaps) Gs h ->
  (forall c x, 0 <= c < nclasses -> x ∈ g_out (Gs c) <-> x ∈ app c \/ exists p, p ∈ (list_to_set heaps : gset Z) /\ x ∈ Ls p c) ->
  shows (sm := sm) app cs A -> (forall c, 1 <= c < nclasses -> (cfl h c).(counter_) < 2 ^ 31) ->
  8192 * lsum (fun c => class_pages c (spans_of cs)) classes =
    lsum (fun c => bytes c * CFL_length h c + OverheadBytes sm h c) classes + lsum (fun c => bytes c * tc_length sm h c) classes +
    lsum (fun p => lsum (fun c => Z.of_nat (List.length (Ls p c)) * bytes c) classes) heaps + blocks_bytes A.
Proof.
  intros Hrep Hnd HG Hout HA Hcnt. rewrite lsum_swap, (blocks_bytes_eq _ _ _ _ _ _ Hrep HA), <- lsum_mul. pose proof (smo_num _ Hsm).
  assert (Hcl : classes = 0 :: seqZ 1 (nclasses - 1)).
  { unfold classes. rewrite seqZ_cons by lia. f_equal. }
  assert (H0 : bytes 0 = 0) by apply (smo_zero _ Hsm).
  assert (Ho : OverheadBytes sm h 0 = 0).
  { unfold OverheadBytes. by rewrite (cr_class _ _ _ (hr_central _ _ _ HG 0 ltac:(lia))). }
  rewrite Hcl. change (lsum ?f (0 :: ?l)) with (f 0 + lsum f l). cbv beta. rewrite H0, Ho, (lsum_zero (fun p => _ * 0)) by (intros; lia).
  enough (lsum (fun c => 8192 * class_pages c (spans_of cs)) (seqZ 1 (nclasses - 1)) =
    lsum (fun c => bytes c * CFL_length h c + OverheadBytes sm h c) (seqZ 1 (nclasses - 1)) + lsum (fun c => bytes c * tc_length sm h c) (seqZ 1 (nclasses - 1)) +
    lsum (fun c => lsum (fun p => Z.of_nat (List.length (Ls p c)) * bytes c) heaps) (seqZ 1 (nclasses - 1)) +
    lsum (fun c => Z.of_nat (size (app c)) * bytes c) (seqZ 1 (nclasses - 1))) by lia.
  rewrite <- !lsum_add. apply lsum_ext. intros c Hc%elem_of_seqZ.
  destruct (class_bytes strict _ Gs h c HG ltac:(lia) (Hcnt c ltac:(lia))) as (Hcp & _). change (spans_of cs) with h.(pageheap).(spans). rewrite Hcp.
  rewrite (out_split strict heaps app Ls cs Gs c Hrep Hnd ltac:(lia)) by (intros x; apply Hout; lia).
  rewrite (lsum_ext (fun p => _ * bytes c) (fun p => bytes c * Z.of_nat (List.length (Ls p c)))) by (intros; lia).
  rewrite lsum_mul. lia.
Qed.

Lemma ExtractStats_books strict A st : front_inv strict A st -> small_counts st ->
  exists s count lk, ExtractStats sm st = Ok (s, count) /\ leaked st lk /\ books st A s lk.
Proof.
  intros (heaps & (app & ((Ls & Hrep & _) & Hbu & _) & HA) & Hth) [Hcb Hcc]. set (cs := st.(thread_caches)) in *.
  pose proof Hrep as [(Gs & HG & Hout) Hdom _ _ _ _ _]. pose proof (crep_Inv _ _ _ _ _ _ _ Hrep) as HI.
  assert (Hnd : NoDup heaps) by apply (bu_nodup _ _ Hbu).
  pose proof (classes_balance strict heaps app Ls cs A Gs Hrep Hnd HG Hout HA Hcc) as Hbal.
  pose proof (total_split strict _ Gs cs.(heap) HG) as Htot. destruct (i_system _ _ _ _ _ _ HI) as (lk & Hlk & Hno & Hsys).
  pose proof (Inv_total _ _ _ _ _ _ lk HI Hlk Hno) as Hbound.
  assert (Hcls : forall c, c ∈ classes -> bytes c * u64 (CFL_length cs.(heap) c) = bytes c * CFL_length cs.(heap) c /\
    bytes c * u64 (tc_length sm cs.(heap) c) = bytes c * tc_length sm cs.(heap) c /\
    0 <= bytes c * CFL_length cs.(heap) c + OverheadBytes sm cs.(heap) c /\ 0 <= bytes c * tc_length sm cs.(heap) c).
  { intros c Hc%elem_of_seqZ. assert (Ho : 0 <= OverheadBytes sm cs.(heap) c).
    { unfold OverheadBytes. case_match; [done|]. apply Z.mod_pos_bound. lia. }
    destruct (decide (c = 0)) as [->|Hc0]; [change (bytes 0) with (class_to_size sm 0); rewrite (smo_zero _ Hsm); lia|].
    destruct (class_bytes strict _ Gs cs.(heap) c HG ltac:(lia) (Hcc c ltac:(lia))) as (_ & H1 & H2). destruct (smo_size _ Hsm c ltac:(lia)).
    rewrite !u64_small by lia. split_and!; try done; nia. }
  assert (Hcache : forall p t, p ∈ heaps -> cs.(tcs) !! p = Some t -> t.(size_) = lsum (fun c => Z.of_nat (List.length (Ls p c)) * bytes c) classes /\
    0 <= lsum (fun c => Z.of_nat (List.length (Ls p c)) * bytes c) classes).
  { intros p t _ Ht. rewrite <- (cache_bytes_eq _ _ _ _ _ _ _ Hrep Ht). by apply (size_eq _ _ _ _ _ _ _ Hrep Ht), (Hcb p). }
  set (F := lsum (fun c => bytes c * CFL_length cs.(heap) c + OverheadBytes sm cs.(heap) c) classes) in *.
  set (X := lsum (fun c => bytes c * tc_length sm cs.(heap) c) classes) in *.
  set (Y := lsum (fun p => lsum (fun c => Z.of_nat (List.length (Ls p c)) * bytes c) classes) heaps) in *.
  assert (HF : 0 <= F) by (apply lsum_nonneg; intros c Hc; by apply Hcls).
  assert (HX : 0 <= X) by (apply lsum_nonneg; intros c Hc; by apply Hcls).
  assert (HY : 0 <= Y).
  { apply lsum_nonneg. intros p Hp. destruct (tchain_elem _ _ _ _ p (bu_chain _ _ Hbu) Hp) as (_ & t & Ht). by apply (Hcache p t). }
  assert (HB : 0 <= blocks_bytes A).
  { apply msum_nonneg. intros a n Ha. destruct (block_span Hsm _ _ _ _ _ _ _ _ _ _ Hrep HA Ha) as (? & ? & _ & _ & _ & _ & _ & _ & ? & _). lia. }
  assert (Hlen : forall p s, (spans_of cs) !! p = Some s -> 0 <= s.(length_)) by (intros p s Hp; destruct (Inv_ok _ _ _ _ _ _ _ _ HI Hp); lia).
  pose proof (free_le_total ∅ ON_NORMAL_FREELIST _ Hlen). pose proof (free_le_total ∅ ON_RETURNED_FREELIST _ Hlen).
  destruct (extract_classes_eq cs.(heap) (fun c => bytes c * CFL_length cs.(heap) c + OverheadBytes sm cs.(heap) c) (fun c => bytes c * tc_length sm cs.(heap) c) classes 0 0 (fun _ => 0))
    as [count Hext]; [intros c Hc; destruct (Hcls c Hc) as (-> & -> & ? & ?); by split_and!|fold F; fold X; lia..|].
  destruct (stats_loop_eq cs.(tcs) (fun p => lsum (fun c => Z.of_nat (List.length (Ls p c)) * bytes c) classes) heaps 0 cs.(thread_heaps_) (S (size cs.(tcs))) 0 count)
    as [count' Hst]; [by apply (bu_chain _ _ Hbu)| |done|fold Y; lia|done|].
  { rewrite <- size_dom, Hdom, size_list_to_set by done. lia. }
  exists (mkTCMallocStats Y F X (metadata_system_bytes (heap_of st).(world)) (stats_of st)), count', lk. split; [|split; [by split|]].
  - unfold ExtractStats, central_of. fold cs classes. rewrite Hext. unfold GetThreadStats. fold Y in Hst. fold cs. by rewrite Hst.
  - pose proof (i_free _ _ _ _ _ _ HI). pose proof (i_unmapped _ _ _ _ _ _ HI). unfold books, stats_of, heap_of. fold cs. simpl. split_and!; try done; lia.
Qed.

(** ** Tuning *)

Context (Hlo : lookup_ok sm) (sampled_objects_ : Z).
Context (sample_parameter : Z) (log2 : spec_float -> spec_float) (log_2 : spec_float) (Hsample : sample_parameter <= 0).
Context (GrabBacktrace : Thread -> list Z).
Abbreviation front_rep := (front_rep (ens := ens) (free_ := free_) (central_cache_ := central_cache_) (sm := sm) hash).
Abbreviation MarkThreadBusy := (MarkThreadBusy free_ central_cache_ sampled_objects_ sm sample_parameter log2 log_2 hash GrabBacktrace).
Abbreviation MarkThreadIdle := (MarkThreadIdle free_ central_cache_ sm).

(** [MarkThreadIdle] does what the end of the thread does. *)
Lemma mark_idle_run strict heaps A th st : front_rep strict heaps A st -> MarkThreadIdle th st = thread_exit free_ central_cache_ sm th st.
Proof.
  intros Hrep. pose proof Hrep as [_ Hth]. pose proof (to_fast _ _ _ Hth) as Hf.
  unfold MallocExt.MarkThreadIdle, ReleaseAndClear, thread_exit, ClearCacheTLS, mbind, M_bind, get_state, modify. simpl.
  destruct (Z.eqb_spec (GetIfPresent th st) 0) as [Hp|Hp]; simpl.
  - pose proof (absent_owns hash strict heaps A st th Hrep Hp) as Hno. rewrite Hno, Hp. simpl. unfold upd_tls. rewrite delete_id by done. by destruct st.
  - destruct (present_owns hash strict heaps A st th Hrep Hp) as [Hc _]. rewrite Hc. simpl.
    destruct (Z.eqb_spec (GetIfPresent th st) 0); done.
Qed.

(** The calls that tune the allocator. *)
Inductive tuning := Idle (th : Thread) | Busy (th : Thread) | Release (num_bytes : Z).
Definition tune (x : tuning) : M Front unit :=
  match x with
  | Idle th => MarkThreadIdle th
  | Busy th => MarkThreadBusy th
  | Release n => ReleaseToSystem free_ n
  end.
Definition tune_ok (x : tuning) st : Prop :=
  match x with
  | Idle _ => st.(thread_caches).(thread_heap_count_) < 2 ^ 31
  | Busy th => ready hash th st
  | Release n => 0 <= n < 2 ^ 64
  end.

Lemma steady_front_caches {B} F (m : M Caches B) : steady (fun st => st.(fast_path_cache) = F) (on_caches m).
Proof. intros st b st' Hst. unfold on_caches. simpl. destruct (m st.(thread_caches)) as [[x cs]| | |]; try done. by intros [= _ <-]. Qed.

#[local] Hint Resolve steady_front_caches : steady.

Lemma steady_do_free F th ptr : steady (fun st => st.(fast_path_cache) = F) (do_free free_ central_cache_ sm th ptr).
Proof.
  unfold do_free, do_free_with_callback, do_free_pages, free_null_or_invalid, InvalidFree, set_memory, on_pageheap.
  solve_steady; intros s b s' Hs; simpl; (destruct (check _); try done); by intros [= _ <-].
Qed.

Lemma wp_MarkThreadBusy strict A th st : front_inv strict A st -> ready hash th st ->
  wp (MarkThreadBusy th) (fun _ st' => front_inv strict A st' /\ contents A ∅ (memory_of st) (memory_of st') /\ settings st' = settings st /\
    exists c, has_cache th st' c) st.
Proof.
  intros HI Hready. unfold MallocExt.MarkThreadBusy. apply wp_bind.
  eapply wp_mono; [by apply (wp_do_malloc Hsm Hlo sampled_objects_ sample_parameter log2 log_2 Hsample hash GrabBacktrace strict A th 0 st)|].
  intros p st1 (Hct & Hset & (c & Hc) & Hp). case_decide as Hp0.
  - subst p. destruct Hp as [HI1 _]. unfold wp. rewrite (do_free_unknown hash strict A th 0 st1 HI1 (null_page hash strict A st1 HI1) ltac:(done)). simpl. eauto.
  - destruct Hp as (_ & Hno & HI1). eapply wp_mono; [apply (wp_steady (fun st => st.(fast_path_cache) = st1.(fast_path_cache))); [apply steady_do_free|done|]|].
    { eapply (wp_do_free Hsm hash strict (<[p := tc_nallocx sm (heap_of st) 0 0]> A) th p); [|by rewrite lookup_insert_eq]. done. }
    intros [] st' [(HI' & Hct' & Hset') Hf]. rewrite delete_insert_id in HI' by done. split; [done|]. split; [|split; [congruence|]].
    + intros a n x Ha _ Hx. rewrite (Hct' a n x); [apply (Hct a n x Ha); [set_solver|done]|rewrite lookup_insert_ne; congruence| |done].
      intros ->%elem_of_singleton. congruence.
    + exists c. unfold has_cache, GetIfPresent in *. by rewrite Hf.
Qed.

(** What [ReleaseToSystem] released: the change of the unmapped bytes. *)
Definition released st st' : Z := (stats_of st').(unmapped_bytes) - (stats_of st).(unmapped_bytes).

Lemma wp_ReleaseToSystem strict A n st : front_inv strict A st -> 0 <= n < 2 ^ 64 ->
  wp (ReleaseToSystem free_ n) (fun _ st' => front_inv strict A st' /\ contents A ∅ (memory_of st) (memory_of st') /\ settings st' = settings st /\
    let e := st.(extra_bytes_released_) in let e' := st'.(extra_bytes_released_) in
    0 <= e -> (heap_of st).(aggressive_decommit_) = false ->
      0 <= released st st' /\ e' = Z.max 0 (e + released st st' - n) /\ (n <= e -> released st st' = 0) /\
      (release_works (W := W) -> n < e + released st st' + 8192 \/ (stats_of st').(free_bytes) = 0)) st.
Proof.
  intros [heaps [HB Hth]] Hn. unfold ReleaseToSystem. apply wp_bind, wp_get. destruct (Z.leb_spec n st.(extra_bytes_released_)) as [Hle|Hgt].
  - apply wp_modify. split; [exists heaps; split; [done|by apply (threads_same hash heaps st)]|]. split; [done|]. split; [done|]. simpl.
    intros He _. unfold released, stats_of, heap_of. simpl. split_and!; lia.
  - cbv zeta. set (m := n - st.(extra_bytes_released_)) in *. apply wp_bind. unfold on_pageheap. apply wp_on_caches, wp_on_central, wp_on_heap.
    pose proof (blocks_Inv _ _ _ _ HB) as HI.
    eapply wp_mono; [apply (wp_steady plain); [apply steady_ReleaseAtLeastNPages|by eapply blocks_plain|]|].
    { by apply (wp_ReleaseAtLeastNPages (G := pinned (list_to_set heaps)) strict (Z.max (Z.shiftr m kPageShift) 1) _ HI). }
    intros r h' [(HI' & Hk & _ & _ & _ & Hw & Hr) Hpl]. destruct (keeps_block Hsm strict heaps A _ h' HB HI' Hpl Hk) as [_ HB'].
    apply wp_modify. split; [exists heaps; split; [done|by apply (threads_same hash heaps st)]|]. split; [done|]. split; [done|]. simpl.
    intros He Hag. destruct (Hr Hag) as [Hr1 Hr2]; [pose proof (Inv_returned_bound _ _ _ _ HI); lia|].
    pose proof (i_unmapped _ _ _ _ _ _ HI) as Hu. pose proof (i_unmapped _ _ _ _ _ _ HI') as Hu'. rewrite span_returned_free in Hu, Hu'.
    pose proof (Inv_returned_bound _ _ _ _ HI') as Hb'. pose proof (Inv_returned_bound _ _ _ _ HI) as Hb.
    assert (Hrel : released st (upd_extra_bytes_released 0 (upd_caches (fun _ => upd_heap (upd_pageheap h' st.(thread_caches).(heap)) st.(thread_caches)) st)) = 8192 * r)
      by (unfold released, stats_of, heap_of; simpl; lia).
    unfold released, stats_of, heap_of in *. simpl in *. rewrite !Z.shiftl_mul_pow2, !Z.shiftr_div_pow2 in * by done. change (2 ^ kPageShift) with 8192 in *.
    rewrite u64_small by lia. rewrite Hrel. pose proof (Z.div_mod m 8192 ltac:(lia)). pose proof (Z.mod_pos_bound m 8192 ltac:(lia)).
    split_and!; [lia| |lia|].
    + rewrite Z.gtb_ltb. destruct (Z.ltb_spec m (r * 8192)); unfold m in *; lia.
    + intros Hrw. destruct (Hw Hrw) as [Hnum|Hfree]; [left; unfold m in *; lia|right].
      pose proof (i_free _ _ _ _ _ _ HI') as Hf'. pose proof (free_le_total ∅ ON_NORMAL_FREELIST h'.(spans) (fun p s => Inv_lengths _ _ _ _ _ _ p s HI')). lia.
Qed.

Lemma wp_tune strict A x st : front_inv strict A st -> tune_ok x st ->
  wp (tune x) (fun _ st' => front_inv strict A st' /\ contents A ∅ (memory_of st) (memory_of st') /\ settings st' = settings st) st.
Proof.
  intros HI Hx. destruct x as [th|th|n]; simpl in *.
  - destruct HI as [heaps Hrep]. unfold wp. rewrite (mark_idle_run strict heaps A th st Hrep).
    eapply wp_mono; [by apply (wp_thread_exit Hsm sample_parameter log2 log_2 Hsample hash strict heaps A th st Hrep)|]. intros [] st' (? & ? & _ & ?). split_and!; done.
  - eapply wp_mono; [by apply wp_MarkThreadBusy|]. intros [] st' (? & ? & ? & _). done.
  - eapply wp_mono; [by apply wp_ReleaseToSystem|]. intros [] st' (? & ? & ? & _). done.
Qed.

(** ** What the functions promise *)

(** C19: the statistics balance: unless a counter of type [int] has wrapped,
    "generic.current_allocated_bytes" is exactly the sum of the usable sizes of the blocks
    in use, plus the pages that were lost when the page map had no memory for them; and
    [mallinfo2] splits all memory obtained from the system into memory in use, in caches
    and free, with nothing left out or counted twice. *)
Theorem allocated_bytes_exact strict A st : front_inv strict A st -> small_counts st ->
  exists lk info, leaked st lk /\
    GetNumericProperty sm sample_parameter "generic.current_allocated_bytes" st = Ok (Some (blocks_bytes A + 8192 * Z.of_nat (size lk))) /\
    tc_mallinfo2 sm st = Ok info /\ info.(uordblks) = blocks_bytes A + 8192 * Z.of_nat (size lk) /\
    info.(arena) = (stats_of st).(system_bytes) /\ info.(arena) = info.(uordblks) + info.(fsmblks) + info.(fordblks).
Proof.
  intros HI Hsc. destruct (ExtractStats_books strict A st HI Hsc) as (s & count & lk & Hex & Hlk & Hb1 & H1 & H2 & H3 & H4 & H5 & H6 & H7 & Heq).
  exists lk, (mkMallinfo (stats_of st).(system_bytes) (s.(thread_bytes) + s.(central_bytes) + s.(transfer_bytes))
    ((stats_of st).(free_bytes) + (stats_of st).(unmapped_bytes)) (blocks_bytes A + 8192 * Z.of_nat (size lk))).
  assert (Hab : allocated_bytes s = blocks_bytes A + 8192 * Z.of_nat (size lk)).
  { unfold allocated_bytes. rewrite Hb1. cbv zeta. rewrite u64_small; lia. }
  split; [done|]. unfold GetNumericProperty, extracted, tc_mallinfo2, do_mallinfo. rewrite Hex. revert Hb1 H4 H5 H7 Heq. generalize (stats_of st). intros p Hb1 H4 H5 H7 Heq.
  simpl. rewrite Hab, Hb1. split_and!; [done| |done|done|lia]. do 2 f_equal; repeat (rewrite u64_small by (lia || by apply Z.mod_pos_bound)); done.
Qed.

(** C21: the traversal of the heap is complete and in order: [IterateOverRanges] ends, and
    the ranges it reports are exactly the spans of the page heap, each once, by rising
    address, with its bytes and its kind.  (Entries of the page map inside a free span may
    be stale; the traversal never reads one.) *)
Theorem ranges_spec strict A st : front_inv strict A st ->
  exists l ss, IterateOverRanges sm st = Ok l /\ Forall2 describes l ss /\ StronglySorted earlier ss /\
    forall s, s ∈ ss <-> exists p, (heap_of st).(spans) !! p = Some s.
Proof.
  intros [heaps [HB _]]. pose proof (blocks_Inv _ _ _ _ HB) as HI. fold (heap_of st) in HI.
  assert (Hb : boundary (heap_of st) 1) by (intros p s Hp Hlt; destruct (Inv_ok _ _ _ _ _ _ _ _ HI Hp); lia).
  pose proof (remaining_bound (heap_of st) 1) as Hrem.
  destruct (ranges_loop_spec (G := pinned (list_to_set heaps)) sm strict (heap_of st) HI (S (size (heap_of st).(spans))) 1 ltac:(lia) Hb ltac:(lia)) as (l & ss & page' & Hrun & Hd & [Hs He] & _ & Hall).
  exists l, ss. split; [done|]. split; [done|]. split; [done|]. intros s. rewrite He. split.
  - intros (p & Hp & _). by exists p.
  - intros (p & Hp). exists p. split; [done|]. split; [destruct (Inv_ok _ _ _ _ _ _ _ _ HI Hp); lia|by apply (Hall p)].
Qed.


End MallocExtSpec.
