(* ===== verification/FrontSpec.v ===== *)
(** What the allocation functions of [tcmalloc.cc] promise to the application, and what
    holds in every state the application can bring about.  Sampling is off
    ([sample_parameter <= 0], the default of the library). *)
From Stdlib Require Import Floats.SpecFloat.
From S2P Require Import Prelude SizeMap Sampler MallocHook LinkedList Bytes Span PackedCache PageMap SysEnv PageHeap SpanStore.
From S2P Require Import PageHeapInv PageHeapOps PageHeapAlloc PageHeapGrow PageHeapNew.
From S2P Require Import CentralFreeList CentralInv CentralTables CentralOps CentralPopulate CentralRemove CentralRelease CentralInsert.
From S2P Require Import ThreadCache CachePtr FrontEnd Unsampled CacheInv CacheLimits CacheOps CacheAlloc CacheFree CacheThreads FrontBlocks FrontInv FrontInit FrontOps MallocExt MallocExtSpec.

Section FrontSpec.
Context {W : Type} {E : Env W} {P : PageMap W} {G : EnvGhost W} {C : CacheEnv W}.
Context {ens : pm_t -> Z -> Prop} {free_ central_cache_ : Z} {sm : SizeMap}.
Context {EL : EnvLaws W} {CL : CacheEnvLaws W} {PL : PageMapLaws MetaDataAlloc P ens} {HLay : HeapLayout free_}.
Context (Hsm : size_map_ok sm) (Hlo : lookup_ok sm).
Context {CLay : CentralLayout (free_ := free_) (central_cache_ := central_cache_) (sm := sm)}.
Context (sampled_objects_ : Z) (sample_parameter : Z) (log2 : spec_float -> spec_float) (log_2 : spec_float) (Hsample : sample_parameter <= 0).
Context (hash : Z -> Z) (GrabBacktrace : Thread -> list Z) (get_new_handler : Front -> option (M Front handler_end)) (fuel : nat).

Implicit Types (st : Front) (a c : Z) (A : gmap Z Z) (th : Thread).

Abbreviation front_inv := (front_inv (ens := ens) (free_ := free_) (central_cache_ := central_cache_) (sm := sm) hash).
Abbreviation alloc_post := (alloc_post (ens := ens) (free_ := free_) (central_cache_ := central_cache_) (sm := sm) hash).
Abbreviation aligned_alloc := (aligned_alloc (ens := ens) (free_ := free_) (central_cache_ := central_cache_) (sm := sm) hash).
Abbreviation moved_post := (moved_post (ens := ens) (free_ := free_) (central_cache_ := central_cache_) (sm := sm) hash).
Abbreviation unavailable := (unavailable (sm := sm)).
Abbreviation no_handler := (no_handler get_new_handler fuel).
Abbreviation handle_oom := (handle_oom get_new_handler fuel).
Abbreviation tc_malloc := (tc_malloc free_ central_cache_ sampled_objects_ sm sample_parameter log2 log_2 hash GrabBacktrace get_new_handler fuel).
Abbreviation tc_new := (tc_new free_ central_cache_ sampled_objects_ sm sample_parameter log2 log_2 hash GrabBacktrace get_new_handler fuel).
Abbreviation tc_new_nothrow := (tc_new_nothrow free_ central_cache_ sampled_objects_ sm sample_parameter log2 log_2 hash GrabBacktrace get_new_handler fuel).
Abbreviation tc_calloc := (tc_calloc free_ central_cache_ sampled_objects_ sm sample_parameter log2 log_2 hash GrabBacktrace get_new_handler fuel).
Abbreviation tc_realloc := (tc_realloc free_ central_cache_ sampled_objects_ sm sample_parameter log2 log_2 hash GrabBacktrace get_new_handler fuel).
Abbreviation tc_memalign := (tc_memalign free_ central_cache_ sampled_objects_ sm sample_parameter log2 log_2 hash GrabBacktrace get_new_handler fuel).
Abbreviation tc_new_aligned := (tc_new_aligned free_ central_cache_ sampled_objects_ sm sample_parameter log2 log_2 hash GrabBacktrace get_new_handler fuel).
Abbreviation tc_new_aligned_nothrow := (tc_new_aligned_nothrow free_ central_cache_ sampled_objects_ sm sample_parameter log2 log_2 hash GrabBacktrace get_new_handler fuel).
Abbreviation tc_posix_memalign := (tc_posix_memalign free_ central_cache_ sampled_objects_ sm sample_parameter log2 log_2 hash GrabBacktrace get_new_handler fuel).
Abbreviation tc_free := (tc_free free_ central_cache_ sm).
Abbreviation tc_free_sized := (tc_free_sized free_ central_cache_ sm).
Abbreviation tc_malloc_size := (tc_malloc_size sm).
Abbreviation tune := (tune (free_ := free_) (central_cache_ := central_cache_) (sm := sm) hash sampled_objects_ sample_parameter log2 log_2 GrabBacktrace).

(** [malloc], [operator new] and the [nothrow] one, and the aligned ones. *)
Definition allocate (oom : oom_handler) th size : M Front outcome :=
  match oom with
  | malloc_oom => tc_malloc th size
  | cpp_throw_oom => tc_new th size
  | cpp_nothrow_oom => tc_new_nothrow th size
  end.
Definition allocate_aligned (oom : oom_handler) th align size : M Front outcome :=
  match oom with
  | malloc_oom => tc_memalign th align size
  | cpp_throw_oom => tc_new_aligned th size align
  | cpp_nothrow_oom => tc_new_aligned_nothrow th size align
  end.

(** [free], and [operator delete] and [free] with the size. *)
Inductive release := Free | FreeSized (size : Z).
Definition deallocate (how : release) th ptr : M Front unit :=
  match how with
  | Free => tc_free th ptr
  | FreeSized size => tc_free_sized th ptr size
  end.

Lemma allocate_ok strict A th oom size st :
  front_inv strict A st -> ready hash th st -> 0 <= size < 2 ^ 64 -> no_handler (from_op oom) st ->
  wp (allocate oom th size) (fun r st' =>
    alloc_post strict A size (tc_nallocx sm (heap_of st) size 0) (failure oom) (unavailable st size) st r st' /\
    logged (new_events st r size) st st') st.
Proof. intros. destruct oom; by apply (wp_malloc_fast_path Hsm Hlo sampled_objects_ sample_parameter log2 log_2 Hsample hash GrabBacktrace). Qed.

Lemma deallocate_ok strict A th how ptr n st :
  front_inv strict A st -> A !! ptr = Some n ->
  match how with Free => True | FreeSized size => 0 <= size < 2 ^ 64 /\ n = tc_nallocx sm (heap_of st) size 0 end ->
  wp (deallocate how th ptr) (fun _ st' => front_inv strict (delete ptr A) st' /\ contents A {[ptr]} (memory_of st) (memory_of st') /\
    logged (delete_events st ptr) st st') st.
Proof.
  intros HI Hptr Hhow.
  assert (Hend : forall st1, traced (delete_events st ptr) st st1 ->
    wp (do_free free_ central_cache_ sm th ptr) (fun _ st' => front_inv strict (delete ptr A) st' /\ contents A {[ptr]} (memory_of st) (memory_of st') /\
      logged (delete_events st ptr) st st') st1).
  { intros st1 ->. unfold do_free. eapply wp_mono; [apply (wp_do_free Hsm hash strict A th ptr n); [by apply front_events|done]|].
    intros [] st' (H1 & H2 & H3). by split_and!. }
  assert (Hfull : wp (invoke_hooks_and_free free_ central_cache_ sm th ptr) (fun _ st' => front_inv strict (delete ptr A) st' /\
    contents A {[ptr]} (memory_of st) (memory_of st') /\ logged (delete_events st ptr) st st') st).
  { unfold invoke_hooks_and_free. apply wp_bind. unfold wp at 1. rewrite delete_hook_run. by apply Hend. }
  assert (Hnone : hooks_empty st.(delete_hooks_) = true -> traced (delete_events st ptr) st st).
  { intros He. unfold traced, delete_events. by rewrite He, add_events_nil. }
  assert (Hfree : wp (tc_free th ptr) (fun _ st' => front_inv strict (delete ptr A) st' /\ contents A {[ptr]} (memory_of st) (memory_of st') /\
    logged (delete_events st ptr) st st') st).
  { unfold FrontEnd.tc_free, free_fast_path. apply wp_bind, wp_get. destruct (hooks_empty st.(delete_hooks_)) eqn:He; [|done]. by apply Hend, Hnone. }
  destruct how as [|size]; [done|]. destruct Hhow as [Hs ->]. simpl. unfold FrontEnd.tc_free_sized. apply wp_bind, wp_get.
  destruct (hooks_empty st.(delete_hooks_)) eqn:He; [|done]. cbn [negb]. rewrite land_page_mask. change kPageSize with 8192.
  destruct (Z.eqb_spec (ptr mod 8192) 0); [done|]. eapply wp_mono; [by apply (wp_free_hint Hsm Hlo hash strict A th ptr size)|].
  intros [] st' (H1 & H2 & H3). split_and!; try done. unfold delete_events. rewrite He. by apply logged_nil.
Qed.

(** C2: [malloc], [operator new] and the [nothrow] one are correct: with sampling off (the
    default) and no new handler called, a call by a thread that has or can get a cache returns a block that was not in
    use, of [tc_nallocx(size)] bytes, no fewer than asked for, or fails with [ENOMEM]:
    null, or [bad_alloc] for [operator new].  Without a heap limit it fails only when the
    page heap has no free span of the pages it needs.  Every block in use keeps its
    contents, and the installed hooks are called, once each, with the result.  The call
    ends, and it ends in an error only when there is no memory for metadata. *)
Theorem malloc_spec strict A th oom size st :
  front_inv strict A st -> ready hash th st -> 0 <= size < 2 ^ 64 -> no_handler (from_op oom) st ->
  wp (allocate oom th size) (fun r st' =>
    alloc_post strict A size (tc_nallocx sm (heap_of st) size 0) (failure oom) (unavailable st size) st r st' /\
    logged (new_events st r size) st st') st.
Proof. apply allocate_ok. Qed.

(** C3: [free] and the sized [operator delete] are correct: a block in use, given back by
    any thread (with any size for which the allocator would hand out a block of its
    size), is no longer in use; no other block changes, in size or in contents, and the
    installed hooks are called with the pointer. *)
Theorem free_spec strict A th how ptr n st :
  front_inv strict A st -> A !! ptr = Some n ->
  match how with Free => True | FreeSized size => 0 <= size < 2 ^ 64 /\ n = tc_nallocx sm (heap_of st) size 0 end ->
  wp (deallocate how th ptr) (fun _ st' => front_inv strict (delete ptr A) st' /\ contents A {[ptr]} (memory_of st) (memory_of st') /\
    logged (delete_events st ptr) st st') st.
Proof. apply deallocate_ok. Qed.

(** ** [realloc] and [calloc] *)

Lemma realloc_ok strict A th old n0 size st :
  front_inv strict A st -> A !! old = Some n0 -> ready hash th st -> 0 < size < 2 ^ 64 -> no_handler false st ->
  wp (tc_realloc th old size) (fun r st' =>
    moved_post strict A old n0 size (tc_nallocx sm (heap_of st) size 0) st r st' \/
    (r = Ret 0 /\ front_inv strict A st' /\ contents A ∅ (memory_of st) (memory_of st') /\ (heap_of st').(errno) = ENOMEM /\ unavailable st size)) st.
Proof.
  intros HI Hold Hready Hs Hno. destruct (front_block Hsm hash strict A st old n0 HI Hold) as (H0 & _). unfold FrontEnd.tc_realloc.
  destruct (Z.eqb_spec old 0); [lia|]. destruct (Z.eqb_spec size 0); [lia|].
  apply (wp_do_realloc Hsm Hlo sampled_objects_ sample_parameter log2 log_2 Hsample hash GrabBacktrace); done || lia.
Qed.

(** C4: [realloc] of a block, with sampling off, keeps its bytes: it returns the old block when its size is the
    one a new block would have, or else a new block that holds the first bytes of the old
    one, as many as both have, and the old block is no longer in use; no other block
    changes.  When there is no memory it returns null with [ENOMEM], and the old block
    stays as it is. *)
Theorem realloc_spec strict A th old n0 size st :
  front_inv strict A st -> A !! old = Some n0 -> ready hash th st -> 0 < size < 2 ^ 64 -> no_handler false st ->
  wp (tc_realloc th old size) (fun r st' =>
    moved_post strict A old n0 size (tc_nallocx sm (heap_of st) size 0) st r st' \/
    (r = Ret 0 /\ front_inv strict A st' /\ contents A ∅ (memory_of st) (memory_of st') /\ (heap_of st').(errno) = ENOMEM /\ unavailable st size)) st.
Proof. apply realloc_ok. Qed.

Lemma calloc_ok strict A th n elem_size st (size := n * elem_size) :
  front_inv strict A st -> ready hash th st -> 0 <= n < 2 ^ 64 -> 0 <= elem_size < 2 ^ 64 -> no_handler false st ->
  wp (tc_calloc th n elem_size) (fun r st' => logged (new_events st r (u64 size)) st st' /\
    if decide (size < 2 ^ 64)
    then alloc_post strict A size (tc_nallocx sm (heap_of st) size 0) (Ret 0) (unavailable st size) st r st' /\
      forall p, r = Ret p -> p <> 0 -> zeroed (tc_nallocx sm (heap_of st) size 0) p st'
    else r = Ret 0 /\ front_inv strict A st' /\ memory_of st' = memory_of st /\ (heap_of st').(errno) = (heap_of st).(errno)) st.
Proof.
  intros HI Hready Hn He Hno. unfold FrontEnd.tc_calloc. apply wp_bind.
  eapply wp_mono; [by apply (wp_do_calloc Hsm Hlo sampled_objects_ sample_parameter log2 log_2 Hsample hash GrabBacktrace get_new_handler fuel strict A th n elem_size st)|].
  intros r st1 [Hset Hr]. apply wp_hooked. intros st' Hlog Hcs H1 H2 H3 H4. fold size. split.
  { rewrite (new_events_same st st1) in Hlog by done. by apply (logged_same _ st st1). }
  fold size in Hr. destruct (decide (size < 2 ^ 64)).
  - destruct Hr as [Hal Hz]. split; [by eapply alloc_hooked|]. intros p Hp Hp0. unfold zeroed, memory_of. rewrite Hcs. by apply Hz.
  - destruct Hr as [-> ->]. split_and!; [done|by apply (front_same hash strict A st)|unfold memory_of; by rewrite Hcs|unfold heap_of; by rewrite Hcs].
Qed.

(** C14: [calloc] multiplies without overflow and clears (sampling is off): when [n * elem_size] fits a
    [size_t] it is [malloc] of that size whose block holds only zeros; when it does not
    fit, it returns null and changes nothing (not even [errno], contrary to its
    manual). *)
Theorem calloc_spec strict A th n elem_size st (size := n * elem_size) :
  front_inv strict A st -> ready hash th st -> 0 <= n < 2 ^ 64 -> 0 <= elem_size < 2 ^ 64 -> no_handler false st ->
  wp (tc_calloc th n elem_size) (fun r st' => logged (new_events st r (u64 size)) st st' /\
    if decide (size < 2 ^ 64)
    then alloc_post strict A size (tc_nallocx sm (heap_of st) size 0) (Ret 0) (unavailable st size) st r st' /\
      forall p, r = Ret p -> p <> 0 -> zeroed (tc_nallocx sm (heap_of st) size 0) p st'
    else r = Ret 0 /\ front_inv strict A st' /\ memory_of st' = memory_of st /\ (heap_of st').(errno) = (heap_of st).(errno)) st.
Proof. apply calloc_ok. Qed.

(** ** Aligned blocks *)

Lemma aligned_ok (Hnat : natural sm) strict A th oom k size st :
  front_inv strict A st -> ready hash th st -> 0 <= k < 64 -> 0 <= size < 2 ^ 64 -> no_handler (from_op oom) st ->
  wp (allocate_aligned oom th (2 ^ k) size) (fun r st' => aligned_alloc strict A (2 ^ k) size (failure oom) st r st') st.
Proof. intros. destruct oom; by apply (wp_memalign Hsm Hlo sampled_objects_ sample_parameter log2 log_2 Hsample hash GrabBacktrace). Qed.

(** [align & (align - 1)] *)
Lemma power_of_two a : 0 < a -> Z.land a (a - 1) = 0 -> a = 2 ^ Z.log2 a.
Proof.
  intros Ha Hl. pose proof (Z.log2_nonneg a). pose proof (Z.log2_spec a Ha) as [H1 H2]. rewrite Z.pow_succ_r in H2 by lia.
  destruct (decide (a = 2 ^ Z.log2 a)) as [|Hne]; [done|]. exfalso.
  assert (Ht1 : Z.testbit a (Z.log2 a) = true) by (by apply Z.bit_log2).
  assert (Ht2 : Z.testbit (a - 1) (Z.log2 a) = true).
  { replace (Z.log2 a) with (Z.log2 (a - 1)) at 1; [apply Z.bit_log2|apply Z.log2_unique; [done|rewrite Z.pow_succ_r by lia]]; pose proof (Z.pow_pos_nonneg 2 (Z.log2 a)); lia. }
  assert (Hf : Z.testbit (Z.land a (a - 1)) (Z.log2 a) = true) by (by rewrite Z.land_spec, Ht1, Ht2). by rewrite Hl, Z.bits_0 in Hf.
Qed.

(** C13: aligned allocation is aligned, with sampling off: [memalign], [operator new] with an alignment and
    [posix_memalign] return, for every power of two below [2^64], a new block of at least
    the size asked for at a multiple of the alignment, or fail with [ENOMEM]; for
    [posix_memalign] that is the value returned, and an alignment that is no power of two
    or no multiple of 8 is refused with [EINVAL] before anything happens. *)
Theorem memalign_spec (Hnat : natural sm) strict A th oom k size align st :
  front_inv strict A st -> ready hash th st -> 0 <= k < 64 -> 0 <= size < 2 ^ 64 -> no_handler (from_op oom) st -> no_handler false st ->
  0 <= align < 2 ^ 64 ->
  wp (allocate_aligned oom th (2 ^ k) size) (fun r st' => aligned_alloc strict A (2 ^ k) size (failure oom) st r st') st /\
  if decide (align mod 8 = 0 /\ align = 2 ^ Z.log2 align)
  then wp (tc_posix_memalign th align size) (fun r st' => exists p, aligned_alloc strict A align size (Ret 0) st (Ret p) st' /\
    r = inl (if p =? 0 then (ENOMEM, None) else (0, Some p))) st
  else tc_posix_memalign th align size st = Ok (inl (EINVAL, None), st).
Proof.
  intros HI Hready Hk Hs Hno Hno2 Ha. split; [by apply aligned_ok|]. unfold FrontEnd.tc_posix_memalign.
  case_decide as Hd.
  - destruct Hd as [H8 Hpow]. pose proof (Z.log2_nonneg align) as Hj. set (j := Z.log2 align) in *. clearbody j. subst align. assert (Hj64 : j < 64) by (apply (Z.pow_lt_mono_r_iff 2); lia). rewrite H8.
    assert (Hl : Z.land (2 ^ j) (2 ^ j - 1) = 0) by (change (2 ^ j - 1) with (Z.pred (2 ^ j)); rewrite <- Z.ones_equiv, Z.land_ones by lia; apply Z.mod_same; lia).
    rewrite Hl. destruct (Z.eqb_spec (2 ^ j) 0) as [Hz|_]; [pose proof (Z.pow_pos_nonneg 2 j); lia|]. cbn [negb orb Z.eqb].
    apply wp_bind. eapply wp_mono; [apply (aligned_ok Hnat strict A th malloc_oom j size st); done || lia|]. intros r st' Hal.
    assert (Hr : exists p, r = Ret p) by (destruct Hal as (n & [_ [(p & _ & -> & _)|(-> & _)]] & _); eauto). destruct Hr as [p ->].
    destruct (Z.eqb_spec p 0) as [->|Hp]; apply wp_ret; [by exists 0|]. exists p. split; [done|]. by destruct (Z.eqb_spec p 0).
  - destruct (negb (align mod 8 =? 0) || negb (Z.land align (align - 1) =? 0) || (align =? 0)) eqn:Hb; [done|]. exfalso. apply Hd.
    apply orb_false_iff in Hb as [[H1 H2]%orb_false_iff H3]. apply negb_false_iff, Z.eqb_eq in H1, H2. apply Z.eqb_neq in H3.
    split; [done|]. apply power_of_two; lia.
Qed.

(** ** Errors *)

Lemma events_spans l st : heap_of (add_events l st) = heap_of st.
Proof. done. Qed.

(** [free] comes down to [do_free] with the hooks' events. *)
Lemma tc_free_run th ptr st : tc_free th ptr st = do_free free_ central_cache_ sm th ptr (add_events (delete_events st ptr) st).
Proof.
  unfold FrontEnd.tc_free, free_fast_path. erewrite bind_run by reflexivity. unfold invoke_hooks_and_free.
  destruct (hooks_empty st.(delete_hooks_)) eqn:He; cbn [negb].
  - unfold delete_events. by rewrite He, add_events_nil.
  - by erewrite bind_run by apply delete_hook_run.
Qed.

(** A pointer into the first page of a block of more than [kMaxSize] bytes. *)
Lemma do_free_inside strict A th a n d st :
  front_inv strict A st -> A !! a = Some n -> kMaxSize < n -> 0 < d < 8192 -> do_free free_ central_cache_ sm th (a + d) st = Crash.
Proof.
  intros [heaps [(app & ((Ls & Hcr & _) & _ & Hpl) & HA) Hth]] Ha Hbig Hd. apply HA in Ha as [(cl & Hcl & Hin & ->)|Hlg].
  { destruct (smo_size _ Hsm cl Hcl). lia. }
  destruct (large_span strict _ app Ls 0 0 _ a n Hcr Hlg) as (p & s & Hp & Hl & Hsc & Hst & Hln & Hdiv & Hde & Hp0 & Hca & H0 & Hlen & Hlim).
  unfold do_free, do_free_with_callback. erewrite bind_run by reflexivity. cbv zeta. rewrite Z.shiftr_div_pow2 by done. change (2 ^ kPageShift) with 8192.
  replace ((a + d) / 8192) with s.(start) by (rewrite Hst, Z.div_add_l, (Z.div_small d) by lia; lia).
  unfold heap_of. rewrite Hca, Hde. destruct (Z.eqb_spec p 0); [done|].
  assert (Hderef : on_pageheap (deref p) st = Ok (s, st)).
  { unfold on_pageheap, on_caches, on_central, on_heap, deref. simpl. rewrite Hp. simpl. by destruct st as [[[] ? ? ? ? ? ? ? ?] ? ? ? ? ? ? ? ? ? ? ?]. }
  erewrite bind_run by exact Hderef. rewrite Hsc. cbn [Z.eqb]. unfold do_free_pages. erewrite bind_run by exact Hderef.
  rewrite Z.shiftl_mul_pow2 by done. change (2 ^ kPageShift) with 8192. rewrite u64_small, (bool_decide_eq_true_2 _ Hl) by lia.
  erewrite bind_run by reflexivity. destruct (Z.eqb_spec (s.(start) * 8192) (a + d)); [lia|]. done.
Qed.


(** ** The new handler *)

Lemma oom_loop_ends (I : nat -> Front -> Prop) (Q : Z -> Front -> Prop) retry nothrow :
  (forall k st nh, I k st -> get_new_handler st = Some nh ->
     wp nh (fun e st1 => e = handler_returns -> wp retry (fun rv st2 => if decide (rv = 0) then exists j, (j < k)%nat /\ I j st2 else Q rv st2) st1)
       (add_events [HandlerCall] st)) ->
  forall fuel k st, (k < fuel)%nat -> I k st ->
  wp (oom_loop get_new_handler fuel retry nothrow) (fun r st' =>
    match r with
    | Ret p => if decide (p = 0) then nothrow = true else Q p st'
    | Throw bad_alloc => nothrow = false
    | Throw _ => True
    end) st.
Proof.
  intros Hnh. induction fuel0 as [|f IH]; intros k st Hk HI; [lia|]. cbn [oom_loop]. apply wp_bind, wp_get.
  destruct (get_new_handler st) as [nh|] eqn:Hg; [|apply wp_ret; by destruct nothrow].
  apply wp_bind, wp_modify, wp_bind. eapply wp_mono; [by apply (Hnh k st nh)|]. intros e st1 Hret.
  destruct e as [|[|]]; [|apply wp_ret; by destruct nothrow|by apply wp_ret].
  apply wp_bind. eapply wp_mono; [by apply Hret|]. intros rv st2 Hrv. destruct (Z.eqb_spec rv 0) as [->|Hne]; cbn [negb].
  - destruct Hrv as (j & Hj & HIj). apply (IH j); [lia|done].
  - apply wp_ret. revert Hrv. cbv beta. by destruct (decide (rv = 0)).
Qed.


(** ** The application

    The state of the allocator, the blocks in use with their usable sizes, and the bytes
    the application has written to them. *)
Record client := mkClient { c_state : Front; c_blocks : gmap Z Z; c_bytes : gmap Z Z }.
Implicit Types (B : gmap Z Z).

(** The block a call returned, with the size [malloc_size] gives. *)
Definition add_block (r : outcome) st' A A' : Prop :=
  match r with
  | Ret p => if decide (p = 0) then A' = A else exists n, tc_malloc_size p st' = Ok (n, st') /\ A' = <[p := n]> A
  | Throw _ => A' = A
  end.

(** What was written outside the block [a] of [n] bytes. *)
Definition forget (a n : Z) B : gmap Z Z := filter (fun '(x, _) => ~ a <= x < a + n) B.

Inductive client_step : client -> client -> Prop :=
| step_allocate oom th size st A B r st' A' :
    ready hash th st -> 0 <= size < 2 ^ 64 -> no_handler (from_op oom) st ->
    allocate oom th size st = Ok (r, st') -> add_block r st' A A' -> client_step (mkClient st A B) (mkClient st' A' B)
| step_aligned oom th k size st A B r st' A' :
    ready hash th st -> 0 <= k < 64 -> 0 <= size < 2 ^ 64 -> no_handler (from_op oom) st ->
    allocate_aligned oom th (2 ^ k) size st = Ok (r, st') -> add_block r st' A A' -> client_step (mkClient st A B) (mkClient st' A' B)
| step_calloc th n elem_size st A B r st' A' :
    ready hash th st -> 0 <= n < 2 ^ 64 -> 0 <= elem_size < 2 ^ 64 -> no_handler false st ->
    tc_calloc th n elem_size st = Ok (r, st') -> add_block r st' A A' -> client_step (mkClient st A B) (mkClient st' A' B)
| step_realloc th old n0 size st A B p st' A' :
    A !! old = Some n0 -> ready hash th st -> 0 < size < 2 ^ 64 -> no_handler false st ->
    tc_realloc th old size st = Ok (Ret p, st') -> p <> 0 -> add_block (Ret p) st' (delete old A) A' ->
    client_step (mkClient st A B) (mkClient st' A' (forget old n0 B))
| step_realloc_fails th old n0 size st A B st' :
    A !! old = Some n0 -> ready hash th st -> 0 < size < 2 ^ 64 -> no_handler false st ->
    tc_realloc th old size st = Ok (Ret 0, st') -> client_step (mkClient st A B) (mkClient st' A B)
| step_free th ptr n st A B st' :
    A !! ptr = Some n -> tc_free th ptr st = Ok (tt, st') -> client_step (mkClient st A B) (mkClient st' (delete ptr A) (forget ptr n B))
| step_write a n x v st A B :
    A !! a = Some n -> a <= x < a + n ->
    client_step (mkClient st A B) (mkClient (with_memory (set_byte (memory_of st) x v) st) A (<[x := v mod 256]> B))
| step_exit th st A B st' :
    st.(thread_caches).(thread_heap_count_) < 2 ^ 31 -> thread_exit free_ central_cache_ sm th st = Ok (tt, st') ->
    client_step (mkClient st A B) (mkClient st' A B)
| step_tune x st A B st' :
    tune_ok hash x st -> tune x st = Ok (tt, st') -> client_step (mkClient st A B) (mkClient st' A B).

(** What the application wrote is in its blocks. *)
Definition intact A B st : Prop := forall x v, B !! x = Some v ->
  (exists a n, A !! a = Some n /\ a <= x < a + n) /\ get_byte (memory_of st) x = v.
Definition client_inv strict (s : client) : Prop := front_inv strict s.(c_blocks) s.(c_state) /\ intact s.(c_blocks) s.(c_bytes) s.(c_state).

Lemma intact_contents strict A X A' B st st' :
  front_inv strict A st -> intact A B st -> contents A X (memory_of st) (memory_of st') ->
  (forall a n, A !! a = Some n -> a ∉ X -> A' !! a = Some n) ->
  (forall a n x v, A !! a = Some n -> a ∈ X -> a <= x < a + n -> B !! x = Some v -> False) -> intact A' B st'.
Proof.
  intros HI Hin Hct HA HX x v Hx. destruct (Hin x v Hx) as [(a & n & Ha & Hr) Hv]. destruct (decide (a ∈ X)) as [Ha1|Ha1]; [by destruct (HX a n x v)|].
  split; [by eauto|]. by rewrite (contents_byte Hsm hash strict A X st (memory_of st) (memory_of st') a n x HI Hct Ha Ha1 Hr).
Qed.

(** A successful allocation as a step. *)
Lemma client_alloc strict A A' B size n fail nothing st r st' :
  front_inv strict A st -> intact A B st -> alloc_post strict A size n fail nothing st r st' -> (forall p, fail = Ret p -> p = 0) -> add_block r st' A A' ->
  client_inv strict (mkClient st' A' B).
Proof.
  intros HI Hin [Hct Hal] Hf Hadd. unfold client_inv. simpl. destruct Hal as [(p & Hp & -> & _ & Hno & HI')|(-> & HI' & _)].
  - unfold add_block in Hadd. rewrite decide_False in Hadd by done. destruct Hadd as (m & Hm & ->).
    assert (Hsz : (<[p := n]> A) !! p = Some n) by (by rewrite lookup_insert_eq).
    assert (m = n) as ->.
    { destruct (front_block Hsm hash strict _ st' p n HI' Hsz) as (H0 & _). unfold FrontEnd.tc_malloc_size in Hm. destruct (Z.eqb_spec p 0); [done|].
      rewrite (get_size_run Hsm hash strict _ p n _ st' HI' Hsz) in Hm. by injection Hm. }
    split; [done|]. apply (intact_contents strict A ∅ (<[p := n]> A) B st); [done..| |set_solver]. intros a k Ha _. rewrite lookup_insert_ne; [done|congruence].
  - assert (A' = A) as -> by (destruct fail as [p|]; [rewrite (Hf p eq_refl) in Hadd|]; exact Hadd).
    split; [done|]. apply (intact_contents strict A ∅ A B st); try done; set_solver.
Qed.

Lemma forget_some a n B x v : forget a n B !! x = Some v <-> B !! x = Some v /\ ~ a <= x < a + n.
Proof. unfold forget. by rewrite map_lookup_filter_Some. Qed.

(** A block goes. *)
Lemma client_release strict A A' B a n st st' :
  front_inv strict A st -> intact A B st -> A !! a = Some n -> contents A {[a]} (memory_of st) (memory_of st') ->
  (forall b k, A !! b = Some k -> b <> a -> A' !! b = Some k) -> intact A' (forget a n B) st'.
Proof.
  intros HI Hin Ha Hct HA. eapply (intact_contents strict A {[a]}); [done| |done| |].
  - intros x v [Hx _]%forget_some. by apply Hin.
  - intros b k Hb Hne. apply HA; set_solver.
  - intros b k x v Hb ->%elem_of_singleton Hr [_ Hno]%forget_some. assert (k = n) as -> by congruence. done.
Qed.

Lemma client_step_inv (Hnat : natural sm) strict s s' : client_inv strict s -> client_step s s' -> client_inv strict s'.
Proof.
  intros [HI Hin] Hs. destruct Hs as [oom th size st A B r st' A' Hr Hsz Hno Hrun Hadd|oom th k size st A B r st' A' Hr Hk Hsz Hno Hrun Hadd|
    th n e st A B r st' A' Hr Hn He Hno Hrun Hadd|th old n0 size st A B p st' A' Hold Hr Hsz Hno Hrun Hp Hadd|th old n0 size st A B st' Hold Hr Hsz Hno Hrun|
    th ptr n st A B st' Hptr Hrun|a n x v st A B Ha Hx|th st A B st' Hc Hrun|x st A B st' Hx Hrun]; simpl in *.
  - destruct (wp_Ok _ _ _ _ _ (allocate_ok strict A th oom size st HI Hr Hsz Hno) Hrun) as [Hal _].
    eapply client_alloc; [done..| |done]. by destruct oom; intros p [= <-].
  - destruct (wp_Ok _ _ _ _ _ (aligned_ok Hnat strict A th oom k size st HI Hr Hk Hsz Hno) Hrun) as (n & Hal & _).
    eapply client_alloc; [done..| |done]. by destruct oom; intros p [= <-].
  - destruct (wp_Ok _ _ _ _ _ (calloc_ok strict A th n e st HI Hr Hn He Hno) Hrun) as [_ Hal]. destruct (decide (n * e < 2 ^ 64)).
    + destruct Hal as [Hal _]. eapply client_alloc; [done..| |done]. by intros p [= <-].
    + destruct Hal as (-> & HI' & Hm & _). simpl in Hadd. rewrite Hadd. split; [done|]. simpl. unfold intact. by rewrite Hm.
  - destruct (wp_Ok _ _ _ _ _ (realloc_ok strict A th old n0 size st HI Hold Hr Hsz Hno) Hrun) as [(q & [= <-] & _ & _ & Hq & HI' & Hct & _)|([= ->] & _)]; [|done].
    unfold add_block in Hadd. rewrite decide_False in Hadd by done. destruct Hadd as (m & Hm & ->).
    set (n := tc_nallocx sm (heap_of st) size 0) in *. assert (Hpn : (<[p := n]> (delete old A)) !! p = Some n) by (by rewrite lookup_insert_eq).
    assert (m = n) as ->.
    { unfold FrontEnd.tc_malloc_size in Hm. destruct (Z.eqb_spec p 0); [done|]. rewrite (get_size_run Hsm hash strict _ p n _ st' HI' Hpn) in Hm. by injection Hm. }
    split; [done|]. simpl. eapply (client_release strict A _ B old n0); try done. intros b k Hb Hne. rewrite lookup_insert_ne, lookup_delete_ne; [done|done|].
    destruct Hq as [->|Hq]; [done|congruence].
  - destruct (wp_Ok _ _ _ _ _ (realloc_ok strict A th old n0 size st HI Hold Hr Hsz Hno) Hrun) as [(q & [= <-] & Hq & _)|(_ & HI' & Hct & _)]; [done|].
    split; [done|]. apply (intact_contents strict A ∅ A B st); try done; set_solver.
  - destruct (wp_Ok _ _ _ _ _ (deallocate_ok strict A th Free ptr n st HI Hptr ltac:(done)) Hrun) as (HI' & Hct & _). split; [done|]. simpl.
    eapply (client_release strict A _ B ptr n); try done. intros b k Hb Hne. by rewrite lookup_delete_ne.
  - split; simpl.
    + apply (front_write Hsm hash strict A st); [done|]. intros y Hy. apply set_byte_other. intros ->. apply (Hy a n Ha). exact (block_word Hsm hash strict A st a n x HI Ha Hx).
    + intros y w [[<- <-]|[Hne Hy]]%lookup_insert_Some; unfold memory_of; simpl; rewrite get_set_byte.
      * rewrite decide_True by done. eauto.
      * rewrite decide_False by done. by apply Hin.
  - destruct HI as [heaps Hrep]. destruct (wp_Ok _ _ _ _ _ (wp_thread_exit Hsm sample_parameter log2 log_2 Hsample hash strict heaps A th st Hrep Hc) Hrun) as (Hct & _ & _ & heaps' & Hrep').
    split; [by exists heaps'|]. simpl. assert (HI : front_inv strict A st) by (by exists heaps). apply (intact_contents strict A ∅ A B st); try done; set_solver.
  - destruct (wp_Ok _ _ _ _ _ (wp_tune Hsm hash Hlo sampled_objects_ sample_parameter log2 log_2 Hsample GrabBacktrace strict A x st HI Hx) Hrun) as (HI' & Hct & _).
    split; [done|]. simpl. apply (intact_contents strict A ∅ A B st); try done; set_solver.
Qed.

(** The functions end, and end well, in a state. *)
Definition client_ok (s : client) : Prop :=
  (forall a n, s.(c_blocks) !! a = Some n -> 0 < a /\ a + n < 2 ^ 48 /\ a mod 8 = 0 /\ (8 < n -> a mod 16 = 0) /\
     tc_malloc_size a s.(c_state) = Ok (n, s.(c_state))) /\
  (forall a n b m, s.(c_blocks) !! a = Some n -> s.(c_blocks) !! b = Some m -> a <> b -> a + n <= b \/ b + m <= a) /\
  (forall x v, s.(c_bytes) !! x = Some v -> get_byte (memory_of s.(c_state)) x = v) /\
  (forall th ptr, is_Some (s.(c_blocks) !! ptr) -> wp (tc_free th ptr) (fun _ _ => True) s.(c_state)) /\
  (forall th size, ready hash th s.(c_state) -> 0 <= size < 2 ^ 64 -> no_handler false s.(c_state) -> wp (tc_malloc th size) (fun _ _ => True) s.(c_state)).

Lemma client_safe strict s : client_inv strict s -> client_ok s.
Proof.
  intros Hinv. destruct s as [st A B], Hinv as [HI Hin]. simpl in *. split_and!; simpl.
  - intros a n Ha. destruct (front_block Hsm hash strict A st a n HI Ha) as (H0 & H1 & H2 & _ & H4 & H5 & _). split_and!; try done.
    unfold FrontEnd.tc_malloc_size. destruct (Z.eqb_spec a 0); [lia|]. exact (get_size_run Hsm hash strict A a n _ st HI Ha).
  - intros a n b m Ha Hb. exact (front_disjoint Hsm hash strict A st a n b m HI Ha Hb).
  - intros x v Hx. by apply Hin.
  - intros th ptr [n Hn]. eapply wp_mono; [exact (deallocate_ok strict A th Free ptr n st HI Hn ltac:(done))|done].
  - intros th size Hr Hs Hno. eapply wp_mono; [exact (allocate_ok strict A th malloc_oom size st HI Hr Hs Hno)|done].
Qed.


End FrontSpec.
