(* ===== verification/FrontScenario.v ===== *)
(** The allocation functions over the system of [BumpOS.v], with the default size-class
    tables: the start of a process, a block allocated by its first thread, and the
    theorems of the allocation functions at those states. *)
From Stdlib Require Import Floats.SpecFloat Strings.String.
From S2P Require Import Prelude SizeMap SizeClasses Sampler MallocHook LinkedList Bytes Span PackedCache PageMap SystemAlloc SysEnv MetaData BumpOS.
From S2P Require Import PageHeap SpanStore PageHeapInv PageHeapScenario CentralFreeList CentralInv CentralTables StaticVars CentralScenario.
From S2P Require Import ThreadCache CachePtr FrontEnd FrontBlocks FrontInv FrontInit FrontOps MallocExt MallocExtSpec FrontSpec.

#[export] Instance bump_cache_env : CacheEnv BW := World_cache_env true.
#[export] Instance bump_cache_laws : CacheEnvLaws BW := World_cache_laws true.

#[export] Instance bump_meta_stats : MetaStats BW := metadata_system_bytes_.

Lemma bump_no_caches : caches (bump_world false) = ∅.
Proof. vm_compute. reflexivity. Qed.

(** The standard library of this process: a hash, no backtraces, no new handler. *)
Definition bump_hash (x : Z) : Z := x.
Definition bump_backtrace (th : Thread) : list Z := [].
Definition bump_handler (st : Front (W := BW)) : option (M (Front (W := BW)) handler_end) := None.
Definition bump_thread : Thread := mkThread 1000 2000 3000.

Definition bump_start_run : result (Front (W := BW)) :=
  start_process bump_free bump_central bump_sampled default_sizemap None 0 (double_of_Z 1) false ∅ (bump_world false).
Definition bump_front : Front (W := BW) := ok_or (Front_zero static_heap) bump_start_run.

Abbreviation bump_inv := (front_inv (W := BW) (P := bump_pagemap) (ens := PageMap2.ensured2 35) (free_ := bump_free)
  (central_cache_ := bump_central) (sm := default_sizemap) bump_hash).

Lemma bump_front_ok : bump_start_run = Ok bump_front /\ bump_inv true ∅ bump_front /\ room bump_front /\ bump_front.(tc_new_mode) = 0.
Proof.
  destruct (start_ok (P := bump_pagemap) (ens := PageMap2.ensured2 35) (free_ := bump_free) (central_cache_ := bump_central)
    default_tables_ok bump_hash bump_sampled 0 None 0 (double_of_Z 1) false ∅ (bump_world false)
    (bump_world_ok false) bump_no_caches ltac:(lia) default_min_span ltac:(split; reflexivity) bump_sampled_apart) as (st & Hst & HI & Hr & Hm & _).
  unfold bump_front, bump_start_run. rewrite Hst. cbn [ok_or]. split; [reflexivity|]. split; [exact HI|]. split; [exact Hr|exact Hm].
Qed.

(** Nothing is known about pages yet. *)
Lemma bump_front_new : map_to_list (heap_of bump_front).(spans) = [] /\ TryGetSizeClass (heap_of bump_front) 1507 = None.
Proof. split; vm_compute; reflexivity. Qed.

Lemma bump_ready : ready bump_hash bump_thread bump_front.
Proof. right. apply bump_front_ok. Qed.

Lemma bump_no_handler b : no_handler bump_handler 1 b bump_front.
Proof. right. split; [reflexivity|lia]. Qed.

(** 100 bytes for the first thread. *)
Abbreviation bump_allocate := (allocate (W := BW) (free_ := bump_free) (central_cache_ := bump_central) (sm := default_sizemap)
  bump_sampled 0 (fun x => x) (double_of_Z 1) bump_hash bump_backtrace bump_handler 1).
Definition block_run : result (outcome * Front (W := BW)) := bump_allocate malloc_oom bump_thread 100 bump_front.
Definition block_run_ok : outcome * Front (W := BW) := ok_or (Ret 0, bump_front) block_run.
Definition ptr_of (r : outcome) : Z := match r with Ret p => p | Throw _ => 0 end.
Definition block_ptr : Z := ptr_of block_run_ok.1.
Definition block_front : Front (W := BW) := block_run_ok.2.

Lemma block_run_eq : bump_allocate malloc_oom bump_thread 100 bump_front = Ok (Ret block_ptr, block_front) /\ block_ptr <> 0 /\
  GetIfPresent bump_thread block_front <> 0 /\ counts_small (sm := default_sizemap) block_front = true /\ block_front.(extra_bytes_released_) = 0 /\
  (heap_of block_front).(aggressive_decommit_) = false.
Proof.
  assert (H : is_ok block_run && match block_run_ok.1 with Ret p => negb (p =? 0) | Throw _ => false end &&
    negb (GetIfPresent bump_thread block_run_ok.2 =? 0) && counts_small (sm := default_sizemap) block_run_ok.2 && (block_run_ok.2.(extra_bytes_released_) =? 0) &&
    negb (heap_of block_run_ok.2).(aggressive_decommit_) = true) by (vm_compute; reflexivity).
  apply andb_prop in H as [[[[[H1 H2]%andb_prop H3]%andb_prop H4]%andb_prop H5]%andb_prop H6]. unfold block_ptr, block_front, block_run_ok in *. fold block_run.
  destruct block_run as [r| | |]; [|discriminate H1..]. destruct r as [[p|e] st]; cbn [ok_or fst snd ptr_of] in *; [|discriminate H2].
  split; [reflexivity|]. apply negb_true_iff, Z.eqb_neq in H2, H3. apply Z.eqb_eq in H5. apply negb_true_iff in H6. by split_and!.
Qed.
#[global] Opaque block_run block_ptr block_front bump_front.

(** The size of the block. *)
Definition block_size : Z := tc_nallocx default_sizemap (heap_of bump_front) 100 0.
Definition block_map : gmap Z Z := {[block_ptr := block_size]}.

Lemma block_front_ok : bump_inv true block_map block_front /\ ready bump_hash bump_thread block_front /\ 100 <= block_size.
Proof.
  destruct block_run_eq as (Hrun & Hp0 & Hc & _). destruct bump_front_ok as (_ & HI & _ & Hmode).
  assert (Hno : no_handler bump_handler 1 (from_op malloc_oom) bump_front) by (left; split; [reflexivity|exact Hmode]).
  pose proof (wp_Ok _ _ _ _ _ (allocate_ok default_tables_ok default_lookup_ok bump_sampled 0 (fun x => x) (double_of_Z 1) (Z.le_refl 0) bump_hash
    bump_backtrace bump_handler 1 true ∅ bump_thread malloc_oom 100 bump_front HI bump_ready ltac:(lia) Hno) Hrun) as [[_ Hal] _].
  destruct Hal as [(p & _ & Hr & Hle & _ & HI')|(Hz & _)]; [|destruct (Hp0 (f_equal ptr_of Hz))].
  pose proof (f_equal ptr_of Hr : block_ptr = p) as Hp. rewrite <- Hp in HI'. split; [exact HI'|]. split; [|exact Hle].
  destruct HI' as [heaps [_ Hth]]. exact (has_cache_ready bump_hash bump_thread block_front _ (conj eq_refl Hc) (to_fast _ _ _ Hth)).
Qed.

Lemma block_lookup : block_map !! block_ptr = Some block_size.
Proof. apply lookup_insert_eq. Qed.

Lemma block_no_handler b : no_handler bump_handler 1 b block_front.
Proof. right. split; [reflexivity|lia]. Qed.

(** ** The theorems at these states *)

Lemma malloc_spec_witness :
  wp (bump_allocate cpp_throw_oom bump_thread 100) (fun r st' => (exists p, r = Ret p /\ bump_inv true {[p := block_size]} st') \/
    (r = Throw bad_alloc /\ bump_inv true ∅ st')) bump_front.
Proof.
  eapply wp_mono; [apply (malloc_spec default_tables_ok default_lookup_ok bump_sampled 0 (fun x => x) (double_of_Z 1) (Z.le_refl 0) bump_hash
    bump_backtrace bump_handler 1 true ∅ bump_thread cpp_throw_oom 100 bump_front (proj1 (proj2 bump_front_ok)) bump_ready); [lia|exact (bump_no_handler true)]|].
  intros r st' [[_ Hal] _]. destruct Hal as [(p & _ & Hr & _ & _ & HI)|(Hr & HI & _)]; [left|right; split; [exact Hr|exact HI]].
  exists p. split; [exact Hr|exact HI].
Defined.

Lemma free_spec_witness :
  wp (deallocate (W := BW) (free_ := bump_free) (central_cache_ := bump_central) (sm := default_sizemap) (FreeSized 100) bump_thread block_ptr)
    (fun _ st' => bump_inv true ∅ st') block_front.
Proof.
  destruct block_front_ok as (HI & _ & _).
  assert (Hsz : block_size = tc_nallocx default_sizemap (heap_of block_front) 100 0).
  { unfold block_size, tc_nallocx, nallocx_slow, RoundUpSize. rewrite (front_smallest bump_hash true block_map block_front HI),
      (front_smallest bump_hash true ∅ bump_front (proj1 (proj2 bump_front_ok))). reflexivity. }
  eapply wp_mono; [apply (free_spec default_tables_ok default_lookup_ok bump_hash true block_map bump_thread (FreeSized 100) block_ptr block_size block_front HI
    block_lookup); split; [lia|exact Hsz]|].
  intros u st' (HI' & _). unfold block_map in HI'. rewrite delete_singleton_eq in HI'. exact HI'.
Defined.

Lemma realloc_spec_witness :
  wp (tc_realloc (W := BW) bump_free bump_central bump_sampled default_sizemap 0 (fun x => x) (double_of_Z 1) bump_hash bump_backtrace bump_handler 1
      bump_thread block_ptr 5000)
    (fun r st' => forall p, r = Ret p -> p <> 0 -> forall i, 0 <= i < 100 -> get_byte (memory_of st') (p + i) = get_byte (memory_of block_front) (block_ptr + i))
    block_front.
Proof.
  destruct block_front_ok as (HI & Hready & Hsz).
  eapply wp_mono; [apply (realloc_spec default_tables_ok default_lookup_ok bump_sampled 0 (fun x => x) (double_of_Z 1) (Z.le_refl 0) bump_hash
    bump_backtrace bump_handler 1 true block_map bump_thread block_ptr block_size 5000 block_front HI block_lookup Hready); [lia|exact (block_no_handler false)]|].
  intros r st' [(p & Hr & _ & _ & _ & _ & _ & Hb)|(Hr & _)] q Hq Hq0 i Hi.
  - rewrite Hr in Hq. pose proof (f_equal ptr_of Hq : p = q) as <-. apply Hb. lia.
  - rewrite Hr in Hq. destruct (Hq0 (eq_sym (f_equal ptr_of Hq))).
Defined.

Lemma calloc_spec_witness :
  wp (tc_calloc (W := BW) bump_free bump_central bump_sampled default_sizemap 0 (fun x => x) (double_of_Z 1) bump_hash bump_backtrace bump_handler 1
      bump_thread (2 ^ 32) (2 ^ 32)) (fun r st' => r = Ret 0 /\ bump_inv true ∅ st') bump_front.
Proof.
  eapply wp_mono; [apply (calloc_spec default_tables_ok default_lookup_ok bump_sampled 0 (fun x => x) (double_of_Z 1) (Z.le_refl 0) bump_hash
    bump_backtrace bump_handler 1 true ∅ bump_thread (2 ^ 32) (2 ^ 32) bump_front (proj1 (proj2 bump_front_ok)) bump_ready); [lia|lia|exact (bump_no_handler false)]|].
  intros r st' [_ Hr]. destruct (decide (2 ^ 32 * 2 ^ 32 < 2 ^ 64)) as [H|_]; [lia|]. destruct Hr as (Hr & HI & _). split; [exact Hr|exact HI].
Defined.

Lemma memalign_spec_witness :
  tc_posix_memalign (W := BW) bump_free bump_central bump_sampled default_sizemap 0 (fun x => x) (double_of_Z 1) bump_hash bump_backtrace bump_handler 1
    bump_thread 24 100 bump_front = Ok (inl (EINVAL, None), bump_front).
Proof.
  pose proof (memalign_spec default_tables_ok default_lookup_ok bump_sampled 0 (fun x => x) (double_of_Z 1) (Z.le_refl 0) bump_hash
    bump_backtrace bump_handler 1 default_natural true ∅ bump_thread malloc_oom 20 100 24 bump_front (proj1 (proj2 bump_front_ok)) bump_ready
    ltac:(lia) ltac:(lia) (bump_no_handler false) (bump_no_handler false) ltac:(lia)) as [_ H].
  destruct (decide (24 mod 8 = 0 /\ 24 = 2 ^ Z.log2 24)) as [[_ H2]|_]; [discriminate H2|exact H].
Defined.


(** A new handler that is called three times in vain, and then there is memory. *)
Definition patient_handler (st : Front (W := BW)) : option (M (Front (W := BW)) handler_end) := Some (mret handler_returns).
Definition third_time (st : Front (W := BW)) : result (Z * Front (W := BW)) := Ok (if (3 <=? List.length st.(trace))%nat then 4096 else 0, st).


(** The first thread writes a byte into its block. *)
Lemma block_written :
  rtc (client_step (W := BW) (free_ := bump_free) (central_cache_ := bump_central) (sm := default_sizemap) bump_sampled 0 (fun x => x) (double_of_Z 1)
         bump_hash bump_backtrace bump_handler 1)
    (mkClient bump_front ∅ ∅) (mkClient (with_memory (set_byte (memory_of block_front) block_ptr 7) block_front) block_map (<[block_ptr := 7 mod 256]> ∅)).
Proof.
  destruct block_run_eq as (Hrun & Hp0 & _), block_front_ok as (HI & _ & Hsz).
  eapply rtc_l; [eapply (step_allocate bump_sampled 0 (fun x => x) (double_of_Z 1) bump_hash bump_backtrace bump_handler 1 malloc_oom bump_thread 100);
    [exact bump_ready|lia|exact (bump_no_handler false)|exact Hrun|]|apply rtc_once, (step_write _ _ _ _ _ _ _ _ block_ptr block_size); [exact block_lookup|lia]].
  unfold add_block. rewrite decide_False by exact Hp0. exists block_size. split; [|reflexivity].
  unfold tc_malloc_size. apply Z.eqb_neq in Hp0. rewrite Hp0.
  exact (get_size_run default_tables_ok bump_hash true block_map block_ptr block_size _ block_front HI block_lookup).
Qed.


(** ** Inspection and tuning *)

Lemma allocated_bytes_exact_witness :
  exists lk, GetNumericProperty (W := BW) default_sizemap 0 "generic.current_allocated_bytes"%string block_front =
    Ok (Some (blocks_bytes block_map + 8192 * Z.of_nat (size (lk : gset Z)))).
Proof.
  destruct block_run_eq as (_ & _ & _ & Hc & _). destruct (allocated_bytes_exact default_tables_ok bump_hash 0 true block_map block_front
    (proj1 block_front_ok) (proj2 (counts_small_ok _) Hc)) as (lk & info & _ & H & _).
  exists lk. exact H.
Defined.



Lemma ranges_spec_witness : exists l ss, IterateOverRanges (W := BW) default_sizemap block_front = Ok l /\ Forall2 describes l ss.
Proof.
  destruct (ranges_spec bump_hash true block_map block_front (proj1 block_front_ok)) as (l & ss & Hrun & Hd & _). exists l, ss. split; [exact Hrun|exact Hd].
Defined.
