(* ===== verification/SkipList.v ===== *)
(** The skip list of free blocks of the low-level allocator: [AllocList] and the
    [LLA_Skiplist] functions of [src/base/low_level_alloc.cc].

    A node is in memory: its header is the words at offsets 0, 8, 16 and 24, its number of
    levels the [int] in the word at offset 32, its links the words from offset 40.  Reading
    an element of a [prev] array that was not set is a [Crash]. *)
From Stdlib Require Import Sorting.Sorted.
From stdpp Require Import sorting.
From S2P Require Import Prelude LinkedList Bytes.

Definition kMaxLevel : Z := 30.
Definition sizeof_Header : Z := 32.
(** [OFFSETOF_MEMBER(AllocList, next)] *)
Definition offset_next : Z := 40.

Definition size_at (p : Z) : Z := p.
Definition magic_at (p : Z) : Z := p + 8.
Definition arena_at (p : Z) : Z := p + 16.
Definition levels_at (p : Z) : Z := p + sizeof_Header.
Definition next_at (p i : Z) : Z := p + offset_next + 8 * i.

Abbreviation MM := (M mem).

Definition ld (a : Z) : MM Z := fun m => Ok (word_of m a, m).
Definition wr (a v : Z) : MM unit := modify (fun m => <[a := v]> m).
Definition require (b : bool) : MM unit := if b then skip else crash.

(** ** Levels *)

(** [for (size_t i = size; i > base; i >>= 1)]: 64 shifts clear every [size_t]. *)
Fixpoint log2_loop (n : nat) (i base result : Z) : Z :=
  match n with
  | O => result
  | S n => if i >? base then log2_loop n (Z.shiftr i 1) base (result + 1) else result
  end.
Definition IntLog2 (size base : Z) : Z := log2_loop 64 size base 0.

Definition next_random (r : Z) : Z := u32 (r * 1103515245 + 12345).

(** One evaluation of the loop condition of [Random]: [inl] ends the loop. *)
Definition random_step (r result : Z) : Z * Z + Z * Z :=
  let r := next_random r in
  if Z.land (Z.shiftr r 30) 1 =? 0 then inr (r, result + 1) else inl (r, result).

(** At most [fuel] iterations. *)
Fixpoint random_loop (fuel : positive) (r result : Z) : Z * Z + Z * Z :=
  let twice fuel x :=
    match x with
    | inl y => inl y
    | inr (r, result) =>
        match random_loop fuel r result with
        | inl y => inl y
        | inr (r, result) => random_loop fuel r result
        end
    end in
  match fuel with
  | xH => random_step r result
  | xO fuel => twice fuel (inr (r, result))
  | xI fuel => twice fuel (random_step r result)
  end.

(** [Random()] with its static variable [r]: the result and the new [r]. *)
Definition Random (r : Z) : result (Z * Z) :=
  match random_loop (2 ^ 30 + 1)%positive r 1 with
  | inl (r, result) => Ok (result, r)
  | inr _ => NoFuel
  end.

(** The level and the new value of the variable of [Random]. *)
Definition LLA_SkiplistLevels (size base : Z) (random : bool) (r : Z) : result (Z * Z) :=
  let max_fit := i32 (u64 (size - offset_next) / 8) in
  '(n, r) ← (if random then Random r else Ok (1, r));
  let level := IntLog2 size base + n in
  let level := if level >? max_fit then max_fit else level in
  let level := if level >? kMaxLevel - 1 then kMaxLevel - 1 else level in
  _ ← check (level >=? 1);
  Ok (level, r).

(** ** Search, insertion and deletion *)

(** [prev[i]] *)
Definition prev_at (prev : gmap Z Z) (i : Z) : MM Z :=
  match prev !! i with Some p => mret p | None => crash end.

(** [for (AllocList* n; (n = p->next[level]) != 0 && n < e; p = n)] *)
Fixpoint search_level (fuel : nat) (level e p : Z) : MM Z :=
  match fuel with
  | O => no_fuel
  | S fuel =>
      n ← ld (next_at p level);
      if negb (n =? 0) && (n <? e) then search_level fuel level e n else mret p
  end.

(** The levels from [n - 1] down to 0. *)
Fixpoint search_levels (fuel n : nat) (e p : Z) (prev : gmap Z Z) : MM (gmap Z Z) :=
  match n with
  | O => mret prev
  | S n =>
      let level := Z.of_nat n in
      p ← search_level fuel level e p;
      search_levels fuel n e p (<[level := p]> prev)
  end.

(** A level has no more nodes than the memory has words. *)
Definition LLA_SkiplistSearch (head e : Z) (prev : gmap Z Z) : MM (Z * gmap Z Z) :=
  m ← get_state;
  levels ← ld (levels_at head);
  prev ← search_levels (S (size m)) (Z.to_nat levels) e head prev;
  if levels =? 0 then mret (0, prev)
  else
    p ← prev_at prev 0;
    n ← ld (next_at p 0);
    mret (n, prev).

(** [for (; head->levels < e->levels; head->levels++)] *)
Fixpoint extend_prev (fuel : nat) (head e : Z) (prev : gmap Z Z) : MM (gmap Z Z) :=
  match fuel with
  | O => no_fuel
  | S fuel =>
      hl ← ld (levels_at head);
      el ← ld (levels_at e);
      if hl <? el then
        require (hl <? kMaxLevel) ;;
        wr (levels_at head) (hl + 1) ;;
        extend_prev fuel head e (<[hl := head]> prev)
      else mret prev
  end.

(** [for (int i = 0; i != e->levels; i++)] *)
Fixpoint link_loop (fuel : nat) (i e : Z) (prev : gmap Z Z) : MM unit :=
  match fuel with
  | O => no_fuel
  | S fuel =>
      el ← ld (levels_at e);
      if negb (i =? el) then
        p ← prev_at prev i;
        n ← ld (next_at p i);
        wr (next_at e i) n ;;
        wr (next_at p i) e ;;
        link_loop fuel (i + 1) e prev
      else skip
  end.

Definition LLA_SkiplistInsert (head e : Z) (prev : gmap Z Z) : MM (gmap Z Z) :=
  '(_, prev) ← LLA_SkiplistSearch head e prev;
  prev ← extend_prev (S (Z.to_nat kMaxLevel)) head e prev;
  link_loop (S (Z.to_nat kMaxLevel)) 0 e prev ;;
  mret prev.

(** [for (int i = 0; i != e->levels && prev[i]->next[i] == e; i++)] *)
Fixpoint unlink_loop (fuel : nat) (i e : Z) (prev : gmap Z Z) : MM unit :=
  match fuel with
  | O => no_fuel
  | S fuel =>
      el ← ld (levels_at e);
      if negb (i =? el) then
        p ← prev_at prev i;
        n ← ld (next_at p i);
        if n =? e then
          ne ← ld (next_at e i);
          wr (next_at p i) ne ;;
          unlink_loop fuel (i + 1) e prev
        else skip
      else skip
  end.

(** [while (head->levels > 0 && head->next[head->levels - 1] == 0)] *)
Fixpoint shrink_levels (fuel : nat) (head : Z) : MM unit :=
  match fuel with
  | O => no_fuel
  | S fuel =>
      hl ← ld (levels_at head);
      if hl >? 0 then
        n ← ld (next_at head (hl - 1));
        if n =? 0 then
          wr (levels_at head) (hl - 1) ;;
          shrink_levels fuel head
        else skip
      else skip
  end.

Definition LLA_SkiplistDelete (head e : Z) (prev : gmap Z Z) : MM (gmap Z Z) :=
  '(found, prev) ← LLA_SkiplistSearch head e prev;
  require (e =? found) ;;
  unlink_loop (S (Z.to_nat kMaxLevel)) 0 e prev ;;
  shrink_levels (S (Z.to_nat kMaxLevel)) head ;;
  mret prev.

(** ** Levels: termination and bounds *)

(** [p] steps of the generator are [r -> A * r + C] modulo 2^32. *)
Fixpoint steps_coeff (p : positive) : Z * Z :=
  match p with
  | xH => (1103515245, 12345)
  | xO p => let '(A, C) := steps_coeff p in (u32 (A * A), u32 (A * C + C))
  | xI p => let '(A, C) := steps_coeff p in
            let '(A2, C2) := (u32 (A * A), u32 (A * C + C)) in
            (u32 (A2 * 1103515245), u32 (A2 * 12345 + C2))
  end.

Lemma random_step_inr r n r' n' : random_step r n = inr (r', n') -> r' = next_random r /\ n' = n + 1 /\ Z.testbit r' 30 = false.
Proof.
  unfold random_step. destruct (Z.eqb_spec (Z.land (Z.shiftr (next_random r) 30) 1) 0) as [He|]; intros [= <- <-].
  split_and!; [done..|]. rewrite (Z.land_ones _ 1) in He by done. rewrite Z.shiftr_div_pow2 in He by done.
  apply Z.testbit_false; [done|]. exact He.
Qed.

Lemma u32_affine A C A' C' r : u32 (A' * u32 (A * r + C) + C') = u32 (u32 (A' * A) * r + u32 (A' * C + C')).
Proof.
  unfold u32.
  rewrite <- (Zplus_mod_idemp_l (A' * _)), Zmult_mod_idemp_r, Zplus_mod_idemp_l.
  rewrite Zplus_mod_idemp_r, <- (Zplus_mod_idemp_l (_ mod _ * r)), Zmult_mod_idemp_l, Zplus_mod_idemp_l. f_equal. ring.
Qed.

Lemma random_loop_inr p : forall r n r' n', random_loop p r n = inr (r', n') ->
  r' = u32 ((steps_coeff p).1 * r + (steps_coeff p).2) /\ Z.testbit r' 30 = false.
Proof.
  assert (Htwice : forall p, (forall r n r' n', random_loop p r n = inr (r', n') ->
      r' = u32 ((steps_coeff p).1 * r + (steps_coeff p).2) /\ Z.testbit r' 30 = false) ->
    forall r n r' n', match random_loop p r n with inl y => inl y | inr (r, n) => random_loop p r n end = inr (r', n') ->
      r' = u32 ((steps_coeff (xO p)).1 * r + (steps_coeff (xO p)).2) /\ Z.testbit r' 30 = false).
  { clear p. intros p IH r n r' n'. destruct (random_loop p r n) as [|[r1 n1]] eqn:H1; [done|]. intros H2.
    apply IH in H1 as [-> _]. apply IH in H2 as [-> ?]. split; [|done]. simpl. destruct (steps_coeff p) as [A C]. simpl. apply u32_affine. }
  induction p as [p IH|p IH|]; intros r n r' n'; cbn [random_loop].
  - destruct (random_step r n) as [|[r1 n1]] eqn:H1; [done|]. intros H2. apply (Htwice p IH) in H2 as [-> ?]. split; [|done].
    apply random_step_inr in H1 as (-> & _ & _). simpl. destruct (steps_coeff p) as [A C]. simpl. unfold next_random.
    replace (r * 1103515245) with (1103515245 * r) by lia. apply u32_affine.
  - apply (Htwice p IH).
  - intros H1. apply random_step_inr in H1 as (-> & _ & ?). split; [|done]. simpl. unfold next_random. f_equal. lia.
Qed.

Lemma random_loop_xI p r n r' n' : random_loop (xI p) r n = inr (r', n') ->
  exists r1 n1, Z.testbit r1 30 = false /\ random_loop (xO p) r1 n1 = inr (r', n').
Proof.
  cbn [random_loop]. destruct (random_step r n) as [|[r1 n1]] eqn:H1; [done|]. intros H2.
  apply random_step_inr in H1 as (_ & _ & H1). by exists r1, n1.
Qed.

Lemma random_loop_ge p : forall r n, match random_loop p r n with inl (_, n') | inr (_, n') => n <= n' end.
Proof.
  assert (Hst : forall r n, match random_step r n with inl (_, n') | inr (_, n') => n <= n' end).
  { intros r n. unfold random_step. cbv zeta. destruct (_ =? 0); lia. }
  induction p as [p IH|p IH|]; intros r0 n; cbn [random_loop]; [pose proof (Hst r0 n)| |apply Hst].
  - destruct (random_step r0 n) as [[]|[r1 n1]]; [done|]. pose proof (IH r1 n1). destruct (random_loop p r1 n1) as [[]|[r2 n2]]; [lia|].
    pose proof (IH r2 n2). destruct (random_loop p r2 n2) as [[]|[]]; lia.
  - pose proof (IH r0 n). destruct (random_loop p r0 n) as [[]|[r2 n2]]; [lia|].
    pose proof (IH r2 n2). destruct (random_loop p r2 n2) as [[]|[]]; lia.
Qed.

(** If [p] steps shift [r] by 2^30 modulo 2^31, bit 30 was set once among [2 * p + 1]. *)
Lemma random_flips p k j : steps_coeff (xO p) = (2 ^ 31 * k + 1, 2 ^ 30 + 2 ^ 31 * j) ->
  forall r, exists x, random_loop (xI p) r 1 = inl x /\ 1 <= x.2.
Proof.
  intros Hc r. pose proof (random_loop_ge (xI p) r 1) as Hge. destruct (random_loop (xI p) r 1) as [[r' n]|[r' n]] eqn:Hl; [by exists (r', n)|].
  exfalso. apply random_loop_xI in Hl as (r1 & n1 & H1 & Hl). apply random_loop_inr in Hl as [-> H2]. rewrite Hc in H2. cbn [fst snd] in H2.
  revert H2. unfold u32. set (x := (2 ^ 31 * k + 1) * r1 + (2 ^ 30 + 2 ^ 31 * j)). intros H2. pose proof (Z.div_mod x 4294967296 ltac:(done)) as Hx.
  set (y := x mod 4294967296) in *. rewrite Z.testbit_false in H1, H2 by done.
  assert (Hy : y = r1 + (1 + 2 * (k * r1 + j - 2 * (x / 4294967296))) * 2 ^ 30) by (unfold x in *; lia).
  rewrite Hy, Z.div_add in H2 by done. set (z := r1 / 2 ^ 30) in *.
  set (w := k * r1 + j - 2 * (x / 4294967296)) in *. replace (z + (1 + 2 * w)) with (z + 1 + w * 2) in H2 by lia. rewrite Z_mod_plus_full in H2.
  pose proof (Z.div_mod z 2 ltac:(done)). pose proof (Z.div_mod (z + 1) 2 ltac:(done)). lia.
Qed.

(** The loop of [Random] ends. *)
Lemma Random_ends r : exists n r', Random r = Ok (n, r') /\ 1 <= n.
Proof.
  unfold Random. assert (Hp : (2 ^ 30 + 1)%positive = xI (2 ^ 29)) by done. rewrite Hp.
  assert (Hc : steps_coeff (xO (2 ^ 29)) = (2 ^ 31 * 0 + 1, 2 ^ 30 + 2 ^ 31 * 1)) by (vm_compute; reflexivity).
  clear Hp. revert Hc. generalize (2 ^ 29)%positive. intros p Hc.
  destruct (random_flips p 0 1 Hc r) as ([r' n] & -> & Hn). by exists n, r'.
Qed.

Lemma log2_loop_ge n : forall i b k, k <= log2_loop n i b k.
Proof.
  induction n as [|n IH]; intros i b k; cbn [log2_loop]; [lia|]. destruct (i >? b); [|lia]. specialize (IH (Z.shiftr i 1) b (k + 1)). lia.
Qed.

Lemma log2_loop_mono n : forall i i' b k, 0 <= i <= i' -> log2_loop n i b k <= log2_loop n i' b k.
Proof.
  induction n as [|n IH]; intros i i' b k Hi; cbn [log2_loop]; [lia|].
  rewrite !Z.gtb_ltb. destruct (Z.ltb_spec b i), (Z.ltb_spec b i'); [|lia| |lia].
  - apply IH. rewrite !Z.shiftr_div_pow2 by done. change (2 ^ 1) with 2. split; [apply Z.div_pos; lia|apply Z.div_le_mono; lia].
  - pose proof (log2_loop_ge n (Z.shiftr i' 1) b (k + 1)). lia.
Qed.

(** The levels every node of the given size has at least. *)
Definition min_levels (size : Z) : Z := Z.min (Z.min (IntLog2 size 64 + 1) ((size - 40) / 8)) 29.

Lemma min_levels_mono s s' : 0 <= s <= s' -> min_levels s <= min_levels s'.
Proof.
  intros Hs. unfold min_levels. pose proof (log2_loop_mono 64 s s' 64 0 Hs). assert ((s - 40) / 8 <= (s' - 40) / 8) by (apply Z.div_le_mono; lia).
  unfold IntLog2. lia.
Qed.

(** Up to 2^34 bytes the number of links that fit is an [int]. *)
Lemma LLA_SkiplistLevels_spec size random r : 64 <= size <= 2 ^ 34 ->
  exists lv r', LLA_SkiplistLevels size 64 random r = Ok (lv, r') /\ 1 <= lv <= 29 /\ min_levels size <= lv /\
    offset_next + 8 * lv <= size /\ (random = false -> lv = min_levels size /\ r' = r).
Proof.
  intros Hs. assert (Hn : exists n r', (if random then Random r else Ok (1, r)) = Ok (n, r') /\ 1 <= n /\ (random = false -> n = 1 /\ r' = r)).
  { destruct random; [|by exists 1, r]. destruct (Random_ends r) as (n & r' & ? & ?). by exists n, r'. }
  destruct Hn as (n & r' & Hn & Hn1 & Hn2). unfold LLA_SkiplistLevels. rewrite Hn. unfold offset_next, kMaxLevel in *. rewrite u64_small by lia.
  assert (Hd : (size - 40) / 8 < 2 ^ 31) by (apply Z.div_lt_upper_bound; lia). assert (Hd1 : 1 <= (size - 40) / 8) by (apply Z.div_le_lower_bound; lia).
  rewrite i32_small by lia. pose proof (Z.mul_div_le (size - 40) 8 ltac:(lia)). pose proof (log2_loop_ge 64 size 64 0) as Hl. fold (IntLog2 size 64) in Hl.
  cbv [mbind result_bind check]. cbv zeta. set (A := IntLog2 size 64) in *. set (D := (size - 40) / 8) in *. unfold min_levels. fold A D.
  rewrite !Z.gtb_ltb, Z.geb_leb. assert (Hlv : exists lv, (if 30 - 1 <? (if D <? A + n then D else A + n) then 30 - 1 else if D <? A + n then D else A + n) = lv /\ lv = Z.min (Z.min (A + n) D) 29).
  { eexists. split; [done|]. repeat case_match; propify; lia. }
  destruct Hlv as (lv & -> & Hlv). destruct (Z.leb_spec 1 lv); [|lia]. exists lv, r'. split; [done|]. split_and!; try lia. intros Hr. destruct (Hn2 Hr). split; [lia|done].
Qed.

(** One more link and the conversion to [int] overflows: the size check fails. *)
Lemma LLA_SkiplistLevels_huge r : LLA_SkiplistLevels (2 ^ 34 + 64) 64 false r = Crash.
Proof. reflexivity. Qed.

(** ** The list a head denotes *)

Definition lv (m : mem) (p : Z) : Z := word_of m (levels_at p).
Definition nx (m : mem) (p i : Z) : Z := word_of m (next_at p i).

(** Following the links of level [i] from [p] visits [l] and then reads [q]. *)
Fixpoint chain (m : mem) (i p : Z) (l : list Z) (q : Z) : Prop :=
  match l with
  | [] => nx m p i = q
  | x :: l => nx m p i = x /\ chain m i x l q
  end.

Definition level_list (m : mem) (i : Z) (l : list Z) : list Z := filter (fun p => i < lv m p) l.

(** *** Chains *)

Lemma chain_app m i l1 : forall p x l2 q, chain m i p (l1 ++ x :: l2) q <-> chain m i p l1 x /\ chain m i x l2 q.
Proof.
  induction l1 as [|y l1 IH]; intros p x l2 q; simpl; [naive_solver|]. rewrite IH. tauto.
Qed.

Lemma chain_last m i l1 : forall p l2 q, chain m i p (l1 ++ l2) q -> nx m (List.last l1 p) i = List.hd q l2.
Proof.
  induction l1 as [|y l1 IH]; intros p l2 q.
  - destruct l2; simpl; naive_solver.
  - intros [_ H]. rewrite last_cons_default. by apply (IH y l2 q).
Qed.

Lemma chain_frame m m' i l : forall p q, (forall x, x ∈ p :: l -> nx m' x i = nx m x i) -> chain m i p l q -> chain m' i p l q.
Proof.
  induction l as [|y l IH]; intros p q Hf; simpl; [by rewrite Hf by left|].
  intros [Hy Hc]. split; [by rewrite Hf by left|]. apply IH; [|done]. intros x Hx. apply Hf. by right.
Qed.

(** The last link of a segment redirected. *)
Lemma chain_redirect m m' i l q' : forall p q, NoDup (p :: l) -> (forall x, x ∈ p :: l -> x <> List.last l p -> nx m' x i = nx m x i) ->
  nx m' (List.last l p) i = q' -> chain m i p l q -> chain m' i p l q'.
Proof.
  induction l as [|y l IH]; intros p q Hnd Hf Hl; [done|]. rewrite last_cons_default in Hl. intros [Hy Hc].
  apply NoDup_cons in Hnd as [Hp Hnd]. split.
  - rewrite Hf; [done|by left|]. rewrite last_cons_default. intros ->. apply Hp. clear. revert y. induction l as [|z l IH]; intros y; [by left|].
    rewrite last_cons_default. right. apply IH.
  - apply (IH y q); [done| |done|done]. intros x Hx Hne. apply Hf; [by right|]. by rewrite last_cons_default.
Qed.

(** *** Sorted lists *)

Lemma sorted_filter (P : Z -> Prop) `{!forall x, Decision (P x)} l : StronglySorted Z.lt l -> StronglySorted Z.lt (filter P l).
Proof.
  induction 1 as [|x l Hs IH Hx]; [constructor|]. rewrite filter_cons. case_decide; [|done]. constructor; [done|].
  rewrite Forall_forall in *. intros y Hy. apply Hx. by apply list_elem_of_filter in Hy as [_ ?].
Qed.

Lemma sorted_NoDup l : StronglySorted Z.lt l -> NoDup l.
Proof.
  induction 1 as [|x l Hs IH Hx]; constructor; [|done]. intros Hin. rewrite Forall_forall in Hx. specialize (Hx x Hin). lia.
Qed.

Definition below (e : Z) (l : list Z) : list Z := filter (fun x => x < e) l.
Definition above (e : Z) (l : list Z) : list Z := filter (fun x => e <= x) l.

Lemma sorted_split e l : StronglySorted Z.lt l -> l = below e l ++ above e l.
Proof.
  induction 1 as [|x l Hs IH Hx]; [done|]. unfold below, above in *. rewrite !filter_cons. destruct (decide (x < e)).
  - rewrite (decide_False (P := e <= x)) by lia. simpl. by f_equal.
  - rewrite (decide_True (P := e <= x)) by lia. rewrite Forall_forall in Hx.
    assert (Hb : filter (fun y => y < e) l = []).
    { destruct (filter _ l) as [|y ys] eqn:Hf; [done|]. exfalso.
      assert (Hy : y ∈ filter (fun y => y < e) l) by (rewrite Hf; left). apply list_elem_of_filter in Hy as [? Hy]. specialize (Hx y Hy). lia. }
    rewrite Hb in *. simpl in *. by f_equal.
Qed.

Lemma below_all e l : Forall (fun x => x < e) l -> below e l = l.
Proof. induction 1 as [|x l Hx _ IH]; [done|]. unfold below in *. rewrite filter_cons_True by done. by f_equal. Qed.

Lemma below_app e l1 l2 : below e (l1 ++ l2) = below e l1 ++ below e l2.
Proof. apply filter_app. Qed.

Lemma below_level m i e l : below e (level_list m i l) = level_list m i (below e l).
Proof. unfold below, level_list. rewrite !list_filter_filter. apply list_filter_iff. intros; tauto. Qed.

Lemma above_level m i e l : above e (level_list m i l) = level_list m i (above e l).
Proof. unfold above, level_list. rewrite !list_filter_filter. apply list_filter_iff. intros; tauto. Qed.

Lemma last_in (l : list Z) : forall d, List.last l d = d /\ l = [] \/ List.last l d ∈ l.
Proof.
  induction l as [|x l IH]; intros d; [by left|]. right. rewrite last_cons_default. destruct (IH x) as [[-> _]|]; [left|by right].
Qed.

(** *** Walking along a level *)

Lemma search_level_run m i e : forall l fuel p, chain m i p l 0 -> StronglySorted Z.lt l -> (forall x, x ∈ l -> 0 < x) ->
  (length l < fuel)%nat -> search_level fuel i e p m = Ok (List.last (below e l) p, m).
Proof.
  induction l as [|x l IH]; intros [|fuel] p Hc Hs Hpos Hf; simpl in Hf; try lia; cbn [search_level].
  - simpl in Hc. erewrite bind_run by (unfold ld; fold (nx m p i); rewrite Hc; done). done.
  - destruct Hc as [Hx Hc]. erewrite bind_run by (unfold ld; fold (nx m p i); rewrite Hx; done).
    pose proof (Hpos x ltac:(left)). destruct (Z.eqb_spec x 0); [lia|]. simpl. apply StronglySorted_inv in Hs as [Hs' Hall].
    unfold below. rewrite filter_cons. destruct (Z.ltb_spec x e).
    + rewrite decide_True by done. rewrite last_cons_default. apply IH; [done|done| |lia]. intros y Hy. apply Hpos. by right.
    + rewrite decide_False by lia. rewrite (sorted_split e l Hs') in Hall.
      destruct (filter (fun y => y < e) l) as [|y ys] eqn:Hb; [done|]. exfalso.
      unfold below in Hall. rewrite Hb in Hall. apply Forall_app in Hall as [Hall _]. apply Forall_cons_1 in Hall as [? _].
      assert (Hy : y ∈ filter (fun y => y < e) l) by (rewrite Hb; left). apply list_elem_of_filter in Hy as [? _]. lia.
Qed.

Lemma last_app_cons (l1 : list Z) x l2 : forall d, List.last (l1 ++ x :: l2) d = List.last l2 x.
Proof. induction l1 as [|y l1 IH]; intros d; [apply last_cons_default|]. simpl app. by rewrite last_cons_default. Qed.

Lemma level_list_elem m i l x : x ∈ level_list m i l <-> x ∈ l /\ i < lv m x.
Proof. unfold level_list. rewrite list_elem_of_filter. tauto. Qed.

Lemma words_count (m : mem) l : NoDup l -> (forall p, p ∈ l -> is_Some (m !! p)) -> (length l <= size m)%nat.
Proof.
  intros Hnd Hw. rewrite <- size_dom. rewrite <- (size_list_to_set (C := gset Z)) by done. apply subseteq_size.
  intros p Hp. apply elem_of_list_to_set in Hp. by apply elem_of_dom, Hw.
Qed.

(** *** The loops that change links *)

Lemma word_insert_eq (m : mem) a v : word_of (<[a := v]> m) a = v.
Proof. unfold word_of. by rewrite lookup_insert_eq. Qed.

Lemma word_insert_ne (m : mem) a b v : a <> b -> word_of (<[a := v]> m) b = word_of m b.
Proof. intros. unfold word_of. by rewrite lookup_insert_ne. Qed.

Lemma word_same (m m' : mem) a : m' !! a = m !! a -> word_of m' a = word_of m a.
Proof. intros H. unfold word_of. by rewrite H. Qed.

(** The node [P j] is linked to [e] at the levels [i <= j < k]. *)
Lemma link_loop_run e k P fuel : forall i m prev, 0 <= i <= k -> lv m e = k -> (Z.to_nat (k - i) < fuel)%nat ->
  (forall j, i <= j < k -> prev !! j = Some (P j)) ->
  (forall j a, i <= j < k -> -1 <= a < k -> next_at (P j) j <> next_at e a) ->
  (forall j j', i <= j < k -> i <= j' < k -> next_at (P j) j = next_at (P j') j' -> j = j') ->
  exists m', link_loop fuel i e prev m = Ok (tt, m') /\
    (forall j, i <= j < k -> nx m' e j = nx m (P j) j /\ nx m' (P j) j = e) /\
    (forall a, (forall j, i <= j < k -> a <> next_at e j /\ a <> next_at (P j) j) -> m' !! a = m !! a) /\
    (forall a, is_Some (m !! a) -> is_Some (m' !! a)).
Proof.
  induction fuel as [|fuel IH]; intros i m prev Hi Hk Hf Hp Hse Hsp; [lia|]. cbn [link_loop]. unfold ld. erewrite bind_run by done. fold (lv m e).
  rewrite Hk. destruct (Z.eqb_spec i k) as [->|Hne]; [exists m; simpl; split_and!; [done|lia|done|done]|].
  change (negb false) with true. cbv iota. unfold prev_at. rewrite Hp by lia. erewrite bind_run by done. erewrite bind_run by done. erewrite bind_run by done. erewrite bind_run by done.
  fold (nx m (P i) i). set (m1 := <[next_at (P i) i := e]> (<[next_at e i := nx m (P i) i]> m)).
  assert (Hother : forall a, a <> next_at (P i) i -> a <> next_at e i -> m1 !! a = m !! a).
  { intros a H1 H2. unfold m1. rewrite !lookup_insert_ne; congruence. }
  assert (Hle : lv m1 e = k).
  { rewrite <- Hk. apply word_same, Hother; [|unfold levels_at, next_at, sizeof_Header, offset_next; lia].
    intros H. apply (Hse i (-1) ltac:(lia) ltac:(lia)). rewrite <- H. unfold levels_at, next_at, sizeof_Header, offset_next. lia. }
  assert (Hei : forall j, i + 1 <= j -> next_at e j <> next_at e i) by (unfold next_at; lia).
  destruct (IH (i + 1) m1 prev) as (m' & Hrun & Hset & Hfr & Hsome).
  { lia. } { done. } { lia. } { intros; apply Hp; lia. } { intros; apply Hse; lia. } { intros ?????. apply Hsp; [lia..|done]. }
  exists m'. split; [done|]. split; [|split].
  - intros j Hj. destruct (decide (j = i)) as [->|Hji].
    + unfold nx. rewrite !(word_same m1 m').
      * unfold m1. rewrite word_insert_eq, word_insert_ne by (apply Hse; lia). by rewrite word_insert_eq.
      * apply Hfr. intros j Hj'. split; [apply not_eq_sym|]; intros H; [by apply (Hse i j ltac:(lia) ltac:(lia))|]. apply Hsp in H; lia.
      * apply Hfr. intros j Hj'. split; [apply not_eq_sym, Hei; lia|]. intros H. by apply (Hse j i ltac:(lia) ltac:(lia)).
    + destruct (Hset j ltac:(lia)) as [Ha Hb]. split; [|done]. rewrite Ha. apply word_same, Hother.
      * intros H. apply Hsp in H; lia.
      * apply Hse; lia.
  - intros a Ha. rewrite Hfr by (intros j Hj; apply Ha; lia). apply Hother; apply (Ha i); lia.
  - intros a Ha. apply Hsome. unfold m1. rewrite !lookup_insert_is_Some'. auto.
Qed.

(** The node [P j] skips [e] at the levels [i <= j < k]. *)
Lemma unlink_loop_run e k P fuel : forall i m prev, 0 <= i <= k -> lv m e = k -> (Z.to_nat (k - i) < fuel)%nat ->
  (forall j, i <= j < k -> prev !! j = Some (P j) /\ nx m (P j) j = e) ->
  (forall j a, i <= j < k -> -1 <= a < k -> next_at (P j) j <> next_at e a) ->
  (forall j j', i <= j < k -> i <= j' < k -> next_at (P j) j = next_at (P j') j' -> j = j') ->
  exists m', unlink_loop fuel i e prev m = Ok (tt, m') /\
    (forall j, i <= j < k -> nx m' (P j) j = nx m e j) /\
    (forall a, (forall j, i <= j < k -> a <> next_at (P j) j) -> m' !! a = m !! a) /\
    (forall a, is_Some (m !! a) -> is_Some (m' !! a)).
Proof.
  induction fuel as [|fuel IH]; intros i m prev Hi Hk Hf Hp Hse Hsp; [lia|]. cbn [unlink_loop]. unfold ld. erewrite bind_run by done. fold (lv m e).
  rewrite Hk. destruct (Z.eqb_spec i k) as [->|Hne]; [exists m; simpl; split_and!; [done|lia|done|done]|].
  change (negb false) with true. cbv iota. destruct (Hp i ltac:(lia)) as [Hpi Hni]. unfold prev_at. rewrite Hpi. erewrite bind_run by done. erewrite bind_run by done.
  fold (nx m (P i) i). rewrite Hni, Z.eqb_refl. erewrite bind_run by done. erewrite bind_run by done. fold (nx m e i).
  set (m1 := <[next_at (P i) i := nx m e i]> m).
  assert (Hother : forall a, a <> next_at (P i) i -> m1 !! a = m !! a) by (intros a H1; unfold m1; rewrite lookup_insert_ne; congruence).
  assert (Hle : lv m1 e = k).
  { rewrite <- Hk. apply word_same, Hother. intros H. apply (Hse i (-1) ltac:(lia) ltac:(lia)). rewrite <- H.
    unfold levels_at, next_at, sizeof_Header, offset_next. lia. }
  destruct (IH (i + 1) m1 prev) as (m' & Hrun & Hset & Hfr & Hsome).
  { lia. } { done. } { lia. }
  { intros j Hj. destruct (Hp j ltac:(lia)) as [Hpj Hn]. split; [done|]. rewrite <- Hn. apply word_same, Hother. intros H. apply Hsp in H; lia. }
  { intros; apply Hse; lia. } { intros ?????. apply Hsp; [lia..|done]. }
  exists m'. split; [done|]. split; [|split].
  - intros j Hj. destruct (decide (j = i)) as [->|Hji].
    + unfold nx. rewrite (word_same m1 m'); [apply word_insert_eq|]. apply Hfr. intros j Hj'. intros H. apply Hsp in H; lia.
    + rewrite (Hset j) by lia. apply word_same, Hother. apply not_eq_sym, Hse; lia.
  - intros a Ha. rewrite Hfr by (intros j Hj; apply Ha; lia). apply Hother. apply (Ha i); lia.
  - intros a Ha. apply Hsome. unfold m1. rewrite lookup_insert_is_Some'. auto.
Qed.

Lemma levels_next p : levels_at p = next_at p (-1).
Proof. unfold levels_at, next_at, sizeof_Header, offset_next. lia. Qed.

Lemma level_list_ext m m' i l : (forall x, x ∈ l -> lv m' x = lv m x) -> level_list m' i l = level_list m i l.
Proof.
  unfold level_list. induction l as [|x l IH]; intros H; [done|]. rewrite !filter_cons, IH by (intros; apply H; by right).
  by rewrite (H x ltac:(left)).
Qed.

Lemma chain_split m i l1 : forall p l2 q, chain m i p (l1 ++ l2) q ->
  chain m i p l1 (List.hd q l2) /\ (forall x l2', l2 = x :: l2' -> chain m i x l2' q).
Proof.
  intros p [|x l2] q.
  - rewrite app_nil_r. intros H. by split.
  - intros H. apply chain_app in H as [H1 H2]. split; [done|]. by intros ? ? [= -> ->].
Qed.

Lemma sorted_insert e l : StronglySorted Z.lt l -> e ∉ l -> StronglySorted Z.lt (below e l ++ e :: above e l).
Proof.
  induction 1 as [|x l Hs IH Hx]; intros He; [repeat constructor|]. apply not_elem_of_cons in He as [Hex He].
  unfold below, above in *. rewrite !filter_cons. rewrite Forall_forall in Hx. destruct (decide (x < e)).
  - rewrite (decide_False (P := e <= x)) by lia. simpl. constructor; [by apply IH|]. apply Forall_forall. intros y Hy.
    apply elem_of_app in Hy as [Hy|Hy]; [|apply elem_of_cons in Hy as [->|Hy]; [done|]]; apply list_elem_of_filter in Hy as [? Hy]; by apply Hx.
  - rewrite (decide_True (P := e <= x)) by lia. assert (Hb : filter (fun y => y < e) l = []).
    { destruct (filter _ l) as [|y ys] eqn:Hf; [done|]. exfalso. assert (Hy : y ∈ filter (fun y => y < e) l) by (rewrite Hf; left).
      apply list_elem_of_filter in Hy as [? Hy]. specialize (Hx y Hy). lia. }
    pose proof (sorted_filter (fun y => e <= y) l Hs) as Hs'. rewrite Hb. simpl. constructor; [constructor; [done|]|].
    + apply Forall_forall. intros y Hy. apply list_elem_of_filter in Hy as [_ Hy]. by apply Hx.
    + constructor; [lia|]. apply Forall_forall. intros y Hy. apply list_elem_of_filter in Hy as [_ Hy]. specialize (Hx y Hy). lia.
Qed.

Lemma elem_insert e l x : x ∈ below e l ++ e :: above e l <-> x = e \/ x ∈ l.
Proof.
  unfold below, above. rewrite elem_of_app, elem_of_cons, !list_elem_of_filter.
  split; [tauto|]. intros [->|Hx]; [auto|]. destruct (decide (x < e)); [auto|]. right. right. split; [lia|done].
Qed.

Lemma elem_skip (x y : Z) l p : p ∈ x :: l -> p ∈ x :: y :: l.
Proof. rewrite !elem_of_cons. tauto. Qed.

Definition without (e : Z) (l : list Z) : list Z := below e l ++ above (e + 1) l.

Lemma above_succ e l : e ∉ l -> above e l = above (e + 1) l.
Proof.
  unfold above. induction l as [|y l IH]; intros He; [done|]. apply not_elem_of_cons in He as [Hy He]. rewrite !filter_cons, IH by done.
  destruct (decide (e <= y)); [rewrite decide_True by lia|rewrite decide_False by lia]; done.
Qed.

Lemma above_elem e l : StronglySorted Z.lt l -> e ∈ l -> above e l = e :: above (e + 1) l.
Proof.
  induction 1 as [|x l Hs IH Hx]; intros He; [by apply elem_of_nil in He|]. rewrite Forall_forall in Hx. unfold above in *. rewrite !filter_cons.
  apply elem_of_cons in He as [->|He].
  - rewrite (decide_True (P := x <= x)), (decide_False (P := x + 1 <= x)) by lia. f_equal.
    apply above_succ. intros Hin. specialize (Hx x Hin). lia.
  - specialize (Hx e He). rewrite (decide_False (P := e <= x)), (decide_False (P := e + 1 <= x)) by lia. by apply IH.
Qed.

Lemma elem_without e l x : x ∈ without e l <-> x ∈ l /\ x <> e.
Proof.
  unfold without, below, above. rewrite elem_of_app, !list_elem_of_filter. split; [intros [[]|[]]; split; [done|lia|done|lia]|].
  intros [? ?]. destruct (decide (x < e)); [auto|]. right. split; [lia|done].
Qed.

Lemma sorted_without e l : StronglySorted Z.lt l -> StronglySorted Z.lt (without e l).
Proof.
  intros Hs. unfold without. pose proof (sorted_filter (fun x => x < e) l Hs) as H1. pose proof (sorted_filter (fun x => e + 1 <= x) l Hs) as H2.
  assert (Hlt : forall x y, x ∈ below e l -> y ∈ above (e + 1) l -> x < y).
  { intros x y Hx Hy. apply list_elem_of_filter in Hx as [? _], Hy as [? _]. lia. }
  fold (below e l) in H1. fold (above (e + 1) l) in H2. revert H1 H2 Hlt. generalize (below e l) (above (e + 1) l). intros l1 l2 H1 H2.
  induction H1 as [|x l1 H1 IH Hx]; intros Hlt; [done|]. simpl. constructor; [apply IH; intros; apply Hlt; [by right|done]|].
  apply Forall_app. split; [done|]. apply Forall_forall. intros y Hy. apply Hlt; [left|done].
Qed.

Lemma chain_join m i l1 p l2 q : chain m i p l1 (List.hd q l2) -> (forall x l2', l2 = x :: l2' -> chain m i x l2' q) -> chain m i p (l1 ++ l2) q.
Proof. destruct l2 as [|x l2]; simpl; intros H1 H2; [by rewrite app_nil_r|]. apply chain_app. split; [done|]. by apply H2. Qed.

Section Skip.
Context (ext : Z -> Z) (h : Z).

(** The nodes occupy disjoint memory, [ext p] bytes each, in which their links fit. *)
Definition apart (N : list Z) : Prop :=
  forall p q, p ∈ N -> q ∈ N -> p <> q -> p + ext p <= q \/ q + ext q <= p.

(** The head denotes the nodes [l]. *)
Record sk (m : mem) (l : list Z) : Prop := {
  sk_sorted : StronglySorted Z.lt l;
  sk_pos p : p ∈ l -> 0 < p;
  sk_not_head : h ∉ l;
  sk_head : 0 <= lv m h <= 29;
  sk_levels p : p ∈ l -> 1 <= lv m p <= lv m h;
  sk_fits p : p ∈ l -> offset_next + 8 * lv m p <= ext p;
  sk_ext : 280 <= ext h;
  sk_apart : apart (h :: l);
  sk_words p : p ∈ l -> is_Some (m !! p);
  sk_chain i : 0 <= i < 30 -> chain m i h (level_list m i l) 0
}.

(** Only links and levels of the nodes [N] change. *)
Definition links_only (N : list Z) (m m' : mem) : Prop :=
  forall a, (forall p, p ∈ N -> ~ p + sizeof_Header <= a < p + ext p) -> m' !! a = m !! a.

(** *** Searching *)

Definition pred (m : mem) (i e : Z) (l : list Z) : Z := List.last (below e (level_list m i l)) h.

Lemma pred_case m i e l : pred m i e l = h \/ (pred m i e l ∈ l /\ pred m i e l < e /\ i < lv m (pred m i e l)).
Proof.
  unfold pred. destruct (last_in (below e (level_list m i l)) h) as [[-> _]|Hin]; [by left|right].
  apply list_elem_of_filter in Hin as [? Hin]. apply list_elem_of_filter in Hin as [? Hin]. done.
Qed.

Lemma search_from m i e l p fuel : sk m l -> 0 <= i < 30 -> (p = h \/ (p ∈ l /\ p < e /\ i < lv m p)) -> (length l < fuel)%nat ->
  search_level fuel i e p m = Ok (pred m i e l, m).
Proof.
  intros Hsk Hi Hp Hf. pose proof (sk_chain _ _ Hsk i Hi) as Hc. pose proof (sorted_filter (fun p => i < lv m p) l (sk_sorted _ _ Hsk)) as Hs.
  assert (Hlen : (length (level_list m i l) <= length l)%nat) by apply length_filter.
  destruct Hp as [->|(Hp & Hpe & Hpi)].
  - apply search_level_run; [done|done| |lia]. intros x Hx. apply level_list_elem in Hx as [? _]. by apply (sk_pos _ _ Hsk).
  - assert (Hin : p ∈ level_list m i l) by (by apply level_list_elem). apply list_elem_of_split in Hin as (l1 & l2 & Hl).
    fold (level_list m i l) in Hs. unfold pred. rewrite Hl in *. apply chain_app in Hc as [_ Hc]. rewrite below_app.
    unfold below at 2. rewrite filter_cons_True by done. rewrite last_app_cons. fold (below e l2).
    rewrite length_app in Hlen. simpl in Hlen. apply search_level_run; [done| | |lia].
    + clear -Hs. induction l1; apply StronglySorted_inv in Hs as [Hs _]; auto.
    + intros x Hx. assert (Hx' : x ∈ level_list m i l) by (rewrite Hl; apply elem_of_app; right; by right).
      apply level_list_elem in Hx' as [? _]. by apply (sk_pos _ _ Hsk).
Qed.

Lemma search_levels_run m e l fuel n : sk m l -> (length l < fuel)%nat -> (n <= 30)%nat ->
  forall p prev, (p = h \/ (p ∈ l /\ p < e /\ Z.of_nat n <= lv m p)) ->
  exists prev', search_levels fuel n e p prev m = Ok (prev', m) /\
    (forall i, 0 <= i < Z.of_nat n -> prev' !! i = Some (pred m i e l)) /\
    (forall i, ~ 0 <= i < Z.of_nat n -> prev' !! i = prev !! i).
Proof.
  intros Hsk Hf. induction n as [|n IH]; intros Hn p prev Hp.
  - exists prev. split; [done|]. split; [lia|done].
  - cbn [search_levels]. erewrite bind_run by (apply (search_from m (Z.of_nat n) e l); [done|lia| |done]; destruct Hp as [?|(?&?&?)]; [by left|right; split_and!; [done..|lia]]).
    destruct (IH ltac:(lia) (pred m (Z.of_nat n) e l) (<[Z.of_nat n := pred m (Z.of_nat n) e l]> prev)) as (prev' & Hrun & H1 & H2).
    { destruct (pred_case m (Z.of_nat n) e l) as [?|(?&?&?)]; [by left|right; split_and!; [done..|lia]]. }
    exists prev'. split; [done|]. split; intros i Hi.
    + destruct (decide (i = Z.of_nat n)) as [->|]; [rewrite H2 by lia; apply lookup_insert_eq|apply H1; lia].
    + rewrite H2 by lia. apply lookup_insert_ne. lia.
Qed.

Lemma level_list_0 m l : sk m l -> level_list m 0 l = l.
Proof.
  intros Hsk. unfold level_list. assert (Hl := sk_levels _ _ Hsk). clear Hsk. induction l as [|x l IH]; [done|].
  rewrite filter_cons_True by (specialize (Hl x ltac:(left)); lia). f_equal. apply IH. intros p Hp. apply Hl. by right.
Qed.

Lemma pred_next m i e l : sk m l -> 0 <= i < 30 -> nx m (pred m i e l) i = List.hd 0 (above e (level_list m i l)).
Proof.
  intros Hsk Hi. unfold pred. apply chain_last. rewrite <- sorted_split; [by apply (sk_chain _ _ Hsk)|]. apply sorted_filter, (sk_sorted _ _ Hsk).
Qed.

(** What [LLA_SkiplistSearch] promises. *)
Lemma LLA_SkiplistSearch_run m e l prev : sk m l ->
  exists prev', LLA_SkiplistSearch h e prev m = Ok ((List.hd 0 (above e l), prev'), m) /\
    (forall i, 0 <= i < lv m h -> prev' !! i = Some (pred m i e l)) /\
    (forall i, ~ 0 <= i < lv m h -> prev' !! i = prev !! i).
Proof.
  intros Hsk. pose proof (sk_head _ _ Hsk) as Hh. pose proof (words_count m l (sorted_NoDup l (sk_sorted _ _ Hsk)) (sk_words _ _ Hsk)) as Hw.
  destruct (search_levels_run m e l (S (size m)) (Z.to_nat (lv m h)) Hsk ltac:(lia) ltac:(lia) h prev ltac:(by left)) as (prev' & Hrun & H1 & H2).
  rewrite Z2Nat.id in H1, H2 by lia. exists prev'. split; [|done]. unfold LLA_SkiplistSearch.
  erewrite bind_run by done. erewrite bind_run by done. fold (lv m h). erewrite bind_run by exact Hrun. destruct (Z.eqb_spec (lv m h) 0) as [H0|Hn0].
  - destruct l as [|x l]; [done|]. pose proof (sk_levels _ _ Hsk x ltac:(left)). lia.
  - unfold prev_at. rewrite H1 by lia. erewrite bind_run by done. unfold ld. erewrite bind_run by done. fold (nx m (pred m 0 e l) 0).
    rewrite pred_next by (done || lia). by rewrite level_list_0.
Qed.

Lemma extend_prev_run e fuel : forall m prev, 0 <= lv m h -> lv m e <= 29 -> e <> h -> (Z.to_nat (lv m e - lv m h) < fuel)%nat ->
  exists prev' m', extend_prev fuel h e prev m = Ok (prev', m') /\ lv m' h = Z.max (lv m h) (lv m e) /\
    (forall a, a <> levels_at h -> m' !! a = m !! a) /\
    (forall i, lv m h <= i < lv m e -> prev' !! i = Some h) /\ (forall i, ~ lv m h <= i < lv m e -> prev' !! i = prev !! i) /\
    (forall a, is_Some (m !! a) -> is_Some (m' !! a)).
Proof.
  induction fuel as [|fuel IH]; intros m prev Hh He Hne Hf; [lia|]. cbn [extend_prev]. unfold ld.
  erewrite bind_run by done. erewrite bind_run by done. fold (lv m h) (lv m e). destruct (Z.ltb_spec (lv m h) (lv m e)).
  - unfold kMaxLevel. rewrite (proj2 (Z.ltb_lt (lv m h) 30)) by lia. cbn [require]. erewrite bind_run by done. erewrite bind_run by done.
    set (m1 := <[levels_at h := lv m h + 1]> m). assert (H1 : lv m1 h = lv m h + 1) by apply word_insert_eq.
    assert (H2 : lv m1 e = lv m e) by (apply word_insert_ne; unfold levels_at; lia).
    destruct (IH m1 (<[lv m h := h]> prev)) as (prev' & m' & Hrun & Hl & Hfr & Hp1 & Hp2 & Hsome); [lia|lia|done|lia|].
    exists prev', m'. split; [done|]. split; [lia|]. split; [|split; [|split]].
    + intros a Ha. rewrite Hfr by done. by apply lookup_insert_ne.
    + intros i Hi. destruct (decide (i = lv m h)) as [->|]; [rewrite Hp2 by lia; apply lookup_insert_eq|apply Hp1; lia].
    + intros i Hi. rewrite Hp2 by lia. apply lookup_insert_ne. lia.
    + intros a Ha. apply Hsome. unfold m1. rewrite lookup_insert_is_Some'. auto.
  - exists prev, m. split; [done|]. split; [lia|]. split; [done|]. split; [lia|done].
Qed.

Lemma level_room m i l x : sk m l -> 0 <= i < 30 -> x ∈ h :: level_list m i l -> x ∈ h :: l /\ offset_next + 8 * (i + 1) <= ext x.
Proof.
  intros Hsk Hi Hx. apply elem_of_cons in Hx as [->|Hx]; [split; [left|]; pose proof (sk_ext _ _ Hsk); unfold offset_next; lia|].
  apply level_list_elem in Hx as [Hx ?]. split; [by right|]. pose proof (sk_fits _ _ Hsk x Hx). unfold offset_next in *. lia.
Qed.

(** Memory and room may change where the list does not look. *)
Lemma sk_frame m m' l : sk m l ->
  (forall p i, p ∈ h :: l -> -1 <= i < 30 -> offset_next + 8 * (i + 1) <= ext p -> m' !! next_at p i = m !! next_at p i) ->
  (forall p, p ∈ l -> is_Some (m' !! p)) -> sk m' l.
Proof.
  intros Hsk Hf Hw. pose proof (sk_ext _ _ Hsk) as Hxt. assert (Hlv : forall p, p ∈ h :: l -> lv m' p = lv m p).
  { intros p Hp. apply word_same. rewrite levels_next. apply Hf; [done|lia|]. apply elem_of_cons in Hp as [->|Hp]; [unfold offset_next; lia|].
    pose proof (sk_fits _ _ Hsk p Hp). pose proof (sk_levels _ _ Hsk p Hp). unfold offset_next in *. lia. }
  split; try apply Hsk; [rewrite Hlv by left; apply Hsk| | |done|].
  - intros p Hp. rewrite !Hlv by (left || by right). by apply (sk_levels _ _ Hsk).
  - intros p Hp. rewrite Hlv by (by right). by apply (sk_fits _ _ Hsk).
  - intros i Hi. rewrite (level_list_ext m m') by (intros x Hx; apply Hlv; by right). eapply chain_frame; [|by apply (sk_chain _ _ Hsk)].
    intros x Hx. destruct (level_room m i l x Hsk Hi Hx). apply word_same, Hf; [done|lia|done].
Qed.

(** *** Insertion *)

(** Words of different nodes, and different words of a node, are different. *)
Lemma next_inj N p q i j : apart N -> p ∈ N -> q ∈ N -> -1 <= i -> -1 <= j -> offset_next + 8 * (i + 1) <= ext p ->
  offset_next + 8 * (j + 1) <= ext q -> next_at p i = next_at q j -> p = q /\ i = j.
Proof.
  intros Ha Hp Hq Hi Hj Hip Hjq He. unfold next_at, offset_next in *. destruct (decide (p = q)) as [->|Hne]; [split; [done|lia]|].
  exfalso. destruct (Ha p q Hp Hq Hne); lia.
Qed.

(** The link read at level [i] belongs to the node found there. *)
Lemma pred_room m i e l : sk m l -> 0 <= i < 30 -> pred m i e l ∈ h :: l /\ offset_next + 8 * (i + 1) <= ext (pred m i e l).
Proof.
  intros Hsk Hi. destruct (pred_case m i e l) as [->|(Hin & _ & Hl)].
  - split; [left|]. pose proof (sk_ext _ _ Hsk). unfold offset_next. lia.
  - split; [by right|]. pose proof (sk_fits _ _ Hsk _ Hin). unfold offset_next in *. lia.
Qed.

(** Memory after the links of [e] are set. *)
Record linked (m m' : mem) (e k : Z) (l : list Z) : Prop := {
  ln_new i : 0 <= i < k -> nx m' (pred m i e l) i = e;
  ln_copy i : 0 <= i < k -> nx m' e i = nx m (pred m i e l) i;
  ln_same p i : p ∈ h :: l -> 0 <= i -> offset_next + 8 * (i + 1) <= ext p -> (p <> pred m i e l \/ k <= i) -> nx m' p i = nx m p i
}.

Lemma linked_chain m m' e k l i : sk m l -> linked m m' e k l -> e ∉ l -> 0 <= i < 30 ->
  (i < k -> chain m' i h (below e (level_list m i l) ++ e :: above e (level_list m i l)) 0) /\
  (k <= i -> chain m' i h (level_list m i l) 0).
Proof.
  intros Hsk Hln He Hi. pose proof (sk_chain _ _ Hsk i Hi) as Hc. set (L := level_list m i l) in *.
  assert (HL : StronglySorted Z.lt L) by apply sorted_filter, (sk_sorted _ _ Hsk).
  pose proof (fun x => level_room m i l x Hsk Hi) as Hroom. fold L in Hroom.
  split.
  - intros Hk. rewrite (sorted_split e L HL) in Hc. apply chain_split in Hc as [H1 H2]. apply chain_app. split.
    + apply (chain_redirect m _ _ _ e h (List.hd 0 (above e L))); [| |by apply (ln_new _ _ _ _ _ Hln); lia|done].
      * constructor; [|by apply sorted_NoDup, sorted_filter]. intros Hin. apply list_elem_of_filter in Hin as [_ Hin].
        apply level_list_elem in Hin as [Hin _]. by apply (sk_not_head _ _ Hsk).
      * intros x Hx Hne. assert (Hx' : x ∈ h :: L).
        { apply elem_of_cons in Hx as [->|Hx]; [left|right]. by apply list_elem_of_filter in Hx as [_ ?]. }
        destruct (Hroom x Hx'). apply (ln_same _ _ _ _ _ Hln); [done|lia|done|by left].
    + pose proof (pred_next m i e l Hsk Hi) as Hn. rewrite <- (ln_copy _ _ _ _ _ Hln i ltac:(lia)) in Hn. fold L in Hn.
      destruct (above e L) as [|y l2] eqn:Hab; [done|]. split; [done|]. eapply chain_frame; [|by apply (H2 y l2)].
      intros x Hx. rewrite <- Hab in Hx. apply list_elem_of_filter in Hx as [Hex Hx]. destruct (Hroom x ltac:(by right)).
      apply (ln_same _ _ _ _ _ Hln); [done|lia|done|left]. apply level_list_elem in Hx as [Hx _]. destruct (pred_case m i e l) as [->|(_ & ? & _)]; [|lia].
      intros ->. by apply (sk_not_head _ _ Hsk).
  - intros Hk. eapply chain_frame; [|exact Hc]. intros x Hx. destruct (Hroom x Hx). apply (ln_same _ _ _ _ _ Hln); [done|lia|done|by right].
Qed.

Lemma insert_links m e l prev : sk m l -> e ∉ l -> e <> h -> apart (h :: e :: l) -> 1 <= lv m e <= 29 -> offset_next + 8 * lv m e <= ext e ->
  exists prev' m', LLA_SkiplistInsert h e prev m = Ok (prev', m') /\ prev' !! 0 = Some (pred m 0 e l) /\ linked m m' e (lv m e) l /\
    lv m' h = Z.max (lv m h) (lv m e) /\ (forall p, p ∈ e :: l -> lv m' p = lv m p) /\ links_only (h :: e :: l) m m' /\
    (forall a, is_Some (m !! a) -> is_Some (m' !! a)).
Proof.
  intros Hsk He Heh Hap Hk Hfit. pose proof (sk_head _ _ Hsk) as Hh. pose proof (sk_ext _ _ Hsk) as Hxt.
  destruct (LLA_SkiplistSearch_run m e l prev Hsk) as (prev1 & Hrun1 & Hp1 & _).
  destruct (extend_prev_run e 31 m prev1 ltac:(lia) ltac:(lia) Heh ltac:(lia)) as (prev2 & m2 & Hrun2 & Hlh & Hm2 & Hp2 & Hp3 & Hsome2).
  set (P i := pred m i e l). set (k := lv m e) in *.
  assert (Hroom : forall i, 0 <= i < k -> P i ∈ h :: e :: l /\ offset_next + 8 * (i + 1) <= ext (P i) /\ P i <> e).
  { intros i Hi. destruct (pred_room m i e l Hsk ltac:(lia)) as [H1 H2]. split_and!; [by apply elem_skip|done|].
    intros Heq. fold (P i) in H1. rewrite Heq in H1. apply elem_of_cons in H1 as [?|?]; done. }
  assert (Hprev : forall i, 0 <= i < k -> prev2 !! i = Some (P i)).
  { intros i Hi. destruct (decide (lv m h <= i)).
    - rewrite Hp2 by lia. f_equal. unfold P, pred. assert (Hnil : level_list m i l = []); [|by rewrite Hnil].
      destruct (level_list m i l) as [|x xs] eqn:Hl; [done|]. assert (Hx : x ∈ level_list m i l) by (rewrite Hl; left).
      apply level_list_elem in Hx as [Hx ?]. pose proof (sk_levels _ _ Hsk x Hx). lia.
    - rewrite Hp3 by lia. apply Hp1. lia. }
  assert (Hle : lv m2 e = k) by (apply word_same, Hm2; unfold levels_at; lia).
  destruct (link_loop_run e k P 31 0 m2 prev2) as (m3 & Hrun3 & Hset & Hfr & Hsome).
  { lia. } { done. } { lia. } { intros j Hj. apply Hprev. lia. }
  { intros j a Hj Ha Heq. destruct (Hroom j ltac:(lia)) as (H1 & H2 & H3).
    destruct (next_inj (h :: e :: l) (P j) e j a) as [? _]; [done|done|right; left|lia|lia|done|unfold offset_next in *; lia|done|done]. }
  { intros j j' Hj Hj' Heq. destruct (Hroom j ltac:(lia)) as (H1 & H2 & H3), (Hroom j' ltac:(lia)) as (H1' & H2' & H3').
    by destruct (next_inj (h :: e :: l) (P j) (P j') j j') as [_ ?]; [done|done|done|lia|lia|..]. }
  assert (Hn2 : forall p i, p ∈ h :: e :: l -> 0 <= i -> offset_next + 8 * (i + 1) <= ext p -> nx m2 p i = nx m p i).
  { intros p i Hp Hi Hpi. apply word_same, Hm2. rewrite levels_next. intros Heq.
    destruct (next_inj (h :: e :: l) p h i (-1)) as [_ ?]; [done|done|left|lia|lia|done|unfold offset_next; lia|done|lia]. }
  assert (Hoth : forall p i, p ∈ h :: l -> -1 <= i -> offset_next + 8 * (i + 1) <= ext p -> (p <> P i \/ k <= i \/ i < 0) -> m3 !! next_at p i = m2 !! next_at p i).
  { intros p i Hp Hi Hpi Hor. pose proof (elem_skip h e l p Hp) as Hp'.
    assert (Hpe : p <> e) by (intros ->; apply elem_of_cons in Hp as [?|?]; done).
    apply Hfr. intros j Hj. destruct (Hroom j ltac:(lia)) as (H1 & H2 & H3). split; intros Heq.
    - destruct (next_inj (h :: e :: l) p e i j) as [? _]; [done|done|right; left|lia|lia|done|unfold offset_next in *; lia|done|done].
    - destruct (next_inj (h :: e :: l) p (P j) i j) as [-> ->]; [done|done|done|lia|lia|done|done|done|]. destruct Hor as [?|[?|?]]; [done|lia|lia]. }
  assert (Hlv : forall p, p ∈ h :: l -> lv m3 p = lv m2 p).
  { intros p Hp. apply word_same. rewrite levels_next. apply Hoth; [done|lia| |lia]. apply elem_of_cons in Hp as [->|Hp]; [unfold offset_next; lia|].
    pose proof (sk_fits _ _ Hsk p Hp). pose proof (sk_levels _ _ Hsk p Hp). unfold offset_next in *. lia. }
  exists prev2, m3. split.
  { unfold LLA_SkiplistInsert. erewrite bind_run by exact Hrun1. cbv beta iota. erewrite bind_run by exact Hrun2. erewrite bind_run by exact Hrun3. done. }
  split; [apply Hprev; lia|]. split; [|split; [|split; [|split]]].
  - split.
    + intros i Hi. apply Hset. lia.
    + intros i Hi. destruct (Hset i ltac:(lia)) as [-> _]. destruct (Hroom i Hi) as (? & ? & _). apply Hn2; [done|lia|done].
    + intros p i Hp Hi Hpi Hor. unfold nx at 1. rewrite (word_same m2 m3) by (apply Hoth; [done|lia|done|destruct Hor; [by left|right; by left]]).
      apply Hn2; [by apply elem_skip|lia|done].
  - rewrite Hlv by left. exact Hlh.
  - intros p Hp. apply elem_of_cons in Hp as [->|Hp].
    + trans (lv m2 e); [|done]. apply word_same. rewrite levels_next. apply Hfr. intros j Hj. destruct (Hroom j ltac:(lia)) as (H1 & H2 & H3).
      split; [unfold next_at; lia|]. intros Heq. destruct (next_inj (h :: e :: l) e (P j) (-1) j) as [_ ?]; [done|right; left|done|lia|lia|unfold offset_next in *; lia|done|done|lia].
    + rewrite Hlv by (by right). apply word_same, Hm2. unfold levels_at. intros ?. assert (p = h) as -> by lia. by apply (sk_not_head _ _ Hsk).
  - intros a Ha. rewrite Hfr, Hm2; [done| |].
    + intros ->. apply (Ha h ltac:(left)). unfold levels_at, sizeof_Header. lia.
    + intros j Hj. destruct (Hroom j ltac:(lia)) as (H1 & H2 & H3). split; intros ->.
      * apply (Ha e ltac:(right; left)). unfold next_at, sizeof_Header, offset_next in *. lia.
      * apply (Ha (P j) H1). unfold next_at, sizeof_Header, offset_next in *. lia.
  - intros a Ha. by apply Hsome, Hsome2.
Qed.

(** What [LLA_SkiplistInsert] promises. *)
Lemma LLA_SkiplistInsert_run m e l prev : sk m l -> e ∉ l -> e <> h -> 0 < e -> apart (h :: e :: l) -> 1 <= lv m e <= 29 ->
  offset_next + 8 * lv m e <= ext e -> is_Some (m !! e) ->
  exists prev' m', LLA_SkiplistInsert h e prev m = Ok (prev', m') /\ prev' !! 0 = Some (List.last (below e l) h) /\
    sk m' (below e l ++ e :: above e l) /\ (forall p, p ∈ e :: l -> lv m' p = lv m p) /\ links_only (h :: e :: l) m m' /\
    (forall a, is_Some (m !! a) -> is_Some (m' !! a)).
Proof.
  intros Hsk He Heh Hpos Hap Hk Hfit Hw. pose proof (sk_head _ _ Hsk) as Hh.
  destruct (insert_links m e l prev Hsk He Heh Hap Hk Hfit) as (prev' & m' & Hrun & Hp0 & Hln & Hlh & Hlv & Hlo & Hsome).
  exists prev', m'. split; [done|]. split; [rewrite Hp0; unfold pred; by rewrite level_list_0|]. split; [|done].
  assert (Hlv' : forall p, p ∈ below e l ++ e :: above e l -> lv m' p = lv m p).
  { intros p Hp. apply Hlv. apply elem_insert in Hp as [->|?]; [left|by right]. }
  split.
  - apply sorted_insert; [apply (sk_sorted _ _ Hsk)|done].
  - intros p Hp. apply elem_insert in Hp as [->|?]; [done|by apply (sk_pos _ _ Hsk)].
  - rewrite elem_insert. intros [?|?]; [congruence|by apply (sk_not_head _ _ Hsk)].
  - lia.
  - intros p Hp. rewrite Hlv' by done. rewrite Hlh. apply elem_insert in Hp as [->|Hp]; [lia|]. pose proof (sk_levels _ _ Hsk p Hp). lia.
  - intros p Hp. rewrite Hlv' by done. apply elem_insert in Hp as [->|Hp]; [done|]. by apply (sk_fits _ _ Hsk).
  - apply (sk_ext _ _ Hsk).
  - assert (Hsub : forall p, p ∈ h :: below e l ++ e :: above e l -> p ∈ h :: e :: l).
    { intros p. rewrite !elem_of_cons, elem_insert. tauto. }
    intros p q Hp Hq. apply Hap; by apply Hsub.
  - intros p Hp. apply Hsome. apply elem_insert in Hp as [->|Hp]; [done|]. by apply (sk_words _ _ Hsk).
  - intros i Hi. destruct (linked_chain m m' e (lv m e) l i Hsk Hln He Hi) as [H1 H2]. rewrite (level_list_ext m m') by done.
    unfold level_list at 1. rewrite filter_app, filter_cons. fold (level_list m i (below e l)) (level_list m i (above e l)).
    rewrite <- below_level, <- above_level. case_decide; [by apply H1|]. rewrite <- sorted_split; [apply H2; lia|]. apply sorted_filter, (sk_sorted _ _ Hsk).
Qed.

(** *** Deletion *)

(** Memory after the links to [e] are redirected. *)
Record unlinked (m m' : mem) (e k : Z) (l : list Z) : Prop := {
  un_new i : 0 <= i < k -> nx m' (pred m i e l) i = nx m e i;
  un_same p i : p ∈ h :: l -> 0 <= i -> offset_next + 8 * (i + 1) <= ext p -> (p <> pred m i e l \/ k <= i) -> nx m' p i = nx m p i
}.

Lemma unlinked_chain m m' e l i : sk m l -> unlinked m m' e (lv m e) l -> e ∈ l -> 0 <= i < 30 ->
  chain m' i h (level_list m i (without e l)) 0.
Proof.
  intros Hsk Hun He Hi. pose proof (sk_chain _ _ Hsk i Hi) as Hc. unfold without, level_list at 1. rewrite filter_app.
  fold (level_list m i (below e l)) (level_list m i (above (e + 1) l)). rewrite <- below_level, <- above_level. set (L := level_list m i l) in *.
  assert (HL : StronglySorted Z.lt L) by apply sorted_filter, (sk_sorted _ _ Hsk).
  pose proof (fun x => level_room m i l x Hsk Hi) as Hroom. fold L in Hroom.
  destruct (decide (i < lv m e)) as [Hk|Hk].
  - assert (HeL : e ∈ L) by (by apply level_list_elem). rewrite (sorted_split e L HL), above_elem in Hc by done. apply chain_app in Hc as [H1 H2].
    assert (Hn : nx m e i = List.hd 0 (above (e + 1) L)) by (destruct (above (e + 1) L); simpl in H2 |- *; naive_solver).
    apply chain_join.
    + apply (chain_redirect m _ _ _ _ h e); [| | |done].
      * constructor; [|by apply sorted_NoDup, sorted_filter]. intros Hin. apply list_elem_of_filter in Hin as [_ Hin].
        apply level_list_elem in Hin as [Hin _]. by apply (sk_not_head _ _ Hsk).
      * intros x Hx Hne. assert (Hx' : x ∈ h :: L).
        { apply elem_of_cons in Hx as [->|Hx]; [left|right]. by apply list_elem_of_filter in Hx as [_ ?]. }
        destruct (Hroom x Hx'). apply (un_same _ _ _ _ _ Hun); [done|lia|done|by left].
      * rewrite <- Hn. apply (un_new _ _ _ _ _ Hun). lia.
    + intros x l2 Hab. rewrite Hab in H2. destruct H2 as [_ H2]. eapply chain_frame; [|exact H2].
      intros y Hy. rewrite <- Hab in Hy. apply list_elem_of_filter in Hy as [Hey Hy]. destruct (Hroom y ltac:(by right)).
      apply (un_same _ _ _ _ _ Hun); [done|lia|done|left]. apply level_list_elem in Hy as [Hy _]. destruct (pred_case m i e l) as [->|(_ & ? & _)]; [|lia].
      intros ->. by apply (sk_not_head _ _ Hsk).
  - assert (Hsame : below e L ++ above (e + 1) L = L).
    { rewrite (sorted_split e L HL) at 3. f_equal. symmetry. apply above_succ. unfold L. rewrite level_list_elem. tauto. }
    rewrite Hsame. eapply chain_frame; [|exact Hc]. intros x Hx. destruct (Hroom x Hx). apply (un_same _ _ _ _ _ Hun); [done|lia|done|right; lia].
Qed.

Lemma shrink_levels_run fuel : forall m, 0 <= lv m h <= 29 -> (Z.to_nat (lv m h) < fuel)%nat ->
  exists m', shrink_levels fuel h m = Ok (tt, m') /\ 0 <= lv m' h <= lv m h /\ (forall i, lv m' h <= i < lv m h -> nx m h i = 0) /\
    (forall a, a <> levels_at h -> m' !! a = m !! a) /\ (forall a, is_Some (m !! a) -> is_Some (m' !! a)).
Proof.
  induction fuel as [|fuel IH]; intros m Hh Hf; [lia|]. cbn [shrink_levels]. unfold ld. erewrite bind_run by done. fold (lv m h).
  rewrite Z.gtb_ltb. destruct (Z.ltb_spec 0 (lv m h)); [|exists m; split; [done|]; split; [lia|]; split; [lia|done]].
  erewrite bind_run by done. fold (nx m h (lv m h - 1)). destruct (Z.eqb_spec (nx m h (lv m h - 1)) 0); [|exists m; split; [done|]; split; [lia|]; split; [lia|done]].
  erewrite bind_run by done. set (m1 := <[levels_at h := lv m h - 1]> m). assert (H1 : lv m1 h = lv m h - 1) by apply word_insert_eq.
  destruct (IH m1) as (m' & Hrun & Hl & Hz & Hfr & Hsome); [lia|lia|]. exists m'. split; [done|]. split; [lia|]. split; [|split].
  - intros i Hi. destruct (decide (i = lv m h - 1)) as [->|]; [done|]. rewrite <- (Hz i) by lia. apply word_same. unfold m1. rewrite lookup_insert_ne; [done|].
    rewrite levels_next. unfold next_at. lia.
  - intros a Ha. rewrite Hfr by done. by apply lookup_insert_ne.
  - intros a Ha. apply Hsome. unfold m1. rewrite lookup_insert_is_Some'. auto.
Qed.

Lemma delete_links m e l prev : sk m l -> e ∈ l ->
  exists prev' m1 m', LLA_SkiplistDelete h e prev m = Ok (prev', m') /\ unlinked m m1 e (lv m e) l /\
    (forall p, p ∈ h :: l -> lv m1 p = lv m p) /\ 0 <= lv m' h <= lv m h /\ (forall i, lv m' h <= i < lv m h -> nx m1 h i = 0) /\
    (forall a, a <> levels_at h -> m' !! a = m1 !! a) /\ links_only (h :: l) m m' /\ (forall a, is_Some (m !! a) -> is_Some (m' !! a)).
Proof.
  intros Hsk He. pose proof (sk_head _ _ Hsk) as Hh. pose proof (sk_ext _ _ Hsk) as Hxt. pose proof (sk_levels _ _ Hsk e He) as Hk. pose proof (sk_fits _ _ Hsk e He) as Hfit.
  pose proof (sk_apart _ _ Hsk) as Hap. destruct (LLA_SkiplistSearch_run m e l prev Hsk) as (prev1 & Hrun1 & Hp1 & _).
  rewrite above_elem in Hrun1 by (done || apply (sk_sorted _ _ Hsk)). simpl in Hrun1. set (P i := pred m i e l). set (k := lv m e) in *.
  assert (Hroom : forall i, 0 <= i < k -> P i ∈ h :: l /\ offset_next + 8 * (i + 1) <= ext (P i) /\ P i <> e).
  { intros i Hi. destruct (pred_room m i e l Hsk ltac:(lia)) as [H1 H2]. split_and!; [done|done|]. unfold P.
    destruct (pred_case m i e l) as [->|(_ & ? & _)]; [intros Heq; apply (sk_not_head _ _ Hsk); by rewrite Heq|lia]. }
  destruct (unlink_loop_run e k P 31 0 m prev1) as (m1 & Hrun2 & Hset & Hfr & Hsome).
  { lia. } { done. } { lia. }
  { intros j Hj. split; [apply Hp1; lia|]. unfold P. rewrite pred_next by (done || lia). rewrite above_elem; [done|apply sorted_filter, (sk_sorted _ _ Hsk)|].
    apply level_list_elem. split; [done|]. fold k. lia. }
  { intros j a Hj Ha Heq. destruct (Hroom j ltac:(lia)) as (H1 & H2 & H3).
    destruct (next_inj (h :: l) (P j) e j a) as [? _]; [done|done|by right|lia|lia|done|unfold offset_next in *; lia|done|done]. }
  { intros j j' Hj Hj' Heq. destruct (Hroom j ltac:(lia)) as (H1 & H2 & H3), (Hroom j' ltac:(lia)) as (H1' & H2' & H3').
    by destruct (next_inj (h :: l) (P j) (P j') j j') as [_ ?]; [done|done|done|lia|lia|..]. }
  assert (Hoth : forall p i, p ∈ h :: l -> -1 <= i -> offset_next + 8 * (i + 1) <= ext p -> (p <> P i \/ k <= i \/ i < 0) -> m1 !! next_at p i = m !! next_at p i).
  { intros p i Hp Hi Hpi Hor. apply Hfr. intros j Hj Heq. destruct (Hroom j ltac:(lia)) as (H1 & H2 & H3).
    destruct (next_inj (h :: l) p (P j) i j) as [-> ->]; [done|done|done|lia|lia|done|done|done|]. destruct Hor as [?|[?|?]]; [done|lia|lia]. }
  assert (Hlv : forall p, p ∈ h :: l -> lv m1 p = lv m p).
  { intros p Hp. apply word_same. rewrite levels_next. apply Hoth; [done|lia| |lia]. apply elem_of_cons in Hp as [->|Hp]; [unfold offset_next; lia|].
    pose proof (sk_fits _ _ Hsk p Hp). pose proof (sk_levels _ _ Hsk p Hp). unfold offset_next in *. lia. }
  pose proof (Hlv h ltac:(left)) as Hlh. destruct (shrink_levels_run 31 m1 ltac:(lia) ltac:(lia)) as (m2 & Hrun3 & Hl2 & Hz & Hfr2 & Hsome2).
  exists prev1, m1, m2. rewrite Hlh in Hl2, Hz. split; [|split; [|split; [done|split; [done|split; [done|split; [done|split]]]]]].
  - unfold LLA_SkiplistDelete. erewrite bind_run by exact Hrun1. cbv beta iota. rewrite Z.eqb_refl. cbn [require]. erewrite bind_run by done.
    erewrite bind_run by exact Hrun2. erewrite bind_run by exact Hrun3. done.
  - split; [intros i Hi; apply Hset; lia|]. intros p i Hp Hi Hpi Hor. apply word_same, Hoth; [done|lia|done|destruct Hor; [by left|right; by left]].
  - intros a Ha. rewrite Hfr2, Hfr; [done| |].
    + intros j Hj ->. destruct (Hroom j ltac:(lia)) as (H1 & H2 & H3). apply (Ha (P j) H1). unfold next_at, sizeof_Header, offset_next in *. lia.
    + intros ->. apply (Ha h ltac:(left)). unfold levels_at, sizeof_Header. lia.
  - intros a Ha. by apply Hsome2, Hsome.
Qed.

(** What [LLA_SkiplistDelete] promises. *)
Lemma LLA_SkiplistDelete_run m e l prev : sk m l -> e ∈ l ->
  exists prev' m', LLA_SkiplistDelete h e prev m = Ok (prev', m') /\ sk m' (without e l) /\
    (forall p, p ∈ l -> lv m' p = lv m p) /\ links_only (h :: l) m m' /\ (forall a, is_Some (m !! a) -> is_Some (m' !! a)).
Proof.
  intros Hsk He. pose proof (sk_head _ _ Hsk) as Hh. destruct (delete_links m e l prev Hsk He) as (prev' & m1 & m' & Hrun & Hun & Hlv1 & Hlh & Hz & Hfr & Hlo & Hsome).
  exists prev', m'. split; [done|]. assert (Hlv : forall p, p ∈ l -> lv m' p = lv m p).
  { intros p Hp. trans (lv m1 p); [|by apply Hlv1; right]. apply word_same, Hfr. unfold levels_at. intros ?. assert (p = h) as -> by lia. by apply (sk_not_head _ _ Hsk). }
  assert (Hchain1 : forall i, 0 <= i < 30 -> chain m1 i h (level_list m i (without e l)) 0) by (intros; by apply unlinked_chain).
  split; [|done]. split.
  - apply sorted_without, (sk_sorted _ _ Hsk).
  - intros p Hp. apply elem_without in Hp as [? _]. by apply (sk_pos _ _ Hsk).
  - rewrite elem_without. intros [? _]. by apply (sk_not_head _ _ Hsk).
  - lia.
  - intros p Hp. pose proof Hp as Hp'. apply elem_without in Hp as [Hp _]. pose proof (sk_levels _ _ Hsk p Hp) as Hl. rewrite Hlv by done. split; [lia|].
    destruct (Z.le_gt_cases (lv m p) (lv m' h)) as [|Hgt]; [done|]. exfalso. specialize (Hchain1 (lv m' h) ltac:(lia)).
    assert (Hin : p ∈ level_list m (lv m' h) (without e l)) by (apply level_list_elem; split; [done|lia]).
    destruct (level_list m (lv m' h) (without e l)) as [|x xs] eqn:Hl'; [by apply elem_of_nil in Hin|]. destruct Hchain1 as [Hx _]. rewrite Hz in Hx by lia.
    assert (Hxin : x ∈ level_list m (lv m' h) (without e l)) by (rewrite Hl'; left). apply level_list_elem in Hxin as [Hxin _]. apply elem_without in Hxin as [Hxin _].
    pose proof (sk_pos _ _ Hsk x Hxin). lia.
  - intros p Hp. apply elem_without in Hp as [Hp _]. rewrite Hlv by done. by apply (sk_fits _ _ Hsk).
  - apply (sk_ext _ _ Hsk).
  - intros p q Hp Hq. apply (sk_apart _ _ Hsk); [revert Hp|revert Hq]; rewrite !elem_of_cons, elem_without; tauto.
  - intros p Hp. apply Hsome, (sk_words _ _ Hsk). by apply elem_without in Hp as [? _].
  - intros i Hi. rewrite (level_list_ext m m') by (intros x Hx; apply Hlv; by apply elem_without in Hx as [? _]).
    eapply chain_frame; [|by apply Hchain1]. intros x Hx. apply word_same, Hfr. rewrite levels_next. intros Heq.
    assert (Hx' : x ∈ h :: level_list m i l).
    { revert Hx. rewrite !elem_of_cons, !level_list_elem, elem_without. tauto. }
    destruct (level_room m i l x Hsk Hi Hx') as [Hx1 Hx2]. pose proof (sk_ext _ _ Hsk).
    destruct (next_inj (h :: l) x h i (-1)) as [_ ?]; [apply (sk_apart _ _ Hsk)|done|left|lia|lia|done|unfold offset_next; lia|done|lia].
Qed.
End Skip.

Lemma sk_room ext ext' h m l : sk ext h m l -> (forall p, p ∈ l -> offset_next + 8 * lv m p <= ext' p) -> 280 <= ext' h -> apart ext' (h :: l) -> sk ext' h m l.
Proof. intros [] **. by split. Qed.
