(* ===== verification/LowLevelAlloc.v ===== *)
(** The low-level allocator: [src/base/low_level_alloc.h] and [src/base/low_level_alloc.cc].

    Arenas, block headers and free blocks are words of the memory.  The pages come from a
    [PagesAllocator] object, an interface; [DefaultPagesAllocator] implements it with the
    system calls.  [RAW_CHECK] is a [Crash], except the one on the result of [mmap], which
    ends the process for lack of memory.  Each function runs to its end before the next one:
    the moment [AllocWithArena] gives up the lock to map pages is not interleaved. *)
From S2P Require Import Prelude SizeMap LinkedList Bytes SystemAlloc SkipList.

Definition kMinimalRegion : Z := 2 ^ 20.

(** ** Layout of [LowLevelAlloc::Arena]: the lock is the first word *)

Definition freelist_at (arena : Z) : Z := arena + 8.
Definition allocation_count_at (arena : Z) : Z := arena + 288.
Definition roundup_at (arena : Z) : Z := arena + 296.
Definition min_size_at (arena : Z) : Z := arena + 304.
Definition allocator_at (arena : Z) : Z := arena + 312.
Definition sizeof_Arena : Z := 320.

Definition kMagicAllocated : Z := 0x4c833e95.
Definition kMagicUnallocated : Z := 2 ^ 64 - 1 - kMagicAllocated.
Definition Magic (magic ptr : Z) : Z := Z.lxor magic ptr.

(** [LowLevelAlloc::PagesAllocator]: the virtual functions, by the address of the object. *)
Class PagesAllocator (W : Type) := {
  MapPages : Z -> Z -> M W (Z * Z);
  UnMapPages : Z -> Z -> Z -> M W unit;
  (** [default_pages_allocator.get()] *)
  default_pages_allocator : Z
}.

Section LowLevelAlloc.
Context {W : Type} {PA : PagesAllocator W}.
(** The place of the static default arena. *)
Context (default_arena_storage : Z).

Record LLA := mkLLA {
  lla_mem : mem;
  random_r : Z;           (* [r] of [Random] *)
  default_arena : Z;      (* [arena] of [DefaultArena] *)
  lla_world : W
}.

Abbreviation ML := (M LLA).

Definition on_mem {A} (f : MM A) : ML A := fun s =>
  '(a, m) ← f s.(lla_mem);
  Ok (a, mkLLA m s.(random_r) s.(default_arena) s.(lla_world)).
Definition on_world {A} (f : M W A) : ML A := fun s =>
  '(a, w) ← f s.(lla_world);
  Ok (a, mkLLA s.(lla_mem) s.(random_r) s.(default_arena) w).

(** [LLA_SkiplistLevels] with the static variable of [Random]. *)
Definition skiplist_levels (size base : Z) (random : bool) : ML Z := fun s =>
  '(level, r) ← LLA_SkiplistLevels size base random s.(random_r);
  Ok (level, mkLLA s.(lla_mem) r s.(default_arena) s.(lla_world)).

(** [RoundUp], converted to [size_t] *)
Definition RoundUp (addr align : Z) : Z := u64 (Z.land (i64 (addr + align - 1)) (Z.lnot (align - 1))).

(** ** Arenas *)

(** [while (roundup < sizeof(freelist.header)) roundup += roundup;] *)
Fixpoint roundup_loop (fuel : nat) (roundup : Z) : Z :=
  match fuel with
  | O => roundup
  | S fuel => if roundup <? sizeof_Header then roundup_loop fuel (roundup + roundup) else roundup
  end.

(** [memset] of [n] words to 0. *)
Fixpoint clear_words (n : nat) (a : Z) : MM unit :=
  match n with
  | O => skip
  | S n => wr a 0 ;; clear_words n (a + 8)
  end.

(** [LowLevelAlloc::Arena::Arena()] *)
Definition Arena_new (arena : Z) : MM unit :=
  let roundup := roundup_loop 64 16 in
  let freelist := freelist_at arena in
  wr (roundup_at arena) roundup ;;
  wr (min_size_at arena) (2 * roundup) ;;
  wr (size_at freelist) 0 ;;
  wr (magic_at freelist) (Magic kMagicUnallocated freelist) ;;
  wr (arena_at freelist) arena ;;
  wr (levels_at freelist) 0 ;;
  clear_words (Z.to_nat kMaxLevel) (next_at freelist 0) ;;
  wr (allocation_count_at arena) 0 ;;
  wr (allocator_at arena) default_pages_allocator.

Definition DefaultArena : ML Z :=
  s ← get_state;
  if s.(default_arena) =? 0 then
    on_mem (Arena_new default_arena_storage) ;;
    modify (fun s => mkLLA s.(lla_mem) s.(random_r) default_arena_storage s.(lla_world)) ;;
    mret default_arena_storage
  else mret s.(default_arena).

(** ** The free list *)

Definition Next (i prev arena : Z) : MM Z :=
  levels ← ld (levels_at prev);
  require (i <? levels) ;;
  next ← ld (next_at prev i);
  (if negb (next =? 0) then
     magic ← ld (magic_at next);
     require (magic =? Magic kMagicUnallocated next) ;;
     a ← ld (arena_at next);
     require (a =? arena) ;;
     if negb (prev =? freelist_at arena) then
       require (prev <? next) ;;
       size ← ld (size_at prev);
       require (u64 (prev + size) <? next)
     else skip
   else skip) ;;
  mret next.

Definition Coalesce (a : Z) : ML unit :=
  n ← on_mem (ld (next_at a 0));
  size ← on_mem (ld (size_at a));
  if negb (n =? 0) && (u64 (a + size) =? n) then
    arena ← on_mem (ld (arena_at a));
    n_size ← on_mem (ld (size_at n));
    on_mem (wr (size_at a) (size + n_size)) ;;
    on_mem (wr (magic_at n) 0) ;;
    on_mem (wr (arena_at n) 0) ;;
    prev ← on_mem (LLA_SkiplistDelete (freelist_at arena) n ∅);
    prev ← on_mem (LLA_SkiplistDelete (freelist_at arena) a prev);
    size ← on_mem (ld (size_at a));
    min_size ← on_mem (ld (min_size_at arena));
    levels ← skiplist_levels size min_size true;
    on_mem (wr (levels_at a) levels) ;;
    _ ← on_mem (LLA_SkiplistInsert (freelist_at arena) a prev);
    skip
  else skip.

Definition AddToFreelist (v arena : Z) : ML unit :=
  let f := v - sizeof_Header in
  magic ← on_mem (ld (magic_at f));
  on_mem (require (magic =? Magic kMagicAllocated f)) ;;
  a ← on_mem (ld (arena_at f));
  on_mem (require (a =? arena)) ;;
  size ← on_mem (ld (size_at f));
  min_size ← on_mem (ld (min_size_at arena));
  levels ← skiplist_levels size min_size true;
  on_mem (wr (levels_at f) levels) ;;
  prev ← on_mem (LLA_SkiplistInsert (freelist_at arena) f ∅);
  on_mem (wr (magic_at f) (Magic kMagicUnallocated f)) ;;
  Coalesce f ;;
  p ← on_mem (prev_at prev 0);
  Coalesce p.

Definition InsertAllocatedMemoryLocked (arena new_pages new_pages_size : Z) : ML unit :=
  let s := new_pages in
  on_mem (wr (size_at s) new_pages_size) ;;
  on_mem (wr (magic_at s) (Magic kMagicAllocated s)) ;;
  on_mem (wr (arena_at s) arena) ;;
  AddToFreelist (levels_at s) arena.

(** ** The functions *)

Definition Free (v : Z) : ML unit :=
  if v =? 0 then skip
  else
    let f := v - sizeof_Header in
    magic ← on_mem (ld (magic_at f));
    on_mem (require (magic =? Magic kMagicAllocated f)) ;;
    arena ← on_mem (ld (arena_at f));
    AddToFreelist v arena ;;
    count ← on_mem (ld (allocation_count_at arena));
    on_mem (require (count >? 0)) ;;
    on_mem (wr (allocation_count_at arena) (i32 (count - 1))).

Definition UsableSize (p : Z) : ML Z :=
  size ← on_mem (ld (size_at (p - sizeof_Header)));
  mret (u64 (size - sizeof_Header)).

(** [while ((s = Next(i, before, arena)) != 0 && s->header.size < req_rnd) before = s;] *)
Fixpoint find_loop (fuel : nat) (i before arena req_rnd : Z) : MM Z :=
  match fuel with
  | O => no_fuel
  | S fuel =>
      s ← Next i before arena;
      if s =? 0 then mret 0
      else
        size ← ld (size_at s);
        if size <? req_rnd then find_loop fuel i s arena req_rnd else mret s
  end.

(** One search of the free list: null if there is no suitable region. *)
Definition find_region (arena req_rnd : Z) : ML Z :=
  min_size ← on_mem (ld (min_size_at arena));
  levels ← skiplist_levels req_rnd min_size false;
  let i := levels - 1 in
  freelist_levels ← on_mem (ld (levels_at (freelist_at arena)));
  if i <? freelist_levels then
    s ← get_state;
    on_mem (find_loop (S (size s.(lla_mem))) i (freelist_at arena) arena req_rnd)
  else mret 0.

(** [for (;;)]: the region found; each round that finds none adds one. *)
Fixpoint alloc_loop (fuel : nat) (arena req_rnd : Z) : ML Z :=
  match fuel with
  | O => no_fuel
  | S fuel =>
      s ← find_region arena req_rnd;
      if negb (s =? 0) then mret s
      else
        allocator ← on_mem (ld (allocator_at arena));
        '(new_pages, new_pages_size) ← on_world (MapPages allocator (RoundUp req_rnd kMinimalRegion));
        InsertAllocatedMemoryLocked arena new_pages new_pages_size ;;
        alloc_loop fuel arena req_rnd
  end.

Definition AllocWithArena (request arena : Z) : ML Z :=
  if request =? 0 then mret 0
  else
    arena ← (if arena =? 0 then DefaultArena else mret arena);
    roundup ← on_mem (ld (roundup_at arena));
    let req_rnd := RoundUp (u64 (request + sizeof_Header)) roundup in
    s ← alloc_loop 2 arena req_rnd;
    _ ← on_mem (LLA_SkiplistDelete (freelist_at arena) s ∅);
    min_size ← on_mem (ld (min_size_at arena));
    size ← on_mem (ld (size_at s));
    (if u64 (req_rnd + min_size) <=? size then
       let n := u64 (req_rnd + s) in
       on_mem (wr (size_at n) (size - req_rnd)) ;;
       on_mem (wr (magic_at n) (Magic kMagicAllocated n)) ;;
       on_mem (wr (arena_at n) arena) ;;
       on_mem (wr (size_at s) req_rnd) ;;
       AddToFreelist (levels_at n) arena
     else skip) ;;
    on_mem (wr (magic_at s) (Magic kMagicAllocated s)) ;;
    a ← on_mem (ld (arena_at s));
    on_mem (require (a =? arena)) ;;
    count ← on_mem (ld (allocation_count_at arena));
    on_mem (wr (allocation_count_at arena) (i32 (count + 1))) ;;
    mret (levels_at s).

Definition Alloc (request : Z) : ML Z := AllocWithArena request 0.

Definition NewArenaWithCustomAlloc (allocator : Z) : ML Z :=
  if negb (allocator =? 0) then
    '(memory, got_amount) ← on_world (MapPages allocator kMinimalRegion);
    on_mem (Arena_new memory) ;;
    on_mem (wr (allocator_at memory) allocator) ;;
    InsertAllocatedMemoryLocked memory (memory + sizeof_Arena) (u64 (got_amount - sizeof_Arena)) ;;
    mret memory
  else
    p ← AllocWithArena sizeof_Arena 0;
    on_mem (Arena_new p) ;;
    mret p.

Definition NewArena : ML Z := NewArenaWithCustomAlloc 0.

(** [while (arena->freelist.next[0] != 0)]: whether the first region was seen. *)
Fixpoint unmap_loop (fuel : nat) (arena : Z) (seen_first_region : bool) : ML bool :=
  match fuel with
  | O => no_fuel
  | S fuel =>
      let first_region := arena + sizeof_Arena in
      region ← on_mem (ld (next_at (freelist_at arena) 0));
      if region =? 0 then mret seen_first_region
      else if region =? first_region then
        on_mem (require (negb seen_first_region)) ;;
        next ← on_mem (ld (next_at region 0));
        on_mem (wr (next_at (freelist_at arena) 0) next) ;;
        unmap_loop fuel arena true
      else
        size ← on_mem (ld (size_at region));
        next ← on_mem (ld (next_at region 0));
        on_mem (wr (next_at (freelist_at arena) 0) next) ;;
        magic ← on_mem (ld (magic_at region));
        on_mem (require (magic =? Magic kMagicUnallocated region)) ;;
        a ← on_mem (ld (arena_at region));
        on_mem (require (a =? arena)) ;;
        allocator ← on_mem (ld (allocator_at arena));
        on_world (UnMapPages allocator region size) ;;
        unmap_loop fuel arena seen_first_region
  end.

(** In a release build, where [DCHECK_EQ] does nothing. *)
Definition DeleteArena (arena : Z) : ML bool :=
  count ← on_mem (ld (allocation_count_at arena));
  if negb (count =? 0) then mret false
  else
    s ← get_state;
    seen_first_region ← unmap_loop (S (size s.(lla_mem))) arena false;
    allocator ← on_mem (ld (allocator_at arena));
    (if negb (allocator =? default_pages_allocator) then
       on_mem (require seen_first_region) ;;
       size ← on_mem (ld (size_at (arena + sizeof_Arena)));
       on_world (UnMapPages allocator arena (u64 (size + sizeof_Arena)))
     else
       on_mem (require (negb seen_first_region)) ;;
       Free arena) ;;
    mret true.
End LowLevelAlloc.
Arguments LLA W : clear implicits.

(** ** The default pages allocator *)

Section DefaultPages.
Context {Sys : Type} {OSops : OS (Sys := Sys)}.

Definition DefaultPagesAllocator_MapPages (size : Z) : M (SysAlloc (Sys := Sys)) (Z * Z) :=
  let pagesize := getpagesize in
  let actual_size := u64 (size + Z.land (u64 (- size)) (pagesize - 1)) in
  let actual_size := if actual_size <? size then size else actual_size in
  r ← MapAnonymous actual_size;
  match r with
  | Some addr => mret (addr, actual_size)
  | None => out_of_memory
  end.

(** The system unmaps whole pages without failing. *)
Definition DefaultPagesAllocator_UnMapPages (region size : Z) : M (SysAlloc (Sys := Sys)) unit :=
  let pagesize := getpagesize in
  if (region mod pagesize =? 0) && (size mod pagesize =? 0) then sys_munmap region size else crash.
End DefaultPages.
