(* ===== verification/LowLevelInv.v ===== *)
(** What an arena of the low-level allocator holds, and its invariant. *)
From Stdlib Require Import Sorting.Sorted.
From stdpp Require Import sorting.
From S2P Require Import Prelude LinkedList Bytes SystemAlloc SkipList LowLevelAlloc.

(** ** Blocks of an arena: address to size and whether the block is free *)

Abbreviation blocks := (gmap Z (Z * bool)).

Definition in_block (K : blocks) (f : bool) (x : Z) : Prop := exists p s, K !! p = Some (s, f) /\ p <= x < p + s.
Definition total (K : blocks) : Z := msum (fun _ (b : Z * bool) => b.1) K.
Definition live (K : blocks) : Z := msum (fun _ (b : Z * bool) => if b.2 then 0 else 1) K.

(** No two free blocks touch. *)
Definition coalesced (K : blocks) : Prop :=
  forall p s q t, K !! p = Some (s, true) -> K !! q = Some (t, true) -> p + s <> q.

Record blocks_ok (K : blocks) : Prop := {
  bl_block p s f : K !! p = Some (s, f) -> 64 <= s /\ 0 < p /\ p + s <= 2 ^ 48 /\ p mod 32 = 0 /\ s mod 32 = 0;
  bl_apart p s f q t g : K !! p = Some (s, f) -> K !! q = Some (t, g) -> p <> q -> p + s <= q \/ q + t <= p;
  bl_total : total K <= 2 ^ 34
}.

(** The effect of [Coalesce]. *)
Definition coalesce (K : blocks) (c : Z) : blocks :=
  match K !! c with
  | Some (s, true) =>
      match K !! (c + s) with
      | Some (t, true) => <[c := (s + t, true)]> (delete (c + s) K)
      | _ => K
      end
  | _ => K
  end.

Lemma coalesce_cases K c : coalesce K c = K \/
  exists s t, K !! c = Some (s, true) /\ K !! (c + s) = Some (t, true) /\ coalesce K c = <[c := (s + t, true)]> (delete (c + s) K).
Proof.
  unfold coalesce. destruct (K !! c) as [[s []]|] eqn:Hc; [|by left..]. destruct (K !! (c + s)) as [[t []]|] eqn:Hn; [|by left..]. right. by exists s, t.
Qed.

Section Blocks.
Context (K : blocks) (HK : blocks_ok K).

Lemma block_size p s f : K !! p = Some (s, f) -> 64 <= s <= 2 ^ 34.
Proof.
  intros Hp. split; [by apply (bl_block _ HK) in Hp as [? _]|]. etrans; [|apply (bl_total _ HK)].
  apply (msum_elem (fun _ (b : Z * bool) => b.1) K p (s, f)); [done|]. intros j [t g] Hj. apply (bl_block _ HK) in Hj as [? _]. simpl. lia.
Qed.

Lemma in_block_det f g x : in_block K f x -> in_block K g x -> f = g.
Proof.
  intros (p & s & Hp & Hx) (q & t & Hq & Hy). destruct (decide (p = q)) as [->|Hne]; [congruence|]. destruct (bl_apart _ HK _ _ _ _ _ _ Hp Hq Hne); lia.
Qed.

(** Facts about two adjacent free blocks. *)
Lemma merge_lookup c s t q : K !! c = Some (s, true) -> K !! (c + s) = Some (t, true) ->
  <[c := (s + t, true)]> (delete (c + s) K) !! q = if decide (q = c) then Some (s + t, true) else if decide (q = c + s) then None else K !! q.
Proof.
  intros Hc Hn. destruct (decide (q = c)) as [->|]; [apply lookup_insert_eq|]. rewrite lookup_insert_ne by done.
  destruct (decide (q = c + s)) as [->|]; [apply lookup_delete_eq|]. by apply lookup_delete_ne.
Qed.

Lemma coalesce_alloc c p s : coalesce K c !! p = Some (s, false) <-> K !! p = Some (s, false).
Proof.
  destruct (coalesce_cases K c) as [->|(sc & t & Hc & Hn & ->)]; [done|]. rewrite merge_lookup by done.
  repeat case_decide; subst; [split; [done|congruence]|split; [done|congruence]|done].
Qed.

Lemma coalesce_in c f x : in_block (coalesce K c) f x <-> in_block K f x.
Proof.
  destruct (coalesce_cases K c) as [->|(s & t & Hc & Hn & ->)]; [done|].
  pose proof (bl_block _ HK _ _ _ Hc) as [? _]. pose proof (bl_block _ HK _ _ _ Hn) as [? _].
  split; intros (p & u & Hp & Hx).
  - rewrite merge_lookup in Hp by done. repeat case_decide; simplify_eq; [|by exists p, u].
    destruct (decide (x < c + s)); [exists c, s; split; [done|lia]|exists (c + s), t; split; [done|lia]].
  - destruct (decide (p = c)) as [->|Hpc].
    { exists c, (s + t). rewrite merge_lookup, decide_True by done. simplify_eq. split; [done|lia]. }
    destruct (decide (p = c + s)) as [->|Hpn].
    { exists c, (s + t). rewrite merge_lookup, decide_True by done. simplify_eq. split; [done|lia]. }
    exists p, u. rewrite merge_lookup, !decide_False by done. done.
Qed.

Lemma coalesce_contains c q u : K !! q = Some (u, true) -> exists q' u', coalesce K c !! q' = Some (u', true) /\ q' <= q /\ q + u <= q' + u'.
Proof.
  intros Hq. destruct (coalesce_cases K c) as [->|(s & t & Hc & Hn & ->)]; [exists q, u; split_and!; [done|lia|lia]|].
  pose proof (bl_block _ HK _ _ _ Hc) as [? _]. pose proof (bl_block _ HK _ _ _ Hn) as [? _]. destruct (decide (q = c)) as [->|Hqc].
  { exists c, (s + t). rewrite merge_lookup, decide_True by done. simplify_eq. split; [done|lia]. }
  destruct (decide (q = c + s)) as [->|Hqn].
  { exists c, (s + t). rewrite merge_lookup, decide_True by done. simplify_eq. split; [done|lia]. }
  exists q, u. rewrite merge_lookup, !decide_False by done. split; [done|lia].
Qed.

Lemma coalesce_sum (f : Z -> Z * bool -> Z) c : (forall s t, f c (s + t, true) = f c (s, true) + f (c + s) (t, true)) ->
  msum f (coalesce K c) = msum f K.
Proof.
  intros Hf. destruct (coalesce_cases K c) as [->|(s & t & Hc & Hn & ->)]; [done|]. pose proof (bl_block _ HK _ _ _ Hc) as [? _].
  rewrite (msum_delete f K (c + s) (t, true)) by done. rewrite (msum_update f _ c (s, true)) by (rewrite lookup_delete_ne; [done|lia]).
  rewrite Hf. lia.
Qed.

Lemma coalesce_live c : live (coalesce K c) = live K.
Proof. by apply coalesce_sum. Qed.

Lemma coalesce_ok c : blocks_ok (coalesce K c).
Proof.
  assert (Ht : total (coalesce K c) = total K) by (by apply coalesce_sum).
  assert (Hb : forall p s f, coalesce K c !! p = Some (s, f) -> 64 <= s /\ 0 < p /\ p + s <= 2 ^ 48 /\ p mod 32 = 0 /\ s mod 32 = 0).
  { intros p s f. destruct (coalesce_cases K c) as [->|(sc & t & Hc & Hn & ->)]; [apply HK|]. rewrite merge_lookup by done.
    pose proof (bl_block _ HK _ _ _ Hc) as (? & ? & ? & ? & Hm). pose proof (bl_block _ HK _ _ _ Hn) as (? & ? & ? & ? & Hm').
    repeat case_decide; intros Hp; simplify_eq; [|by apply (bl_block _ HK) in Hp].
    split_and!; [lia|lia|lia|done|]. rewrite Z.add_mod, Hm, Hm' by done. done. }
  split; [done| |rewrite Ht; apply HK].
  intros p s f q t g Hp Hq Hne. destruct (Z.le_gt_cases (p + s) q); [by left|]. right. destruct (Z.le_gt_cases (q + t) p); [done|]. exfalso.
  (* a common byte *)
  set (x := Z.max p q). pose proof (Hb _ _ _ Hp) as [? _]. pose proof (Hb _ _ _ Hq) as [? _].
  revert Hp Hq. destruct (coalesce_cases K c) as [->|(sc & tc & Hc & Hn & ->)]; [intros Hp Hq; destruct (bl_apart _ HK _ _ _ _ _ _ Hp Hq Hne); lia|].
  pose proof (bl_block _ HK _ _ _ Hc) as [? _]. pose proof (bl_block _ HK _ _ _ Hn) as [? _].
  rewrite !merge_lookup by done. repeat case_decide; intros Hp Hq; simplify_eq.
  - destruct (bl_apart _ HK _ _ _ _ _ _ Hc Hq ltac:(congruence)), (bl_apart _ HK _ _ _ _ _ _ Hn Hq ltac:(congruence)); lia.
  - destruct (bl_apart _ HK _ _ _ _ _ _ Hc Hp ltac:(congruence)), (bl_apart _ HK _ _ _ _ _ _ Hn Hp ltac:(congruence)); lia.
  - destruct (bl_apart _ HK _ _ _ _ _ _ Hp Hq Hne); lia.
Qed.
End Blocks.

(** The free blocks [p] and [q] touch. *)
Definition touch (K : blocks) (p q : Z) : Prop := exists s t, K !! p = Some (s, true) /\ K !! q = Some (t, true) /\ p + s = q.

Lemma coalesced_touch K : coalesced K <-> forall p q, ~ touch K p q.
Proof.
  split.
  - intros Hc p q (s & t & Hp & Hq & He). by apply (Hc p s q t).
  - intros Hc p s q t Hp Hq He. apply (Hc p q). by exists s, t.
Qed.

(** After coalescing [c], only what touches [c] from below is left over. *)
Lemma coalesce_touch K c p q : blocks_ok K -> (forall p q, touch K p q -> p = c \/ q = c) -> touch (coalesce K c) p q -> q = c /\ touch K p c.
Proof.
  intros HK Hall (s & t & Hp & Hq & He). destruct (coalesce_cases K c) as [Heq|(sc & tc & Hc & Hn & Heq)]; rewrite Heq in Hp, Hq.
  - assert (Hpq : touch K p q) by (by exists s, t). destruct (Hall p q Hpq) as [Hx|Hx]; subst; [|done].
    exfalso. unfold coalesce in Heq. rewrite Hp, Hq in Heq. assert (Hd : K !! (c + s) = None).
    { rewrite <- Heq. pose proof (bl_block _ HK _ _ _ Hp) as [? _]. rewrite lookup_insert_ne by lia. apply lookup_delete_eq. }
    congruence.
  - pose proof (bl_block _ HK _ _ _ Hc) as [? _]. pose proof (bl_block _ HK _ _ _ Hn) as [? _].
    rewrite merge_lookup in Hp, Hq by done. destruct (decide (p = c)) as [->|Hpc].
    + (* what touched the merged block touched its second part *)
      simplify_eq. exfalso. destruct (decide (_ = c)); [lia|]. destruct (decide _); [lia|].
      destruct (Hall (c + sc) (c + (sc + tc))) as [?|?]; [|lia|lia]. exists tc, t. split_and!; [done|done|lia].
    + destruct (decide (p = c + sc)); [done|]. destruct (decide (q = c)) as [->|Hqc]; [split; [done|]; by exists s, sc|].
      destruct (decide (q = c + sc)); [done|]. destruct (Hall p q) as [?|?]; [|done|done]. by exists s, t.
Qed.

(** [p] is the last free block below [f], if there is one. *)
Definition free_below (K : blocks) (f p : Z) : Prop :=
  p <> f /\ forall q t, K !! q = Some (t, true) -> q < f -> q <= p < f /\ exists u, K !! p = Some (u, true).

(** Freeing a block and coalescing it on both sides. *)
Lemma coalesced_add K f s p0 : blocks_ok (<[f := (s, true)]> K) -> coalesced K -> free_below K f p0 ->
  coalesced (coalesce (coalesce (<[f := (s, true)]> K) f) p0).
Proof.
  intros HK1 Hco [Hpf Hmax]. set (K1 := <[f := (s, true)]> K) in *. rewrite coalesced_touch in Hco.
  assert (H1 : forall p q, touch K1 p q -> p = f \/ q = f).
  { intros p q (sp & sq & Hp & Hq & He). destruct (decide (p = f)) as [|?]; [by left|]. destruct (decide (q = f)) as [|?]; [by right|].
    exfalso. apply (Hco p q). unfold K1 in Hp, Hq. rewrite lookup_insert_ne in Hp, Hq by done. by exists sp, sq. }
  pose proof (coalesce_ok K1 HK1 f) as HK2. set (K2 := coalesce K1 f) in *.
  assert (H2 : forall p q, touch K2 p q -> q = f /\ p = p0).
  { intros p q Hpq. destruct (coalesce_touch K1 f p q HK1 H1 Hpq) as [-> (sp & sq & Hp & Hq & He)]. split; [done|].
    pose proof (bl_block _ HK1 _ _ _ Hp) as [? _]. pose proof Hp as HpK. unfold K1 in HpK. rewrite lookup_insert_ne in HpK by lia.
    destruct (Hmax p sp HpK ltac:(lia)) as [? [u Hu]]. destruct (decide (p = p0)) as [|Hne]; [done|].
    assert (Hu1 : K1 !! p0 = Some (u, true)) by (unfold K1; by rewrite lookup_insert_ne by lia).
    pose proof (bl_block _ HK1 _ _ _ Hu1) as [? _]. destruct (bl_apart _ HK1 _ _ _ _ _ _ Hp Hu1 Hne); lia. }
  apply coalesced_touch. intros p q Hpq. destruct (coalesce_touch K2 p0 p q HK2) as [-> Ht]; [|done|].
  - intros p' q' H'. left. by apply H2 in H' as [_ ?].
  - apply H2 in Ht as [? _]. done.
Qed.

(** ** The arena in memory *)

Section Arena.
Context (a : Z).
Abbreviation h := (freelist_at a).

(** The header of a block. *)
Definition header (m : mem) (p s : Z) (f : bool) : Prop :=
  m !! size_at p = Some s /\ word_of m (magic_at p) = Magic (if f then kMagicUnallocated else kMagicAllocated) p /\ word_of m (arena_at p) = a.

(** The room for the links of a node. *)
Definition room (K : blocks) (p : Z) : Z :=
  if decide (p = h) then 280 else match K !! p with Some (s, _) => s | None => 0 end.

(** The blocks are disjoint, also from the arena object. *)
Record placed (K : blocks) : Prop := {
  pl_ok : blocks_ok K;
  pl_sep p s f : K !! p = Some (s, f) -> p + s <= a \/ a + sizeof_Arena <= p
}.

(** A node of the free list: the head or a free block. *)
Definition node (K : blocks) (p : Z) : Prop := p = h \/ exists s, K !! p = Some (s, true).

Record arena_rep (m : mem) (K : blocks) (l : list Z) : Prop := {
  ar_addr : 0 < a /\ a + sizeof_Arena <= 2 ^ 48;
  ar_roundup : word_of m (roundup_at a) = 32;
  ar_min : word_of m (min_size_at a) = 64;
  ar_head : word_of m (size_at h) = 0;
  ar_placed : placed K;
  ar_header p s f : K !! p = Some (s, f) -> header m p s f;
  ar_list p : p ∈ l <-> exists s, K !! p = Some (s, true);
  ar_sk : sk (room K) h m l;
  ar_levels p s : K !! p = Some (s, true) -> min_levels s <= lv m p
}.

(** Only the free list and free memory change. *)
Definition only_free (K : blocks) (m m' : mem) : Prop :=
  forall x, ~ h <= x < h + 280 -> ~ in_block K true x -> m' !! x = m !! x.

Lemma only_free_trans K m1 m2 m3 : only_free K m1 m2 -> only_free K m2 m3 -> only_free K m1 m3.
Proof. intros H1 H2 x Hx Hk. by rewrite H2, H1. Qed.

Lemma only_free_iff K K' m m' : (forall x, in_block K true x -> in_block K' true x) -> only_free K m m' -> only_free K' m m'.
Proof. intros H H1 x Hx Hk. apply H1; [done|]. intros ?. apply Hk. auto. Qed.

Lemma header_frame m m' p s f : (forall d, 0 <= d < sizeof_Header -> m' !! (p + d) = m !! (p + d)) -> header m p s f -> header m' p s f.
Proof.
  intros Hf (H1 & H2 & H3). unfold header, size_at, magic_at, arena_at in *. unfold sizeof_Header in Hf. unfold word_of. rewrite !Hf by lia.
  pose proof (Hf 0 ltac:(lia)) as H0. rewrite Z.add_0_r in H0. rewrite H0. done.
Qed.

Section Placed.
Context (K : blocks) (HP : placed K).

Lemma placed_no_head : K !! h = None.
Proof.
  destruct (K !! h) as [[s f]|] eqn:Hh; [|done]. exfalso. pose proof (bl_block _ (pl_ok _ HP) _ _ _ Hh) as [? _].
  destruct (pl_sep _ HP _ _ _ Hh); unfold freelist_at, sizeof_Arena in *; lia.
Qed.

Lemma room_head : room K h = 280.
Proof. unfold room. by rewrite decide_True. Qed.

Lemma room_block p s f : K !! p = Some (s, f) -> room K p = s.
Proof. intros Hp. unfold room. rewrite decide_False; [by rewrite Hp|]. intros ->. by rewrite placed_no_head in Hp. Qed.

Lemma node_room p : node K p -> p = h \/ exists s, K !! p = Some (s, true) /\ room K p = s.
Proof. intros [->|[s Hs]]; [by left|right]. exists s. split; [done|]. by apply (room_block p s true). Qed.

(** Link words are not words of another block, nor header words. *)
Lemma link_outside p q s f x : node K p -> K !! q = Some (s, f) -> p <> q -> p + sizeof_Header <= x < p + room K p -> ~ q <= x < q + s.
Proof.
  intros Hp Hq Hne Hx. unfold sizeof_Header in *. destruct (node_room p Hp) as [->|(t & Ht & Hroom)].
  - rewrite room_head in Hx. destruct (pl_sep _ HP _ _ _ Hq); unfold freelist_at, sizeof_Arena in *; lia.
  - rewrite Hroom in Hx. destruct (bl_apart _ (pl_ok _ HP) _ _ _ _ _ _ Ht Hq Hne); lia.
Qed.

Lemma link_not_header p q s f d x : node K p -> K !! q = Some (s, f) -> 0 <= d < sizeof_Header ->
  p + sizeof_Header <= x < p + room K p -> x <> q + d.
Proof.
  intros Hp Hq Hd Hx ->. pose proof (bl_block _ (pl_ok _ HP) _ _ _ Hq) as [Hs _]. unfold sizeof_Header in *.
  destruct (decide (p = q)) as [->|Hne]; [lia|]. apply (link_outside p q s f (q + d)); [done..|unfold sizeof_Header; lia|lia].
Qed.

Lemma link_not_head p x : node K p -> p + sizeof_Header <= x < p + room K p -> x <> size_at h.
Proof.
  intros Hp Hx ->. unfold size_at, sizeof_Header in *. destruct (node_room p Hp) as [->|(t & Ht & Hroom)]; [lia|].
  rewrite Hroom in Hx. destruct (pl_sep _ HP _ _ _ Ht); unfold freelist_at, sizeof_Arena in *; lia.
Qed.

Lemma link_free p x : node K p -> p + sizeof_Header <= x < p + room K p -> h <= x < h + 280 \/ in_block K true x.
Proof.
  intros Hp Hx. unfold sizeof_Header in *. destruct (node_room p Hp) as [->|(t & Ht & Hroom)].
  - rewrite room_head in Hx. left. lia.
  - right. exists p, t. split; [done|lia].
Qed.

Lemma links_only_free N m m' : (forall p, p ∈ N -> node K p) -> links_only (room K) N m m' -> only_free K m m'.
Proof.
  intros HN Hl x Hx Hk. apply Hl. intros p Hp Hin. destruct (link_free p x (HN p Hp) Hin); done.
Qed.

Lemma links_only_header N m m' p s f s' f' : (forall p, p ∈ N -> node K p) -> links_only (room K) N m m' -> K !! p = Some (s, f) -> header m p s' f' -> header m' p s' f'.
Proof.
  intros HN Hl Hp. apply header_frame. intros d Hd. apply Hl. intros q Hq Hin. by apply (link_not_header q p s f d (p + d) (HN q Hq) Hp Hd Hin).
Qed.

Lemma nodes_apart N : (forall p, p ∈ N -> node K p) -> apart (room K) N.
Proof.
  intros HN p q Hp Hq Hne. destruct (node_room p (HN p Hp)) as [->|(s & Hs & ->)], (node_room q (HN q Hq)) as [->|(t & Ht & ->)]; rewrite ?room_head; [done|..].
  - destruct (pl_sep _ HP _ _ _ Ht); unfold freelist_at, sizeof_Arena in *; lia.
  - destruct (pl_sep _ HP _ _ _ Hs); unfold freelist_at, sizeof_Arena in *; lia.
  - by apply (bl_apart _ (pl_ok _ HP) _ _ _ _ _ _ Hs Ht).
Qed.

(** The words of the arena outside the free list. *)
Lemma only_free_arena m m' x : only_free K m m' -> a <= x < a + sizeof_Arena -> ~ h <= x < h + 280 -> m' !! x = m !! x.
Proof.
  intros Ho Hx Hh. apply Ho; [done|]. intros (p & s & Hp & Hin). destruct (pl_sep _ HP _ _ _ Hp); lia.
Qed.

Lemma coalesce_placed c : placed (coalesce K c).
Proof.
  split; [by apply coalesce_ok, HP|]. intros p s f. destruct (coalesce_cases K c) as [->|(sc & t & Hc & Hn & ->)]; [apply HP|].
  rewrite merge_lookup by done. repeat case_decide; intros Hp; simplify_eq; [|by apply (pl_sep _ HP) in Hp].
  pose proof (bl_block _ (pl_ok _ HP) _ _ _ Hc) as [? _]. pose proof (bl_block _ (pl_ok _ HP) _ _ _ Hn) as [? _].
  destruct (pl_sep _ HP _ _ _ Hc), (pl_sep _ HP _ _ _ Hn); unfold sizeof_Arena in *; lia.
Qed.
End Placed.

Lemma next_in_room K p i : -1 <= i -> offset_next + 8 * (i + 1) <= room K p -> p + sizeof_Header <= next_at p i < p + room K p.
Proof. unfold next_at, offset_next, sizeof_Header. lia. Qed.

Section Rep.
Context (m : mem) (K : blocks) (l : list Z) (HR : arena_rep m K l).

Lemma rep_node p : p ∈ h :: l -> node K p.
Proof. intros Hp. apply elem_of_cons in Hp as [->|Hp]; [by left|right]. by apply (ar_list _ _ _ HR). Qed.

Lemma rep_ok : blocks_ok K.
Proof. apply (ar_placed _ _ _ HR). Qed.

(** The successor of a free block in the list. *)
Lemma rep_next c s : K !! c = Some (s, true) -> nx m c 0 = List.hd 0 (above (c + 1) l).
Proof.
  intros Hc. pose proof (ar_sk _ _ _ HR) as Hsk. assert (Hin : c ∈ l) by (apply (ar_list _ _ _ HR); by exists s).
  pose proof (sk_chain _ _ _ _ Hsk 0 ltac:(lia)) as Hch. rewrite (level_list_0 _ _ _ _ Hsk) in Hch.
  rewrite (sorted_split c l (sk_sorted _ _ _ _ Hsk)), above_elem in Hch by (done || apply (sk_sorted _ _ _ _ Hsk)).
  apply chain_app in Hch as [_ Hch]. destruct (above (c + 1) l); [done|]. by destruct Hch.
Qed.

Lemma hd_above c n : List.hd 0 (above c l) = n -> n = 0 /\ above c l = [] \/ n ∈ l /\ c <= n /\ forall q, q ∈ l -> c <= q -> n <= q.
Proof.
  pose proof (sorted_filter (fun x => c <= x) l (sk_sorted _ _ _ _ (ar_sk _ _ _ HR))) as Hs. fold (above c l) in Hs.
  destruct (above c l) as [|y ys] eqn:Hab; simpl; [by left|]. intros <-. right. assert (Hy : y ∈ above c l) by (rewrite Hab; left).
  apply list_elem_of_filter in Hy as [? Hy]. split_and!; [done|done|]. intros q Hq Hcq. assert (Hq' : q ∈ above c l) by (by apply list_elem_of_filter).
  rewrite Hab in Hq'. apply elem_of_cons in Hq' as [->|Hq']; [done|]. apply StronglySorted_inv in Hs as [_ Hall]. rewrite Forall_forall in Hall. specialize (Hall q Hq'). lia.
Qed.

(** The test of [Coalesce]. *)
Lemma coalesce_test c s (n := nx m c 0) : K !! c = Some (s, true) ->
  negb (n =? 0) && (u64 (c + s) =? n) = match K !! (c + s) with Some (t, true) => true | _ => false end /\
  (forall t, K !! (c + s) = Some (t, true) -> n = c + s).
Proof.
  intros Hc. pose proof (bl_block _ rep_ok _ _ _ Hc) as (? & ? & ? & _). rewrite u64_small by lia.
  pose proof (hd_above (c + 1) n (eq_sym (rep_next c s Hc))) as Hn. assert (Hiff : forall t, K !! (c + s) = Some (t, true) -> n = c + s).
  { intros t Ht. assert (Hin : c + s ∈ l) by (apply (ar_list _ _ _ HR); by exists t). destruct Hn as [[_ Hnil]|(Hnl & Hge & Hmin)].
    - assert (Hx : c + s ∈ above (c + 1) l) by (apply list_elem_of_filter; split; [lia|done]). rewrite Hnil in Hx. by apply elem_of_nil in Hx.
    - specialize (Hmin _ Hin ltac:(lia)). apply (ar_list _ _ _ HR) in Hnl as [u Hu]. destruct (decide (n = c)); [lia|].
      pose proof (bl_block _ rep_ok _ _ _ Hu) as [? _].
      destruct (bl_apart _ rep_ok _ _ _ _ _ _ Hc Hu ltac:(done)); lia. }
  split; [|done]. destruct (K !! (c + s)) as [[t []]|] eqn:Ht.
  - rewrite (Hiff t eq_refl). rewrite Z.eqb_refl. by destruct (Z.eqb_spec (c + s) 0); [lia|].
  - destruct (Z.eqb_spec (c + s) n) as [He|]; [|by rewrite andb_false_r]. destruct Hn as [[-> _]|(Hnl & _)]; [done|].
    apply (ar_list _ _ _ HR) in Hnl as [u Hu]. rewrite <- He in Hu. congruence.
  - destruct (Z.eqb_spec (c + s) n) as [He|]; [|by rewrite andb_false_r]. destruct Hn as [[-> _]|(Hnl & _)]; [done|].
    apply (ar_list _ _ _ HR) in Hnl as [u Hu]. rewrite <- He in Hu. congruence.
Qed.
End Rep.
End Arena.
