(* ===== verification/LowLevelOps.v ===== *)
(** The operations of the free list of an arena keep its invariant. *)
From Stdlib Require Import Sorting.Sorted.
From stdpp Require Import sorting.
From S2P Require Import Prelude LinkedList Bytes SystemAlloc SkipList LowLevelAlloc LowLevelInv.

Section Ops.
Context {W : Type} {PA : PagesAllocator W}.
Context (a : Z).
Implicit Types (st : LLA W).
Abbreviation h := (freelist_at a).
Abbreviation rep := (arena_rep a).

Definition with_mem (m : mem) (r : Z) (st : LLA W) : LLA W := mkLLA m r st.(default_arena) st.(lla_world).

Lemma on_mem_run {A} (f : MM A) st v m : f st.(lla_mem) = Ok (v, m) -> on_mem f st = Ok (v, with_mem m st.(random_r) st).
Proof. intros H. unfold on_mem. by rewrite H. Qed.

Lemma on_ld x st : on_mem (ld x) st = Ok (word_of st.(lla_mem) x, st).
Proof. by destruct st. Qed.

Lemma on_wr x v st : on_mem (wr x v) st = Ok (tt, with_mem (<[x := v]> st.(lla_mem)) st.(random_r) st).
Proof. done. Qed.

Lemma on_require b st : b = true -> on_mem (require b) st = Ok (tt, st).
Proof. intros ->. by destruct st. Qed.

Lemma on_levels size random r0 : 64 <= size <= 2 ^ 34 ->
  exists v r, (forall st, st.(random_r) = r0 -> skiplist_levels size 64 random st = Ok (v, with_mem st.(lla_mem) r st)) /\ 1 <= v <= 29 /\ min_levels size <= v /\
    offset_next + 8 * v <= size /\ (random = false -> v = min_levels size).
Proof.
  intros Hs. destruct (LLA_SkiplistLevels_spec size random r0 Hs) as (v & r & Hv & H1 & H2 & H3 & H4). exists v, r.
  split; [intros st Hr; unfold skiplist_levels; by rewrite Hr, Hv|]. split_and!; try done; try lia. intros Hr. by destruct (H4 Hr).
Qed.

(** *** A block onto the list *)

Section Insert.
Context (m : mem) (K : blocks) (l : list Z) (c s : Z).
Context (Haddr : 0 < a /\ a + sizeof_Arena <= 2 ^ 48) (HP : placed a K) (Hc : K !! c = Some (s, true)).
Context (Hl : forall p, p ∈ l <-> p <> c /\ exists u, K !! p = Some (u, true)).
Context (Hru : word_of m (roundup_at a) = 32) (Hmi : word_of m (min_size_at a) = 64) (Hsz : word_of m (size_at h) = 0).
Context (Hhd : forall q u f, K !! q = Some (u, f) -> q <> c -> header a m q u f).
Context (Hw : m !! size_at c = Some s) (Har : word_of m (arena_at c) = a).
Context (Hsk : sk (room a K) h m l) (Hlv : forall p u, K !! p = Some (u, true) -> p <> c -> min_levels u <= lv m p).

Lemma insert_nodes p : p ∈ h :: c :: l -> node a K p.
Proof. intros Hp. apply elem_of_cons in Hp as [->|Hp]; [by left|right]. apply elem_of_cons in Hp as [->|Hp]; [by eexists|]. by apply Hl. Qed.

Lemma insert_not_head : c <> h.
Proof. intros Heq. rewrite Heq in Hc. by rewrite (placed_no_head a K HP) in Hc. Qed.

(** Words of the block are not link words of other nodes. *)
Lemma insert_sk m' : (forall x, ~ c <= x < c + s -> m' !! x = m !! x) -> sk (room a K) h m' l.
Proof.
  intros Hm. pose proof (bl_block _ (pl_ok _ _ HP) _ _ _ Hc) as (Hs & _).
  assert (Hne : forall p, p ∈ h :: l -> p <> c) by (intros p Hp ->; apply elem_of_cons in Hp as [Hp|Hp]; [by apply insert_not_head|by apply Hl in Hp as [? _]]).
  apply (sk_frame _ _ m); [done| |].
  - intros p i Hp Hi Hr. apply Hm. apply (link_outside a K HP p c s true); [apply insert_nodes; by apply elem_skip|done|by apply Hne|]. by apply next_in_room; [lia|].
  - intros p Hp. rewrite Hm; [by apply (sk_words _ _ _ _ Hsk)|]. pose proof (Hne p ltac:(by right)) as Hpc. apply Hl in Hp as [_ [u Hu]].
    pose proof (bl_block _ (pl_ok _ _ HP) _ _ _ Hu) as (? & _). destruct (bl_apart _ (pl_ok _ _ HP) _ _ _ _ _ _ Hu Hc Hpc); lia.
Qed.

(** The free list with the block, once its header says that it is free. *)
Lemma insert_rep v prev : 1 <= v <= 29 -> min_levels s <= v -> offset_next + 8 * v <= s ->
  exists prev' m', LLA_SkiplistInsert h c prev (<[levels_at c := v]> m) = Ok (prev', m') /\ prev' !! 0 = Some (List.last (below c l) h) /\
    only_free a K m m' /\ m' !! magic_at c = m !! magic_at c /\
    forall m'', (forall x, x <> magic_at c -> m'' !! x = m' !! x) -> word_of m'' (magic_at c) = Magic kMagicUnallocated c -> rep m'' K (below c l ++ c :: above c l).
Proof.
  intros Hv Hmin Hfit. pose proof (bl_block _ (pl_ok _ _ HP) _ _ _ Hc) as (Hs & Hc0 & _). set (m4 := <[levels_at c := v]> m).
  assert (Hm4 : forall x, x <> c + 32 -> m4 !! x = m !! x) by (intros x Hx; by apply lookup_insert_ne).
  assert (Hsk4 : sk (room a K) h m4 l) by (apply insert_sk; intros x Hx; apply Hm4; lia).
  assert (Hcl : c ∉ l) by (intros Hin; by apply Hl in Hin as [? _]).
  assert (Hlc : lv m4 c = v) by apply word_insert_eq. pose proof (room_block a K HP c _ _ Hc) as Hrc.
  destruct (LLA_SkiplistInsert_run (room a K) h m4 c l prev) as (prev' & m' & Hrun & Hp0 & Hsk' & Hlv' & Hlo & Hsome); try done.
  { apply insert_not_head. } { apply nodes_apart; [done|apply insert_nodes]. } { lia. } { by rewrite Hlc, Hrc. }
  { rewrite Hm4 by lia. unfold size_at in Hw. rewrite Hw. by eexists. }
  exists prev', m'. split; [done|]. split; [done|].
  assert (Hhead : forall q u f d, K !! q = Some (u, f) -> 0 <= d < sizeof_Header -> m' !! (q + d) = m !! (q + d)).
  { intros q u f d Hq Hd. rewrite Hlo by (intros p Hp Hin; by apply (link_not_header a K HP p q u f d (q + d) (insert_nodes p Hp) Hq Hd Hin)).
    apply Hm4. unfold sizeof_Header in Hd. pose proof (bl_block _ (pl_ok _ _ HP) _ _ _ Hq) as [? _].
    destruct (decide (q = c)) as [->|Hqc]; [lia|]. destruct (bl_apart _ (pl_ok _ _ HP) _ _ _ _ _ _ Hq Hc Hqc); lia. }
  assert (Hof : only_free a K m m').
  { apply (only_free_trans a K m m4 m'); [|by apply (links_only_free a K HP (h :: c :: l)); [apply insert_nodes|]].
    intros x _ Hx. apply Hm4. intros ->. apply Hx. exists c, s. split; [done|lia]. }
  split; [done|]. split; [apply (Hhead c s true 8); [done|unfold sizeof_Header; lia]|].
  intros m'' Hm'' Hmg. pose proof (fun x => only_free_arena a K HP m m' x Hof) as Hae.
  assert (Hmc : forall x, a <= x < a + sizeof_Arena -> x <> magic_at c).
  { intros x Hx ->. unfold magic_at, sizeof_Arena in *. destruct (pl_sep _ _ HP _ _ _ Hc); unfold sizeof_Arena in *; lia. }
  assert (Harena : forall x, a <= x < a + sizeof_Arena -> ~ h <= x < h + 280 -> word_of m'' x = word_of m x).
  { intros x Hx Hxh. apply word_same. rewrite Hm'', Hae by auto. done. }
  unfold sizeof_Arena, freelist_at in *. split.
  - done.
  - rewrite Harena by (unfold roundup_at; lia). done.
  - rewrite Harena by (unfold min_size_at; lia). done.
  - rewrite <- Hsz. apply word_same. rewrite Hm'' by (apply Hmc; unfold size_at; lia).
    rewrite Hlo, Hm4; [done| |intros p Hp Hin; by apply (link_not_head a K HP p (size_at h) (insert_nodes p Hp) Hin)].
    destruct (pl_sep _ _ HP _ _ _ Hc); unfold size_at, sizeof_Arena in *; lia.
  - done.
  - intros q u f Hq. destruct (decide (q = c)) as [->|Hqc].
    + assert (u = s /\ f = true) as [-> ->] by (split; congruence). unfold header, word_of, size_at, magic_at, arena_at in *. rewrite !(Hm'' c), !(Hm'' (c + 16)) by lia.
      rewrite (Hhead c s true 16) by (done || unfold sizeof_Header; lia). pose proof (Hhead c s true 0 Hc ltac:(unfold sizeof_Header; lia)) as H0. rewrite Z.add_0_r in H0. by rewrite H0.
    + eapply header_frame; [|by apply Hhd]. intros d Hd. rewrite Hm''; [by apply (Hhead q u f)|]. unfold magic_at, sizeof_Header in *.
      pose proof (bl_block _ (pl_ok _ _ HP) _ _ _ Hq) as [? _]. destruct (bl_apart _ (pl_ok _ _ HP) _ _ _ _ _ _ Hq Hc Hqc); lia.
  - intros p. rewrite elem_insert, Hl. split; [intros [->|[? ?]]; [by eexists|done]|]. intros ?. destruct (decide (p = c)); auto.
  - apply (sk_frame _ _ m'); [done| |].
    + intros p i Hp Hi Hr. apply Hm''. apply (link_not_header a K HP p c s true 8); [|done|unfold sizeof_Header; lia|by apply next_in_room; [lia|]].
      apply insert_nodes. revert Hp. rewrite !elem_of_cons, elem_insert. tauto.
    + intros p Hp. rewrite Hm''; [by apply (sk_words _ _ _ _ Hsk')|]. apply elem_insert in Hp as [->|Hp]; [unfold magic_at; lia|]. apply Hl in Hp as (Hpc & u & Hu).
      unfold magic_at. pose proof (bl_block _ (pl_ok _ _ HP) _ _ _ Hu) as [? _]. destruct (bl_apart _ (pl_ok _ _ HP) _ _ _ _ _ _ Hu Hc Hpc); lia.
  - intros p u Hp. assert (Hpl : levels_at p <> magic_at c).
    { unfold levels_at, magic_at, sizeof_Header. pose proof (bl_block _ (pl_ok _ _ HP) _ _ _ Hp) as [? _]. destruct (decide (p = c)) as [->|Hpc]; [lia|].
      destruct (bl_apart _ (pl_ok _ _ HP) _ _ _ _ _ _ Hp Hc Hpc); lia. }
    unfold lv. rewrite (word_same m' m'') by (by apply Hm''). fold (lv m' p). destruct (decide (p = c)) as [->|Hpc].
    + rewrite Hlv' by left. rewrite Hlc. simplify_eq. done.
    + assert (Hpl2 : p ∈ l) by (apply Hl; split; [done|by eexists]). rewrite Hlv' by (by right). unfold lv. rewrite (word_same m m4); [by apply Hlv|].
      apply Hm4. unfold levels_at, sizeof_Header. lia.
Qed.
End Insert.

(** *** Merging two blocks *)

Section Merge.
Context (m : mem) (K : blocks) (l : list Z) (HR : rep m K l).
Context (c s t : Z) (Hc : K !! c = Some (s, true)) (Hn : K !! (c + s) = Some (t, true)).

Let K' := <[c := (s + t, true)]> (delete (c + s) K).
Let m1 := <[arena_at (c + s) := 0]> (<[magic_at (c + s) := 0]> (<[size_at c := s + t]> m)).

Let HK : blocks_ok K := rep_ok _ _ _ _ HR.
Let HP : placed a K := ar_placed _ _ _ _ HR.

Lemma merge_first : sk (room a K) h m1 l /\
  (forall q b, K !! q = Some b -> q <> c -> q <> c + s -> forall d, 0 <= d < sizeof_Header -> m1 !! (q + d) = m !! (q + d)) /\
  header a m1 c (s + t) true /\ (forall x, ~ in_block K true x -> m1 !! x = m !! x) /\ (forall p, p ∈ h :: l -> lv m1 p = lv m p).
Proof.
  pose proof (bl_block _ HK _ _ _ Hc) as (Hs & Hc0 & _). pose proof (bl_block _ HK _ _ _ Hn) as (Ht & _).
  assert (Hm1 : forall x, x <> c -> x <> c + s + 8 -> x <> c + s + 16 -> m1 !! x = m !! x).
  { intros x H1 H2 H3. unfold m1, size_at, magic_at, arena_at. rewrite !lookup_insert_ne by congruence. done. }
  assert (Hlink : forall p x, node a K p -> p + sizeof_Header <= x < p + room a K p -> m1 !! x = m !! x).
  { intros p x Hp Hx. pose proof (link_not_header a K HP p c s true 0 x Hp Hc). pose proof (link_not_header a K HP p (c + s) t true 8 x Hp Hn).
    pose proof (link_not_header a K HP p (c + s) t true 16 x Hp Hn). unfold sizeof_Header in *. apply Hm1; lia. }
  pose proof (ar_sk _ _ _ _ HR) as Hsk. split_and!.
  - apply (sk_frame _ _ m); [done| |].
    + intros p i Hp Hi Hr. apply (Hlink p); [by apply (rep_node a m K l)|]. by apply next_in_room; [lia|].
    + intros p Hp. destruct (sk_words _ _ _ _ Hsk p Hp) as [v Hv]. unfold m1. rewrite !lookup_insert_is_Some'. rewrite Hv. eauto.
  - intros q [u f] Hq Hqc Hqn d Hd. pose proof (bl_block _ HK _ _ _ Hq) as [? _]. unfold sizeof_Header in Hd.
    destruct (bl_apart _ HK _ _ _ _ _ _ Hq Hc Hqc), (bl_apart _ HK _ _ _ _ _ _ Hq Hn Hqn); apply Hm1; lia.
  - destruct (ar_header _ _ _ _ HR _ _ _ Hc) as (_ & H2 & H3). unfold header, word_of, size_at, magic_at, arena_at in *. rewrite !(Hm1 (c + 8)), !(Hm1 (c + 16)) by lia.
    split; [|done]. unfold m1, size_at, magic_at, arena_at. rewrite !lookup_insert_ne by lia. apply lookup_insert_eq.
  - intros x Hx. apply Hm1; intros ->; apply Hx; [exists c, s|exists (c + s), t|exists (c + s), t]; split; (done || lia).
  - intros p Hp. apply (rep_node a m K l HR) in Hp. apply word_same, (Hlink p); [done|]. unfold levels_at, sizeof_Header. split; [lia|].
    destruct (node_room a K HP p Hp) as [->|(u & Hu & ->)]; [rewrite room_head; lia|]. pose proof (bl_block _ HK _ _ _ Hu) as [? _]. lia.
Qed.

(** Both blocks taken off the list. *)
Lemma merge_delete : exists prev2 prev3 m2 m3, LLA_SkiplistDelete h (c + s) ∅ m1 = Ok (prev2, m2) /\ LLA_SkiplistDelete h c prev2 m2 = Ok (prev3, m3) /\
  sk (room a K) h m3 (without c (without (c + s) l)) /\ (forall p, p ∈ without c (without (c + s) l) -> lv m3 p = lv m1 p) /\
  links_only (room a K) (h :: l) m1 m3 /\ (forall x, is_Some (m1 !! x) -> is_Some (m3 !! x)).
Proof.
  destruct merge_first as (Hsk1 & _). pose proof (bl_block _ HK _ _ _ Hc) as (Hs & _).
  assert (Hcl : c ∈ l) by (apply (ar_list _ _ _ _ HR); by exists s). assert (Hnl : c + s ∈ l) by (apply (ar_list _ _ _ _ HR); by exists t).
  destruct (LLA_SkiplistDelete_run _ _ m1 (c + s) l ∅ Hsk1 Hnl) as (prev2 & m2 & Hrun2 & Hsk2 & Hlv2 & Hlo2 & Hsome2).
  assert (Hcl1 : c ∈ without (c + s) l) by (apply elem_without; split; [done|lia]).
  destruct (LLA_SkiplistDelete_run _ _ m2 c (without (c + s) l) prev2 Hsk2 Hcl1) as (prev3 & m3 & Hrun3 & Hsk3 & Hlv3 & Hlo3 & Hsome3).
  exists prev2, prev3, m2, m3. split_and!; [done|done|done| | |auto].
  - intros p Hp. apply elem_without in Hp as [Hp _]. rewrite Hlv3 by done. apply elem_without in Hp as [Hp _]. by apply Hlv2.
  - intros x Hx. rewrite Hlo3, Hlo2; [done|by intros p Hp; apply Hx|].
    intros p Hp. apply Hx. revert Hp. rewrite !elem_of_cons, elem_without. tauto.
Qed.
(** The two blocks replaced by one. *)
Lemma merge_rep v : 1 <= v <= 29 -> min_levels (s + t) <= v -> offset_next + 8 * v <= s + t ->
  exists prev2 prev3 m2 m3, LLA_SkiplistDelete h (c + s) ∅ m1 = Ok (prev2, m2) /\ LLA_SkiplistDelete h c prev2 m2 = Ok (prev3, m3) /\
    word_of m3 (size_at c) = s + t /\ word_of m3 (min_size_at a) = 64 /\
    exists prev' m' l', LLA_SkiplistInsert h c prev3 (<[levels_at c := v]> m3) = Ok (prev', m') /\ rep m' K' l' /\ only_free a K m m'.
Proof.
  intros Hv Hmin Hfit. destruct merge_first as (_ & Hhd1 & Hhc1 & Hof1 & Hlv1).
  destruct merge_delete as (prev2 & prev3 & m2 & m3 & Hrun2 & Hrun3 & Hsk3 & Hlv3 & Hlo3 & Hsome3). exists prev2, prev3, m2, m3. split; [done|]. split; [done|].
  pose proof (bl_block _ HK _ _ _ Hc) as (Hs & Hc0 & _). pose proof (bl_block _ HK _ _ _ Hn) as (Ht & _).
  assert (HK' : K' = coalesce K c) by (unfold coalesce; by rewrite Hc, Hn). assert (HP' : placed a K') by (rewrite HK'; by apply coalesce_placed).
  assert (Hlook : forall q, K' !! q = if decide (q = c) then Some (s + t, true) else if decide (q = c + s) then None else K !! q) by (intros; by apply merge_lookup).
  assert (Hof3 : only_free a K m m3).
  { apply (only_free_trans a K m m1 m3); [intros x _ Hx; by apply Hof1|]. apply (links_only_free a K HP (h :: l)); [|done]. apply (rep_node a m K l HR). }
  assert (Har3 : forall x, a <= x < a + sizeof_Arena -> ~ h <= x < h + 280 -> word_of m3 x = word_of m x).
  { intros x Hx Hxh. apply word_same. by apply (only_free_arena a K HP m m3). }
  assert (Hh3 : forall q u f u' f', K !! q = Some (u, f) -> header a m1 q u' f' -> header a m3 q u' f').
  { intros q u f u' f' Hq. apply (links_only_header a K HP (h :: l) m1 m3 q u f); [apply (rep_node a m K l HR)|done|done]. }
  pose proof (Hh3 c s true _ _ Hc Hhc1) as Hhc3. set (l2 := without c (without (c + s) l)) in *.
  assert (Hl2 : forall p, p ∈ l2 <-> p <> c /\ exists u, K' !! p = Some (u, true)).
  { intros p. unfold l2. rewrite !elem_without, (ar_list _ _ _ _ HR), Hlook. split.
    - intros (([u Hu] & ?) & ?). split; [done|]. exists u. by rewrite !decide_False by done.
    - intros (? & u & Hu). rewrite decide_False in Hu by done. destruct (decide (p = c + s)); [done|]. split_and!; [by exists u|done|done]. }
  assert (Hroom : forall p, p ∈ l2 -> room a K' p = room a K p).
  { intros p Hp. apply Hl2 in Hp as (Hpc & u & Hu). unfold room. rewrite Hlook in *. rewrite (decide_False (P := p = c)) in * by done. by destruct (decide (p = c + s)). }
  destruct Hhc3 as (Hw3 & Hm3 & Ha3). assert (Hwc : word_of m3 (size_at c) = s + t) by (unfold word_of; by rewrite Hw3).
  split; [done|]. split; [rewrite Har3; [apply HR|unfold min_size_at, sizeof_Arena; lia|unfold min_size_at, freelist_at; lia]|].
  destruct (insert_rep m3 K' l2 c (s + t)) with (v := v) (prev := prev3) as (prev' & m' & Hrun & _ & Hof & Hmg & Hrep); try done.
  - apply HR.
  - rewrite Hlook. by rewrite decide_True.
  - rewrite Har3; [apply HR|unfold roundup_at, sizeof_Arena; lia|unfold roundup_at, freelist_at; lia].
  - rewrite Har3; [apply HR|unfold min_size_at, sizeof_Arena; lia|unfold min_size_at, freelist_at; lia].
  - rewrite <- (ar_head _ _ _ _ HR). apply word_same. rewrite Hlo3.
    + apply Hof1. intros (p & u & Hp & Hin). destruct (pl_sep _ _ HP _ _ _ Hp); unfold size_at, freelist_at, sizeof_Arena in *; lia.
    + intros p Hp Hin. by apply (link_not_head a K HP p (size_at h) (rep_node a m K l HR p Hp) Hin).
  - intros q u f Hq Hqc. rewrite Hlook, decide_False in Hq by done. destruct (decide (q = c + s)); [done|]. apply (Hh3 q u f); [done|].
    eapply header_frame; [|by apply (ar_header _ _ _ _ HR)]. intros d Hd. by apply (Hhd1 q (u, f)).
  - apply (sk_room (room a K)); [done| |by rewrite room_head|].
    + intros p Hp. rewrite Hroom by done. by apply (sk_fits _ _ _ _ Hsk3).
    + apply nodes_apart; [done|]. intros p Hp. apply elem_of_cons in Hp as [->|Hp]; [by left|right]. by apply Hl2.
  - intros p u Hp Hpc. assert (Hp2 : p ∈ l2) by (apply Hl2; eauto). rewrite Hlv3, Hlv1 by (done || (right; unfold l2 in Hp2; rewrite !elem_without in Hp2; tauto)).
    apply (ar_levels _ _ _ _ HR). rewrite Hlook, decide_False in Hp by done. by destruct (decide (p = c + s)).
  - exists prev', m', (below c l2 ++ c :: above c l2). split; [done|]. split; [apply Hrep; [done|]; unfold word_of in *; by rewrite Hmg|].
    apply (only_free_trans a K m m3 m'); [done|]. eapply only_free_iff; [|exact Hof]. intros x. rewrite HK'. by apply coalesce_in.
Qed.
End Merge.
(** *** The functions *)

Lemma Coalesce_run st K l c : rep st.(lla_mem) K l -> c = h \/ (exists s, K !! c = Some (s, true)) ->
  exists m' r' l', Coalesce c st = Ok (tt, with_mem m' r' st) /\ rep m' (coalesce K c) l' /\ only_free a K st.(lla_mem) m'.
Proof.
  intros HR Hc. set (m := st.(lla_mem)) in *. pose proof (rep_ok _ _ _ _ HR) as HK. unfold Coalesce.
  erewrite bind_run by apply on_ld. erewrite bind_run by apply on_ld. fold m (nx m c 0).
  assert (Hno : coalesce K c = K -> exists m' r' l', skip st = Ok (tt, with_mem m' r' st) /\ rep m' (coalesce K c) l' /\ only_free a K m m').
  { intros ->. exists m, st.(random_r), l. split; [by destruct st|]. split; [done|]. by intros x ??. }
  destruct Hc as [->|[s Hc]].
  - (* the head of the list has size 0 *)
    assert (Hk : coalesce K h = K) by (unfold coalesce; by rewrite (placed_no_head a K (ar_placed _ _ _ _ HR))).
    pose proof (ar_sk _ _ _ _ HR) as Hsk. pose proof (sk_chain _ _ _ _ Hsk 0 ltac:(lia)) as Hch. rewrite (level_list_0 _ _ _ _ Hsk) in Hch.
    destruct (ar_addr _ _ _ _ HR). rewrite (ar_head _ _ _ _ HR), Z.add_0_r, u64_small by (unfold freelist_at, sizeof_Arena in *; lia).
    assert (Hne : negb (nx m h 0 =? 0) && (h =? nx m h 0) = false).
    { destruct l as [|x l]; [by rewrite Hch|]. destruct Hch as [-> _]. destruct (Z.eqb_spec h x) as [He|]; [|by rewrite andb_false_r].
      exfalso. apply (sk_not_head _ _ _ _ Hsk). rewrite He. left. }
    rewrite Hne. by apply Hno.
  - destruct (ar_header _ _ _ _ HR _ _ _ Hc) as (Hw & _ & Ha). assert (Hsz : word_of m (size_at c) = s) by (unfold word_of; by rewrite Hw). rewrite Hsz.
    destruct (coalesce_test a m K l HR c s Hc) as [-> Hn]. destruct (K !! (c + s)) as [[t []]|] eqn:Ht; [|apply Hno; unfold coalesce; by rewrite Hc, Ht..].
    rewrite (Hn t eq_refl). erewrite bind_run by apply on_ld. erewrite bind_run by apply on_ld. fold m. rewrite Ha.
    destruct (ar_header _ _ _ _ HR _ _ _ Ht) as (Hwn & _). assert (Hszn : word_of m (size_at (c + s)) = t) by (unfold word_of; by rewrite Hwn). rewrite Hszn.
    do 3 (erewrite bind_run by apply on_wr). unfold with_mem at 1 2 3. cbn [lla_mem random_r]. fold m.
    assert (Hbound : 64 <= s + t <= 2 ^ 34).
    { apply (block_size (coalesce K c) (coalesce_ok K HK c) c _ true). unfold coalesce. rewrite Hc, Ht. apply lookup_insert_eq. }
    destruct (on_levels (s + t) true st.(random_r) Hbound) as (v & r & Hlev & Hv & Hmin & Hfit & _).
    destruct (merge_rep m K l HR c s t Hc Ht v Hv Hmin Hfit) as (prev2 & prev3 & m2 & m3 & Hrun2 & Hrun3 & Hw3 & Hmin3 & prev' & m' & l' & Hrun & Hrep & Hof).
    erewrite bind_run by (apply on_mem_run; exact Hrun2). erewrite bind_run by (apply on_mem_run; exact Hrun3).
    erewrite bind_run by apply on_ld. erewrite bind_run by apply on_ld. cbn [with_mem lla_mem]. rewrite Hw3, Hmin3.
    erewrite bind_run by (by apply Hlev).
    erewrite bind_run by apply on_wr. erewrite bind_run by (apply on_mem_run; exact Hrun).
    exists m', r, l'. split; [done|]. unfold coalesce. by rewrite Hc, Ht.
Qed.
Lemma sorted_last_max (k : list Z) d q : StronglySorted Z.lt k -> q ∈ k -> q <= List.last k d.
Proof.
  intros Hs. revert d. induction Hs as [|x k Hs IH Hx]; intros d Hq; [by apply elem_of_nil in Hq|]. rewrite last_cons_default.
  apply elem_of_cons in Hq as [->|Hq]; [|by apply IH]. destruct (last_in k x) as [[-> _]|Hin]; [lia|]. rewrite Forall_forall in Hx. specialize (Hx _ Hin). lia.
Qed.

(** The predecessor the insertion reports. *)
Lemma rep_below m K l f : rep m K l ->
  (List.last (below f l) h = h \/ List.last (below f l) h < f /\ exists u, K !! List.last (below f l) h = Some (u, true)) /\ (f <> h -> free_below K f (List.last (below f l) h)).
Proof.
  intros HR. pose proof (sorted_filter (fun x => x < f) l (sk_sorted _ _ _ _ (ar_sk _ _ _ _ HR))) as Hs. fold (below f l) in Hs.
  destruct (last_in (below f l) h) as [[Hl Hnil]|Hin].
  - rewrite Hl. split; [by left|]. intros Hf. split; [done|]. intros q t Hq Hqf. exfalso.
    assert (Hb : q ∈ below f l) by (apply list_elem_of_filter; split; [done|]; apply (ar_list _ _ _ _ HR); by exists t). rewrite Hnil in Hb. by apply elem_of_nil in Hb.
  - pose proof Hin as Hin'. apply list_elem_of_filter in Hin' as [Hlt Hl]. apply (ar_list _ _ _ _ HR) in Hl as [u Hu]. split; [right; split; [done|by exists u]|]. intros Hf. split; [lia|].
    intros q t Hq Hqf. split; [|by exists u]. split; [|done]. apply sorted_last_max; [done|]. apply list_elem_of_filter. split; [done|]. apply (ar_list _ _ _ _ HR). by exists t.
Qed.

(** What became of the blocks when [f] was freed. *)
Record freed (K : blocks) (f s : Z) (K' : blocks) : Prop := {
  fr_coalesced : coalesced K -> coalesced K';
  fr_live p u : K' !! p = Some (u, false) <-> K !! p = Some (u, false) /\ p <> f;
  fr_free x : in_block K' true x <-> in_block K true x \/ f <= x < f + s;
  fr_big : exists q u, K' !! q = Some (u, true) /\ q <= f /\ f + s <= q + u;
  fr_total : total K' = total K;
  fr_count : live K' = live K - 1
}.

Section Freed.
Context (K : blocks) (HP : placed a K) (f s : Z) (Hf : K !! f = Some (s, false)).
Let K1 := <[f := (s, true)]> K.

Lemma freed_lookup q u g : K1 !! q = Some (u, g) -> exists g', K !! q = Some (u, g').
Proof.
  unfold K1. destruct (decide (q = f)) as [->|]; [rewrite lookup_insert_eq; intros [= <- <-]; by eexists|rewrite lookup_insert_ne by done; by eexists].
Qed.

Lemma freed_placed : placed a K1.
Proof.
  pose proof (pl_ok _ _ HP) as HK. split; [split|].
  - intros q u g Hq. apply freed_lookup in Hq as [g' Hq]. by apply (bl_block _ HK _ _ _ Hq).
  - intros q u g p v g2 Hq Hp Hne. apply freed_lookup in Hq as [? Hq], Hp as [? Hp]. by apply (bl_apart _ HK _ _ _ _ _ _ Hq Hp).
  - unfold total, K1. rewrite (msum_update _ K f (s, false)) by done. simpl. pose proof (bl_total _ HK). unfold total in *. lia.
  - intros q u g Hq. apply freed_lookup in Hq as [g' Hq]. by apply (pl_sep _ _ HP _ _ _ Hq).
Qed.

Lemma freed_room p : room a K1 p = room a K p.
Proof.
  unfold room, K1. destruct (decide (p = h)); [done|]. destruct (decide (p = f)) as [->|]; [by rewrite lookup_insert_eq, Hf|by rewrite lookup_insert_ne].
Qed.

Lemma freed_coalesce p0 : free_below K f p0 -> freed K f s (coalesce (coalesce K1 f) p0).
Proof.
  intros Hfb. pose proof freed_placed as HP1. pose proof (pl_ok _ _ HP1) as HK1. pose proof (coalesce_ok K1 HK1 f) as HK2. split.
  - intros Hco. by apply coalesced_add.
  - intros p u. rewrite !coalesce_alloc by done. unfold K1. destruct (decide (p = f)) as [->|]; [rewrite lookup_insert_eq; naive_solver|].
    rewrite lookup_insert_ne by done. tauto.
  - intros x. rewrite !coalesce_in by done. unfold in_block, K1. split.
    + intros (p & u & Hp & Hx). destruct (decide (p = f)) as [->|]; [rewrite lookup_insert_eq in Hp; simplify_eq; by right|]. rewrite lookup_insert_ne in Hp by done. left. eauto.
    + intros [(p & u & Hp & Hx)|Hx]; [|exists f, s; by rewrite lookup_insert_eq]. exists p, u. rewrite lookup_insert_ne by congruence. done.
  - destruct (coalesce_contains K1 HK1 f f s (lookup_insert_eq _ _ _)) as (q & u & Hq & ? & ?).
    destruct (coalesce_contains _ HK2 p0 q u Hq) as (q' & u' & Hq' & ? & ?). exists q', u'. split; [done|lia].
  - unfold total. rewrite !coalesce_sum by done. unfold K1. rewrite (msum_update _ K f (s, false)) by done. simpl. lia.
  - rewrite !coalesce_live by done. unfold live, K1. rewrite (msum_update _ K f (s, false)) by done. simpl. lia.
Qed.
End Freed.

Lemma AddToFreelist_run st K l f s : rep st.(lla_mem) K l -> K !! f = Some (s, false) ->
  exists m' r' K' l', AddToFreelist (levels_at f) a st = Ok (tt, with_mem m' r' st) /\ rep m' K' l' /\ freed K f s K' /\
    only_free a (<[f := (s, true)]> K) st.(lla_mem) m'.
Proof.
  intros HR Hf. set (m := st.(lla_mem)) in *. pose proof (rep_ok _ _ _ _ HR) as HK. pose proof (ar_placed _ _ _ _ HR) as HP. pose proof (bl_block _ HK _ _ _ Hf) as (Hs & Hf0 & _).
  pose proof (freed_placed K HP f s Hf) as HP1. set (K1 := <[f := (s, true)]> K) in *. assert (Hf1 : K1 !! f = Some (s, true)) by apply lookup_insert_eq.
  pose proof (ar_sk _ _ _ _ HR) as Hsk. destruct (ar_header _ _ _ _ HR _ _ _ Hf) as (Hw & Hmg & Har).
  assert (Hsz : word_of m (size_at f) = s) by (unfold word_of; by rewrite Hw).
  destruct (on_levels s true st.(random_r) (block_size K HK f s false Hf)) as (v & r & Hlev & Hv & Hmin & Hfit & _).
  destruct (insert_rep m K1 l f s) with (v := v) (prev := (∅ : gmap Z Z)) as (prev' & m1 & Hrun & Hp0 & Hof & _ & Hrep); try done; try apply HR.
  - intros p. rewrite (ar_list _ _ _ _ HR). unfold K1. split.
    + intros [u Hu]. assert (p <> f) by congruence. split; [done|]. exists u. by rewrite lookup_insert_ne.
    + intros (? & u & Hu). exists u. by rewrite lookup_insert_ne in Hu.
  - intros q u g Hq Hqf. unfold K1 in Hq. rewrite lookup_insert_ne in Hq by done. by apply (ar_header _ _ _ _ HR).
  - apply (sk_room (room a K)); [done| | |]; [intros p Hp; unfold K1; rewrite freed_room by done; by apply (sk_fits _ _ _ _ Hsk)|by rewrite room_head|].
    intros p q. unfold K1. rewrite !freed_room by done. apply (sk_apart _ _ _ _ Hsk).
  - intros p u Hp Hpf. unfold K1 in Hp. rewrite lookup_insert_ne in Hp by done. by apply (ar_levels _ _ _ _ HR).
  - set (m2 := <[magic_at f := Magic kMagicUnallocated f]> m1).
    specialize (Hrep m2 (fun x Hx => lookup_insert_ne m1 _ _ _ (not_eq_sym Hx)) (word_insert_eq m1 _ _)).
    destruct (Coalesce_run (with_mem m2 r st) K1 _ f Hrep) as (m3 & r3 & l3 & Hrun3 & HR3 & Hof3); [right; by exists s|].
    destruct (rep_below m K l f HR) as [Hnode Hfb]. set (p0 := List.last (below f l) h) in *.
    assert (Hfh : f <> h) by (intros ->; by rewrite (placed_no_head a K HP) in Hf). specialize (Hfb Hfh).
    destruct (Coalesce_run (with_mem m3 r3 st) (coalesce K1 f) l3 p0 HR3) as (m4 & r4 & l4 & Hrun4 & HR4 & Hof4).
    { destruct Hnode as [?|(Hlt & u & Hu)]; [by left|right]. exists u. assert (Hu1 : K1 !! p0 = Some (u, true)) by (unfold K1; rewrite lookup_insert_ne; [done|lia]).
      destruct (coalesce_cases K1 f) as [->|(sc & t & Hc & Hn & ->)]; [done|]. rewrite merge_lookup by done.
      assert (sc = s) as -> by congruence. rewrite !decide_False by lia. done. }
    exists m4, r4, (coalesce (coalesce K1 f) p0), l4. split; [|split; [done|split; [by apply freed_coalesce|]]].
    + unfold AddToFreelist. replace (levels_at f - sizeof_Header) with f by (unfold levels_at, sizeof_Header; lia).
      erewrite bind_run by apply on_ld. fold m. rewrite Hmg. erewrite bind_run by (apply on_require, Z.eqb_refl). erewrite bind_run by apply on_ld.
      fold m. rewrite Har. erewrite bind_run by (apply on_require, Z.eqb_refl). do 2 (erewrite bind_run by apply on_ld). fold m. rewrite Hsz, (ar_min _ _ _ _ HR).
      erewrite bind_run by (by apply Hlev). erewrite bind_run by apply on_wr. cbn [with_mem lla_mem random_r]. fold m.
      erewrite bind_run by (apply on_mem_run; exact Hrun). erewrite bind_run by apply on_wr. erewrite bind_run by exact Hrun3.
      erewrite bind_run by (apply on_mem_run; unfold prev_at; rewrite Hp0; done). exact Hrun4.
    + apply (only_free_trans a K1 m m1 m4); [done|]. apply (only_free_trans a K1 m1 m2 m4).
      * intros x _ Hx. apply lookup_insert_ne. intros <-. apply Hx. exists f, s. split; [done|]. unfold magic_at. lia.
      * apply (only_free_trans a K1 m2 m3 m4); [done|]. eapply only_free_iff; [|exact Hof4]. intros x. by apply coalesce_in, HP1.
Qed.

(** *** Blocks that are not on the list *)

(** The memory the representation is about: the arena but its count, free blocks, headers. *)
Definition kept (K : blocks) (x : Z) : Prop :=
  a <= x < a + sizeof_Arena /\ x <> allocation_count_at a \/ in_block K true x \/ (exists p s, K !! p = Some (s, false) /\ p <= x < p + sizeof_Header).

Lemma rep_frame m m' K l : rep m K l -> (forall x, kept K x -> m' !! x = m !! x) -> rep m' K l.
Proof.
  intros HR Hm. unfold kept, allocation_count_at in Hm. pose proof (rep_ok _ _ _ _ HR) as HK. pose proof (ar_placed _ _ _ _ HR) as HP. unfold sizeof_Arena in Hm.
  assert (Hw : forall x, a <= x < a + 320 -> x <> a + 288 -> word_of m' x = word_of m x) by (intros x Hx Hc; apply word_same, Hm; by left).
  assert (Hhd : forall p s f d, K !! p = Some (s, f) -> 0 <= d < sizeof_Header -> m' !! (p + d) = m !! (p + d)).
  { intros p s f d Hp Hd. apply Hm. right. pose proof (bl_block _ HK _ _ _ Hp) as [? _]. unfold sizeof_Header in *.
    destruct f; [left; exists p, s; split; [done|lia]|right; exists p, s; split; [done|lia]]. }
  assert (Hlink : forall p x, node a K p -> p + sizeof_Header <= x < p + room a K p -> m' !! x = m !! x).
  { intros p x Hp Hx. apply Hm. destruct (link_free a K HP p x Hp Hx) as [?|?]; [left; unfold freelist_at in *; lia|right; by left]. }
  split.
  - apply HR.
  - rewrite Hw; [apply HR|unfold roundup_at; lia..].
  - rewrite Hw; [apply HR|unfold min_size_at; lia..].
  - rewrite Hw; [apply HR|unfold size_at, freelist_at; lia..].
  - done.
  - intros p s f Hp. eapply header_frame; [|by apply (ar_header _ _ _ _ HR)]. intros d Hd. by apply (Hhd p s f).
  - apply (ar_list _ _ _ _ HR).
  - pose proof (ar_sk _ _ _ _ HR) as Hsk. apply (sk_frame _ _ m); [done| |].
    + intros p i Hp Hi Hr. apply (Hlink p); [by apply (rep_node a m K l)|]. by apply next_in_room; [lia|].
    + intros p Hp. pose proof (sk_words _ _ _ _ Hsk p Hp) as Hs. apply (ar_list _ _ _ _ HR) in Hp as [s Hp].
      pose proof (Hhd p s true 0 Hp ltac:(unfold sizeof_Header; lia)) as H0. rewrite Z.add_0_r in H0. by rewrite H0.
  - intros p s Hp. unfold lv. rewrite (word_same m m'); [by apply (ar_levels _ _ _ _ HR)|]. pose proof (bl_block _ HK _ _ _ Hp) as [? _].
    apply (Hlink p); [right; by exists s|]. rewrite (room_block a K HP p s true) by done. unfold levels_at, sizeof_Header. lia.
Qed.

(** The room of the nodes stays when an allocated block comes or goes. *)
Lemma rep_change m K K' l : rep m K l -> placed a K' -> (forall p s f, K' !! p = Some (s, f) -> header a m p s f) ->
  (forall p s, K' !! p = Some (s, true) <-> K !! p = Some (s, true)) -> rep m K' l.
Proof.
  intros HR HP' Hhd Hfree. pose proof (ar_placed _ _ _ _ HR) as HP. pose proof (ar_sk _ _ _ _ HR) as Hsk. split; try apply HR; [done|done| | |].
  - intros p. rewrite (ar_list _ _ _ _ HR). split; intros [s Hs]; exists s; by apply Hfree.
  - apply (sk_room (room a K)); [done| |by rewrite room_head|].
    + intros p Hp. pose proof (sk_fits _ _ _ _ Hsk p Hp) as Hfit. apply (ar_list _ _ _ _ HR) in Hp as [s Hp].
      rewrite (room_block a K HP p s true) in Hfit by done. rewrite (room_block a K' HP' p s true); [done|]. by apply Hfree.
    + apply nodes_apart; [done|]. intros p Hp. apply (rep_node a m K l HR) in Hp as [->|[s Hs]]; [by left|right]. exists s. by apply Hfree.
  - intros p s Hp. apply (ar_levels _ _ _ _ HR). by apply Hfree.
Qed.

(** A region apart from everything the arena has. *)
Record fresh_region (K : blocks) (p s : Z) : Prop := {
  fg_size : 64 <= s /\ 0 < p /\ p + s <= 2 ^ 48 /\ p mod 32 = 0 /\ s mod 32 = 0;
  fg_apart q t f : K !! q = Some (t, f) -> p + s <= q \/ q + t <= p;
  fg_arena : p + s <= a \/ a + sizeof_Arena <= p;
  fg_total : total K + s <= 2 ^ 34
}.

Lemma fresh_none K p s : placed a K -> fresh_region K p s -> K !! p = None.
Proof.
  intros HP Hf. destruct (K !! p) as [[t f]|] eqn:Hp; [|done]. exfalso. pose proof (bl_block _ (pl_ok _ _ HP) _ _ _ Hp) as [? _].
  destruct (fg_size _ _ _ Hf), (fg_apart _ _ _ Hf _ _ _ Hp); lia.
Qed.

Lemma fresh_placed K p s f : placed a K -> fresh_region K p s -> placed a (<[p := (s, f)]> K).
Proof.
  intros HP Hf. pose proof (pl_ok _ _ HP) as HK. pose proof (fresh_none K p s HP Hf) as Hnone. destruct Hf as [Hsz Hap Har Htot]. split; [split|].
  - intros q t g. destruct (decide (q = p)) as [->|]; [rewrite lookup_insert_eq; by intros [= <- <-]|rewrite lookup_insert_ne by done; apply HK].
  - intros q t g q' t' g'. destruct (decide (q = p)) as [->|Hq], (decide (q' = p)) as [->|Hq'];
      rewrite ?lookup_insert_eq, ?lookup_insert_ne by done; intros H1 H2 Hne; simplify_eq; [by eapply Hap|pose proof (Hap _ _ _ H1); tauto|by eapply (bl_apart _ HK)].
  - unfold total in *. rewrite msum_insert by done. simpl. lia.
  - intros q t g. destruct (decide (q = p)) as [->|]; [rewrite lookup_insert_eq; by intros [= <- <-]|rewrite lookup_insert_ne by done; apply HP].
Qed.

(** Where a block was is room for it. *)
Lemma fresh_deleted K p s f : placed a K -> K !! p = Some (s, f) -> fresh_region (delete p K) p s.
Proof.
  intros HP Hp. pose proof (pl_ok _ _ HP) as HK. split.
  - by apply (bl_block _ HK _ _ _ Hp).
  - intros q t g Hq. apply lookup_delete_Some in Hq as [Hne Hq]. by apply (bl_apart _ HK _ _ _ _ _ _ Hp Hq).
  - by apply (pl_sep _ _ HP _ _ _ Hp).
  - pose proof (bl_total _ HK) as Ht. unfold total in *. rewrite (msum_delete _ K p (s, f)) in Ht by done. simpl in Ht. lia.
Qed.

(** A block with its header comes in, allocated. *)
Lemma rep_add m K l p s : rep m K l -> fresh_region K p s -> header a m p s false -> rep m (<[p := (s, false)]> K) l.
Proof.
  intros HR Hf Hh. pose proof (fresh_none K p s (ar_placed _ _ _ _ HR) Hf) as Hnone.
  apply (rep_change m K); [done|apply fresh_placed; [apply HR|done]| |].
  - intros q t g. destruct (decide (q = p)) as [->|]; [rewrite lookup_insert_eq; by intros [= <- <-]|rewrite lookup_insert_ne by done; apply HR].
  - intros q t. destruct (decide (q = p)) as [->|]; [rewrite lookup_insert_eq, Hnone; by split|by rewrite lookup_insert_ne].
Qed.

(** A free block is taken off the list: the arena without it. *)
Lemma delete_rep m K l c s : rep m K l -> K !! c = Some (s, true) ->
  exists prev m' l', LLA_SkiplistDelete h c ∅ m = Ok (prev, m') /\ rep m' (delete c K) l' /\ header a m' c s true /\ only_free a K m m'.
Proof.
  intros HR Hc. pose proof (rep_ok _ _ _ _ HR) as HK. pose proof (ar_placed _ _ _ _ HR) as HP.
  assert (Hcl : c ∈ l) by (apply (ar_list _ _ _ _ HR); by exists s).
  destruct (LLA_SkiplistDelete_run _ _ m c l ∅ (ar_sk _ _ _ _ HR) Hcl) as (prev & m' & Hrun & Hsk & Hlv & Hlo & Hsome).
  pose proof (fun q t g => links_only_header a K HP (h :: l) m m' q t g t g (rep_node a m K l HR) Hlo) as Hhd.
  pose proof (links_only_free a K HP (h :: l) m m' (rep_node a m K l HR) Hlo) as Hof.
  assert (Hw : forall x, a <= x < a + 320 -> ~ h <= x < h + 280 -> word_of m' x = word_of m x).
  { intros x Hx Hxh. apply word_same. by apply (only_free_arena a K HP). }
  exists prev, m', (without c l). split; [done|]. split; [|split; [apply (Hhd c s true); [done|by apply (ar_header _ _ _ _ HR)]|done]].
  assert (Hsub : forall q t g, delete c K !! q = Some (t, g) -> q <> c /\ K !! q = Some (t, g)).
  { intros q t g Hq. apply lookup_delete_Some in Hq as [? Hq]. done. }
  assert (HP' : placed a (delete c K)).
  { split; [split|].
    - intros q t g Hq. apply Hsub in Hq as [_ Hq]. by apply (bl_block _ HK _ _ _ Hq).
    - intros q t g q' t' g' Hq Hq'. apply Hsub in Hq as [_ Hq], Hq' as [_ Hq']. by apply (bl_apart _ HK _ _ _ _ _ _ Hq Hq').
    - pose proof (bl_total _ HK) as Ht. unfold total in *. rewrite (msum_delete _ K c (s, true)) in Ht by done. simpl in Ht. pose proof (bl_block _ HK _ _ _ Hc). lia.
    - intros q t g Hq. apply Hsub in Hq as [_ Hq]. by apply (pl_sep _ _ HP _ _ _ Hq). }
  assert (Hl : forall p, p ∈ without c l <-> exists t, delete c K !! p = Some (t, true)).
  { intros p. rewrite elem_without, (ar_list _ _ _ _ HR). split; [intros [[t Ht] ?]; exists t; by rewrite lookup_delete_ne|].
    intros [t Ht]. apply Hsub in Ht as [? Ht]. split; [by exists t|done]. }
  unfold freelist_at, sizeof_Arena in *. split.
  - apply HR.
  - rewrite Hw; [apply HR|unfold roundup_at; lia..].
  - rewrite Hw; [apply HR|unfold min_size_at; lia..].
  - rewrite <- (ar_head _ _ _ _ HR). apply word_same, Hlo. intros p Hp Hin. by apply (link_not_head a K HP p (size_at h) (rep_node a m K l HR p Hp) Hin).
  - done.
  - intros q t g Hq. apply Hsub in Hq as [_ Hq]. apply (Hhd q t g); [done|]. by apply (ar_header _ _ _ _ HR).
  - done.
  - apply (sk_room (room a K)); [done| |by rewrite room_head|apply nodes_apart; [done|]].
    + intros p Hp. pose proof (sk_fits _ _ _ _ Hsk p Hp) as Hfit. apply Hl in Hp as [t Ht]. rewrite (room_block a _ HP' p t true) by done.
      apply Hsub in Ht as [_ Ht]. by rewrite (room_block a K HP p t true) in Hfit.
    + intros p Hp. apply elem_of_cons in Hp as [->|Hp]; [by left|right]. by apply Hl.
  - intros p t Hp. apply Hsub in Hp as [? Hp]. rewrite Hlv by (apply (ar_list _ _ _ _ HR); by exists t). by apply (ar_levels _ _ _ _ HR).
Qed.

(** The header of a new block. *)
Lemma write_header m p s : header a (<[arena_at p := a]> (<[magic_at p := Magic kMagicAllocated p]> (<[size_at p := s]> m))) p s false /\
  forall x, ~ p <= x < p + sizeof_Header -> <[arena_at p := a]> (<[magic_at p := Magic kMagicAllocated p]> (<[size_at p := s]> m)) !! x = m !! x.
Proof.
  unfold header, word_of, size_at, magic_at, arena_at, sizeof_Header. split.
  - split_and!; [by rewrite !lookup_insert_ne, lookup_insert_eq by lia|by rewrite lookup_insert_ne, lookup_insert_eq by lia|by rewrite lookup_insert_eq].
  - intros x Hx. rewrite !lookup_insert_ne by lia. done.
Qed.

(** Where a fresh region is, the arena has nothing. *)
Lemma fresh_outside K p s x : placed a K -> fresh_region K p s -> p <= x < p + s -> ~ kept K x.
Proof.
  intros HP Hf Hx [[? _]|[(q & t & Hq & ?)|(q & t & Hq & ?)]].
  - destruct (fg_arena _ _ _ Hf); lia.
  - destruct (fg_apart _ _ _ Hf _ _ _ Hq); lia.
  - pose proof (bl_block _ (pl_ok _ _ HP) _ _ _ Hq) as [? _]. unfold sizeof_Header in *. destruct (fg_apart _ _ _ Hf _ _ _ Hq); lia.
Qed.

Lemma InsertAllocatedMemoryLocked_run st K l p s : rep st.(lla_mem) K l -> fresh_region K p s ->
  exists m' r' K' l', InsertAllocatedMemoryLocked a p s st = Ok (tt, with_mem m' r' st) /\ rep m' K' l' /\
    freed (<[p := (s, false)]> K) p s K' /\ only_free a (<[p := (s, true)]> K) st.(lla_mem) m'.
Proof.
  intros HR Hf. set (m := st.(lla_mem)) in *. pose proof (ar_placed _ _ _ _ HR) as HP.
  destruct (write_header m p s) as [Hh Hm1]. set (m1 := <[arena_at p := a]> _) in *. destruct (fg_size _ _ _ Hf) as (Hs & _).
  assert (HR1 : rep m1 (<[p := (s, false)]> K) l).
  { apply rep_add; [|done|done]. apply (rep_frame m); [done|]. intros x Hx. apply Hm1. intros Hin. by apply (fresh_outside K p s x HP Hf); [unfold sizeof_Header in *; lia|]. }
  destruct (AddToFreelist_run (with_mem m1 st.(random_r) st) (<[p := (s, false)]> K) l p s HR1 (lookup_insert_eq _ _ _)) as (m' & r' & K' & l' & Hrun & HR' & Hfr & Hof).
  exists m', r', K', l'. split; [|split; [done|split; [done|]]].
  - unfold InsertAllocatedMemoryLocked. do 3 (erewrite bind_run by apply on_wr). exact Hrun.
  - rewrite insert_insert_eq in Hof. apply (only_free_trans a _ m m1 m'); [|done]. intros x _ Hx. apply Hm1. intros Hin. apply Hx.
    exists p, s. rewrite lookup_insert_eq. split; [done|]. unfold sizeof_Header in *. lia.
Qed.
End Ops.
