(* ===== verification/LowLevelSpec.v ===== *)
(** What the low-level allocator promises. *)
From Stdlib Require Import Sorting.Sorted.
From stdpp Require Import sorting.
From S2P Require Import Prelude SizeMap LinkedList Bytes SystemAlloc SkipList LowLevelAlloc LowLevelInv LowLevelOps.

(** ** Where pages come from *)

(** The states a pages allocator can be in, and the bytes that are not its own to give. *)
Class PagesGhost (W : Type) := {
  pages_ok : W -> Prop;
  taken : W -> Z -> Prop;
  (** how a call may change what else there is *)
  pages_rel : W -> W -> Prop
}.

(** What the arenas rely on: the object [al] returns fresh memory in whole units of 32
    bytes, at least as much as asked for and at most [slack] more. *)
Class PagesLaws {W : Type} {PA : PagesAllocator W} {PG : PagesGhost W} (al slack : Z) : Prop := {
  slack_pos : 0 <= slack;
  pages_rel_refl w : pages_rel w w;
  MapPages_ok n w : pages_ok w -> 0 < n <= 2 ^ 35 -> n mod kMinimalRegion = 0 ->
    wp (MapPages al n) (fun '(p, k) w' => pages_ok w' /\ pages_rel w w' /\ n <= k <= n + slack /\ 0 < p /\ p + k <= 2 ^ 48 /\ p mod 32 = 0 /\ k mod 32 = 0 /\
      (forall x, p <= x < p + k -> ~ taken w x) /\ (forall x, taken w' x <-> taken w x \/ p <= x < p + k)) w
}.

Section Spec.
Context {W : Type} {PA : PagesAllocator W} {PG : PagesGhost W}.
Context (default_arena_storage : Z) (al slack : Z) {PL : PagesLaws al slack}.
Implicit Types (st : LLA W).

Section Arena.
Context (a : Z).
Abbreviation h := (freelist_at a).
Abbreviation rep := (arena_rep a).

(** ** Searching for a region *)

Lemma Next_run m K l i prev : rep m K l -> coalesced K -> 0 <= i < 30 -> prev ∈ h :: l -> i < lv m prev ->
  (nx m prev i = 0 \/ nx m prev i ∈ l /\ (prev <> h -> prev < nx m prev i)) ->
  Next i prev a m = Ok (nx m prev i, m).
Proof.
  intros HR Hco Hi Hp Hlv Hn. set (n := nx m prev i) in *. unfold Next, ld. erewrite bind_run by done. fold (lv m prev).
  destruct (Z.ltb_spec i (lv m prev)); [|lia]. cbn [require]. erewrite bind_run by done. erewrite bind_run by done. fold (nx m prev i). fold n.
  destruct (Z.eqb_spec n 0) as [->|Hn0]; [done|]. destruct Hn as [|[Hnl Hlt]]; [done|]. apply (ar_list _ _ _ _ HR) in Hnl as [t Ht].
  destruct (ar_header _ _ _ _ HR _ _ _ Ht) as (_ & Hmg & Har). change (negb false) with true. cbv iota.
  destruct (Z.eqb_spec prev h) as [->|Hph].
  - erewrite bind_run; [done|]. erewrite bind_run by done. rewrite Hmg, Z.eqb_refl. cbn [require]. erewrite bind_run by done. erewrite bind_run by done.
    rewrite Har, Z.eqb_refl. done.
  - specialize (Hlt Hph). apply elem_of_cons in Hp as [?|Hp]; [done|]. apply (ar_list _ _ _ _ HR) in Hp as [s Hs].
    destruct (ar_header _ _ _ _ HR _ _ _ Hs) as (Hw & _). assert (Hsz : word_of m (size_at prev) = s) by (unfold word_of; by rewrite Hw).
    pose proof (bl_block _ (rep_ok _ _ _ _ HR) _ _ _ Hs) as (? & ? & ? & _). pose proof (Hco prev s n t Hs Ht).
    assert (prev + s <= n) by (pose proof (bl_block _ (rep_ok _ _ _ _ HR) _ _ _ Ht); destruct (bl_apart _ (rep_ok _ _ _ _ HR) _ _ _ _ _ _ Hs Ht ltac:(lia)); lia).
    erewrite bind_run; [done|]. erewrite bind_run by done. rewrite Hmg, Z.eqb_refl. cbn [require]. erewrite bind_run by done. erewrite bind_run by done.
    rewrite Har, Z.eqb_refl. cbn [require]. erewrite bind_run by done. change (negb false) with true. cbv iota. destruct (Z.ltb_spec prev n); [|lia].
    cbn [require]. erewrite bind_run by done. erewrite bind_run by done. rewrite Hsz, u64_small by lia. by destruct (Z.ltb_spec (prev + s) n); [|lia].
Qed.

(** The first node of [L] that is large enough. *)
Definition fits (K : blocks) (req p : Z) : Prop := exists s, K !! p = Some (s, true) /\ req <= s.

Lemma find_loop_run m K l i req : rep m K l -> coalesced K -> 0 <= i < 30 -> forall L fuel before,
  chain m i before L 0 -> StronglySorted Z.lt L -> (forall p, p ∈ L -> p ∈ l /\ i < lv m p) ->
  before ∈ h :: l -> i < lv m before -> (before <> h -> forall p, p ∈ L -> before < p) -> (length L < fuel)%nat ->
  exists s, find_loop fuel i before a req m = Ok (s, m) /\
    ((s = 0 /\ forall p, p ∈ L -> ~ fits K req p) \/ (s ∈ L /\ fits K req s /\ forall p, p ∈ L -> p < s -> ~ fits K req p)).
Proof.
  intros HR Hco Hi. induction L as [|x L IH]; intros [|fuel] before Hch Hs HL Hb Hlv Hord Hf; simpl in Hf; try lia; cbn [find_loop].
  - simpl in Hch. erewrite bind_run by (apply (Next_run m K l); try done; by left). rewrite Hch. exists 0. split; [done|]. left. split; [done|]. intros p Hp. by apply elem_of_nil in Hp.
  - destruct Hch as [Hx Hch]. destruct (HL x ltac:(left)) as [Hxl Hxlv]. erewrite bind_run; last first.
    { apply (Next_run m K l); try done. right. rewrite Hx. split; [done|]. intros Hbh. apply (Hord Hbh x). left. }
    rewrite Hx. pose proof (sk_pos _ _ _ _ (ar_sk _ _ _ _ HR) x Hxl). destruct (Z.eqb_spec x 0); [lia|].
    pose proof Hxl as Hxk. apply (ar_list _ _ _ _ HR) in Hxk as [u Hu]. destruct (ar_header _ _ _ _ HR _ _ _ Hu) as (Hw & _).
    unfold ld. erewrite bind_run by done. assert (Hsz : word_of m (size_at x) = u) by (unfold word_of; by rewrite Hw). rewrite Hsz.
    apply StronglySorted_inv in Hs as [Hs' Hall]. rewrite Forall_forall in Hall. destruct (Z.ltb_spec u req) as [Hlt|Hge].
    + destruct (IH fuel x) as (s & Hrun & Hres); [done|done|intros p Hp; apply HL; by right|by right|done|intros _; apply Hall|lia|]. exists s. split; [done|].
      assert (Hnx : ~ fits K req x) by (intros (u' & Hu' & ?); assert (u' = u) by congruence; lia).
      destruct Hres as [[-> Hno]|(Hsl & Hfs & Hno)]; [left|right].
      * split; [done|]. intros p Hp. apply elem_of_cons in Hp as [->|Hp]; [done|by apply Hno].
      * split_and!; [by right|done|]. intros p Hp Hps. apply elem_of_cons in Hp as [->|Hp]; [done|by apply Hno].
    + exists x. split; [done|]. right. split_and!; [left|by exists u|]. intros p Hp Hpx. apply elem_of_cons in Hp as [->|Hp]; [lia|]. specialize (Hall p Hp). lia.
Qed.

(** First fit: the lowest free block that is large enough, or null if there is none. *)
Lemma find_region_run st K l req : rep st.(lla_mem) K l -> coalesced K -> 64 <= req <= 2 ^ 34 ->
  exists s r', find_region a req st = Ok (s, with_mem st.(lla_mem) r' st) /\
    ((s = 0 /\ forall p, ~ fits K req p) \/ (fits K req s /\ forall p, p < s -> ~ fits K req p)).
Proof.
  intros HR Hco Hreq. set (m := st.(lla_mem)) in *. pose proof (ar_sk _ _ _ _ HR) as Hsk.
  destruct (on_levels (W := W) req false st.(random_r) Hreq) as (v & r & Hlev & Hv & _ & _ & Hmin). specialize (Hmin eq_refl).
  unfold find_region. erewrite bind_run by apply on_ld. fold m. rewrite (ar_min _ _ _ _ HR). erewrite bind_run by (by apply Hlev).
  erewrite bind_run by apply on_ld. cbn [with_mem lla_mem]. fold m (lv m h).
  assert (Hfit : forall p, fits K req p -> p ∈ level_list m (v - 1) l).
  { intros p (s & Hs & Hge). apply level_list_elem. split; [apply (ar_list _ _ _ _ HR); by exists s|]. pose proof (ar_levels _ _ _ _ HR p s Hs).
    pose proof (min_levels_mono req s ltac:(lia)). lia. }
  destruct (Z.ltb_spec (v - 1) (lv m h)) as [Hlt|Hge].
  - erewrite bind_run by done. cbn [with_mem lla_mem]. fold m.
    pose proof (words_count m l (sorted_NoDup l (sk_sorted _ _ _ _ Hsk)) (sk_words _ _ _ _ Hsk)) as Hw.
    assert (Hlen : (length (level_list m (v - 1) l) <= length l)%nat) by apply length_filter.
    destruct (find_loop_run m K l (v - 1) req HR Hco ltac:(lia) (level_list m (v - 1) l) (S (size m)) h) as (s & Hrun & Hres).
    { by apply (sk_chain _ _ _ _ Hsk); lia. } { apply sorted_filter, (sk_sorted _ _ _ _ Hsk). } { intros p Hp. by apply level_list_elem in Hp. }
    { left. } { done. } { done. } { lia. }
    exists s, r. split; [exact (on_mem_run _ (with_mem m r st) s m Hrun)|]. destruct Hres as [[-> Hno]|(_ & Hfs & Hno)]; [left|right].
    + split; [done|]. intros p Hp. by apply (Hno p (Hfit p Hp)).
    + split; [done|]. intros p Hp Hf. by apply (Hno p (Hfit p Hf)).
  - exists 0, r. split; [done|]. left. split; [done|]. intros p Hp. apply Hfit in Hp. apply level_list_elem in Hp as [Hp ?].
    pose proof (sk_levels _ _ _ _ Hsk p Hp). lia.
Qed.

(** ** The invariant of an arena between calls *)

Record arena_inv st (K : blocks) : Prop := {
  ai_rep : exists l, rep st.(lla_mem) K l;
  ai_coalesced : coalesced K;
  ai_count : word_of st.(lla_mem) (allocation_count_at a) = live K;
  ai_allocator : word_of st.(lla_mem) (allocator_at a) = al;
  ai_pages : pages_ok st.(lla_world);
  ai_arena x : a <= x < a + sizeof_Arena -> taken st.(lla_world) x;
  ai_taken f x : in_block K f x -> taken st.(lla_world) x
}.

(** What a call may change: the free list, the count, free memory and memory that nobody had. *)
Record framed (K : blocks) st st' : Prop := {
  fm_mem x : taken st.(lla_world) x -> ~ a <= x < a + sizeof_Arena -> ~ in_block K true x -> st'.(lla_mem) !! x = st.(lla_mem) !! x;
  fm_taken x : taken st.(lla_world) x -> taken st'.(lla_world) x;
  fm_rel : pages_rel st.(lla_world) st'.(lla_world);
  fm_default : st'.(default_arena) = st.(default_arena)
}.

Lemma RoundUp_spec x k : 0 <= k <= 40 -> 0 <= x <= 2 ^ 40 -> x <= RoundUp x (2 ^ k) < x + 2 ^ k /\ RoundUp x (2 ^ k) mod 2 ^ k = 0.
Proof.
  intros Hk Hx. assert (Hp : 0 < 2 ^ k <= 2 ^ 40) by (split; [apply Z.pow_pos_nonneg; lia|apply Z.pow_le_mono_r; lia]).
  unfold RoundUp. rewrite i64_small by lia. replace (2 ^ k - 1) with (Z.ones k) by (rewrite Z.ones_equiv; lia).
  rewrite <- Z.ldiff_land, Z.ldiff_ones_r, Z.shiftl_mul_pow2, Z.shiftr_div_pow2 by lia.
  pose proof (Z.div_mod (x + 2 ^ k - 1) (2 ^ k) ltac:(lia)) as Hd. pose proof (Z.mod_pos_bound (x + 2 ^ k - 1) (2 ^ k) ltac:(lia)).
  replace ((x + 2 ^ k - 1) / 2 ^ k * 2 ^ k) with (2 ^ k * ((x + 2 ^ k - 1) / 2 ^ k)) by lia. rewrite u64_small by lia.
  split; [lia|]. rewrite Z.mul_comm. apply Z.mod_mul. lia.
Qed.

Lemma wp_on_world {A} (f : M W A) Q st : wp f (fun v w => Q v (mkLLA st.(lla_mem) st.(random_r) st.(default_arena) w)) st.(lla_world) -> wp (on_world f) Q st.
Proof. unfold wp, on_world. destruct (f (lla_world st)) as [[v w]| | |]; done. Qed.

(** Fresh pages are fresh for the arena. *)
Lemma fresh_pages st K p k : arena_inv st K -> 64 <= k -> 0 < p -> p + k <= 2 ^ 48 -> p mod 32 = 0 -> k mod 32 = 0 -> total K + k <= 2 ^ 34 ->
  (forall x, p <= x < p + k -> ~ taken st.(lla_world) x) -> fresh_region a K p k.
Proof.
  intros [[l HR] _ _ _ _ Har Htk] Hk Hp Hpk Hm Hmk Htot Hfr. split; [done| | |done].
  - intros q t f Hq. pose proof (bl_block _ (rep_ok _ _ _ _ HR) _ _ _ Hq) as [? _]. destruct (Z.le_gt_cases (p + k) q); [by left|right].
    destruct (Z.le_gt_cases (q + t) p); [done|]. exfalso. apply (Hfr (Z.max p q)); [lia|]. apply (Htk f). exists q, t. split; [done|lia].
  - destruct (Z.le_gt_cases (p + k) a); [by left|right]. destruct (Z.le_gt_cases (a + sizeof_Arena) p); [done|]. exfalso.
    unfold sizeof_Arena in *. apply (Hfr (Z.max p a)); [lia|]. apply Har. lia.
Qed.

Lemma coalesced_alloc K p s : coalesced K -> coalesced (<[p := (s, false)]> K).
Proof.
  intros Hco q u q' u' Hq Hq'. destruct (decide (q = p)) as [->|]; [by rewrite lookup_insert_eq in Hq|].
  destruct (decide (q' = p)) as [->|]; [by rewrite lookup_insert_eq in Hq'|]. rewrite lookup_insert_ne in Hq, Hq' by done. by apply (Hco q u q' u').
Qed.

Lemma in_block_alloc K p s x : K !! p = None -> in_block (<[p := (s, false)]> K) true x <-> in_block K true x.
Proof.
  intros Hp. split; intros (q & u & Hq & Hx); exists q, u; (split; [|done]).
  - destruct (decide (q = p)) as [->|]; [by rewrite lookup_insert_eq in Hq|]. by rewrite lookup_insert_ne in Hq.
  - rewrite lookup_insert_ne; [done|congruence].
Qed.

(** What [MapPages] and [InsertAllocatedMemoryLocked] do to the arena. *)
Lemma grow_run st K p k w' : arena_inv st K -> fresh_region a K p k -> pages_ok w' -> pages_rel st.(lla_world) w' ->
  (forall x, p <= x < p + k -> ~ taken st.(lla_world) x) -> (forall x, taken w' x <-> taken st.(lla_world) x \/ p <= x < p + k) ->
  exists m' r' K', let st' := mkLLA m' r' st.(default_arena) w' in
    InsertAllocatedMemoryLocked a p k (mkLLA st.(lla_mem) st.(random_r) st.(default_arena) w') = Ok (tt, st') /\
    arena_inv st' K' /\ framed K st st' /\ (exists q u, K' !! q = Some (u, true) /\ k <= u) /\ total K' = total K + k /\
    (forall q u, K' !! q = Some (u, false) <-> K !! q = Some (u, false)) /\ (forall x, in_block K' true x -> in_block K true x \/ p <= x < p + k).
Proof.
  intros [[l HR] Hco Hcnt Hal Hpg Har Htk] Hfr Hpg' Hrel Hnt Htk'. pose proof (fresh_none a K p k (ar_placed _ _ _ _ HR) Hfr) as Hnone.
  set (st1 := mkLLA st.(lla_mem) st.(random_r) st.(default_arena) w').
  destruct (InsertAllocatedMemoryLocked_run a st1 K l p k HR Hfr) as (m' & r' & K' & l' & Hrun & HR' & Hfd & Hof). exists m', r', K'. cbv zeta.
  split; [exact Hrun|]. cbn [lla_mem st1] in Hof. destruct (fg_size _ _ _ _ Hfr) as (Hk & _). pose proof (ar_placed _ _ _ _ HR) as HP.
  assert (Hin1 : forall x, in_block (<[p := (k, true)]> K) true x -> in_block K true x \/ p <= x < p + k).
  { intros x (q & u & Hq & Hx). destruct (decide (q = p)) as [->|]; [rewrite lookup_insert_eq in Hq; simplify_eq; by right|].
    rewrite lookup_insert_ne in Hq by done. left. by exists q, u. }
  assert (Hlive : forall q u, K' !! q = Some (u, false) <-> K !! q = Some (u, false)).
  { intros q u. rewrite (fr_live _ _ _ _ Hfd). split.
    - intros [Hq Hne]. by rewrite lookup_insert_ne in Hq.
    - intros Hq. assert (q <> p) by congruence. by rewrite lookup_insert_ne. }
  assert (Hfree : forall x, in_block K' true x -> in_block K true x \/ p <= x < p + k).
  { intros x Hx. apply (fr_free _ _ _ _ Hfd) in Hx as [Hx|Hx]; [left; by apply in_block_alloc in Hx|by right]. }
  assert (Harw : forall x, a <= x < a + sizeof_Arena -> ~ h <= x < h + 280 -> word_of m' x = word_of st.(lla_mem) x).
  { intros x Hx Hxh. apply word_same. apply (only_free_arena a _ (fresh_placed a K p k true HP Hfr) _ _ x Hof); done. }
  split; [split|split; [split|split; [|split; [|split; [done|done]]]]]; cbn [lla_mem lla_world default_arena].
  - by exists l'.
  - by apply (fr_coalesced _ _ _ _ Hfd), coalesced_alloc.
  - rewrite Harw by (unfold allocation_count_at, sizeof_Arena, freelist_at; lia). rewrite Hcnt, (fr_count _ _ _ _ Hfd). unfold live. rewrite msum_insert by done. simpl. lia.
  - rewrite Harw by (unfold allocator_at, sizeof_Arena, freelist_at; lia). done.
  - done.
  - intros x Hx. apply Htk'. left. by apply Har.
  - intros [] x Hx; apply Htk'; [destruct (Hfree x Hx); [left; by apply (Htk true)|by right]|]. left. destruct Hx as (q & u & Hq & Hx). apply (Htk false). exists q, u. split; [by apply Hlive|done].
  - intros x Htx Hxa Hxk. apply Hof; [unfold freelist_at, sizeof_Arena in *; lia|]. intros Hin. destruct (Hin1 x Hin) as [?|?]; [done|]. by apply (Hnt x).
  - intros x Hx. apply Htk'. by left.
  - done.
  - done.
  - destruct (fr_big _ _ _ _ Hfd) as (q & u & Hq & ? & ?). exists q, u. split; [done|lia].
  - rewrite (fr_total _ _ _ _ Hfd). unfold total. rewrite msum_insert by done. simpl. lia.
Qed.

(** What [alloc_loop] finds, growing the arena if it must. *)
Lemma wp_alloc_loop st K req : arena_inv st K -> 64 <= req -> total K + req + 2 ^ 20 + slack <= 2 ^ 34 ->
  wp (alloc_loop 2 a req) (fun s st' => exists K', arena_inv st' K' /\ framed K st st' /\ fits K' req s /\ (forall p, p < s -> ~ fits K' req p) /\
    (forall q u, K' !! q = Some (u, false) <-> K !! q = Some (u, false)) /\
    (forall x, in_block K' true x -> in_block K true x \/ ~ taken st.(lla_world) x) /\
    ((exists p, fits K req p) /\ K' = K /\ st'.(lla_world) = st.(lla_world) \/
     (forall p, ~ fits K req p) /\ total K + req <= total K' <= total K + req + 2 ^ 20 + slack /\
     exists x, ~ taken st.(lla_world) x /\ taken st'.(lla_world) x)) st.
Proof.
  intros HI Hreq Htot. pose proof HI as [[l HR] Hco Hcnt Hal Hpg Har Htk]. assert (Ht0 : 0 <= total K).
  { apply msum_nonneg. intros q [u f] Hq. pose proof (bl_block _ (rep_ok _ _ _ _ HR) _ _ _ Hq) as [? _]. simpl. lia. }
  pose proof (slack_pos (al := al) (slack := slack)) as Hsl.
  assert (Hsame : forall K st r, arena_inv st K -> arena_inv (with_mem st.(lla_mem) r st) K /\ framed K st (with_mem st.(lla_mem) r st)).
  { intros K0 st0 r []. split; split; try done. apply pages_rel_refl. }
  cbn [alloc_loop]. apply wp_bind. destruct (find_region_run st K l req HR Hco ltac:(lia)) as (s & r1 & Hrun & Hres). eapply wp_returns; [exact Hrun|].
  destruct Hres as [[-> Hno]|[Hfs Hlow]]; last first.
  - assert (Hs0 : s <> 0) by (destruct Hfs as (u & Hu & _); pose proof (bl_block _ (rep_ok _ _ _ _ HR) _ _ _ Hu); lia).
    destruct (Z.eqb_spec s 0); [done|]. apply wp_ret. exists K. destruct (Hsame K st r1 HI) as [? ?]. split_and!; try done; [by left|left; eauto].
  - simpl negb. cbv iota. apply wp_bind. eapply wp_returns; [apply on_ld|]. cbn [with_mem lla_mem]. rewrite Hal.
    destruct (RoundUp_spec req 20 ltac:(lia) ltac:(lia)) as [Hru Hrm]. set (n := RoundUp req kMinimalRegion). fold kMinimalRegion in Hru, Hrm. fold n in Hru, Hrm.
    apply wp_bind, wp_on_world. cbn [with_mem lla_world]. eapply wp_mono; [apply (MapPages_ok (al := al) (slack := slack) n); [done|unfold kMinimalRegion in Hru; lia|done]|].
    intros [p k] w' (Hpg' & Hrel & Hk & Hp & Hpk & Hpm & Hkm & Hnt & Htk'). unfold kMinimalRegion in Hru.
    pose proof (fresh_pages st K p k HI ltac:(lia) Hp Hpk Hpm Hkm ltac:(lia) Hnt) as Hfr.
    destruct (grow_run (with_mem st.(lla_mem) r1 st) K p k w' (proj1 (Hsame K st r1 HI)) Hfr Hpg' Hrel Hnt Htk') as (m2 & r2 & K2 & Hrun2 & HI2 & Hfm & (q & u & Hq & Hqu) & Ht2 & Hlive & Hfree).
    cbn [lla_mem random_r default_arena with_mem] in *. apply wp_bind. eapply wp_returns; [exact Hrun2|].
    pose proof HI2 as [[l2 HR2] Hco2 _ _ _ _ _]. destruct (find_region_run _ K2 l2 req HR2 Hco2 ltac:(lia)) as (s & r3 & Hrun3 & Hres).
    destruct Hres as [[_ Hno2]|[Hfs Hlow]]; [exfalso; apply (Hno2 q); exists u; split; [done|lia]|]. apply wp_bind. eapply wp_returns; [exact Hrun3|].
    assert (Hs0 : s <> 0) by (destruct Hfs as (u' & Hu' & _); pose proof (bl_block _ (rep_ok _ _ _ _ HR2) _ _ _ Hu'); lia).
    destruct (Z.eqb_spec s 0); [done|]. apply wp_ret. exists K2. destruct (Hsame K2 _ r3 HI2) as [HI3 _]. split_and!; try done.
    + destruct Hfm. by split.
    + intros x Hx. destruct (Hfree x Hx) as [?|?]; [by left|right; by apply Hnt].
    + right. split; [done|]. split; [lia|]. exists p. split; [apply Hnt; lia|apply Htk'; right; lia].
Qed.

(** ** Allocation *)

Lemma live_bound K : blocks_ok K -> 0 <= live K /\ 64 * live K <= total K.
Proof.
  intros HK. split; [apply msum_nonneg; intros q [u []] _; simpl; lia|].
  assert (Hm : forall n (f : Z -> Z * bool -> Z) (k : blocks), n * msum f k = msum (fun i b => n * f i b) k).
  { intros n f k. induction k as [|i b k Hi IH] using map_ind; [rewrite !msum_empty; lia|]. rewrite !msum_insert by done. lia. }
  unfold live, total. rewrite Hm. apply msum_le. intros q [u f] Hq. pose proof (bl_block _ HK _ _ _ Hq) as [? _]. simpl. destruct f; lia.
Qed.

Lemma apart_bytes p s q t : 0 < s -> 0 < t -> (forall x, p <= x < p + s -> ~ q <= x < q + t) -> p + s <= q \/ q + t <= p.
Proof.
  intros Hs Ht Hx. destruct (Z.le_gt_cases (p + s) q); [by left|right]. destruct (Z.le_gt_cases (q + t) p); [done|]. exfalso. apply (Hx (Z.max p q)); lia.
Qed.

(** A piece of a fresh region is fresh, also for what was freed outside it. *)
Lemma fresh_part K p s q t : fresh_region a K p s -> p <= q -> q + t <= p + s -> 64 <= t -> q mod 32 = 0 -> t mod 32 = 0 -> fresh_region a K q t.
Proof.
  intros [Hsz Hap Har Htot] Hq Ht H64 Hqm Htm. split; [split_and!; (done || lia)| | |lia].
  - intros q' t' f Hq'. destruct (Hap _ _ _ Hq'); [left|right]; lia.
  - destruct Har; [left|right]; lia.
Qed.

(** The first part of a fresh region stays fresh when the second part becomes free memory. *)
Lemma fresh_first K s u1 req n k K' : blocks_ok K' -> fresh_region a K s u1 -> K !! n = None -> n = s + req -> k = u1 - req -> 64 <= req <= u1 -> req mod 32 = 0 ->
  freed (<[n := (k, false)]> K) n k K' -> fresh_region a K' s req.
Proof.
  intros HK' Hfr Hnone -> -> Hreq Hrm Hfd. destruct (fg_size _ _ _ _ Hfr) as (Hu & Hs0 & Hs1 & Hsm & Hum). split.
  - split_and!; (done || lia).
  - intros q t f Hq. pose proof (bl_block _ HK' _ _ _ Hq) as [? _]. destruct f.
    + apply apart_bytes; [lia|lia|]. intros x Hx Hin. assert (Hix : in_block K' true x) by (by exists q, t).
      apply (fr_free _ _ _ _ Hfd) in Hix as [Hix|?]; [|lia]. apply in_block_alloc in Hix as (q' & t' & Hq' & Hx'); [|done].
      destruct (fg_apart _ _ _ _ Hfr _ _ _ Hq'); lia.
    + apply (fr_live _ _ _ _ Hfd) in Hq as [Hq Hne]. rewrite lookup_insert_ne in Hq by done. destruct (fg_apart _ _ _ _ Hfr _ _ _ Hq); [left|right]; lia.
  - destruct (fg_arena _ _ _ _ Hfr); [left|right]; lia.
  - rewrite (fr_total _ _ _ _ Hfd). pose proof (fg_total _ _ _ _ Hfr). unfold total in *. rewrite msum_insert by done. simpl. lia.
Qed.

(** The block [s] of [u1] bytes, off the list, cut down to [u] bytes. *)
Record cut (K : blocks) (m : mem) (s u1 req : Z) (K' : blocks) (m' : mem) (u : Z) : Prop := {
  ct_coalesced : coalesced K -> coalesced K';
  ct_fresh : fresh_region a K' s u;
  ct_word : m' !! size_at s = Some u;
  ct_arena : word_of m' (arena_at s) = a;
  ct_size : req <= u < req + 64 /\ u <= u1;
  ct_count : live K' = live K;
  ct_total : total K' + u = total K + u1;
  ct_live q t : K' !! q = Some (t, false) <-> K !! q = Some (t, false);
  ct_free x : in_block K' true x -> in_block K true x \/ s <= x < s + u1;
  ct_mem x : ~ h <= x < h + 280 -> ~ in_block K true x -> ~ s <= x < s + u1 -> m' !! x = m !! x
}.

Lemma split_run st K l s u1 req : rep st.(lla_mem) K l -> fresh_region a K s u1 -> st.(lla_mem) !! size_at s = Some u1 -> word_of st.(lla_mem) (arena_at s) = a ->
  64 <= req <= u1 -> req mod 32 = 0 ->
  exists m' r' K' l' u,
    (if u64 (req + 64) <=? u1 then
       let n := u64 (req + s) in
       on_mem (wr (size_at n) (u1 - req)) ;;
       on_mem (wr (magic_at n) (Magic kMagicAllocated n)) ;;
       on_mem (wr (arena_at n) a) ;;
       on_mem (wr (size_at s) req) ;;
       AddToFreelist (levels_at n) a
     else skip) st = Ok (tt, with_mem m' r' st) /\
    rep m' K' l' /\ cut K st.(lla_mem) s u1 req K' m' u.
Proof.
  intros HR Hfr Hw Har Hreq Hrm. set (m := st.(lla_mem)) in *. destruct (fg_size _ _ _ _ Hfr) as (Hu & Hs0 & Hs1 & Hsm & Hum). pose proof (ar_placed _ _ _ _ HR) as HP.
  pose proof (bl_total _ (rep_ok _ _ _ _ HR)) as HT. pose proof (fg_total _ _ _ _ Hfr) as Htot. assert (Ht0 : 0 <= total K).
  { apply msum_nonneg. intros q [t f] Hq. pose proof (bl_block _ (rep_ok _ _ _ _ HR) _ _ _ Hq) as [? _]. simpl. lia. }
  rewrite !u64_small by lia. destruct (Z.leb_spec (req + 64) u1) as [Hle|Hgt].
  - cbv zeta. replace (req + s) with (s + req) by lia. set (n := s + req). set (k := u1 - req).
    assert (Hnm : n mod 32 = 0) by (unfold n; rewrite Z.add_mod, Hsm, Hrm by lia; done). assert (Hkm : k mod 32 = 0) by (unfold k; rewrite Zminus_mod, Hum, Hrm; done).
    assert (Hfn : fresh_region a K n k) by (apply (fresh_part K s u1); unfold n, k; (done || lia)).
    destruct (write_header a m n k) as [Hh Hm1]. set (m1 := <[arena_at n := a]> _) in *. set (m2 := <[size_at s := req]> m1).
    assert (Hm2 : forall x, ~ s <= x < s + u1 -> m2 !! x = m !! x).
    { intros x Hx. unfold m2, size_at. rewrite lookup_insert_ne by lia. apply Hm1. unfold n, sizeof_Header. lia. }
    assert (HR2 : rep m2 (<[n := (k, false)]> K) l).
    { apply rep_add; [|done|].
      - apply (rep_frame a m); [done|]. intros x Hx. apply Hm2. intros Hin. by apply (fresh_outside a K s u1 x HP Hfr Hin).
      - eapply header_frame; [|exact Hh]. intros d Hd. unfold m2, size_at. apply lookup_insert_ne. unfold n. lia. }
    destruct (AddToFreelist_run a (with_mem m2 st.(random_r) st) (<[n := (k, false)]> K) l n k HR2 (lookup_insert_eq _ _ _)) as (m' & r' & K' & l' & Hrun & HR' & Hfd & Hof).
    cbn [with_mem lla_mem] in Hof. rewrite insert_insert_eq in Hof. pose proof (fresh_none a K n k HP Hfn) as Hnone.
    assert (Hsn : forall x, s <= x < s + req -> m' !! x = m2 !! x).
    { intros x Hx. apply Hof.
      - destruct (fg_arena _ _ _ _ Hfr); unfold freelist_at, sizeof_Arena in *; lia.
      - intros (q & t & Hq & Hin). destruct (decide (q = n)) as [->|]; [rewrite lookup_insert_eq in Hq; simplify_eq; unfold n in *; lia|].
        rewrite lookup_insert_ne in Hq by done. destruct (fg_apart _ _ _ _ Hfr _ _ _ Hq); lia. }
    exists m', r', K', l', req. split.
    { do 4 (erewrite bind_run by apply on_wr). exact Hrun. }
    split; [done|]. split.
    + intros Hco. by apply (fr_coalesced _ _ _ _ Hfd), coalesced_alloc.
    + by apply (fresh_first K s u1 req n k); [apply (rep_ok _ _ _ _ HR')|..].
    + rewrite Hsn by (unfold size_at; lia). apply lookup_insert_eq.
    + rewrite <- Har. apply word_same. rewrite Hsn by (unfold arena_at; lia). unfold m2, size_at, arena_at. rewrite lookup_insert_ne by lia.
      apply Hm1. unfold n, sizeof_Header. lia.
    + lia.
    + rewrite (fr_count _ _ _ _ Hfd). unfold live. rewrite msum_insert by done. simpl. lia.
    + rewrite (fr_total _ _ _ _ Hfd). unfold total, k. rewrite msum_insert by done. simpl. lia.
    + intros q t. rewrite (fr_live _ _ _ _ Hfd). split; [intros [Hq Hne]; by rewrite lookup_insert_ne in Hq|]. intros Hq. rewrite lookup_insert_ne by congruence. split; [done|congruence].
    + intros x Hx. apply (fr_free _ _ _ _ Hfd) in Hx as [Hx|Hx]; [left; by apply in_block_alloc in Hx|right; unfold n, k in *; lia].
    + intros x Hxh Hxk Hxs. rewrite Hof; [by apply Hm2|done|]. intros (q & t & Hq & Hin). destruct (decide (q = n)) as [->|].
      * rewrite lookup_insert_eq in Hq. assert (Ht : t = k) by congruence. unfold n, k in *. lia.
      * rewrite lookup_insert_ne in Hq by done. apply Hxk. by exists q, t.
  - exists m, st.(random_r), K, l, u1. split; [by destruct st|]. split; [done|]. split; try done; try lia. by left.
Qed.

(** What an allocation of [request] bytes did: the block at [p], of [u] bytes with its header. *)
Record allocated (K : blocks) st (request p u : Z) (K' : blocks) st' : Prop := {
  al_inv : arena_inv st' K';
  al_framed : framed K st st';
  al_size : request + sizeof_Header <= u < request + 2 * 64;
  al_live q t : K' !! q = Some (t, false) <-> K !! q = Some (t, false) \/ q = p /\ t = u;
  al_new t : K !! p <> Some (t, false);
  (** the memory was free, or nobody's *)
  al_free x : p <= x < p + u -> in_block K true x \/ ~ taken st.(lla_world) x;
  al_owned f x : in_block K' f x -> (exists g, in_block K g x) \/ ~ taken st.(lla_world) x;
  (** first fit, and no growth if a free block fits *)
  al_fit (req := RoundUp (request + sizeof_Header) 32) :
    (fits K req p /\ (forall q, q < p -> ~ fits K req q) /\ total K' = total K /\ st'.(lla_world) = st.(lla_world)) \/
    ((forall q, ~ fits K req q) /\ total K' <= total K + request + 2 ^ 20 + 64 + slack /\ exists x, ~ taken st.(lla_world) x /\ taken st'.(lla_world) x)
}.

(** The block becomes one of the arena's again, allocated. *)
Lemma alloc_done st1 K1 m2 s u1 req K3 m3 u l3 v : arena_inv st1 K1 -> K1 !! s = Some (u1, true) -> only_free a K1 st1.(lla_mem) m2 ->
  rep m3 K3 l3 -> cut (delete s K1) m2 s u1 req K3 m3 u ->
  let m5 := <[allocation_count_at a := live K1 + 1]> (<[magic_at s := Magic kMagicAllocated s]> m3) in
  let K5 := <[s := (u, false)]> K3 in
  arena_inv (with_mem m5 v st1) K5 /\ word_of m3 (allocation_count_at a) = live K1 /\ total K5 = total K1 /\
  (forall q t, K5 !! q = Some (t, false) <-> K1 !! q = Some (t, false) \/ q = s /\ t = u) /\
  (forall x, ~ a <= x < a + sizeof_Arena -> ~ in_block K1 true x -> m5 !! x = st1.(lla_mem) !! x) /\
  (forall f x, in_block K5 f x -> exists g, in_block K1 g x).
Proof.
  intros [[l1 HR1] Hco1 Hcnt1 Hal1 Hpg1 Har1 Htk1] Hs Hof2 HR3 Hct m5 K5. pose proof (ar_placed _ _ _ _ HR1) as HP1. pose proof (rep_ok _ _ _ _ HR1) as HK1.
  pose proof (ar_placed _ _ _ _ HR3) as HP3. pose proof (ct_fresh _ _ _ _ _ _ _ _ Hct) as Hfr. pose proof (fresh_none a K3 s u HP3 Hfr) as Hnone.
  pose proof (bl_block _ HK1 _ _ _ Hs) as (Hu1 & _). destruct (ct_size _ _ _ _ _ _ _ _ Hct) as [Hu Huu]. destruct (fg_size _ _ _ _ Hfr) as (Hu64 & _).
  assert (Hdel : forall q b, delete s K1 !! q = Some b -> q <> s /\ K1 !! q = Some b) by (intros q b Hq; apply lookup_delete_Some in Hq as [? ?]; done).
  assert (Hfree_del : forall x, in_block (delete s K1) true x -> in_block K1 true x) by (intros x (q & t & Hq & Hx); exists q, t; by apply Hdel in Hq as [_ Hq]).
  assert (Hs1 : forall x, s <= x < s + u1 -> in_block K1 true x) by (intros x Hx; by exists s, u1).
  assert (Hfree3 : forall x, in_block K3 true x -> in_block K1 true x) by (intros x Hx; destruct (ct_free _ _ _ _ _ _ _ _ Hct x Hx); auto).
  assert (Hlive : forall q t, K5 !! q = Some (t, false) <-> K1 !! q = Some (t, false) \/ q = s /\ t = u).
  { intros q t. unfold K5. destruct (decide (q = s)) as [->|Hne].
    - rewrite lookup_insert_eq, Hs. split; [intros [= <-]; by right|intros [?|[_ ->]]; done].
    - rewrite lookup_insert_ne, (ct_live _ _ _ _ _ _ _ _ Hct) by done. rewrite lookup_delete_ne by done. naive_solver. }
  assert (Hm3 : forall x, ~ h <= x < h + 280 -> ~ in_block K1 true x -> m3 !! x = st1.(lla_mem) !! x).
  { intros x Hx Hk. rewrite (ct_mem _ _ _ _ _ _ _ _ Hct), Hof2 by naive_solver. done. }
  assert (Hareq : forall x, a <= x < a + sizeof_Arena -> ~ h <= x < h + 280 -> word_of m3 x = word_of st1.(lla_mem) x).
  { intros x Hx Hxh. apply word_same, Hm3; [done|]. intros (q & t & Hq & Hin). destruct (pl_sep _ _ HP1 _ _ _ Hq); lia. }
  assert (Hcnt3 : word_of m3 (allocation_count_at a) = live K1) by (rewrite Hareq by (unfold allocation_count_at, freelist_at, sizeof_Arena; lia); done).
  assert (Hm5 : forall x, x <> allocation_count_at a -> x <> magic_at s -> m5 !! x = m3 !! x) by (intros x H1 H2; unfold m5; by rewrite !lookup_insert_ne).
  assert (Hsa : s + u <= a \/ a + 320 <= s) by apply (fg_arena _ _ _ _ Hfr).
  assert (Hcl : live K5 = live K1 + 1).
  { unfold K5, live. rewrite msum_insert by done. simpl. pose proof (ct_count _ _ _ _ _ _ _ _ Hct) as Hc. unfold live in Hc. rewrite Hc, (msum_delete _ K1 s (u1, true)) by done. simpl. lia. }
  assert (Hown : forall f x, in_block K5 f x -> exists g, in_block K1 g x).
  { intros f x (q & t & Hq & Hx). destruct f.
    - exists true. apply Hfree3. exists q, t. split; [|done]. unfold K5 in Hq. destruct (decide (q = s)) as [->|]; [by rewrite lookup_insert_eq in Hq|]. by rewrite lookup_insert_ne in Hq.
    - apply Hlive in Hq as [Hq|[-> ->]]; [exists false; by exists q, t|]. exists true. apply Hs1. lia. }
  split; [|split; [done|split; [|split; [done|split; [|done]]]]].
  - split; cbn [with_mem lla_mem lla_world default_arena].
    + exists l3. apply rep_add; [|done|].
      * apply (rep_frame a m3); [done|]. intros x Hx. apply Hm5.
        -- intros ->. destruct Hx as [[_ ?]|[(q & t & Hq & Hin)|(q & t & Hq & Hin)]]; [done|..];
             pose proof (bl_block _ (pl_ok _ _ HP3) _ _ _ Hq) as [? _]; destruct (pl_sep _ _ HP3 _ _ _ Hq); unfold allocation_count_at, sizeof_Arena, sizeof_Header in *; lia.
        -- intros ->. apply (fresh_outside a K3 s u (magic_at s) HP3 Hfr); [unfold magic_at; lia|done].
      * unfold m5, header, word_of, size_at, magic_at, arena_at, allocation_count_at in *.
        rewrite !(lookup_insert_ne _ (a + 288)) by lia. rewrite lookup_insert_eq. rewrite !(lookup_insert_ne _ (s + 8)) by lia.
        pose proof (ct_word _ _ _ _ _ _ _ _ Hct) as Hw. pose proof (ct_arena _ _ _ _ _ _ _ _ Hct) as Ha. unfold size_at, word_of, arena_at in *. done.
    + apply coalesced_alloc, (ct_coalesced _ _ _ _ _ _ _ _ Hct). intros q t q' t' Hq Hq'. apply Hdel in Hq as [_ Hq], Hq' as [_ Hq']. by apply (Hco1 q t q' t').
    + rewrite Hcl. apply word_insert_eq.
    + rewrite <- Hal1, <- Hareq by (unfold allocator_at, freelist_at, sizeof_Arena; lia). apply word_same, Hm5; unfold allocator_at, allocation_count_at, magic_at; lia.
    + done.
    + done.
    + intros f x Hx. destruct (Hown f x Hx) as [g Hg]. by apply (Htk1 g).
  - pose proof (ct_total _ _ _ _ _ _ _ _ Hct) as Ht. unfold K5, total in *. rewrite msum_insert by done. simpl. rewrite (msum_delete _ K1 s (u1, true)) by done. simpl. lia.
  - intros x Hxa Hxk. rewrite Hm5; [apply Hm3; [unfold freelist_at, sizeof_Arena in *; lia|done]|unfold allocation_count_at, sizeof_Arena in *; lia|].
    intros ->. apply Hxk, Hs1. unfold magic_at. lia.
Qed.

Lemma wp_AllocWithArena st K request : arena_inv st K -> a <> 0 -> 0 < request -> total K + request + 2 ^ 20 + 64 + slack <= 2 ^ 34 ->
  wp (AllocWithArena default_arena_storage request a) (fun v st' => exists p u K', v = p + sizeof_Header /\ allocated K st request p u K' st') st.
Proof.
  intros HI Ha Hr Htot. pose proof HI as [[l0 HR0] _ _ _ _ _ _]. assert (Ht0 : 0 <= total K).
  { apply msum_nonneg. intros q [t f] Hq. pose proof (bl_block _ (rep_ok _ _ _ _ HR0) _ _ _ Hq) as [? _]. simpl. lia. }
  pose proof (slack_pos (al := al) (slack := slack)) as Hsl.
  unfold AllocWithArena. destruct (Z.eqb_spec request 0); [lia|]. destruct (Z.eqb_spec a 0); [done|]. apply wp_bind, wp_ret.
  apply wp_bind. eapply wp_returns; [apply on_ld|]. rewrite (ar_roundup _ _ _ _ HR0). unfold sizeof_Header. rewrite (u64_small (request + 32)) by lia.
  destruct (RoundUp_spec (request + 32) 5 ltac:(lia) ltac:(lia)) as [Hru Hrm]. change (2 ^ 5) with 32 in Hru, Hrm. set (req := RoundUp (request + 32) 32) in *.
  assert (Hreq : 64 <= req) by (assert (req / 32 > 1) by (pose proof (Z.div_mod req 32 ltac:(lia)); lia); pose proof (Z.div_mod req 32 ltac:(lia)); lia).
  apply wp_bind. eapply wp_mono; [apply (wp_alloc_loop st K req HI Hreq); lia|].
  intros s st1 (K1 & HI1 & Hfm & (u1 & Hu1 & Hge) & Hlow & Hlive1 & Hfree1 & Hgrow).
  pose proof HI1 as [[l1 HR1] Hco1 Hcnt1 Hal1 Hpg1 Har1 Htk1]. pose proof (rep_ok _ _ _ _ HR1) as HK1. pose proof (ar_placed _ _ _ _ HR1) as HP1.
  destruct (delete_rep a _ K1 l1 s u1 HR1 Hu1) as (prev & m2 & l2 & Hrun2 & HR2 & (Hw2 & _ & Ha2) & Hof2).
  apply wp_bind. eapply wp_returns; [apply on_mem_run; exact Hrun2|]. set (st2 := with_mem m2 (random_r st1) st1).
  apply wp_bind. eapply wp_returns; [apply on_ld|]. apply wp_bind. eapply wp_returns; [apply on_ld|]. change (lla_mem st2) with m2. rewrite (ar_min _ _ _ _ HR2).
  assert (Hsz2 : word_of m2 (size_at s) = u1) by (unfold word_of; by rewrite Hw2). rewrite Hsz2.
  pose proof (fresh_deleted a K1 s u1 true HP1 Hu1) as Hfr2.
  destruct (split_run st2 (delete s K1) l2 s u1 req HR2 Hfr2 Hw2 Ha2 ltac:(lia) Hrm) as (m3 & r3 & K3 & l3 & u & Hrun3 & HR3 & Hct).
  apply wp_bind. eapply wp_returns; [exact Hrun3|]. apply wp_bind. eapply wp_returns; [apply on_wr|]. apply wp_bind. eapply wp_returns; [apply on_ld|].
  apply wp_bind. cbn [with_mem lla_mem random_r default_arena lla_world]. destruct (ct_size _ _ _ _ _ _ _ _ Hct) as [Hu Huu].
  assert (Ha4 : word_of (<[magic_at s := Magic kMagicAllocated s]> m3) (arena_at s) = a).
  { etrans; [|apply (ct_arena _ _ _ _ _ _ _ _ Hct)]. apply word_insert_ne. unfold magic_at, arena_at. lia. }
  eapply wp_returns; [apply on_require; cbn [lla_mem with_mem]; rewrite Ha4; apply Z.eqb_refl|].
  destruct (alloc_done st1 K1 m2 s u1 req K3 m3 u l3 r3 HI1 Hu1 Hof2 HR3 Hct) as (HI5 & Hcnt & Ht5 & Hlive5 & Hm5 & Hown5).
  assert (Hcne : magic_at s <> allocation_count_at a).
  { pose proof (fg_arena _ _ _ _ (ct_fresh _ _ _ _ _ _ _ _ Hct)). unfold magic_at, allocation_count_at, sizeof_Arena in *. lia. }
  apply wp_bind. eapply wp_returns; [apply on_ld|]. cbn [with_mem lla_mem]. rewrite word_insert_ne, Hcnt by done. destruct (live_bound K1 HK1). pose proof (bl_total _ HK1). rewrite i32_small by lia.
  apply wp_bind. eapply wp_returns; [apply on_wr|]. apply wp_ret. cbn [with_mem lla_mem random_r default_arena lla_world]. exists s, u, (<[s := (u, false)]> K3). split; [done|].
  assert (Hsfree : forall x, s <= x < s + u -> in_block K true x \/ ~ taken st.(lla_world) x) by (intros x Hx; apply Hfree1; exists s, u1; split; [done|lia]).
  split.
  - exact HI5.
  - split; [|apply Hfm..]. cbn [lla_mem lla_world]. intros x Htx Hxa Hxk. etrans; [apply Hm5; [done|]|by apply Hfm].
    intros Hin. destruct (Hfree1 x Hin); done.
  - unfold sizeof_Header. lia.
  - intros q t. rewrite Hlive5, Hlive1. done.
  - intros t Hk. apply Hlive1 in Hk. congruence.
  - done.
  - intros f x Hx. destruct (Hown5 f x Hx) as [[] Hg]; [destruct (Hfree1 x Hg); [left; by exists true|by right]|].
    destruct Hg as (q & t & Hq & Hin). apply Hlive1 in Hq. left. exists false. by exists q, t.
  - unfold sizeof_Header. fold req. destruct Hgrow as [(_ & -> & Hwd)|(Hno & Hb & Hnt)]; [left|right; split; [done|split; [lia|done]]].
    split_and!; [exists u1; split; [done|lia]|done|done|done].
Qed.

(** ** Deallocation *)

(** What freeing the block [p] of [u] bytes did. *)
Record released (K : blocks) st (p u : Z) (K' : blocks) st' : Prop := {
  re_inv : arena_inv st' K';
  re_mem x : ~ a <= x < a + sizeof_Arena -> ~ in_block K true x -> ~ p <= x < p + u -> st'.(lla_mem) !! x = st.(lla_mem) !! x;
  re_world : st'.(lla_world) = st.(lla_world) /\ st'.(default_arena) = st.(default_arena);
  re_live q t : K' !! q = Some (t, false) <-> K !! q = Some (t, false) /\ q <> p;
  re_owned f x : in_block K' f x -> exists g, in_block K g x;
  re_total : total K' = total K
}.

Lemma Free_run st K p u : arena_inv st K -> K !! p = Some (u, false) ->
  exists st' K', Free (p + sizeof_Header) st = Ok (tt, st') /\ released K st p u K' st'.
Proof.
  intros [[l HR] Hco Hcnt Hal Hpg Har Htk] Hp. set (m := st.(lla_mem)) in *. pose proof (rep_ok _ _ _ _ HR) as HK. pose proof (ar_placed _ _ _ _ HR) as HP.
  destruct (AddToFreelist_run a st K l p u HR Hp) as (m' & r' & K' & l' & Hrun & HR' & Hfd & Hof). fold m in Hof.
  destruct (ar_header _ _ _ _ HR _ _ _ Hp) as (_ & Hmg & Ha). pose proof (bl_block _ HK _ _ _ Hp) as (? & ? & _). destruct (live_bound K HK) as [_ Hlb]. pose proof (bl_total _ HK) as Hbt.
  assert (Hpos : 1 <= live K).
  { apply (msum_elem (fun _ (b : Z * bool) => if b.2 then 0 else 1) K p (u, false)); [done|]. intros q [t []] _; simpl; lia. }
  assert (Harw : forall x, a <= x < a + sizeof_Arena -> ~ h <= x < h + 280 -> word_of m' x = word_of m x).
  { intros x Hx Hxh. apply word_same. by apply (only_free_arena a _ (freed_placed a K HP p u Hp) _ _ x Hof). }
  assert (Hcnt' : word_of m' (allocation_count_at a) = live K) by (rewrite Harw by (unfold allocation_count_at, freelist_at, sizeof_Arena; lia); done).
  set (m2 := <[allocation_count_at a := live K - 1]> m'). exists (with_mem m2 r' st), K'. split.
  - unfold Free. destruct (Z.eqb_spec (p + sizeof_Header) 0); [unfold sizeof_Header in *; lia|]. replace (p + sizeof_Header - sizeof_Header) with p by lia.
    erewrite bind_run by apply on_ld. fold m. rewrite Hmg. erewrite bind_run by (apply on_require, Z.eqb_refl). erewrite bind_run by apply on_ld. fold m. rewrite Ha.
    change (p + sizeof_Header) with (levels_at p). erewrite bind_run by exact Hrun. erewrite bind_run by apply on_ld. cbn [with_mem lla_mem]. rewrite Hcnt'.
    erewrite bind_run by (apply on_require; rewrite Z.gtb_ltb; apply Z.ltb_lt; lia). rewrite on_wr. rewrite i32_small by lia. done.
  - assert (Hfree : forall x, in_block K' true x -> in_block K true x \/ p <= x < p + u) by (intros x; apply (fr_free _ _ _ _ Hfd)). split.
    + split; cbn [with_mem lla_mem lla_world default_arena].
      * exists l'. apply (rep_frame a m'); [done|]. intros x Hx. apply lookup_insert_ne. intros <-. pose proof (ar_placed _ _ _ _ HR') as HP'.
        destruct Hx as [[_ ?]|[(q & t & Hq & Hin)|(q & t & Hq & Hin)]]; [done|..];
          pose proof (bl_block _ (pl_ok _ _ HP') _ _ _ Hq) as [? _]; destruct (pl_sep _ _ HP' _ _ _ Hq); unfold allocation_count_at, sizeof_Arena, sizeof_Header in *; lia.
      * by apply (fr_coalesced _ _ _ _ Hfd).
      * rewrite (fr_count _ _ _ _ Hfd). apply word_insert_eq.
      * rewrite <- Hal. etrans; [apply word_insert_ne; unfold allocator_at, allocation_count_at; lia|]. apply Harw; unfold allocator_at, freelist_at, sizeof_Arena; lia.
      * done.
      * done.
      * intros f x Hx. destruct f; [destruct (Hfree x Hx) as [?|?]; [by apply (Htk true)|apply (Htk false); by exists p, u]|].
        destruct Hx as (q & t & Hq & Hx). apply (fr_live _ _ _ _ Hfd) in Hq as [Hq _]. apply (Htk false). by exists q, t.
    + intros x Hxa Hxk Hxp. cbn [with_mem lla_mem]. unfold m2. rewrite lookup_insert_ne by (unfold allocation_count_at, sizeof_Arena in *; lia).
      apply Hof; [unfold freelist_at, sizeof_Arena in *; lia|]. intros (q & t & Hq & Hx). destruct (decide (q = p)) as [->|].
      * rewrite lookup_insert_eq in Hq. apply Hxp. assert (t = u) by congruence. lia.
      * rewrite lookup_insert_ne in Hq by done. apply Hxk. by exists q, t.
    + done.
    + apply (fr_live _ _ _ _ Hfd).
    + intros f x Hx. destruct f; [destruct (Hfree x Hx) as [?|?]; [by exists true|exists false; by exists p, u]|].
      destruct Hx as (q & t & Hq & Hx). apply (fr_live _ _ _ _ Hfd) in Hq as [Hq _]. exists false. by exists q, t.
    + apply (fr_total _ _ _ _ Hfd).
Qed.

Lemma UsableSize_run st K p u : arena_inv st K -> K !! p = Some (u, false) -> UsableSize (p + sizeof_Header) st = Ok (u - sizeof_Header, st).
Proof.
  intros [[l HR] _ _ _ _ _ _] Hp. destruct (ar_header _ _ _ _ HR _ _ _ Hp) as (Hw & _). pose proof (bl_block _ (rep_ok _ _ _ _ HR) _ _ _ Hp) as (? & ? & ? & _).
  unfold UsableSize. replace (p + sizeof_Header - sizeof_Header) with p by lia. erewrite bind_run by apply on_ld.
  assert (Hsz : word_of (lla_mem st) (size_at p) = u) by (unfold word_of; by rewrite Hw). rewrite Hsz. unfold sizeof_Header in *. by rewrite u64_small by lia.
Qed.
End Arena.
End Spec.
