(* ===== verification/LowLevelArenas.v ===== *)
(** Making and using arenas of the low-level allocator. *)
From Stdlib Require Import Sorting.Sorted.
From stdpp Require Import sorting.
From S2P Require Import Prelude SizeMap LinkedList Bytes SystemAlloc SkipList LowLevelAlloc LowLevelInv LowLevelOps LowLevelSpec.

Section Arenas.
Context {W : Type} {PA : PagesAllocator W} {PG : PagesGhost W}.
Context (default_arena_storage : Z).
Implicit Types (st : LLA W).

(** ** A new arena *)

Lemma clear_words_run n : forall b m, exists m', clear_words n b m = Ok (tt, m') /\
  (forall i, 0 <= i < Z.of_nat n -> m' !! (b + 8 * i) = Some 0) /\ (forall x, ~ b <= x < b + 8 * Z.of_nat n -> m' !! x = m !! x).
Proof.
  induction n as [|n IH]; intros b m; [exists m; split_and!; [done|lia|done]|].
  destruct (IH (b + 8) (<[b := 0]> m)) as (m' & Hrun & H1 & H2). exists m'. split; [|split].
  - cbn [clear_words]. erewrite bind_run by done. exact Hrun.
  - intros i Hi. destruct (decide (i = 0)) as [->|]; [rewrite Z.mul_0_r, Z.add_0_r, H2 by lia; apply lookup_insert_eq|].
    replace (b + 8 * i) with (b + 8 + 8 * (i - 1)) by lia. apply H1. lia.
  - intros x Hx. rewrite H2 by lia. apply lookup_insert_ne. lia.
Qed.

Lemma Arena_new_run a m : 0 < a -> a + sizeof_Arena <= 2 ^ 48 ->
  exists m', Arena_new a m = Ok (tt, m') /\ arena_rep a m' ∅ [] /\ word_of m' (allocation_count_at a) = 0 /\
    word_of m' (allocator_at a) = default_pages_allocator /\ (forall x, ~ a <= x < a + sizeof_Arena -> m' !! x = m !! x).
Proof.
  intros Ha Ha48. unfold sizeof_Arena in *. unfold Arena_new. cbv zeta. do 6 (erewrite bind_run by done).
  set (m1 := <[levels_at _ := 0]> _). destruct (clear_words_run (Z.to_nat kMaxLevel) (next_at (freelist_at a) 0) m1) as (m2 & Hrun & Hz & Hfr).
  erewrite bind_run by exact Hrun. erewrite bind_run by done. unfold wr, modify. set (m3 := <[allocator_at a := _]> _). exists m3. split; [done|].
  change (Z.of_nat (Z.to_nat kMaxLevel)) with 30 in Hz, Hfr.
  assert (Hm1 : forall x, ~ a <= x < a + 320 -> m1 !! x = m !! x).
  { intros x Hx. unfold m1, levels_at, arena_at, magic_at, size_at, freelist_at, min_size_at, roundup_at, sizeof_Header. rewrite !lookup_insert_ne by lia. done. }
  assert (H3 : forall x, x <> a + 288 -> x <> a + 312 -> m3 !! x = m2 !! x) by (intros x H1 H2; unfold m3, allocator_at, allocation_count_at; by rewrite !lookup_insert_ne by lia).
  assert (H2 : forall x, ~ a + 48 <= x < a + 288 -> m2 !! x = m1 !! x) by (intros x Hx; apply Hfr; unfold next_at, freelist_at, offset_next; lia).
  unfold word_of, freelist_at, roundup_at, min_size_at, allocation_count_at, allocator_at, size_at, levels_at, next_at, magic_at, arena_at, sizeof_Header, offset_next in *.
  split; [split|split; [|split]].
  - done.
  - unfold word_of. rewrite H3, H2 by (unfold roundup_at; lia). unfold m1, roundup_at. rewrite !lookup_insert_ne by lia. by rewrite lookup_insert_eq.
  - unfold word_of. rewrite H3, H2 by (unfold min_size_at; lia). unfold m1, min_size_at. rewrite !lookup_insert_ne by lia. by rewrite lookup_insert_eq.
  - unfold word_of. rewrite H3, H2 by (unfold size_at, freelist_at; lia). unfold m1, size_at, freelist_at. rewrite !lookup_insert_ne by lia. by rewrite lookup_insert_eq.
  - split; [split|]; try done; try (intros; by simplify_map_eq).
  - intros; by simplify_map_eq.
  - intros p. split; [intros Hp; by apply elem_of_nil in Hp|]. intros [s Hs]. by simplify_map_eq.
  - assert (Hlv : lv m3 (freelist_at a) = 0).
    { unfold lv, word_of, levels_at, freelist_at, sizeof_Header. rewrite H3, H2 by lia. unfold m1. by rewrite lookup_insert_eq. }
    split; try (intros ? Hx; by apply elem_of_nil in Hx); [constructor|intros Hx; by apply elem_of_nil in Hx|lia|by rewrite room_head| |].
    + intros p q Hp Hq. apply list_elem_of_singleton in Hp, Hq. congruence.
    + intros i Hi. simpl. unfold nx, word_of, next_at, freelist_at, offset_next. rewrite H3 by lia. specialize (Hz i ltac:(lia)).
      replace (a + 8 + 40 + 8 * i) with (a + 8 + 40 + 8 * 0 + 8 * i) by lia. by rewrite Hz.
  - intros; by simplify_map_eq.
  - unfold m3. rewrite lookup_insert_ne by lia. by rewrite lookup_insert_eq.
  - unfold m3. by rewrite lookup_insert_eq.
  - intros x Hx. rewrite H3, H2, Hm1 by lia. done.
Qed.

(** An arena object over memory that is taken, with nothing in it yet. *)
Lemma new_arena_inv al a m r d w : arena_rep a m ∅ [] -> word_of m (allocation_count_at a) = 0 -> word_of m (allocator_at a) = al -> pages_ok w ->
  (forall x, a <= x < a + sizeof_Arena -> taken w x) -> arena_inv al a (mkLLA m r d w) ∅.
Proof.
  intros HR Hc Hal Hpg Har. split; cbn [lla_mem lla_world]; [by exists []| |done..|].
  - intros p s q t Hp. by rewrite lookup_empty in Hp.
  - intros f x (p & s & Hp & _). by rewrite lookup_empty in Hp.
Qed.

(** The first use of the default arena. *)
Lemma DefaultArena_run st : st.(default_arena) = 0 -> 0 < default_arena_storage -> default_arena_storage + sizeof_Arena <= 2 ^ 48 -> pages_ok st.(lla_world) ->
  (forall x, default_arena_storage <= x < default_arena_storage + sizeof_Arena -> taken st.(lla_world) x) ->
  exists st', DefaultArena default_arena_storage st = Ok (default_arena_storage, st') /\ arena_inv default_pages_allocator default_arena_storage st' ∅ /\
    st'.(default_arena) = default_arena_storage /\ st'.(lla_world) = st.(lla_world) /\
    forall x, ~ default_arena_storage <= x < default_arena_storage + sizeof_Arena -> st'.(lla_mem) !! x = st.(lla_mem) !! x.
Proof.
  intros Hd Hs Hs48 Hpg Htk. destruct (Arena_new_run default_arena_storage st.(lla_mem) Hs Hs48) as (m' & Hrun & HR & Hc & Hal & Hm).
  exists (mkLLA m' st.(random_r) default_arena_storage st.(lla_world)). split; [|split; [by apply new_arena_inv|done]].
  unfold DefaultArena. erewrite bind_run by done. rewrite Hd. simpl. erewrite bind_run by (apply on_mem_run; exact Hrun). done.
Qed.

(** The first region of an arena. *)
Lemma first_region_inv al a st k : arena_inv al a st ∅ -> fresh_region a ∅ (a + sizeof_Arena) k ->
  (forall x, a + sizeof_Arena <= x < a + sizeof_Arena + k -> taken st.(lla_world) x) ->
  exists st' K, InsertAllocatedMemoryLocked a (a + sizeof_Arena) k st = Ok (tt, st') /\ arena_inv al a st' K /\ st'.(lla_world) = st.(lla_world) /\ st'.(default_arena) = st.(default_arena) /\
    (forall q t, K !! q <> Some (t, false)) /\ total K = k /\ (forall f x, in_block K f x -> a + sizeof_Arena <= x < a + sizeof_Arena + k) /\
    forall x, ~ a <= x < a + sizeof_Arena + k -> st'.(lla_mem) !! x = st.(lla_mem) !! x.
Proof.
  intros [[l HR] _ Hcnt Hal Hpg Har _] Hfr Htk. set (b := a + sizeof_Arena) in *.
  destruct (InsertAllocatedMemoryLocked_run a st ∅ l b k HR Hfr) as (m' & r' & K & l' & Hrun & HR' & Hfd & Hof).
  assert (Hlive : forall q t, K !! q <> Some (t, false)).
  { intros q t Hq. apply (fr_live _ _ _ _ Hfd) in Hq as [Hq Hne]. rewrite lookup_insert_ne in Hq by done. by rewrite lookup_empty in Hq. }
  assert (Hsize : 64 <= k) by apply (fg_size _ _ _ _ Hfr).
  assert (Hfree : forall x, in_block K true x -> b <= x < b + k).
  { intros x Hx. apply (fr_free _ _ _ _ Hfd) in Hx as [(q & t & Hq & _)|Hx]; [|done]. destruct (decide (q = b)) as [->|]; [by rewrite lookup_insert_eq in Hq|].
    rewrite lookup_insert_ne in Hq by done. by rewrite lookup_empty in Hq. }
  assert (Hm : forall x, ~ freelist_at a <= x < freelist_at a + 280 -> ~ b <= x < b + k -> m' !! x = st.(lla_mem) !! x).
  { intros x Hx Hb. apply Hof; [done|]. intros (q & t & Hq & Hin). destruct (decide (q = b)) as [->|]; [rewrite lookup_insert_eq in Hq; assert (t = k) by congruence; lia|].
    rewrite lookup_insert_ne in Hq by done. by rewrite lookup_empty in Hq. }
  exists (with_mem m' r' st), K. split; [done|]. split; [split|split; [done|split; [done|split; [done|split; [|split]]]]]; cbn [with_mem lla_mem lla_world].
  - by exists l'.
  - apply (fr_coalesced _ _ _ _ Hfd), coalesced_alloc. intros p s q t Hp. by rewrite lookup_empty in Hp.
  - rewrite (fr_count _ _ _ _ Hfd). unfold live. rewrite msum_insert, msum_empty by apply lookup_empty. simpl. rewrite (word_same st.(lla_mem)); [done|].
    apply Hm; unfold allocation_count_at, freelist_at, b, sizeof_Arena in *; lia.
  - rewrite <- Hal. apply word_same, Hm; unfold allocator_at, freelist_at, b, sizeof_Arena in *; lia.
  - done.
  - done.
  - intros [] x Hx; [by apply Htk, Hfree|]. destruct Hx as (q & t & Hq & _). by apply Hlive in Hq.
  - rewrite (fr_total _ _ _ _ Hfd). unfold total. rewrite msum_insert, msum_empty by apply lookup_empty. simpl. lia.
  - intros [] x Hx; [by apply Hfree|]. destruct Hx as (q & t & Hq & _). by apply Hlive in Hq.
  - intros x Hx. apply Hm; unfold freelist_at, b, sizeof_Arena in *; lia.
Qed.

(** An arena over pages of its own. *)
Lemma wp_NewArenaWithCustomAlloc al slack st (PL : PagesLaws al slack) : al <> 0 -> pages_ok st.(lla_world) -> 2 ^ 20 + slack <= 2 ^ 34 ->
  wp (NewArenaWithCustomAlloc default_arena_storage al) (fun a st' => exists K, a <> 0 /\ arena_inv al a st' K /\ (forall q t, K !! q <> Some (t, false)) /\
    total K + sizeof_Arena <= 2 ^ 20 + slack /\ st'.(default_arena) = st.(default_arena) /\ pages_rel st.(lla_world) st'.(lla_world) /\
    (forall x, a <= x < a + sizeof_Arena \/ (exists f, in_block K f x) -> ~ taken st.(lla_world) x) /\
    (forall x, taken st.(lla_world) x -> st'.(lla_mem) !! x = st.(lla_mem) !! x /\ taken st'.(lla_world) x)) st.
Proof.
  intros Hal Hpg Hsl. unfold NewArenaWithCustomAlloc. destruct (Z.eqb_spec al 0); [done|]. simpl negb. cbv iota. apply wp_bind, wp_on_world.
  eapply wp_mono; [apply (MapPages_ok (al := al) (slack := slack) kMinimalRegion); [done|unfold kMinimalRegion; lia|by vm_compute]|].
  intros [p k] w' (Hpg' & Hrel & Hk & Hp & Hpk & Hpm & Hkm & Hnt & Htk). unfold kMinimalRegion in Hk.
  destruct (Arena_new_run p st.(lla_mem) Hp ltac:(unfold sizeof_Arena; lia)) as (m1 & Hrun1 & HR1 & Hc1 & _ & Hm1).
  apply wp_bind. eapply wp_returns; [apply on_mem_run; exact Hrun1|]. apply wp_bind. eapply wp_returns; [apply on_wr|]. cbn [with_mem lla_mem random_r default_arena lla_world].
  rewrite u64_small by (unfold sizeof_Arena; lia). set (m2 := <[allocator_at p := al]> m1). set (st2 := mkLLA m2 st.(random_r) st.(default_arena) w').
  assert (HI : arena_inv al p st2 ∅).
  { apply new_arena_inv; [| |apply word_insert_eq|done|intros x Hx; apply Htk; right; unfold sizeof_Arena in *; lia].
    - destruct HR1 as [? Hru Hmi Hhd HPl _ _ Hsk _]. split; try done; try (intros; by simplify_map_eq).
      + rewrite <- Hru. apply word_insert_ne. unfold allocator_at, roundup_at. lia.
      + rewrite <- Hmi. apply word_insert_ne. unfold allocator_at, min_size_at. lia.
      + rewrite <- Hhd. apply word_insert_ne. unfold allocator_at, size_at, freelist_at. lia.
      + intros q. split; [intros Hq; by apply elem_of_nil in Hq|]. intros [s Hs]. by simplify_map_eq.
      + apply (sk_frame _ _ m1); [done| |intros q Hq; by apply elem_of_nil in Hq]. intros q i Hq Hi Hr. apply list_elem_of_singleton in Hq as ->.
        rewrite room_head in Hr. apply lookup_insert_ne. unfold allocator_at, next_at, freelist_at, offset_next in *. lia.
    - rewrite <- Hc1. apply word_insert_ne. unfold allocator_at, allocation_count_at. lia. }
  destruct (first_region_inv al p st2 (k - sizeof_Arena) HI) as (st3 & K & Hrun3 & HI3 & Hw3 & Hd3 & Hlive & Htot & Hown & Hm3).
  - unfold sizeof_Arena. split.
    + split_and!; try lia; [rewrite Z.add_mod, Hpm by lia; done|rewrite Zminus_mod, Hkm; done].
    + intros q t f Hq. by rewrite lookup_empty in Hq.
    + right. unfold sizeof_Arena. lia.
    + unfold total. rewrite msum_empty. lia.
  - intros x Hx. apply Htk. right. unfold sizeof_Arena in *. lia.
  - apply wp_bind. eapply wp_returns; [exact Hrun3|]. apply wp_ret. exists K. split; [lia|]. split; [done|]. split; [done|]. split; [unfold sizeof_Arena in *; lia|].
    split; [done|]. split; [by rewrite Hw3|]. split; [intros x [Hx|[f Hx]]; apply Hnt; [|apply Hown in Hx]; unfold sizeof_Arena in *; lia|]. intros x Hx. assert (Hxp : ~ p <= x < p + k) by (intros Hin; by apply (Hnt x)). split.
    + rewrite Hm3 by (unfold sizeof_Arena; lia). cbn [lla_mem st2]. unfold m2. rewrite lookup_insert_ne by (unfold allocator_at; lia). apply Hm1. unfold sizeof_Arena. lia.
    + rewrite Hw3. apply Htk. by left.
Qed.

(** ** Using an arena *)

Section Client.
Context (al slack : Z) {PL : PagesLaws al slack} (a : Z) (Ha : a <> 0).

(** What the user of an arena knows: its blocks (address and size), the words it stored in
    them, and a bound on the memory the arena has obtained. *)
Record client := mkClient { c_state : LLA W; c_blocks : gmap Z Z; c_words : gmap Z Z; c_bytes : Z }.

(** What an allocation can cost. *)
Definition cost (request : Z) : Z := request + 2 ^ 20 + 64 + slack.

Inductive client_step : client -> client -> Prop :=
| cs_alloc st B E T request v n st' st'' :
    0 < request -> T + cost request <= 2 ^ 34 ->
    AllocWithArena default_arena_storage request a st = Ok (v, st') -> UsableSize v st' = Ok (n, st'') ->
    client_step (mkClient st B E T) (mkClient st'' (<[v := n]> B) E (T + cost request))
| cs_free st B E T v n st' :
    B !! v = Some n -> Free v st = Ok (tt, st') ->
    client_step (mkClient st B E T) (mkClient st' (delete v B) (filter (fun '(x, _) => ~ v <= x < v + n) E) T)
| cs_write st B E T v n x val :
    B !! v = Some n -> v <= x -> x + 8 <= v + n -> x mod 8 = 0 ->
    client_step (mkClient st B E T) (mkClient (with_mem (<[x := val]> st.(lla_mem)) st.(random_r) st) B (<[x := val]> E) T).

(** The blocks of the user are the allocated blocks of the arena. *)
Definition holds (K : blocks) (B : gmap Z Z) : Prop := forall v n, B !! v = Some n <-> K !! (v - sizeof_Header) = Some (n + sizeof_Header, false).

Record client_ok (c : client) : Prop := {
  co_inv : exists K, arena_inv al a c.(c_state) K /\ holds K c.(c_blocks) /\ total K <= c.(c_bytes);
  co_words x val : c.(c_words) !! x = Some val -> c.(c_state).(lla_mem) !! x = Some val /\ exists v n, c.(c_blocks) !! v = Some n /\ v <= x /\ x + 8 <= v + n
}.

(** The memory of a block in use is not the arena's. *)
Lemma held_outside st K B v n x : arena_inv al a st K -> holds K B -> B !! v = Some n -> v <= x < v + n ->
  taken st.(lla_world) x /\ ~ a <= x < a + sizeof_Arena /\ ~ in_block K true x.
Proof.
  intros [[l HR] _ _ _ _ _ Htk] Hh Hv Hx. apply Hh in Hv. unfold sizeof_Header in *. assert (Hin : in_block K false x) by (exists (v - 32), (n + 32); split; [done|lia]).
  split_and!; [by apply (Htk false)| |].
  - destruct (pl_sep _ _ (ar_placed _ _ _ _ HR) _ _ _ Hv); lia.
  - intros Hin'. by pose proof (in_block_det K (rep_ok _ _ _ _ HR) _ _ _ Hin Hin').
Qed.

Lemma step_alloc_ok st B E T request v n st' st'' : client_ok (mkClient st B E T) -> 0 < request -> T + cost request <= 2 ^ 34 ->
  AllocWithArena default_arena_storage request a st = Ok (v, st') -> UsableSize v st' = Ok (n, st'') -> client_ok (mkClient st'' (<[v := n]> B) E (T + cost request)).
Proof.
  intros [(K & HI & Hh & HT) Hw] Hr Hc Hal Hus. cbn [c_state c_blocks c_words c_bytes] in *. unfold cost in *.
  pose proof (wp_AllocWithArena default_arena_storage al slack a st K request HI Ha Hr ltac:(lia)) as Hwp. apply (wp_Ok _ _ _ _ _ Hwp) in Hal as (p & u & K' & -> & Hall).
  assert (Hp : K' !! p = Some (u, false)) by (apply (al_live _ _ _ _ _ _ _ _ _ _ Hall); by right). rewrite (UsableSize_run al a st' K' p u (al_inv _ _ _ _ _ _ _ _ _ _ Hall) Hp) in Hus.
  injection Hus as <- <-. unfold sizeof_Header in *. split; cbn [c_state c_blocks c_words c_bytes].
  - exists K'. split; [apply Hall|]. split.
    + intros v n. unfold sizeof_Header. rewrite (al_live _ _ _ _ _ _ _ _ _ _ Hall). destruct (decide (v = p + 32)) as [->|Hne].
      * rewrite lookup_insert_eq. replace (p + 32 - 32) with p by lia. split; [intros [= <-]; right; split; [done|lia]|].
        intros [Hk|[_ Hn]]; [by apply (al_new _ _ _ _ _ _ _ _ _ _ Hall) in Hk|f_equal; lia].
      * rewrite lookup_insert_ne by done. rewrite (Hh v n). unfold sizeof_Header. split; [by left|]. intros [?|[? _]]; [done|lia].
    + destruct (al_fit _ _ _ _ _ _ _ _ _ _ Hall) as [(_ & _ & -> & _)|(_ & ? & _)]; [|lia]. pose proof (slack_pos (al := al) (slack := slack)). lia.
  - intros x val Hx. destruct (Hw x val Hx) as (Hm & v & k & Hv & Hvx & Hxv). destruct (held_outside st K B v k x HI Hh Hv ltac:(lia)) as (Ht & Hxa & Hxk).
    split; [rewrite (fm_mem _ _ _ _ (al_framed _ _ _ _ _ _ _ _ _ _ Hall) x Ht Hxa Hxk); done|]. exists v, k. split; [|done]. rewrite lookup_insert_ne; [done|].
    intros <-. apply Hh in Hv. unfold sizeof_Header in Hv. replace (p + 32 - 32) with p in Hv by lia. by apply (al_new _ _ _ _ _ _ _ _ _ _ Hall) in Hv.
Qed.

Lemma held_apart st K B v n w k : arena_inv al a st K -> holds K B -> B !! v = Some n -> B !! w = Some k -> v <> w -> v + n <= w - sizeof_Header \/ w + k <= v - sizeof_Header.
Proof.
  intros [[l HR] _ _ _ _ _ _] Hh Hv Hw Hne. apply Hh in Hv, Hw. unfold sizeof_Header in *.
  destruct (bl_apart _ (rep_ok _ _ _ _ HR) _ _ _ _ _ _ Hv Hw ltac:(lia)); [left|right]; lia.
Qed.

Lemma step_free_ok st B E T v n st' : client_ok (mkClient st B E T) -> B !! v = Some n -> Free v st = Ok (tt, st') ->
  client_ok (mkClient st' (delete v B) (filter (fun '(x, _) => ~ v <= x < v + n) E) T).
Proof.
  intros [(K & HI & Hh & HT) Hw] Hv Hfr. cbn [c_state c_blocks c_words c_bytes] in *. pose proof Hv as Hk. apply Hh in Hk. set (p := v - sizeof_Header) in *.
  destruct (Free_run al a st K p (n + sizeof_Header) HI Hk) as (st2 & K' & Hrun & Hre). replace (p + sizeof_Header) with v in Hrun by (unfold p; lia). rewrite Hrun in Hfr. injection Hfr as <-.
  split; cbn [c_state c_blocks c_words c_bytes].
  - exists K'. split; [apply Hre|]. split; [|by rewrite (re_total _ _ _ _ _ _ _ _ Hre)]. intros w k. rewrite (re_live _ _ _ _ _ _ _ _ Hre), <- (Hh w k). destruct (decide (w = v)) as [->|Hne].
    + rewrite lookup_delete_eq. split; [done|]. intros [_ ?]. unfold p in *. done.
    + rewrite lookup_delete_ne by done. split; [intros ?; split; [done|unfold p; lia]|by intros [? _]].
  - intros x val Hx. apply map_lookup_filter_Some in Hx as [Hx Hxv]. simpl in Hxv. destruct (Hw x val Hx) as (Hm & w & k & Hwk & Hwx & Hxw).
    destruct (held_outside st K B w k x HI Hh Hwk ltac:(lia)) as (Ht & Hxa & Hxk). assert (Hne : w <> v) by (intros ->; assert (k = n) by congruence; lia). split.
    + rewrite (re_mem _ _ _ _ _ _ _ _ Hre x Hxa Hxk); [done|]. unfold p, sizeof_Header in *. destruct (held_apart st K B v n w k HI Hh Hv Hwk ltac:(done)); unfold sizeof_Header in *; lia.
    + exists w, k. by rewrite lookup_delete_ne.
Qed.

Lemma step_write_ok st B E T v n x val : client_ok (mkClient st B E T) -> B !! v = Some n -> v <= x -> x + 8 <= v + n ->
  client_ok (mkClient (with_mem (<[x := val]> st.(lla_mem)) st.(random_r) st) B (<[x := val]> E) T).
Proof.
  intros [(K & HI & Hh & HT) Hw] Hv Hvx Hxv. cbn [c_state c_blocks c_words c_bytes] in *. pose proof HI as [[l HR] Hco Hcnt Hal Hpg Har Htk].
  destruct (held_outside st K B v n x HI Hh Hv ltac:(lia)) as (Ht & Hxa & Hxk). split; cbn [c_state c_blocks c_words c_bytes].
  - exists K. split; [|done]. split; cbn [with_mem lla_mem lla_world]; try done.
    + exists l. apply (rep_frame a st.(lla_mem)); [done|]. intros y Hy. apply lookup_insert_ne. intros <-.
      destruct Hy as [[? _]|[?|(q & t & Hq & Hin)]]; [done|done|]. apply Hh in Hv. unfold sizeof_Header in *. destruct (decide (q = v - 32)) as [->|Hne]; [lia|].
      pose proof (bl_block _ (rep_ok _ _ _ _ HR) _ _ _ Hq) as [? _]. destruct (bl_apart _ (rep_ok _ _ _ _ HR) _ _ _ _ _ _ Hq Hv Hne); lia.
    + rewrite <- Hcnt. apply word_insert_ne. unfold allocation_count_at, sizeof_Arena in *. lia.
    + etrans; [|exact Hal]. apply word_insert_ne. unfold allocator_at, sizeof_Arena in *. lia.
  - intros y val' Hy. destruct (decide (y = x)) as [->|Hne].
    + rewrite lookup_insert_eq in Hy. cbn [with_mem lla_mem]. rewrite lookup_insert_eq. split; [done|]. by exists v, n.
    + rewrite lookup_insert_ne in Hy by done. cbn [with_mem lla_mem]. rewrite lookup_insert_ne by done. by apply Hw.
Qed.

Lemma reachable_ok c c' : client_ok c -> rtc client_step c c' -> client_ok c'.
Proof.
  intros Hc Hr. revert Hc. induction Hr as [|c1 c2 c3 Hs _ IH]; [done|]. intros Hc. apply IH.
  destruct Hs; [by eapply step_alloc_ok|by eapply step_free_ok|by eapply step_write_ok].
Qed.


End Client.
End Arenas.
