(* ===== verification/EmergencyMalloc.v ===== *)
(** Emergency malloc: [src/emergency_malloc.h] and [src/emergency_malloc.cc].

    The pages allocator of the emergency arena keeps its two pointers next to the system
    allocator; an arena reaches it, or the default one, through the address of the object.
    Running out of the 16 MiB, and a failing [mmap], end the process for lack of memory.
    [memcpy] copies byte by byte upwards; the calls of [munmap] ignore failures. *)
From S2P Require Import Prelude SizeMap LinkedList Bytes SystemAlloc SkipList LowLevelAlloc.

Definition kEmergencyArenaShift : Z := 24.
Definition kEmergencyArenaSize : Z := Z.shiftl 1 kEmergencyArenaShift.
Definition ENOMEM : Z := 12.

Section EmergencyMalloc.
Context {Sys : Type} {OSops : OS (Sys := Sys)}.
(** The static objects: the default pages allocator and arena, [pages_allocator_place]. *)
Context (default_allocator default_arena_storage pages_allocator_place : Z).

(** The system and the variables the pages allocator uses. *)
Record Pages := mkPages {
  sys : SysAlloc (Sys := Sys);
  emergency_arena_start : Z;
  emergency_arena_end : Z
}.

Definition EmergencyArenaPagesAllocator_MapPages (size : Z) : M Pages (Z * Z) := fun w =>
  let new_end := u64 (w.(emergency_arena_end) + size) in
  let limit := w.(emergency_arena_start) + kEmergencyArenaSize in
  if new_end >? limit then OutOfMemory
  else
    let rv := w.(emergency_arena_end) in
    Ok ((rv, limit - rv), mkPages w.(sys) w.(emergency_arena_start) limit).

Definition EmergencyArenaPagesAllocator_UnMapPages (addr size : Z) : M Pages unit := crash.

Definition on_system {A} (f : M (SysAlloc (Sys := Sys)) A) : M Pages A := fun w =>
  '(v, s) ← f w.(sys);
  Ok (v, mkPages s w.(emergency_arena_start) w.(emergency_arena_end)).

(** The virtual functions, by the object. *)
#[export] Instance pages_allocators : PagesAllocator Pages := {|
  MapPages o size := if o =? pages_allocator_place then EmergencyArenaPagesAllocator_MapPages size else on_system (DefaultPagesAllocator_MapPages size);
  UnMapPages o addr size := if o =? pages_allocator_place then EmergencyArenaPagesAllocator_UnMapPages addr size else on_system (DefaultPagesAllocator_UnMapPages addr size);
  default_pages_allocator := default_allocator
|}.

Record Emergency := mkEmergency {
  lla : LLA Pages;
  emergency_arena : Z;
  emergency_arena_start_shifted : Z;
  em_errno : Z
}.

Abbreviation ME := (M Emergency).

Definition on_lla {A} (f : M (LLA Pages) A) : ME A := fun e =>
  '(v, s) ← f e.(lla);
  Ok (v, mkEmergency s e.(emergency_arena) e.(emergency_arena_start_shifted) e.(em_errno)).
Definition start_of (e : Emergency) : Z := e.(lla).(lla_world).(emergency_arena_start).
Definition end_of (e : Emergency) : Z := e.(lla).(lla_world).(emergency_arena_end).

Definition set_pages (ptr : Z) : M Pages unit := modify (fun w => mkPages w.(sys) ptr ptr).

Definition InitEmergencyMalloc : ME unit :=
  r ← on_lla (on_world (on_system (MapAnonymous (kEmergencyArenaSize * 2))));
  match r with
  | None => out_of_memory
  | Some arena_ptr =>
      let ptr := Z.land (u64 (arena_ptr + kEmergencyArenaSize - 1)) (u64 (Z.lnot (kEmergencyArenaSize - 1))) in
      on_lla (on_world (set_pages ptr)) ;;
      arena ← on_lla (NewArenaWithCustomAlloc default_arena_storage pages_allocator_place);
      modify (fun e => mkEmergency e.(lla) arena (Z.shiftr (start_of e) kEmergencyArenaShift) e.(em_errno)) ;;
      let head_unmap_size := u64 (ptr - arena_ptr) in
      (if head_unmap_size <? kEmergencyArenaSize then skip else crash) ;;
      (if negb (head_unmap_size =? 0) then on_lla (on_world (on_system (sys_munmap arena_ptr (u64 (ptr - arena_ptr))))) else skip) ;;
      let tail_unmap_size := u64 (kEmergencyArenaSize - head_unmap_size) in
      let tail_start := u64 (arena_ptr + head_unmap_size + kEmergencyArenaSize) in
      on_lla (on_world (on_system (sys_munmap tail_start tail_unmap_size)))
  end.

Definition set_enomem : ME unit := modify (fun e => mkEmergency e.(lla) e.(emergency_arena) e.(emergency_arena_start_shifted) ENOMEM).

(** [CHECK_CONDITION(emergency_arena_start)] *)
Definition check_started : ME unit :=
  e ← get_state;
  if start_of e =? 0 then crash else skip.

Definition EmergencyMalloc (size : Z) : ME Z :=
  e ← get_state;
  (if start_of e =? 0 then InitEmergencyMalloc ;; check_started else skip) ;;
  e ← get_state;
  rv ← on_lla (AllocWithArena default_arena_storage size e.(emergency_arena));
  (if rv =? 0 then set_enomem else skip) ;;
  mret rv.

Definition EmergencyFree (p : Z) : ME unit :=
  check_started ;;
  on_lla (Free p).

Definition EmergencyAllocatedSize (p : Z) : ME Z :=
  check_started ;;
  on_lla (UsableSize p).

Definition EmergencyRealloc (old_ptr new_size : Z) : ME Z :=
  if old_ptr =? 0 then EmergencyMalloc new_size
  else if new_size =? 0 then EmergencyFree old_ptr ;; mret 0
  else
    check_started ;;
    e ← get_state;
    (if old_ptr <=? end_of e then skip else crash) ;;
    (if start_of e <=? old_ptr then skip else crash) ;;
    let old_ptr_size := end_of e - old_ptr in
    let copy_size := if new_size <? old_ptr_size then new_size else old_ptr_size in
    new_ptr ← on_lla (AllocWithArena default_arena_storage new_size e.(emergency_arena));
    if new_ptr =? 0 then set_enomem ;; mret 0
    else
      on_lla (on_mem (modify (fun m => memcpy m new_ptr old_ptr copy_size))) ;;
      on_lla (Free old_ptr) ;;
      mret new_ptr.

Definition IsEmergencyPtr (ptr : Z) (e : Emergency) : bool :=
  (Z.shiftr ptr kEmergencyArenaShift =? e.(emergency_arena_start_shifted)) && negb (e.(emergency_arena_start_shifted) =? 0).
End EmergencyMalloc.
