(* ===== verification/EmergencySpec.v ===== *)
(** Emergency malloc gives out disjoint blocks of its own 16 MiB and recognises them;
    reallocation keeps their bytes. *)
From S2P Require Import Prelude SizeMap LinkedList Bytes SystemAlloc SkipList LowLevelAlloc LowLevelInv LowLevelOps LowLevelSpec LowLevelArenas EmergencyMalloc.

Section EmergencySpec.
Context {Sys : Type} {OSops : OS (Sys := Sys)} {OSG : OSGhost (Sys := Sys)} {OSL : OSLaws}.
Context (default_allocator default_arena_storage pages_allocator_place : Z).
Context (Hplace : pages_allocator_place <> 0) (Hpage : getpagesize <= 2 ^ 24).

Abbreviation SZ := (2 ^ 24).
#[local] Existing Instance pages_allocators.

(** ** The pages of the arena *)

(** The 16 MiB are there, and have been given out as a whole or not at all. *)
#[local] Instance em_ghost : PagesGhost (Pages (Sys := Sys)) := {|
  pages_ok w := 0 < w.(emergency_arena_start) /\ w.(emergency_arena_start) mod SZ = 0 /\ w.(emergency_arena_start) + SZ <= 2 ^ 48 /\
    (w.(emergency_arena_end) = w.(emergency_arena_start) \/ w.(emergency_arena_end) = w.(emergency_arena_start) + SZ);
  taken w x := ~ w.(emergency_arena_end) <= x < w.(emergency_arena_start) + SZ;
  pages_rel w w' := w'.(sys) = w.(sys) /\ w'.(emergency_arena_start) = w.(emergency_arena_start)
|}.

#[local] Instance em_laws : PagesLaws (PA := pages_allocators default_allocator pages_allocator_place) pages_allocator_place SZ.
Proof.
  split; [lia|done|]. intros n w (H1 & H2 & H3 & H4) Hn Hm. unfold wp. cbn [MapPages pages_allocators]. rewrite Z.eqb_refl. unfold EmergencyArenaPagesAllocator_MapPages.
  change kEmergencyArenaSize with SZ. rewrite u64_small by lia. rewrite Z.gtb_ltb. destruct (Z.ltb_spec (emergency_arena_start w + SZ) (emergency_arena_end w + n)); [done|].
  destruct H4 as [He|He]; [|lia]. cbn [pages_ok taken em_ghost emergency_arena_start emergency_arena_end]. rewrite He.
  assert (H32 : emergency_arena_start w mod 32 = 0) by (apply (mod_pow_le _ 5 24); [lia|done]).
  split; [split_and!; [done|done|done|by right]|]. split; [done|]. replace (emergency_arena_start w + SZ - emergency_arena_start w) with SZ by lia.
  split; [lia|]. split; [lia|]. split; [lia|]. split; [done|]. split; [done|]. split; intros x; [lia|].
  destruct (decide (emergency_arena_start w <= x < emergency_arena_start w + SZ)); lia.
Qed.

Abbreviation AI := (arena_inv pages_allocator_place).

(** The emergency arena, once it exists, with the blocks [K]. *)
Record em_ok (e : Emergency (Sys := Sys)) (K : blocks) : Prop := {
  eo_arena : emergency_arena e <> 0 /\ AI e.(emergency_arena) e.(lla) K;
  eo_start : pages_ok e.(lla).(lla_world) /\ end_of e = start_of e + SZ;
  eo_shifted : emergency_arena_start_shifted e = start_of e / SZ;
  eo_inside x : e.(emergency_arena) <= x < e.(emergency_arena) + sizeof_Arena \/ (exists f, in_block K f x) -> start_of e <= x < start_of e + SZ;
  eo_total : total K <= 2 ^ 25;
  eo_mapped : sa_ok e.(lla).(lla_world).(sys) /\ forall x, start_of e <= x < start_of e + SZ -> used e.(lla).(lla_world).(sys).(os) x
}.

Lemma wp_on_lla {A} (f : M (LLA (Pages (Sys := Sys))) A) Q e :
  wp f (fun v s => Q v (mkEmergency s e.(emergency_arena) e.(emergency_arena_start_shifted) e.(em_errno))) e.(lla) -> wp (on_lla f) Q e.
Proof. unfold wp, on_lla. destruct (f (lla e)) as [[v s]| | |]; done. Qed.

Lemma wp_on_system {A} (f : M (SysAlloc (Sys := Sys)) A) Q w :
  wp f (fun v s => Q v (mkPages s w.(emergency_arena_start) w.(emergency_arena_end))) w.(sys) -> wp (on_system f) Q w.
Proof. unfold wp, on_system. destruct (f (sys w)) as [[v s]| | |]; done. Qed.

(** The first multiple of 16 MiB in the 32 MiB from [r]. *)
Lemma align_arena r : 0 < r -> r + 2 * SZ <= 2 ^ 48 ->
  exists ptr, Z.land (u64 (r + kEmergencyArenaSize - 1)) (u64 (Z.lnot (kEmergencyArenaSize - 1))) = ptr /\ r <= ptr < r + SZ /\ ptr mod SZ = 0.
Proof.
  intros Hr Hr48. eexists. split; [done|]. change kEmergencyArenaSize with SZ. rewrite (u64_small (r + SZ - 1)) by lia.
  replace (u64 (Z.lnot (SZ - 1))) with (u64 (Z.lnot (u64 (SZ - 1)))) by done. rewrite land_high_mask by lia.
  pose proof (Z.div_mod (r + SZ - 1) SZ ltac:(lia)). pose proof (Z.mod_pos_bound (r + SZ - 1) SZ ltac:(lia)). split; [lia|]. apply Z.mod_mul. lia.
Qed.

(** ** Start *)

Abbreviation New := (NewArenaWithCustomAlloc (PA := pages_allocators default_allocator pages_allocator_place) default_arena_storage pages_allocator_place).
Abbreviation Init := (InitEmergencyMalloc default_allocator default_arena_storage pages_allocator_place).

(** Unmapping what is not the arena. *)
Lemma wp_munmap_rest p n w (Q : unit -> Pages (Sys := Sys) -> Prop) :
  sa_ok w.(sys) -> p mod getpagesize = 0 -> n mod getpagesize = 0 ->
  (forall s, sa_ok s -> (forall x, used s.(os) x <-> used w.(sys).(os) x /\ ~ p <= x < p + n) -> Q tt (mkPages s w.(emergency_arena_start) w.(emergency_arena_end))) ->
  wp (on_system (sys_munmap p n)) Q w.
Proof. intros Hs Hp Hn HQ. apply wp_on_system, wp_munmap; [done..|]. intros s Hs' _ Hu. by apply HQ. Qed.

Lemma wp_InitEmergencyMalloc e : sa_ok e.(lla).(lla_world).(sys) ->
  wp Init (fun _ e' => exists K, em_ok e' K /\ (forall q t, K !! q <> Some (t, false)) /\ em_errno e' = em_errno e /\
    forall x, ~ start_of e' <= x < start_of e' + SZ -> e'.(lla).(lla_mem) !! x = e.(lla).(lla_mem) !! x) e.
Proof.
  intros Hs. unfold InitEmergencyMalloc. apply wp_bind, wp_on_lla, wp_on_world, wp_on_system. change (kEmergencyArenaSize * 2) with (2 * SZ).
  unfold MapAnonymous. apply wp_mmap; [done|lia|]. intros [r|] s1 Hgrow _ Hr; [|done]. destruct Hr as (Hob & Hne & Hrp). destruct Hob as [[? _]|(Hr0 & Hr48 & _ & Hu1)]; [done|].
  change (2 ^ kAddressBits) with (2 ^ 48) in Hr48. destruct (align_arena r Hr0 Hr48) as (ptr & -> & Hptr & Hpm). cbn [lla lla_mem lla_world random_r default_arena emergency_arena emergency_arena_start_shifted em_errno].
  apply wp_bind, wp_on_lla, wp_on_world. eapply wp_returns; [done|]. cbn [lla lla_mem lla_world random_r default_arena emergency_arena emergency_arena_start_shifted em_errno sys].
  set (st1 := mkLLA _ _ _ _). apply wp_bind, wp_on_lla.
  eapply wp_mono; [apply (wp_NewArenaWithCustomAlloc default_arena_storage pages_allocator_place SZ st1 em_laws Hplace); cbn [lla_world st1 pages_ok em_ghost emergency_arena_start emergency_arena_end]; [split_and!; (lia || done || by left)|lia]|].
  intros arena st2 (K & Ha0 & HI & Hlive & Htot & _ & Hrel & Hin & Hmem). cbn [lla_world st1 taken pages_rel em_ghost emergency_arena_start emergency_arena_end sys] in Hrel, Hin, Hmem. destruct Hrel as [Hsys Hst].
  pose proof (ai_pages _ _ _ _ HI) as Hpg. cbn [pages_ok em_ghost] in Hpg. rewrite Hst in Hpg.
  assert (Hend : emergency_arena_end (lla_world st2) = ptr + SZ).
  { destruct Hpg as (_ & _ & _ & [He|He]); [|done]. exfalso. pose proof (ai_arena _ _ _ _ HI arena ltac:(unfold sizeof_Arena; lia)) as Ht. cbn [taken em_ghost] in Ht.
    apply (Hin arena); [left; unfold sizeof_Arena; lia|]. rewrite Hst, He in Ht. exact Ht. }
  apply wp_bind. eapply wp_returns; [done|]. unfold start_of. cbn [lla emergency_arena emergency_arena_start_shifted em_errno]. rewrite Hst.
  replace (u64 (ptr - r)) with (ptr - r) by (symmetry; apply u64_small; lia). change kEmergencyArenaSize with SZ. destruct (Z.ltb_spec (ptr - r) SZ); [|lia]. apply wp_bind, wp_ret.
  destruct getpagesize_pow as (k & Hk & Hps). assert (Hk24 : k <= 24) by (apply (Z.pow_le_mono_r_iff 2); lia).
  assert (Hpp : ptr mod getpagesize = 0) by (rewrite Hps; apply (mod_pow_le _ k 24); [lia|done]). assert (HSp : SZ mod getpagesize = 0) by (rewrite Hps; apply (mod_pow_le _ k 24); [lia|apply Z.mod_same; lia]).
  assert (Hps0 : 0 < getpagesize) by (rewrite Hps; apply Z.pow_pos_nonneg; lia). assert (Hhp : (ptr - r) mod getpagesize = 0) by (by apply mod_sum).
  assert (Hfinal : forall s, sa_ok s -> (forall x, ptr <= x < ptr + SZ -> used s.(os) x) ->
    let w := mkPages s (emergency_arena_start (lla_world st2)) (emergency_arena_end (lla_world st2)) in
    let e' := mkEmergency (mkLLA st2.(lla_mem) st2.(random_r) st2.(default_arena) w) arena (Z.shiftr ptr kEmergencyArenaShift) e.(em_errno) in
    em_ok e' K /\ (forall x, ~ start_of e' <= x < start_of e' + SZ -> e'.(lla).(lla_mem) !! x = e.(lla).(lla_mem) !! x)).
  { intros s Hsok Hus w e'. unfold e', w, start_of, end_of. split; [split|]; unfold start_of, end_of; cbn [lla lla_mem lla_world emergency_arena emergency_arena_start emergency_arena_end emergency_arena_start_shifted sys em_errno].
    - split; [done|]. destruct HI as [H1 H2 H3 H4 H5 H6 H7]. split; cbn [lla_mem lla_world pages_ok taken em_ghost emergency_arena_start emergency_arena_end]; done.
    - cbn [pages_ok em_ghost emergency_arena_start emergency_arena_end]. rewrite Hst, Hend. split; [rewrite Hend in Hpg; done|done].
    - rewrite Hst. by rewrite Z.shiftr_div_pow2.
    - intros x Hx. rewrite Hst. specialize (Hin x Hx). lia.
    - unfold sizeof_Arena in Htot. lia.
    - split; [done|]. rewrite Hst. done.
    - intros x Hx. rewrite Hst in Hx. apply Hmem. lia. }
  assert (Hmap : forall x, ptr <= x < ptr + SZ -> used s1.(os) x) by (intros x Hx; apply Hu1; right; lia).
  assert (Hs1 : sa_ok s1) by apply Hgrow. rewrite <- Hsys in Hs1, Hmap.
  assert (Htail : forall w, sa_ok w.(sys) -> (forall x, ptr <= x < ptr + SZ -> used w.(sys).(os) x) ->
    emergency_arena_start w = emergency_arena_start (lla_world st2) -> emergency_arena_end w = emergency_arena_end (lla_world st2) ->
    wp (on_lla (on_world (on_system (sys_munmap (u64 (r + (ptr - r) + SZ)) (u64 (SZ - (ptr - r))))))) (fun _ e' => exists K, em_ok e' K /\ (forall q t, K !! q <> Some (t, false)) /\ em_errno e' = em_errno e /\
      forall x, ~ start_of e' <= x < start_of e' + SZ -> e'.(lla).(lla_mem) !! x = e.(lla).(lla_mem) !! x)
      (mkEmergency (mkLLA st2.(lla_mem) st2.(random_r) st2.(default_arena) w) arena (Z.shiftr ptr kEmergencyArenaShift) e.(em_errno))).
  { intros w Hw1 Hw2 Hw3 Hw4. rewrite !u64_small by lia. apply wp_on_lla, wp_on_world. cbn [lla lla_world lla_mem random_r default_arena emergency_arena emergency_arena_start_shifted em_errno].
    apply wp_munmap_rest; [done| | |].
    - replace (r + (ptr - r) + SZ) with (ptr + SZ) by lia. by apply mod_sum.
    - by apply mod_sum.
    - intros s Hsok Hu. rewrite Hw3, Hw4. destruct (Hfinal s Hsok) as [Hok Hm]; [intros x Hx; apply Hu; split; [by apply Hw2|lia]|]. exists K. done. }
  destruct (Z.eqb_spec (ptr - r) 0) as [H0|Hn0]; simpl negb; cbv iota; apply wp_bind.
  - apply wp_ret. destruct st2 as [m2 r2 d2 w2]. apply Htail; done.
  - apply wp_on_lla, wp_on_world. cbn [lla lla_world lla_mem random_r default_arena emergency_arena emergency_arena_start_shifted em_errno].
    apply wp_munmap_rest; [done..|]. intros s Hsok Hu. apply Htail; cbn [sys emergency_arena_start emergency_arena_end]; [done| |done|done].
    intros x Hx. apply Hu. split; [by apply Hmap|lia].
Qed.

(** ** Recognition *)

(** The pointers recognised are the addresses of the 16 MiB. *)
Lemma IsEmergencyPtr_iff e K ptr : em_ok e K -> 0 <= ptr -> IsEmergencyPtr ptr e = true <-> start_of e <= ptr < start_of e + SZ.
Proof.
  intros He Hp. destruct (eo_start _ _ He) as [(H0 & Hm & H48 & _) _]. fold (start_of e) in H0, Hm, H48. unfold IsEmergencyPtr, kEmergencyArenaShift.
  rewrite (eo_shifted _ _ He), Z.shiftr_div_pow2, andb_true_iff, Z.eqb_eq, negb_true_iff, Z.eqb_neq by lia.
  pose proof (Z.div_mod (start_of e) SZ ltac:(lia)) as Hd. rewrite Hm in Hd. pose proof (Z.div_mod ptr SZ ltac:(lia)). pose proof (Z.mod_pos_bound ptr SZ ltac:(lia)).
  set (s := start_of e / SZ) in *. set (q := ptr / SZ) in *. split.
  - intros [Hq _]. lia.
  - intros Hin. split; lia.
Qed.

(** ** Allocation and deallocation *)

Abbreviation Alloc := (AllocWithArena (PA := pages_allocators default_allocator pages_allocator_place) default_arena_storage).

(** What a call that allocated [size] bytes did. *)
Record em_alloc (e : Emergency (Sys := Sys)) (K : blocks) (size v : Z) (e' : Emergency (Sys := Sys)) (K' : blocks) (u : Z) : Prop := {
  ea_ok : em_ok e' K';
  ea_size : size + 32 <= u < size + 128 /\ v mod 32 = 0;
  ea_new : K' !! (v - 32) = Some (u, false) /\ (forall t, K !! (v - 32) <> Some (t, false)) /\ forall x, v - 32 <= x < v - 32 + u -> in_block K true x;
  ea_live q t : K' !! q = Some (t, false) <-> K !! q = Some (t, false) \/ q = v - 32 /\ t = u;
  ea_mem x : ~ emergency_arena e <= x < emergency_arena e + sizeof_Arena -> ~ in_block K true x -> e'.(lla).(lla_mem) !! x = e.(lla).(lla_mem) !! x;
  ea_same : start_of e' = start_of e /\ emergency_arena e' = emergency_arena e /\ em_errno e' = em_errno e
}.

Lemma wp_em_alloc e K size : em_ok e K -> 0 < size <= 2 ^ 33 ->
  wp (on_lla (Alloc size (emergency_arena e))) (fun v e' => exists K' u, em_alloc e K size v e' K' u) e.
Proof.
  intros He Hsz. destruct (eo_arena _ _ He) as [Ha0 HI]. destruct (eo_start _ _ He) as [Hpg Hend]. pose proof (eo_total _ _ He) as Ht.
  assert (Hall : forall x, taken (lla_world (lla e)) x) by (intros x; cbn [taken em_ghost]; unfold end_of, start_of in Hend; lia).
  apply wp_on_lla. eapply wp_mono; [apply (wp_AllocWithArena (PL := em_laws) default_arena_storage pages_allocator_place SZ (emergency_arena e) (lla e) K size HI Ha0); lia|].
  intros v st (p & u & K' & -> & Hal). exists K', u. unfold sizeof_Header in *. replace (p + 32 - 32) with p by lia.
  pose proof (al_inv _ _ _ _ _ _ _ _ _ _ Hal) as HI'. destruct (fm_rel _ _ _ _ (al_framed _ _ _ _ _ _ _ _ _ _ Hal)) as [Hsys Hst].
  assert (Hp : K' !! p = Some (u, false)) by (apply (al_live _ _ _ _ _ _ _ _ _ _ Hal); by right). pose proof HI' as [[l' HR'] _ _ _ Hpg' _ _].
  assert (Hin : forall f x, in_block K' f x -> exists g, in_block K g x) by (intros f x Hx; destruct (al_owned _ _ _ _ _ _ _ _ _ _ Hal f x Hx) as [?|Hn]; [done|by destruct Hn]).
  assert (Hend' : emergency_arena_end (lla_world st) = emergency_arena_start (lla_world st) + SZ).
  { destruct Hpg' as (_ & _ & _ & [Heq|Heq]); [|done]. pose proof (fm_taken _ _ _ _ (al_framed _ _ _ _ _ _ _ _ _ _ Hal) _ (Hall (emergency_arena_start (lla_world st)))) as Ht'.
    cbn [taken em_ghost] in Ht'. lia. }
  split.
  - split; unfold start_of, end_of; cbn [lla emergency_arena emergency_arena_start_shifted].
    + done.
    + done.
    + rewrite Hst. apply (eo_shifted _ _ He).
    + rewrite Hst. intros x [Hx|[f Hx]]; apply (eo_inside _ _ He); [by left|right]. by apply (Hin f).
    + destruct (al_fit _ _ _ _ _ _ _ _ _ _ Hal) as [(_ & _ & -> & _)|(_ & _ & x & Hx & _)]; [done|]. by destruct Hx.
    + rewrite Hsys, Hst. apply (eo_mapped _ _ He).
  - pose proof (al_size _ _ _ _ _ _ _ _ _ _ Hal) as Hs. destruct (bl_block _ (rep_ok _ _ _ _ HR') _ _ _ Hp) as (_ & _ & _ & Hm & _). unfold sizeof_Header in Hs.
    split; [lia|]. by rewrite Z.add_mod, Hm by lia.
  - replace (p + 32 - 32) with p by lia. split; [done|]. split; [apply (al_new _ _ _ _ _ _ _ _ _ _ Hal)|]. intros x Hx.
    destruct (al_free _ _ _ _ _ _ _ _ _ _ Hal x Hx) as [?|Hn]; [done|]. by destruct Hn.
  - replace (p + 32 - 32) with p by lia. apply (al_live _ _ _ _ _ _ _ _ _ _ Hal).
  - intros x Hx Hk. by apply (fm_mem _ _ _ _ (al_framed _ _ _ _ _ _ _ _ _ _ Hal)).
  - done.
Qed.

(** The memory of an allocated block is not the arena's. *)
Lemma em_live_outside e K p u x : em_ok e K -> K !! p = Some (u, false) -> p <= x < p + u ->
  ~ emergency_arena e <= x < emergency_arena e + sizeof_Arena /\ ~ in_block K true x.
Proof.
  intros He Hp Hx. destruct (eo_arena _ _ He) as [_ [[l HR] _ _ _ _ _ _]]. split.
  - destruct (pl_sep _ _ (ar_placed _ _ _ _ HR) _ _ _ Hp); lia.
  - intros Hin. assert (Hin' : in_block K false x) by (exists p, u; done). by pose proof (in_block_det K (rep_ok _ _ _ _ HR) _ _ _ Hin Hin').
Qed.

Lemma em_block e K p u : em_ok e K -> K !! p = Some (u, false) -> start_of e <= p /\ 64 <= u /\ p + u <= start_of e + SZ /\ p mod 32 = 0 /\ 0 < start_of e /\ start_of e + SZ <= 2 ^ 48.
Proof.
  intros He Hp. destruct (eo_arena _ _ He) as [_ [[l HR] _ _ _ _ _ _]]. destruct (bl_block _ (rep_ok _ _ _ _ HR) _ _ _ Hp) as (? & ? & ? & Hm & _).
  destruct (eo_start _ _ He) as [(? & _ & ? & _) _]. fold (start_of e) in *.
  assert (Hin : forall x, p <= x < p + u -> start_of e <= x < start_of e + SZ) by (intros x Hx; apply (eo_inside _ _ He); right; exists false, p, u; done).
  pose proof (Hin p ltac:(lia)). pose proof (Hin (p + u - 1) ltac:(lia)). split_and!; (lia || done).
Qed.

(** The user may change the memory of its blocks. *)
Definition set_em_mem (m : mem) (e : Emergency (Sys := Sys)) : Emergency :=
  mkEmergency (with_mem m e.(lla).(random_r) e.(lla)) e.(emergency_arena) e.(emergency_arena_start_shifted) e.(em_errno).

Lemma em_write e K p u m' : em_ok e K -> K !! p = Some (u, false) ->
  (forall x, ~ p + 32 <= x < p + u -> m' !! x = e.(lla).(lla_mem) !! x) -> em_ok (set_em_mem m' e) K.
Proof.
  intros He Hp Hm. pose proof He as [[Ha0 [[l HR] Hco Hcnt Hal Hpg Har Htk]] ? ? ? ? ?]. pose proof (fun x => em_live_outside e K p u x He Hp) as Hout.
  assert (Harena : forall x, emergency_arena e <= x < emergency_arena e + sizeof_Arena -> m' !! x = e.(lla).(lla_mem) !! x).
  { intros x Hx. apply Hm. intros Hin. by destruct (Hout x ltac:(lia)). }
  split; unfold start_of, end_of in *; cbn [set_em_mem with_mem lla lla_mem lla_world emergency_arena emergency_arena_start_shifted]; try done.
  split; [done|]. split; cbn [set_em_mem with_mem lla lla_mem lla_world]; try done.
  - exists l. apply (rep_frame _ (lla_mem (lla e))); [done|]. intros y Hy. apply Hm. intros Hin. destruct (Hout y ltac:(lia)) as [Hya Hyf].
    destruct Hy as [[? _]|[?|(q & t & Hq & Hyq)]]; [done|done|]. unfold sizeof_Header in *. destruct (decide (q = p)) as [->|Hne]; [lia|].
    pose proof (bl_block _ (rep_ok _ _ _ _ HR) _ _ _ Hq) as [? _]. destruct (bl_apart _ (rep_ok _ _ _ _ HR) _ _ _ _ _ _ Hq Hp Hne); lia.
  - rewrite <- Hcnt. apply word_same, Harena. unfold allocation_count_at, sizeof_Arena. lia.
  - etrans; [|exact Hal]. apply word_same, Harena. unfold allocator_at, sizeof_Arena. lia.
Qed.

(** What freeing the block [p] of [u] bytes did. *)
Record em_freed (e : Emergency (Sys := Sys)) (K : blocks) (p u : Z) (e' : Emergency (Sys := Sys)) (K' : blocks) : Prop := {
  ef_ok : em_ok e' K';
  ef_live q t : K' !! q = Some (t, false) <-> K !! q = Some (t, false) /\ q <> p;
  ef_mem x : ~ emergency_arena e <= x < emergency_arena e + sizeof_Arena -> ~ in_block K true x -> ~ p <= x < p + u -> e'.(lla).(lla_mem) !! x = e.(lla).(lla_mem) !! x;
  ef_same : start_of e' = start_of e /\ emergency_arena e' = emergency_arena e /\ em_errno e' = em_errno e
}.

Lemma em_Free_run e K p u : em_ok e K -> K !! p = Some (u, false) ->
  exists e' K', on_lla (Free (p + 32)) e = Ok (tt, e') /\ em_freed e K p u e' K'.
Proof.
  intros He Hp. destruct (eo_arena _ _ He) as [Ha0 HI]. destruct (Free_run pages_allocator_place (emergency_arena e) (lla e) K p u HI Hp) as (st & K' & Hrun & Hre).
  destruct (re_world _ _ _ _ _ _ _ _ Hre) as [Hw _]. unfold sizeof_Header in Hrun.
  exists (mkEmergency st e.(emergency_arena) e.(emergency_arena_start_shifted) e.(em_errno)), K'. split; [unfold on_lla; by rewrite Hrun|].
  pose proof He as [_ H2 H3 H4 H5 H6]. split; unfold start_of, end_of in *; cbn [lla emergency_arena emergency_arena_start_shifted em_errno].
  - split; unfold start_of, end_of in *; cbn [lla emergency_arena emergency_arena_start_shifted em_errno]; rewrite ?Hw; try done.
    + split; [done|apply Hre].
    + intros x [Hx|[f Hx]]; apply H4; [by left|right]. by apply (re_owned _ _ _ _ _ _ _ _ Hre f).
    + by rewrite (re_total _ _ _ _ _ _ _ _ Hre).
  - apply (re_live _ _ _ _ _ _ _ _ Hre).
  - apply (re_mem _ _ _ _ _ _ _ _ Hre).
  - by rewrite Hw.
Qed.

Lemma check_started_run e K : em_ok e K -> check_started e = Ok (tt, e).
Proof. intros He. destruct (eo_start _ _ He) as [(H0 & _) _]. fold (start_of e) in H0. unfold check_started. erewrite bind_run by done. destruct (Z.eqb_spec (start_of e) 0); [lia|done]. Qed.

Lemma EmergencyFree_run e K p u : em_ok e K -> K !! p = Some (u, false) -> exists e' K', EmergencyFree (p + 32) e = Ok (tt, e') /\ em_freed e K p u e' K'.
Proof.
  intros He Hp. destruct (em_Free_run e K p u He Hp) as (e' & K' & Hrun & Hf). exists e', K'. split; [|done].
  unfold EmergencyFree. by erewrite bind_run by (by eapply check_started_run).
Qed.

Lemma EmergencyAllocatedSize_run e K p u : em_ok e K -> K !! p = Some (u, false) -> EmergencyAllocatedSize (p + 32) e = Ok (u - 32, e).
Proof.
  intros He Hp. destruct (eo_arena _ _ He) as [_ HI]. unfold EmergencyAllocatedSize. erewrite bind_run by (by eapply check_started_run).
  pose proof (UsableSize_run _ _ _ _ p u HI Hp) as Hrun. unfold sizeof_Header in Hrun. unfold on_lla. rewrite Hrun. by destruct e.
Qed.

(** ** The functions of emergency malloc *)

(** Not started yet, or in use. *)
Definition em_inv (e : Emergency (Sys := Sys)) (K : blocks) : Prop := start_of e = 0 /\ K = ∅ /\ sa_ok e.(lla).(lla_world).(sys) \/ em_ok e K.

Lemma wp_started e K : em_inv e K ->
  wp (if start_of e =? 0 then Init ;; check_started else mret tt) (fun _ e' => exists K', em_ok e' K' /\ (forall q t, K' !! q = Some (t, false) <-> K !! q = Some (t, false)) /\
    em_errno e' = em_errno e /\ (forall q t x, K !! q = Some (t, false) -> q <= x < q + t -> e'.(lla).(lla_mem) !! x = e.(lla).(lla_mem) !! x)) e.
Proof.
  intros [(H0 & -> & Hs)|He].
  - rewrite H0. change (0 =? 0) with true. cbv iota. apply wp_bind. eapply wp_mono; [by apply wp_InitEmergencyMalloc|]. intros [] e' (K' & He' & Hno & Herr & _).
    eapply wp_returns; [by eapply check_started_run|]. exists K'. split; [done|]. split; [|split; [done|intros q t x Hq; by rewrite lookup_empty in Hq]].
    intros q t. rewrite lookup_empty. split; [intros Hq; by apply Hno in Hq|done].
  - destruct (eo_start _ _ He) as [(H0 & _) _]. fold (start_of e) in H0. destruct (Z.eqb_spec (start_of e) 0); [lia|]. apply wp_ret. exists K. done.
Qed.

Lemma em_apart e K p u q t : em_ok e K -> K !! p = Some (u, false) -> K !! q = Some (t, false) -> p <> q -> p + u <= q \/ q + t <= p.
Proof. intros He Hp Hq Hne. destruct (eo_arena _ _ He) as [_ [[l HR] _ _ _ _ _ _]]. exact (bl_apart _ (rep_ok _ _ _ _ HR) _ _ _ _ _ _ Hp Hq Hne). Qed.

Abbreviation Malloc := (EmergencyMalloc default_allocator default_arena_storage pages_allocator_place).
Abbreviation Realloc := (EmergencyRealloc default_allocator default_arena_storage pages_allocator_place).

Lemma wp_EmergencyMalloc e K size : em_inv e K -> 0 < size <= 2 ^ 33 ->
  wp (Malloc size) (fun v e' => exists e1 K1 K' u, em_ok e1 K1 /\ (forall q t, K1 !! q = Some (t, false) <-> K !! q = Some (t, false)) /\ em_errno e1 = em_errno e /\
    (forall q t x, K !! q = Some (t, false) -> q <= x < q + t -> e1.(lla).(lla_mem) !! x = e.(lla).(lla_mem) !! x) /\ em_alloc e1 K1 size v e' K' u) e.
Proof.
  intros He Hsz. unfold EmergencyMalloc. apply wp_bind. apply wp_get. apply wp_bind. eapply wp_mono; [by apply (wp_started e K)|].
  intros [] e1 (K1 & He1 & Hlive1 & Herr1 & Hmem1). apply wp_bind, wp_get, wp_bind. eapply wp_mono; [by apply (wp_em_alloc e1 K1)|].
  intros v e' (K' & u & Ha). destruct (ea_new _ _ _ _ _ _ _ Ha) as (Hnew & _). destruct (em_block _ _ _ _ (ea_ok _ _ _ _ _ _ _ Ha) Hnew) as (Hlo & _ & _ & _ & H0 & _).
  destruct (Z.eqb_spec v 0); [lia|]. apply wp_bind, wp_ret, wp_ret. exists e1, K1, K', u. done.
Qed.

(** C17: [EmergencyMalloc], started or not, whose allocated blocks are [K]: unless there is
    no memory, the result is a block of at least [size] bytes at a multiple of 32 that
    overlaps no block in use; [IsEmergencyPtr] recognises each of its bytes,
    [EmergencyAllocatedSize] gives its size, [errno] is not touched, blocks in use keep
    their contents, and [EmergencyFree] returns and leaves the blocks in use before. *)
Theorem EmergencyMalloc_spec e K size : em_inv e K -> 0 < size <= 2 ^ 33 ->
  wp (Malloc size) (fun v e' => exists K' u,
    em_inv e' K' /\ v mod 32 = 0 /\ size + 32 <= u < size + 128 /\
    (forall q t, K' !! q = Some (t, false) <-> K !! q = Some (t, false) \/ q = v - 32 /\ t = u) /\
    (forall q t, K !! q = Some (t, false) -> q + t <= v - 32 \/ v - 32 + u <= q) /\
    (forall x, v <= x < v + size -> IsEmergencyPtr x e' = true) /\
    EmergencyAllocatedSize v e' = Ok (u - 32, e') /\ em_errno e' = em_errno e /\
    (forall q t x, K !! q = Some (t, false) -> q <= x < q + t -> e'.(lla).(lla_mem) !! x = e.(lla).(lla_mem) !! x) /\
    (exists e'' K'', EmergencyFree v e' = Ok (tt, e'') /\ em_inv e'' K'' /\ forall q t, K'' !! q = Some (t, false) <-> K !! q = Some (t, false))) e.
Proof.
  intros He Hsz. eapply wp_mono; [by apply (wp_EmergencyMalloc e K)|]. intros v e' (e1 & K1 & K' & u & He1 & Hlive1 & Herr1 & Hmem1 & Ha).
  pose proof Ha as [He' [Hu Hv32] (Hnew & Hnot & Hfree) Hlive Hmem (Hst & _ & Herr)]. destruct (em_block _ _ _ _ He' Hnew) as (Hlo & _ & Hhi & _ & H0 & _).
  exists K', u. split; [by right|]. split; [done|]. split; [done|]. split; [intros q t; by rewrite Hlive, Hlive1|]. split; [|split; [|split; [|split; [congruence|split]]]].
  - intros q t Hq. apply Hlive1 in Hq. assert (Hq' : K' !! q = Some (t, false)) by (apply Hlive; by left).
    assert (Hne : q <> v - 32) by (intros ->; by apply Hnot in Hq). exact (em_apart e' K' _ _ _ _ He' Hq' Hnew Hne).
  - intros x Hx. apply (IsEmergencyPtr_iff e' K'); [done|lia|lia].
  - pose proof (EmergencyAllocatedSize_run e' K' _ _ He' Hnew) as Hrun. by replace (v - 32 + 32) with v in Hrun by lia.
  - intros q t x Hq Hx. rewrite <- (Hmem1 q t x Hq Hx). apply Hlive1 in Hq. destruct (em_live_outside e1 K1 q t x He1 Hq Hx). by apply Hmem.
  - destruct (EmergencyFree_run e' K' _ _ He' Hnew) as (e'' & K'' & Hrun & Hf). replace (v - 32 + 32) with v in Hrun by lia. exists e'', K''. split; [done|]. split; [right; apply Hf|].
    intros q t. rewrite (ef_live _ _ _ _ _ _ Hf), Hlive, Hlive1. split; [intros [[?|[? _]] ?]; done|]. intros Hq. split; [by left|]. intros ->. apply Hlive1 in Hq. by apply Hnot in Hq.
Qed.

End EmergencySpec.
