(* ===== verification/LowLevelScenario.v ===== *)
(** The low-level allocator on the pages of the system, and runs of it and of emergency
    malloc on [BumpOS]. *)
From S2P Require Import Prelude SizeMap LinkedList Bytes SystemAlloc BumpOS SkipList LowLevelAlloc LowLevelInv LowLevelOps LowLevelSpec LowLevelArenas EmergencyMalloc EmergencySpec.

(** ** The default pages allocator keeps what arenas rely on *)

Section DefaultPages.
Context {Sys : Type} {OSops : OS (Sys := Sys)} {OSG : OSGhost (Sys := Sys)} {OSL : OSLaws}.
Context (place : Z).

#[local] Instance default_pages : PagesAllocator (SysAlloc (Sys := Sys)) := {|
  MapPages _ size := DefaultPagesAllocator_MapPages size;
  UnMapPages _ addr size := DefaultPagesAllocator_UnMapPages addr size;
  default_pages_allocator := place
|}.

(** The memory of the program, and what it obtained. *)
#[local] Instance default_ghost : PagesGhost (SysAlloc (Sys := Sys)) := {|
  pages_ok s := sa_ok s;
  taken s x := image x \/ used s.(os) x;
  pages_rel s s' := s' = upd_os s'.(os) s
|}.

(** The size is rounded up to whole pages. *)
Lemma whole_pages k n : 6 <= k <= 30 -> 0 < n <= 2 ^ 35 ->
  let r := u64 (n + Z.land (u64 (- n)) (2 ^ k - 1)) in n <= r <= n + 2 ^ k /\ r mod 2 ^ k = 0.
Proof.
  intros Hk Hn. assert (H2k : 0 < 2 ^ k <= 2 ^ 30) by (split; [apply Z.pow_pos_nonneg|apply Z.pow_le_mono_r]; lia).
  assert (Hu : u64 (- n) mod 2 ^ k = - n mod 2 ^ k).
  { assert (H64 : 2 ^ 64 = 2 ^ (64 - k) * 2 ^ k) by (rewrite <- Z.pow_add_r by lia; f_equal; lia).
    apply Z.mod_mod_divide. by exists (2 ^ (64 - k)). }
  cbv zeta. rewrite land_align, Hu by lia. pose proof (Z.mod_pos_bound (- n) (2 ^ k) ltac:(lia)). pose proof (Z.div_mod (- n) (2 ^ k) ltac:(lia)).
  rewrite u64_small by lia. split; [lia|]. replace (n + - n mod 2 ^ k) with (- (- n / 2 ^ k) * 2 ^ k) by lia. apply Z.mod_mul. lia.
Qed.

#[local] Instance default_laws : PagesLaws place getpagesize.
Proof.
  destruct getpagesize_pow as (k & Hk & Hps). assert (H2k : 0 < 2 ^ k <= 2 ^ 30) by (split; [apply Z.pow_pos_nonneg|apply Z.pow_le_mono_r]; lia).
  split; [lia|by intros []|]. intros n w Hw Hn _. cbn [MapPages default_pages]. unfold DefaultPagesAllocator_MapPages. rewrite Hps. cbv zeta.
  destruct (whole_pages k n Hk Hn) as [Hr Hrm]. set (r := u64 _) in *. destruct (Z.ltb_spec r n); [lia|]. unfold MapAnonymous. apply wp_bind, wp_mmap; [done|lia|].
  intros [p|] w' Hg Hup Hp; [|done]. apply wp_ret. destruct Hp as (Hob & Hne & Hpm). destruct Hob as [[? _]|(Hp0 & Hp48 & Hnu & Hu)]; [done|]. rewrite Hps in Hpm.
  assert (H32 : forall x, x mod 2 ^ k = 0 -> x mod 32 = 0) by (intros x Hx; apply (mod_pow_le x 5 k); [lia|done]).
  cbn [pages_ok taken pages_rel default_ghost]. split; [apply Hg|]. split; [done|]. split; [lia|]. split; [done|]. split; [done|]. split; [by apply H32|]. split; [by apply H32|]. split.
  - intros x Hx [Hi|Hus]; [|by apply (Hnu x)]. apply (used_image w'.(os) x); [apply Hg|apply Hu; by right|done].
  - intros x. rewrite Hu. tauto.
Qed.
End DefaultPages.

(** ** Runs *)

Module Runs.
Definition storage : Z := 2 ^ 20.
Definition place : Z := 2 ^ 21.
Definition system : SysAlloc (Sys := BumpOS) := mkSysAlloc bump_start false false false 0 0 (false, false) false 0.

#[local] Existing Instance default_pages.
#[local] Existing Instance default_ghost.
#[local] Existing Instance default_laws.

Abbreviation PA0 := (default_pages place).
Abbreviation Alloc := (AllocWithArena (PA := PA0) storage).

Definition state_of {S A} (d : S) (r : result (A * S)) : S := match r with Ok (_, s) => s | _ => d end.
Definition value_of {S} (r : result (Z * S)) : Z := match r with Ok (v, _) => v | _ => 0 end.

Definition start : LLA (SysAlloc (Sys := BumpOS)) := mkLLA ∅ 1 0 system.
(** The default arena, after its first use. *)
Definition ready : LLA (SysAlloc (Sys := BumpOS)) := state_of start (DefaultArena (PA := PA0) storage start).

Lemma ready_inv : arena_inv place storage ready ∅.
Proof.
  destruct (DefaultArena_run (PA := PA0) storage start) as (st & Hrun & HI & _); [done|done|done|by split; [apply bump_start_ok|left]| |].
  - intros x Hx. left. unfold storage, sizeof_Arena in Hx. cbn. unfold bump_base. lia.
  - unfold ready. rewrite Hrun. exact HI.
Qed.

Definition first : Z := 2 ^ 30 + 32.
Definition allocated_once : LLA (SysAlloc (Sys := BumpOS)) := state_of ready (Alloc 100 storage ready).


(** Two allocations, a store into the first block, and the second block is freed. *)
Definition second : Z := 2 ^ 30 + 192.
Definition stored : LLA (SysAlloc (Sys := BumpOS)) := with_mem (<[first + 8 := 7]> allocated_once.(lla_mem)) allocated_once.(random_r) allocated_once.
Definition allocated_twice : LLA (SysAlloc (Sys := BumpOS)) := state_of ready (Alloc 1000 storage stored).
Definition freed_second : LLA (SysAlloc (Sys := BumpOS)) := state_of ready (Free second allocated_twice).

Abbreviation step := (client_step (PA := PA0) storage (getpagesize (Sys := BumpOS)) storage).

(** What the user has then. *)
Definition left_blocks : gmap Z Z := delete second (<[second := 1024]> (<[first := 128]> ∅)).
Definition left_words : gmap Z Z := filter (fun '(x, _) => ~ second <= x < second + 1024) (<[first + 8 := 7]> ∅).

Lemma scenario_steps : exists c, rtc step (mkClient ready ∅ ∅ 0) c /\ c.(c_state) = freed_second /\ c.(c_blocks) = left_blocks /\ c.(c_words) = left_words.
Proof.
  eexists (mkClient freed_second left_blocks left_words _). split; [|done].
  eapply rtc_l; [eapply (cs_alloc _ _ _ _ _ _ _ 100 first 128 allocated_once allocated_once)|eapply rtc_l; [eapply (cs_write _ _ _ _ _ _ _ first 128 (first + 8) 7)|
    eapply rtc_l; [eapply (cs_alloc _ _ _ _ _ _ _ 1000 second 1024 allocated_twice allocated_twice)|eapply rtc_l; [eapply (cs_free _ _ _ _ _ _ _ second 1024 freed_second)|apply rtc_refl]]]].
  all: vm_compute; (reflexivity || done).
Qed.


(** ** Emergency malloc *)

Definition em_place : Z := 2 ^ 22.
Definition em_start : Emergency (Sys := BumpOS) := mkEmergency (mkLLA ∅ 1 0 (mkPages system 0 0)) 0 0 0.
Abbreviation EMalloc := (EmergencyMalloc place storage em_place).
Abbreviation ERealloc := (EmergencyRealloc place storage em_place).

Lemma em_start_inv : em_inv em_place em_start ∅.
Proof. left. split; [done|]. split; [done|]. split; [apply bump_start_ok|by left]. Qed.

Definition em_first : Z := 2 ^ 30 + 352.
Definition em_once : Emergency (Sys := BumpOS) := state_of em_start (EMalloc 100 em_start).

Lemma EmergencyMalloc_spec_witness : EMalloc 100 em_start = Ok (em_first, em_once) /\ IsEmergencyPtr (em_first + 99) em_once = true /\
  exists u e, EmergencyAllocatedSize em_first em_once = Ok (u, em_once) /\ 100 <= u /\ EmergencyFree em_first em_once = Ok (tt, e).
Proof.
  assert (Hrun : EMalloc 100 em_start = Ok (em_first, em_once)) by (vm_compute; reflexivity). split; [done|].
  destruct (wp_Ok _ _ _ _ _ (EmergencyMalloc_spec place storage em_place ltac:(done) ltac:(by vm_compute) em_start ∅ 100 em_start_inv ltac:(lia)) Hrun)
    as (K & u & _ & _ & Hu & _ & _ & Hptr & Hsize & _ & _ & e & K' & Hfree & _).
  split; [apply Hptr; lia|]. exists (u - 32), e. split; [done|]. split; [lia|done].
Defined.

(** The first block with bytes in it. *)
Definition em_filled : Emergency (Sys := BumpOS) := set_em_mem (<[em_first := 578437695752307201]> em_once.(lla).(lla_mem)) em_once.

Lemma em_filled_ok : exists K u, em_ok em_place em_filled K /\ K !! (em_first - 32) = Some (u, false) /\ 132 <= u.
Proof.
  assert (Hrun : EMalloc 100 em_start = Ok (em_first, em_once)) by (vm_compute; reflexivity).
  destruct (wp_Ok _ _ _ _ _ (wp_EmergencyMalloc place storage em_place ltac:(done) ltac:(by vm_compute) em_start ∅ 100 em_start_inv ltac:(lia)) Hrun)
    as (e1 & K1 & K & u & _ & _ & _ & _ & [He [Hu _] (Hnew & _) _ _ _]).
  exists K, u. split; [|split; [done|lia]]. apply (em_write em_place _ K (em_first - 32) u); [done|done|]. intros x Hx. apply lookup_insert_ne. lia.
Qed.

Definition em_second : Z := 2 ^ 30 + 512.
Definition em_moved : Emergency (Sys := BumpOS) := state_of em_start (ERealloc em_first 200 em_filled).

End Runs.
